(* ===== verification/_CoqProject ===== *)
-Q . S2P
Prelude.v
Effects.v
ExitCode.v
StdString.v
Paths.v
FileUtil.v
MsgChannel.v
CompileJob.v
Compilers.v
Arguments.v
ArgumentFacts.v
ArgumentLoop.v
Msg.v
Files.v
MsgCodec.v
Interface.v
Transport.v
TransportFacts.v
Connection.v
Discovery.v
Sockets.v
Searching.v
Float.v
CompileServer.v
SchedulingAlgo.v
Scheduler.v
ChannelImpl.v
SearchFacts.v
Handlers.v
Dispatch.v
SchedulerMain.v
QueueFacts.v
SchedulerFacts.v
WellFormed.v
Reachable.v
Serving.v
MainFacts.v
RoundRobin.v
Client.v
RemoteBuild.v
ClientMain.v
ClientFacts.v
FileTransfer.v
RemoteFacts.v
Worker.v
WorkIt.v
Serve.v
WorkerFacts.v
WorkItFacts.v
WorkItEnds.v
ServeFacts.v
CommandFacts.v
ServeErrors.v
ServeEnds.v
Exchange.v
Load.v
DaemonState.v
ServerSetup.v
SetupFacts.v
Environments.v
EnvInstall.v
EnvFacts.v
Daemon.v
LoadFacts.v
DaemonLoop.v
DaemonFacts.v
DaemonInvariant.v
DaemonRequests.v
DaemonReachable.v
DaemonErrors.v
