(* ===== verification/Prelude.v ===== *)
(** * Icecream: a verification development

    Icecream distributes C and C++ compile jobs over the machines of a network.
    This library models the parts of it that decide something, as executable
    definitions translated from the sources, and proves what makes them correct.

    ** The program

    - The _client_ (client/) stands for the compiler. It analyses the command
      line, asks the daemon of its machine for a server, and sends the
      preprocessed source there, or compiles itself.
    - The _daemon_ (daemon/main.cpp, [iceccd]) runs on every machine. It serves
      the clients of its own machine and compiles for others, keeps the compile
      environments, counts the jobs that run, and tells the scheduler of its load.
    - The _scheduler_ (scheduler/) knows all daemons. It queues the requests of
      the clients, chooses a server for each, and reports to monitors.
    - They all talk over a _channel_ (services/comm.cpp): messages with a length
      word in front, in a protocol version agreed upon at the start.

    ** Conventions

    - Computations that can fail are functions of a state to [Ok] with a result
      and a new state, or to a [fault] (the monad [M] of this file): a failed
      [assert] (assertions are taken to be enabled), the use of a null or a
      deleted pointer, an index out of range, an exception. There is no state
      after a fault. A [reader] or [writer] is a computation on a channel.
    - Objects with an identity live in maps from addresses (positive numbers) to
      records: the jobs and servers of the scheduler ([s_heap_jobs], [s_servers]),
      the clients of the daemon ([d_heap]). To delete an object is to take it out
      of the map; reading through a pointer that is left over is [UseAfterFree].
    - Integers are [Z], wrapped at their width where the code can overflow
      ([u32], [u64], [i32]). Floats are those of Float.v. Strings are [string],
      bytes [byte].
    - What the code asks of the system or of a library is an argument: the
      compressors ([Compressors]), the calls of a channel (its [io], a script of
      what [read], [send] and [poll] answer), the machine as the client sees it
      (records of functions in Compilers.v and Arguments.v), the system the daemon
      runs on (the class [System], each answer depending on how many questions
      were put before), the one a client runs on (the class [Host], likewise),
      the one of a child that compiles (the class [Workplace]), the disk and the
      archive of an environment ([Disk]), the network ([Network]), the machine at
      the start of a server ([Setting]), [random()] and the time. A call that is
      interrupted by a signal counts with the answer of its last repetition. In
      the main loop of the scheduler a [Round] holds what the system answers
      in one turn; time passes while it polls.
    - Loops without a structural measure have fuel. Where it is exhausted the
      result is a fault that the theorems exclude, or the fuel is the number of
      events from outside (messages that have arrived, rounds of a main loop).
    - A state is _reachable_ when steps lead to it from the initial one; a step is
      a piece of the main loop that the code runs as a whole.
    - A client leaves a record of what it did to the rest of the world, in order:
      the messages it sent, with the answer of the channel, and heard, the files
      it removed and renamed, what it printed ([client_effect]). The files it
      writes are part of its state ([bd_files]). The child of the daemon leaves
      such a record, too ([work_effect]): also what the compiler read, and the
      report to the daemon.
    - Logging is left out, except for pointers that only it dereferences.

    ** The files

    Shared:
    - Prelude.v (this file): machine integers, bytes, the monad, the
      properties of computations ([keeps], [leads], [runs], [agree]) and the
      tactics and hints ([icc]) that prove them.
    - StdString.v: searching and cutting of [std::string].
    - Effects.v: computations that throw and leave a record of their effects, and
      what they yield ([yields_in]).
    - ExitCode.v: services/exitcode.h and exitcode.cpp.
    - Files.v: files that are read in pieces, and chunks.
    - Float.v: binary32 and binary64 arithmetic.

    The channel:
    - MsgChannel.v: the object, its buffers and the operators [<<] and [>>].
    - CompileJob.v: services/job.cpp.
    - Msg.v: the message classes, [send_to_channel], [fill_from_channel].
    - MsgCodec.v: what the receiver makes of each message, per protocol version.
    - Transport.v: [read_a_bit], [update_state], [get_msg], [send_msg],
      [set_error], the handshake.
    - TransportFacts.v, Connection.v: invariants of the engine, and two channels
      joined by a stream of bytes.
    - Discovery.v: the broadcasts by which schedulers are found.
    - Sockets.v: connections and broadcasts, over the open descriptors.
    - Searching.v: the object [DiscoverSched], the names of networks, and the
      piece of [Daemon::reconnect] that drives the search.
    - Interface.v: the class [Channels] that servers are written against with its
      laws [ChannelLaws], the readiness of descriptors ([pollfd_is_set]), and
      iteration over a [std::map].
    - ChannelImpl.v: the engine of Transport.v as an instance of that class.
    - SearchFacts.v: descriptors, the scheduler that is connected to, broadcasts
      that fail.

    The start of the servers:
    - ServerSetup.v: the command lines of the scheduler and the daemon, the user
      they run as, the sockets they listen to.
    - SetupFacts.v: accepted options, and where a daemon can be reached.

    The scheduler:
    - CompileServer.v: scheduler/job.cpp, jobstat.cpp, compileserver.cpp.
    - SchedulingAlgo.v: scheduling_algo.cpp, and the speeds of scheduler.cpp.
    - Scheduler.v: the global variables, the heap, the queue of requests.
    - Handlers.v, Dispatch.v: [handle_end], the handlers of the messages, the
      control connection, [empty_queue], [prune_servers], pieces of [main].
    - SchedulerMain.v: the turns of the main loop, and the end of the scheduler.
    - QueueFacts.v, SchedulerFacts.v, WellFormed.v: the invariants of the queue,
      of the job table and of the lists of connections, kept by all of it.
    - Reachable.v: steps and reachable states.
    - Serving.v: in what order requests are served.
    - MainFacts.v: the main loop takes the steps of Reachable.v, the loop around
      [empty_queue] ends, tests of connections.
    - RoundRobin.v: the queue refines an abstract one.

    The daemon:
    - DaemonState.v: clients, environments, counters, the class [System].
    - Load.v, LoadFacts.v: daemon/load.cpp as compiled for Linux, and its bounds.
    - Environments.v: the parent's side of daemon/environment.cpp.
    - EnvInstall.v, EnvFacts.v: the directories of the environments, the children
      that unpack and build one, the cache emptied at the start.
    - Daemon.v: the connection to the scheduler, [maybe_stats], the cache of
      environments, [finish_transfer_env], [handle_end], [clear_children].
    - DaemonLoop.v: the handlers, [handle_old_request], the main loop.
    - DaemonFacts.v, DaemonInvariant.v: what leaves the books alone, and that the
      counters, the tables and the clients stay consistent through every handler.
    - DaemonRequests.v: the end of a client and the start of waiting jobs, as
      computations that return.
    - DaemonReachable.v: steps and reachable states.
    - DaemonErrors.v: where the daemon goes wrong.

    The child of the daemon that compiles:
    - FileUtil.v: names of files in daemon/file_util.cpp.
    - Worker.v: the child's state, its record and its system; temporary files
      (services/tempfile.c), directories and trees (file_util.cpp), the
      environment it enters (environment.cpp).
    - WorkIt.v: [work_it] of daemon/workit.cpp, services/gcc.cpp.
    - Serve.v: the child's part of [handle_connection] of daemon/serve.cpp.
    - WorkerFacts.v: rules for its computations, and those that stay within
      bounds ([within]).
    - WorkItFacts.v: what goes to the compiler, and what the status means.
    - WorkItEnds.v: the loop ends, on a system that settles ([Settling]).
    - ServeFacts.v, ServeErrors.v, ServeEnds.v: what client and daemon are told;
      a child without a compiler; the child ends.
    - CommandFacts.v: the command of the compiler and the place of its output.
    - Exchange.v: the client and the child, with a connection between them.

    The client:
    - Paths.v: [get_absfilename] of client/remote.cpp.
    - Compilers.v: names and defaults of compilers (services/util.cpp,
      client/local.cpp, client/util.cpp).
    - Arguments.v: [analyse_argv] of client/arg.cpp. ArgumentFacts.v: what is
      distributed. ArgumentLoop.v: what becomes of each argument.
    - Client.v: the state [Build] of a client and the class [Host]; the lock of
      the machine (util.cpp), the preprocessor (cpp.cpp), [build_local]
      (local.cpp), the guard against recursion.
    - RemoteBuild.v: the rest of client/remote.cpp.
    - ClientMain.v: client/main.cpp.
    - ClientFacts.v: what a computation of the client leaves behind, as
      a predicate on its result, its effects and its final state ([yields]), with
      a rule for each operation.
    - FileTransfer.v: files that are sent and received.
    - RemoteFacts.v: a compilation on a server, the environments that are
      offered, repeated builds, the lock.

    ** What is proved

    - The channel delivers: what is sent on an established connection arrives, in
      order and once, however the bytes are cut; the handshake agrees on a
      version, and completes with a peer that goes along; [get_msg] keeps its
      read buffer within bounds, or reads behind what was received, and has no
      other fault; a message consumes exactly its length; the error handler nests
      once.
    - Discovery: answers and announcements are understood by their receivers, the
      best scheduler of all answers read is chosen and connected to; the search loses no descriptor and
      closes none but its own; the search for names of networks ends.
    - The start: a daemon listens where it should and nowhere else; the options a
      scheduler accepts are sane.
    - The scheduler: its queue, its job table and its lists of connections are
      well-formed in every reachable state; [handle_end] nests once; [pick_server]
      gives an eligible server; requests are served by turns, as in an abstract
      queue; the search for a server ends; the main loop only reaches reachable
      states, and serves the queue as far as anybody takes its first request,
      without a fault where everybody is there ([present]) and sends get through.
    - The daemon: in every reachable state its counters are exact, and its tables
      and clients consistent; the end of a client releases what it held and tells
      the scheduler what its state calls for; waiting jobs are started while
      there is room; its load is in thousandths. The steps assume clients that follow the protocol of icecc
      ([polite]) and a scheduler that answers only a client that waits
      ([answers]); [use_cs_leaks_slot] shows what happens without the latter.
    - Environments on the disk: the cache is emptied without leaving its directory,
      as a whole unless something is refused; the child that unpacks tells
      success when it has unpacked every entry up to the end of the archive, and
      a failure only when something was refused.
    - The child that compiles: the source that arrives goes to the compiler
      without a gap; a success means that the compiler ended well; result, report
      and files come in a fixed order; the child ends; the compiler writes
      where the file is looked for, and its arguments fit.
    - Both together: a client that ends with 0 has the object file of its job, as
      it was after the compiler on the server had ended, and the compiler there got
      the source the client had preprocessed.
    - The client: jobs that are distributed can be; arguments are kept, in a table
      of what becomes of each; the
      textual treatment of paths is an operation on components. Files are
      sent whole and received whole or not at all; a build that returns has gone
      through its conversation with the server; the environments offered are the
      first usable ones; repeated builds agree.
    - Where the code goes wrong: theorems of kind error, each with an input.

    ** Fuel

    - [set_error_depth]: nested calls of [set_error]; [set_error_depth_enough].
    - [flush], [get_msg] and the waiting loops: the answers in the script of the
      channel's [io]; a script that ends stands for a peer that is silent.
    - [find_server]: the requests in the queue; [find_server_ends]. [empty_queues]:
      one more than the requests; [queue_served_out]. The shutdown of the
      scheduler: [shutdown_fuel]. [read_connections], [scan_connections]: the
      descriptors in the table.
    - [scan]: the datagrams that have arrived; [scan_heard]. [netname_rounds]: the
      turns until the clock passes the time-out; [getNetnames_ends]. [lowest_from]:
      the open descriptors; [lowest_free_free].
    - [unpack], [copy_data]: the answers of the archive; [install_child_ends], and
      [broken_archive_hangs] where it gives no end.
    - [handle_end] of the scheduler: nested rounds; [handle_end_nests_once].
    - [drain], [scan_all], [scheduler_input], [client_input]: messages a peer
      has sent.
    - [old_requests]: the clients; [handle_old_request_serves]. [end_clients],
      [fail_waiting], [client_fds], [clients_ready], [envs_ready]: entries of the
      map that is walked. [check_cache_loop]: the environments. [write_chunk]: the
      bytes to write.
    - The loops on paths and on the names of compilers: the length of the
      string; [get_absfilename_clean]. [scan_args]: the arguments.
    - [write_loop]: the bytes and answers [read] gives; [file_sent_whole].
      [receive_loop], [drain_server]: the messages the server still sends; then
      it is silent, which the code takes for the end. [color_lines]: the text.
    - [poll_loop]: the rounds of the loop; [connection_ends]. [mkpath_in]: the
      length of the name; [try_names], [try_directories]: [max_tries] of the code;
      [write_output_loop]: as [write_loop].

    ** Not modelled

    - System calls and what only consists of them: sockets and their options,
      fork, pipes, chroot, signals, detaching from the terminal, opening the files
      of the kernel with its counters. The archive library is a list of answers.
    - Of the client: the usage texts, the handlers of signals, and the expansion
      of response files (argv.c, third party).
    - client/md5.c (third party), the compiler wrapper, logging, tests.
    - Concurrency: the programs are single-threaded; what other processes do
      shows in the answers of the system and in the steps. *)

From Stdlib Require Import ZArith Lia.
From Stdlib Require Import Strings.Byte Strings.String.
From stdpp Require Import base tactics option list gmap strings.

#[global] Open Scope Z_scope.

(** ** Tactics *)

(** Opens existentials and conjunctions of the context. *)
Ltac open_hyps :=
  repeat match goal with
  | H : exists _, _ |- _ => destruct H
  | H : _ /\ _ |- _ => destruct H
  end.

(** Case analysis on the scrutinee of the innermost [match] of the goal. *)
Ltac case_goal :=
  match goal with
  | |- context [match ?x with _ => _ end] =>
      lazymatch x with
      | context [match _ with _ => _ end] => fail
      | _ => destruct x eqn:?
      end
  end.

(** The same for a hypothesis. *)
Ltac case_hyp H :=
  match type of H with
  | context [match ?x with _ => _ end] =>
      lazymatch x with
      | context [match _ with _ => _ end] => fail
      | _ => destruct x eqn:?
      end
  end.

(** Turns the boolean comparisons of the context into propositions. *)
Ltac boolify :=
  repeat match goal with
  | H : (_ && _)%bool = true |- _ => apply andb_true_iff in H; destruct H
  | H : (_ || _)%bool = false |- _ => apply orb_false_iff in H; destruct H
  | H : negb _ = true |- _ => apply negb_true_iff in H
  | H : negb _ = false |- _ => apply negb_false_iff in H
  | H : (_ <? _) = true |- _ => apply Z.ltb_lt in H
  | H : (_ <? _) = false |- _ => apply Z.ltb_ge in H
  | H : (_ <=? _) = true |- _ => apply Z.leb_le in H
  | H : (_ <=? _) = false |- _ => apply Z.leb_gt in H
  | H : (_ =? _) = true |- _ => apply Z.eqb_eq in H
  | H : (_ =? _) = false |- _ => apply Z.eqb_neq in H
  end.

(** ** Machine integers

    A [w]-bit C++ integer is a [Z]; the conversions below are the ones the
    language performs on assignment and on arithmetic at that width. *)

Definition u8 (z : Z) : Z := z mod 2 ^ 8.
Definition u32 (z : Z) : Z := z mod 2 ^ 32.
Definition u64 (z : Z) : Z := z mod 2 ^ 64.
(** Conversion to [int] (two's complement). *)
Definition i32 (z : Z) : Z := (z + 2 ^ 31) mod 2 ^ 32 - 2 ^ 31.

(** Conversion to a 64-bit signed integer, such as [time_t]. *)
Definition i64 (z : Z) : Z := (z + 2 ^ 63) mod 2 ^ 64 - 2 ^ 63.
(** Conversion to [signed char]. *)
Definition i8 (z : Z) : Z := (z + 2 ^ 7) mod 2 ^ 8 - 2 ^ 7.

Definition is_u32 (z : Z) : bool := (0 <=? z) && (z <? 2 ^ 32).
Definition is_i32 (z : Z) : bool := (- 2 ^ 31 <=? z) && (z <? 2 ^ 31).

Lemma is_u32_iff z : is_u32 z = true <-> 0 <= z < 2 ^ 32.
Proof. unfold is_u32. rewrite andb_true_iff, Z.leb_le, Z.ltb_lt. tauto. Qed.

Lemma is_i32_iff z : is_i32 z = true <-> - 2 ^ 31 <= z < 2 ^ 31.
Proof. unfold is_i32. rewrite andb_true_iff, Z.leb_le, Z.ltb_lt. tauto. Qed.

Lemma u32_range z : 0 <= u32 z < 2 ^ 32.
Proof. unfold u32. apply Z.mod_pos_bound. lia. Qed.

Lemma u32_small z : is_u32 z = true -> u32 z = z.
Proof. rewrite is_u32_iff. intros H. unfold u32. by rewrite Z.mod_small. Qed.

Lemma u32_idem z : u32 (u32 z) = u32 z.
Proof. unfold u32. by rewrite Z.mod_mod by lia. Qed.

Lemma is_u32_u32 z : is_u32 (u32 z) = true.
Proof. apply is_u32_iff, u32_range. Qed.

Lemma i32_small z : is_i32 z = true -> i32 z = z.
Proof. rewrite is_i32_iff. intros H. unfold i32. rewrite Z.mod_small; lia. Qed.

(** An [int] sent as a [uint32_t] and read back as an [int] is itself. *)
Lemma i32_u32 z : is_i32 z = true -> i32 (u32 z) = z.
Proof.
  rewrite is_i32_iff. intros H. unfold i32, u32.
  rewrite Zplus_mod_idemp_l. rewrite Z.mod_small; lia.
Qed.

(** A [bool] converted to an integer. *)
Definition z_of_bool (b : bool) : Z := if b then 1 else 0.

Lemma z_of_bool_back b : negb (z_of_bool b =? 0) = b.
Proof. by destruct b. Qed.

Lemma is_u32_bool b : is_u32 (z_of_bool b) = true.
Proof. by destruct b. Qed.

Create HintDb icc.
Create Rewrite HintDb icc.
#[export] Hint Resolve is_u32_u32 is_u32_bool u32_range : icc.
#[export] Hint Rewrite u32_idem z_of_bool_back : icc.

(** ** Bytes *)

Abbreviation byte := Byte.byte (only parsing).
#[export] Instance byte_eq_dec : EqDecision byte.
Proof. intros a b. destruct (Byte.byte_eq_dec a b); [by left | by right]. Defined.

Definition byte_of_Z (z : Z) : byte :=
  default x00 (Byte.of_N (Z.to_N (z mod 256))).
Definition Z_of_byte (b : byte) : Z := Z.of_N (Byte.to_N b).

(** The value of a [char], which is signed on the platforms the code targets. *)
Definition schar (b : byte) : Z :=
  if Z_of_byte b <? 128 then Z_of_byte b else Z_of_byte b - 256.

Lemma Z_of_byte_range b : 0 <= Z_of_byte b < 256.
Proof. unfold Z_of_byte. pose proof (Byte.to_N_bounded b). lia. Qed.

Lemma Z_of_byte_of_Z z : Z_of_byte (byte_of_Z z) = z mod 256.
Proof.
  unfold Z_of_byte, byte_of_Z.
  pose proof (Z.mod_pos_bound z 256 ltac:(lia)) as Hr.
  destruct (Byte.of_N (Z.to_N (z mod 256))) as [b|] eqn:E; simpl.
  - apply Byte.to_of_N in E. rewrite E. lia.
  - apply Byte.of_N_None_iff in E. lia.
Qed.

Lemma byte_of_Z_of_byte b : byte_of_Z (Z_of_byte b) = b.
Proof.
  unfold Z_of_byte, byte_of_Z.
  pose proof (Byte.to_N_bounded b).
  rewrite Z.mod_small by lia. rewrite N2Z.id, Byte.of_to_N. done.
Qed.

(** Big-endian 32-bit words: what [htonl] followed by [memcpy] writes, and
    what [memcpy] followed by [ntohl] reads. *)
Definition be32 (z : Z) : list byte :=
  [byte_of_Z (Z.shiftr z 24); byte_of_Z (Z.shiftr z 16);
   byte_of_Z (Z.shiftr z 8); byte_of_Z z].

Definition be32_value (l : list byte) : Z :=
  fold_left (fun acc b => acc * 256 + Z_of_byte b) l 0.

(** Little-endian words, the order of the protocol handshake and of the old
    broadcast messages on the platforms the code targets. *)
Fixpoint le_bytes (n : nat) (z : Z) : list byte :=
  match n with
  | O => []
  | S n => byte_of_Z z :: le_bytes n (Z.shiftr z 8)
  end.

Fixpoint le_value (l : list byte) : Z :=
  match l with
  | [] => 0
  | b :: l => Z.lor (Z_of_byte b) (Z.shiftl (le_value l) 8)
  end.

Lemma be32_length z : length (be32 z) = 4%nat.
Proof. done. Qed.

Lemma be32_value_be32 z : be32_value (be32 z) = u32 z.
Proof.
  unfold be32_value, be32. cbn [fold_left]. rewrite !Z_of_byte_of_Z.
  rewrite !Z.shiftr_div_pow2 by lia. unfold u32.
  Z.div_mod_to_equations. lia.
Qed.

Lemma be32_u32 z : be32 (u32 z) = be32 z.
Proof.
  assert (forall n, 0 <= n <= 24 ->
            byte_of_Z (Z.shiftr (u32 z) n) = byte_of_Z (Z.shiftr z n)) as Hb.
  { intros n Hn. unfold byte_of_Z. do 3 f_equal.
    apply Z.bits_inj'. intros i Hi.
    change 256 with (2 ^ 8).
    destruct (decide (i < 8)).
    - rewrite !Z.mod_pow2_bits_low by lia. rewrite !Z.shiftr_spec by lia.
      unfold u32. by rewrite Z.mod_pow2_bits_low by lia.
    - by rewrite !Z.mod_pow2_bits_high by lia. }
  unfold be32. rewrite !Hb by lia.
  pose proof (Hb 0 ltac:(lia)) as H0. rewrite !Z.shiftr_0_r in H0. by rewrite H0.
Qed.

Lemma le_bytes_length n z : length (le_bytes n z) = n.
Proof. revert z. induction n; intros z; simpl; auto. Qed.

Lemma lor_byte_shift a b :
  0 <= a < 256 -> Z.lor a (Z.shiftl b 8) = a + 256 * b.
Proof.
  intros Ha. pose proof (Z.add_lor_land a (Z.shiftl b 8)) as E.
  assert (Z.land a (Z.shiftl b 8) = 0) as E0.
  { apply Z.bits_inj'. intros i Hi. rewrite Z.land_spec, Z.bits_0.
    destruct (decide (i < 8)).
    - rewrite Z.shiftl_spec_low by lia. apply andb_false_r.
    - rewrite <- (Z.mod_small a (2 ^ 8)) by lia.
      by rewrite Z.mod_pow2_bits_high by lia. }
  rewrite E0, Z.shiftl_mul_pow2 in E by lia.
  rewrite Z.shiftl_mul_pow2 by lia. lia.
Qed.

Lemma le_value_le_bytes n z : le_value (le_bytes n z) = z mod 2 ^ (8 * Z.of_nat n).
Proof.
  revert z. induction n as [|n IH]; intros z.
  - simpl. by rewrite Z.mod_1_r.
  - cbn [le_bytes le_value]. rewrite IH, Z_of_byte_of_Z.
    rewrite lor_byte_shift by (apply Z.mod_pos_bound; lia).
    rewrite Z.shiftr_div_pow2 by lia.
    replace (8 * Z.of_nat (S n)) with (8 + 8 * Z.of_nat n) by lia.
    rewrite Z.pow_add_r by lia. change (2 ^ 8) with 256.
    rewrite Z.rem_mul_r by lia. lia.
Qed.

Lemma le_value_range l : 0 <= le_value l < 2 ^ (8 * Z.of_nat (length l)).
Proof.
  induction l as [|b l IH]; [simpl; lia|].
  cbn [le_value length]. pose proof (Z_of_byte_range b).
  rewrite lor_byte_shift by done.
  replace (8 * Z.of_nat (S (length l))) with (8 + 8 * Z.of_nat (length l)) by lia.
  rewrite Z.pow_add_r by lia. change (2 ^ 8) with 256. lia.
Qed.

(** ** Strings

    A [std::string] is a [string] (it may hold NUL characters); a [char]
    buffer is a [list byte]. *)

Abbreviation bytes_of := list_byte_of_string (only parsing).
Abbreviation str_of := string_of_list_byte (only parsing).

(** The NUL-terminated string at the start of a buffer, [None] when the
    buffer ends before a NUL is found. *)
Fixpoint c_string (l : list byte) : option (list byte) :=
  match l with
  | [] => None
  | b :: l => if decide (b = x00) then Some [] else (b ::.) <$> c_string l
  end.

(** The string holds no NUL character, so its C string is the whole of it. *)
Definition nul_free (s : string) : bool :=
  forallb (fun b => bool_decide (b <> x00)) (bytes_of s).

Lemma c_string_app s r :
  forallb (fun b => bool_decide (b <> x00)) s = true ->
  c_string (s ++ x00 :: r) = Some s.
Proof.
  induction s as [|b s IH]; intros Hs; cbn [app c_string].
  - by rewrite decide_True.
  - cbn [forallb] in Hs. apply andb_true_iff in Hs as [Hb Hs].
    apply bool_decide_eq_true in Hb. rewrite decide_False by done.
    by rewrite IH.
Qed.

Lemma c_string_nul_free s r :
  nul_free s = true -> c_string (bytes_of s ++ x00 :: r) = Some (bytes_of s).
Proof. apply c_string_app. Qed.

Lemma bytes_of_str_of l : bytes_of (str_of l) = l.
Proof. apply list_byte_of_string_of_list_byte. Qed.

Lemma str_of_bytes_of s : str_of (bytes_of s) = s.
Proof. apply string_of_list_byte_of_string. Qed.

#[export] Hint Rewrite bytes_of_str_of str_of_bytes_of : icc.

Definition strlen (s : string) : Z := Z.of_nat (length (bytes_of s)).

(** *** Characters and numbers *)

Definition is_space (b : byte) : bool :=
  let z := Z_of_byte b in (z =? 32) || ((9 <=? z) && (z <=? 13)).
Definition digit (b : byte) : option Z :=
  let z := Z_of_byte b - 48 in if (0 <=? z) && (z <=? 9) then Some z else None.

Fixpoint skip_spaces (l : list byte) : list byte :=
  match l with
  | b :: l' => if is_space b then skip_spaces l' else l
  | [] => []
  end.
Fixpoint digits_value (acc : Z) (l : list byte) : Z :=
  match l with
  | b :: l => match digit b with Some d => digits_value (acc * 10 + d) l | None => acc end
  | [] => acc
  end.
(** [strtol] in base 10, which saturates, converted to [int]: [atoi]. *)
Definition atoi (l : list byte) : Z :=
  let sat z := Z.max (- 2 ^ 63) (Z.min z (2 ^ 63 - 1)) in
  i32 (match skip_spaces l with
       | x2d :: l => sat (- digits_value 0 l)
       | x2b :: l => sat (digits_value 0 l)
       | l => sat (digits_value 0 l)
       end).

(** [tolower] of the C locale, and [strcasecmp(a, b) == 0]. *)
Definition lower (b : byte) : byte :=
  let z := Z_of_byte b in if (65 <=? z) && (z <=? 90) then byte_of_Z (z + 32) else b.
Definition same_nocase (a b : list byte) : bool := bool_decide (map lower a = map lower b).

(** ** Buffers *)

(** [n] bytes, zero after the given ones. *)
Definition padded (n : nat) (l : list byte) : list byte := l ++ repeat x00 (n - length l).

(** What [snprintf(buf, n, "%s", s)] stores. *)
Definition snprintf_s (n : nat) (s : list byte) : list byte := take (pred n) s ++ [x00].


(** [memcpy(buf + ofs, bs, |bs|)]. *)
Definition poke (ofs : nat) (bs l : list byte) : list byte :=
  take ofs l ++ bs ++ drop (ofs + length bs) l.

Lemma take_poke ofs bs l :
  (ofs <= length l)%nat ->
  take (ofs + length bs) (poke ofs bs l) = take ofs l ++ bs.
Proof.
  intros H. unfold poke. rewrite app_assoc.
  rewrite take_app_le by (rewrite length_app, length_take; lia).
  apply take_ge. rewrite length_app, length_take. lia.
Qed.

Lemma poke_length ofs bs l :
  (ofs <= length l)%nat ->
  length (poke ofs bs l) = Nat.max (length l) (ofs + length bs).
Proof.
  intros H. unfold poke. rewrite !length_app, length_take, length_drop. lia.
Qed.

Lemma take_poke_inside n ofs bs l :
  (ofs + length bs <= n <= length l)%nat ->
  take n (poke ofs bs l) = poke ofs bs (take n l).
Proof.
  intros H. unfold poke. rewrite take_take, Nat.min_l by lia.
  rewrite take_app, take_take, length_take, Nat.min_r by lia.
  rewrite take_app, (take_ge bs) by lia. do 2 f_equal.
  rewrite skipn_firstn_comm. f_equal. lia.
Qed.

Lemma poke_app a b b' r :
  length b = length b' -> poke (length a) b' (a ++ b ++ r) = a ++ b' ++ r.
Proof.
  intros H. unfold poke. rewrite take_app_length, <- H.
  by rewrite (app_assoc a b r), <- length_app, drop_app_length.
Qed.

(** Rounding up to a multiple of 128, [(n + 127) & ~127]. *)
Definition align128 (n : Z) : Z := Z.land (n + 127) (Z.lnot 127).

Lemma align128_spec n : align128 n = (n + 127) / 128 * 128.
Proof.
  unfold align128. rewrite <- Z.ldiff_land.
  change 127 with (Z.ones 7). rewrite Z.ldiff_ones_r by lia.
  rewrite Z.shiftl_mul_pow2, Z.shiftr_div_pow2 by lia. done.
Qed.

Lemma align128_ge n : n <= align128 n < n + 128.
Proof. rewrite align128_spec. Z.div_mod_to_equations. lia. Qed.

(** ** Faults and the state monad

    An outcome the C++ program does not define, or one that ends it, is a
    value of [fault]; everything else is [Ok]. *)

Inductive fault : Type :=
| UninitRead      (* reads memory that holds no received or stored byte *)
| OutOfBounds     (* indexes an array outside of its bounds *)
| NullDeref       (* dereferences a null pointer *)
| UseAfterFree    (* dereferences a pointer to a deleted object *)
| DivByZero       (* integer division by zero *)
| AssertFailed    (* a failed [assert] *)
| BadCast         (* converts a float to an integer type that cannot hold it *)
| Aborted         (* a call of [abort] *)
| Uncaught.       (* an exception no caller catches *)

#[export] Instance fault_eq_dec : EqDecision fault.
Proof. solve_decision. Defined.

Inductive res (A : Type) : Type :=
| Ok (a : A)
| Fault (f : fault).
Arguments Ok {A} a.
Arguments Fault {A} f.

Definition M (S A : Type) : Type := S -> res (A * S).

#[export] Instance M_ret (S : Type) : MRet (M S) := fun A a s => Ok (a, s).
#[export] Instance M_bind (S : Type) : MBind (M S) := fun A B k m s =>
  match m s with
  | Ok (a, s') => k a s'
  | Fault f => Fault f
  end.
#[export] Instance M_fmap (S : Type) : FMap (M S) := fun A B f m s =>
  match m s with
  | Ok (a, s') => Ok (f a, s')
  | Fault e => Fault e
  end.

Section monad.
Context {S : Type}.

Definition get : M S S := fun s => Ok (s, s).
Definition gets {A} (f : S -> A) : M S A := fun s => Ok (f s, s).
Definition put (s : S) : M S unit := fun _ => Ok (tt, s).
Definition modify (f : S -> S) : M S unit := fun s => Ok (tt, f s).
Definition throw {A} (f : fault) : M S A := fun _ => Fault f.
Definition assert (b : bool) : M S unit :=
  if b then mret tt else throw AssertFailed.
Definition when (b : bool) (m : M S unit) : M S unit :=
  if b then m else mret tt.
(** A pointer or an iterator that must be valid. *)
Definition need {A} (f : fault) (o : option A) : M S A :=
  match o with Some a => mret a | None => throw f end.

Fixpoint for_each {A} (f : A -> M S unit) (l : list A) : M S unit :=
  match l with
  | [] => mret tt
  | x :: l => _ ← f x; for_each f l
  end.

(** [k] runs of a computation, its results collected in order. *)
Fixpoint repeat_m {A} (k : nat) (m : M S A) : M S (list A) :=
  match k with
  | O => mret []
  | Datatypes.S k => x ← m; xs ← repeat_m k m; mret (x :: xs)
  end.

Lemma bind_ret_l {A B} (a : A) (k : A -> M S B) s : (mret a ≫= k) s = k a s.
Proof. done. Qed.

Lemma bind_get {B} (k : S -> M S B) s : (get ≫= k) s = k s s.
Proof. done. Qed.

Lemma bind_gets {A B} (f : S -> A) (k : A -> M S B) s : (gets f ≫= k) s = k (f s) s.
Proof. done. Qed.

Lemma bind_modify {B} (f : S -> S) (k : unit -> M S B) s :
  (modify f ≫= k) s = k tt (f s).
Proof. done. Qed.

Lemma bind_assert {B} (b : bool) (k : unit -> M S B) s :
  b = true -> (assert b ≫= k) s = k tt s.
Proof. by intros ->. Qed.

Lemma bind_need {A B} f (o : option A) a (k : A -> M S B) s :
  o = Some a -> (need f o ≫= k) s = k a s.
Proof. by intros ->. Qed.

Lemma bind_assoc {A B C} (m : M S A) (k : A -> M S B) (h : B -> M S C) s :
  ((m ≫= k) ≫= h) s = (m ≫= (fun a => k a ≫= h)) s.
Proof. unfold mbind, M_bind. by destruct (m s) as [[a s']|]. Qed.

Lemma bind_ok {A B} (m : M S A) (k : A -> M S B) s a s' :
  m s = Ok (a, s') -> (m ≫= k) s = k a s'.
Proof. unfold mbind, M_bind. by intros ->. Qed.

Lemma bind_inv {A B} (m : M S A) (k : A -> M S B) s b s' :
  (m ≫= k) s = Ok (b, s') -> exists a s1, m s = Ok (a, s1) /\ k a s1 = Ok (b, s').
Proof. unfold mbind, M_bind. destruct (m s) as [[a s1]|]; [eauto|done]. Qed.
End monad.

(** A computation keeps a property of the state, whatever it returns. *)
Definition keeps {S A} (I : S -> Prop) (m : M S A) : Prop :=
  forall s a s', I s -> m s = Ok (a, s') -> I s'.

Lemma keeps_ret {S A} (I : S -> Prop) (a : A) : keeps I (mret a : M S A).
Proof. intros s a' s' HI [= <- <-]. done. Qed.

Lemma keeps_throw {S A} (I : S -> Prop) f : keeps I (throw f : M S A).
Proof. by intros s a s' HI E. Qed.

Lemma keeps_bind {S A B} (I : S -> Prop) (m : M S A) (k : A -> M S B) :
  keeps I m -> (forall a, keeps I (k a)) -> keeps I (m ≫= k).
Proof.
  intros Hm Hk s b s' HI E. apply bind_inv in E as (a & s1 & E1 & E2).
  eapply Hk; [|done]. eapply Hm; eauto.
Qed.

Lemma keeps_modify {S} (I : S -> Prop) (f : S -> S) :
  (forall s, I s -> I (f s)) -> keeps I (modify f).
Proof. intros Hf s [] s' HI [= <-]. auto. Qed.

Lemma keeps_gets {S A} (I : S -> Prop) (f : S -> A) : keeps I (gets f).
Proof. by intros s a s' HI [= <- <-]. Qed.

Lemma keeps_when {S} (I : S -> Prop) b (m : M S unit) :
  keeps I m -> keeps I (when b m).
Proof. destruct b; [done | intros _; apply keeps_ret]. Qed.

Lemma keeps_need {S A} (I : S -> Prop) f (o : option A) :
  keeps I (need f o : M S A).
Proof. destruct o; [apply keeps_ret | apply keeps_throw]. Qed.

Lemma keeps_assert {S} (I : S -> Prop) b : keeps I (assert b).
Proof. destruct b; [apply keeps_ret|apply keeps_throw]. Qed.

Lemma keeps_for_each {S A} (I : S -> Prop) (f : A -> M S unit) l :
  (forall x, keeps I (f x)) -> keeps I (for_each f l).
Proof.
  intros Hf. induction l as [|x l IH]; [apply keeps_ret|].
  apply keeps_bind; [apply Hf | intros _; apply IH].
Qed.

Lemma keeps_fmap {S A B} (I : S -> Prop) (f : A -> B) (m : M S A) :
  keeps I m -> keeps I (f <$> m).
Proof.
  intros Hm s b s' HI. unfold fmap, M_fmap.
  destruct (m s) as [[a s1]|] eqn:E; [intros [= <- <-]; eauto|done].
Qed.

(** [get] hands the computation the state it starts from. *)
Lemma keeps_get {S A} (I : S -> Prop) (k : S -> M S A) :
  (forall s a s', I s -> k s s = Ok (a, s') -> I s') -> keeps I (get ≫= k).
Proof. intros Hk s a s' HI E. cbn in E. eauto. Qed.

Lemma keeps_get_any {S A} (I : S -> Prop) (k : S -> M S A) :
  (forall s, keeps I (k s)) -> keeps I (get ≫= k).
Proof. intros Hk s a s' HI E. cbn in E. by apply (Hk s s a). Qed.

Lemma keeps_if {S A} (I : S -> Prop) (b : bool) (m1 m2 : M S A) :
  keeps I m1 -> keeps I m2 -> keeps I (if b then m1 else m2).
Proof. by destruct b. Qed.

(** From the states of one property a computation leads to those of another. *)
Definition leads {S A} (I Q : S -> Prop) (m : M S A) : Prop :=
  forall s a s', I s -> m s = Ok (a, s') -> Q s'.

Lemma leads_bind {S A B} (I Q : S -> Prop) (m : M S A) (k : A -> M S B) :
  keeps I m -> (forall a, leads I Q (k a)) -> leads I Q (m ≫= k).
Proof.
  intros Hm Hk s b s' HI E. apply bind_inv in E as (a & s1 & E1 & E2).
  eapply Hk; [|done]. eapply Hm; eauto.
Qed.
Lemma leads_then {S A B} (I J Q : S -> Prop) (m : M S A) (k : A -> M S B) :
  leads I J m -> (forall a, leads J Q (k a)) -> leads I Q (m ≫= k).
Proof.
  intros Hm Hk s b s' HI E. apply bind_inv in E as (a & s1 & E1 & E2).
  eapply Hk; [|done]. eapply Hm; eauto.
Qed.
Lemma leads_keeps {S A} (I J Q : S -> Prop) (m : M S A) :
  (forall s, I s -> J s) -> (forall s, J s -> Q s) -> keeps J m -> leads I Q m.
Proof. intros H1 H2 Hm s a s' HI E. eapply H2, Hm; eauto. Qed.

(** A computation returns, with a result and a state of the property. *)
Definition runs {S A} (m : M S A) (s : S) (Q : A -> S -> Prop) : Prop :=
  exists a s', m s = Ok (a, s') /\ Q a s'.

Lemma runs_ok {S A} (m : M S A) s a s' (Q : A -> S -> Prop) : m s = Ok (a, s') -> Q a s' -> runs m s Q.
Proof. intros E HQ. by exists a, s'. Qed.
Lemma runs_bind {S A B} (m : M S A) (k : A -> M S B) s Q :
  runs m s (fun a s' => runs (k a) s' Q) -> runs (m ≫= k) s Q.
Proof. intros (a & s1 & E & b & s2 & E2 & HQ). exists b, s2. split; [|done]. by rewrite (bind_ok _ _ _ _ _ E). Qed.
Lemma runs_ret {S A} (a : A) s (Q : A -> S -> Prop) : Q a s -> runs (mret a : M S A) s Q.
Proof. intros HQ. by eapply runs_ok. Qed.
Lemma runs_weaken {S A} (m : M S A) s (P Q : A -> S -> Prop) :
  (forall a s', P a s' -> Q a s') -> runs m s P -> runs m s Q.
Proof. intros HPQ (a & s' & E & HP). exists a, s'. auto. Qed.
Lemma runs_get {S A} (k : S -> M S A) s Q : runs (k s) s Q -> runs (get ≫= k) s Q.
Proof. done. Qed.
Lemma runs_gets {S A B} (f : S -> A) (k : A -> M S B) s Q : runs (k (f s)) s Q -> runs (gets f ≫= k) s Q.
Proof. done. Qed.
Lemma runs_modify {S B} (f : S -> S) (k : unit -> M S B) s Q : runs (k tt) (f s) Q -> runs (modify f ≫= k) s Q.
Proof. done. Qed.
Lemma runs_assert {S B} b (k : unit -> M S B) s Q : b = true -> runs (k tt) s Q -> runs (assert b ≫= k) s Q.
Proof. by intros ->. Qed.
Lemma runs_need {S A B} f (o : option A) a (k : A -> M S B) s Q :
  o = Some a -> runs (k a) s Q -> runs (need f o ≫= k) s Q.
Proof. by intros ->. Qed.
Lemma runs_when {S B} b (m : M S unit) (k : unit -> M S B) s Q :
  (b = true -> runs (m ≫= k) s Q) -> (b = false -> runs (k tt) s Q) -> runs (when b m ≫= k) s Q.
Proof. destruct b; cbn; auto. Qed.

(** Two computations that agree on the states of an invariant they keep. *)
Definition agree {S A} (I : S -> Prop) (m1 m2 : M S A) : Prop :=
  keeps I m1 /\ forall s, I s -> m1 s = m2 s.

Lemma agree_refl {S A} (I : S -> Prop) (m : M S A) : keeps I m -> agree I m m.
Proof. done. Qed.

Lemma agree_bind {S A B} (I : S -> Prop) (m1 m2 : M S A) (k1 k2 : A -> M S B) :
  agree I m1 m2 -> (forall a, agree I (k1 a) (k2 a)) -> agree I (m1 ≫= k1) (m2 ≫= k2).
Proof.
  intros [Hk1 E1] Hk. split; [apply keeps_bind; [done|intros a; apply Hk]|].
  intros s HI. unfold mbind, M_bind. rewrite <- (E1 s HI).
  destruct (m1 s) as [[a s']|] eqn:E; [|done]. apply Hk. eauto.
Qed.

Lemma agree_fmap {S A B} (I : S -> Prop) (f : A -> B) (m1 m2 : M S A) :
  agree I m1 m2 -> agree I (f <$> m1) (f <$> m2).
Proof.
  intros [Hk E]. split; [by apply keeps_fmap|].
  intros s HI. unfold fmap, M_fmap. by rewrite (E s HI).
Qed.

Lemma agree_if {S A} (I : S -> Prop) (b : bool) (m1 m2 n1 n2 : M S A) :
  agree I m1 n1 -> agree I m2 n2 ->
  agree I (if b then m1 else m2) (if b then n1 else n2).
Proof. by destruct b. Qed.

Lemma agree_get {S A} (I : S -> Prop) (k1 k2 : S -> M S A) :
  (forall s, agree I (k1 s) (k2 s)) -> agree I (get ≫= k1) (get ≫= k2).
Proof.
  intros Hk. apply agree_bind; [|done].
  apply agree_refl. intros s a s' HI [= <- <-]. done.
Qed.

#[export] Hint Resolve keeps_ret keeps_throw keeps_gets keeps_need : icc.

(** Walks through a computation that keeps a property. *)
Ltac ks_step :=
  match goal with
  | |- keeps _ (mret _) => apply keeps_ret
  | |- keeps _ (throw _) => apply keeps_throw
  | |- keeps _ (gets _) => apply keeps_gets
  | |- keeps _ (need _ _) => apply keeps_need
  | |- keeps _ (assert _) => apply keeps_assert
  | |- keeps _ (when _ _) => apply keeps_when
  | |- keeps _ (for_each _ _) => apply keeps_for_each; intros ?
  | |- keeps _ (modify _) => apply keeps_modify; intros ? ?; assumption
  | |- keeps _ (_ <$> _) => apply keeps_fmap
  | |- keeps _ (get ≫= _) => apply keeps_get_any; intros ?
  | |- keeps _ (_ ≫= _) => apply keeps_bind; [|intros ?]
  | |- keeps _ (if _ then _ else _) => apply keeps_if
  | |- keeps _ (let _ := _ in _) => cbv zeta
  | |- keeps _ (match ?x with _ => _ end) => destruct x
  | _ => solve [eauto with icc]
  end.
Ltac ks := repeat ks_step.
