(* ===== verification/Effects.v ===== *)
(** * Computations that throw and leave a record

    The monad of the programs that are written with C++ exceptions: the client
    and the child of the daemon that compiles. A small logic for what such
    a computation returns or throws, what it adds to the record of its effects,
    and the state it ends in. *)

From stdpp Require Import base tactics option list.
From S2P Require Import Prelude.

#[local] Open Scope Z_scope.

Declare Scope icecc_scope.

Section prog.
Context {S E : Type}.

Definition ebind {A B} (m : M S (E + A)) (k : A -> M S (E + B)) : M S (E + B) :=
  r ← m; match r with inl e => mret (inl e) | inr a => k a end.
Definition ok {A} (a : A) : M S (E + A) := mret (inr a).
Definition raise {A} (e : E) : M S (E + A) := mret (inl e).
Definition run_io {A} (m : M S A) : M S (E + A) := inr <$> m.
Definition from_res {A} (r : res A) : M S (E + A) :=
  match r with Ok a => ok a | Fault f => throw f end.
Definition look {A} (f : S -> A) : M S (E + A) := run_io (gets f).
Definition change (f : S -> S) : M S (E + unit) := run_io (modify f).
Definition require (b : bool) : M S (E + unit) := if b then ok tt else throw AssertFailed.
(** [catch (...)]: the handler runs and the exception goes on. *)
Definition on_exception {A} (m : M S (E + A)) (handler : M S (E + unit)) : M S (E + A) :=
  r ← m;
  match r with
  | inl e => ebind handler (fun _ => raise e)
  | inr a => ok a
  end.
End prog.

Notation "x ⇐ m ; k" := (ebind m (fun x => k))
  (at level 100, m at next level, k at level 200, right associativity) : icecc_scope.

(** ** What a computation yields

    [log] is the record in the state. Where [m] does not end in a fault, what it
    adds to the record is a list that satisfies [Q] together with the result and
    the final state. *)
Definition yields_in {S E O} (log : S -> list O) {A} (m : M S (E + A)) (s : S)
    (Q : E + A -> list O -> S -> Prop) : Prop :=
  forall r s', m s = Ok (r, s') ->
  exists news, log s' = log s ++ news /\ Q r news s'.

Section rules.
Context {S E O : Type} {log : S -> list O} {A B : Type}.
Implicit Types (m : M S (E + A)) (s : S).
#[local] Abbreviation yields := (yields_in log).

Lemma yields_ok a s (Q : E + A -> list O -> S -> Prop) :
  Q (inr a) [] s -> yields (ok a) s Q.
Proof. intros HQ r s' Er. injection Er as <- <-. exists []. by rewrite app_nil_r. Qed.

Lemma yields_raise e s (Q : E + A -> list O -> S -> Prop) :
  Q (inl e) [] s -> yields (raise e) s Q.
Proof. intros HQ r s' Er. injection Er as <- <-. exists []. by rewrite app_nil_r. Qed.

Lemma yields_throw f s (Q : E + A -> list O -> S -> Prop) :
  yields (throw f) s Q.
Proof. intros r s' Er. discriminate Er. Qed.

Lemma yields_weaken m s (P Q : E + A -> list O -> S -> Prop) :
  yields m s P -> (forall r l s', P r l s' -> Q r l s') -> yields m s Q.
Proof. intros Hm HPQ r s' Er. destruct (Hm _ _ Er) as (l & El & HP). eauto. Qed.

Lemma yields_bind m (k : A -> M S (E + B)) s P Q :
  yields m s P ->
  (forall a l s1, P (inr a) l s1 -> yields (k a) s1 (fun r l' s' => Q r (l ++ l') s')) ->
  (forall e l s1, P (inl e) l s1 -> Q (inl e) l s1) ->
  yields (ebind m k) s Q.
Proof.
  intros Hm Hk He r s' Er. apply bind_inv in Er as (r1 & s1 & E1 & E2).
  destruct (Hm _ _ E1) as (l1 & El1 & HP). destruct r1 as [e|a].
  - injection E2 as <- <-. eauto.
  - destruct (Hk _ _ _ HP _ _ E2) as (l2 & El2 & HQ).
    exists (l1 ++ l2). rewrite El2, El1, app_assoc. done.
Qed.

(** Steps that are not recorded and do not throw. *)
Lemma yields_look (f : S -> A) (k : A -> M S (E + B)) s Q :
  yields (k (f s)) s Q -> yields (ebind (look f) k) s Q.
Proof. intros Hk r s' Er. by apply Hk. Qed.

Lemma yields_change (f : S -> S) (k : unit -> M S (E + B)) s Q :
  log (f s) = log s -> yields (k tt) (f s) Q -> yields (ebind (change f) k) s Q.
Proof. intros Ef Hk r s' Er. rewrite <- Ef. by apply Hk. Qed.

(** A step that is. *)
Lemma yields_record (e : O) (f : S -> S) (k : unit -> M S (E + B)) s Q :
  log (f s) = log s ++ [e] ->
  yields (k tt) (f s) (fun r l s' => Q r (e :: l) s') -> yields (ebind (change f) k) s Q.
Proof.
  intros Ef Hk r s' Er. destruct (Hk r s' Er) as (l & El & HQ).
  exists (e :: l). rewrite El, Ef, <- app_assoc. done.
Qed.

Lemma yields_from_res (x : res A) (k : A -> M S (E + B)) s Q :
  (forall a, x = Ok a -> yields (k a) s Q) -> yields (ebind (from_res x) k) s Q.
Proof.
  intros Hk r s' Er. destruct x as [a|f]; [|discriminate Er]. by apply (Hk a).
Qed.

Lemma yields_require b (k : unit -> M S (E + B)) s Q :
  (b = true -> yields (k tt) s Q) -> yields (ebind (require b) k) s Q.
Proof. intros Hk r s' Er. destruct b; [|discriminate Er]. by apply Hk. Qed.

(** An optional step. *)
Lemma yields_if (b : bool) m1 m2 (k : A -> M S (E + B)) s Q :
  (b = true -> yields (ebind m1 k) s Q) -> (b = false -> yields (ebind m2 k) s Q) ->
  yields (ebind (if b then m1 else m2) k) s Q.
Proof. destruct b; auto. Qed.
Lemma yields_raised e (k : A -> M S (E + B)) s (Q : E + B -> list O -> S -> Prop) :
  Q (inl e) [] s -> yields (ebind (raise e) k) s Q.
Proof. intros HQ r s' Er. injection Er as <- <-. exists []. by rewrite app_nil_r. Qed.
Lemma yields_passed a (k : A -> M S (E + B)) s Q : yields (k a) s Q -> yields (ebind (ok a) k) s Q.
Proof. done. Qed.

Lemma yields_on_exception m (handler : M S (E + unit)) s P Q :
  yields m s P ->
  (forall a l s1, P (inr a) l s1 -> Q (inr a) l s1) ->
  (forall e l s1, P (inl e) l s1 ->
     yields handler s1 (fun r l' s' => match r with
                                       | inr _ => Q (inl e) (l ++ l') s'
                                       | inl e' => Q (inl e') (l ++ l') s'
                                       end)) ->
  yields (on_exception m handler) s Q.
Proof.
  intros Hm Ha He r s' Er. apply bind_inv in Er as (r1 & s1 & E1 & E2).
  destruct (Hm _ _ E1) as (l1 & El1 & HP). destruct r1 as [e|a].
  - apply bind_inv in E2 as (r2 & s2 & E2 & E3).
    destruct (He _ _ _ HP _ _ E2) as (l2 & El2 & HQ).
    exists (l1 ++ l2). rewrite app_assoc, <- El1, <- El2.
    destruct r2 as [e'|[]]; injection E3 as <- <-; done.
  - injection E2 as <- <-. eauto.
Qed.

Lemma yields_assoc {C} (m : M S (E + C)) (k : C -> M S (E + A)) (h : A -> M S (E + B)) s Q :
  yields (ebind m (fun c => ebind (k c) h)) s Q -> yields (ebind (ebind m k) h) s Q.
Proof.
  intros Hy r s' Er. apply Hy. rewrite <- Er. unfold ebind, mbind, M_bind.
  destruct (m s) as [[[e|c] s1]|f]; reflexivity.
Qed.
End rules.

(** ** What a computation returns *)

Section runs.
Context {S E A B : Type}.
Lemma runs_ebind (m : M S (E + A)) (k : A -> M S (E + B)) s Q :
  runs m s (fun r s1 => match r with inl e => Q (inl e) s1 | inr a => runs (k a) s1 Q end) ->
  runs (ebind m k) s Q.
Proof.
  intros Hm. apply runs_bind. eapply runs_weaken; [|exact Hm]. intros [e|a] s1 Hs1; [|done].
  by apply runs_ret.
Qed.
Lemma runs_look (f : S -> A) (k : A -> M S (E + B)) s Q :
  runs (k (f s)) s Q -> runs (ebind (look f) k) s Q.
Proof. done. Qed.
Lemma runs_change (f : S -> S) (k : unit -> M S (E + B)) s Q :
  runs (k tt) (f s) Q -> runs (ebind (change f) k) s Q.
Proof. done. Qed.
Lemma runs_done (r : E + A) s (Q : E + A -> S -> Prop) :
  Q r s -> runs (mret r : M S (E + A)) s Q.
Proof. intros HQ. by eapply runs_ok. Qed.
End runs.
