(* ===== verification/ExitCode.v ===== *)
(** * Exit codes (services/exitcode.h, exitcode.cpp)

    The codes the client and the daemon use themselves, and what the shell makes
    of the status of a process that has ended. *)

From Stdlib Require Import ZArith.
From S2P Require Import Prelude.

#[local] Open Scope Z_scope.

Definition EXIT_DISTCC_FAILED : Z := 100.
Definition EXIT_COMPILER_CRASHED : Z := 104.
Definition EXIT_OUT_OF_MEMORY : Z := 105.
Definition EXIT_IO_ERROR : Z := 107.
Definition EXIT_COMPILER_MISSING : Z := 110.
Definition EXIT_RECURSION : Z := 111.
Definition EXIT_NO_SUCH_FILE : Z := 115.
Definition EXIT_CLIENT_KILLED : Z := 118.
Definition EXIT_TEST_SOCKET_ERROR : Z := 119.

Definition WTERMSIG (status : Z) : Z := Z.land status 127.
Definition WIFEXITED (status : Z) : bool := WTERMSIG status =? 0.
Definition WEXITSTATUS (status : Z) : Z := Z.land (Z.shiftr status 8) 255.
Definition WIFSIGNALED (status : Z) : bool := 0 <? Z.shiftr (i8 (WTERMSIG status + 1)) 1.

Definition shell_exit_status (status : Z) : Z :=
  if WIFEXITED status then WEXITSTATUS status
  else if WIFSIGNALED status then WTERMSIG status + 128
  else -1.
