(* ===== verification/StdString.v ===== *)
(** * std::string as the client uses it

    Searching and cutting of [std::string]s with the positions and the [npos]
    of the standard, and the comparisons of C strings. A position is an
    unsigned 64-bit number; [npos] is the largest. *)

From Stdlib Require Import ZArith Lia.
From Stdlib Require Import Strings.Byte Strings.String.
From stdpp Require Import base tactics option list strings.
From S2P Require Import Prelude.

#[local] Open Scope Z_scope.

Definition npos : Z := 2 ^ 64 - 1.

(** ** Definitions *)

(** [pat] is a prefix of [l]. *)
Fixpoint is_prefix (pat l : list byte) : bool :=
  match pat, l with
  | [], _ => true
  | p :: pat, b :: l => bool_decide (p = b) && is_prefix pat l
  | _ :: _, [] => false
  end.

(** The first occurrence of [pat] in [l], which starts at position [i]. *)
Fixpoint find_at (pat l : list byte) (i : Z) : Z :=
  if is_prefix pat l then i
  else match l with [] => npos | _ :: l => find_at pat l (i + 1) end.
(** The last one that starts at [bound] or before. *)
Fixpoint rfind_at (pat l : list byte) (bound i acc : Z) : Z :=
  let acc := if is_prefix pat l && (i <=? bound) then i else acc in
  match l with [] => acc | _ :: l => rfind_at pat l bound (i + 1) acc end.

(** [s.find(pat)], [s.rfind(pat)] and [s.rfind(pat, pos)] *)
Definition bfind (pat l : list byte) : Z := find_at pat l 0.
Definition brfind_upto (pat l : list byte) (pos : Z) : Z := rfind_at pat l pos 0 npos.
Definition find (pat s : string) : Z := bfind (bytes_of pat) (bytes_of s).
Definition rfind (pat s : string) : Z := brfind_upto (bytes_of pat) (bytes_of s) npos.

(** [s.substr(pos, n)] for a position in the string. *)
Definition substr (s : string) (pos n : Z) : string :=
  str_of (take (Z.to_nat (Z.min n (strlen s))) (drop (Z.to_nat pos) (bytes_of s))).
Definition substr_from (s : string) (pos : Z) : string :=
  str_of (drop (Z.to_nat pos) (bytes_of s)).

(** [s.replace(pos, n, with)] *)
Definition breplace (pos n : Z) (with_ l : list byte) : list byte :=
  take (Z.to_nat pos) l ++ with_ ++ drop (Z.to_nat (pos + n)) l.

Definition contains (pat s : string) : bool := negb (find pat s =? npos).

(** [str_startswith(head, worm)] *)
Definition str_startswith (head worm : string) : bool :=
  is_prefix (bytes_of head) (bytes_of worm).
Definition str_equal (a b : string) : bool := bool_decide (a = b).

(** The character at a position of a C string: the terminating zero behind
    the last one. *)
Definition char_at (s : string) (i : nat) : byte := default x00 (bytes_of s !! i).

(** What [c_str] is taken for: the characters up to the first zero. *)
Definition c_text (s : string) : string := str_of (default (bytes_of s) (c_string (bytes_of s))).

(** The pieces of a string between separators, empty ones included. *)
Fixpoint pieces (sep : byte) (l : list byte) : list (list byte) :=
  match l with
  | [] => [[]]
  | b :: l =>
      if decide (b = sep) then [] :: pieces sep l
      else match pieces sep l with p :: ps => (b :: p) :: ps | [] => [[b]] end
  end.

(** ** Facts *)

Lemma is_prefix_spec pat l : is_prefix pat l = true <-> exists r, l = pat ++ r.
Proof.
  revert l. induction pat as [|p pat IH]; intros l; cbn; [split; [by exists l|done]|].
  destruct l as [|b l]; [split; [done|by intros (r & E)]|].
  rewrite andb_true_iff, bool_decide_eq_true, IH. split.
  - intros (-> & r & ->). by exists r.
  - intros (r & [= -> ->]). eauto.
Qed.

Lemma is_prefix_false pat l : is_prefix pat l = false <-> forall r, l <> pat ++ r.
Proof.
  rewrite <- not_true_iff_false, is_prefix_spec. split; [eauto|intros H (r & E); by eapply H].
Qed.

(** [pat] does not occur in [l]. *)
Definition absent (pat l : list byte) : Prop := forall a c, l <> a ++ pat ++ c.

Lemma absent_nil pat : pat <> [] -> absent pat [].
Proof. intros Hp [|x a] c; [|done]. by destruct pat. Qed.

Lemma absent_cons pat b l : absent pat (b :: l) <-> is_prefix pat (b :: l) = false /\ absent pat l.
Proof.
  rewrite is_prefix_false. split.
  - intros H. split; [intros r E; by apply (H [] r)|]. intros a c ->. by apply (H (b :: a) c).
  - intros [H1 H2] [|x a] c E; [by eapply H1|]. injection E as <- ->. by eapply H2.
Qed.

(** The first occurrence, or none. *)
Lemma find_at_cases pat l i :
  (find_at pat l i = npos /\ absent pat l) \/
  (exists a c, l = a ++ pat ++ c /\ find_at pat l i = i + Z.of_nat (length a) /\
     forall a' c', l = a' ++ pat ++ c' -> (length a <= length a')%nat).
Proof.
  revert i. induction l as [|b l IH]; intros i; cbn [find_at].
  - destruct (is_prefix pat []) eqn:E.
    + right. apply is_prefix_spec in E as (r & E). exists [], r. cbn. split; [done|]. split; [lia|lia].
    + left. split; [done|]. destruct pat; [done|]. by apply absent_nil.
  - destruct (is_prefix pat (b :: l)) eqn:E.
    + right. apply is_prefix_spec in E as (r & E). exists [], r. cbn. split; [done|]. split; [lia|lia].
    + destruct (IH (i + 1)) as [[-> Ha]|(a & c & -> & -> & Hmin)].
      * left. split; [done|]. by apply absent_cons.
      * right. exists (b :: a), c. split; [done|]. split; [cbn; lia|].
        intros [|x a'] c' E'; cbn.
        -- rewrite is_prefix_false in E. by destruct (E c').
        -- injection E' as <- E'. apply Hmin in E'. lia.
Qed.

Lemma bfind_cases pat l :
  Z.of_nat (length l) < npos ->
  if bfind pat l =? npos then absent pat l
  else exists a c, l = a ++ pat ++ c /\ bfind pat l = Z.of_nat (length a) /\
    forall a' c', l = a' ++ pat ++ c' -> (length a <= length a')%nat.
Proof.
  intros Hl. unfold bfind. destruct (find_at_cases pat l 0) as [[-> Ha]|(a & c & -> & -> & Hmin)].
  - by rewrite Z.eqb_refl.
  - rewrite length_app in Hl. rewrite (proj2 (Z.eqb_neq _ _)) by lia. eauto.
Qed.

Lemma contains_app a c pat :
  Z.of_nat (length (a ++ bytes_of pat ++ c)) < npos -> contains pat (str_of (a ++ bytes_of pat ++ c)) = true.
Proof.
  intros Hl. unfold contains, find. rewrite bytes_of_str_of.
  pose proof (bfind_cases (bytes_of pat) _ Hl) as H. destruct (_ =? npos); [|done].
  by destruct (H a c).
Qed.

(** The last occurrence at [bound] or before. *)
Lemma rfind_at_absent pat l bound i acc : absent pat l -> rfind_at pat l bound i acc = acc.
Proof.
  revert i acc. induction l as [|b l IH]; intros i acc Ha; cbn [rfind_at].
  - assert (is_prefix pat [] = false) as -> by (apply is_prefix_false; intros r E; by apply (Ha [] r)). done.
  - apply absent_cons in Ha as [-> Ha]. by apply IH.
Qed.

Lemma rfind_at_past pat l bound i acc : bound < i -> rfind_at pat l bound i acc = acc.
Proof.
  revert i acc. induction l as [|b l IH]; intros i acc Hb; cbn [rfind_at];
    rewrite (proj2 (Z.leb_gt i bound)), andb_false_r by lia; [done|]. apply IH. lia.
Qed.

(** A character found from behind: it is not in what follows. *)
Lemma rfind_at_char x a c i acc bound :
  x ∉ c -> i + Z.of_nat (length a) <= bound ->
  rfind_at [x] (a ++ x :: c) bound i acc = i + Z.of_nat (length a).
Proof.
  revert i acc. induction a as [|y a IH]; intros i acc Hc Hb; cbn [app rfind_at].
  - assert (is_prefix [x] (x :: c) = true) as -> by (apply is_prefix_spec; by exists c).
    cbn [length] in Hb. rewrite (proj2 (Z.leb_le i bound)) by lia. cbn [andb].
    rewrite rfind_at_absent; [cbn; lia|]. intros a' c' ->. apply Hc. apply elem_of_app. right. by left.
  - rewrite IH by (cbn [length] in *; lia || done). cbn [length]. lia.
Qed.
(** The same when what follows is behind the bound. *)
Lemma rfind_at_char_bound x a d c i acc :
  x ∉ d ->
  rfind_at [x] (a ++ x :: d ++ c) (i + Z.of_nat (length a) + Z.of_nat (length d)) i acc
    = i + Z.of_nat (length a).
Proof.
  intros Hd. revert i acc. induction a as [|y a IH]; intros i acc; cbn [app rfind_at].
  - cbn [length]. assert (is_prefix [x] (x :: d ++ c) = true) as -> by (apply is_prefix_spec; by exists (d ++ c)).
    rewrite (proj2 (Z.leb_le _ _)) by lia. cbn [andb].
    assert (forall j acc, x ∉ d -> rfind_at [x] (d ++ c) (j + Z.of_nat (length d) - 1) j acc = acc) as Hskip.
    { clear. induction d as [|z d IH]; intros j acc Hd; cbn [app length].
      - apply rfind_at_past. lia.
      - apply not_elem_of_cons in Hd as [Hz Hd]. cbn [rfind_at].
        assert (is_prefix [x] (z :: d ++ c) = false) as -> by (cbn; by rewrite bool_decide_false).
        cbn [andb]. replace (j + Z.of_nat (S (length d)) - 1) with ((j + 1) + Z.of_nat (length d) - 1) by lia.
        by apply IH. }
    replace (i + Z.of_nat 0 + Z.of_nat (length d)) with ((i + 1) + Z.of_nat (length d) - 1) by lia.
    rewrite Hskip by done. lia.
  - cbn [length]. replace (i + Z.of_nat (S (length a)) + Z.of_nat (length d))
      with ((i + 1) + Z.of_nat (length a) + Z.of_nat (length d)) by lia.
    rewrite IH. lia.
Qed.

Lemma breplace_app a m c with_ :
  breplace (Z.of_nat (length a)) (Z.of_nat (length m)) with_ (a ++ m ++ c) = a ++ with_ ++ c.
Proof.
  unfold breplace. rewrite <- Nat2Z.inj_add, !Nat2Z.id.
  rewrite take_app_length. f_equal. f_equal. rewrite app_assoc, drop_app_length'; [done|].
  by rewrite length_app.
Qed.

(** *** Searching from behind *)

(** The search does not depend on where it starts to count. *)
Lemma rfind_at_shift pat l i acc :
  0 <= i -> i + Z.of_nat (length l) < npos ->
  let r := rfind_at pat l npos 0 npos in
  rfind_at pat l npos i acc = (if r =? npos then acc else i + r) /\ (r = npos \/ 0 <= r <= Z.of_nat (length l)).
Proof.
  assert (forall l i j acc, 0 <= i -> 0 <= j -> i + Z.of_nat (length l) < npos ->
    j + Z.of_nat (length l) < npos ->
    (rfind_at pat l npos i acc = acc /\ forall acc', rfind_at pat l npos j acc' = acc') \/
    (exists k, 0 <= k <= Z.of_nat (length l) /\ rfind_at pat l npos i acc = i + k /\
       forall acc', rfind_at pat l npos j acc' = j + k)) as H.
  { clear. induction l as [|b l IH]; intros i j acc Hi Hj Hil Hjl; cbn [rfind_at length] in *;
      rewrite (proj2 (Z.leb_le i npos)), (proj2 (Z.leb_le j npos)), !andb_true_r by lia;
      destruct (is_prefix _ _) eqn:Ep.
    - right. exists 0. split; [lia|]. split; [lia|intros; lia].
    - by left.
    - right. destruct (IH (i + 1) (j + 1) i) as [[E1 E2]|(k & Hk & E1 & E2)]; try lia.
      + exists 0. split; [lia|]. rewrite E1. split; [lia|]. intros acc'. rewrite E2. lia.
      + exists (k + 1). split; [lia|]. rewrite E1. split; [lia|]. intros acc'. rewrite E2. lia.
    - destruct (IH (i + 1) (j + 1) acc) as [[E1 E2]|(k & Hk & E1 & E2)]; try lia.
      + left. by rewrite E1.
      + right. exists (k + 1). split; [lia|]. rewrite E1. split; [lia|]. intros acc'. rewrite E2. lia. }
  intros Hi Hil r. destruct (H l i 0 acc) as [[E1 E2]|(k & Hk & E1 & E2)]; try lia; subst r.
  - rewrite E1, E2, Z.eqb_refl. auto.
  - rewrite E1, E2. rewrite (proj2 (Z.eqb_neq (0 + k) npos)) by lia. split; [lia|right; lia].
Qed.

(** A pattern without [x], behind a last [x] or not. *)
Lemma rfind_at_behind pat x d l i acc :
  x ∉ pat -> pat <> [] -> exists acc', (acc' = acc \/ i <= acc' < i + Z.of_nat (length d)) /\
    rfind_at pat (d ++ x :: l) npos i acc = rfind_at pat l npos (i + Z.of_nat (length d) + 1) acc'.
Proof.
  intros Hx Hp. revert i acc. induction d as [|b d IH]; intros i acc; cbn [app rfind_at length].
  - exists acc. split; [by left|]. destruct (is_prefix pat (x :: l)) eqn:E.
    + exfalso. apply is_prefix_spec in E as (r & E). destruct pat as [|p pat]; [done|].
      injection E as <- _. apply Hx. by left.
    + cbn [andb]. f_equal. lia.
  - destruct (IH (i + 1) (if is_prefix pat (b :: d ++ x :: l) && (i <=? npos) then i else acc))
      as (acc' & Ha & ->).
    exists acc'. split; [|f_equal; lia]. destruct Ha as [->|Ha]; [|right; lia].
    destruct (_ && _); [right; lia|by left].
Qed.

Lemma rfind_behind pat d l :
  x2f ∉ bytes_of pat -> pat <> ""%string -> Z.of_nat (length (d ++ x2f :: bytes_of l)) < npos ->
  let r := rfind pat l in
  let r' := rfind pat (str_of (d ++ x2f :: bytes_of l)) in
  (r <> npos -> r' = Z.of_nat (length d) + 1 + r) /\
  (r = npos -> r' = npos \/ r' < Z.of_nat (length d) + 1).
Proof.
  intros Hx Hp Hl r r'. subst r r'. unfold rfind, brfind_upto. rewrite bytes_of_str_of.
  rewrite length_app in Hl. cbn [length] in Hl.
  assert (bytes_of pat <> []) as Hp' by (intros E; apply Hp; by rewrite <- (str_of_bytes_of pat), E).
  destruct (rfind_at_behind (bytes_of pat) x2f d (bytes_of l) 0 npos Hx Hp') as (acc' & Ha & ->).
  destruct (rfind_at_shift (bytes_of pat) (bytes_of l) (0 + Z.of_nat (length d) + 1) acc') as [-> Hr]; try lia.
  destruct (_ =? npos) eqn:E; boolify.
  - split; [done|]. intros _. destruct Ha as [->|Ha]; [by left|right; lia].
  - split; [intros _; lia|done].
Qed.

Lemma rfind_slash d l :
  x2f ∉ bytes_of l -> Z.of_nat (length (d ++ x2f :: bytes_of l)) < npos ->
  rfind "/" (str_of (d ++ x2f :: bytes_of l)) = Z.of_nat (length d).
Proof.
  intros Hx Hl. unfold rfind, brfind_upto. rewrite bytes_of_str_of.
  rewrite length_app in Hl. cbn [length] in Hl. apply rfind_at_char; [done|lia].
Qed.

(** *** Concatenation *)

Lemma str_of_app a b : str_of (a ++ b) = str_of a +:+ str_of b.
Proof. unfold string_of_list_byte. rewrite map_app. by induction (map _ a) as [|c l IH]; cbn; rewrite ?IH. Qed.
Lemma bytes_of_app a b : bytes_of (a +:+ b) = bytes_of a ++ bytes_of b.
Proof.
  rewrite <- (str_of_bytes_of a) at 1. rewrite <- (str_of_bytes_of b) at 1.
  by rewrite <- str_of_app, bytes_of_str_of.
Qed.

(** *** Pieces *)

Lemma pieces_cons sep l : exists p ps, pieces sep l = p :: ps.
Proof.
  induction l as [|b l (p & ps & IH)]; cbn [pieces]; [eauto|].
  destruct (decide (b = sep)); [eauto|]. rewrite IH. eauto.
Qed.

Lemma pieces_app sep a b : pieces sep (a ++ sep :: b) = pieces sep a ++ pieces sep b.
Proof.
  induction a as [|x a IH]; cbn [app pieces].
  - by rewrite decide_True.
  - rewrite IH. destruct (decide (x = sep)); [done|].
    destruct (pieces_cons sep a) as (p & ps & ->). done.
Qed.

Lemma pieces_plain sep l : sep ∉ l -> pieces sep l = [l].
Proof.
  induction l as [|x l IH]; [done|]. rewrite not_elem_of_cons. intros [Hx Hl]. cbn [pieces].
  rewrite decide_False by done. by rewrite IH.
Qed.

Lemma pieces_without sep l : Forall (fun p => sep ∉ p) (pieces sep l).
Proof.
  induction l as [|x l IH]; cbn [pieces].
  - constructor; [apply not_elem_of_nil|constructor].
  - destruct (decide (x = sep)) as [|Hx]; [constructor; [apply not_elem_of_nil|done]|].
    destruct (pieces_cons sep l) as (p & ps & E). rewrite E in *. inversion IH; subst.
    constructor; [|done]. apply not_elem_of_cons. split; [congruence|done].
Qed.
