(* ===== verification/Paths.v ===== *)
(** * Paths (client/remote.cpp)

    [get_absfilename] and what it computes: the textual treatment of ["/../"],
    ["/./"] and ["//"] is an operation on the components of the path. The
    working directory is an argument. *)

From Stdlib Require Import ZArith Lia.
From Stdlib Require Import Strings.Byte Strings.String.
From stdpp Require Import base tactics option list strings.
From S2P Require Import Prelude StdString.

#[local] Open Scope Z_scope.

(** ** Definitions *)

Definition slash : byte := x2f.
Definition dot : byte := x2e.

(** The loop over ["/../"]: the component before it goes too.
    [file.replace(npos, ...)] throws. *)
Fixpoint drop_updirs (fuel : nat) (file : list byte) : res (list byte) :=
  let idx := bfind [slash; dot; dot; slash] file in
  if idx =? npos then Ok file
  else
    match fuel with
    | O => Fault Aborted
    | S fuel =>
        if idx =? 0 then drop_updirs fuel (breplace 0 4 [slash] file)
        else
          let sl := brfind_upto [slash] file (idx - 1) in
          if sl =? npos then Fault Uncaught
          else drop_updirs fuel (breplace sl (idx - sl + 4) [slash] file)
    end.

(** The loops over ["/./"] and ["//"]. *)
Fixpoint squeeze (fuel : nat) (m file : list byte) : res (list byte) :=
  let dots := slash :: m ++ [slash] in
  let idx := bfind dots file in
  if idx =? npos then Ok file
  else
    match fuel with
    | O => Fault Aborted
    | S fuel => squeeze fuel m (breplace idx (Z.of_nat (length dots)) [slash] file)
    end.

(** The file name made absolute; [cwd] is what [get_cwd] returns. *)
Definition make_absolute (cwd file : list byte) : list byte :=
  match file with
  | b :: _ => if decide (b = slash) then file else cwd ++ slash :: file
  | [] => file
  end.

(** Every round of a loop makes the name shorter. *)
Definition simplify (file : list byte) : res (list byte) :=
  let fuel := length file in
  match drop_updirs fuel file with
  | Ok f => match squeeze fuel [dot] f with Ok f => squeeze fuel [] f | Fault e => Fault e end
  | Fault e => Fault e
  end.

Definition get_absfilename (cwd file : string) : res string :=
  match bytes_of file with
  | [] => Ok file
  | f => match simplify (make_absolute (bytes_of cwd) f) with
         | Ok f => Ok (str_of f)
         | Fault e => Fault e
         end
  end.

(** ** Components *)

Abbreviation component := (list byte).
Definition plain (c : component) : Prop := slash ∉ c.

(** The text of a list of components: each has a slash before it. *)
Definition path (l : list component) : list byte := concat (map (cons slash) l).

(** [..] takes the component before it away. *)
Fixpoint resolve_updirs (stack l : list component) : list component :=
  match l with
  | [] => rev stack
  | c :: l => if decide (c = [dot; dot]) then resolve_updirs (tail stack) l
              else resolve_updirs (c :: stack) l
  end.

Definition drop_component (m : component) (l : list component) : list component :=
  filter (fun c => c <> m) l.

(** What [get_absfilename] makes of a path whose last component is apart. *)
Definition resolve (l : list component) : list component :=
  drop_component [] (drop_component [dot] (resolve_updirs [] l)).

(** ** Facts *)

Lemma path_app l1 l2 : path (l1 ++ l2) = path l1 ++ path l2.
Proof. unfold path. by rewrite map_app, concat_app. Qed.
Lemma path_cons c l : path (c :: l) = slash :: c ++ path l.
Proof. done. Qed.

Lemma path_components l : (length l <= length (path l))%nat.
Proof. induction l as [|c l IH]; [done|]. rewrite path_cons. cbn. rewrite length_app. lia. Qed.

(** The first slash separates a component from the rest. *)
Lemma first_slash x m r c :
  plain x -> plain m -> x ++ r = m ++ slash :: c -> (exists r', r = slash :: r') \/ r = [] ->
  x = m /\ r = slash :: c.
Proof.
  intros Hx Hm E Hr. apply app_eq_inv in E as [(k & -> & E)|(k & -> & ->)].
  - destruct k as [|b k]; [rewrite app_nil_r; split; [done|]; cbn in E; done|].
    injection E as <- E. exfalso. apply Hx. apply elem_of_app. right. by left.
  - destruct k as [|b k]; [by rewrite app_nil_r|]. exfalso.
    destruct Hr as [(r' & Er)|Er]; [|done]. injection Er as -> _.
    apply Hm. apply elem_of_app. right. by left.
Qed.

Lemma path_head l : (exists r, path l = slash :: r) \/ path l = [].
Proof. destruct l; [by right|left; by eexists]. Qed.

(** A slash in a path starts a component. *)
Lemma path_slash k a r :
  Forall plain k -> path k = a ++ slash :: r ->
  exists k1 x k2, k = k1 ++ x :: k2 /\ a = path k1 /\ r = x ++ path k2.
Proof.
  revert a. induction k as [|x k IH]; intros a Hk; [by destruct a|].
  apply Forall_cons in Hk as [Hx Hk]. rewrite path_cons. destruct a as [|b a]; cbn [app].
  - intros [= <-]. by exists [], x, k.
  - intros [= <- E]. apply app_eq_inv in E as [(k' & E1 & E2)|(k' & -> & E2)].
    + destruct k' as [|b k']; cbn [app] in E2.
      * destruct (IH [] Hk (eq_sym E2)) as (k1 & y & k2 & -> & Ea & Er).
        exists (x :: k1), y, k2. split; [done|]. rewrite app_nil_r in E1. subst a.
        rewrite path_cons, <- Ea, app_nil_r. done.
      * injection E2 as <- _. exfalso. apply Hx. rewrite E1. apply elem_of_app. right. by left.
    + destruct (IH k' Hk E2) as (k1 & y & k2 & -> & -> & Er). by exists (x :: k1), y, k2.
Qed.

(** The occurrences of a component that is not the last. *)
Lemma path_occurrence l last m a c :
  Forall plain l -> plain last -> plain m ->
  path (l ++ [last]) = a ++ (slash :: m ++ [slash]) ++ c ->
  exists l1 l2, l = l1 ++ m :: l2 /\ a = path l1 /\ slash :: c = path (l2 ++ [last]).
Proof.
  intros Hl Hlast Hm E. cbn [app] in E. rewrite <- app_assoc in E.
  assert (Forall plain (l ++ [last])) as Hk by (apply Forall_app; by repeat constructor).
  destruct (path_slash _ _ _ Hk E) as (k1 & x & k2 & Ek & -> & Er). cbn [app] in Er.
  assert (plain x) as Hx.
  { rewrite Ek in Hk. apply Forall_app in Hk as [_ Hk]. by apply Forall_cons in Hk as [Hk _]. }
  destruct (first_slash x m (path k2) c Hx Hm (eq_sym Er) (path_head k2)) as [-> E2].
  destruct k2 as [|y k2 _] using rev_ind; [done|].
  rewrite app_comm_cons, app_assoc in Ek. apply app_inj_tail in Ek as [-> ->].
  by exists k1, k2.
Qed.

Lemma occurrence_path l1 m l2 last :
  path ((l1 ++ m :: l2) ++ [last]) = path l1 ++ (slash :: m ++ [slash]) ++ tail (path (l2 ++ [last])).
Proof.
  rewrite <- app_assoc, path_app. f_equal. cbn [app]. rewrite path_cons. f_equal.
  rewrite <- app_assoc. f_equal. by destruct l2.
Qed.

Definition fits (l : list byte) : Prop := Z.of_nat (length l) < npos.

(** The search for a component: none, or the first. *)
Lemma find_component l last m :
  Forall plain l -> plain last -> plain m -> fits (path (l ++ [last])) ->
  let idx := bfind (slash :: m ++ [slash]) (path (l ++ [last])) in
  (idx = npos /\ (m ∉ l)) \/
  (exists l1 l2, l = l1 ++ m :: l2 /\ (m ∉ l1) /\ idx = Z.of_nat (length (path l1)) /\ idx <> npos).
Proof.
  intros Hl Hlast Hm Hf idx. pose proof (bfind_cases (slash :: m ++ [slash]) _ Hf) as H. fold idx in H.
  destruct (idx =? npos) eqn:Ei; boolify.
  - left. split; [done|]. intros Hin. apply list_elem_of_split in Hin as (l1 & l2 & ->).
    eapply H, occurrence_path.
  - right. destruct H as (a & c & E & Ea & Hmin).
    destruct (path_occurrence l last m a c Hl Hlast Hm E) as (l1 & l2 & -> & -> & Ec).
    exists l1, l2. split; [done|]. split; [|done].
    intros Hin. apply list_elem_of_split in Hin as (l3 & l4 & ->).
    specialize (Hmin (path l3) (tail (path ((l4 ++ m :: l2) ++ [last])))).
    rewrite <- occurrence_path in Hmin. specialize (Hmin ltac:(by rewrite <- (app_assoc l3 (m :: l4)))).
    rewrite path_app, path_cons, length_app in Hmin. cbn in Hmin. lia.
Qed.

(** Taking a component out of the middle. *)
Lemma replace_component l1 m l2 last :
  breplace (Z.of_nat (length (path l1))) (Z.of_nat (length (slash :: m ++ [slash]))) [slash]
    (path ((l1 ++ m :: l2) ++ [last])) = path ((l1 ++ l2) ++ [last]).
Proof.
  rewrite occurrence_path, breplace_app, <- app_assoc, (path_app l1). f_equal. by destruct l2.
Qed.
(** Taking two. *)
Lemma replace_components l1 x m l2 last n :
  n = Z.of_nat (length (slash :: x ++ slash :: m ++ [slash])) ->
  breplace (Z.of_nat (length (path l1))) n [slash]
    (path ((l1 ++ x :: m :: l2) ++ [last])) = path ((l1 ++ l2) ++ [last]).
Proof.
  intros ->. rewrite <- !app_assoc, !(path_app l1). cbn [app]. rewrite !path_cons.
  assert (exists r, path (l2 ++ [last]) = slash :: r) as [r ->] by (destruct l2; eauto).
  replace (slash :: x ++ slash :: m ++ slash :: r) with ((slash :: x ++ slash :: m ++ [slash]) ++ r).
  - by rewrite breplace_app.
  - cbn [app]. rewrite <- app_assoc. cbn [app]. by rewrite <- app_assoc.
Qed.

Lemma fits_le a b : (length a <= length b)%nat -> fits b -> fits a.
Proof. unfold fits. lia. Qed.
Lemma path_middle_le l1 m l2 : (length (path (l1 ++ l2)) <= length (path (l1 ++ m ++ l2)))%nat.
Proof. rewrite !path_app, !length_app. lia. Qed.

(** ** What the loops compute *)

Lemma resolve_app stack l1 l2 :
  [dot; dot] ∉ l1 -> resolve_updirs stack (l1 ++ l2) = resolve_updirs (rev l1 ++ stack) l2.
Proof.
  revert stack. induction l1 as [|c l1 IH]; intros stack; [done|].
  rewrite not_elem_of_cons. intros [Hc Hl]. cbn [app resolve_updirs].
  rewrite decide_False by congruence. rewrite IH by done. cbn [rev]. by rewrite <- app_assoc.
Qed.

Lemma resolve_none l : [dot; dot] ∉ l -> resolve_updirs [] l = l.
Proof.
  intros Hl. rewrite <- (app_nil_r l) at 1. rewrite resolve_app by done. cbn [resolve_updirs].
  by rewrite app_nil_r, rev_involutive.
Qed.

(** The first [..] and the component before it. *)
Lemma resolve_first l1 l2 :
  [dot; dot] ∉ l1 ->
  resolve_updirs [] (l1 ++ [dot; dot] :: l2) = resolve_updirs [] (removelast l1 ++ l2).
Proof.
  intros Hn. rewrite resolve_app by done. cbn [resolve_updirs]. rewrite decide_True by done.
  destruct l1 as [|x l1 _] using rev_ind; [done|].
  rewrite removelast_last. rewrite not_elem_of_app in Hn. rewrite resolve_app by apply Hn.
  by rewrite rev_app_distr.
Qed.

Lemma plain_dots : plain [dot; dot].
Proof. intros H. repeat (apply elem_of_cons in H as [H|H]; [done|]). by apply elem_of_nil in H. Qed.

Lemma plain_app l1 l2 : Forall plain (l1 ++ l2) <-> Forall plain l1 /\ Forall plain l2.
Proof. apply Forall_app. Qed.

(** The slash in front of the component before position [idx]. *)
Lemma last_slash l1 x r :
  plain x -> 
  brfind_upto [slash] (path (l1 ++ [x]) ++ r) (Z.of_nat (length (path (l1 ++ [x]))) - 1)
    = Z.of_nat (length (path l1)).
Proof.
  intros Hx. unfold brfind_upto. rewrite path_app, path_cons, app_nil_r, length_app. cbn [length].
  pose proof (rfind_at_char_bound slash (path l1) x r 0 npos Hx) as H.
  rewrite <- app_assoc. cbn [app].
  replace (Z.of_nat (length (path l1) + S (length x)) - 1)
    with (0 + Z.of_nat (length (path l1)) + Z.of_nat (length x)) by lia.
  rewrite H. lia.
Qed.

(** One round of the loop at the first [..]. *)
Lemma drop_updirs_step fuel l1 l2 last (idx := Z.of_nat (length (path l1))) :
  Forall plain l1 -> fits (path ((l1 ++ [dot; dot] :: l2) ++ [last])) ->
  (if idx =? 0 then drop_updirs fuel (breplace 0 4 [slash] (path ((l1 ++ [dot; dot] :: l2) ++ [last])))
   else
     let sl := brfind_upto [slash] (path ((l1 ++ [dot; dot] :: l2) ++ [last])) (idx - 1) in
     if sl =? npos then Fault Uncaught
     else drop_updirs fuel (breplace sl (idx - sl + 4) [slash] (path ((l1 ++ [dot; dot] :: l2) ++ [last]))))
  = drop_updirs fuel (path ((removelast l1 ++ l2) ++ [last])).
Proof.
  intros Hl Hf. destruct l1 as [|x l1 _] using rev_ind.
  { subst idx. cbn [path map concat length Z.of_nat Z.eqb removelast].
    f_equal. apply (replace_component [] [dot; dot] l2 last). }
  apply plain_app in Hl as [_ Hx]. apply Forall_cons in Hx as [Hx _].
  assert (idx = Z.of_nat (length (path l1)) + 1 + Z.of_nat (length x)) as Ei.
  { subst idx. rewrite path_app, path_cons, app_nil_r, length_app. cbn [length]. lia. }
  rewrite (proj2 (Z.eqb_neq idx 0)) by lia.
  assert (brfind_upto [slash] (path (((l1 ++ [x]) ++ [dot; dot] :: l2) ++ [last])) (idx - 1)
    = Z.of_nat (length (path l1))) as ->.
  { rewrite <- (app_assoc (l1 ++ [x])), path_app. by apply last_slash. }
  rewrite <- (app_assoc l1 [x]) in Hf. cbv zeta.
  rewrite (proj2 (Z.eqb_neq _ npos)).
  - rewrite removelast_last, <- (app_assoc l1 [x]). f_equal. apply replace_components.
    rewrite Ei. cbn [length]. rewrite !length_app. cbn [length]. rewrite length_app. cbn [length]. lia.
  - unfold fits in Hf. rewrite <- app_assoc, path_app, length_app in Hf. lia.
Qed.

Lemma removelast_le {A} (l : list A) : (length (removelast l) <= length l)%nat.
Proof. destruct l as [|x l _] using rev_ind; [done|]. rewrite removelast_last, length_app. cbn. lia. Qed.
Lemma removelast_plain l : Forall plain l -> Forall plain (removelast l).
Proof.
  destruct l as [|x l _] using rev_ind; [done|]. rewrite removelast_last. by intros [H _]%plain_app.
Qed.
Lemma path_removelast l : (length (path (removelast l)) <= length (path l))%nat.
Proof.
  destruct l as [|x l _] using rev_ind; [done|]. rewrite removelast_last, path_app, length_app. lia.
Qed.

Lemma drop_updirs_spec fuel l last :
  Forall plain l -> plain last -> fits (path (l ++ [last])) -> (length l <= fuel)%nat ->
  drop_updirs fuel (path (l ++ [last])) = Ok (path (resolve_updirs [] l ++ [last])).
Proof.
  revert l. induction fuel as [|fuel IH]; intros l Hl Hlast Hf Hfuel; cbn [drop_updirs];
    destruct (find_component l last [dot; dot] Hl Hlast plain_dots Hf)
      as [[E Hn]|(l1 & l2 & -> & Hn & E & Hi)]; cbn [app] in E.
  - by rewrite E, resolve_none.
  - rewrite length_app in Hfuel. cbn in Hfuel. lia.
  - by rewrite E, resolve_none.
  - cbn [app] in Hi. rewrite (proj2 (Z.eqb_neq _ npos) Hi), E.
    apply plain_app in Hl as [Hl1 Hl2]. apply Forall_cons in Hl2 as [_ Hl2].
    rewrite drop_updirs_step by done. rewrite IH.
    + by rewrite resolve_first.
    + apply plain_app. split; [by apply removelast_plain|done].
    + done.
    + eapply fits_le; [|exact Hf]. pose proof (path_removelast l1).
      rewrite <- !app_assoc, !path_app, !length_app, (path_cons [dot; dot]). cbn. lia.
    + pose proof (removelast_le l1). rewrite !length_app in *. cbn in Hfuel. lia.
Qed.

Lemma filter_none (m : component) (l : list component) : m ∉ l -> drop_component m l = l.
Proof.
  unfold drop_component.
  intros Hm. induction l as [|c l IH]; [done|]. apply not_elem_of_cons in Hm as [Hc Hm].
  rewrite filter_cons, decide_True by congruence. by rewrite IH.
Qed.
Lemma filter_middle (m : component) (l1 l2 : list component) :
  drop_component m (l1 ++ m :: l2) = drop_component m (l1 ++ l2).
Proof. unfold drop_component. rewrite !filter_app, filter_cons, decide_False by (intros H; by apply H). done. Qed.

Lemma squeeze_spec fuel m l last :
  plain m -> Forall plain l -> plain last -> fits (path (l ++ [last])) -> (length l <= fuel)%nat ->
  squeeze fuel m (path (l ++ [last])) = Ok (path (drop_component m l ++ [last])).
Proof.
  intros Hm. revert l. induction fuel as [|fuel IH]; intros l Hl Hlast Hf Hfuel; cbn [squeeze];
    destruct (find_component l last m Hl Hlast Hm Hf) as [[E Hn]|(l1 & l2 & -> & Hn & E & Hi)].
  - by rewrite E, filter_none.
  - rewrite length_app in Hfuel. cbn in Hfuel. lia.
  - by rewrite E, filter_none.
  - rewrite (proj2 (Z.eqb_neq _ npos) Hi), E.
    apply plain_app in Hl as [Hl1 Hl2]. apply Forall_cons in Hl2 as [_ Hl2].
    rewrite replace_component, IH.
    + by rewrite filter_middle.
    + by apply plain_app.
    + done.
    + eapply fits_le; [|exact Hf]. rewrite <- !app_assoc. apply (path_middle_le l1 [m] (l2 ++ [last])).
    + rewrite !length_app in *. cbn in Hfuel. lia.
Qed.

Lemma resolve_updirs_plain stack l :
  Forall plain stack -> Forall plain l -> Forall plain (resolve_updirs stack l).
Proof.
  revert stack. induction l as [|c l IH]; intros stack Hs Hl; cbn [resolve_updirs]; [by apply Forall_rev|].
  apply Forall_cons in Hl as [Hc Hl]. destruct (decide _); apply IH; try done; [|by constructor].
  destruct Hs; [constructor|done].
Qed.
Lemma resolve_updirs_le stack l :
  (length (path (resolve_updirs stack l)) <= length (path (rev stack)) + length (path l))%nat.
Proof.
  revert stack. induction l as [|c l IH]; intros stack; cbn [resolve_updirs]; [lia|].
  rewrite path_cons. cbn [length]. rewrite length_app.
  destruct (decide _); etransitivity; try apply IH.
  - destruct stack as [|x stack]; cbn [tail rev]; [lia|]. rewrite path_app, length_app. lia.
  - cbn [rev]. rewrite path_app, path_cons, app_nil_r, length_app. cbn [length]. lia.
Qed.
Lemma resolve_updirs_clean stack l :
  Forall (fun c => c <> [dot; dot]) stack -> Forall (fun c => c <> [dot; dot]) (resolve_updirs stack l).
Proof.
  revert stack. induction l as [|c l IH]; intros stack Hs; cbn [resolve_updirs]; [by apply Forall_rev|].
  destruct (decide _); apply IH; [|by constructor]. destruct Hs; [constructor|done].
Qed.

Lemma filter_le (m : component) (l : list component) :
  (length (path (drop_component m l)) <= length (path l))%nat.
Proof.
  unfold drop_component. induction l as [|c l IH]; [done|]. rewrite filter_cons.
  destruct (decide _); rewrite !path_cons; cbn [length]; rewrite ?length_app; lia.
Qed.
Lemma filter_components (m : component) (l : list component) :
  (length (drop_component m l) <= length l)%nat.
Proof.
  unfold drop_component. induction l as [|c l IH]; [done|]. rewrite filter_cons.
  destruct (decide _); cbn; lia.
Qed.
Lemma filter_plain (m : component) (l : list component) :
  Forall plain l -> Forall plain (drop_component m l).
Proof. rewrite !Forall_forall. intros H c [_ Hc]%list_elem_of_filter. by apply H. Qed.
Lemma resolve_updirs_components stack l :
  (length (resolve_updirs stack l) <= length stack + length l)%nat.
Proof.
  revert stack. induction l as [|c l IH]; intros stack; cbn [resolve_updirs]; [rewrite length_rev; lia|].
  destruct (decide _); etransitivity; try apply IH; cbn [length]; [|lia].
  destruct stack; cbn; lia.
Qed.

Lemma simplify_spec l last :
  Forall plain l -> plain last -> fits (path (l ++ [last])) ->
  simplify (path (l ++ [last])) = Ok (path (resolve l ++ [last])).
Proof.
  intros Hl Hlast Hf. unfold simplify, resolve.
  assert (length l <= length (path (l ++ [last])))%nat as Hfuel.
  { pose proof (path_components (l ++ [last])) as Hn. rewrite length_app in Hn. lia. }
  rewrite drop_updirs_spec by done. set (l1 := resolve_updirs [] l).
  assert (Forall plain l1) as Hl1 by (by apply resolve_updirs_plain).
  assert (length (path l1) <= length (path l))%nat as Hle1 by apply (resolve_updirs_le [] l).
  assert (length l1 <= length l)%nat as Hn1 by apply (resolve_updirs_components [] l).
  rewrite path_app, length_app in Hfuel. unfold fits in *. rewrite path_app, length_app in Hf.
  assert (plain [dot]) as Hd.
  { intros H. apply elem_of_cons in H as [H|H]; [done|]. by apply elem_of_nil in H. }
  rewrite squeeze_spec; [|done..|unfold fits; rewrite path_app, length_app; lia|
    rewrite path_app, length_app; lia].
  pose proof (filter_le [dot] l1). pose proof (filter_components [dot] l1).
  rewrite squeeze_spec; [done|..].
  - apply not_elem_of_nil.
  - by apply filter_plain.
  - done.
  - unfold fits. rewrite path_app, length_app. lia.
  - rewrite path_app, length_app. lia.
Qed.

(** Every absolute name has components. *)
Lemma absolute_components r : exists l last, slash :: r = path (l ++ [last]) /\ Forall plain l /\ plain last.
Proof.
  induction r as [|b r (l & last & E & Hl & Hlast)].
  - exists [], []. split; [done|]. split; [constructor|apply not_elem_of_nil].
  - destruct (decide (b = slash)) as [->|Hb].
    + exists ([] :: l), last. rewrite E. split; [done|]. split; [|done].
      constructor; [apply not_elem_of_nil|done].
    + destruct l as [|c l].
      * exists [], (b :: last). cbn in E. rewrite app_nil_r in E. injection E as ->.
        split; [cbn; by rewrite app_nil_r|]. split; [done|]. by apply not_elem_of_cons.
      * exists ((b :: c) :: l), last. cbn in E. injection E as ->. split; [done|].
        apply Forall_cons in Hl as [Hc Hl]. split; [|done]. constructor; [by apply not_elem_of_cons|done].
Qed.

Lemma path_absent (m : component) l last :
  Forall plain l -> plain last -> plain m -> m ∉ l -> absent (slash :: m ++ [slash]) (path (l ++ [last])).
Proof.
  intros Hl Hlast Hm Hn a c E. apply path_occurrence in E as (l1 & l2 & -> & _ & _); try done.
  apply Hn, elem_of_app. right. by left.
Qed.

Lemma resolve_clean l m :
  m = [] \/ m = [dot] \/ m = [dot; dot] -> m ∉ resolve l.
Proof.
  intros Hm Hin. unfold resolve, drop_component in Hin.
  apply list_elem_of_filter in Hin as [H1 Hin]. apply list_elem_of_filter in Hin as [H2 Hin].
  destruct Hm as [->|[->| ->]]; try (by destruct H1 || by destruct H2).
  pose proof (resolve_updirs_clean [] l ltac:(constructor)) as H.
  rewrite Forall_forall in H. by apply (H _ Hin).
Qed.
Lemma resolve_plain l : Forall plain l -> Forall plain (resolve l).
Proof. intros H. by apply filter_plain, filter_plain, resolve_updirs_plain. Qed.

Lemma get_absfilename_simplify cwd file :
  file <> ""%string ->
  get_absfilename cwd file =
    match simplify (make_absolute (bytes_of cwd) (bytes_of file)) with
    | Ok f => Ok (str_of f) | Fault e => Fault e end.
Proof.
  intros Hf. unfold get_absfilename. destruct (bytes_of file) eqn:E; [|done].
  destruct Hf. by rewrite <- (str_of_bytes_of file), E.
Qed.

(** ** Theorems *)

(** C33: the textual loops of [get_absfilename] are an operation on the
    components of the path: first each [..] takes away the component before
    it, then the components [.] and the empty ones go; the last component is
    left as it is. *)
Theorem get_absfilename_resolves cwd file l last :
  file <> ""%string -> Forall plain l -> plain last ->
  make_absolute (bytes_of cwd) (bytes_of file) = path (l ++ [last]) -> fits (path (l ++ [last])) ->
  get_absfilename cwd file = Ok (str_of (path (resolve l ++ [last]))).
Proof. intros Hne Hl Hlast E Hf. by rewrite get_absfilename_simplify, E, simplify_spec. Qed.

(** [get_absfilename] ends, never throws and gives an absolute name
    without ["/../"], ["/./"] and ["//"], for every file name and every
    absolute working directory. *)
Theorem get_absfilename_clean cwd file r :
  file <> ""%string -> bytes_of cwd = slash :: r -> fits (bytes_of cwd ++ slash :: bytes_of file) ->
  exists f, get_absfilename cwd file = Ok f /\ (exists r', bytes_of f = slash :: r') /\
    absent [slash; dot; dot; slash] (bytes_of f) /\ absent [slash; dot; slash] (bytes_of f) /\
    absent [slash; slash] (bytes_of f).
Proof.
  intros Hne Ecwd Hf. rewrite get_absfilename_simplify by done.
  assert (exists r', make_absolute (bytes_of cwd) (bytes_of file) = slash :: r' /\ fits (slash :: r'))
    as (r' & Er & Hr).
  { unfold make_absolute. unfold fits in *. rewrite length_app in Hf. cbn in Hf.
    destruct (bytes_of file) as [|b f] eqn:Ef; [by destruct Hne; rewrite <- (str_of_bytes_of file), Ef|].
    destruct (decide (b = slash)) as [->|Hb]; [exists f|exists (r ++ slash :: b :: f)].
    - split; [done|]. cbn in *. lia.
    - rewrite Ecwd in *. split; [done|]. cbn in *. rewrite length_app. cbn. lia. }
  rewrite Er. destruct (absolute_components r') as (l & last & E & Hl & Hlast). rewrite E in *.
  rewrite simplify_spec by done. eexists. split; [done|]. rewrite bytes_of_str_of.
  split; [destruct (resolve l); by eexists|].
  split; [|split].
  - apply (path_absent [dot; dot]); auto using resolve_plain, resolve_clean, plain_dots.
  - apply (path_absent [dot]); auto using resolve_plain, resolve_clean.
    intros H. apply elem_of_cons in H as [H|H]; [done|]. by apply elem_of_nil in H.
  - apply (path_absent []); auto using resolve_plain, resolve_clean. apply not_elem_of_nil.
Qed.

(** Since [..] is resolved before [.] and empty components are dropped, it
    takes these away instead of the directory: with [x] empty or [.] the name
    [/c/x/../b], which is the file [/b], becomes [/c/b]. *)
Theorem updir_takes_dot cwd c x b :
  plain c -> plain b -> (c <> [] /\ c <> [dot] /\ c <> [dot; dot]) -> x = [] \/ x = [dot] ->
  fits (path [c; x; [dot; dot]; b]) ->
  get_absfilename cwd (str_of (path [c; x; [dot; dot]; b])) = Ok (str_of (path [c; b])).
Proof.
  intros Hc Hb (Hc0 & Hc1 & Hc2) Hx Hf.
  rewrite get_absfilename_simplify.
  2: { intros E. apply (f_equal bytes_of) in E. rewrite bytes_of_str_of in E. done. }
  rewrite bytes_of_str_of.
  assert (forall r, make_absolute (bytes_of cwd) (slash :: r) = slash :: r) as Habs
    by (intros r; cbn; by rewrite decide_True).
  rewrite path_cons, Habs, <- path_cons.
  assert (plain x) as Hxp.
  { destruct Hx as [->| ->]; [apply not_elem_of_nil|].
    intros H. apply elem_of_cons in H as [H|H]; [done|]. by apply elem_of_nil in H. }
  pose proof (simplify_spec [c; x; [dot; dot]] b) as H. cbn [app] in H.
  rewrite H; [|repeat constructor; try done; apply plain_dots|done..].
  unfold resolve, drop_component. cbn [resolve_updirs]. rewrite decide_False by done.
  assert (x <> [dot; dot]) as Hx2 by (by destruct Hx as [->| ->]).
  rewrite decide_False by done. rewrite decide_True by done. cbn [tail rev app].
  fold (drop_component [dot] [c]). rewrite filter_none by (by rewrite list_elem_of_singleton).
  fold (drop_component [] [c]). by rewrite filter_none by (by rewrite list_elem_of_singleton).
Qed.

(** ** Witnesses *)

Lemma plain_check c : forallb (fun b => bool_decide (b <> slash)) c = true -> plain c.
Proof.
  rewrite forallb_forall. intros H Hin. apply list_elem_of_In, H in Hin.
  by apply bool_decide_eq_true in Hin.
Qed.

Lemma get_absfilename_resolves_witness :
  get_absfilename "/src" "a/../b/./c.o" = Ok "/src/b/c.o"%string.
Proof.
  apply (get_absfilename_resolves "/src" "a/../b/./c.o" (map bytes_of ["src"; "a"; ".."; "b"; "."])%string
    (bytes_of "c.o")); try (vm_compute; reflexivity); try discriminate.
  - repeat constructor; by apply plain_check.
  - by apply plain_check.
Defined.

Lemma get_absfilename_clean_witness :
  exists f, get_absfilename "/src" "../../x//y" = Ok f /\ absent [slash; slash] (bytes_of f).
Proof.
  destruct (get_absfilename_clean "/src" "../../x//y" (bytes_of "src")) as (f & E & _ & _ & _ & H);
    [discriminate|reflexivity|vm_compute; reflexivity|by exists f].
Defined.

Lemma updir_takes_dot_witness :
  get_absfilename "/" "/include/./../config.h" = Ok "/include/config.h"%string.
Proof.
  apply (updir_takes_dot "/" (bytes_of "include") [dot] (bytes_of "config.h")).
  - by apply plain_check.
  - by apply plain_check.
  - done.
  - by right.
  - vm_compute. reflexivity.
Defined.
