(* ===== verification/FileUtil.v ===== *)
(** * Names of files on the server (daemon/file_util.cpp)

    Splitting and joining of names, relative and canonical names; what they mean
    for somebody who walks along them. *)

From Stdlib Require Import ZArith Lia.
From Stdlib Require Import Strings.Byte Strings.String.
From stdpp Require Import base tactics option list strings.
From S2P Require Import Prelude StdString Paths.

#[local] Open Scope Z_scope.

(** ** Definitions *)

(** The pieces that are not empty. *)
Definition split (s : list byte) (delim : byte) : list component :=
  filter (fun item => item <> []) (pieces delim s).

(** Both lists without their common beginning. *)
Fixpoint drop_common (to_dirs from_dirs : list component) : list component * list component :=
  match to_dirs, from_dirs with
  | t :: to', f :: from' => if decide (t = f) then drop_common to' from' else (to_dirs, from_dirs)
  | _, _ => (to_dirs, from_dirs)
  end.

(** A slash between the components. *)
Fixpoint join (l : list component) : list byte :=
  match l with
  | [] => []
  | [c] => c
  | c :: l => c ++ slash :: join l
  end.

Definition get_relative_path (to from : list byte) : list byte :=
  let (to_dirs, from_dirs) := drop_common (split to slash) (split from slash) in
  concat (map (fun _ => [dot; dot; slash]) from_dirs) ++ join to_dirs.

Fixpoint canonicalize (canonicalized_path parts : list component) : list component :=
  match parts with
  | [] => canonicalized_path
  | part :: parts =>
      if bool_decide (part = [dot; dot]) && negb (bool_decide (canonicalized_path = [])) then
        canonicalize (removelast canonicalized_path) parts
      else if negb (bool_decide (part = [dot])) && negb (bool_decide (part = [dot; dot])) then
        canonicalize (canonicalized_path ++ [part]) parts
      else canonicalize canonicalized_path parts
  end.

Definition is_absolute (path : list byte) : bool :=
  match path with b :: _ => bool_decide (b = slash) | [] => false end.

Definition get_canonicalized_path (path : list byte) : list byte :=
  if negb (is_absolute path) then path
  else slash :: join (canonicalize [] (split path slash)).

(** ** Walking

    A directory is the list of the names that lead to it from the root. *)

Definition walk_to (dir : list component) (c : component) : list component :=
  if decide (c = [] \/ c = [dot]) then dir
  else if decide (c = [dot; dot]) then removelast dir
  else dir ++ [c].
Definition walk (dir l : list component) : list component := fold_left walk_to l dir.

(** The place a name denotes, for somebody in the directory [dir]. *)
Definition place (dir : list component) (name : list byte) : list component :=
  walk (if is_absolute name then [] else dir) (pieces slash name).

(** The name of a place. *)
Definition absolute (l : list component) : list byte := slash :: join l.

(** An ordinary name of a file. *)
Definition ordinary (c : component) : Prop := plain c /\ c <> [] /\ c <> [dot] /\ c <> [dot; dot].

#[export] Instance ordinary_dec c : Decision (ordinary c).
Proof. unfold ordinary, plain. apply _. Defined.

(** ** Facts *)

Lemma walk_app dir l1 l2 : walk dir (l1 ++ l2) = walk (walk dir l1) l2.
Proof. apply fold_left_app. Qed.

Lemma walk_ordinary dir l : Forall ordinary l -> walk dir l = dir ++ l.
Proof.
  revert dir. induction l as [|c l IH]; intros dir Hl; [by rewrite app_nil_r|].
  inversion_clear Hl as [|? ? (_ & Hne & Hd & Hdd) Hl']. cbn [walk fold_left].
  fold (walk (walk_to dir c) l). rewrite IH by done.
  unfold walk_to. rewrite decide_False by tauto. rewrite decide_False by done. by rewrite <- app_assoc.
Qed.

(** The empty pieces do not matter. *)
Lemma walk_filter dir l : walk dir (filter (fun c => c <> []) l) = walk dir l.
Proof.
  revert dir. induction l as [|c l IH]; intros dir; [done|]. rewrite filter_cons.
  case_decide as Hc; cbn [walk fold_left].
  - apply IH.
  - subst c. unfold walk_to at 2. rewrite decide_True by tauto. apply IH.
Qed.
Lemma walk_split dir s : walk dir (split s slash) = walk dir (pieces slash s).
Proof. apply walk_filter. Qed.

Lemma removelast_ordinary l : Forall ordinary l -> Forall ordinary (removelast l).
Proof.
  intros Hl. destruct (decide (l = [])) as [->|Hne]; [done|].
  rewrite (app_removelast_last [] Hne) in Hl. by apply Forall_app in Hl as [? _].
Qed.

Lemma walk_to_ordinary dir c : Forall ordinary dir -> plain c -> Forall ordinary (walk_to dir c).
Proof.
  intros Hd Hc. unfold walk_to. case_decide; [done|]. case_decide; [by apply removelast_ordinary|].
  apply Forall_app. split; [done|]. constructor; [|constructor]. unfold ordinary. tauto.
Qed.
Lemma walk_is_ordinary dir l : Forall ordinary dir -> Forall plain l -> Forall ordinary (walk dir l).
Proof.
  revert dir. induction l as [|c l IH]; intros dir Hd Hl; [done|].
  inversion_clear Hl. apply IH; [by apply walk_to_ordinary|done].
Qed.
Lemma place_ordinary dir name : Forall ordinary dir -> Forall ordinary (place dir name).
Proof.
  intros Hd. apply walk_is_ordinary; [by destruct (is_absolute name)|apply pieces_without].
Qed.

(** [get_canonicalized_path] walks. *)
Lemma canonicalize_walk dir l : Forall (fun c => c <> []) l -> canonicalize dir l = walk dir l.
Proof.
  revert dir. induction l as [|c l IH]; intros dir Hl; [done|].
  inversion_clear Hl as [|? ? Hc Hl']. cbn [canonicalize walk fold_left]. rewrite !IH by done.
  unfold walk_to. repeat case_bool_decide; cbn [negb andb]; subst; try done;
    repeat case_decide; try done; tauto.
Qed.

Lemma split_nonempty s : Forall (fun c => c <> []) (split s slash).
Proof. apply Forall_forall. intros c Hc. by apply list_elem_of_filter in Hc as [? _]. Qed.

Lemma absolute_head name : is_absolute name = true -> exists r, name = slash :: r.
Proof. destruct name; [done|]. cbn. rewrite bool_decide_eq_true. intros ->. eauto. Qed.

Lemma canonical_absolute name :
  is_absolute name = true -> get_canonicalized_path name = absolute (place [] name).
Proof.
  intros Ha. unfold get_canonicalized_path, absolute, place. rewrite Ha. cbn [negb].
  rewrite canonicalize_walk by apply split_nonempty. by rewrite walk_split.
Qed.

(** *** Joining and splitting *)

Lemma join_cons c l : l <> [] -> join (c :: l) = c ++ slash :: join l.
Proof. by destruct l. Qed.

Lemma pieces_join l : l <> [] -> Forall plain l -> pieces slash (join l) = l.
Proof.
  induction l as [|c l IH]; [done|]. intros _ Hl. inversion_clear Hl.
  destruct (decide (l = [])) as [->|Hne]; [by apply pieces_plain|].
  rewrite join_cons by done. rewrite pieces_app, pieces_plain by done. by rewrite IH.
Qed.

Lemma filter_ordinary l : Forall ordinary l -> filter (fun c : component => c <> []) l = l.
Proof.
  induction 1 as [|c l (_ & Hc & _) Hl IH]; [done|]. rewrite filter_cons, decide_True by done. by rewrite IH.
Qed.

Lemma ordinary_plain l : Forall ordinary l -> Forall plain l.
Proof. intros Hl. eapply Forall_impl; [exact Hl|]. by intros c (? & _). Qed.

Lemma split_join l : Forall ordinary l -> split (join l) slash = l.
Proof.
  intros Hl. destruct (decide (l = [])) as [->|Hne]; [done|].
  unfold split. rewrite pieces_join by (done || by apply ordinary_plain). by apply filter_ordinary.
Qed.

Lemma split_absolute l : Forall ordinary l -> split (absolute l) slash = l.
Proof.
  intros Hl. unfold absolute, split. change (slash :: join l) with ([] ++ slash :: join l).
  rewrite pieces_app. cbn [pieces app].
  rewrite filter_cons, decide_False by (intros Hn; by apply Hn). by apply split_join.
Qed.

Lemma pieces_updirs {A} (l : list A) r :
  pieces slash (concat (map (fun _ => [dot; dot; slash]) l) ++ r)
  = map (fun _ => [dot; dot]) l ++ pieces slash r.
Proof.
  induction l as [|x l IH]; [done|].
  change (pieces slash ([dot; dot] ++ slash :: concat (map (fun _ => [dot; dot; slash]) l) ++ r)
          = [dot; dot] :: map (fun _ => [dot; dot]) l ++ pieces slash r).
  rewrite pieces_app, IH. by rewrite pieces_plain by (by apply (bool_decide_unpack _)).
Qed.

Lemma walk_up {A} dir (l : list A) (l' : list component) :
  length l = length l' -> walk (dir ++ l') (map (fun _ => [dot; dot]) l) = dir.
Proof.
  revert l'. induction l as [|x l IH] using rev_ind; intros l' Hl.
  - destruct l'; [by rewrite app_nil_r|done].
  - destruct l' as [|y l' _] using rev_ind; [rewrite length_app in Hl; cbn in Hl; lia|].
    rewrite !length_app in Hl. cbn in Hl.
    assert (map (fun _ : A => [dot; dot]) (l ++ [x]) = [dot; dot] :: map (fun _ => [dot; dot]) l) as ->.
    { clear. induction l as [|z l IH]; [done|]. cbn. by rewrite IH. }
    cbn [walk fold_left]. unfold walk_to at 2. rewrite decide_False by (intros [?|?]; done).
    rewrite decide_True by done. rewrite app_assoc, removelast_last. apply IH. lia.
Qed.

Lemma drop_common_spec to from t f :
  drop_common to from = (t, f) -> exists c, to = c ++ t /\ from = c ++ f.
Proof.
  revert from. induction to as [|x to IH]; intros from E.
  - injection E as <- <-. by exists [].
  - destruct from as [|y from]; [injection E as <- <-; by exists []|]. cbn in E.
    case_decide; [|injection E as <- <-; by exists []]. subst.
    destruct (IH _ E) as (c & -> & ->). by exists (y :: c).
Qed.

(** The relative name leads from one place to the other, and so it does below
    any directory. *)
Lemma relative_walk base to from :
  Forall ordinary to -> Forall ordinary from ->
  walk (base ++ from) (pieces slash (get_relative_path (absolute to) (absolute from))) = base ++ to.
Proof.
  intros Ht Hf. unfold get_relative_path. rewrite !split_absolute by done.
  destruct (drop_common to from) as [t f] eqn:E. apply drop_common_spec in E as (c & -> & ->).
  apply Forall_app in Ht as [_ Ht].
  rewrite pieces_updirs, walk_app, app_assoc, walk_up by done.
  destruct (decide (t = [])) as [->|Hne]; [by rewrite app_nil_r|].
  rewrite pieces_join by (done || by apply ordinary_plain). rewrite walk_ordinary by done.
  by rewrite app_assoc.
Qed.

Lemma relative_is_relative to from :
  Forall ordinary to -> is_absolute (get_relative_path (absolute to) from) = false.
Proof.
  intros Ht. unfold get_relative_path. rewrite (split_absolute to) by done.
  destruct (drop_common to _) as [t f] eqn:E. apply drop_common_spec in E as (c & -> & _).
  destruct f; [|done]. cbn. apply Forall_app in Ht as [_ Ht].
  destruct t as [|x t]; [done|]. inversion_clear Ht as [|? ? (Hp & Hx & _) _].
  destruct x as [|b x]; [done|]. assert (is_absolute ((b :: x) ++ []) = false) as Hb.
  { cbn. apply bool_decide_eq_false. intros ->. apply Hp. by left. }
  by destruct t.
Qed.

(** ** Theorems *)

Lemma place_absolute dir l : Forall ordinary l -> place dir (absolute l) = l.
Proof.
  intros Hl. unfold place. cbn [is_absolute absolute]. rewrite bool_decide_eq_true_2 by done.
  by rewrite <- walk_split, (split_absolute l), walk_ordinary.
Qed.

(** Canonical names. For an absolute name [get_canonicalized_path] gives an
    absolute name of the same place, whose components are ordinary names; it is
    its own canonical name. *)
Theorem canonicalized_path_spec name :
  is_absolute name = true ->
  is_absolute (get_canonicalized_path name) = true /\
  place [] (get_canonicalized_path name) = place [] name /\
  Forall ordinary (split (get_canonicalized_path name) slash) /\
  get_canonicalized_path (get_canonicalized_path name) = get_canonicalized_path name.
Proof.
  intros Ha. assert (Forall ordinary (place [] name)) as Ho by by apply place_ordinary.
  rewrite canonical_absolute by done. rewrite canonical_absolute by done.
  rewrite place_absolute, split_absolute by done. done.
Qed.

(** Relative names. The name [get_relative_path] makes of two canonical
    names is relative, and who follows it from the second place gets to the
    first, below whatever directory both are. *)
Theorem relative_path_leads base to from :
  is_absolute to = true -> is_absolute from = true ->
  let name := get_relative_path (get_canonicalized_path to) (get_canonicalized_path from) in
  is_absolute name = false /\
  place (base ++ place [] from) name = base ++ place [] to.
Proof.
  intros Ht Hf name. subst name. rewrite !canonical_absolute by done.
  assert (is_absolute (get_relative_path (absolute (place [] to)) (absolute (place [] from))) = false) as E
    by by apply relative_is_relative, place_ordinary.
  split; [done|]. unfold place at 1. rewrite E. by apply relative_walk; apply place_ordinary.
Qed.

Lemma canonicalized_path_spec_witness :
  is_absolute (bytes_of "/usr/./src/../include//a") = true /\
  get_canonicalized_path (bytes_of "/usr/./src/../include//a") = bytes_of "/usr/include/a" /\
  place [] (get_canonicalized_path (bytes_of "/usr/./src/../include//a"))
    = place [] (bytes_of "/usr/./src/../include//a").
Proof.
  split; [done|]. split; [by vm_compute|]. by apply (canonicalized_path_spec (bytes_of "/usr/./src/../include//a")).
Defined.

Lemma relative_path_leads_witness :
  get_relative_path (bytes_of "/home/me/obj/a.o") (bytes_of "/home/me/src") = bytes_of "../obj/a.o" /\
  place (map bytes_of ["tmp"; "icecc"; "home"; "me"; "src"]%string) (bytes_of "../obj/a.o")
    = map bytes_of ["tmp"; "icecc"; "home"; "me"; "obj"; "a.o"]%string.
Proof.
  split; [by vm_compute|].
  apply (relative_path_leads (map bytes_of ["tmp"; "icecc"]%string)
           (bytes_of "/home/me/obj/a.o") (bytes_of "/home/me/src")); reflexivity.
Defined.
