(* ===== verification/MsgChannel.v ===== *)
(** * The message channel: its state, its buffers and the wire operators

    [MsgChannel] of services/comm.h and comm.cpp: the object's fields, the
    write buffer ([writefull], [chop_output]), the read buffer
    ([chop_input]), the [operator>>] and [operator<<] overloads for words,
    strings and lists, environments, text lines and compressed chunks.

    The second half is the theory the messages are proved with: [emits p w bs]
    says what a writer appends to the write buffer, [reads p r bs a] what a
    reader makes of the bytes it consumes, and [codec p w r a] that the two
    sides of a connection agree. *)

From Stdlib Require Import ZArith Lia.
From Stdlib Require Import Strings.Byte Strings.String.
From stdpp Require Import base tactics option list strings.
From S2P Require Import Prelude.

#[local] Open Scope Z_scope.

(** ** Constants of comm.h and comm.cpp *)

Definition PROTOCOL_VERSION : Z := 45.
Definition MIN_PROTOCOL_VERSION : Z := 21.
Definition MAX_MSG_SIZE : Z := 1 * 1024 * 1024.
Definition MAX_SLOW_WRITE_SIZE : Z := 10 * 1024.

(** ** The operating system's side of a file descriptor

    The outcome of each [read], [send] and [poll] on the descriptor is drawn
    from a script; an exhausted script means no more input, a peer that takes
    every byte and a poll that times out. [io_slow] is the value of
    [MsgChannel::slow_network()], fixed by the environment of the process. *)

Inductive errno : Type := EINTR | EAGAIN | EWOULDBLOCK | ENOTCONN | EOTHER.

Inductive read_result : Type :=
| ReadData (bs : list byte)   (* bytes available; [read] takes a prefix *)
| ReadErr (e : errno)
| ReadEof.

Inductive send_result : Type :=
| SendOk (n : nat)            (* the kernel takes at most [n] bytes *)
| SendErr (e : errno).

Inductive poll_result : Type :=
| PollReady
| PollTimeout
| PollErr (e : errno).

#[export] Instance errno_eq_dec : EqDecision errno.
Proof. solve_decision. Defined.

(** ** The channel *)

Inductive channel_state : Type := NEED_PROTO | NEED_LEN | FILL_BUF | HAS_MSG | ERROR.

#[export] Instance channel_state_eq_dec : EqDecision channel_state.
Proof. solve_decision. Defined.

Record io : Type := mkIo {
  io_reads : list read_result;
  io_sends : list send_result;
  io_polls : list poll_result;
  io_errno : errno;
  io_sent : list byte;
  io_slow : bool
}.

Definition set_io_reads (v : list read_result) (r : io) : io :=
  mkIo v (r.(io_sends)) (r.(io_polls)) (r.(io_errno)) (r.(io_sent))
    (r.(io_slow)).
Definition set_io_sends (v : list send_result) (r : io) : io :=
  mkIo (r.(io_reads)) v (r.(io_polls)) (r.(io_errno)) (r.(io_sent))
    (r.(io_slow)).
Definition set_io_polls (v : list poll_result) (r : io) : io :=
  mkIo (r.(io_reads)) (r.(io_sends)) v (r.(io_errno)) (r.(io_sent))
    (r.(io_slow)).
Definition set_io_errno (v : errno) (r : io) : io :=
  mkIo (r.(io_reads)) (r.(io_sends)) (r.(io_polls)) v (r.(io_sent))
    (r.(io_slow)).
Definition set_io_sent (v : list byte) (r : io) : io :=
  mkIo (r.(io_reads)) (r.(io_sends)) (r.(io_polls)) (r.(io_errno)) v
    (r.(io_slow)).
Definition set_io_slow (v : bool) (r : io) : io :=
  mkIo (r.(io_reads)) (r.(io_sends)) (r.(io_polls)) (r.(io_errno))
    (r.(io_sent)) v.

Record MsgChannel : Type := mkMsgChannel {
  c_fd : Z;
  c_protocol : Z;
  c_maximum_remote_protocol : Z;
  c_name : string;
  c_last_talk : Z;
  c_msgbuf : list byte;
  c_msgbuflen : Z;
  c_msgofs : nat;
  c_msgtogo : nat;
  c_inbuf : list byte;
  c_inbuflen : Z;
  c_intogo : nat;
  c_instate : channel_state;
  c_inmsglen : Z;
  c_eof : bool;
  c_text_based : bool;
  c_addr : list byte;
  c_set_error_recursion : bool;
  c_io : io
}.

Definition set_fd (v : Z) (r : MsgChannel) : MsgChannel :=
  mkMsgChannel v (r.(c_protocol)) (r.(c_maximum_remote_protocol))
    (r.(c_name)) (r.(c_last_talk)) (r.(c_msgbuf)) (r.(c_msgbuflen))
    (r.(c_msgofs)) (r.(c_msgtogo)) (r.(c_inbuf)) (r.(c_inbuflen))
    (r.(c_intogo)) (r.(c_instate)) (r.(c_inmsglen)) (r.(c_eof))
    (r.(c_text_based)) (r.(c_addr)) (r.(c_set_error_recursion)) (r.(c_io)).
Definition set_protocol (v : Z) (r : MsgChannel) : MsgChannel :=
  mkMsgChannel (r.(c_fd)) v (r.(c_maximum_remote_protocol)) (r.(c_name))
    (r.(c_last_talk)) (r.(c_msgbuf)) (r.(c_msgbuflen)) (r.(c_msgofs))
    (r.(c_msgtogo)) (r.(c_inbuf)) (r.(c_inbuflen)) (r.(c_intogo))
    (r.(c_instate)) (r.(c_inmsglen)) (r.(c_eof)) (r.(c_text_based))
    (r.(c_addr)) (r.(c_set_error_recursion)) (r.(c_io)).
Definition set_maximum_remote_protocol (v : Z) (r : MsgChannel) : MsgChannel :=
  mkMsgChannel (r.(c_fd)) (r.(c_protocol)) v (r.(c_name)) (r.(c_last_talk))
    (r.(c_msgbuf)) (r.(c_msgbuflen)) (r.(c_msgofs)) (r.(c_msgtogo))
    (r.(c_inbuf)) (r.(c_inbuflen)) (r.(c_intogo)) (r.(c_instate))
    (r.(c_inmsglen)) (r.(c_eof)) (r.(c_text_based)) (r.(c_addr))
    (r.(c_set_error_recursion)) (r.(c_io)).
Definition set_name (v : string) (r : MsgChannel) : MsgChannel :=
  mkMsgChannel (r.(c_fd)) (r.(c_protocol)) (r.(c_maximum_remote_protocol)) v
    (r.(c_last_talk)) (r.(c_msgbuf)) (r.(c_msgbuflen)) (r.(c_msgofs))
    (r.(c_msgtogo)) (r.(c_inbuf)) (r.(c_inbuflen)) (r.(c_intogo))
    (r.(c_instate)) (r.(c_inmsglen)) (r.(c_eof)) (r.(c_text_based))
    (r.(c_addr)) (r.(c_set_error_recursion)) (r.(c_io)).
Definition set_last_talk (v : Z) (r : MsgChannel) : MsgChannel :=
  mkMsgChannel (r.(c_fd)) (r.(c_protocol)) (r.(c_maximum_remote_protocol))
    (r.(c_name)) v (r.(c_msgbuf)) (r.(c_msgbuflen)) (r.(c_msgofs))
    (r.(c_msgtogo)) (r.(c_inbuf)) (r.(c_inbuflen)) (r.(c_intogo))
    (r.(c_instate)) (r.(c_inmsglen)) (r.(c_eof)) (r.(c_text_based))
    (r.(c_addr)) (r.(c_set_error_recursion)) (r.(c_io)).
Definition set_msgbuf (v : list byte) (r : MsgChannel) : MsgChannel :=
  mkMsgChannel (r.(c_fd)) (r.(c_protocol)) (r.(c_maximum_remote_protocol))
    (r.(c_name)) (r.(c_last_talk)) v (r.(c_msgbuflen)) (r.(c_msgofs))
    (r.(c_msgtogo)) (r.(c_inbuf)) (r.(c_inbuflen)) (r.(c_intogo))
    (r.(c_instate)) (r.(c_inmsglen)) (r.(c_eof)) (r.(c_text_based))
    (r.(c_addr)) (r.(c_set_error_recursion)) (r.(c_io)).
Definition set_msgbuflen (v : Z) (r : MsgChannel) : MsgChannel :=
  mkMsgChannel (r.(c_fd)) (r.(c_protocol)) (r.(c_maximum_remote_protocol))
    (r.(c_name)) (r.(c_last_talk)) (r.(c_msgbuf)) v (r.(c_msgofs))
    (r.(c_msgtogo)) (r.(c_inbuf)) (r.(c_inbuflen)) (r.(c_intogo))
    (r.(c_instate)) (r.(c_inmsglen)) (r.(c_eof)) (r.(c_text_based))
    (r.(c_addr)) (r.(c_set_error_recursion)) (r.(c_io)).
Definition set_msgofs (v : nat) (r : MsgChannel) : MsgChannel :=
  mkMsgChannel (r.(c_fd)) (r.(c_protocol)) (r.(c_maximum_remote_protocol))
    (r.(c_name)) (r.(c_last_talk)) (r.(c_msgbuf)) (r.(c_msgbuflen)) v
    (r.(c_msgtogo)) (r.(c_inbuf)) (r.(c_inbuflen)) (r.(c_intogo))
    (r.(c_instate)) (r.(c_inmsglen)) (r.(c_eof)) (r.(c_text_based))
    (r.(c_addr)) (r.(c_set_error_recursion)) (r.(c_io)).
Definition set_msgtogo (v : nat) (r : MsgChannel) : MsgChannel :=
  mkMsgChannel (r.(c_fd)) (r.(c_protocol)) (r.(c_maximum_remote_protocol))
    (r.(c_name)) (r.(c_last_talk)) (r.(c_msgbuf)) (r.(c_msgbuflen))
    (r.(c_msgofs)) v (r.(c_inbuf)) (r.(c_inbuflen)) (r.(c_intogo))
    (r.(c_instate)) (r.(c_inmsglen)) (r.(c_eof)) (r.(c_text_based))
    (r.(c_addr)) (r.(c_set_error_recursion)) (r.(c_io)).
Definition set_inbuf (v : list byte) (r : MsgChannel) : MsgChannel :=
  mkMsgChannel (r.(c_fd)) (r.(c_protocol)) (r.(c_maximum_remote_protocol))
    (r.(c_name)) (r.(c_last_talk)) (r.(c_msgbuf)) (r.(c_msgbuflen))
    (r.(c_msgofs)) (r.(c_msgtogo)) v (r.(c_inbuflen)) (r.(c_intogo))
    (r.(c_instate)) (r.(c_inmsglen)) (r.(c_eof)) (r.(c_text_based))
    (r.(c_addr)) (r.(c_set_error_recursion)) (r.(c_io)).
Definition set_inbuflen (v : Z) (r : MsgChannel) : MsgChannel :=
  mkMsgChannel (r.(c_fd)) (r.(c_protocol)) (r.(c_maximum_remote_protocol))
    (r.(c_name)) (r.(c_last_talk)) (r.(c_msgbuf)) (r.(c_msgbuflen))
    (r.(c_msgofs)) (r.(c_msgtogo)) (r.(c_inbuf)) v (r.(c_intogo))
    (r.(c_instate)) (r.(c_inmsglen)) (r.(c_eof)) (r.(c_text_based))
    (r.(c_addr)) (r.(c_set_error_recursion)) (r.(c_io)).
Definition set_intogo (v : nat) (r : MsgChannel) : MsgChannel :=
  mkMsgChannel (r.(c_fd)) (r.(c_protocol)) (r.(c_maximum_remote_protocol))
    (r.(c_name)) (r.(c_last_talk)) (r.(c_msgbuf)) (r.(c_msgbuflen))
    (r.(c_msgofs)) (r.(c_msgtogo)) (r.(c_inbuf)) (r.(c_inbuflen)) v
    (r.(c_instate)) (r.(c_inmsglen)) (r.(c_eof)) (r.(c_text_based))
    (r.(c_addr)) (r.(c_set_error_recursion)) (r.(c_io)).
Definition set_instate (v : channel_state) (r : MsgChannel) : MsgChannel :=
  mkMsgChannel (r.(c_fd)) (r.(c_protocol)) (r.(c_maximum_remote_protocol))
    (r.(c_name)) (r.(c_last_talk)) (r.(c_msgbuf)) (r.(c_msgbuflen))
    (r.(c_msgofs)) (r.(c_msgtogo)) (r.(c_inbuf)) (r.(c_inbuflen))
    (r.(c_intogo)) v (r.(c_inmsglen)) (r.(c_eof)) (r.(c_text_based))
    (r.(c_addr)) (r.(c_set_error_recursion)) (r.(c_io)).
Definition set_inmsglen (v : Z) (r : MsgChannel) : MsgChannel :=
  mkMsgChannel (r.(c_fd)) (r.(c_protocol)) (r.(c_maximum_remote_protocol))
    (r.(c_name)) (r.(c_last_talk)) (r.(c_msgbuf)) (r.(c_msgbuflen))
    (r.(c_msgofs)) (r.(c_msgtogo)) (r.(c_inbuf)) (r.(c_inbuflen))
    (r.(c_intogo)) (r.(c_instate)) v (r.(c_eof)) (r.(c_text_based))
    (r.(c_addr)) (r.(c_set_error_recursion)) (r.(c_io)).
Definition set_eof (v : bool) (r : MsgChannel) : MsgChannel :=
  mkMsgChannel (r.(c_fd)) (r.(c_protocol)) (r.(c_maximum_remote_protocol))
    (r.(c_name)) (r.(c_last_talk)) (r.(c_msgbuf)) (r.(c_msgbuflen))
    (r.(c_msgofs)) (r.(c_msgtogo)) (r.(c_inbuf)) (r.(c_inbuflen))
    (r.(c_intogo)) (r.(c_instate)) (r.(c_inmsglen)) v (r.(c_text_based))
    (r.(c_addr)) (r.(c_set_error_recursion)) (r.(c_io)).
Definition set_text_based (v : bool) (r : MsgChannel) : MsgChannel :=
  mkMsgChannel (r.(c_fd)) (r.(c_protocol)) (r.(c_maximum_remote_protocol))
    (r.(c_name)) (r.(c_last_talk)) (r.(c_msgbuf)) (r.(c_msgbuflen))
    (r.(c_msgofs)) (r.(c_msgtogo)) (r.(c_inbuf)) (r.(c_inbuflen))
    (r.(c_intogo)) (r.(c_instate)) (r.(c_inmsglen)) (r.(c_eof)) v
    (r.(c_addr)) (r.(c_set_error_recursion)) (r.(c_io)).
Definition set_addr (v : list byte) (r : MsgChannel) : MsgChannel :=
  mkMsgChannel (r.(c_fd)) (r.(c_protocol)) (r.(c_maximum_remote_protocol))
    (r.(c_name)) (r.(c_last_talk)) (r.(c_msgbuf)) (r.(c_msgbuflen))
    (r.(c_msgofs)) (r.(c_msgtogo)) (r.(c_inbuf)) (r.(c_inbuflen))
    (r.(c_intogo)) (r.(c_instate)) (r.(c_inmsglen)) (r.(c_eof))
    (r.(c_text_based)) v (r.(c_set_error_recursion)) (r.(c_io)).
Definition set_set_error_recursion (v : bool) (r : MsgChannel) : MsgChannel :=
  mkMsgChannel (r.(c_fd)) (r.(c_protocol)) (r.(c_maximum_remote_protocol))
    (r.(c_name)) (r.(c_last_talk)) (r.(c_msgbuf)) (r.(c_msgbuflen))
    (r.(c_msgofs)) (r.(c_msgtogo)) (r.(c_inbuf)) (r.(c_inbuflen))
    (r.(c_intogo)) (r.(c_instate)) (r.(c_inmsglen)) (r.(c_eof))
    (r.(c_text_based)) (r.(c_addr)) v (r.(c_io)).
Definition set_io (v : io) (r : MsgChannel) : MsgChannel :=
  mkMsgChannel (r.(c_fd)) (r.(c_protocol)) (r.(c_maximum_remote_protocol))
    (r.(c_name)) (r.(c_last_talk)) (r.(c_msgbuf)) (r.(c_msgbuflen))
    (r.(c_msgofs)) (r.(c_msgtogo)) (r.(c_inbuf)) (r.(c_inbuflen))
    (r.(c_intogo)) (r.(c_instate)) (r.(c_inmsglen)) (r.(c_eof))
    (r.(c_text_based)) (r.(c_addr)) (r.(c_set_error_recursion)) v.

(** [inofs], the number of bytes received into [inbuf]. [c_inbuf] holds
    exactly these: the rest of the [inbuflen] allocated bytes is
    uninitialised memory. *)
Definition c_inofs (c : MsgChannel) : nat := length (c_inbuf c).

(** [inofs - intogo] *)
Definition avail (c : MsgChannel) : nat := (c_inofs c - c_intogo c)%nat.

(** The bytes received and not yet read. *)
Definition unread (c : MsgChannel) : list byte := drop (c_intogo c) (c_inbuf c).

Definition is_protocol_version (x : Z) (c : MsgChannel) : bool := x <=? c_protocol c.

Definition has_msg (c : MsgChannel) : bool :=
  c_eof c || bool_decide (c_instate c = HAS_MSG).

Definition at_eof (c : MsgChannel) : bool :=
  bool_decide (c_instate c <> HAS_MSG) && c_eof c.

(** ** Buffers *)

Definition chop_input (c : MsgChannel) : MsgChannel :=
  if (8192 <? Z.of_nat (c_intogo c)) || (avail c <=? 16)%nat then
    set_intogo 0 (set_inbuf (drop (c_intogo c) (c_inbuf c)) c)
  else c.

Definition chop_output (c : MsgChannel) : MsgChannel :=
  if (8192 <? Z.of_nat (c_msgofs c)) || (c_msgtogo c <=? 16)%nat then
    set_msgofs 0 (set_msgbuf
      (if (c_msgtogo c =? 0)%nat then c_msgbuf c
       else poke 0 (take (c_msgtogo c) (drop (c_msgofs c) (c_msgbuf c))) (c_msgbuf c)) c)
  else c.

Definition writefull (buf : list byte) (c : MsgChannel) : MsgChannel :=
  let count := Z.of_nat (length buf) in
  let togo := Z.of_nat (c_msgtogo c) in
  let c := if c_msgbuflen c <=? togo + count
           then set_msgbuflen (align128 (togo + count)) c else c in
  set_msgtogo (c_msgtogo c + length buf)
    (set_msgbuf (poke (c_msgtogo c) buf (c_msgbuf c)) c).

(** ** Readers and writers *)

Abbreviation reader := (M MsgChannel).
Abbreviation writer := (MsgChannel -> MsgChannel).

(** Writers in sequence. *)
Definition seqw (w1 w2 : writer) : writer := fun c => w2 (w1 c).
Declare Scope wire_scope.
Delimit Scope wire_scope with wire.
Infix ";>" := seqw (at level 55, right associativity) : wire_scope.
Open Scope wire_scope.

Definition nop : writer := fun c => c.

(** [if (IS_PROTOCOL_VERSION(x, c)) ...] *)
Definition when_proto (x : Z) (w : writer) : writer :=
  fun c => if is_protocol_version x c then w c else c.
Definition if_proto {A} (x : Z) (r : reader A) (d : A) : reader A :=
  b ← gets (is_protocol_version x); if b : bool then r else mret d.

(** [intogo += n] *)
Definition advance (n : nat) (c : MsgChannel) : MsgChannel :=
  set_intogo (c_intogo c + n) c.

(** [operator>>(uint32_t &)] *)
Definition get_u32 : reader Z := fun c =>
  if (c_intogo c + 4 <=? c_inofs c)%nat then
    Ok (be32_value (take 4 (unread c)), advance 4 c)
  else Ok (0, c).

(** [operator<<(uint32_t)] *)
Definition put_u32 (i : Z) : writer := writefull (be32 i).

(** [operator>>(string &)]: the length includes the final NUL; [s = buf] then
    takes the bytes up to the first NUL, wherever it is. *)
Definition get_str : reader string :=
  len ← get_u32;
  c ← get;
  if (len =? 0) || (Z.of_nat (avail c) <? len) then mret ""%string
  else
    _ ← modify (advance (Z.to_nat len));
    s ← need UninitRead (c_string (unread c));
    mret (str_of s).

(** [operator<<(const std::string &)] *)
Definition put_str (s : string) : writer :=
  let len := u32 (1 + strlen s) in
  put_u32 len ;> writefull (take (Z.to_nat len) (bytes_of s ++ [x00])).

(** [operator>>(list<string> &)] *)
Fixpoint get_list_loop (len : nat) : reader (list string) :=
  match len with
  | O => mret []
  | S len =>
      s ← get_str;
      c ← get;
      if (c_inofs c =? c_intogo c)%nat then mret [s]
      else l ← get_list_loop len; mret (s :: l)
  end.
Definition get_list : reader (list string) :=
  len ← get_u32; get_list_loop (Z.to_nat len).

(** [operator<<(const std::list<std::string> &)] *)
Definition put_list (l : list string) : writer :=
  put_u32 (u32 (Z.of_nat (length l))) ;> (fun c => fold_left (fun c s => put_str s c) l c).

(** A list of pairs of host platform and file name. *)
Abbreviation Environments := (list (string * string)).

Definition write_environments (envs : Environments) : writer :=
  put_u32 (u32 (Z.of_nat (length envs))) ;>
  (fun c => fold_left (fun c env => put_str env.2 (put_str env.1 c)) envs c).

Definition read_environments : reader Environments :=
  count ← get_u32;
  repeat_m (Z.to_nat count)
    (plat ← get_str; vers ← get_str; mret (plat, vers)).

(** ** Text lines *)

(** The number of characters below [' '] at the start of a buffer. *)
Fixpoint skip_control (l : list byte) : nat :=
  match l with
  | b :: l => if schar b <? 32 then S (skip_control l) else O
  | [] => O
  end.

Definition read_line : reader string := fun c =>
  if negb (c_text_based c) || (c_inofs c <? c_intogo c)%nat then Ok (""%string, c)
  else
    let line := take (Z.to_nat (c_inmsglen c)) (unread c) in
    if decide (length line = Z.to_nat (c_inmsglen c)) then
      let c := advance (Z.to_nat (c_inmsglen c)) c in
      Ok (str_of line, advance (skip_control (unread c)) c)
    else Fault UninitRead.

(** [line[len - 1]] of an empty line indexes at [npos]. *)
Definition write_line (line : string) : reader unit :=
  _ ← modify (writefull (bytes_of line));
  b ← need OutOfBounds (last (bytes_of line));
  if decide (b = x0a) then mret tt else modify (writefull [x0a]).

(** ** Compressed chunks *)

Definition C_LZO : Z := 0.
Definition C_ZSTD : Z := 1.

(** The compression libraries: [lzo1x_1_compress], [lzo1x_decompress],
    [ZSTD_compress] and [ZSTD_decompress]. A decompressor is given the size
    of the output buffer and fails when the data does not fit it; the LZO one
    sets the length of what it wrote, the ZSTD one leaves the buffer at the
    announced length. A failing [ZSTD_compress] returns an error code, a
    [size_t]. *)
Class Compressors : Type := {
  lzo_compress : list byte -> option (list byte);
  lzo_decompress : list byte -> Z -> option (list byte);
  zstd_compress : list byte -> list byte + Z;
  zstd_decompress : list byte -> Z -> option (list byte)
}.

Section compressed.
Context `{Compressors}.
(** [MsgChannel::set_error()] *)
Context (set_error : reader unit).

Record chunk : Type := mkChunk {
  ch_buffer : option (list byte);   (* [nullptr] or the uncompressed data *)
  ch_uclen : Z;
  ch_clen : Z
}.

Definition readcompressed : reader chunk :=
  uncompressed_len ← get_u32;
  compressed_len ← get_u32;
  proto ← if_proto 40 get_u32 C_LZO;
  b40 ← gets (is_protocol_version 40);
  if b40 && negb (proto =? C_LZO) && negb (proto =? C_ZSTD) then
    _ ← set_error;
    mret (mkChunk None 0 compressed_len)
  else
  c ← get;
  if (MAX_MSG_SIZE <? uncompressed_len)
     || (Z.of_nat (avail c) <? compressed_len)
     || (negb (uncompressed_len =? 0) && (compressed_len =? 0))
     || (Z.of_nat (c_inofs c) <? Z.of_nat (c_intogo c) + compressed_len) then
    _ ← set_error;
    mret (mkChunk None 0 compressed_len)
  else
    let data := take (Z.to_nat compressed_len) (unread c) in
    let out :=
      if negb (uncompressed_len =? 0) && negb (compressed_len =? 0) then
        if proto =? C_ZSTD then
          match zstd_decompress data uncompressed_len with
          | Some d => (Some d, uncompressed_len)
          | None => (None, 0)
          end
        else
          match lzo_decompress data uncompressed_len with
          | Some d => (Some d, Z.of_nat (length d))
          | None => (None, 0)
          end
      else (Some [], uncompressed_len) in
    _ ← modify (advance (Z.to_nat compressed_len));
    mret (mkChunk out.1 out.2 compressed_len).

(** The room reserved for the compressed data: the LZO worst case, or
    [ZSTD_COMPRESSBOUND]. *)
Definition compress_bound (zstd : bool) (in_len : Z) : Z :=
  if zstd then
    in_len + Z.shiftr in_len 8
    + (if in_len <? 131072 then Z.shiftr (131072 - in_len) 11 else 0)
  else in_len + in_len / 64 + 16 + 3.

(** [msgtogo += out_len] on [size_t]: the size of data in memory does not
    wrap around, an error code near [2^64] does. *)
Definition add_size (togo : nat) (out_len : Z) : nat :=
  if out_len <? 2 ^ 63 then (togo + Z.to_nat out_len)%nat
  else Z.to_nat (u64 (Z.of_nat togo + out_len)).

(** Returns the new channel and [_out_len]. [data] is what the compressor
    stored at [msgbuf + msgtogo] and [out_len] what the code then adds to
    [msgtogo]; the two differ when ZSTD reports an error. *)
Definition writecompressed (in_buf : list byte) (c : MsgChannel) : MsgChannel * Z :=
  let zstd := is_protocol_version 40 c in
  let in_len := Z.of_nat (length in_buf) in
  let c := put_u32 in_len c in
  let msgtogo_old := c_msgtogo c in
  let c := put_u32 0 c in
  let c := when_proto 40 (put_u32 (if zstd then C_ZSTD else C_LZO)) c in
  let room := Z.of_nat (c_msgtogo c) + compress_bound zstd in_len in
  let c := if c_msgbuflen c <=? room
           then set_msgbuflen (align128 room) c else c in
  let '(data, out_len) :=
    if zstd then
      match zstd_compress in_buf with
      | inl d => (d, Z.of_nat (length d))
      | inr code => ([], code)
      end
    else
      match lzo_compress in_buf with
      | Some d => (d, Z.of_nat (length d))
      | None => ([], 0)
      end in
  let c := set_msgbuf (poke (c_msgtogo c) data (c_msgbuf c)) c in
  let c := set_msgbuf (poke msgtogo_old (be32 out_len) (c_msgbuf c)) c in
  (set_msgtogo (add_size (c_msgtogo c) out_len) c, out_len).
End compressed.

(** ** What writers append and what readers consume *)

(** The bytes of the write buffer that are waiting to be sent. *)
Definition staged (c : MsgChannel) : list byte := take (c_msgtogo c) (c_msgbuf c).

Definition wbuf_ok (c : MsgChannel) : Prop := (c_msgtogo c <= length (c_msgbuf c))%nat.

(** [c'] differs from [c] in the write buffer only. *)
Definition out_only (c c' : MsgChannel) : Prop :=
  c' = set_msgbuf (c_msgbuf c') (set_msgbuflen (c_msgbuflen c')
         (set_msgtogo (c_msgtogo c') c)).

Definition appended (bs : list byte) (c c' : MsgChannel) : Prop :=
  out_only c c' /\ wbuf_ok c' /\ staged c' = staged c ++ bs.

Definition emits (p : Z) (w : writer) (bs : list byte) : Prop :=
  forall c, wbuf_ok c -> c_protocol c = p -> c_text_based c = false ->
    appended bs c (w c).

Definition reads {A} (p : Z) (r : reader A) (bs : list byte) (a : A) : Prop :=
  forall c rest, c_protocol c = p -> unread c = bs ++ rest ->
    r c = Ok (a, advance (length bs) c).

Definition codec {A} (p : Z) (w : writer) (r : reader A) (a : A) : Prop :=
  exists bs, emits p w bs /\ reads p r bs a.

Lemma out_only_refl c : out_only c c.
Proof. by destruct c. Qed.

Lemma out_only_trans c1 c2 c3 : out_only c1 c2 -> out_only c2 c3 -> out_only c1 c3.
Proof. unfold out_only. intros E1 E2. rewrite E2, E1. by destruct c1. Qed.

Lemma out_only_msgbuf v c c' : out_only c c' -> out_only c (set_msgbuf v c').
Proof. unfold out_only. intros ->. done. Qed.
Lemma out_only_msgbuflen v c c' : out_only c c' -> out_only c (set_msgbuflen v c').
Proof. unfold out_only. intros ->. done. Qed.
Lemma out_only_msgtogo v c c' : out_only c c' -> out_only c (set_msgtogo v c').
Proof. unfold out_only. intros ->. done. Qed.

#[export] Hint Resolve out_only_refl out_only_msgbuf
  out_only_msgbuflen out_only_msgtogo : icc.

Lemma out_only_protocol c c' : out_only c c' -> c_protocol c' = c_protocol c.
Proof. by intros ->. Qed.

Lemma out_only_text c c' : out_only c c' -> c_text_based c' = c_text_based c.
Proof. by intros ->. Qed.

Lemma advance_0 c : advance 0 c = c.
Proof. unfold advance. rewrite Nat.add_0_r. by destruct c. Qed.

Lemma advance_advance n m c : advance m (advance n c) = advance (n + m) c.
Proof. unfold advance. destruct c; cbn. by rewrite Nat.add_assoc. Qed.

Lemma advance_protocol n c : c_protocol (advance n c) = c_protocol c.
Proof. done. Qed.

Lemma unread_advance n c : unread (advance n c) = drop n (unread c).
Proof. unfold unread, advance. cbn. by rewrite drop_drop. Qed.

Lemma avail_unread c : avail c = length (unread c).
Proof. unfold avail, unread, c_inofs. by rewrite length_drop. Qed.

Lemma avail_le c : (c_intogo c <= c_inofs c)%nat -> (c_intogo c + avail c)%nat = c_inofs c.
Proof. unfold avail. lia. Qed.

(** *** Emission *)

Lemma emits_nop p : emits p nop [].
Proof.
  intros c Hok _ _. split; [apply out_only_refl|]. split; [done|].
  by rewrite app_nil_r.
Qed.

Lemma emits_seq p w1 w2 b1 b2 :
  emits p w1 b1 -> emits p w2 b2 -> emits p (w1 ;> w2) (b1 ++ b2).
Proof.
  intros H1 H2 c Hok Hp Ht.
  destruct (H1 c Hok Hp Ht) as (Ho1 & Hok1 & E1).
  assert (c_protocol (w1 c) = p) as Hp1 by (by rewrite (out_only_protocol _ _ Ho1)).
  assert (c_text_based (w1 c) = false) as Ht1 by (by rewrite (out_only_text _ _ Ho1)).
  destruct (H2 _ Hok1 Hp1 Ht1) as (Ho2 & Hok2 & E2).
  split; [eauto using out_only_trans|]. split; [done|].
  unfold seqw. by rewrite E2, E1, app_assoc.
Qed.

Lemma emits_writefull p bs : emits p (writefull bs) bs.
Proof.
  intros c Hok _ _. unfold writefull.
  match goal with |- appended _ _ (set_msgtogo _ (set_msgbuf _ ?x)) => set (c0 := x) end.
  assert (c_msgtogo c0 = c_msgtogo c /\ c_msgbuf c0 = c_msgbuf c) as [Et Eb]
    by (unfold c0; case_match; done).
  split; [|split].
  - unfold out_only, c0. case_match; destruct c; done.
  - unfold wbuf_ok in *. cbn. rewrite Et, Eb, poke_length by done. lia.
  - unfold staged. cbn. rewrite Et, Eb. by apply take_poke.
Qed.

Lemma emits_when p x w bs :
  emits p w bs -> emits p (when_proto x w) (if x <=? p then bs else []).
Proof.
  intros H c Hok Hp Ht. unfold when_proto, is_protocol_version. rewrite Hp.
  destruct (x <=? p); [by apply H | by apply (emits_nop p)].
Qed.

Lemma emits_fold {A} p (put : A -> writer) (enc : A -> list byte) (l : list A) :
  (forall x, x ∈ l -> emits p (put x) (enc x)) ->
  emits p (fun c => fold_left (fun c x => put x c) l c) (concat (map enc l)).
Proof.
  induction l as [|x l IH]; intros H; [apply emits_nop|].
  cbn [map concat fold_left].
  apply (emits_seq p (put x) (fun c => fold_left (fun c x => put x c) l c)).
  - apply H. left.
  - apply IH. intros y Hy. apply H. by right.
Qed.

Lemma staged_length c : wbuf_ok c -> length (staged c) = c_msgtogo c.
Proof. unfold wbuf_ok, staged. intros H. rewrite length_take. lia. Qed.

(** Overwriting a word already staged: [memcpy(msgbuf + ofs, &len, 4)]. *)
Lemma staged_patch c a b r n :
  wbuf_ok c -> staged c = a ++ b ++ r -> length b = 4%nat ->
  let c' := set_msgbuf (poke (length a) (be32 n) (c_msgbuf c)) c in
  wbuf_ok c' /\ staged c' = a ++ be32 n ++ r.
Proof.
  intros Hok E Hb. cbv zeta. pose proof (staged_length c Hok) as Hl.
  unfold wbuf_ok in Hok. rewrite E, !length_app, Hb in Hl. split.
  - unfold wbuf_ok. cbn. rewrite poke_length by lia. lia.
  - unfold staged in *. cbn [c_msgtogo set_msgbuf c_msgbuf].
    rewrite take_poke_inside by (rewrite be32_length; lia).
    rewrite E. by apply poke_app.
Qed.

(** *** Consumption *)

Lemma reads_ret {A} p (a : A) : reads p (mret a) [] a.
Proof. intros c rest _ _. cbn. by rewrite advance_0. Qed.

Lemma reads_bind {A B} p (r : reader A) (k : A -> reader B) b1 b2 a b :
  reads p r b1 a -> reads p (k a) b2 b -> reads p (r ≫= k) (b1 ++ b2) b.
Proof.
  intros H1 H2 c rest Hp Hu. rewrite <- app_assoc in Hu.
  rewrite (bind_ok _ _ _ _ _ (H1 c _ Hp Hu)).
  rewrite (H2 (advance (length b1) c) rest).
  - by rewrite advance_advance, length_app.
  - by rewrite advance_protocol.
  - by rewrite unread_advance, Hu, drop_app_length.
Qed.

Lemma reads_gets_proto p x : reads p (gets (is_protocol_version x)) [] (x <=? p).
Proof.
  intros c rest Hp _. unfold gets, is_protocol_version. by rewrite Hp, advance_0.
Qed.

Lemma reads_if {A} p x (r : reader A) bs a d :
  reads p r bs a ->
  reads p (if_proto x r d) (if x <=? p then bs else []) (if x <=? p then a else d).
Proof.
  intros H. unfold if_proto.
  apply (reads_bind _ _ _ [] _ (x <=? p)); [apply reads_gets_proto|].
  destruct (x <=? p); [done | apply reads_ret].
Qed.

Lemma reads_u32 p z : reads p get_u32 (be32 z) (u32 z).
Proof.
  intros c rest _ Hu. unfold get_u32.
  assert (4 <= avail c)%nat as Hlen
    by (rewrite avail_unread, Hu, length_app, be32_length; lia).
  replace (c_intogo c + 4 <=? c_inofs c)%nat with true
    by (symmetry; apply Nat.leb_le; unfold avail in Hlen; lia).
  rewrite Hu. change (take 4 (be32 z ++ rest)) with (be32 z).
  by rewrite be32_value_be32.
Qed.

(** *** Codecs *)

Lemma codec_ret {A} p (a : A) : codec p nop (mret a) a.
Proof. exists []. split; [apply emits_nop | apply reads_ret]. Qed.

Lemma codec_bind {A B} p w1 w2 (r : reader A) (k : A -> reader B) a b :
  codec p w1 r a -> codec p w2 (k a) b -> codec p (w1 ;> w2) (r ≫= k) b.
Proof.
  intros (b1 & E1 & R1) (b2 & E2 & R2). exists (b1 ++ b2).
  split; [by apply emits_seq | by eapply reads_bind].
Qed.

(** The last writer of a message, followed by the construction of the
    record. *)
Lemma codec_last {A B} p w (r : reader A) (f : A -> B) a :
  codec p w r a -> codec p w (x ← r; mret (f x)) (f a).
Proof.
  intros (b1 & E1 & R1). exists b1. split; [done|].
  rewrite <- (app_nil_r b1). eapply reads_bind; [done | apply reads_ret].
Qed.

Lemma codec_pair {A B} p w1 w2 (r1 : reader A) (r2 : reader B) a b :
  codec p w1 r1 a -> codec p w2 r2 b ->
  codec p (w1 ;> w2) (x ← r1; y ← r2; mret (x, y)) (a, b).
Proof. intros H1 H2. eapply codec_bind; [done|]. by apply codec_last. Qed.

Lemma codec_proto {A} p x w (r : reader A) a d :
  codec p w r a ->
  codec p (when_proto x w) (if_proto x r d) (if x <=? p then a else d).
Proof.
  intros (bs & E & R). exists (if x <=? p then bs else []).
  split; [by apply emits_when | by apply reads_if].
Qed.

(** ** The interface of a type with a wire format

    What [operator<<] promises to [operator>>] for each type. *)
Class Wire (A : Type) : Type := {
  wput : A -> writer;
  wget : reader A;
  wvalid : A -> bool;
  wbytes : A -> list byte;
  wput_emits : forall p a, wvalid a = true -> emits p (wput a) (wbytes a);
  wget_reads : forall p a, wvalid a = true -> reads p wget (wbytes a) a
}.

Lemma codec_wire `{Wire A} p a : wvalid a = true -> codec p (wput a) wget a.
Proof. intros Hv. exists (wbytes a). split; [by apply wput_emits | by apply wget_reads]. Qed.

#[export] Program Instance Wire_u32 : Wire Z := {|
  wput := put_u32; wget := get_u32; wvalid := is_u32; wbytes := be32
|}.
Next Obligation. intros p z _. apply emits_writefull. Qed.
Next Obligation. intros p z Hz. rewrite <- (u32_small z Hz) at 2. apply reads_u32. Qed.

(** A string that survives the wire: no NUL in it, and its length with the
    final NUL fits the length word. *)
Definition wire_string (s : string) : bool :=
  nul_free s && (1 + strlen s <? 2 ^ 32).

Definition string_bytes (s : string) : list byte :=
  be32 (1 + strlen s) ++ bytes_of s ++ [x00].

Lemma wire_string_len s :
  wire_string s = true -> u32 (1 + strlen s) = 1 + strlen s.
Proof.
  intros H. unfold wire_string in H. boolify. apply u32_small, is_u32_iff.
  unfold strlen in *. lia.
Qed.

#[export] Program Instance Wire_string : Wire string := {|
  wput := put_str; wget := get_str; wvalid := wire_string; wbytes := string_bytes
|}.
Next Obligation.
  intros p s Hs. unfold put_str, string_bytes.
  apply emits_seq.
  - rewrite (wire_string_len s Hs). apply emits_writefull.
  - rewrite (wire_string_len s Hs). rewrite take_ge; [apply emits_writefull|].
    rewrite length_app. unfold strlen. simpl. lia.
Qed.
Next Obligation.
  intros p s Hs. unfold get_str, string_bytes.
  pose proof (reads_u32 p (1 + strlen s)) as R.
  rewrite (wire_string_len s Hs) in R.
  eapply reads_bind; [exact R|]. clear R.
  intros c rest _ Hu. unfold get at 1, mbind at 1, M_bind at 1.
  assert (Z.of_nat (avail c) = 1 + strlen s + Z.of_nat (length rest)) as Ha.
  { rewrite avail_unread, Hu, !length_app. unfold strlen. simpl. lia. }
  unfold strlen in *.
  rewrite (proj2 (Z.eqb_neq _ 0)) by lia.
  rewrite (proj2 (Z.ltb_ge _ _)) by lia.
  cbn [orb]. unfold modify, mbind, M_bind.
  rewrite Hu, <- app_assoc. cbn [app].
  apply andb_true_iff in Hs as [Hn _]. rewrite (c_string_nul_free s rest Hn).
  cbn. rewrite str_of_bytes_of.
  replace (Z.to_nat (1 + Z.of_nat (length (bytes_of s))))
    with (length (bytes_of s ++ [x00])); [done|].
  rewrite length_app. cbn. lia.
Qed.

Lemma emits_str p s : wire_string s = true -> emits p (put_str s) (string_bytes s).
Proof. exact (wput_emits (A := string) p s). Qed.
Lemma reads_str p s : wire_string s = true -> reads p get_str (string_bytes s) s.
Proof. exact (wget_reads (A := string) p s). Qed.

Definition list_bytes (l : list string) : list byte :=
  be32 (Z.of_nat (length l)) ++ concat (map string_bytes l).

Definition wire_list (l : list string) : bool :=
  forallb wire_string l && (Z.of_nat (length l) <? 2 ^ 32).

Lemma string_bytes_length s : (5 <= length (string_bytes s))%nat.
Proof. unfold string_bytes. rewrite !length_app. simpl. lia. Qed.

Lemma reads_list_loop p l :
  forallb wire_string l = true ->
  reads p (get_list_loop (length l)) (concat (map string_bytes l)) l.
Proof.
  induction l as [|s l IH]; intros Hl; [apply reads_ret|].
  cbn [forallb] in Hl. apply andb_true_iff in Hl as [Hs Hl].
  cbn [length get_list_loop map concat].
  eapply reads_bind; [by apply reads_str|].
  intros c rest Hp Hu. unfold get at 1, mbind at 1, M_bind at 1.
  destruct (c_inofs c =? c_intogo c)%nat eqn:E.
  - apply Nat.eqb_eq in E.
    assert (length (unread c) = 0%nat) as H0
      by (rewrite <- avail_unread; unfold avail; lia).
    rewrite Hu, length_app in H0.
    destruct l as [|s' l]; [cbn; by rewrite advance_0|].
    cbn [map concat] in H0. rewrite length_app in H0.
    pose proof (string_bytes_length s'). lia.
  - rewrite (bind_ok _ _ _ _ _ (IH Hl c rest Hp Hu)). done.
Qed.

#[export] Program Instance Wire_list : Wire (list string) := {|
  wput := put_list; wget := get_list; wvalid := wire_list; wbytes := list_bytes
|}.
Next Obligation.
  intros p l Hl. unfold put_list, list_bytes, wire_list in *. boolify.
  rewrite u32_small by (apply is_u32_iff; lia).
  apply emits_seq; [apply emits_writefull|].
  apply (emits_fold p put_str). intros s Hs. apply emits_str. rewrite forallb_forall in *. apply H. by apply list_elem_of_In.
Qed.
Next Obligation.
  intros p l Hl. unfold get_list, list_bytes, wire_list in *. boolify.
  eapply reads_bind; [apply reads_u32|].
  rewrite u32_small by (apply is_u32_iff; lia). rewrite Nat2Z.id.
  by apply reads_list_loop.
Qed.

Definition wire_envs (envs : Environments) : bool :=
  forallb (fun e => wire_string e.1 && wire_string e.2) envs
  && (Z.of_nat (length envs) <? 2 ^ 32).

Definition env_bytes (e : string * string) : list byte :=
  string_bytes e.1 ++ string_bytes e.2.

Definition envs_bytes (envs : Environments) : list byte :=
  be32 (Z.of_nat (length envs)) ++ concat (map env_bytes envs).

#[export] Program Instance Wire_envs : Wire Environments := {|
  wput := write_environments; wget := read_environments;
  wvalid := wire_envs; wbytes := envs_bytes
|}.
Next Obligation.
  intros p l Hl. unfold write_environments, envs_bytes, wire_envs in *. boolify.
  rewrite u32_small by (apply is_u32_iff; lia).
  apply emits_seq; [apply emits_writefull|].
  apply (emits_fold p (fun env => put_str env.1 ;> put_str env.2)).
  intros e He. rewrite forallb_forall in *.
  assert (wire_string e.1 && wire_string e.2 = true) as Hv
    by (apply H; by apply list_elem_of_In).
  boolify. apply emits_seq; by apply emits_str.
Qed.
Next Obligation.
  intros p l Hl. unfold read_environments, envs_bytes, wire_envs in *. boolify.
  eapply reads_bind; [apply reads_u32|].
  rewrite u32_small by (apply is_u32_iff; lia). rewrite Nat2Z.id.
  clear H0. induction l as [|[a b] l IH]; [apply reads_ret|].
  cbn [forallb fst snd] in H. boolify. cbn [length repeat_m map concat].
  eapply reads_bind.
  - unfold env_bytes. cbn [fst snd]. eapply reads_bind; [by apply reads_str|].
    rewrite <- (app_nil_r (string_bytes b)).
    eapply reads_bind; [by apply reads_str | apply reads_ret].
  - rewrite <- (app_nil_r (concat _)). eapply reads_bind; [by apply IH | apply reads_ret].
Qed.

Lemma codec_u32 p z : is_u32 z = true -> codec p (put_u32 z) get_u32 z.
Proof. exact (codec_wire (A := Z) p _). Qed.
Lemma codec_str p s : wire_string s = true -> codec p (put_str s) get_str s.
Proof. exact (codec_wire (A := string) p _). Qed.
Lemma codec_list p l : wire_list l = true -> codec p (put_list l) get_list l.
Proof. exact (codec_wire (A := list string) p _). Qed.
Lemma codec_envs p l : wire_envs l = true -> codec p (write_environments l) read_environments l.
Proof. exact (codec_wire (A := Environments) p _). Qed.

#[export] Hint Opaque put_u32 put_str put_list write_environments
  get_u32 get_str get_list read_environments when_proto if_proto : icc.
#[export] Hint Resolve codec_u32 codec_str codec_list codec_envs codec_proto codec_pair : icc.

(** Splits a codec goal along its writers and readers; the base cases come
    from the hint database. *)
Ltac codec_step :=
  first
  [ eapply codec_last; solve [eauto with icc]
  | eapply codec_bind; [solve [eauto with icc] | cbv beta]
  | apply codec_ret ].
Ltac codec_auto := repeat codec_step.
