(* ===== verification/Compilers.v ===== *)
(** * Compilers (services/util.cpp, client/local.cpp, client/util.cpp)

    The names of compilers, which compiler a job is compiled with, how it is
    asked for its defaults, and the colours of its output. What the client sees
    of the machine is a record of functions. *)

From Stdlib Require Import ZArith Lia.
From Stdlib Require Import Strings.Byte Strings.String.
From stdpp Require Import base tactics option list strings.
From S2P Require Import Prelude StdString CompileJob.

#[local] Open Scope Z_scope.

(** ** The machine *)

Inductive file_kind : Type := Regular | Symlink | NotRegular.

Record machine : Type := mkMachine {
  m_getenv : string -> option string;
  m_cwd : string;
  m_readable : string -> bool;                    (* access(R_OK) == 0 *)
  m_stat : string -> option file_kind;            (* stat; None: it fails *)
  m_lstat : string -> option (file_kind * Z);     (* lstat, with the size *)
  m_readlink : string -> option string;
  m_output : string -> list string -> Z -> string; (* read_command_output *)
  m_tty : bool;                                   (* isatty(2) *)
  m_gcc_color : bool;                             (* HAVE_GCC_COLOR_DIAGNOSTICS *)
  m_gcc_caret : bool                              (* HAVE_GCC_SHOW_CARET *)
}.

(** ** Names *)

Definition find_basename (sfile : string) : string :=
  let index := rfind "/" sfile in
  if index =? npos then sfile else substr_from sfile (index + 1).

Definition find_prefix (basename : string) : string :=
  let index := rfind "-" basename in
  if index =? npos then "" else substr basename 0 index.

Definition is_c_compiler (compiler : string) : bool :=
  let name := find_basename compiler in
  if contains "++" name then false
  else if contains "icx" name && negb (contains "icpx" name) then true
  else contains "gcc" name || contains "clang" name || str_equal name "cc".

Definition is_cpp_compiler (compiler : string) : bool :=
  let name := find_basename compiler in
  contains "g++" name || contains "clang++" name || contains "icpx" name
  || contains "dpcpp" name || str_equal name "c++".

(** [old] at position [pos] replaced by [new]. *)
Definition rename_at (compiler : string) (pos : Z) (old new : string) : string :=
  substr compiler 0 pos +:+ new +:+ substr_from compiler (pos + strlen old).

(** The cascades of [get_c_compiler] and [get_cpp_compiler]: the last [old]
    in the name, when it is in the base name and the test holds. *)
Fixpoint rename_first (compiler : string) (sl : Z)
    (rules : list (string * string * (Z -> bool))) (otherwise : res string) : res string :=
  match rules with
  | [] => otherwise
  | (old, new, test) :: rules =>
      let pos := rfind old compiler in
      if negb (pos =? npos) && test pos then Ok (rename_at compiler pos old new)
      else rename_first compiler sl rules otherwise
  end.

(** [slash + 1] is 0 without a slash, since [npos + 1] wraps around. *)
Definition get_c_compiler (compiler : string) : res string :=
  if str_equal compiler "" then Ok compiler
  else
    let sl := rfind "/" compiler in
    let in_base pos := u64 (sl + 1) <=? pos in
    let whole pos := pos =? u64 (sl + 1) in
    let pos := rfind "++" compiler in
    if (pos =? npos) || (pos <? sl) then
      rename_first compiler sl [("dpcpp", "icx", in_base)]%string (Ok compiler)
    else
      rename_first compiler sl
        [("clang++", "clang", in_base); ("icpx", "icx", in_base); ("g++", "gcc", in_base);
         ("c++", "cc", whole)]%string (Fault AssertFailed).

Definition get_cpp_compiler (compiler : string) : res string :=
  if str_equal compiler "" then Ok compiler
  else
    let sl := rfind "/" compiler in
    let in_base pos := u64 (sl + 1) <=? pos in
    let whole pos := pos =? u64 (sl + 1) in
    let pos := rfind "++" compiler in
    if negb (pos =? npos) && in_base pos then
      rename_first compiler sl [("dpcpp", "icpx", in_base)]%string (Ok compiler)
    else
      rename_first compiler sl
        [("dpcpp", "icpx", in_base); ("gcc", "g++", in_base);
         ("icx", "icpx", fun pos => in_base pos && negb (contains "icpx" compiler));
         ("clang", "clang++", in_base); ("cc", "c++", whole)]%string (Fault AssertFailed).

Definition compiler_is_clang (job : CompileJob) : res bool :=
  if decide (j_language job = Lang_Custom) then Ok false
  else
    let name := j_compiler_name job in
    if contains "/" name then Fault AssertFailed
    else Ok (contains "clang" name || contains "icx" name || contains "icpx" name
             || contains "dpcpp" name).

(** ** The compiler of a job *)

Definition is_wrapper (after_selflink : bool) (target : string) : bool :=
  str_equal target "icecc"
  || (after_selflink
      && (str_equal target "tbcompiler" || str_equal target "distcc" || str_equal target "colorgcc")).

Fixpoint lookup_in (m : machine) (compiler : string) (dirs : list (list byte))
    (after_selflink : bool) (best_match : string) : string :=
  match dirs with
  | [] => best_match
  | d :: dirs =>
      let part := str_of d +:+ "/" +:+ compiler in
      let found :=
        let best_match := if str_equal best_match "" then part else best_match in
        if after_selflink then part else lookup_in m compiler dirs after_selflink best_match in
      match m_lstat m part with
      | None | Some (NotRegular, _) => lookup_in m compiler dirs after_selflink best_match
      | Some (Regular, _) => found
      | Some (Symlink, _) =>
          match m_readlink m part with
          | None => lookup_in m compiler dirs after_selflink best_match
          | Some buffer =>
              if is_wrapper after_selflink (find_basename buffer)
              then lookup_in m compiler dirs true best_match
              else found
          end
      end
  end.

Definition compiler_path_lookup_helper (m : machine) (compiler compiler_path : string) : res string :=
  if contains "/" compiler_path then Ok compiler_path
  else
    match m_getenv m "PATH" with
    | None => Fault NullDeref
    | Some p => Ok (lookup_in m compiler (pieces x3a (bytes_of p)) false "")
    end.

Definition compiler_path_lookup (m : machine) (compiler : string) : res string :=
  compiler_path_lookup_helper m compiler compiler.

Definition find_compiler (m : machine) (job : CompileJob) : res string :=
  match (if decide (j_language job = Lang_C) then m_getenv m "ICECC_CC" else None) with
  | Some env => Ok env
  | None =>
      match (if decide (j_language job = Lang_CXX) then m_getenv m "ICECC_CXX" else None) with
      | Some env => Ok env
      | None => compiler_path_lookup_helper m (j_compiler_name job) (j_compiler_pathname job)
      end
  end.

(** A setting that is neither empty nor starts with [0]. *)
Definition is_set (v : string) : bool :=
  negb (bool_decide (char_at v 0 = x00)) && negb (bool_decide (char_at v 0 = x30)).

Definition compiler_only_rewrite_includes (m : machine) (job : CompileJob) : res bool :=
  if j_block_rewrite_includes job then Ok false
  else
    match m_getenv m "ICECC_REMOTE_CPP" with
    | Some v => Ok (is_set v)
    | None =>
        match compiler_is_clang job with
        | Ok true =>
            match m_getenv m "ICECC_CLANG_REMOTE_CPP" with
            | Some v => Ok (is_set v)
            | None => Ok true
            end
        | Ok false => Ok true
        | Fault f => Fault f
        end
    end.

Definition read_command_line (m : machine) (command : string) (args : list string) (fd : Z) : string :=
  let output := bytes_of (m_output m command args fd) in
  match last output with
  | Some x0a => str_of (removelast output)
  | _ => str_of output
  end.

Definition clang_get_default_target (m : machine) (job : CompileJob) : res string :=
  match find_compiler m job with
  | Ok c => Ok (read_command_line m c ["-dumpmachine"%string] 1)
  | Fault f => Fault f
  end.

(** ** Colours *)

Definition color_output_possible (m : machine) : bool :=
  m_tty m
  && match m_getenv m "TERM" with
     | Some term => negb (same_nocase (bytes_of term) (bytes_of "DUMB"))
     | None => false
     end.

Definition compiler_has_color_output (m : machine) (job : CompileJob) : res bool :=
  if negb (color_output_possible m) then Ok false
  else
    match compiler_is_clang job with
    | Fault f => Fault f
    | Ok true => Ok true
    | Ok false =>
        match m_getenv m "ICECC_COLOR_DIAGNOSTICS" with
        | Some v => Ok (bool_decide (char_at v 0 = x31))
        | None =>
            if m_gcc_color m then Ok true
            else
              match m_getenv m "GCC_COLORS" with
              | Some c => Ok (negb (bool_decide (char_at c 0 = x00)))
              | None => Ok false
              end
        end
    end.

(** The globals [explicit_color_diagnostics] and [explicit_no_show_caret] are
    arguments. *)
Definition colorify_wanted (m : machine) (explicit_color_diagnostics : bool) (job : CompileJob)
  : res bool :=
  match compiler_has_color_output m job with
  | Fault f => Fault f
  | Ok true => Ok false
  | Ok false =>
      if explicit_color_diagnostics then Ok false
      else
        match m_getenv m "ICECC_COLOR_DIAGNOSTICS", m_getenv m "EMACS" with
        | Some _, _ | None, Some _ => Ok false
        | None, None => Ok (color_output_possible m)
        end
  end.

Definition output_needs_workaround (m : machine) (explicit_no_show_caret : bool) (job : CompileJob)
  : res bool :=
  match compiler_is_clang job with
  | Fault f => Fault f
  | Ok true => Ok false
  | Ok false =>
      if explicit_no_show_caret then Ok false
      else
        match m_getenv m "ICECC_CARET_WORKAROUND" with
        | Some v => Ok (bool_decide (char_at v 0 = x31))
        | None => Ok (m_gcc_caret m)
        end
  end.

(** ** The flags [-march=native] and the like stand for

    The output of the compiler with and without the flags is compared; a
    string is read at its indexes, where the one behind the last character
    holds a zero and the others are out of bounds. *)

Definition at_index (s : list byte) (i : Z) : res byte :=
  if (0 <=? i) && (i <? Z.of_nat (length s)) then Ok (default x00 (s !! Z.to_nat i))
  else if i =? Z.of_nat (length s) then Ok x00
  else Fault OutOfBounds.

(** [while (go(i)) i += by;] *)
Fixpoint scan_while (fuel : nat) (go : Z -> res bool) (by_ i : Z) : res Z :=
  match go i with
  | Fault f => Fault f
  | Ok false => Ok i
  | Ok true => match fuel with O => Fault Aborted | S fuel => scan_while fuel go by_ (i + by_) end
  end.

Definition res_bind {A B} (r : res A) (k : A -> res B) : res B :=
  match r with Ok a => k a | Fault f => Fault f end.

(** [lo < i && s[i] is (not) c], in the order the code tests. *)
Definition in_range_and (b : bool) (r : res bool) : res bool := if b then r else Ok false.
Definition same_at (s t : list byte) (i j : Z) : res bool :=
  res_bind (at_index s i) (fun a => res_bind (at_index t j) (fun b => Ok (bool_decide (a = b)))).
Definition differs_at (s : list byte) (i : Z) (c : byte) : res bool :=
  res_bind (at_index s i) (fun a => Ok (negb (bool_decide (a = c)))).

(** The line of the compiler proper; [None] when [erase] throws. *)
Definition cc1_line (is_clang : bool) (output : list byte) : option (list byte) :=
  let mark := if is_clang then x22 :: bytes_of "-cc1" ++ [x22] else bytes_of "/cc1 " in
  let start := bfind mark output in
  let output := if start =? npos then [] else drop (Z.to_nat start) output in
  let eol := bfind [x0a] output in
  if eol =? npos then (if is_clang then Some output else None)
  else Some (take (Z.to_nat eol) output).

(** The range in which the two lines differ, extended to whole words; [None]
    when they do not. The sizes are assumed to fit an [int]. *)
Definition changed_range (flags_output normal_output : list byte) : res (option (Z * Z)) :=
  let flags_end := Z.of_nat (length flags_output) in
  let fuel := S (S (length flags_output)) in
  let back i := scan_while fuel (fun i => in_range_and (0 <=? i) (differs_at flags_output i x20)) (-1) i in
  res_bind (scan_while fuel (fun i => in_range_and (i <? flags_end)
              (same_at flags_output normal_output i i)) 1 0) (fun start =>
  if start =? flags_end then Ok None
  else
    let end_diff := Z.of_nat (length normal_output) - flags_end in
    res_bind (scan_while fuel (fun i => in_range_and (start <? i)
                (same_at flags_output normal_output i (i + end_diff))) (-1) (flags_end - 1)) (fun end_ =>
    res_bind (back start) (fun start => let start := start + 1 in
    res_bind (differs_at flags_output start x2d) (fun no_dash =>
    res_bind (in_range_and no_dash (differs_at flags_output (start + 1) x2d)) (fun value =>
    res_bind (if value then res_bind (back (start - 2)) (fun s => Ok (s + 1)) else Ok start) (fun start =>
    res_bind (scan_while fuel (fun i => in_range_and (i <? flags_end) (differs_at flags_output i x20)) 1 end_)
      (fun end_ => Ok (Some (start, end_ + 1))))))))).

(** The words of the range, quotes taken off. *)
Fixpoint split_flags (fuel : nat) (is_clang : bool) (s : list byte) (start end_ : Z) : res (list string) :=
  if end_ <=? start then Ok []
  else
    match fuel with
    | O => Fault Aborted
    | S fuel =>
        let stop c i := scan_while (S (S (length s))) (fun i => in_range_and (i <? end_) (differs_at s i c)) 1 i in
        res_bind (at_index s start) (fun b =>
        res_bind (if decide (b = x22)
                  then res_bind (stop x22 (start + 1)) (fun pos =>
                       Ok (substr (str_of s) (start + 1) (pos - start - 1), pos + 2))
                  else res_bind (stop x20 start) (fun pos =>
                       Ok (substr (str_of s) start (pos - start), pos + 1))) (fun r =>
        res_bind (split_flags fuel is_clang s r.2 end_) (fun args =>
        Ok ((if is_clang then ["-Xclang"%string] else []) ++ r.1 :: args))))
    end.

(** [compiler_get_arch_flags]: [None] when it returns [false]. *)
Definition compiler_get_arch_flags (m : machine) (job : CompileJob) (march mcpu mtune : bool)
  : res (option (list string)) :=
  res_bind (find_compiler m job) (fun compiler =>
  res_bind (compiler_is_clang job) (fun is_clang =>
  let compiler_args := ["-###"; "-E"; "-"]%string in
  let normal_output := bytes_of (m_output m compiler compiler_args 2) in
  let native := (if march then ["-march=native"] else []) ++ (if mcpu then ["-mcpu=native"] else [])
                ++ (if mtune then ["-mtune=native"] else []) in
  let flags_output := bytes_of (m_output m compiler (compiler_args ++ native)%list 2) in
  match cc1_line is_clang flags_output, cc1_line is_clang normal_output with
  | Some flags_output, Some normal_output =>
      res_bind (changed_range flags_output normal_output) (fun r =>
      match r with
      | None => Ok (Some [])
      | Some (start, end_) =>
          res_bind (split_flags (S (length flags_output)) is_clang flags_output start end_)
            (fun args => Ok (Some args))
      end)
  | _, _ => Ok None
  end)).

(** The flags of a compiler whose defaults are known. *)
Example arch_flags_of_gcc :
  compiler_get_arch_flags
    (mkMachine (fun v => if str_equal v "PATH" then Some "/usr/bin" else None) "/" (fun _ => true)
       (fun _ => Some Regular) (fun _ => Some (Regular, 0)) (fun _ => None)
       (fun _ args _ => if bool_decide ("-march=native" ∈ args)
          then str_of (bytes_of "COLLECT=gcc" ++ x0a :: bytes_of " /cc1 -E - -march=skylake --param l1=32 -mtune=generic" ++ [x0a])
          else str_of (bytes_of "COLLECT=gcc" ++ x0a :: bytes_of " /cc1 -E - -mtune=generic" ++ [x0a]))
       false false false)%string
    (mkCompileJob 0 Lang_C "" "gcc" "" [] "" "" "" "x86_64" false false)%string true false false
  = Ok (Some ["-march=skylake"; "--param"; "l1=32"]%string).
Proof. vm_compute. reflexivity. Qed.

(** ** Facts *)

(** A compiler by its path. *)
Definition in_dir (d : list byte) (base : string) : string := str_of (d ++ x2f :: bytes_of base).

Lemma rename_in_dir d base p old new :
  0 <= p ->
  rename_at (in_dir d base) (Z.of_nat (length d) + 1 + p) old new = in_dir d (rename_at base p old new).
Proof.
  intros Hp. unfold rename_at, in_dir, substr, substr_from.
  assert (strlen (str_of (d ++ x2f :: bytes_of base)) = Z.of_nat (length d) + 1 + strlen base) as ->.
  { unfold strlen. rewrite bytes_of_str_of, length_app. cbn [length]. lia. }
  assert (0 <= strlen old /\ 0 <= strlen base) as [Ho Hb] by (unfold strlen; lia).
  rewrite !bytes_of_app, !bytes_of_str_of.
  replace (Z.to_nat (Z.min (Z.of_nat (length d) + 1 + p) (Z.of_nat (length d) + 1 + strlen base)))
    with (length d + S (Z.to_nat (Z.min p (strlen base))))%nat by lia.
  replace (Z.to_nat (Z.of_nat (length d) + 1 + p + strlen old))
    with (length d + S (Z.to_nat (p + strlen old)))%nat by lia.
  change (Z.to_nat 0) with 0%nat. rewrite !drop_0, take_app_add, drop_app_add. cbn [skipn firstn].
  rewrite <- (str_of_bytes_of new) at 1. rewrite <- !str_of_app. f_equal.
  rewrite <- app_assoc. cbn [app]. done.
Qed.

(** A directory and a base name of a size a string can have. *)
Definition dir_ok (d : list byte) (base : string) : bool :=
  forallb (fun b => negb (bool_decide (b = x2f))) (bytes_of base)
  && (Z.of_nat (length (d ++ x2f :: bytes_of base)) <? npos).
(** A pattern that is not empty and has no slash. *)
Definition pattern_ok (old : string) : bool :=
  negb (str_equal old "") && forallb (fun b => negb (bool_decide (b = x2f))) (bytes_of old).

Lemma no_slash s : forallb (fun b => negb (bool_decide (b = x2f))) (bytes_of s) = true -> x2f ∉ bytes_of s.
Proof.
  rewrite forallb_forall. intros H Hin. apply list_elem_of_In, H in Hin. by rewrite bool_decide_true in Hin.
Qed.
Lemma base_start d base : dir_ok d base = true -> u64 (Z.of_nat (length d) + 1) = Z.of_nat (length d) + 1.
Proof.
  unfold dir_ok. intros H. boolify. apply Z.mod_small. unfold npos in *.
  rewrite length_app in *. cbn [length] in *. lia.
Qed.

(** A pattern of the base name, seen from the path. *)
Lemma rfind_in_dir d base old :
  dir_ok d base = true -> pattern_ok old = true ->
  (rfind old base = npos /\
     (rfind old (in_dir d base) = npos \/ rfind old (in_dir d base) < Z.of_nat (length d) + 1)) \/
  (0 <= rfind old base /\ rfind old (in_dir d base) = Z.of_nat (length d) + 1 + rfind old base /\
     rfind old (in_dir d base) <> npos /\ rfind old base <> npos).
Proof.
  unfold dir_ok, pattern_ok. intros [Hb H0]%andb_true_iff [H1 H2]%andb_true_iff.
  apply Z.ltb_lt in H0. apply negb_true_iff, bool_decide_eq_false in H1. apply no_slash in H2.
  destruct (rfind_behind old d base H2 H1 H0) as [E1 E2]. fold (in_dir d base) in *.
  rewrite length_app in H0. cbn [length] in H0.
  destruct (Z.eq_dec (rfind old base) npos) as [E|E]; [left; auto|right].
  rewrite (E1 E). unfold rfind, brfind_upto in *.
  destruct (rfind_at_shift (bytes_of old) (bytes_of base) 0 npos ltac:(lia) ltac:(lia)) as [_ [Hr|Hr]];
    [done|lia].
Qed.

(** A rule whose pattern the base name lacks, and one that applies. *)
Lemma rule_absent d base old new test sl rules otherwise :
  dir_ok d base = true -> pattern_ok old = true -> (rfind old base =? npos) = true ->
  (forall pos, test pos = true -> u64 (Z.of_nat (length d) + 1) <= pos) ->
  rename_first (in_dir d base) sl ((old, new, test) :: rules) otherwise
  = rename_first (in_dir d base) sl rules otherwise.
Proof.
  intros Hd Hp E Ht. apply Z.eqb_eq in E. cbn [rename_first].
  destruct (rfind_in_dir d base old Hd Hp) as [[_ [->|H]]|(_ & _ & _ & Hn)]; [..|done].
  - by rewrite Z.eqb_refl.
  - destruct (test _) eqn:Et; [|by rewrite andb_false_r]. apply Ht in Et.
    rewrite (base_start _ _ Hd) in Et. lia.
Qed.
Lemma rule_applies d base old new test sl rules otherwise :
  dir_ok d base = true -> pattern_ok old = true -> (rfind old base =? npos) = false ->
  test (u64 (Z.of_nat (length d) + 1) + rfind old base) = true ->
  rename_first (in_dir d base) sl ((old, new, test) :: rules) otherwise
  = Ok (in_dir d (rename_at base (rfind old base) old new)).
Proof.
  intros Hd Hp E Ht. apply Z.eqb_neq in E. cbn [rename_first]. rewrite (base_start _ _ Hd) in Ht.
  destruct (rfind_in_dir d base old Hd Hp) as [[E2 _]|(H & -> & Hn & _)]; [done|].
  rewrite (proj2 (Z.eqb_neq _ npos)) by lia. cbn [negb andb]. rewrite Ht. by rewrite rename_in_dir.
Qed.

(** Whether ["++"] is in the base name decides the branch. *)
Lemma plusplus_in_dir d base :
  dir_ok d base = true -> (rfind "++" base =? npos) = false ->
  (rfind "++" (in_dir d base) =? npos) || (rfind "++" (in_dir d base) <? Z.of_nat (length d)) = false.
Proof.
  intros Hd E. apply Z.eqb_neq in E.
  destruct (rfind_in_dir d base "++" Hd eq_refl) as [[? _]|(H & -> & Hn & _)]; [done|].
  apply orb_false_iff. split; [apply Z.eqb_neq|apply Z.ltb_ge]; lia.
Qed.
Lemma no_plusplus_in_dir d base :
  dir_ok d base = true -> (rfind "++" base =? npos) = true ->
  negb (rfind "++" (in_dir d base) =? npos)
  && (u64 (Z.of_nat (length d) + 1) <=? rfind "++" (in_dir d base)) = false.
Proof.
  intros Hd E. apply Z.eqb_eq in E. rewrite (base_start _ _ Hd).
  destruct (rfind_in_dir d base "++" Hd eq_refl) as [[_ [->|H]]|(_ & _ & _ & Hn)]; [..|done].
  - by rewrite Z.eqb_refl.
  - apply andb_false_iff. right. apply Z.leb_gt. lia.
Qed.

Lemma slash_in_dir d base : dir_ok d base = true -> rfind "/" (in_dir d base) = Z.of_nat (length d).
Proof. unfold dir_ok. intros H. boolify. apply rfind_slash; [by apply no_slash|done]. Qed.
Lemma in_dir_nonempty d base : str_equal (in_dir d base) "" = false.
Proof.
  apply bool_decide_eq_false. intros E. apply (f_equal bytes_of) in E.
  unfold in_dir in E. rewrite bytes_of_str_of in E. by destruct d.
Qed.

Ltac eval_rfind :=
  repeat match goal with
  | |- context [rfind ?a ?b] => let v := eval vm_compute in (rfind a b) in change (rfind a b) with v
  end.
(** Walks through the rules for a base name that is known. *)
Ltac rename_rules :=
  repeat first
    [ rewrite rule_applies; [| assumption | reflexivity | reflexivity
        | cbn beta; eval_rfind; try (rewrite andb_true_iff; split; [|reflexivity]);
          first [apply Z.leb_le|apply Z.eqb_eq]; lia ]; [reflexivity|..]
    | rewrite rule_absent; [| assumption | reflexivity | reflexivity
        | let H := fresh in intros ? H; cbn beta in H; boolify; lia ] ].

(** For a compiler in any directory the names of the C and the C++
    compiler are found from each other: gcc and g++, clang and clang++, cc and
    c++. *)
Theorem compiler_names_roundtrip d c cpp :
  In (c, cpp) [("gcc", "g++"); ("clang", "clang++"); ("cc", "c++")]%string ->
  Z.of_nat (length d) < 2 ^ 63 ->
  get_cpp_compiler (in_dir d c) = Ok (in_dir d cpp) /\ get_c_compiler (in_dir d cpp) = Ok (in_dir d c).
Proof.
  intros Hin Hd.
  assert (forall b, forallb (fun b => negb (bool_decide (b = x2f))) (bytes_of b) = true ->
    (length (bytes_of b) <= 8)%nat -> dir_ok d b = true) as Hok.
  { intros b H1 H2. unfold dir_ok. rewrite H1. apply Z.ltb_lt. rewrite length_app. cbn [length].
    unfold npos. lia. }
  cbn [In] in Hin. unfold get_cpp_compiler, get_c_compiler. rewrite !in_dir_nonempty.
  repeat destruct Hin as [Hin|Hin]; [..|done]; injection Hin as <- <-;
  match goal with |- context [in_dir d ?a] => match goal with |- context [in_dir d ?b] =>
    lazymatch a with b => fail | _ =>
      pose proof (Hok a eq_refl ltac:(cbn; lia)); pose proof (Hok b eq_refl ltac:(cbn; lia)) end end end;
  (split; rewrite slash_in_dir by assumption; cbv zeta;
   [rewrite no_plusplus_in_dir by (assumption || reflexivity)
   |rewrite plusplus_in_dir by (assumption || reflexivity)]).
  all: rename_rules.
Qed.

(** ** Witness and examples *)

Lemma compiler_names_roundtrip_witness :
  get_cpp_compiler (in_dir (bytes_of "/usr/bin") "clang") = Ok "/usr/bin/clang++"%string /\
  get_c_compiler (in_dir (bytes_of "/usr/bin") "clang++") = Ok "/usr/bin/clang"%string.
Proof.
  apply (compiler_names_roundtrip (bytes_of "/usr/bin") "clang" "clang++"); [|vm_compute; reflexivity].
  right. left. reflexivity.
Defined.

(** Names [get_c_compiler] does not turn into those of C compilers, and one
    [get_cpp_compiler] has no rule for. *)
Example get_c_compiler_unchanged :
  get_c_compiler "g++" = Ok "g++"%string /\ get_c_compiler "/opt/bin/icpx" = Ok "/opt/bin/icpx"%string /\
  get_cpp_compiler "/opt/icpx/bin/icx" = Fault AssertFailed.
Proof. repeat split; vm_compute; reflexivity. Qed.
