(* ===== verification/Arguments.v ===== *)
(** * Analysis of the command line (client/arg.cpp)

    [analyse_argv] in full: every argument of the compiler gets a class, jobs
    that cannot be distributed are recognised, and the input file, the output
    file and the language are found. [argv[i]] behind the last argument is a
    null pointer. *)

From Stdlib Require Import ZArith Lia.
From Stdlib Require Import Strings.Byte Strings.String.
From stdpp Require Import base tactics option list strings.
From S2P Require Import Prelude StdString Paths CompileJob Compilers.

#[local] Open Scope Z_scope.

(** ** Tables *)

(** The options whose value is the next argument. Two literals without a comma
    between them make one string, the last. *)
Definition arguments_with_space : list string :=
  ["-dyld-prefix"; "-gcc-toolchain"; "--param"; "--sysroot"; "--system-header-prefix";
   "-target"; "--assert"; "--allowable_client"; "-arch"; "-arch_only";
   "-arcmt-migrate-report-output"; "--prefix"; "-bundle_loader"; "-dependency-dot";
   "-dependency-file"; "-dylib_file"; "-exported_symbols_list"; "--bootclasspath";
   "--CLASSPATH"; "--classpath"; "--resource"; "--encoding"; "--extdirs"; "-filelist";
   "-fmodule-implementation-of"; "-fmodule-name"; "-fmodules-user-build-path";
   "-fnew-alignment"; "-force_load"; "--output-class-directory"; "-framework";
   "-frewrite-map-file"; "-ftrapv-handler"; "-image_base"; "-init"; "-install_name";
   "-lazy_framework"; "-lazy_library"; "-meabi"; "-mhwdiv"; "-mllvm";
   "-module-dependency-dir"; "-mthread-model"; "-multiply_defined";
   "-multiply_defined_unused"; "-rpath"; "--rtlib"; "-seg_addr_table";
   "-seg_addr_table_filename"; "-segs_read_only_addr"; "-segs_read_write_addr";
   "-serialize-diagnostics"; "--serialize-diagnostics"; "-std"; "--stdlib"; "--force-link";
   "-umbrella"; "-unexported_symbols_list"; "-weak_library"; "-weak_reference_mismatches";
   "-B"; "-D"; "-U"; "-I"; "-i"; "--include-directory"; "-L"; "-l"; "--library-directory";
   "-MF"; "-MT"; "-MQ"; "-cxx-isystem"; "-c-isystem"; "-idirafter";
   "--include-directory-after"; "-iframework"; "-iframeworkwithsysroot"; "-imacros";
   "-imultilib"; "-iprefix"; "--include-prefix"; "-iquote"; "-include"; "-include-pch";
   "-isysroot"; "-isystem"; "-isystem-after"; "-ivfsoverlay"; "-iwithprefix";
   "--include-with-prefix"; "--include-with-prefix-after"; "-iwithprefixbefore";
   "--include-with-prefix-before"; "-iwithsysroot-index-store-path"]%string.
Definition is_argument_with_space (a : string) : bool := existsb (str_equal a) arguments_with_space.

(** Options with a value that only matter locally. *)
Definition local_options : list string :=
  ["-I"; "-i"; "--include-directory"; "-L"; "-l"; "--library-directory"; "-MF"; "-MT"; "-MQ";
   "-cxx-isystem"; "-c-isystem"; "-idirafter"; "--include-directory-after"; "-iframework";
   "-iframeworkwithsysroot"; "-imacros"; "-imultilib"; "-iprefix"; "--include-prefix"; "-iquote";
   "-include"; "-include-pch"; "-isysroot"; "-isystem"; "-isystem-after"; "-ivfsoverlay";
   "-iwithprefix"; "-serialize-diagnostics"; "--serialize-diagnostics";
   "-fmodules-validate-once-per-build-session"; "--include-with-prefix";
   "--include-with-prefix-after"; "-iwithprefixbefore"; "--include-with-prefix-before";
   "-iwithsysroot"; "-index-store-path"]%string.

Definition one_of (a : string) (l : list string) : bool := existsb (str_equal a) l.
Definition starts_one_of (a : string) (l : list string) : bool :=
  existsb (fun h => str_startswith h a) l.

(** ** Programs and files that are always built locally *)

Definition should_always_build_locally (filepath : string) : bool :=
  let filename := find_basename filepath in
  starts_one_of filename ["conftest."; "tmp.conftest."]%string
  || str_startswith "Check" filename
     && starts_one_of filename ["CheckIncludeFile."; "CheckFunctionExists."; "CheckSymbolExists.";
          "CheckTypeSize."; "CheckPrototypeDefinition."]%string.

(** [analyze_program]: whether the job is local, the job, and [icerun]. *)
Definition analyze_program (name : string) (job : CompileJob) (icerun : bool)
  : bool * CompileJob * bool :=
  let compiler_name := find_basename name in
  let job := setCompilerName compiler_name job in
  if icerun then (true, setLanguage Lang_Custom job, icerun)
  else
    let dpcpp := contains "dpcpp" compiler_name in
    if is_cpp_compiler compiler_name then (dpcpp, setLanguage Lang_CXX job, icerun)
    else if is_c_compiler compiler_name then (dpcpp, setLanguage Lang_C job, icerun)
    else (true, setLanguage Lang_Custom job, true).

(** ** The state of the loop *)

Record scan : Type := mkScan {
  a_args : ArgumentsList;
  a_ofile : string;
  a_extrafiles : list string;
  a_job : CompileJob;
  a_always_local : bool;
  a_seen_c : bool;
  a_seen_s : bool;
  a_seen_mf : bool;
  a_seen_md : bool;
  a_seen_split_dwarf : bool;
  a_seen_target : bool;
  a_wunused_macros : bool;
  a_seen_arch : bool;
  a_seen_pedantic : bool;
  a_seen_imacros : bool;
  a_seen_march_native : bool;
  a_seen_mcpu_native : bool;
  a_seen_mtune_native : bool;
  a_seen_parallel_flto : string;
  a_standard : option string;
  a_color : bool;
  a_no_caret : bool;
  a_second_option : bool
}.

Definition set_args (v : ArgumentsList) (r : scan) : scan :=
  mkScan v (r.(a_ofile)) (r.(a_extrafiles)) (r.(a_job)) (r.(a_always_local))
    (r.(a_seen_c)) (r.(a_seen_s)) (r.(a_seen_mf)) (r.(a_seen_md))
    (r.(a_seen_split_dwarf)) (r.(a_seen_target)) (r.(a_wunused_macros))
    (r.(a_seen_arch)) (r.(a_seen_pedantic)) (r.(a_seen_imacros))
    (r.(a_seen_march_native)) (r.(a_seen_mcpu_native))
    (r.(a_seen_mtune_native)) (r.(a_seen_parallel_flto)) (r.(a_standard))
    (r.(a_color)) (r.(a_no_caret)) (r.(a_second_option)).
Definition set_ofile (v : string) (r : scan) : scan :=
  mkScan (r.(a_args)) v (r.(a_extrafiles)) (r.(a_job)) (r.(a_always_local))
    (r.(a_seen_c)) (r.(a_seen_s)) (r.(a_seen_mf)) (r.(a_seen_md))
    (r.(a_seen_split_dwarf)) (r.(a_seen_target)) (r.(a_wunused_macros))
    (r.(a_seen_arch)) (r.(a_seen_pedantic)) (r.(a_seen_imacros))
    (r.(a_seen_march_native)) (r.(a_seen_mcpu_native))
    (r.(a_seen_mtune_native)) (r.(a_seen_parallel_flto)) (r.(a_standard))
    (r.(a_color)) (r.(a_no_caret)) (r.(a_second_option)).
Definition set_extrafiles (v : list string) (r : scan) : scan :=
  mkScan (r.(a_args)) (r.(a_ofile)) v (r.(a_job)) (r.(a_always_local))
    (r.(a_seen_c)) (r.(a_seen_s)) (r.(a_seen_mf)) (r.(a_seen_md))
    (r.(a_seen_split_dwarf)) (r.(a_seen_target)) (r.(a_wunused_macros))
    (r.(a_seen_arch)) (r.(a_seen_pedantic)) (r.(a_seen_imacros))
    (r.(a_seen_march_native)) (r.(a_seen_mcpu_native))
    (r.(a_seen_mtune_native)) (r.(a_seen_parallel_flto)) (r.(a_standard))
    (r.(a_color)) (r.(a_no_caret)) (r.(a_second_option)).
Definition set_job (v : CompileJob) (r : scan) : scan :=
  mkScan (r.(a_args)) (r.(a_ofile)) (r.(a_extrafiles)) v (r.(a_always_local))
    (r.(a_seen_c)) (r.(a_seen_s)) (r.(a_seen_mf)) (r.(a_seen_md))
    (r.(a_seen_split_dwarf)) (r.(a_seen_target)) (r.(a_wunused_macros))
    (r.(a_seen_arch)) (r.(a_seen_pedantic)) (r.(a_seen_imacros))
    (r.(a_seen_march_native)) (r.(a_seen_mcpu_native))
    (r.(a_seen_mtune_native)) (r.(a_seen_parallel_flto)) (r.(a_standard))
    (r.(a_color)) (r.(a_no_caret)) (r.(a_second_option)).
Definition set_always_local (v : bool) (r : scan) : scan :=
  mkScan (r.(a_args)) (r.(a_ofile)) (r.(a_extrafiles)) (r.(a_job)) v
    (r.(a_seen_c)) (r.(a_seen_s)) (r.(a_seen_mf)) (r.(a_seen_md))
    (r.(a_seen_split_dwarf)) (r.(a_seen_target)) (r.(a_wunused_macros))
    (r.(a_seen_arch)) (r.(a_seen_pedantic)) (r.(a_seen_imacros))
    (r.(a_seen_march_native)) (r.(a_seen_mcpu_native))
    (r.(a_seen_mtune_native)) (r.(a_seen_parallel_flto)) (r.(a_standard))
    (r.(a_color)) (r.(a_no_caret)) (r.(a_second_option)).
Definition set_seen_c (v : bool) (r : scan) : scan :=
  mkScan (r.(a_args)) (r.(a_ofile)) (r.(a_extrafiles)) (r.(a_job))
    (r.(a_always_local)) v (r.(a_seen_s)) (r.(a_seen_mf)) (r.(a_seen_md))
    (r.(a_seen_split_dwarf)) (r.(a_seen_target)) (r.(a_wunused_macros))
    (r.(a_seen_arch)) (r.(a_seen_pedantic)) (r.(a_seen_imacros))
    (r.(a_seen_march_native)) (r.(a_seen_mcpu_native))
    (r.(a_seen_mtune_native)) (r.(a_seen_parallel_flto)) (r.(a_standard))
    (r.(a_color)) (r.(a_no_caret)) (r.(a_second_option)).
Definition set_seen_s (v : bool) (r : scan) : scan :=
  mkScan (r.(a_args)) (r.(a_ofile)) (r.(a_extrafiles)) (r.(a_job))
    (r.(a_always_local)) (r.(a_seen_c)) v (r.(a_seen_mf)) (r.(a_seen_md))
    (r.(a_seen_split_dwarf)) (r.(a_seen_target)) (r.(a_wunused_macros))
    (r.(a_seen_arch)) (r.(a_seen_pedantic)) (r.(a_seen_imacros))
    (r.(a_seen_march_native)) (r.(a_seen_mcpu_native))
    (r.(a_seen_mtune_native)) (r.(a_seen_parallel_flto)) (r.(a_standard))
    (r.(a_color)) (r.(a_no_caret)) (r.(a_second_option)).
Definition set_seen_mf (v : bool) (r : scan) : scan :=
  mkScan (r.(a_args)) (r.(a_ofile)) (r.(a_extrafiles)) (r.(a_job))
    (r.(a_always_local)) (r.(a_seen_c)) (r.(a_seen_s)) v (r.(a_seen_md))
    (r.(a_seen_split_dwarf)) (r.(a_seen_target)) (r.(a_wunused_macros))
    (r.(a_seen_arch)) (r.(a_seen_pedantic)) (r.(a_seen_imacros))
    (r.(a_seen_march_native)) (r.(a_seen_mcpu_native))
    (r.(a_seen_mtune_native)) (r.(a_seen_parallel_flto)) (r.(a_standard))
    (r.(a_color)) (r.(a_no_caret)) (r.(a_second_option)).
Definition set_seen_md (v : bool) (r : scan) : scan :=
  mkScan (r.(a_args)) (r.(a_ofile)) (r.(a_extrafiles)) (r.(a_job))
    (r.(a_always_local)) (r.(a_seen_c)) (r.(a_seen_s)) (r.(a_seen_mf)) v
    (r.(a_seen_split_dwarf)) (r.(a_seen_target)) (r.(a_wunused_macros))
    (r.(a_seen_arch)) (r.(a_seen_pedantic)) (r.(a_seen_imacros))
    (r.(a_seen_march_native)) (r.(a_seen_mcpu_native))
    (r.(a_seen_mtune_native)) (r.(a_seen_parallel_flto)) (r.(a_standard))
    (r.(a_color)) (r.(a_no_caret)) (r.(a_second_option)).
Definition set_seen_split_dwarf (v : bool) (r : scan) : scan :=
  mkScan (r.(a_args)) (r.(a_ofile)) (r.(a_extrafiles)) (r.(a_job))
    (r.(a_always_local)) (r.(a_seen_c)) (r.(a_seen_s)) (r.(a_seen_mf))
    (r.(a_seen_md)) v (r.(a_seen_target)) (r.(a_wunused_macros))
    (r.(a_seen_arch)) (r.(a_seen_pedantic)) (r.(a_seen_imacros))
    (r.(a_seen_march_native)) (r.(a_seen_mcpu_native))
    (r.(a_seen_mtune_native)) (r.(a_seen_parallel_flto)) (r.(a_standard))
    (r.(a_color)) (r.(a_no_caret)) (r.(a_second_option)).
Definition set_seen_target (v : bool) (r : scan) : scan :=
  mkScan (r.(a_args)) (r.(a_ofile)) (r.(a_extrafiles)) (r.(a_job))
    (r.(a_always_local)) (r.(a_seen_c)) (r.(a_seen_s)) (r.(a_seen_mf))
    (r.(a_seen_md)) (r.(a_seen_split_dwarf)) v (r.(a_wunused_macros))
    (r.(a_seen_arch)) (r.(a_seen_pedantic)) (r.(a_seen_imacros))
    (r.(a_seen_march_native)) (r.(a_seen_mcpu_native))
    (r.(a_seen_mtune_native)) (r.(a_seen_parallel_flto)) (r.(a_standard))
    (r.(a_color)) (r.(a_no_caret)) (r.(a_second_option)).
Definition set_wunused_macros (v : bool) (r : scan) : scan :=
  mkScan (r.(a_args)) (r.(a_ofile)) (r.(a_extrafiles)) (r.(a_job))
    (r.(a_always_local)) (r.(a_seen_c)) (r.(a_seen_s)) (r.(a_seen_mf))
    (r.(a_seen_md)) (r.(a_seen_split_dwarf)) (r.(a_seen_target)) v
    (r.(a_seen_arch)) (r.(a_seen_pedantic)) (r.(a_seen_imacros))
    (r.(a_seen_march_native)) (r.(a_seen_mcpu_native))
    (r.(a_seen_mtune_native)) (r.(a_seen_parallel_flto)) (r.(a_standard))
    (r.(a_color)) (r.(a_no_caret)) (r.(a_second_option)).
Definition set_seen_arch (v : bool) (r : scan) : scan :=
  mkScan (r.(a_args)) (r.(a_ofile)) (r.(a_extrafiles)) (r.(a_job))
    (r.(a_always_local)) (r.(a_seen_c)) (r.(a_seen_s)) (r.(a_seen_mf))
    (r.(a_seen_md)) (r.(a_seen_split_dwarf)) (r.(a_seen_target))
    (r.(a_wunused_macros)) v (r.(a_seen_pedantic)) (r.(a_seen_imacros))
    (r.(a_seen_march_native)) (r.(a_seen_mcpu_native))
    (r.(a_seen_mtune_native)) (r.(a_seen_parallel_flto)) (r.(a_standard))
    (r.(a_color)) (r.(a_no_caret)) (r.(a_second_option)).
Definition set_seen_pedantic (v : bool) (r : scan) : scan :=
  mkScan (r.(a_args)) (r.(a_ofile)) (r.(a_extrafiles)) (r.(a_job))
    (r.(a_always_local)) (r.(a_seen_c)) (r.(a_seen_s)) (r.(a_seen_mf))
    (r.(a_seen_md)) (r.(a_seen_split_dwarf)) (r.(a_seen_target))
    (r.(a_wunused_macros)) (r.(a_seen_arch)) v (r.(a_seen_imacros))
    (r.(a_seen_march_native)) (r.(a_seen_mcpu_native))
    (r.(a_seen_mtune_native)) (r.(a_seen_parallel_flto)) (r.(a_standard))
    (r.(a_color)) (r.(a_no_caret)) (r.(a_second_option)).
Definition set_seen_imacros (v : bool) (r : scan) : scan :=
  mkScan (r.(a_args)) (r.(a_ofile)) (r.(a_extrafiles)) (r.(a_job))
    (r.(a_always_local)) (r.(a_seen_c)) (r.(a_seen_s)) (r.(a_seen_mf))
    (r.(a_seen_md)) (r.(a_seen_split_dwarf)) (r.(a_seen_target))
    (r.(a_wunused_macros)) (r.(a_seen_arch)) (r.(a_seen_pedantic)) v
    (r.(a_seen_march_native)) (r.(a_seen_mcpu_native))
    (r.(a_seen_mtune_native)) (r.(a_seen_parallel_flto)) (r.(a_standard))
    (r.(a_color)) (r.(a_no_caret)) (r.(a_second_option)).
Definition set_seen_march_native (v : bool) (r : scan) : scan :=
  mkScan (r.(a_args)) (r.(a_ofile)) (r.(a_extrafiles)) (r.(a_job))
    (r.(a_always_local)) (r.(a_seen_c)) (r.(a_seen_s)) (r.(a_seen_mf))
    (r.(a_seen_md)) (r.(a_seen_split_dwarf)) (r.(a_seen_target))
    (r.(a_wunused_macros)) (r.(a_seen_arch)) (r.(a_seen_pedantic))
    (r.(a_seen_imacros)) v (r.(a_seen_mcpu_native)) (r.(a_seen_mtune_native))
    (r.(a_seen_parallel_flto)) (r.(a_standard)) (r.(a_color))
    (r.(a_no_caret)) (r.(a_second_option)).
Definition set_seen_mcpu_native (v : bool) (r : scan) : scan :=
  mkScan (r.(a_args)) (r.(a_ofile)) (r.(a_extrafiles)) (r.(a_job))
    (r.(a_always_local)) (r.(a_seen_c)) (r.(a_seen_s)) (r.(a_seen_mf))
    (r.(a_seen_md)) (r.(a_seen_split_dwarf)) (r.(a_seen_target))
    (r.(a_wunused_macros)) (r.(a_seen_arch)) (r.(a_seen_pedantic))
    (r.(a_seen_imacros)) (r.(a_seen_march_native)) v
    (r.(a_seen_mtune_native)) (r.(a_seen_parallel_flto)) (r.(a_standard))
    (r.(a_color)) (r.(a_no_caret)) (r.(a_second_option)).
Definition set_seen_mtune_native (v : bool) (r : scan) : scan :=
  mkScan (r.(a_args)) (r.(a_ofile)) (r.(a_extrafiles)) (r.(a_job))
    (r.(a_always_local)) (r.(a_seen_c)) (r.(a_seen_s)) (r.(a_seen_mf))
    (r.(a_seen_md)) (r.(a_seen_split_dwarf)) (r.(a_seen_target))
    (r.(a_wunused_macros)) (r.(a_seen_arch)) (r.(a_seen_pedantic))
    (r.(a_seen_imacros)) (r.(a_seen_march_native)) (r.(a_seen_mcpu_native)) v
    (r.(a_seen_parallel_flto)) (r.(a_standard)) (r.(a_color))
    (r.(a_no_caret)) (r.(a_second_option)).
Definition set_seen_parallel_flto (v : string) (r : scan) : scan :=
  mkScan (r.(a_args)) (r.(a_ofile)) (r.(a_extrafiles)) (r.(a_job))
    (r.(a_always_local)) (r.(a_seen_c)) (r.(a_seen_s)) (r.(a_seen_mf))
    (r.(a_seen_md)) (r.(a_seen_split_dwarf)) (r.(a_seen_target))
    (r.(a_wunused_macros)) (r.(a_seen_arch)) (r.(a_seen_pedantic))
    (r.(a_seen_imacros)) (r.(a_seen_march_native)) (r.(a_seen_mcpu_native))
    (r.(a_seen_mtune_native)) v (r.(a_standard)) (r.(a_color))
    (r.(a_no_caret)) (r.(a_second_option)).
Definition set_standard (v : option string) (r : scan) : scan :=
  mkScan (r.(a_args)) (r.(a_ofile)) (r.(a_extrafiles)) (r.(a_job))
    (r.(a_always_local)) (r.(a_seen_c)) (r.(a_seen_s)) (r.(a_seen_mf))
    (r.(a_seen_md)) (r.(a_seen_split_dwarf)) (r.(a_seen_target))
    (r.(a_wunused_macros)) (r.(a_seen_arch)) (r.(a_seen_pedantic))
    (r.(a_seen_imacros)) (r.(a_seen_march_native)) (r.(a_seen_mcpu_native))
    (r.(a_seen_mtune_native)) (r.(a_seen_parallel_flto)) v (r.(a_color))
    (r.(a_no_caret)) (r.(a_second_option)).
Definition set_color (v : bool) (r : scan) : scan :=
  mkScan (r.(a_args)) (r.(a_ofile)) (r.(a_extrafiles)) (r.(a_job))
    (r.(a_always_local)) (r.(a_seen_c)) (r.(a_seen_s)) (r.(a_seen_mf))
    (r.(a_seen_md)) (r.(a_seen_split_dwarf)) (r.(a_seen_target))
    (r.(a_wunused_macros)) (r.(a_seen_arch)) (r.(a_seen_pedantic))
    (r.(a_seen_imacros)) (r.(a_seen_march_native)) (r.(a_seen_mcpu_native))
    (r.(a_seen_mtune_native)) (r.(a_seen_parallel_flto)) (r.(a_standard)) v
    (r.(a_no_caret)) (r.(a_second_option)).
Definition set_no_caret (v : bool) (r : scan) : scan :=
  mkScan (r.(a_args)) (r.(a_ofile)) (r.(a_extrafiles)) (r.(a_job))
    (r.(a_always_local)) (r.(a_seen_c)) (r.(a_seen_s)) (r.(a_seen_mf))
    (r.(a_seen_md)) (r.(a_seen_split_dwarf)) (r.(a_seen_target))
    (r.(a_wunused_macros)) (r.(a_seen_arch)) (r.(a_seen_pedantic))
    (r.(a_seen_imacros)) (r.(a_seen_march_native)) (r.(a_seen_mcpu_native))
    (r.(a_seen_mtune_native)) (r.(a_seen_parallel_flto)) (r.(a_standard))
    (r.(a_color)) v (r.(a_second_option)).
Definition set_second_option (v : bool) (r : scan) : scan :=
  mkScan (r.(a_args)) (r.(a_ofile)) (r.(a_extrafiles)) (r.(a_job))
    (r.(a_always_local)) (r.(a_seen_c)) (r.(a_seen_s)) (r.(a_seen_mf))
    (r.(a_seen_md)) (r.(a_seen_split_dwarf)) (r.(a_seen_target))
    (r.(a_wunused_macros)) (r.(a_seen_arch)) (r.(a_seen_pedantic))
    (r.(a_seen_imacros)) (r.(a_seen_march_native)) (r.(a_seen_mcpu_native))
    (r.(a_seen_mtune_native)) (r.(a_seen_parallel_flto)) (r.(a_standard))
    (r.(a_color)) (r.(a_no_caret)) v.

Definition append (a : string) (t : Argument_Type) (st : scan) : scan :=
  set_args (a_args st ++ [(a, t)]) st.

(** ** Arguments of the assembler *)

Fixpoint skip_lower (l : list byte) : list byte :=
  match l with
  | b :: l' => if (97 <=? Z_of_byte b) && (Z_of_byte b <=? 122) then skip_lower l' else l
  | [] => []
  end.

(** [analyze_assembler_arg]: whether it is local, and the argument with the
    extra file it may name. [second_option] is the static variable. *)
Definition analyze_assembler_arg (m : machine) (arg : string) (st : scan) : res (bool * string * scan) :=
  if a_second_option st then Ok (false, arg, set_second_option false st)
  else if str_startswith "-a" arg then
    Ok (bool_decide (head (skip_lower (drop 2 (bytes_of arg))) = Some x3d), arg, st)
  else if one_of arg ["--debug-prefix-map"; "--defsym"]%string then
    Ok (false, arg, set_second_option true st)
  else if bool_decide (char_at arg 0 = x40) then Ok (true, arg, st)
  else if bool_decide (char_at arg 0 = x2d) then Ok (false, arg, st)
  else if m_readable m arg then
    res_bind (get_absfilename (m_cwd m) arg) (fun arg =>
    Ok (false, arg, set_extrafiles (a_extrafiles st ++ [arg]) st))
  else Ok (true, arg, st).

(** The arguments after [-Wa,]: [local] is the answer for the last one. *)
Fixpoint assembler_args (m : machine) (l : list (list byte)) (local : bool) (remote_arg : string)
    (st : scan) : res (bool * string * scan) :=
  match l with
  | [] => Ok (local, remote_arg, st)
  | p :: l =>
      res_bind (analyze_assembler_arg m (str_of p) st) (fun '(local, as_arg, st) =>
      assembler_args m l local (remote_arg +:+ "," +:+ as_arg) st)
  end.

(** ** One argument *)

(** An argument with the next one, if there is one, in the same class. *)
Definition with_value (a : string) (t : Argument_Type) (rest : list string) (st : scan)
  : scan * list string :=
  match rest with
  | [] => (append a t st, [])
  | v :: rest => (append v t (append a t st), rest)
  end.

Definition file_prefixes : list string :=
  ["-fplugin="; "-fsanitize-blacklist="; "-fprofile-sample-use="; "-fprofile-instr-use="]%string.

(** A readable file is sent along, by its absolute name; without it the job is
    local. *)
Definition extra_file (m : machine) (file : string) (st : scan) : res (string * scan) :=
  if m_readable m file then
    res_bind (get_absfilename (m_cwd m) file) (fun file =>
    Ok (file, set_extrafiles (a_extrafiles st ++ [file]) st))
  else Ok (file, set_always_local true st).

(** [-x language] *)
Definition scan_x (a : string) (rest : list string) (st : scan) : scan * list string :=
  let st := append a Arg_Rest st in
  match rest with
  | [] => (set_always_local true st, [])
  | opt :: rest =>
      let st := append opt Arg_Rest st in
      let lang l := (set_job (setLanguage l (a_job st)) st, rest) in
      if str_equal opt "c" then lang Lang_C
      else if str_equal opt "c++" then lang Lang_CXX
      else if str_equal opt "objective-c" then lang Lang_OBJC
      else if str_equal opt "objective-c++" then lang Lang_OBJCXX
      else (set_always_local true st, rest)
  end.

(** [-o file] and [-ofile] *)
Definition scan_o (a : string) (rest : list string) (st : scan) : scan * list string :=
  let '(st, rest) :=
    if str_equal a "-o" then
      match rest with [] => (st, []) | v :: rest => (set_ofile v st, rest) end
    else (set_ofile (substr_from a 2) st, rest) in
  (if str_equal (a_ofile st) "-" then set_always_local true st else st, rest).

(** [-Xclang option]; without an option behind it the argument is lost. *)
Definition scan_Xclang (m : machine) (a : string) (rest : list string) (st : scan)
  : res (scan * list string) :=
  match rest with
  | [] => Ok (st, [])
  | p :: rest =>
      let both := append p Arg_Rest (append a Arg_Rest st) in
      if str_equal "-load" p then
        match rest with
        | x :: file :: rest' =>
            if str_equal x "-Xclang" then
              res_bind (extra_file m file both) (fun '(file, st) =>
              Ok (append file Arg_Rest (append x Arg_Rest st), rest'))
            else Ok (st, rest)
        | _ => Ok (st, rest)
        end
      else if str_equal "-building-pch-with-obj" p then Ok (set_always_local true both, rest)
      else Ok (both, rest)
  end.

(** The last part of the chain: options about warnings, colours, targets, and
    everything else. *)
Definition scan_compiler_option (m : machine) (a : string) (rest : list string) (st : scan)
  : res (scan * list string) :=
  let keep f := Ok (append a Arg_Rest (f st), rest) in
  if one_of a ["-fno-color-diagnostics"; "-fcolor-diagnostics"; "-fno-diagnostics-color";
       "-fdiagnostics-color=never"; "-fdiagnostics-color"; "-fdiagnostics-color=always"]%string then
    keep (set_color true)
  else if str_equal "-fdiagnostics-color=auto" a then Ok (set_color false st, rest)
  else if str_equal "-fno-diagnostics-show-caret" a then keep (set_no_caret true)
  else if str_equal "-fdiagnostics-show-caret" a then keep (set_no_caret false)
  else if starts_one_of a file_prefixes then
    let prefix := default "" (head (filter (fun p => Is_true (str_startswith p a)) file_prefixes)) in
    res_bind (extra_file m (substr_from a (strlen prefix)) st) (fun '(file, st) =>
    Ok (append (prefix +:+ file) Arg_Rest st, rest))
  else if str_equal "-Xclang" a then scan_Xclang m a rest st
  else if str_equal "-target" a then Ok (with_value a Arg_Rest rest (set_seen_target true st))
  else if str_startswith "--target=" a then keep (set_seen_target true)
  else if str_startswith "-std=" a then keep (set_standard (Some (substr_from a 5)))
  else if one_of a ["-Wunused-macros"; "-Werror=unused-macros"]%string then keep (set_wunused_macros true)
  else if str_equal "-Wno-unused-macros" a then keep (set_wunused_macros false)
  else if one_of a ["-pedantic"; "-Wpedantic"; "-pedantic-errors"]%string then keep (set_seen_pedantic true)
  else if str_equal "-arch" a then
    let st := if a_seen_arch st then set_always_local true st else st in
    Ok (with_value a Arg_Rest rest (set_seen_arch false st))
  else if str_startswith "-flto" a then
    res_bind (compiler_is_clang (a_job st)) (fun is_clang =>
    keep (if is_clang || negb (one_of a ["-flto"; "-flto=1"]%string)
          then set_seen_parallel_flto a else fun st => st))
  else if is_argument_with_space a then Ok (with_value a Arg_Rest rest st)
  else keep (fun st => st).

(** Options about the preprocessor, up to the ones above. *)
Definition scan_preprocessor_option (m : machine) (arg_cpp : Argument_Type) (a : string)
    (rest : list string) (st : scan) : res (scan * list string) :=
  if one_of a ["-D"; "-U"]%string then
    if is_argument_with_space a then Ok (with_value a arg_cpp rest st) else Fault AssertFailed
  else if one_of a local_options || str_startswith "-fbuild-session-file=" a then
    let st := if str_equal "-imacros" a then set_seen_imacros true st else st in
    if is_argument_with_space a then
      let st := match rest with
                | v :: _ => if str_startswith "-O" v then set_always_local true st else st
                | [] => st
                end in
      Ok (with_value a Arg_Local rest st)
    else Fault AssertFailed
  else if one_of a ["-fmodules"; "-fcxx-modules"; "-fmodules-ts"]%string
          || str_startswith "-fmodules-cache-path=" a then Ok (append a Arg_Local st, rest)
  else if starts_one_of a ["-Wp,"; "-D"; "-U"]%string then Ok (append a arg_cpp st, rest)
  else if starts_one_of a ["-I"; "-l"; "-L"]%string then Ok (append a Arg_Local st, rest)
  else if str_equal "-undef" a then Ok (append a arg_cpp st, rest)
  else if one_of a ["-nostdinc"; "-nostdinc++"; "-MD"; "-MMD"; "-MG"; "-MP";
            "-Wmissing-include-dirs"; "-Werror=missing-include-dirs"]%string then
    Ok (append a Arg_Local st, rest)
  else scan_compiler_option m a rest st.

(** The value of an option that must have one: [argv[++i]] is null without. *)
Definition needed_value (a : string) (rest : list string) (st : scan) : res (scan * list string) :=
  match rest with [] => Fault NullDeref | _ => Ok (with_value a Arg_Local rest st) end.

(** An argument that starts with a dash. *)
Definition scan_option (m : machine) (arg_cpp : Argument_Type) (a : string) (rest : list string)
    (st : scan) : res (scan * list string) :=
  let local := Ok (append a Arg_Local (set_always_local true st), rest) in
  let rest_class := fun f => Ok (append a Arg_Rest (f st), rest) in
  if str_equal a "-E" then local
  else if str_startswith "-fdump" a || one_of a ["-combine"; "-fsyntax-only"; "-ftime-trace"; "-fsycl"]%string
          || str_startswith "-ftime-report" a then local
  else if one_of a ["-MD"; "-MMD"]%string || starts_one_of a ["-Wp,-MD"; "-Wp,-MMD"]%string then
    let st := append a Arg_Local (set_seen_md true st) in
    Ok (if starts_one_of a ["-Wp,-MD"; "-Wp,-MMD"]%string && contains "," (substr_from a 7)
        then set_seen_mf true st else st, rest)
  else if one_of a ["-MG"; "-MP"]%string then Ok (append a Arg_Local st, rest)
  else if str_equal a "-MF" || str_startswith "-Wp,-MF" a then needed_value a rest (set_seen_mf true st)
  else if one_of a ["-MT"; "-MQ"]%string || starts_one_of a ["-Wp,-MT"; "-Wp,-MQ"]%string then
    needed_value a rest st
  else if bool_decide (char_at a 1 = x4d) then local
  else if str_equal "--param" a then Ok (with_value a Arg_Remote rest st)
  else if bool_decide (char_at a 1 = x42) then
    let st := set_always_local true st in
    if str_equal a "-B" then Ok (with_value a Arg_Local rest st) else Ok (append a Arg_Local st, rest)
  else if str_startswith "-Wa," a then
    res_bind (assembler_args m (pieces x2c (drop 4 (bytes_of a))) false "-Wa" st) (fun '(l, remote_arg, st) =>
    Ok (if l : bool then append a Arg_Local (set_always_local true st)
        else append remote_arg Arg_Remote st, rest))
  else if str_equal a "-S" then Ok (set_seen_s true st, rest)
  else if one_of a ["-fprofile-arcs"; "-ftest-coverage"; "--coverage"; "-frepo"; "-fprofile-generate";
            "-fprofile-use"; "-save-temps"; "--save-temps"; "-fbranch-probabilities"]%string
          || starts_one_of a ["-save-temps="; "--save-temps="]%string then local
  else if str_equal a "-gsplit-dwarf" then rest_class (set_seen_split_dwarf true)
  else if str_equal a "-x" then Ok (scan_x a rest st)
  else if str_equal a "-march=native" then rest_class (set_seen_march_native true)
  else if str_equal a "-mcpu=native" then rest_class (set_seen_mcpu_native true)
  else if str_equal a "-mtune=native" then rest_class (set_seen_mtune_native true)
  else if one_of a ["-fexec-charset"; "-fwide-exec-charset"; "-finput-charset"]%string then local
  else if str_equal a "-c" then Ok (set_seen_c true st, rest)
  else if str_startswith "-o" a then Ok (scan_o a rest st)
  else scan_preprocessor_option m arg_cpp a rest st.

Definition scan_arg (m : machine) (icerun : bool) (arg_cpp : Argument_Type) (a : string)
    (rest : list string) (st : scan) : res (scan * list string) :=
  if icerun then Ok (append a Arg_Local st, rest)
  else if bool_decide (char_at a 0 = x2d) then scan_option m arg_cpp a rest st
  else if bool_decide (char_at a 0 = x40) then Ok (append a Arg_Local st, rest)
  else Ok (append a Arg_Rest st, rest).

(** The loop over [argv]; every round takes an argument. *)
Fixpoint scan_args (fuel : nat) (m : machine) (icerun : bool) (arg_cpp : Argument_Type)
    (args : list string) (st : scan) : res scan :=
  match args with
  | [] => Ok st
  | a :: rest =>
      match fuel with
      | O => Fault Aborted
      | S fuel =>
          res_bind (scan_arg m icerun arg_cpp a rest st) (fun '(st, rest) =>
          scan_args fuel m icerun arg_cpp rest st)
      end
  end.

(** ** The input file *)

Inductive found : Type :=
| NoInput | Input (file : string) | StdIn (file : string) | TwoInputs (file : string).

(** The walk over the classified arguments: what was found and the arguments
    without the input file. A step over the end of the list is a fault. *)
Fixpoint find_input (ifile : string) (l : ArgumentsList) : res (found * ArgumentsList) :=
  match l with
  | [] => Ok (if str_equal ifile "" then NoInput else Input ifile, [])
  | (a, t) :: l =>
      if str_equal a "-" then Ok (StdIn ifile, (a, t) :: l)
      else if one_of a ["-Xclang"; "-x"]%string || is_argument_with_space a then
        match l with
        | [] => Fault OutOfBounds
        | v :: l => res_bind (find_input ifile l) (fun '(r, l) => Ok (r, (a, t) :: v :: l))
        end
      else if decide (t <> Arg_Rest) then
        res_bind (find_input ifile l) (fun '(r, l) => Ok (r, (a, t) :: l))
      else if str_equal a "" then Fault Uncaught
      else if bool_decide (char_at a 0 = x2d) || bool_decide (char_at a 0 = x40) then
        res_bind (find_input ifile l) (fun '(r, l) => Ok (r, (a, t) :: l))
      else if str_equal ifile "" then find_input a l
      else Ok (TwoInputs ifile, (a, t) :: l)
  end.

(** What the extension says: the language, or that the job is local. *)
Definition language_of_extension (ext : string) : option (option Language) :=
  if one_of ext ["cc"; "cpp"; "cxx"; "cp"; "c++"; "C"; "ii"]%string then Some (Some Lang_CXX)
  else if one_of ext ["mi"; "m"]%string then Some (Some Lang_OBJC)
  else if one_of ext ["mii"; "mm"; "M"]%string then Some (Some Lang_OBJCXX)
  else if one_of ext ["s"; "S"; "ads"; "adb"; "f"; "for"; "FOR"; "F"; "fpp"; "FPP"; "r"]%string then None
  else if one_of ext ["c"; "i"]%string then Some None
  else None.

(** The parts that depend on the name of the input file: the language by its
    extension, the output file when none was given, and the file for the
    dependencies. *)
Definition use_extension (ext : string) (st : scan) : scan :=
  match language_of_extension ext with
  | Some (Some l) => set_job (setLanguage l (a_job st)) st
  | Some None => st
  | None => set_always_local true st
  end.
Definition default_output (stem : string) (st : scan) : scan :=
  if negb (a_always_local st) && str_equal (a_ofile st) "" then
    set_ofile (find_basename (stem +:+ if a_seen_s st then ".s" else ".o")) st
  else st.
Definition dependency_file (st : scan) : scan :=
  if negb (a_always_local st) && a_seen_md st && negb (a_seen_mf st) then
    let dfile := substr (a_ofile st) 0 (rfind "." (a_ofile st)) +:+ ".d" in
    append dfile Arg_Local (append "-MF" Arg_Local st)
  else st.

Definition use_input (ifile : string) (st : scan) : scan :=
  if negb (contains "." ifile) then st
  else
    let dot_index := rfind "." ifile in
    dependency_file (default_output (substr ifile 0 dot_index)
      (use_extension (substr_from ifile (dot_index + 1)) st)).

Definition find_input_file (st : scan) : res scan :=
  if a_always_local st then Ok (set_job (setInputFile "" (a_job st)) st)
  else
    res_bind (find_input "" (a_args st)) (fun '(r, args) =>
    let with_input f st :=
      let st := set_job (setInputFile f (a_job st)) st in
      if should_always_build_locally f then set_always_local true st else st in
    Ok (match r with
        | NoInput => set_args args st
        | Input f => use_input f (with_input f (set_args args st))
        | StdIn f =>
            let st := set_always_local true (set_args args st) in
            if str_equal f "" then st else use_input f (with_input f st)
        | TwoInputs f =>
            let st := set_always_local true st in
            use_input f (set_job (setInputFile "" (a_job st)) st)
        end)).

(** ** The end of the analysis *)

(** [-c] and [-S] *)
Definition compile_or_assemble (st : scan) : scan :=
  if negb (a_seen_c st) && negb (a_seen_s st) then set_always_local true st
  else if a_seen_s st then append "-S" Arg_Remote st
  else
    let st := append "-c" Arg_Remote st in
    if a_seen_split_dwarf st then set_job (setDwarfFissionEnabled true (a_job st)) st else st.

(** The output must be a regular file or not exist yet. *)
Definition check_output (m : machine) (st : scan) : scan :=
  if negb (a_always_local st)
     && (str_equal (a_ofile st) ""
         || match m_stat m (a_ofile st) with Some Regular | None => false | Some _ => true end)
  then set_always_local true st else st.

Definition force_colors (m : machine) (icerun : bool) (st : scan) : res scan :=
  if icerun then Ok st
  else
    res_bind (compiler_has_color_output m (a_job st)) (fun has_color =>
    if has_color && negb (a_color st) then
      res_bind (compiler_is_clang (a_job st)) (fun is_clang =>
      Ok (append (if is_clang : bool then "-fcolor-diagnostics" else "-fdiagnostics-color") Arg_Rest st))
    else Ok st).

Definition block_rewrite (b : bool) (st : scan) : scan :=
  if b then set_job (setBlockRewriteIncludes true (a_job st)) st else st.

Definition preprocessing (m : machine) (st : scan) : res scan :=
  let st := block_rewrite (a_wunused_macros st) st in
  let st := block_rewrite (a_seen_imacros st) st in
  res_bind (if a_seen_pedantic st then
              res_bind (compiler_is_clang (a_job st)) (fun is_clang =>
              Ok (negb is_clang && match a_standard st with
                                   | None => true | Some s => str_startswith "gnu" s end))
            else Ok false) (fun pedantic =>
  let st := block_rewrite pedantic st in
  if a_always_local st then Ok st
  else
    res_bind (compiler_only_rewrite_includes m (a_job st)) (fun only =>
    if only : bool then
      res_bind (compiler_is_clang (a_job st)) (fun is_clang =>
      Ok (if is_clang : bool then st else append "-fdirectives-only" Arg_Remote st))
    else Ok st)).

Definition clang_target (m : machine) (st : scan) : res scan :=
  if a_always_local st || a_seen_target st then Ok st
  else
    res_bind (compiler_is_clang (a_job st)) (fun is_clang =>
    if negb is_clang then Ok st
    else
      res_bind (clang_get_default_target m (a_job st)) (fun default_target =>
      Ok (if str_equal default_target "" then set_always_local true st
          else append default_target Arg_Remote (append "-target" Arg_Remote st)))).

(** The first of the [native] flags is replaced, all of them are erased. *)
Definition is_native (a : string) : bool :=
  one_of a ["-march=native"; "-mcpu=native"; "-mtune=native"]%string.
Fixpoint replace_native (arch_args : list string) (l : ArgumentsList) : ArgumentsList :=
  match l with
  | [] => []
  | (a, t) :: l =>
      if is_native a then map (fun x => (x, Arg_Rest)) arch_args ++ replace_native [] l
      else (a, t) :: replace_native arch_args l
  end.

Definition native_flags (m : machine) (st : scan) : res scan :=
  if negb (a_always_local st)
     && (a_seen_march_native st || a_seen_mcpu_native st || a_seen_mtune_native st) then
    res_bind (compiler_get_arch_flags m (a_job st) (a_seen_march_native st) (a_seen_mcpu_native st)
                (a_seen_mtune_native st)) (fun r =>
    match r with
    | None => Ok (set_always_local true st)
    | Some arch_args =>
        if existsb (fun f => is_native f.1) (a_args st)
        then Ok (set_args (replace_native arch_args (a_args st)) st)
        else Fault AssertFailed
    end)
  else Ok st.

(** What the analysis leaves: the job, the files sent along, the globals about
    colours, and the value the function computes. *)
Definition AlwaysLocal : Z := 1.
Definition FullJob : Z := 2.

Record analysis : Type := mkAnalysis {
  an_job : CompileJob;
  an_extrafiles : list string;
  an_color : bool;
  an_no_caret : bool;
  an_ret : Z
}.

Definition finish (st : scan) : analysis :=
  mkAnalysis (setOutputFile (a_ofile st) (setFlags (a_args st) (a_job st))) (a_extrafiles st)
    (a_color st) (a_no_caret st)
    (if a_always_local st then
       Z.lor AlwaysLocal (if negb (str_equal (a_seen_parallel_flto st) "") && negb (a_seen_c st)
                          then FullJob else 0)
     else 0).

Definition analyse_result (m : machine) (argv : list string) (job : CompileJob) (icerun : bool)
    (extrafiles : list string) : res analysis :=
  let had_cc := negb (str_equal (j_compiler_name job) "") in
  match (if had_cc then Some (j_compiler_name job) else head argv) with
  | None => Fault NullDeref
  | Some name =>
      let '(always_local, job, icerun) := analyze_program name job icerun in
      res_bind (compiler_only_rewrite_includes m job) (fun only_rewrite =>
      let arg_cpp := if only_rewrite : bool then Arg_Rest else Arg_Local in
      let st := mkScan [] "" extrafiles job always_local false false false false false false false
                  false false false false false false "" None false false false in
      let args := drop (if had_cc then 2 else 1) argv in
      res_bind (scan_args (length args) m icerun arg_cpp args st) (fun st =>
      res_bind (find_input_file (compile_or_assemble st)) (fun st =>
      res_bind (force_colors m icerun (check_output m st)) (fun st =>
      res_bind (preprocessing m st) (fun st =>
      res_bind (clang_target m st) (fun st =>
      res_bind (native_flags m st) (fun st => Ok (finish st))))))))
  end.

(** [analyse_argv] is declared to return [bool]: the value is converted. *)
Definition analyse_argv (m : machine) (argv : list string) (job : CompileJob) (icerun : bool)
    (extrafiles : list string) : res (bool * analysis) :=
  res_bind (analyse_result m argv job icerun extrafiles) (fun a => Ok (negb (an_ret a =? 0), a)).

(** ** The unit tests (unittests/args.cpp) *)

(** A machine on which nothing is set up, with a clang for one target. *)
Definition test_machine : machine :=
  mkMachine (fun v => if str_equal v "ICECC_REMOTE_CPP" then Some "0"
                      else if str_equal v "PATH" then Some "/usr/bin" else None)
    "/" (fun _ => false) (fun _ => None) (fun _ => Some (Regular, 1000)) (fun _ => None)
    (fun _ _ _ => "x86_64-unknown-linux-gnu") false false false%string.

Definition test_run (argv : list string)
  : res (bool * Language * string * list string * list string * list string) :=
  res_bind (analyse_argv test_machine argv (new_CompileJob "x86_64") false []) (fun '(l, a) =>
  let j := an_job a in
  Ok (l, j_language j, j_compiler_name j, localFlags j, remoteFlags j, restFlags j)).

Example test_1 : test_run ["gcc"; "-D"; "TEST=1"; "-c"; "main.cpp"; "-o"; "main.o"]%string
  = Ok (false, Lang_CXX, "gcc", ["-D"; "TEST=1"], ["-c"], [])%string.
Proof. vm_compute. reflexivity. Qed.
Example test_3 : test_run ["clang"; "-D"; "TEST1=1"; "-I."; "-c"; "make1.cpp"; "-o"; "make.o"; "-target";
    "x86_64-unknown-linux-gnu"]%string
  = Ok (false, Lang_CXX, "clang", ["-D"; "TEST1=1"; "-I."], ["-c"], ["-target"; "x86_64-unknown-linux-gnu"])%string.
Proof. vm_compute. reflexivity. Qed.
Example test_4_icx : test_run ["icx"; "-DTEST=1"; "-c"; "main.c"; "-o"; "main.o"]%string
  = Ok (false, Lang_C, "icx", ["-DTEST=1"], ["-c"; "-target"; "x86_64-unknown-linux-gnu"], [])%string.
Proof. vm_compute. reflexivity. Qed.
Example test_6_dpcpp : test_run ["dpcpp"; "-DTEST=1"; "-c"; "main.cpp"; "-o"; "main.o"]%string
  = Ok (true, Lang_CXX, "dpcpp", ["-DTEST=1"], ["-c"], ["main.cpp"])%string.
Proof. vm_compute. reflexivity. Qed.
Example test_7_fsycl : test_run ["icpx"; "-fsycl"; "-DTEST=1"; "-c"; "main.cpp"; "-o"; "main.o"]%string
  = Ok (true, Lang_CXX, "icpx", ["-fsycl"; "-DTEST=1"], ["-c"], ["main.cpp"])%string.
Proof. vm_compute. reflexivity. Qed.
Example test_8_icpx : test_run ["icpx"; "-O2"; "-c"; "main.cpp"; "-o"; "main.o"]%string
  = Ok (false, Lang_CXX, "icpx", [], ["-c"; "-target"; "x86_64-unknown-linux-gnu"], ["-O2"])%string.
Proof. vm_compute. reflexivity. Qed.
