(* ===== verification/ArgumentFacts.v ===== *)
(** * Facts about the analysis of the command line

    What a round of the loop can do to its state, as a relation; that a job
    found local stays local; what a job that is distributed looks like; and where
    the code does not do what it means to. *)

From Stdlib Require Import ZArith Lia.
From Stdlib Require Import Strings.Byte Strings.String.
From stdpp Require Import base tactics option list strings.
From S2P Require Import Prelude StdString Paths CompileJob Compilers Arguments.

#[local] Open Scope Z_scope.

(** ** The primitive changes *)

(** What the loop does to its state: it appends arguments, finds the job to be
    local, and sets the output file, the language and flags. A state keeps its
    core when only flags and extra files change. *)
Record same_scan (st st' : scan) : Prop := {
  ss_args : a_args st' = a_args st;
  ss_ofile : a_ofile st' = a_ofile st;
  ss_job : a_job st' = a_job st;
  ss_local : a_always_local st' = a_always_local st
}.

Inductive evolves : scan -> scan -> Prop :=
| ev_refl st : evolves st st
| ev_trans st1 st2 st3 : evolves st1 st2 -> evolves st2 st3 -> evolves st1 st3
| ev_same st st' : same_scan st st' -> evolves st st'
| ev_append a t st : evolves st (append a t st)
| ev_local st : evolves st (set_always_local true st)
| ev_ofile v st :
    evolves st (if str_equal v "-" then set_always_local true (set_ofile v st) else set_ofile v st)
| ev_language l j st : l <> Lang_Custom -> j = a_job st -> evolves st (set_job (setLanguage l j) st).

Create HintDb evolve.
#[export] Hint Resolve ev_refl ev_append ev_local : evolve.

Lemma ev_then_append a t st st' : evolves st st' -> evolves st (append a t st').
Proof. intros H. eapply ev_trans; [exact H|apply ev_append]. Qed.
Lemma ev_then_local st st' : evolves st st' -> evolves st (set_always_local true st').
Proof. intros H. eapply ev_trans; [exact H|apply ev_local]. Qed.
Lemma ev_then_same st st' st'' : evolves st st' -> same_scan st' st'' -> evolves st st''.
Proof. intros H Hs. eapply ev_trans; [exact H|by apply ev_same]. Qed.

(** Peels the last change off. *)
Ltac evolve_step :=
  match goal with
  | |- evolves _ (append _ _ _) => apply ev_then_append
  | |- evolves _ (set_always_local true _) => apply ev_then_local
  | |- evolves ?s ?s => apply ev_refl
  | |- evolves _ (set_job (setLanguage _ _) ?s) =>
      eapply (ev_trans _ s); [|by apply ev_language]
  | |- evolves _ (if _ then _ else _) => case_goal
  | |- evolves _ (_ ?s) => eapply (ev_then_same _ s); [|by split]
  end.
Ltac evolve := repeat evolve_step.

Lemma res_bind_ok {A B} (r : res A) (k : A -> res B) b :
  res_bind r k = Ok b -> exists a, r = Ok a /\ k a = Ok b.
Proof. destruct r; [eauto|done]. Qed.

(** Opens the binds of a hypothesis. *)
Ltac open_binds H :=
  repeat match type of H with
  | res_bind _ _ = Ok _ =>
      let x := fresh "x" in let E := fresh "E" in
      apply res_bind_ok in H as (x & E & H); try (destruct x as [[? ?] ?]); try (destruct x as [? ?])
  end.

Lemma with_value_evolves a t rest st st' rest' :
  with_value a t rest st = (st', rest') -> evolves st st'.
Proof. unfold with_value. destruct rest; intros [= <- _]; evolve. Qed.

Lemma extra_file_evolves m file st file' st' : extra_file m file st = Ok (file', st') -> evolves st st'.
Proof.
  unfold extra_file. destruct (m_readable m file).
  - intros E. apply res_bind_ok in E as (f & _ & E). injection E as _ <-. evolve.
  - intros [= _ <-]. evolve.
Qed.

Lemma assembler_evolves m l local remote st r :
  assembler_args m l local remote st = Ok r -> evolves st r.2.
Proof.
  revert local remote st. induction l as [|p l IH]; intros local remote st; cbn [assembler_args].
  - intros [= <-]. apply ev_refl.
  - intros E. apply res_bind_ok in E as ([[lo a] st1] & E1 & E). apply IH in E.
    eapply ev_trans; [|exact E]. unfold analyze_assembler_arg in E1.
    repeat case_hyp E1; try (apply res_bind_ok in E1 as (f & _ & E1));
      injection E1 as _ _ <-; evolve.
Qed.

Lemma scan_x_evolves a rest st st' rest' : scan_x a rest st = (st', rest') -> evolves st st'.
Proof. unfold scan_x. repeat case_goal; intros [= <- _]; evolve. Qed.
Lemma scan_o_evolves a rest st st' rest' : scan_o a rest st = (st', rest') -> evolves st st'.
Proof.
  assert (forall v, evolves st (if str_equal (a_ofile (set_ofile v st)) "-"
    then set_always_local true (set_ofile v st) else set_ofile v st)) as Ho by (intros v; apply (ev_ofile v)).
  unfold scan_o. destruct (str_equal a "-o"); [destruct rest|]; intros [= <- _]; try apply Ho. evolve.
Qed.

Lemma scan_Xclang_evolves m a rest st st' rest' :
  scan_Xclang m a rest st = Ok (st', rest') -> evolves st st'.
Proof.
  unfold scan_Xclang. intros E. repeat case_hyp E; try (injection E as <- _; evolve; fail).
  apply res_bind_ok in E as ([f st1] & E1 & E). injection E as <- _.
  apply extra_file_evolves in E1. evolve. eapply ev_trans; [|exact E1]. evolve.
Qed.

Lemma scan_compiler_option_evolves m a rest st st' rest' :
  scan_compiler_option m a rest st = Ok (st', rest') -> evolves st st'.
Proof.
  unfold scan_compiler_option. intros E.
  repeat match type of E with (if ?b then _ else _) = _ => destruct b end;
    try (injection E as <- _; evolve; fail);
    try (injection E as E; apply with_value_evolves in E; eapply ev_trans; [|exact E]; evolve; fail).
  - apply res_bind_ok in E as ([f st1] & E1 & E). injection E as <- _.
    apply extra_file_evolves in E1. evolve. exact E1.
  - by eapply scan_Xclang_evolves.
  - apply res_bind_ok in E as (c & _ & E). injection E as <- _.
    destruct (c || _); evolve.
Qed.

Lemma scan_preprocessor_option_evolves m arg_cpp a rest st st' rest' :
  scan_preprocessor_option m arg_cpp a rest st = Ok (st', rest') -> evolves st st'.
Proof.
  unfold scan_preprocessor_option. intros E.
  repeat match type of E with (if ?b then _ else _) = _ => destruct b end;
    try discriminate E; try (injection E as <- _; evolve; fail);
    try (injection E as E; apply with_value_evolves in E; eapply ev_trans; [|exact E];
         repeat case_goal; evolve; fail).
  by eapply scan_compiler_option_evolves.
Qed.

Lemma needed_value_evolves a rest st st' rest' :
  needed_value a rest st = Ok (st', rest') -> evolves st st'.
Proof.
  unfold needed_value. destruct rest; [done|]. intros E. injection E as <- _. evolve.
Qed.

Lemma scan_option_evolves m arg_cpp a rest st st' rest' :
  scan_option m arg_cpp a rest st = Ok (st', rest') -> evolves st st'.
Proof.
  unfold scan_option. intros E.
  repeat match type of E with (if ?b then _ else _) = _ => destruct b end;
    try (injection E as <- _; evolve; fail);
    try (apply needed_value_evolves in E; eapply ev_trans; [|exact E]; evolve; fail);
    try (injection E as E; apply with_value_evolves in E; eapply ev_trans; [|exact E]; evolve; fail).
  - apply res_bind_ok in E as ([[l r] st1] & E1 & E). apply assembler_evolves in E1. cbn in E1.
    injection E as <- _. eapply ev_trans; [exact E1|]. evolve.
  - injection E as E. by eapply scan_x_evolves.
  - injection E as E. by eapply scan_o_evolves.
  - by eapply scan_preprocessor_option_evolves.
Qed.

Lemma scan_arg_evolves m icerun arg_cpp a rest st st' rest' :
  scan_arg m icerun arg_cpp a rest st = Ok (st', rest') -> evolves st st'.
Proof.
  unfold scan_arg. intros E.
  repeat match type of E with (if ?b then _ else _) = _ => destruct b end;
    try (injection E as <- _; evolve; fail). by eapply scan_option_evolves.
Qed.

Lemma scan_args_evolves fuel m icerun arg_cpp args st st' :
  scan_args fuel m icerun arg_cpp args st = Ok st' -> evolves st st'.
Proof.
  revert args st. induction fuel as [|fuel IH]; intros [|a rest] st; cbn [scan_args]; try done;
    try (intros [= <-]; apply ev_refl).
  intros E. apply res_bind_ok in E as ([st1 rest1] & E1 & E).
  apply scan_arg_evolves in E1. apply IH in E. by eapply ev_trans.
Qed.

(** ** What a job that is not local has *)

Record scan_ok (st : scan) : Prop := {
  so_language : a_always_local st = false -> j_language (a_job st) <> Lang_Custom;
  so_output : a_always_local st = false -> a_ofile st <> "-"%string
}.

(** Once local, always local. *)
Lemma evolves_local st st' : evolves st st' -> a_always_local st = true -> a_always_local st' = true.
Proof.
  induction 1 as [| |st st' []| | |v st|]; cbn; auto; [congruence|]. by destruct (str_equal v "-").
Qed.

Lemma evolves_ok st st' : evolves st st' -> scan_ok st -> scan_ok st'.
Proof.
  induction 1 as [| |st st' [_ Ho Hj Hl]| | |v st|l j st Hl ->]; auto; intros [H1 H2].
  - split; rewrite Hl, ?Hj, ?Ho; auto.
  - by split.
  - by split.
  - destruct (str_equal v "-") eqn:E; [by split|].
    apply bool_decide_eq_false in E. by split.
  - split; [done|exact H2].
Qed.

(** A later state of a job that is not local: what was settled stays. *)
Record later (st st' : scan) : Prop := {
  la_local : a_always_local st' = false -> a_always_local st = false;
  la_language : a_always_local st' = false -> j_language (a_job st') = j_language (a_job st);
  la_input : a_always_local st' = false -> j_input_file (a_job st') = j_input_file (a_job st);
  la_ofile : a_always_local st' = false -> a_ofile st' = a_ofile st;
  la_args : forall x, is_native x = false -> (x, Arg_Remote) ∈ a_args st -> (x, Arg_Remote) ∈ a_args st'
}.

Lemma later_refl st : later st st.
Proof. by split. Qed.
Lemma later_trans st1 st2 st3 : later st1 st2 -> later st2 st3 -> later st1 st3.
Proof.
  intros [A1 A2 A3 A4 A5] [B1 B2 B3 B4 B5]. split; auto; intros H; rewrite ?B2, ?B3, ?B4 by done; auto.
Qed.
Lemma later_append a t st : later st (append a t st).
Proof. split; cbn; auto. intros x _ H. apply elem_of_app. by left. Qed.
Lemma later_local st : later st (set_always_local true st).
Proof. by split; cbn; auto. Qed.
Lemma later_job j st :
  j_language j = j_language (a_job st) -> j_input_file j = j_input_file (a_job st) -> later st (set_job j st).
Proof. intros. by split; cbn; auto. Qed.
Create HintDb later.
#[export] Hint Resolve later_refl later_append later_local later_job : later.

Lemma later_block b st : later st (block_rewrite b st).
Proof. unfold block_rewrite. destruct b; [by apply later_job|apply later_refl]. Qed.
#[export] Hint Resolve later_block : later.

Lemma check_output_later m st : later st (check_output m st).
Proof. unfold check_output. destruct (_ && _); auto with later. Qed.
Lemma check_output_spec m st :
  let st' := check_output m st in a_always_local st' = false ->
  a_ofile st' <> ""%string /\ (m_stat m (a_ofile st') = None \/ m_stat m (a_ofile st') = Some Regular).
Proof.
  unfold check_output. destruct (negb (a_always_local st) && _) eqn:E; cbn; [done|].
  intros Hl. rewrite Hl in E. cbn in E. apply orb_false_iff in E as [E1 E2].
  apply bool_decide_eq_false in E1. split; [done|]. destruct (m_stat m (a_ofile st)) as [[]|]; auto; done.
Qed.

Lemma force_colors_later m icerun st st' : force_colors m icerun st = Ok st' -> later st st'.
Proof.
  unfold force_colors. destruct icerun; [intros [= <-]; auto with later|].
  intros E. apply res_bind_ok in E as (c & _ & E). destruct (_ && _); [|injection E as <-; auto with later].
  apply res_bind_ok in E as (g & _ & E). injection E as <-. auto with later.
Qed.

Lemma preprocessing_later m st st' : preprocessing m st = Ok st' -> later st st'.
Proof.
  unfold preprocessing. intros E. apply res_bind_ok in E as (p & _ & E).
  set (st1 := block_rewrite (a_seen_imacros _) _) in E.
  assert (later st (block_rewrite p st1)) as H.
  { eapply later_trans; [|apply later_block]. subst st1. eapply later_trans; apply later_block. }
  destruct (a_always_local _); [by injection E as <-|].
  apply res_bind_ok in E as ([] & _ & E); [|by injection E as <-].
  apply res_bind_ok in E as ([] & _ & E); injection E as <-; [done|].
  eapply later_trans; [exact H|auto with later].
Qed.

Lemma clang_target_later m st st' : clang_target m st = Ok st' -> later st st'.
Proof.
  unfold clang_target. destruct (_ || _); [intros [= <-]; auto with later|].
  intros E. apply res_bind_ok in E as (c & _ & E). destruct (negb c); [injection E as <-; auto with later|].
  apply res_bind_ok in E as (t & _ & E). injection E as <-. destruct (str_equal t ""); [auto with later|].
  eapply later_trans; apply later_append.
Qed.

Lemma replace_native_keeps arch l f : f ∈ l -> is_native f.1 = false -> f ∈ replace_native arch l.
Proof.
  revert arch. induction l as [|[a t] l IH]; intros arch; [done|]. cbn [replace_native].
  intros [->|Hf]%elem_of_cons Hn; cbn [fst] in *.
  - rewrite Hn. by left.
  - destruct (is_native a); [apply elem_of_app|apply elem_of_cons]; right; by apply IH.
Qed.
Lemma native_flags_later m st st' : native_flags m st = Ok st' -> later st st'.
Proof.
  unfold native_flags. destruct (_ && _); [|intros [= <-]; auto with later].
  intros E. apply res_bind_ok in E as ([arch|] & _ & E); [|injection E as <-; auto with later].
  destruct (existsb _ _); [|done]. injection E as <-. split; cbn; auto.
  intros x Hx Hin. by apply replace_native_keeps.
Qed.

(** ** The input file *)

Lemma find_input_keeps ifile l r l' x :
  find_input ifile l = Ok (r, l') -> (x, Arg_Remote) ∈ l -> (x, Arg_Remote) ∈ l'.
Proof.
  assert (forall n l ifile r l', (length l <= n)%nat -> find_input ifile l = Ok (r, l') ->
    (x, Arg_Remote) ∈ l -> (x, Arg_Remote) ∈ l') as H; [|intros E; by eapply (H (length l))].
  induction n as [|n IH]; intros [|[a t] k] i r' k' Hn E Hin; cbn [length] in Hn; try lia;
    try (by apply elem_of_nil in Hin).
  cbn [find_input] in E.
  assert (forall r' k', res_bind (find_input i k) (fun '(r, l) => Ok (r, (a, t) :: l)) = Ok (r', k') ->
    (x, Arg_Remote) ∈ k') as Hstep.
  { intros r0 k0 E0. apply res_bind_ok in E0 as ([r1 k1] & E1 & E0). injection E0 as <- <-.
    apply elem_of_cons in Hin as [->|Hin]; [by left|right]. eapply IH; [|exact E1|done]. lia. }
  destruct (str_equal a "-"); [by injection E as <- <-|].
  destruct (_ || _).
  { destruct k as [|v k]; [done|]. apply res_bind_ok in E as ([r1 k1] & E1 & E). injection E as <- <-.
    rewrite !elem_of_cons in Hin |- *. destruct Hin as [?|[?|Hin]]; auto. right. right.
    eapply IH; [|exact E1|done]. cbn in Hn. lia. }
  destruct (decide (t <> Arg_Rest)) as [Ht|Ht]; [by eapply Hstep|].
  destruct (str_equal a ""); [done|]. destruct (_ || _); [by eapply Hstep|].
  destruct (str_equal i ""); [|by injection E as <- <-].
  eapply IH; [|exact E|]; [lia|]. apply elem_of_cons in Hin as [Hin|Hin]; [|done].
  exfalso. apply Ht. by injection Hin as _ <-.
Qed.

(** The output file made from the input file is not ["-"]. *)
Lemma find_basename_last s b :
  last (bytes_of s) = Some b -> find_basename s = "-"%string -> b = x2d.
Proof.
  unfold find_basename. destruct (_ =? npos).
  - intros E ->. by injection E.
  - unfold substr_from. intros E H. apply (f_equal bytes_of) in H. rewrite bytes_of_str_of in H.
    rewrite <- (take_drop (Z.to_nat (rfind "/" s + 1)) (bytes_of s)), H in E.
    rewrite last_app in E. cbn in E. by injection E.
Qed.
Lemma derived_output base (s : bool) :
  str_equal (find_basename (base +:+ if s then ".s" else ".o")) "-" = false.
Proof.
  apply bool_decide_eq_false. intros E.
  assert (last (bytes_of (base +:+ if s then ".s" else ".o")) = Some (if s then x73 else x6f)) as Hl.
  { rewrite bytes_of_app, last_app. by destruct s. }
  apply (find_basename_last _ _ Hl) in E. by destruct s.
Qed.

Lemma language_of_extension_known ext l :
  language_of_extension ext = Some (Some l) -> l <> Lang_Custom.
Proof. unfold language_of_extension. repeat case_goal; by intros [= <-]. Qed.

(** [use_input] keeps what is settled. *)
Record input_kept (st st' : scan) : Prop := {
  ik_ok : scan_ok st -> scan_ok st';
  ik_local : a_always_local st' = false -> a_always_local st = false;
  ik_input : j_input_file (a_job st') = j_input_file (a_job st);
  ik_args : forall f, f ∈ a_args st -> f ∈ a_args st'
}.
Lemma input_kept_trans a b c : input_kept a b -> input_kept b c -> input_kept a c.
Proof. intros [A1 A2 A3 A4] [B1 B2 B3 B4]. split; auto. congruence. Qed.
Lemma input_kept_refl st : input_kept st st.
Proof. by split. Qed.

Lemma use_input_kept ifile st : input_kept st (use_input ifile st).
Proof.
  unfold use_input. destruct (negb _); [apply input_kept_refl|]. cbv zeta.
  eapply input_kept_trans; [|eapply input_kept_trans].
  - unfold use_extension. instantiate (1 := use_extension (substr_from ifile (rfind "." ifile + 1)) st).
    unfold use_extension. destruct (language_of_extension _) as [[l|]|] eqn:E; [|apply input_kept_refl|].
    + apply language_of_extension_known in E. split; cbn; auto. intros [A B]. by split.
    + split; cbn; auto; [|done]. intros [A B]. by split.
  - instantiate (1 := default_output (substr ifile 0 (rfind "." ifile)) _).
    unfold default_output. destruct (_ && _); [|apply input_kept_refl]. split; cbn; auto. intros [A B].
    split; cbn; [exact A|]. intros _ E. pose proof (derived_output (substr ifile 0 (rfind "." ifile))
      (a_seen_s (use_extension (substr_from ifile (rfind "." ifile + 1)) st))) as Hd.
    by rewrite E in Hd.
  - unfold dependency_file. destruct (_ && _); [|apply input_kept_refl]. split; cbn; auto.
    + intros [A B]. by split.
    + intros f Hf. rewrite <- app_assoc. apply elem_of_app. by left.
Qed.

Lemma evolves_input st st' : evolves st st' -> j_input_file (a_job st') = j_input_file (a_job st).
Proof.
  induction 1 as [| |st st' [_ _ Hj _]| | |v st|l j st Hl ->]; cbn; try congruence.
  by destruct (str_equal v "-").
Qed.

Lemma find_input_file_spec st st' :
  find_input_file st = Ok st' -> scan_ok st -> j_input_file (a_job st) = ""%string ->
  scan_ok st' /\ (a_always_local st' = false -> a_always_local st = false) /\
  (a_always_local st' = false -> should_always_build_locally (j_input_file (a_job st')) = false) /\
  (forall x, (x, Arg_Remote) ∈ a_args st -> (x, Arg_Remote) ∈ a_args st').
Proof.
  unfold find_input_file. intros E [H1 H2] Hi. destruct (a_always_local st) eqn:El.
  { injection E as <-. split; [by split; cbn; rewrite El|]. cbn. rewrite El. done. }
  apply res_bind_ok in E as ([r args] & E1 & E). injection E as <-.
  assert (forall x, (x, Arg_Remote) ∈ a_args st -> (x, Arg_Remote) ∈ args) as Hargs
    by (intros x; by eapply find_input_keeps).
  set (with_input := fun f st => let st := set_job (setInputFile f (a_job st)) st in
    if should_always_build_locally f then set_always_local true st else st).
  assert (forall f st, scan_ok st -> scan_ok (with_input f st)) as Hw1.
  { intros f s [A B]. unfold with_input. cbv zeta. destruct (should_always_build_locally f); by split. }
  assert (forall f st, a_args (with_input f st) = a_args st) as Hw2.
  { intros f s. unfold with_input. cbv zeta. by destruct (should_always_build_locally f). }
  assert (forall f st, a_always_local (with_input f st) = false -> should_always_build_locally f = false) as Hw3.
  { intros f s. unfold with_input. cbv zeta. by destruct (should_always_build_locally f). }
  assert (forall f st, j_input_file (a_job (with_input f st)) = f) as Hw4.
  { intros f s. unfold with_input. cbv zeta. by destruct (should_always_build_locally f). }
  assert (scan_ok (set_args args st)) as Hok by (split; cbn; auto).
  destruct r as [|f|f|f].
  - split; [done|]. split; [done|]. split; [|done]. intros _. cbn. by rewrite Hi.
  - destruct (use_input_kept f (with_input f (set_args args st))) as [K1 K2 K3 K4].
    split; [by apply K1, Hw1|]. split; [done|]. split.
    + intros Hl. etransitivity; [exact (f_equal should_always_build_locally (eq_trans K3 (Hw4 f _)))|].
      by eapply Hw3, K2.
    + intros x Hx. apply K4. eapply eq_ind_r; [by apply Hargs|apply Hw2].
  - set (st1 := set_always_local true (set_args args st)).
    assert (scan_ok st1) as Hok1 by (by split). destruct (str_equal f "").
    + split; [done|]. split; [done|]. split; [done|]. exact Hargs.
    + destruct (use_input_kept f (with_input f st1)) as [K1 K2 K3 K4].
      split; [by apply K1, Hw1|]. split; [done|]. split.
      * intros Hl. etransitivity; [exact (f_equal should_always_build_locally (eq_trans K3 (Hw4 f _)))|].
      by eapply Hw3, K2.
      * intros x Hx. apply K4. eapply eq_ind_r; [by apply Hargs|apply Hw2].
  - set (st1 := set_job (setInputFile "" (a_job (set_always_local true st))) (set_always_local true st)).
    destruct (use_input_kept f st1) as [K1 K2 K3 K4].
    split; [by apply K1; split|]. split; [done|]. split; [|exact (fun x => K4 _)].
    intros Hl. by apply K2 in Hl.
Qed.

Lemma compile_or_assemble_spec st :
  let st' := compile_or_assemble st in
  (scan_ok st -> scan_ok st') /\ j_input_file (a_job st') = j_input_file (a_job st) /\
  (a_always_local st' = false ->
     ("-c"%string, Arg_Remote) ∈ a_args st' \/ ("-S"%string, Arg_Remote) ∈ a_args st').
Proof.
  unfold compile_or_assemble. destruct (a_seen_c st), (a_seen_s st); cbn [negb andb].
  4: { split; [intros [A B]; by split|]. split; [done|]. by cbn. }
  1, 3: split; [intros [A B]; by split|]; (split; [done|]); intros _; right;
    apply elem_of_app; right; by left.
  destruct (a_seen_split_dwarf _); (split; [intros [A B]; by split|]); (split; [done|]); intros _; left;
    apply elem_of_app; right; by left.
Qed.

Lemma analyze_program_spec name job icerun local job' icerun' :
  analyze_program name job icerun = (local, job', icerun') ->
  j_input_file job' = j_input_file job /\ (local = false -> j_language job' <> Lang_Custom).
Proof.
  unfold analyze_program. repeat case_goal; intros [= <- <- <-]; (split; [done|]); done.
Qed.

(** ** Theorems *)

(** C31: what a job that is distributed looks like. When the analysis answers
    that a job need not be built locally, the job compiles or assembles, its
    language is one the scheduler knows, its output file is named, is not
    standard output and is not a device or a directory, and its input file is
    not a probe of a configuration system. *)
Theorem distributed_job m argv job icerun extrafiles a :
  j_input_file job = ""%string ->
  analyse_argv m argv job icerun extrafiles = Ok (false, a) ->
  let j := an_job a in
  j_language j <> Lang_Custom /\
  ("-c"%string ∈ remoteFlags j \/ "-S"%string ∈ remoteFlags j) /\
  j_output_file j <> ""%string /\ j_output_file j <> "-"%string /\
  (m_stat m (j_output_file j) = None \/ m_stat m (j_output_file j) = Some Regular) /\
  should_always_build_locally (j_input_file j) = false.
Proof.
  intros Hi E. apply res_bind_ok in E as (a' & E & E0). injection E0 as Er <-.
  unfold analyse_result in E. destruct (if negb _ then _ else _) as [name|]; [|done].
  destruct (analyze_program name job icerun) as [[local job'] icerun'] eqn:Ep.
  apply analyze_program_spec in Ep as [Hi' Hlang].
  apply res_bind_ok in E as (only & _ & E). apply res_bind_ok in E as (st1 & E1 & E).
  apply scan_args_evolves in E1. pose proof (evolves_input _ _ E1) as Hi1. cbn in Hi1.
  assert (scan_ok st1) as Hok1 by (eapply evolves_ok; [exact E1|by split]).
  destruct (compile_or_assemble_spec st1) as (Hok2 & Hi2 & Hcs). specialize (Hok2 Hok1).
  apply res_bind_ok in E as (st2 & E2 & E).
  apply find_input_file_spec in E2 as (Hok3 & Hl3 & Hin & Hargs); [|done|congruence].
  apply res_bind_ok in E as (st3 & E3 & E). apply force_colors_later in E3.
  apply res_bind_ok in E as (st4 & E4 & E). apply preprocessing_later in E4.
  apply res_bind_ok in E as (st5 & E5 & E). apply clang_target_later in E5.
  apply res_bind_ok in E as (st6 & E6 & E). apply native_flags_later in E6. injection E as <-.
  pose proof (check_output_later m st2) as L0.
  pose proof (later_trans _ _ _ E3 (later_trans _ _ _ E4 (later_trans _ _ _ E5 E6))) as L1.
  pose proof (later_trans _ _ _ L0 L1) as [A1 A2 A3 A4 A5].
  assert (a_always_local st6 = false) as Hl.
  { cbn in Er. destruct (a_always_local st6); [|done]. exfalso.
    by destruct (negb _ && _) in Er. }
  destruct Hok3 as [Hlang3 Hout3]. specialize (A1 Hl).
  pose proof (check_output_spec m st2 (la_local _ _ L1 Hl)) as [Ho1 Ho2].
  rewrite <- (la_ofile _ _ L1 Hl) in Ho1, Ho2. unfold finish. cbn -[remoteFlags should_always_build_locally].
  rewrite A2, A3 by done. split; [auto|]. split.
  - unfold remoteFlags, flags. cbn.
    destruct (Hcs (Hl3 A1)) as [Hc|Hc]; [left|right]; apply Hargs, A5 in Hc; try done;
      apply list_elem_of_fmap; eexists (_, Arg_Remote); (split; [reflexivity|]);
      by apply list_elem_of_filter.
  - split; [done|]. split; [rewrite A4 by done; auto|]. split; [done|]. auto.
Qed.

(** The answer that a job needs all the slots of the machine is lost.
    [analyse_argv] computes a value with the bits [AlwaysLocal] and [FullJob]
    (the latter for a parallel link-time optimisation), but returns it as a
    [bool]: its caller finds the first bit and never the second. *)
Theorem full_job_lost m argv job icerun extrafiles b a :
  analyse_argv m argv job icerun extrafiles = Ok (b, a) ->
  (an_ret a = 0 \/ an_ret a = AlwaysLocal \/ an_ret a = Z.lor AlwaysLocal FullJob) /\
  Z.land (z_of_bool b) AlwaysLocal = Z.land (an_ret a) AlwaysLocal /\
  Z.land (z_of_bool b) FullJob = 0.
Proof.
  intros E. apply res_bind_ok in E as (a' & E & E0). injection E0 as <- <-.
  assert (exists st, a' = finish st) as [st ->].
  { unfold analyse_result in E. destruct (if negb _ then _ else _); [|done].
    destruct (analyze_program _ _ _) as [[local job'] icerun'].
    repeat (apply res_bind_ok in E as (? & _ & E)). injection E as <-. eauto. }
  cbn. destruct (a_always_local st); [|auto]. destruct (negb _ && _); cbn; auto.
Qed.

(** The last argument after [-Wa,] decides, whatever the ones before it are. *)
Lemma assembler_last_decides m l p local remote st lo r st' :
  assembler_args m (l ++ [p]) local remote st = Ok (lo, r, st') ->
  exists as_arg st0, analyze_assembler_arg m (str_of p) st0 = Ok (lo, as_arg, st').
Proof.
  revert local remote st. induction l as [|q l IH]; intros local remote st; cbn [app assembler_args];
    intros E; apply res_bind_ok in E as ([[lo1 a1] st1] & E1 & E).
  - injection E as <- _ <-. eauto.
  - by eapply IH.
Qed.

(** ** Witnesses and examples *)

Lemma distributed_job_witness :
  exists a, analyse_argv test_machine ["gcc"; "-O2"; "-c"; "main.cpp"]%string (new_CompileJob "x86_64") false []
    = Ok (false, a) /\ j_output_file (an_job a) = "main.o"%string /\ j_language (an_job a) <> Lang_Custom.
Proof.
  eexists. split; [vm_compute; reflexivity|]. split; [reflexivity|].
  eapply (distributed_job test_machine ["gcc"; "-O2"; "-c"; "main.cpp"]%string (new_CompileJob "x86_64") false []);
    [reflexivity|vm_compute; reflexivity].
Defined.

Lemma full_job_lost_witness :
  exists a, analyse_argv test_machine ["gcc"; "-flto=auto"; "main.o"]%string (new_CompileJob "x86_64") false []
    = Ok (true, a) /\ an_ret a = Z.lor AlwaysLocal FullJob /\ Z.land (z_of_bool true) FullJob = 0.
Proof.
  eexists. split; [vm_compute; reflexivity|]. split; [reflexivity|].
  eapply (full_job_lost test_machine ["gcc"; "-flto=auto"; "main.o"]%string (new_CompileJob "x86_64") false []).
  vm_compute. reflexivity.
Defined.

(** A listing file is asked for, but the job is distributed. *)
Example listing_distributed :
  test_run ["gcc"; "-Wa,-al=main.lst,-g"; "-c"; "main.c"]%string
  = Ok (false, Lang_C, "gcc", [], ["-Wa,-al=main.lst,-g"; "-c"], [])%string.
Proof. vm_compute. reflexivity. Qed.
(** Options of the table of options with a local value that the other table
    lacks. *)
Example iwithsysroot_asserts :
  test_run ["gcc"; "-iwithsysroot"; "/x"; "-c"; "main.c"]%string = Fault AssertFailed /\
  test_run ["clang"; "-fmodules-validate-once-per-build-session"; "-c"; "main.c"]%string = Fault AssertFailed.
Proof. split; vm_compute; reflexivity. Qed.
(** The file name in [-Wp,-MF,file] is taken for the next argument. *)
Example wp_mf_takes_next :
  test_run ["gcc"; "-c"; "-Wp,-MF,main.d"; "main.c"]%string
  = Ok (true, Lang_C, "gcc", ["-Wp,-MF,main.d"; "main.c"], ["-c"], [])%string.
Proof. vm_compute. reflexivity. Qed.
(** A last [-MF] reads behind the arguments; an empty argument throws. *)
Example missing_value_faults :
  test_run ["gcc"; "-c"; "main.c"; "-MF"]%string = Fault NullDeref /\
  test_run ["gcc"; "-c"; ""; "main.c"]%string = Fault Uncaught.
Proof. split; vm_compute; reflexivity. Qed.
(** A job without an input file is distributed. *)
Example no_input_distributed :
  test_run ["gcc"; "-c"; "@main.rsp"; "-o"; "main.o"]%string
  = Ok (false, Lang_C, "gcc", ["@main.rsp"], ["-c"], [])%string.
Proof. vm_compute. reflexivity. Qed.
