(* ===== verification/ArgumentLoop.v ===== *)
(** * What the loop over the command line keeps

    [treated_all] says what becomes of the arguments of a command line, in a table of
    its own: which are kept, with or without a value, which are put elsewhere,
    rewritten or dropped; the loop of Arguments.v does just that. *)

From Stdlib Require Import ZArith Lia.
From Stdlib Require Import Strings.Byte Strings.String.
From stdpp Require Import base tactics option list strings.
From S2P Require Import Prelude StdString Paths CompileJob Compilers Arguments ArgumentFacts.

#[local] Open Scope Z_scope.

(** ** The table *)

(** The options that take the next argument. Two of the table never do, because
    they start with [-l]. *)
Definition value_options : list string :=
  filter (fun a => negb (one_of a ["-lazy_framework"; "-lazy_library"]%string) = true) arguments_with_space ++ ["-x"%string].
Definition value_prefixes : list string := ["-Wp,-MF"; "-Wp,-MT"; "-Wp,-MQ"]%string.
Definition takes_value (a : string) : bool := one_of a value_options || starts_one_of a value_prefixes.

(** The arguments the loop puts elsewhere, rewrites or drops. *)
Definition special (a : string) : bool :=
  one_of a ["-c"; "-S"; "-fdiagnostics-color=auto"; "-Xclang"]%string
  || starts_one_of a ["-o"; "-Wa,"]%string || starts_one_of a file_prefixes.

(** A file that is sent along goes by its absolute name. *)
Definition same_file (m : machine) (file file' : string) : Prop :=
  file' = file \/ m_readable m file = true /\ get_absfilename (m_cwd m) file = Ok file'.

(** What becomes of the next arguments of a command line. *)
Inductive treated (m : machine) : list string -> list string -> Prop :=
| Kept a : special a = false -> takes_value a = false -> treated m [a] [a]
| Kept_value a v : takes_value a = true -> treated m [a; v] [a; v]
| Dropped a : one_of a ["-c"; "-S"; "-fdiagnostics-color=auto"]%string = true -> treated m [a] []
| Output_file v : treated m ["-o"; v]%string []
| Output_joined a : str_startswith "-o" a = true -> a <> "-o"%string -> treated m [a] []
| Assembler a parts parts' :
    bytes_of a = bytes_of "-Wa," ++ parts -> Forall2 (fun p p' => same_file m (str_of p) p') (pieces x2c parts) parts' ->
    treated m [a] [foldl (fun x p => x +:+ "," +:+ p) "-Wa" parts']%string
| Local_assembler a : str_startswith "-Wa," a = true -> treated m [a] [a]
| File_option p file file' :
    p ∈ file_prefixes -> same_file m file file' -> treated m [p +:+ file]%string [p +:+ file']%string
| Xclang v : v <> "-load"%string -> treated m ["-Xclang"; v]%string ["-Xclang"; v]%string
| Plugin file file' :
    same_file m file file' ->
    treated m ["-Xclang"; "-load"; "-Xclang"; file]%string ["-Xclang"; "-load"; "-Xclang"; file']%string
| Lost_load : treated m ["-Xclang"; "-load"]%string [].
Inductive treated_all (m : machine) : list string -> list string -> Prop :=
| Treated_none : treated_all m [] []
| Treated l l' k k' : treated m l k -> treated_all m l' k' -> treated_all m (l ++ l') (k ++ k')
| Last_valueless a : takes_value a = true -> treated_all m [a] [a]
| Last_output : treated_all m ["-o"%string] []
| Last_Xclang : treated_all m ["-Xclang"%string] [].

(** ** How an argument starts *)

Lemma str_equal_true a b : str_equal a b = true -> a = b.
Proof. apply bool_decide_eq_true. Qed.
Lemma both_start p q a :
  str_startswith p a = true -> str_startswith q a = true ->
  str_startswith p q || str_startswith q p = true.
Proof.
  unfold str_startswith. intros H1%is_prefix_spec H2%is_prefix_spec. apply orb_true_iff. rewrite !is_prefix_spec.
  by destruct (prefix_weak_total _ _ _ H1 H2); [left|right].
Qed.
Lemma char_at_start p a i :
  str_startswith p a = true -> (i < length (bytes_of p))%nat -> char_at a i = char_at p i.
Proof.
  intros H Hi. apply is_prefix_spec in H as [t E]. unfold char_at, bytes_of in *. rewrite E.
  by rewrite lookup_app_l.
Qed.

(** [E], a condition on an argument, is refuted by [H], which says how the
    argument starts. *)
Ltac clash H E :=
  lazymatch type of E with
  | false = true => discriminate E
  | (_ || _)%bool = true => apply orb_true_iff in E; destruct E as [E|E]; clash H E
  | (_ && _)%bool = true => apply andb_true_iff in E; destruct E as [E _]; clash H E
  | str_equal _ _ = true => apply str_equal_true in E;
      first [rewrite E in H; vm_compute in H; discriminate H | rewrite <- E in H; vm_compute in H; discriminate H]
  | str_startswith _ _ = true => apply (both_start _ _ _ H) in E; vm_compute in E; discriminate E
  | bool_decide (char_at _ _ = _) = true =>
      apply bool_decide_eq_true in E; rewrite (char_at_start _ _ _ H) in E by (vm_compute; lia);
      vm_compute in E; discriminate E
  end.
Ltac spread E :=
  unfold one_of, starts_one_of, is_argument_with_space, arguments_with_space, local_options in E; cbn [existsb] in E.
Ltac passes H :=
  match goal with
  | |- (if ?b then _ else _) = _ =>
      let E := fresh in assert (b = false) as E by
        (apply not_true_is_false; intros E; spread E; clash H E);
      rewrite E; clear E
  end.

(** Takes the branch that [H] names. *)
Ltac walk H :=
  repeat first [rewrite H; reflexivity | passes H].

Lemma scan_o_start m cpp a rest st :
  str_startswith "-o" a = true -> scan_option m cpp a rest st = Ok (scan_o a rest st).
Proof. intros H. unfold scan_option. cbv zeta. walk H. Qed.
Lemma scan_Wa_start m cpp a rest st :
  str_startswith "-Wa," a = true ->
  scan_option m cpp a rest st =
    res_bind (assembler_args m (pieces x2c (drop 4 (bytes_of a))) false "-Wa" st) (fun '(l, remote_arg, st) =>
    Ok (if l : bool then append a Arg_Local (set_always_local true st)
        else append remote_arg Arg_Remote st, rest)).
Proof. intros H. unfold scan_option. cbv zeta. walk H. Qed.

Lemma scan_file_start m cpp p a rest st :
  In p file_prefixes -> str_startswith p a = true ->
  scan_option m cpp a rest st =
    res_bind (extra_file m (substr_from a (strlen p)) st) (fun '(file, st) =>
    Ok (append (p +:+ file) Arg_Rest st, rest)).
Proof.
  intros Hp H. assert (default ""%string (head (filter (fun p => Is_true (str_startswith p a)) file_prefixes)) = p) as Ep.
  { unfold file_prefixes. cbn [In file_prefixes] in Hp.
    destruct Hp as [<-|[<-|[<-|[<-|[]]]]];
    repeat (first [rewrite filter_cons_True by (by rewrite H); reflexivity
                  |rewrite filter_cons_False by (intros E%Is_true_true; clash H E)]). }
  unfold scan_option, scan_preprocessor_option, scan_compiler_option. cbv zeta.
  assert (starts_one_of a file_prefixes = true) as Hf.
  { unfold starts_one_of. apply existsb_exists. by exists p. }
  rewrite Hf, Ep. clear Ep. destruct Hp as [<-|[<-|[<-|[<-|[]]]]]; repeat first [reflexivity|passes H].
Qed.

(** Options with a value for the preprocessor *)
Lemma scan_wp_start m cpp p a rest st :
  In p value_prefixes -> str_startswith p a = true ->
  exists st', a_args st' = a_args st /\ scan_option m cpp a rest st = needed_value a rest st'.
Proof.
  intros Hp H. unfold scan_option. cbv zeta. destruct Hp as [<-|[<-|[<-|[]]]].
  - exists (set_seen_mf true st). split; [done|]. repeat passes H. by rewrite H, orb_true_r.
  - exists st. split; [done|]. repeat passes H. unfold starts_one_of. cbn [existsb]. by rewrite H, !orb_true_r.
  - exists st. split; [done|]. repeat passes H. unfold starts_one_of. cbn [existsb]. by rewrite H, !orb_true_r.
Qed.

(** What an argument that takes its value, if there is one, adds. *)
Definition takes (a : string) (rest : list string) (st : scan) (r : scan * list string) : Prop :=
  match rest with
  | [] => r.2 = [] /\ map fst (a_args r.1) = map fst (a_args st) ++ [a]
  | v :: rest => r.2 = rest /\ map fst (a_args r.1) = map fst (a_args st) ++ [a; v]
  end.
Lemma with_value_takes a t rest st st' :
  a_args st' = a_args st -> takes a rest st (with_value a t rest st').
Proof.
  intros E. destruct rest as [|v rest]; (split; [done|]); cbn; rewrite !map_app, E; [done|].
  by rewrite <- app_assoc.
Qed.
Lemma scan_x_takes a rest st : takes a rest st (scan_x a rest st).
Proof.
  unfold scan_x. destruct rest as [|v rest]; [by split; [|cbn; rewrite map_app]|].
  pose proof (with_value_takes a Arg_Rest (v :: rest) st st eq_refl) as H.
  repeat case_goal; exact H.
Qed.

Lemma case_true {A} (b : bool) (x y r : A) (P : Prop) :
  b = true -> (x = r -> P) -> (if b then x else y) = r -> P.
Proof. by intros ->. Qed.
Lemma case_false {A} (b : bool) (x y r : A) (P : Prop) :
  b = false -> (y = r -> P) -> (if b then x else y) = r -> P.
Proof. by intros ->. Qed.
Ltac decide_closed :=
  lazymatch goal with
  | |- (if ?b then _ else _) = _ -> _ =>
      let v := eval vm_compute in b in
      lazymatch v with
      | true => apply case_true; [vm_compute; reflexivity|]
      | false => apply case_false; [vm_compute; reflexivity|]
      end
  | |- scan_preprocessor_option _ _ _ _ _ = _ -> _ => unfold scan_preprocessor_option; cbv zeta
  | |- scan_compiler_option _ _ _ _ = _ -> _ => unfold scan_compiler_option; cbv zeta
  end.
Lemma value_option_takes m cpp a rest st r :
  In a value_options -> scan_option m cpp a rest st = Ok r -> takes a rest st r.
Proof.
  intros Ha. unfold scan_option. cbv zeta. vm_compute in Ha. repeat destruct Ha as [<-|Ha]; [..|destruct Ha].
  all: repeat decide_closed.
  all: try (intros [= <-]; apply with_value_takes; by repeat case_goal).
  all: try (intros [= <-]; apply scan_x_takes).
  all: unfold needed_value; destruct rest as [|v rest]; [done|]; intros [= <-]; by apply (with_value_takes _ Arg_Local (v :: rest)).
Qed.

(** *** Ordinary arguments *)

Definition adds (a : string) (rest : list string) (st : scan) (r : scan * list string) : Prop :=
  r.2 = rest /\ map fst (a_args r.1) = map fst (a_args st) ++ [a].
Lemma append_adds a t rest st st' : a_args st' = a_args st -> adds a rest st (append a t st', rest).
Proof. intros E. split; [done|]. cbn. by rewrite map_app, E. Qed.

Lemma not_special a :
  special a = false ->
  str_equal a "-c" = false /\ str_equal a "-S" = false /\ str_equal "-fdiagnostics-color=auto" a = false /\
  str_equal "-Xclang" a = false /\ str_startswith "-o" a = false /\ str_startswith "-Wa," a = false /\
  starts_one_of a file_prefixes = false.
Proof.
  assert (forall x y, str_equal x y = str_equal y x) as Hsym
    by (intros x y; unfold str_equal; apply bool_decide_ext; split; congruence).
  unfold special. intros H. cbn [one_of starts_one_of existsb] in H. boolify.
  rewrite (Hsym "-fdiagnostics-color=auto"%string), (Hsym "-Xclang"%string). auto 8.
Qed.
(** Where the value is not taken. *)
Lemma no_value a :
  takes_value a = false ->
  (forall v, one_of v value_options = true -> str_equal a v = false /\ str_equal v a = false) /\
  starts_one_of a value_prefixes = false.
Proof.
  unfold takes_value. intros H. boolify. split; [|done]. intros v Hv. split; apply bool_decide_eq_false; intros E.
  - subst v. congruence.
  - subst v. congruence.
Qed.
Lemma no_space a :
  takes_value a = false -> starts_one_of a ["-I"; "-l"; "-L"]%string = false -> is_argument_with_space a = false.
Proof.
  intros [Hv _]%no_value Hl. apply not_true_is_false. intros E. unfold is_argument_with_space in E.
  apply existsb_exists in E as (v & Hin & E%str_equal_true). subst v.
  assert (one_of a value_options = true \/ one_of a ["-lazy_framework"; "-lazy_library"]%string = true) as [Ho|Ho].
  { destruct (one_of a ["-lazy_framework"; "-lazy_library"]%string) eqn:Ez; [by right|left].
    unfold one_of, value_options. apply existsb_exists. exists a. split; [|by apply bool_decide_eq_true].
    apply in_or_app. left. apply list_elem_of_In, list_elem_of_filter. split; [by rewrite Ez|by apply list_elem_of_In]. }
  - destruct (Hv a Ho) as [Hn _]. apply bool_decide_eq_false in Hn. done.
  - cbn [one_of existsb] in Ho. rewrite orb_false_r in Ho.
    apply orb_true_iff in Ho as [->%str_equal_true| ->%str_equal_true]; vm_compute in Hl; discriminate Hl.
Qed.

Lemma scan_compiler_option_adds m a rest st r :
  special a = false -> takes_value a = false -> is_argument_with_space a = false ->
  scan_compiler_option m a rest st = Ok r -> adds a rest st r.
Proof.
  intros (_ & _ & H1 & H2 & _ & _ & H3)%not_special [Hv _]%no_value Hsp. unfold scan_compiler_option. cbv zeta.
  rewrite H1, H2, H3, Hsp. rewrite (proj2 (Hv "-target"%string eq_refl)), (proj2 (Hv "-arch"%string eq_refl)).
  repeat case_goal; try (by intros [= <-]; by apply append_adds).
  all: intros E; apply res_bind_ok in E as (c & _ & E); injection E as <-; apply append_adds; by destruct (c || _).
Qed.

Lemma local_option_spaceless a :
  takes_value a = false -> one_of a local_options || str_startswith "-fbuild-session-file=" a = true ->
  is_argument_with_space a = false.
Proof.
  intros [Hv _]%no_value [Hl|Hl]%orb_true_iff; apply not_true_is_false; intros E; [|spread E; clash Hl E].
  apply existsb_exists in Hl as (v & Hin & ->%str_equal_true).
  assert (forallb (fun v => one_of v value_options || negb (is_argument_with_space v)) local_options = true) as Hall
    by (vm_compute; reflexivity).
  rewrite forallb_forall in Hall. apply Hall in Hin. rewrite E, orb_false_r in Hin.
  destruct (Hv v Hin) as [Hn _]. by apply bool_decide_eq_false in Hn.
Qed.

Lemma scan_preprocessor_option_adds m cpp a rest st r :
  special a = false -> takes_value a = false ->
  scan_preprocessor_option m cpp a rest st = Ok r -> adds a rest st r.
Proof.
  intros Hs Hv0. pose proof (no_value a Hv0) as [Hv Hw]. unfold scan_preprocessor_option. cbv zeta.
  assert (one_of a ["-D"; "-U"]%string = false) as ->
    by (cbn [one_of existsb]; by rewrite (proj1 (Hv "-D"%string eq_refl)), (proj1 (Hv "-U"%string eq_refl))).
  destruct (one_of a local_options || _) eqn:El; [by rewrite local_option_spaceless by done|].
  intros E. do 2 (match type of E with
  | (if ?b then _ else _) = _ => destruct b; [injection E as <-; by apply append_adds|]
  end).
  destruct (starts_one_of a ["-I"; "-l"; "-L"]%string) eqn:EI; [injection E as <-; by apply append_adds|].
  do 2 (match type of E with
  | (if ?b then _ else _) = _ => destruct b; [injection E as <-; by apply append_adds|]
  end).
  eapply scan_compiler_option_adds; [done|done|by apply no_space|exact E].
Qed.

Lemma scan_option_adds m cpp a rest st r :
  special a = false -> takes_value a = false -> scan_option m cpp a rest st = Ok r -> adds a rest st r.
Proof.
  intros Hs Hv0. pose proof (no_value a Hv0) as [Hv Hw]. pose proof (not_special a Hs) as (H1 & H2 & _ & _ & H3 & H4 & _).
  unfold scan_option. cbv zeta. rewrite H1, H2, H3, H4.
  unfold value_prefixes in Hw. cbn [starts_one_of existsb] in Hw. boolify.
  assert (str_equal a "-MF" || str_startswith "-Wp,-MF" a = false) as ->
    by (apply orb_false_iff; split; [by apply (Hv "-MF"%string)|done]).
  assert (one_of a ["-MT"; "-MQ"]%string || starts_one_of a ["-Wp,-MT"; "-Wp,-MQ"]%string = false) as ->.
  { cbn [one_of starts_one_of existsb]. rewrite (proj1 (Hv "-MT"%string eq_refl)), (proj1 (Hv "-MQ"%string eq_refl)).
    repeat (apply orb_false_iff; split); done. }
  rewrite (proj2 (Hv "--param"%string eq_refl)), (proj1 (Hv "-B"%string eq_refl)), (proj1 (Hv "-x"%string eq_refl)).
  intros E. repeat match type of E with
  | (if ?b then _ else _) = _ => destruct b; [injection E as <-|]
  end;
  try (apply append_adds; by repeat case_goal);
  try (destruct (_ && _); (split; [done|cbn; by rewrite map_app])).
  by eapply scan_preprocessor_option_adds.
Qed.

(** ** Whole command lines *)

Lemma treated_all_nil m k : treated_all m [] k -> k = [].
Proof.
  inversion 1 as [|l l' k1 k2 Ht Hr E1 E2| | |]; [done|]. apply app_eq_nil in E1 as [-> ->].
  inversion Ht.
Qed.

Lemma extra_file_same m file st file' st' :
  extra_file m file st = Ok (file', st') -> same_file m file file' /\ a_args st' = a_args st.
Proof.
  unfold extra_file. destruct (m_readable m file) eqn:Er.
  - intros (f & E & [= <- <-])%res_bind_ok. split; [by right|done].
  - intros [= <- <-]. split; [by left|done].
Qed.

Lemma assembler_arg_same m arg st lo arg' st' :
  analyze_assembler_arg m arg st = Ok (lo, arg', st') -> same_file m arg arg' /\ a_args st' = a_args st.
Proof.
  unfold analyze_assembler_arg. intros E.
  repeat match type of E with (if ?b then _ else _) = _ => destruct b eqn:? end;
    try (injection E as <- <- <-; split; [by left|done]).
  apply res_bind_ok in E as (f & E & [= <- <- <-]). split; [by right|done].
Qed.
Lemma assembler_args_same m l lo r st lo' r' st' :
  assembler_args m l lo r st = Ok (lo', r', st') ->
  a_args st' = a_args st /\ exists parts', Forall2 (fun p p' => same_file m (str_of p) p') l parts' /\
    r' = foldl (fun x p => x +:+ "," +:+ p)%string r parts'.
Proof.
  revert lo r st. induction l as [|p l IH]; intros lo r st E; cbn [assembler_args] in E.
  - injection E as <- <- <-. split; [done|]. by exists [].
  - apply res_bind_ok in E as ([[lo1 a1] st1] & E1 & E). apply assembler_arg_same in E1 as [H1 Ha].
    apply IH in E as (Ha' & parts & Hp & ->). split; [congruence|]. exists (a1 :: parts). by split; [constructor|].
Qed.

(** One argument, with what it takes. *)
Definition treats (m : machine) (l : list string) (st : scan) (r : scan * list string) : Prop :=
  exists k, map fst (a_args r.1) = map fst (a_args st) ++ k /\
    forall k', treated_all m r.2 k' -> treated_all m l (k ++ k').

Lemma treats_step m l k st r rest :
  treated m l k -> r.2 = rest -> map fst (a_args r.1) = map fst (a_args st) ++ k ->
  treats m (l ++ rest) st r.
Proof. intros Ht <- Ea. exists k. split; [done|]. intros k' Hk. by apply Treated. Qed.

Lemma takes_treats m a rest st r : takes_value a = true -> takes a rest st r -> treats m (a :: rest) st r.
Proof.
  intros Ha. destruct rest as [|v rest]; intros [E1 E2].
  - exists [a]. split; [done|]. rewrite E1. intros k' ->%treated_all_nil. by apply Last_valueless.
  - apply (treats_step m [a; v] [a; v]); [by apply Kept_value|done|done].
Qed.

Lemma scan_o_treats m a rest st : str_startswith "-o" a = true -> treats m (a :: rest) st (scan_o a rest st).
Proof.
  intros H. unfold scan_o. destruct (str_equal a "-o") eqn:Ea.
  - apply str_equal_true in Ea as ->. destruct rest as [|v rest].
    + exists []. split; [rewrite app_nil_r; by case_goal|]. cbn [snd]. intros k' ->%treated_all_nil.
      apply Last_output.
    + apply (treats_step m ["-o"; v]%string []); [apply Output_file|done|]. rewrite app_nil_r. by case_goal.
  - apply bool_decide_eq_false in Ea. apply (treats_step m [a] []); [by apply Output_joined|done|].
    rewrite app_nil_r. by case_goal.
Qed.

Lemma scan_Xclang_treats m rest st r :
  scan_Xclang m "-Xclang" rest st = Ok r -> treats m ("-Xclang"%string :: rest) st r.
Proof.
  unfold scan_Xclang. destruct rest as [|p rest].
  { intros [= <-]. exists []. split; [by rewrite app_nil_r|]. cbn [snd]. intros k' ->%treated_all_nil.
    apply Last_Xclang. }
  cbv zeta. destruct (str_equal "-load" p) eqn:Ep.
  - apply str_equal_true in Ep as <-.
    assert (forall rest, treats m ("-Xclang" :: "-load" :: rest)%string st (st, rest)) as Hlost.
    { intros rest'. apply (treats_step m ["-Xclang"; "-load"]%string []); [apply Lost_load|done|].
      by rewrite app_nil_r. }
    destruct rest as [|x [|file rest]]; [by intros [= <-]..|].
    destruct (str_equal x "-Xclang") eqn:Ex; [|by intros [= <-]]. apply str_equal_true in Ex as ->.
    intros ([file' st1] & E & [= <-])%res_bind_ok. apply extra_file_same in E as [Hf Ea].
    apply (treats_step m ["-Xclang"; "-load"; "-Xclang"; file]%string ["-Xclang"; "-load"; "-Xclang"; file']%string);
      [by apply Plugin|done|]. cbn. rewrite !map_app, Ea. cbn. by rewrite !map_app, <- !app_assoc.
  - apply bool_decide_eq_false in Ep. intros E.
    assert (r.2 = rest /\ a_args r.1 = (a_args st ++ [("-Xclang"%string, Arg_Rest)]) ++ [(p, Arg_Rest)]) as [Er Ea]
      by (destruct (str_equal _ p); by injection E as <-).
    apply (treats_step m ["-Xclang"; p]%string ["-Xclang"; p]%string); [by apply Xclang|done|].
    by rewrite Ea, !map_app, <- app_assoc.
Qed.

Lemma start_dash p a : str_startswith p a = true -> char_at p 0 = x2d -> bytes_of p <> [] -> char_at a 0 = x2d.
Proof. intros H E Hp. rewrite (char_at_start p); [done|done|]. destruct (list_byte_of_string p); [done|cbn; lia]. Qed.
Lemma dash_needed a : special a || takes_value a = true -> char_at a 0 = x2d.
Proof.
  assert (forall l, forallb (fun p => bool_decide (char_at p 0 = x2d)) l = true -> one_of a l = true -> char_at a 0 = x2d) as H1.
  { intros l Hl (v & Hin & ->%str_equal_true)%existsb_exists. rewrite forallb_forall in Hl.
    by apply Hl, bool_decide_eq_true in Hin. }
  assert (forall l, forallb (fun p => bool_decide (char_at p 0 = x2d)) l = true -> starts_one_of a l = true -> char_at a 0 = x2d) as H2.
  { intros l Hl (v & Hin & Hv)%existsb_exists. rewrite forallb_forall in Hl.
    apply Hl, bool_decide_eq_true in Hin. apply (start_dash v); [done|done|]. intros E. unfold char_at in Hin.
    by rewrite E in Hin. }
  unfold special, takes_value. rewrite !orb_true_iff.
  intros [[[H|H]|H]|[H|H]]; first [apply (H1 _) in H; [exact H|]|apply (H2 _) in H; [exact H|]]; vm_compute; reflexivity.
Qed.

Lemma split_start p a : str_startswith p a = true -> a = (p +:+ substr_from a (strlen p))%string.
Proof.
  intros [t E]%is_prefix_spec. rewrite <- (str_of_bytes_of a), <- (str_of_bytes_of (p +:+ _)), bytes_of_app.
  f_equal. unfold substr_from, strlen. by rewrite !bytes_of_str_of, Nat2Z.id, E, drop_app_length.
Qed.

Lemma special_treats m cpp a rest st r :
  special a = true -> scan_option m cpp a rest st = Ok r -> treats m (a :: rest) st r.
Proof.
  unfold special. rewrite !orb_true_iff. intros [[H|H]|H].
  - assert (forall st', a_args st' = a_args st -> one_of a ["-c"; "-S"; "-fdiagnostics-color=auto"]%string = true ->
      treats m ([a] ++ rest) st (st', rest)) as Hd.
    { intros st' E Ha. apply (treats_step m [a] []); [by apply Dropped|done|]. cbn. by rewrite E, app_nil_r. }
    cbn [one_of existsb] in H. rewrite !orb_true_iff in H. unfold scan_option. cbv zeta.
    destruct H as [->%str_equal_true|[->%str_equal_true|[->%str_equal_true|[->%str_equal_true|[=]]]]];
      repeat decide_closed; try (intros [= <-]; by apply Hd).
    apply scan_Xclang_treats.
  - cbn [starts_one_of existsb] in H. rewrite !orb_true_iff in H. destruct H as [H|[H|[=]]].
    + rewrite scan_o_start by done. intros [= <-]. by apply scan_o_treats.
    + rewrite scan_Wa_start by done. intros ([[lo r'] st1] & E & [= <-])%res_bind_ok.
      apply assembler_args_same in E as (Ea & parts & Hp & ->). destruct lo.
      * apply (treats_step m [a] [a]); [by apply Local_assembler|done|]. cbn. by rewrite map_app, Ea.
      * eapply (treats_step m [a] [_]); [|done|cbn; by rewrite map_app, Ea].
        apply is_prefix_spec in H as [t Et]. eapply Assembler; [exact Et|]. by rewrite Et in Hp.
  - apply existsb_exists in H as (p & Hin & H). rewrite (scan_file_start m cpp p) by done.
    intros ([f st1] & E & [= <-])%res_bind_ok. apply extra_file_same in E as [Hf Ea].
    rewrite (split_start p a H) at 1. eapply (treats_step m [_] [_]); [|done|cbn; by rewrite map_app, Ea].
    apply File_option; [by apply list_elem_of_In|done].
Qed.

Lemma scan_arg_treats m cpp a rest st r :
  scan_arg m false cpp a rest st = Ok r -> treats m (a :: rest) st r.
Proof.
  assert (forall r, special a = false -> takes_value a = false -> adds a rest st r -> treats m (a :: rest) st r) as Hone.
  { intros r' Hs Hv [E1 E2]. apply (treats_step m [a] [a]); [by apply Kept|done|done]. }
  unfold scan_arg. destruct (bool_decide (char_at a 0 = x2d)) eqn:Ed.
  - destruct (special a) eqn:Hs; [by apply special_treats|]. destruct (takes_value a) eqn:Hv; [|intros E; by eapply Hone, scan_option_adds].
    intros E. apply takes_treats; [done|]. unfold takes_value in Hv. apply orb_true_iff in Hv as [Hv|Hv].
    + apply existsb_exists in Hv as (v & Hin & ->%str_equal_true). by eapply value_option_takes.
    + apply existsb_exists in Hv as (p & Hin & Hp). destruct (scan_wp_start m cpp p a rest st Hin Hp) as (st' & Ea & Es).
      rewrite Es in E. unfold needed_value in E. destruct rest as [|v rest]; [done|]. injection E as <-.
      by apply (with_value_takes a Arg_Local (v :: rest)).
  - apply bool_decide_eq_false in Ed.
    assert (special a = false /\ takes_value a = false) as [Hs Hv].
    { apply orb_false_iff, not_true_is_false. intros E. by apply Ed, dash_needed. }
    intros E. apply Hone; [done|done|].
    destruct (bool_decide (char_at a 0 = x40)); injection E as <-; by apply append_adds.
Qed.


(** ** A command line *)

Definition scan_start : scan :=
  mkScan [] "" [] (new_CompileJob "x86_64") false false false false false false false false false
    false false false false false "" None false false false.
Definition a_command_line : list string := ["-I"; "include"; "-O2"; "-c"; "-x"; "c++"; "a.cpp"; "-o"; "-c"; "-Wall"]%string.
Definition a_scan : scan :=
  match scan_args 10 test_machine false Arg_Local a_command_line scan_start with Ok st => st | Fault _ => scan_start end.

