(* ===== verification/Msg.v ===== *)
(** * The messages (services/comm.h, services/comm.cpp)

    One record per message class with a payload, its [send_to_channel] as a
    [..._send] writer and its [fill_from_channel] as a [..._fill] reader
    (which takes the freshly constructed object: fields a peer of an older
    protocol does not send keep their initial value). [Msg] is the sum of the
    classes, [msg_send] and [msg_fill] dispatch on it the way the virtual functions and
    [MsgChannel::get_msg] do. What the other side obtains is the [wire_view] of
    MsgCodec.v. *)

From Stdlib Require Import ZArith Lia.
From Stdlib Require Import Strings.Byte Strings.String.
From stdpp Require Import base tactics option list strings.
From S2P Require Import Prelude MsgChannel CompileJob.

#[local] Open Scope Z_scope.

(** ** Message types *)

Inductive MsgType : Type :=
| M_UNKNOWN | M_PING | M_END | M_TIMEOUT
| M_GET_NATIVE_ENV | M_NATIVE_ENV | M_GET_CS | M_USE_CS
| M_COMPILE_FILE | M_FILE_CHUNK | M_COMPILE_RESULT
| M_JOB_BEGIN | M_JOB_DONE | M_JOB_LOCAL_BEGIN | M_JOB_LOCAL_DONE
| M_LOGIN | M_STATS
| M_MON_LOGIN | M_MON_GET_CS | M_MON_JOB_BEGIN | M_MON_JOB_DONE
| M_MON_LOCAL_JOB_BEGIN | M_MON_STATS
| M_TRANFER_ENV | M_TEXT | M_STATUS_TEXT | M_GET_INTERNALS
| M_CS_CONF | M_VERIFY_ENV | M_VERIFY_ENV_RESULT | M_BLACKLIST_HOST_ENV
| M_NO_CS.

#[export] Instance MsgType_eq_dec : EqDecision MsgType.
Proof. solve_decision. Defined.

(** All enumerators in order, the first one being ['A']. *)
Definition msg_types : list MsgType :=
  [M_UNKNOWN; M_PING; M_END; M_TIMEOUT; M_GET_NATIVE_ENV; M_NATIVE_ENV;
   M_GET_CS; M_USE_CS; M_COMPILE_FILE; M_FILE_CHUNK; M_COMPILE_RESULT;
   M_JOB_BEGIN; M_JOB_DONE; M_JOB_LOCAL_BEGIN; M_JOB_LOCAL_DONE; M_LOGIN;
   M_STATS; M_MON_LOGIN; M_MON_GET_CS; M_MON_JOB_BEGIN; M_MON_JOB_DONE;
   M_MON_LOCAL_JOB_BEGIN; M_MON_STATS; M_TRANFER_ENV; M_TEXT; M_STATUS_TEXT;
   M_GET_INTERNALS; M_CS_CONF; M_VERIFY_ENV; M_VERIFY_ENV_RESULT;
   M_BLACKLIST_HOST_ENV; M_NO_CS].

Definition msgtype_code (t : MsgType) : Z :=
  match list_find (fun t' => t' = t) msg_types with
  | Some (i, _) => 65 + Z.of_nat i
  | None => 0
  end.

(** [(enum MsgType) t]; values that are not enumerators are [None]. *)
Definition msgtype_of (n : Z) : option MsgType :=
  if (65 <=? n) && (n <? 97) then msg_types !! Z.to_nat (n - 65) else None.

Lemma msgtype_of_code t : msgtype_of (msgtype_code t) = Some t.
Proof. by destruct t. Qed.

Lemma is_u32_msgtype t : is_u32 (msgtype_code t) = true.
Proof. by destruct t. Qed.

(** [Msg::send_to_channel] *)
Definition Msg_send (t : MsgType) : writer := fun c =>
  if c_text_based c then c else put_u32 (msgtype_code t) c.

(** [shorten_filename]: the last three components of a path. [rfind] is given
    the position before the last slash found; at the start of the string that
    position is [npos], from which the search begins again at the end. *)
Fixpoint rfind_slash (l : list byte) (i : nat) : option nat :=
  match i with
  | O => match l !! 0%nat with
         | Some b => if decide (b = x2f) then Some O else None
         | None => None
         end
  | S i' => match l !! i with
            | Some b => if decide (b = x2f) then Some i else rfind_slash l i'
            | None => rfind_slash l i'
            end
  end.

Definition shorten_filename (str : string) : string :=
  let l := bytes_of str in
  let rfind (pos : option nat) := rfind_slash l (default (length l) pos) in
  let again (ofs : option nat) :=
    match ofs with
    | None => None
    | Some O => rfind None
    | Some (S n) => rfind (Some n)
    end in
  match again (again (rfind None)) with
  | Some ofs => str_of (drop (ofs + 1) l)
  | None => str
  end.

(** ** Requests for a compile server *)

Definition NODE_FEATURE_ENV_XZ : Z := Z.shiftl 1 0.
Definition NODE_FEATURE_ENV_ZSTD : Z := Z.shiftl 1 1.

Record GetCSMsg : Type := mkGetCSMsg {
  gcs_versions : Environments;
  gcs_filename : string;
  gcs_lang : Language;
  gcs_count : Z;
  gcs_target : string;
  gcs_arg_flags : Z;
  gcs_client_id : Z;
  gcs_preferred_host : string;
  gcs_minimal_host_version : Z;
  gcs_required_features : Z;
  gcs_client_count : Z;
  gcs_niceness : Z
}.

(** [GetCSMsg::GetCSMsg()] *)
Definition default_GetCSMsg : GetCSMsg :=
  mkGetCSMsg [] "" Lang_C 1 "" 0 0 "" 0 0 0 0.

(** The constructor with arguments; [None] is a failed [assert]. *)
Definition new_GetCSMsg (envs : Environments) (f : string) (lang : Language)
    (count : Z) (target : string) (arg_flags : Z) (host : string)
    (minimal_host_version required_features niceness client_count : Z) : option GetCSMsg :=
  let minimal_host_version :=
    if negb (Z.land required_features (Z.lor NODE_FEATURE_ENV_XZ NODE_FEATURE_ENV_ZSTD) =? 0)
    then Z.max minimal_host_version 42 else minimal_host_version in
  if (0 <=? niceness) && (niceness <=? 20) then
    Some (mkGetCSMsg envs f lang count target arg_flags 0 host
            minimal_host_version required_features client_count niceness)
  else None.

(** [t] is the type of the message: [MonGetCSMsg] calls this function too. *)
Definition GetCSMsg_send (t : MsgType) (m : GetCSMsg) : writer :=
  Msg_send t ;>
  write_environments (gcs_versions m) ;>
  put_str (shorten_filename (gcs_filename m)) ;>
  put_u32 (language_value (gcs_lang m)) ;>
  put_u32 (gcs_count m) ;>
  put_str (gcs_target m) ;>
  put_u32 (gcs_arg_flags m) ;>
  put_u32 (gcs_client_id m) ;>
  when_proto 22 (put_str (gcs_preferred_host m)) ;>
  when_proto 31 (put_u32 (if 31 <=? gcs_minimal_host_version m then 1 else 0)) ;>
  when_proto 34 (put_u32 (u32 (gcs_minimal_host_version m))) ;>
  when_proto 39 (put_u32 (gcs_client_count m)) ;>
  when_proto 42 (put_u32 (gcs_required_features m)) ;>
  when_proto 43 (put_u32 (gcs_niceness m)).

Definition GetCSMsg_fill (m : GetCSMsg) : reader GetCSMsg :=
  versions ← read_environments;
  filename ← get_str;
  lang ← get_u32;
  count ← get_u32;
  target ← get_str;
  arg_flags ← get_u32;
  client_id ← get_u32;
  preferred_host ← if_proto 22 get_str ""%string;
  ign ← if_proto 31 get_u32 0;
  version ← if_proto 34 get_u32 0;
  client_count ← if_proto 39 get_u32 (gcs_client_count m);
  required_features ← if_proto 42 get_u32 0;
  niceness ← if_proto 43 get_u32 0;
  mret (mkGetCSMsg versions filename (language_of lang) count target arg_flags
    client_id preferred_host
    (Z.max (if negb (ign =? 0) then 31 else 0) (i32 version))
    required_features client_count niceness).

Record UseCSMsg : Type := mkUseCSMsg {
  ucs_job_id : Z;
  ucs_hostname : string;
  ucs_port : Z;
  ucs_host_platform : string;
  ucs_got_env : Z;
  ucs_client_id : Z;
  ucs_matched_job_id : Z
}.

Definition new_UseCSMsg (platform host : string) (p id : Z) (gotit : bool)
    (client_id matched_host_jobs : Z) : UseCSMsg :=
  mkUseCSMsg id host p platform (z_of_bool gotit) client_id matched_host_jobs.

Definition UseCSMsg_send (m : UseCSMsg) : writer :=
  Msg_send M_USE_CS ;>
  put_u32 (ucs_job_id m) ;>
  put_u32 (ucs_port m) ;>
  put_str (ucs_hostname m) ;>
  put_str (ucs_host_platform m) ;>
  put_u32 (ucs_got_env m) ;>
  put_u32 (ucs_client_id m) ;>
  when_proto 28 (put_u32 (ucs_matched_job_id m)).

Definition UseCSMsg_fill : reader UseCSMsg :=
  job_id ← get_u32;
  port ← get_u32;
  hostname ← get_str;
  host_platform ← get_str;
  got_env ← get_u32;
  client_id ← get_u32;
  matched_job_id ← if_proto 28 get_u32 0;
  mret (mkUseCSMsg job_id hostname port host_platform got_env client_id matched_job_id).

Record NoCSMsg : Type := mkNoCSMsg { ncs_job_id : Z; ncs_client_id : Z }.

Definition NoCSMsg_send (m : NoCSMsg) : writer :=
  Msg_send M_NO_CS ;> put_u32 (ncs_job_id m) ;> put_u32 (ncs_client_id m).

Definition NoCSMsg_fill : reader NoCSMsg :=
  job_id ← get_u32; client_id ← get_u32; mret (mkNoCSMsg job_id client_id).

(** ** Compiling a file *)

(** [string::find] of a literal. *)
Fixpoint contains (needle hay : list byte) : bool :=
  bool_decide (take (length needle) hay = needle) ||
  match hay with [] => false | _ :: hay => contains needle hay end.

Definition is_clang_like (name : string) : bool :=
  contains (bytes_of "clang") (bytes_of name)
  || contains (bytes_of "icx") (bytes_of name)
  || contains (bytes_of "icpx") (bytes_of name)
  || contains (bytes_of "dpcpp") (bytes_of name).

Definition remote_compiler_name (j : CompileJob) : string :=
  if is_clang_like (j_compiler_name j) then "clang"
  else if decide (j_language j = Lang_CXX) then "g++" else "gcc".

Definition CompileFileMsg_send (j : CompileJob) : writer :=
  Msg_send M_COMPILE_FILE ;>
  put_u32 (language_value (j_language j)) ;>
  put_u32 (j_id j) ;>
  (fun c =>
    if is_protocol_version 41 c then put_list (nonLocalFlags j) c
    else
      put_list (restFlags j)
        (if is_protocol_version 30 c then put_list (remoteFlags j) c
         else if is_clang_like (j_compiler_name j)
         then put_list ("clang"%string :: remoteFlags j) c
         else put_list (remoteFlags j) c)) ;>
  put_str (j_environment_version j) ;>
  put_str (j_target_platform j) ;>
  when_proto 30 (put_str (remote_compiler_name j)) ;>
  when_proto 34 (put_str (j_input_file j) ;> put_str (j_working_directory j)) ;>
  when_proto 35 (put_str (j_output_file j) ;> put_u32 (z_of_bool (j_dwarf_fission j))).

(** The arguments of a received job. *)
Definition read_job_flags : reader ArgumentsList :=
  b ← gets (is_protocol_version 41);
  if b : bool then
    largs ← get_list; mret (map (fun a => (a, Arg_Remote)) largs)
  else
    l1 ← get_list;
    l2 ← get_list;
    mret (map (fun a => (a, Arg_Remote)) l1 ++ map (fun a => (a, Arg_Rest)) l2).

Definition CompileFileMsg_fill (j : CompileJob) : reader CompileJob :=
  lang ← get_u32;
  id ← get_u32;
  l ← read_job_flags;
  version ← get_str;
  target ← get_str;
  compilerName ← if_proto 30 get_str (j_compiler_name j);
  files ← if_proto 34 (x ← get_str; y ← get_str; mret (x, y))
            (j_input_file j, j_working_directory j);
  out ← if_proto 35 (x ← get_str; y ← get_u32; mret (x, y))
            (j_output_file j, z_of_bool (j_dwarf_fission j));
  mret (mkCompileJob id (language_of lang) (j_compiler_pathname j) compilerName
    version l files.1 out.1 files.2 target (negb (out.2 =? 0))
    (j_block_rewrite_includes j)).

(** ** File chunks *)

Record FileChunkMsg : Type := mkFileChunkMsg {
  fc_buffer : option (list byte);
  fc_len : Z;
  fc_compressed : Z
}.

(** The payload as [write] takes it, from the buffer and the length; nothing can
    be read from a null pointer. *)
Definition chunk_data (m : FileChunkMsg) : res (option (list byte)) :=
  match fc_buffer m with
  | None => Ok (if fc_len m =? 0 then Some [] else None)
  | Some bs => if Z.of_nat (length bs) <? fc_len m then Fault UninitRead
               else Ok (Some (take (Z.to_nat (fc_len m)) bs))
  end.

Section chunks.
Context `{Compressors}.

(** The [compressed] member, which [send_to_channel] updates, is the second
    component of [writecompressed]. *)
Definition FileChunkMsg_send (m : FileChunkMsg) : writer :=
  Msg_send M_FILE_CHUNK ;>
  (fun c => (writecompressed (take (Z.to_nat (fc_len m)) (default [] (fc_buffer m))) c).1).

Definition FileChunkMsg_fill (set_error : reader unit) : reader FileChunkMsg :=
  ch ← readcompressed set_error;
  mret (mkFileChunkMsg (ch_buffer ch) (ch_uclen ch) (ch_clen ch)).
End chunks.

Record CompileResultMsg : Type := mkCompileResultMsg {
  cr_status : Z;
  cr_out : string;
  cr_err : string;
  cr_was_out_of_memory : bool;
  cr_have_dwo_file : bool
}.

Definition CompileResultMsg_send (m : CompileResultMsg) : writer :=
  Msg_send M_COMPILE_RESULT ;>
  put_str (cr_err m) ;>
  put_str (cr_out m) ;>
  put_u32 (u32 (cr_status m)) ;>
  put_u32 (z_of_bool (cr_was_out_of_memory m)) ;>
  when_proto 35 (put_u32 (z_of_bool (cr_have_dwo_file m))).

Definition CompileResultMsg_fill : reader CompileResultMsg :=
  err ← get_str;
  out ← get_str;
  status ← get_u32;
  was ← get_u32;
  dwo ← if_proto 35 get_u32 0;
  mret (mkCompileResultMsg (i32 status) out err (negb (was =? 0)) (negb (dwo =? 0))).

(** ** Job notifications *)

Record JobBeginMsg : Type := mkJobBeginMsg {
  jb_job_id : Z; jb_stime : Z; jb_client_count : Z
}.

Definition JobBeginMsg_send (m : JobBeginMsg) : writer :=
  Msg_send M_JOB_BEGIN ;>
  put_u32 (jb_job_id m) ;>
  put_u32 (jb_stime m) ;>
  when_proto 39 (put_u32 (jb_client_count m)).

Definition JobBeginMsg_fill : reader JobBeginMsg :=
  job_id ← get_u32;
  stime ← get_u32;
  client_count ← if_proto 39 get_u32 0;
  mret (mkJobBeginMsg job_id stime client_count).

Definition FROM_SERVER : Z := 0.
Definition FROM_SUBMITTER : Z := 1.
Definition UnknownJobId : Z := Z.shiftl 1 1.

Record JobDoneMsg : Type := mkJobDoneMsg {
  jd_real_msec : Z; jd_user_msec : Z; jd_sys_msec : Z; jd_pfaults : Z;
  jd_exitcode : Z;
  jd_flags : Z;
  jd_in_compressed : Z; jd_in_uncompressed : Z;
  jd_out_compressed : Z; jd_out_uncompressed : Z;
  jd_job_id : Z;
  jd_client_count : Z
}.

Definition new_JobDoneMsg (id exit flags client_count : Z) : JobDoneMsg :=
  mkJobDoneMsg 0 0 0 0 exit flags 0 0 0 0 (u32 id) client_count.

Definition is_from_server (m : JobDoneMsg) : bool :=
  Z.land (jd_flags m) FROM_SUBMITTER =? 0.

Definition jd_with (flags job_id : Z) (m : JobDoneMsg) : JobDoneMsg :=
  mkJobDoneMsg (jd_real_msec m) (jd_user_msec m) (jd_sys_msec m) (jd_pfaults m)
    (jd_exitcode m) flags (jd_in_compressed m) (jd_in_uncompressed m)
    (jd_out_compressed m) (jd_out_uncompressed m) job_id (jd_client_count m).

Definition set_from (from : Z) (m : JobDoneMsg) : JobDoneMsg :=
  jd_with (Z.lor (jd_flags m) from) (jd_job_id m) m.

Definition set_unknown_job_client_id (clientId : Z) (m : JobDoneMsg) : JobDoneMsg :=
  jd_with (Z.lor (jd_flags m) UnknownJobId) clientId m.

Definition unknown_job_client_id (m : JobDoneMsg) : Z :=
  if negb (Z.land (jd_flags m) UnknownJobId =? 0) then jd_job_id m else 0.

Definition set_job_id (jobId : Z) (m : JobDoneMsg) : JobDoneMsg :=
  jd_with (Z.ldiff (jd_flags m) UnknownJobId) jobId m.

(** [t] is the type of the message: [MonJobDoneMsg] inherits this function. *)
Definition JobDoneMsg_send (t : MsgType) (m : JobDoneMsg) : writer :=
  Msg_send t ;>
  put_u32 (jd_job_id m) ;>
  (fun c =>
    if negb (is_protocol_version 39 c) && negb (Z.land (jd_flags m) UnknownJobId =? 0)
    then put_u32 200 c else put_u32 (u32 (jd_exitcode m)) c) ;>
  put_u32 (jd_real_msec m) ;>
  put_u32 (jd_user_msec m) ;>
  put_u32 (jd_sys_msec m) ;>
  put_u32 (jd_pfaults m) ;>
  put_u32 (jd_in_compressed m) ;>
  put_u32 (jd_in_uncompressed m) ;>
  put_u32 (jd_out_compressed m) ;>
  put_u32 (jd_out_uncompressed m) ;>
  put_u32 (jd_flags m) ;>
  when_proto 39 (put_u32 (jd_client_count m)).

Definition JobDoneMsg_fill (m : JobDoneMsg) : reader JobDoneMsg :=
  job_id ← get_u32;
  exitcode ← get_u32;
  real_msec ← get_u32;
  user_msec ← get_u32;
  sys_msec ← get_u32;
  pfaults ← get_u32;
  in_compressed ← get_u32;
  in_uncompressed ← get_u32;
  out_compressed ← get_u32;
  out_uncompressed ← get_u32;
  flags ← get_u32;
  b39 ← gets (is_protocol_version 39);
  client_count ← if_proto 39 get_u32 (jd_client_count m);
  mret (mkJobDoneMsg real_msec user_msec sys_msec pfaults (i32 exitcode)
    (if negb b39 && (i32 exitcode =? 200) then Z.lor flags UnknownJobId else flags)
    in_compressed in_uncompressed out_compressed out_uncompressed job_id client_count).

Record JobLocalBeginMsg : Type := mkJobLocalBeginMsg {
  jl_outfile : string; jl_stime : Z; jl_id : Z; jl_fulljob : bool; jl_niceness : Z
}.

Definition JobLocalBeginMsg_send (m : JobLocalBeginMsg) : writer :=
  Msg_send M_JOB_LOCAL_BEGIN ;>
  put_u32 (jl_stime m) ;>
  put_str (jl_outfile m) ;>
  put_u32 (jl_id m) ;>
  when_proto 44 (put_u32 (z_of_bool (jl_fulljob m))) ;>
  when_proto 45 (put_u32 (jl_niceness m)).

Definition JobLocalBeginMsg_fill : reader JobLocalBeginMsg :=
  stime ← get_u32;
  outfile ← get_str;
  id ← get_u32;
  full ← if_proto 44 get_u32 0;
  niceness ← if_proto 45 get_u32 0;
  mret (mkJobLocalBeginMsg outfile stime id (negb (full =? 0)) niceness).

Definition JobLocalDoneMsg_send (job_id : Z) : writer :=
  Msg_send M_JOB_LOCAL_DONE ;> put_u32 job_id.

Definition JobLocalDoneMsg_fill : reader Z := get_u32.

(** ** Daemons *)

Record LoginMsg : Type := mkLoginMsg {
  lg_port : Z;
  lg_envs : Environments;
  lg_max_kids : Z;
  lg_noremote : bool;
  lg_chroot_possible : bool;
  lg_nodename : string;
  lg_host_platform : string;
  lg_supported_features : Z
}.

(** [chroot] is what [capng_have_capability] or [geteuid] say. *)
Definition new_LoginMsg (chroot : bool) (myport : Z) (nodename host_platform : string)
    (myfeatures : Z) : LoginMsg :=
  mkLoginMsg myport [] 0 false chroot nodename host_platform myfeatures.

Definition LoginMsg_send (m : LoginMsg) : writer :=
  Msg_send M_LOGIN ;>
  put_u32 (lg_port m) ;>
  put_u32 (lg_max_kids m) ;>
  write_environments (lg_envs m) ;>
  put_str (lg_nodename m) ;>
  put_str (lg_host_platform m) ;>
  put_u32 (z_of_bool (lg_chroot_possible m)) ;>
  when_proto 26 (put_u32 (z_of_bool (lg_noremote m))) ;>
  when_proto 42 (put_u32 (lg_supported_features m)).

Definition LoginMsg_fill : reader LoginMsg :=
  port ← get_u32;
  max_kids ← get_u32;
  envs ← read_environments;
  nodename ← get_str;
  host_platform ← get_str;
  net_chroot_possible ← get_u32;
  net_noremote ← if_proto 26 get_u32 0;
  supported_features ← if_proto 42 get_u32 0;
  mret (mkLoginMsg port envs max_kids (negb (net_noremote =? 0))
    (negb (net_chroot_possible =? 0)) nodename host_platform supported_features).

Record ConfCSMsg : Type := mkConfCSMsg {
  cc_max_scheduler_pong : Z; cc_max_scheduler_ping : Z
}.

Definition MAX_SCHEDULER_PONG (slow_network : bool) : Z :=
  if negb slow_network then 3 else 300.
Definition MAX_SCHEDULER_PING (slow_network : bool) : Z :=
  12 * MAX_SCHEDULER_PONG slow_network.
Definition MAX_BUSY_INSTALLING (slow_network : bool) : Z :=
  if negb slow_network then 120 else 10 * 60 * 60.

Definition new_ConfCSMsg (slow_network : bool) : ConfCSMsg :=
  mkConfCSMsg (MAX_SCHEDULER_PONG slow_network) (MAX_SCHEDULER_PING slow_network).

Definition ConfCSMsg_send (m : ConfCSMsg) : writer :=
  Msg_send M_CS_CONF ;>
  put_u32 (cc_max_scheduler_pong m) ;>
  put_u32 (cc_max_scheduler_ping m) ;>
  put_str "".

Definition ConfCSMsg_fill : reader ConfCSMsg :=
  pong ← get_u32;
  ping ← get_u32;
  bench_source ← get_str;
  mret (mkConfCSMsg pong ping).

Record StatsMsg : Type := mkStatsMsg {
  st_load : Z; st_loadAvg1 : Z; st_loadAvg5 : Z; st_loadAvg10 : Z;
  st_freeMem : Z; st_client_count : Z
}.

Definition StatsMsg_send (m : StatsMsg) : writer :=
  Msg_send M_STATS ;>
  put_u32 (st_load m) ;>
  put_u32 (st_loadAvg1 m) ;>
  put_u32 (st_loadAvg5 m) ;>
  put_u32 (st_loadAvg10 m) ;>
  put_u32 (st_freeMem m).

(** [client_count] is not on the wire: it keeps the 0 of [StatsMsg::StatsMsg]. *)
Definition StatsMsg_fill : reader StatsMsg :=
  load ← get_u32;
  loadAvg1 ← get_u32;
  loadAvg5 ← get_u32;
  loadAvg10 ← get_u32;
  freeMem ← get_u32;
  mret (mkStatsMsg load loadAvg1 loadAvg5 loadAvg10 freeMem 0).

Record GetNativeEnvMsg : Type := mkGetNativeEnvMsg {
  gn_compiler : string; gn_extrafiles : list string; gn_compression : string
}.

Definition GetNativeEnvMsg_send (m : GetNativeEnvMsg) : writer :=
  Msg_send M_GET_NATIVE_ENV ;>
  when_proto 32 (put_str (gn_compiler m) ;> put_list (gn_extrafiles m)) ;>
  when_proto 42 (put_str (gn_compression m)).

Definition GetNativeEnvMsg_fill : reader GetNativeEnvMsg :=
  ce ← if_proto 32 (x ← get_str; y ← get_list; mret (x, y)) (""%string, []);
  compression ← if_proto 42 get_str ""%string;
  mret (mkGetNativeEnvMsg ce.1 ce.2 compression).

Definition UseNativeEnvMsg_send (nativeVersion : string) : writer :=
  Msg_send M_NATIVE_ENV ;> put_str nativeVersion.
Definition UseNativeEnvMsg_fill : reader string := get_str.

Record EnvTransferMsg : Type := mkEnvTransferMsg { et_name : string; et_target : string }.

Definition EnvTransferMsg_send (m : EnvTransferMsg) : writer :=
  Msg_send M_TRANFER_ENV ;> put_str (et_name m) ;> put_str (et_target m).
Definition EnvTransferMsg_fill : reader EnvTransferMsg :=
  name ← get_str; target ← get_str; mret (mkEnvTransferMsg name target).

Record VerifyEnvMsg : Type := mkVerifyEnvMsg { ve_environment : string; ve_target : string }.

Definition VerifyEnvMsg_send (m : VerifyEnvMsg) : writer :=
  Msg_send M_VERIFY_ENV ;> put_str (ve_environment m) ;> put_str (ve_target m).
Definition VerifyEnvMsg_fill : reader VerifyEnvMsg :=
  environment ← get_str; target ← get_str; mret (mkVerifyEnvMsg environment target).

Definition VerifyEnvResultMsg_send (ok : bool) : writer :=
  Msg_send M_VERIFY_ENV_RESULT ;> put_u32 (z_of_bool ok).
Definition VerifyEnvResultMsg_fill : reader bool :=
  read_ok ← get_u32; mret (negb (read_ok =? 0)).

Record BlacklistHostEnvMsg : Type := mkBlacklistHostEnvMsg {
  bh_environment : string; bh_target : string; bh_hostname : string
}.

Definition BlacklistHostEnvMsg_send (m : BlacklistHostEnvMsg) : writer :=
  Msg_send M_BLACKLIST_HOST_ENV ;>
  put_str (bh_environment m) ;> put_str (bh_target m) ;> put_str (bh_hostname m).
Definition BlacklistHostEnvMsg_fill : reader BlacklistHostEnvMsg :=
  environment ← get_str;
  target ← get_str;
  hostname ← get_str;
  mret (mkBlacklistHostEnvMsg environment target hostname).

(** ** Monitors *)

Record MonGetCSMsg : Type := mkMonGetCSMsg {
  mg_base : GetCSMsg; mg_job_id : Z; mg_clientid : Z
}.

(** The constructor with arguments. It passes [m->client_count] and
    [m->niceness] as the last two arguments of [GetCSMsg::GetCSMsg], whose
    order is [..., minimal_host_version, required_features, niceness,
    client_count = 0]. [None] is the failed [assert] of that constructor. *)
Definition new_MonGetCSMsg (jobid hostid : Z) (m : GetCSMsg) : option MonGetCSMsg :=
  b ← new_GetCSMsg [] (gcs_filename m) (gcs_lang m) 1 (gcs_target m) 0 ""
        0 (gcs_client_count m) (i32 (gcs_niceness m)) 0;
  Some (mkMonGetCSMsg b (u32 jobid) (u32 hostid)).

Definition MonGetCSMsg_send (m : MonGetCSMsg) : writer :=
  (fun c =>
    if is_protocol_version 29 c then
      (Msg_send M_MON_GET_CS ;>
       put_str (shorten_filename (gcs_filename (mg_base m))) ;>
       put_u32 (language_value (gcs_lang (mg_base m)))) c
    else GetCSMsg_send M_MON_GET_CS (mg_base m) c) ;>
  put_u32 (mg_job_id m) ;>
  put_u32 (mg_clientid m).

Definition MonGetCSMsg_fill (m : MonGetCSMsg) : reader MonGetCSMsg :=
  b29 ← gets (is_protocol_version 29);
  base ← (if b29 : bool then
            filename ← get_str;
            lang ← get_u32;
            let b := mg_base m in
            mret (mkGetCSMsg (gcs_versions b) filename (language_of lang)
              (gcs_count b) (gcs_target b) (gcs_arg_flags b) (gcs_client_id b)
              (gcs_preferred_host b) (gcs_minimal_host_version b)
              (gcs_required_features b) (gcs_client_count b) (gcs_niceness b))
          else GetCSMsg_fill (mg_base m));
  job_id ← get_u32;
  clientid ← get_u32;
  mret (mkMonGetCSMsg base job_id clientid).

Record MonJobBeginMsg : Type := mkMonJobBeginMsg {
  mb_job_id : Z; mb_stime : Z; mb_hostid : Z
}.

Definition MonJobBeginMsg_send (m : MonJobBeginMsg) : writer :=
  Msg_send M_MON_JOB_BEGIN ;>
  put_u32 (mb_job_id m) ;> put_u32 (mb_stime m) ;> put_u32 (mb_hostid m).
Definition MonJobBeginMsg_fill : reader MonJobBeginMsg :=
  job_id ← get_u32; stime ← get_u32; hostid ← get_u32;
  mret (mkMonJobBeginMsg job_id stime hostid).

Record MonLocalJobBeginMsg : Type := mkMonLocalJobBeginMsg {
  ml_job_id : Z; ml_stime : Z; ml_hostid : Z; ml_file : string
}.

Definition MonLocalJobBeginMsg_send (m : MonLocalJobBeginMsg) : writer :=
  Msg_send M_MON_LOCAL_JOB_BEGIN ;>
  put_u32 (ml_hostid m) ;> put_u32 (ml_job_id m) ;> put_u32 (ml_stime m) ;>
  put_str (shorten_filename (ml_file m)).
Definition MonLocalJobBeginMsg_fill : reader MonLocalJobBeginMsg :=
  hostid ← get_u32; job_id ← get_u32; stime ← get_u32; file ← get_str;
  mret (mkMonLocalJobBeginMsg job_id stime hostid file).

Record MonStatsMsg : Type := mkMonStatsMsg { ms_hostid : Z; ms_statmsg : string }.

Definition MonStatsMsg_send (m : MonStatsMsg) : writer :=
  Msg_send M_MON_STATS ;> put_u32 (ms_hostid m) ;> put_str (ms_statmsg m).
Definition MonStatsMsg_fill : reader MonStatsMsg :=
  hostid ← get_u32; statmsg ← get_str; mret (mkMonStatsMsg hostid statmsg).

Definition StatusTextMsg_send (text : string) : writer :=
  Msg_send M_STATUS_TEXT ;> put_str text.
Definition StatusTextMsg_fill : reader string := get_str.

(** ** The sum of the classes *)

Inductive Msg : Type :=
| PingMsg | EndMsg
| GetCS (m : GetCSMsg)
| UseCS (m : UseCSMsg)
| NoCS (m : NoCSMsg)
| GetNativeEnv (m : GetNativeEnvMsg)
| UseNativeEnv (nativeVersion : string)
| CompileFile (job : CompileJob)
| FileChunk (m : FileChunkMsg)
| CompileResult (m : CompileResultMsg)
| JobBegin (m : JobBeginMsg)
| JobDone (m : JobDoneMsg)
| JobLocalBegin (m : JobLocalBeginMsg)
| JobLocalDone (job_id : Z)
| Login (m : LoginMsg)
| ConfCS (m : ConfCSMsg)
| Stats (m : StatsMsg)
| EnvTransfer (m : EnvTransferMsg)
| GetInternalStatus
| MonLogin
| MonGetCS (m : MonGetCSMsg)
| MonJobBegin (m : MonJobBeginMsg)
| MonJobDone (m : JobDoneMsg)
| MonLocalJobBegin (m : MonLocalJobBeginMsg)
| MonStats (m : MonStatsMsg)
| Text (text : string)
| StatusText (text : string)
| VerifyEnv (m : VerifyEnvMsg)
| VerifyEnvResult (ok : bool)
| BlacklistHostEnv (m : BlacklistHostEnvMsg).

Definition msg_type (m : Msg) : MsgType :=
  match m with
  | PingMsg => M_PING | EndMsg => M_END | GetCS _ => M_GET_CS
  | UseCS _ => M_USE_CS | NoCS _ => M_NO_CS | GetNativeEnv _ => M_GET_NATIVE_ENV
  | UseNativeEnv _ => M_NATIVE_ENV | CompileFile _ => M_COMPILE_FILE
  | FileChunk _ => M_FILE_CHUNK | CompileResult _ => M_COMPILE_RESULT
  | JobBegin _ => M_JOB_BEGIN | JobDone _ => M_JOB_DONE
  | JobLocalBegin _ => M_JOB_LOCAL_BEGIN | JobLocalDone _ => M_JOB_LOCAL_DONE
  | Login _ => M_LOGIN | ConfCS _ => M_CS_CONF | Stats _ => M_STATS
  | EnvTransfer _ => M_TRANFER_ENV | GetInternalStatus => M_GET_INTERNALS
  | MonLogin => M_MON_LOGIN | MonGetCS _ => M_MON_GET_CS
  | MonJobBegin _ => M_MON_JOB_BEGIN | MonJobDone _ => M_MON_JOB_DONE
  | MonLocalJobBegin _ => M_MON_LOCAL_JOB_BEGIN | MonStats _ => M_MON_STATS
  | Text _ => M_TEXT | StatusText _ => M_STATUS_TEXT
  | VerifyEnv _ => M_VERIFY_ENV | VerifyEnvResult _ => M_VERIFY_ENV_RESULT
  | BlacklistHostEnv _ => M_BLACKLIST_HOST_ENV
  end.

Section dispatch.
Context `{Compressors}.
(** [determine_platform()], the platform of the receiving host. *)
Context (platform : string).

(** The virtual [send_to_channel]. *)
Definition msg_send (m : Msg) : reader unit :=
  match m with
  | Text text => write_line text
  | PingMsg => modify (Msg_send M_PING)
  | EndMsg => modify (Msg_send M_END)
  | GetInternalStatus => modify (Msg_send M_GET_INTERNALS)
  | MonLogin => modify (Msg_send M_MON_LOGIN)
  | GetCS m => modify (GetCSMsg_send M_GET_CS m)
  | UseCS m => modify (UseCSMsg_send m)
  | NoCS m => modify (NoCSMsg_send m)
  | GetNativeEnv m => modify (GetNativeEnvMsg_send m)
  | UseNativeEnv v => modify (UseNativeEnvMsg_send v)
  | CompileFile j => modify (CompileFileMsg_send j)
  | FileChunk m => modify (FileChunkMsg_send m)
  | CompileResult m => modify (CompileResultMsg_send m)
  | JobBegin m => modify (JobBeginMsg_send m)
  | JobDone m => modify (JobDoneMsg_send M_JOB_DONE m)
  | JobLocalBegin m => modify (JobLocalBeginMsg_send m)
  | JobLocalDone id => modify (JobLocalDoneMsg_send id)
  | Login m => modify (LoginMsg_send m)
  | ConfCS m => modify (ConfCSMsg_send m)
  | Stats m => modify (StatsMsg_send m)
  | EnvTransfer m => modify (EnvTransferMsg_send m)
  | MonGetCS m => modify (MonGetCSMsg_send m)
  | MonJobBegin m => modify (MonJobBeginMsg_send m)
  | MonJobDone m => modify (JobDoneMsg_send M_MON_JOB_DONE m)
  | MonLocalJobBegin m => modify (MonLocalJobBeginMsg_send m)
  | MonStats m => modify (MonStatsMsg_send m)
  | StatusText t => modify (StatusTextMsg_send t)
  | VerifyEnv m => modify (VerifyEnvMsg_send m)
  | VerifyEnvResult b => modify (VerifyEnvResultMsg_send b)
  | BlacklistHostEnv m => modify (BlacklistHostEnvMsg_send m)
  end.

(** [switch (type) ... m->fill_from_channel(this)] of [MsgChannel::get_msg]:
    the object is created for the type and filled; [None] when the type has
    no class. *)
Definition msg_fill (set_error : reader unit) (t : MsgType) : option (reader Msg) :=
  match t with
  | M_UNKNOWN | M_TIMEOUT => None
  | M_PING => Some (mret PingMsg)
  | M_END => Some (mret EndMsg)
  | M_GET_INTERNALS => Some (mret GetInternalStatus)
  | M_MON_LOGIN => Some (mret MonLogin)
  | M_GET_CS => Some (GetCS <$> GetCSMsg_fill default_GetCSMsg)
  | M_USE_CS => Some (UseCS <$> UseCSMsg_fill)
  | M_NO_CS => Some (NoCS <$> NoCSMsg_fill)
  | M_GET_NATIVE_ENV => Some (GetNativeEnv <$> GetNativeEnvMsg_fill)
  | M_NATIVE_ENV => Some (UseNativeEnv <$> UseNativeEnvMsg_fill)
  | M_COMPILE_FILE => Some (CompileFile <$> CompileFileMsg_fill (new_CompileJob platform))
  | M_FILE_CHUNK => Some (FileChunk <$> FileChunkMsg_fill set_error)
  | M_COMPILE_RESULT => Some (CompileResult <$> CompileResultMsg_fill)
  | M_JOB_BEGIN => Some (JobBegin <$> JobBeginMsg_fill)
  | M_JOB_DONE => Some (JobDone <$> JobDoneMsg_fill (new_JobDoneMsg 0 (-1) FROM_SERVER 0))
  | M_JOB_LOCAL_BEGIN => Some (JobLocalBegin <$> JobLocalBeginMsg_fill)
  | M_JOB_LOCAL_DONE => Some (JobLocalDone <$> JobLocalDoneMsg_fill)
  | M_LOGIN => Some (Login <$> LoginMsg_fill)
  | M_CS_CONF => Some (ConfCS <$> ConfCSMsg_fill)
  | M_STATS => Some (Stats <$> StatsMsg_fill)
  | M_TRANFER_ENV => Some (EnvTransfer <$> EnvTransferMsg_fill)
  | M_MON_GET_CS => Some (MonGetCS <$> MonGetCSMsg_fill (mkMonGetCSMsg default_GetCSMsg 0 0))
  | M_MON_JOB_BEGIN => Some (MonJobBegin <$> MonJobBeginMsg_fill)
  | M_MON_JOB_DONE => Some (MonJobDone <$> JobDoneMsg_fill (new_JobDoneMsg 0 (-1) FROM_SERVER 0))
  | M_MON_LOCAL_JOB_BEGIN => Some (MonLocalJobBegin <$> MonLocalJobBeginMsg_fill)
  | M_MON_STATS => Some (MonStats <$> MonStatsMsg_fill)
  | M_TEXT => Some (Text <$> read_line)
  | M_STATUS_TEXT => Some (StatusText <$> StatusTextMsg_fill)
  | M_VERIFY_ENV => Some (VerifyEnv <$> VerifyEnvMsg_fill)
  | M_VERIFY_ENV_RESULT => Some (VerifyEnvResult <$> VerifyEnvResultMsg_fill)
  | M_BLACKLIST_HOST_ENV => Some (BlacklistHostEnv <$> BlacklistHostEnvMsg_fill)
  end.
End dispatch.
