(* ===== verification/Files.v ===== *)
(** * Files that are read and sent

    Reading a file in pieces, which the client and the server do alike: a file is
    the list of what [read] got, [None] for an error; behind the list is its end. *)

From Stdlib Require Import ZArith Lia.
From Stdlib Require Import Strings.Byte Strings.String.
From stdpp Require Import base tactics option list.
From S2P Require Import Prelude MsgChannel Msg.

#[local] Open Scope Z_scope.

(** The buffer of both sides. *)
Definition chunk_size : Z := 100000.

(** What [read] gives to a buffer with some room, and what is left. *)
Definition read_some (room : Z) (reads : list (option (list byte)))
  : option (list byte) * list (option (list byte)) :=
  match reads with
  | [] => (Some [], [])
  | None :: reads => (None, reads)
  | Some bs :: reads =>
      if Z.of_nat (length bs) <=? room then (Some bs, reads)
      else (Some (take (Z.to_nat room) bs), Some (drop (Z.to_nat room) bs) :: reads)
  end.

(** Every round but the last one takes a byte or an answer. *)
Definition reads_size (reads : list (option (list byte))) : nat :=
  sum_list_with (fun r => S (length (default [] r))) reads.
(** What a file holds, for one that is read without an error. *)
Fixpoint file_data (reads : list (option (list byte))) : list byte :=
  match reads with
  | Some bs :: reads => if bool_decide (bs = []) then [] else bs ++ file_data reads
  | _ => []
  end.

Definition chunk (bs : list byte) : Msg :=
  FileChunk (mkFileChunkMsg (Some bs) (Z.of_nat (length bs)) 0).

(** A read takes from the front of the file. *)
Lemma read_some_data room reads bs reads' :
  0 < room -> read_some room reads = (Some bs, reads') ->
  Z.of_nat (length bs) <= room /\
  (bs = [] -> file_data reads = []) /\ (bs <> [] -> file_data reads = bs ++ file_data reads') /\
  (bs <> [] -> (reads_size reads' < reads_size reads)%nat).
Proof.
  intros Hr E. destruct reads as [|[b|] reads]; cbn in E; [simplify_eq; cbn; split_and!; (done || lia)| |discriminate E].
  destruct (Z.of_nat (length b) <=? room) eqn:El; boolify; simplify_eq.
  - cbn. split; [done|]. split_and!.
    + by intros ->.
    + intros Hb. by rewrite bool_decide_eq_false_2.
    + unfold reads_size. cbn. lia.
  - assert (drop (Z.to_nat room) b <> []) as Hd by (intros E; apply (f_equal length) in E;
      rewrite length_drop in E; cbn in E; lia).
    assert (b <> []) as Hb by (intros ->; destruct Hd; apply drop_nil).
    split; [rewrite length_take; lia|]. split_and!.
    + intros E. apply (f_equal length) in E. rewrite length_take in E. cbn in E. lia.
    + intros _. cbn. rewrite !bool_decide_eq_false_2 by done. by rewrite app_assoc, take_drop.
    + intros _. unfold reads_size. cbn. rewrite length_drop. lia.
Qed.

(** ** What a chunk carries *)

Definition payload (m : FileChunkMsg) : list byte :=
  take (Z.to_nat (fc_len m)) (default [] (fc_buffer m)).

Lemma chunk_data_payload m d : chunk_data m = Ok (Some d) -> payload m = d.
Proof.
  unfold chunk_data, payload. destruct (fc_buffer m) as [b|]; case_goal; intros E; simplify_eq;
    [done|apply take_nil].
Qed.

Lemma payload_chunk bs : payload (mkFileChunkMsg (Some bs) (Z.of_nat (length bs)) 0) = bs.
Proof. unfold payload. cbn. by rewrite Nat2Z.id, firstn_all. Qed.
