(* ===== verification/MsgCodec.v ===== *)
(** * What the receiver makes of a message

    For every message class: [..._ok], the messages whose fields survive the
    wire (words of 32 bits, strings without NUL); [..._view p], the message
    the receiver obtains on a connection of protocol [p] (fields older
    protocols do not carry get their default value, file names are
    shortened); and the proof that [..._send] and [..._fill] are a codec for
    that view. [msg_codec_ok] puts the classes together. *)

From Stdlib Require Import ZArith Lia.
From Stdlib Require Import Strings.Byte Strings.String.
From stdpp Require Import base tactics option list strings.
From S2P Require Import Prelude MsgChannel CompileJob Msg.

#[local] Open Scope Z_scope.

(** ** Codecs of messages *)

Definition msg_codec {A} (p : Z) (t : MsgType) (w : writer) (r : reader A) (a : A) : Prop :=
  exists bs, emits p w (be32 (msgtype_code t) ++ bs) /\ reads p r bs a.

Lemma codec_eq {A} p w (r : reader A) a a' : codec p w r a -> a = a' -> codec p w r a'.
Proof. by intros H <-. Qed.

Lemma emits_type p t : emits p (Msg_send t) (be32 (msgtype_code t)).
Proof.
  intros c Hok Hp Ht. unfold Msg_send. rewrite Ht. by apply (emits_writefull p).
Qed.

Lemma msg_codec_intro {A} p t w (r : reader A) a :
  codec p w r a -> msg_codec p t (Msg_send t ;> w) r a.
Proof.
  intros (bs & E & R). exists bs. split; [|done].
  apply emits_seq; [apply emits_type | done].
Qed.

Lemma msg_codec_bare {A} p t (a : A) : msg_codec p t (Msg_send t) (mret a) a.
Proof.
  exists []. split; [|apply reads_ret]. rewrite app_nil_r. apply emits_type.
Qed.

Lemma msg_codec_fmap {A B} p t w (r : reader A) a (f : A -> B) :
  msg_codec p t w r a -> msg_codec p t w (f <$> r) (f a).
Proof.
  intros (bs & E & R). exists bs. split; [done|].
  intros c rest Hp Hu. unfold fmap, M_fmap. by rewrite (R c rest Hp Hu).
Qed.

(** A writer that looks at the protocol once. *)
Lemma emits_dep p x (W : bool -> writer) bs :
  emits p (W (x <=? p)) bs -> emits p (fun c => W (is_protocol_version x c) c) bs.
Proof.
  intros H c Hok Hp Ht. unfold is_protocol_version. rewrite Hp. by apply H.
Qed.

Lemma codec_dep {A} p x (W : bool -> writer) (r : reader A) a :
  codec p (W (x <=? p)) r a -> codec p (fun c => W (is_protocol_version x c) c) r a.
Proof. intros (bs & E & R). exists bs. split; [by apply emits_dep | done]. Qed.

Lemma reads_dep {A} p x (R : bool -> reader A) bs a :
  reads p (R (x <=? p)) bs a -> reads p (b ← gets (is_protocol_version x); R b) bs a.
Proof.
  intros H. rewrite <- (app_nil_l bs). eapply reads_bind; [apply reads_gets_proto | done].
Qed.

Lemma codec_gets {A} p x w (R : bool -> reader A) a :
  codec p w (R (x <=? p)) a -> codec p w (b ← gets (is_protocol_version x); R b) a.
Proof. intros (bs & E & H). exists bs. split; [done | by apply reads_dep]. Qed.

(** Splits the validity of a message into the validity of its fields, then
    runs the codec. *)
Ltac codec_msg :=
  intros; boolify;
  apply msg_codec_intro; eapply codec_eq; [codec_auto | cbn].

(** The default of a field on a connection of protocol [p]. *)
Definition since {A} (p x : Z) (a d : A) : A := if x <=? p then a else d.

(** ** The classes *)

Definition GetCSMsg_ok (m : GetCSMsg) : bool :=
  wire_envs (gcs_versions m) && wire_string (shorten_filename (gcs_filename m)) &&
  language_ok (gcs_lang m) && is_u32 (gcs_count m) && wire_string (gcs_target m) &&
  is_u32 (gcs_arg_flags m) && is_u32 (gcs_client_id m) &&
  wire_string (gcs_preferred_host m) && is_i32 (gcs_minimal_host_version m) &&
  is_u32 (gcs_client_count m) && is_u32 (gcs_required_features m) &&
  is_u32 (gcs_niceness m).

(** The minimal host version a peer of protocol [p] is told about. *)
Definition version_view (p v : Z) : Z :=
  if 34 <=? p then Z.max 0 v else if (31 <=? p) && (31 <=? v) then 31 else 0.

Definition GetCSMsg_view (p : Z) (m : GetCSMsg) : GetCSMsg :=
  mkGetCSMsg (gcs_versions m) (shorten_filename (gcs_filename m)) (gcs_lang m)
    (gcs_count m) (gcs_target m) (gcs_arg_flags m) (gcs_client_id m)
    (since p 22 (gcs_preferred_host m) ""%string)
    (version_view p (gcs_minimal_host_version m))
    (since p 42 (gcs_required_features m) 0)
    (since p 39 (gcs_client_count m) 0) (since p 43 (gcs_niceness m) 0).

Lemma version_view_fill p v :
  is_i32 v = true ->
  Z.max (if negb ((if 31 <=? p then if 31 <=? v then 1 else 0 else 0) =? 0) then 31 else 0)
    (i32 (if 34 <=? p then u32 v else 0)) = version_view p v.
Proof.
  intros Hv. unfold version_view.
  destruct (34 <=? p) eqn:E34; destruct (31 <=? p) eqn:E31; destruct (31 <=? v) eqn:Ev;
    cbn [negb Z.eqb andb]; rewrite ?(i32_u32 v Hv); change (i32 0) with 0;
    boolify; lia.
Qed.

Lemma GetCSMsg_codec p t m :
  GetCSMsg_ok m = true ->
  msg_codec p t (GetCSMsg_send t m) (GetCSMsg_fill default_GetCSMsg) (GetCSMsg_view p m).
Proof.
  unfold GetCSMsg_ok, language_ok. codec_msg.
  unfold GetCSMsg_view. rewrite version_view_fill by done.
  rewrite language_roundtrip by (unfold language_ok; by rewrite andb_true_iff).
  done.
Qed.

Definition UseCSMsg_ok (m : UseCSMsg) : bool :=
  is_u32 (ucs_job_id m) &&
  is_u32 (ucs_port m) &&
  wire_string (ucs_hostname m) &&
  wire_string (ucs_host_platform m) &&
  is_u32 (ucs_got_env m) &&
  is_u32 (ucs_client_id m) &&
  is_u32 (ucs_matched_job_id m).

Definition UseCSMsg_view (p : Z) (m : UseCSMsg) : UseCSMsg :=
  mkUseCSMsg (ucs_job_id m) (ucs_hostname m) (ucs_port m) (ucs_host_platform m)
    (ucs_got_env m) (ucs_client_id m) (since p 28 (ucs_matched_job_id m) 0).

Lemma UseCSMsg_codec p m :
  UseCSMsg_ok m = true ->
  msg_codec p M_USE_CS (UseCSMsg_send m) UseCSMsg_fill (UseCSMsg_view p m).
Proof.
  unfold UseCSMsg_ok. codec_msg. done.
Qed.

Definition NoCSMsg_ok (m : NoCSMsg) : bool :=
  is_u32 (ncs_job_id m) &&
  is_u32 (ncs_client_id m).

Lemma NoCSMsg_codec p m :
  NoCSMsg_ok m = true ->
  msg_codec p M_NO_CS (NoCSMsg_send m) NoCSMsg_fill m.
Proof.
  unfold NoCSMsg_ok. codec_msg. by destruct m.
Qed.

Definition CompileResultMsg_ok (m : CompileResultMsg) : bool :=
  wire_string (cr_err m) &&
  wire_string (cr_out m) &&
  is_i32 (cr_status m).

Definition CompileResultMsg_view (p : Z) (m : CompileResultMsg) : CompileResultMsg :=
  mkCompileResultMsg (cr_status m) (cr_out m) (cr_err m) (cr_was_out_of_memory m)
    (since p 35 (cr_have_dwo_file m) false).

Lemma CompileResultMsg_codec p m :
  CompileResultMsg_ok m = true ->
  msg_codec p M_COMPILE_RESULT (CompileResultMsg_send m) CompileResultMsg_fill (CompileResultMsg_view p m).
Proof.
  unfold CompileResultMsg_ok. codec_msg. unfold CompileResultMsg_view, since.
  rewrite i32_u32, z_of_bool_back by done.
  by case_match; rewrite ?z_of_bool_back.
Qed.

Definition JobBeginMsg_ok (m : JobBeginMsg) : bool :=
  is_u32 (jb_job_id m) &&
  is_u32 (jb_stime m) &&
  is_u32 (jb_client_count m).

Definition JobBeginMsg_view (p : Z) (m : JobBeginMsg) : JobBeginMsg :=
  mkJobBeginMsg (jb_job_id m) (jb_stime m) (since p 39 (jb_client_count m) 0).

Lemma JobBeginMsg_codec p m :
  JobBeginMsg_ok m = true ->
  msg_codec p M_JOB_BEGIN (JobBeginMsg_send m) JobBeginMsg_fill (JobBeginMsg_view p m).
Proof.
  unfold JobBeginMsg_ok. codec_msg. done.
Qed.

Definition JobLocalBeginMsg_ok (m : JobLocalBeginMsg) : bool :=
  is_u32 (jl_stime m) &&
  wire_string (jl_outfile m) &&
  is_u32 (jl_id m) &&
  is_u32 (jl_niceness m).

Definition JobLocalBeginMsg_view (p : Z) (m : JobLocalBeginMsg) : JobLocalBeginMsg :=
  mkJobLocalBeginMsg (jl_outfile m) (jl_stime m) (jl_id m)
    (since p 44 (jl_fulljob m) false) (since p 45 (jl_niceness m) 0).

Lemma JobLocalBeginMsg_codec p m :
  JobLocalBeginMsg_ok m = true ->
  msg_codec p M_JOB_LOCAL_BEGIN (JobLocalBeginMsg_send m) JobLocalBeginMsg_fill (JobLocalBeginMsg_view p m).
Proof.
  unfold JobLocalBeginMsg_ok. codec_msg. unfold JobLocalBeginMsg_view, since.
  by destruct (44 <=? p); rewrite ?z_of_bool_back.
Qed.

Definition LoginMsg_ok (m : LoginMsg) : bool :=
  is_u32 (lg_port m) &&
  is_u32 (lg_max_kids m) &&
  wire_envs (lg_envs m) &&
  wire_string (lg_nodename m) &&
  wire_string (lg_host_platform m) &&
  is_u32 (lg_supported_features m).

Definition LoginMsg_view (p : Z) (m : LoginMsg) : LoginMsg :=
  mkLoginMsg (lg_port m) (lg_envs m) (lg_max_kids m) (since p 26 (lg_noremote m) false)
    (lg_chroot_possible m) (lg_nodename m) (lg_host_platform m)
    (since p 42 (lg_supported_features m) 0).

Lemma LoginMsg_codec p m :
  LoginMsg_ok m = true ->
  msg_codec p M_LOGIN (LoginMsg_send m) LoginMsg_fill (LoginMsg_view p m).
Proof.
  unfold LoginMsg_ok. codec_msg. unfold LoginMsg_view, since.
  rewrite z_of_bool_back. by destruct (26 <=? p); rewrite ?z_of_bool_back.
Qed.

Definition ConfCSMsg_ok (m : ConfCSMsg) : bool :=
  is_u32 (cc_max_scheduler_pong m) &&
  is_u32 (cc_max_scheduler_ping m).

Lemma ConfCSMsg_codec p m :
  ConfCSMsg_ok m = true ->
  msg_codec p M_CS_CONF (ConfCSMsg_send m) ConfCSMsg_fill m.
Proof.
  unfold ConfCSMsg_ok. codec_msg. by destruct m.
Qed.

Definition StatsMsg_ok (m : StatsMsg) : bool :=
  is_u32 (st_load m) &&
  is_u32 (st_loadAvg1 m) &&
  is_u32 (st_loadAvg5 m) &&
  is_u32 (st_loadAvg10 m) &&
  is_u32 (st_freeMem m).

Definition StatsMsg_view (p : Z) (m : StatsMsg) : StatsMsg :=
  mkStatsMsg (st_load m) (st_loadAvg1 m) (st_loadAvg5 m) (st_loadAvg10 m)
    (st_freeMem m) 0.

Lemma StatsMsg_codec p m :
  StatsMsg_ok m = true ->
  msg_codec p M_STATS (StatsMsg_send m) StatsMsg_fill (StatsMsg_view p m).
Proof.
  unfold StatsMsg_ok. codec_msg. done.
Qed.

Definition GetNativeEnvMsg_ok (m : GetNativeEnvMsg) : bool :=
  wire_string (gn_compiler m) &&
  wire_list (gn_extrafiles m) &&
  wire_string (gn_compression m).

Definition GetNativeEnvMsg_view (p : Z) (m : GetNativeEnvMsg) : GetNativeEnvMsg :=
  mkGetNativeEnvMsg (since p 32 (gn_compiler m) ""%string)
    (since p 32 (gn_extrafiles m) []) (since p 42 (gn_compression m) ""%string).

Lemma GetNativeEnvMsg_codec p m :
  GetNativeEnvMsg_ok m = true ->
  msg_codec p M_GET_NATIVE_ENV (GetNativeEnvMsg_send m) GetNativeEnvMsg_fill (GetNativeEnvMsg_view p m).
Proof.
  unfold GetNativeEnvMsg_ok. codec_msg. unfold GetNativeEnvMsg_view, since.
  by destruct (32 <=? p).
Qed.

Definition EnvTransferMsg_ok (m : EnvTransferMsg) : bool :=
  wire_string (et_name m) &&
  wire_string (et_target m).

Lemma EnvTransferMsg_codec p m :
  EnvTransferMsg_ok m = true ->
  msg_codec p M_TRANFER_ENV (EnvTransferMsg_send m) EnvTransferMsg_fill m.
Proof.
  unfold EnvTransferMsg_ok. codec_msg. by destruct m.
Qed.

Definition VerifyEnvMsg_ok (m : VerifyEnvMsg) : bool :=
  wire_string (ve_environment m) &&
  wire_string (ve_target m).

Lemma VerifyEnvMsg_codec p m :
  VerifyEnvMsg_ok m = true ->
  msg_codec p M_VERIFY_ENV (VerifyEnvMsg_send m) VerifyEnvMsg_fill m.
Proof.
  unfold VerifyEnvMsg_ok. codec_msg. by destruct m.
Qed.

Definition BlacklistHostEnvMsg_ok (m : BlacklistHostEnvMsg) : bool :=
  wire_string (bh_environment m) &&
  wire_string (bh_target m) &&
  wire_string (bh_hostname m).

Lemma BlacklistHostEnvMsg_codec p m :
  BlacklistHostEnvMsg_ok m = true ->
  msg_codec p M_BLACKLIST_HOST_ENV (BlacklistHostEnvMsg_send m) BlacklistHostEnvMsg_fill m.
Proof.
  unfold BlacklistHostEnvMsg_ok. codec_msg. by destruct m.
Qed.

Definition MonJobBeginMsg_ok (m : MonJobBeginMsg) : bool :=
  is_u32 (mb_job_id m) &&
  is_u32 (mb_stime m) &&
  is_u32 (mb_hostid m).

Lemma MonJobBeginMsg_codec p m :
  MonJobBeginMsg_ok m = true ->
  msg_codec p M_MON_JOB_BEGIN (MonJobBeginMsg_send m) MonJobBeginMsg_fill m.
Proof.
  unfold MonJobBeginMsg_ok. codec_msg. by destruct m.
Qed.

Definition MonLocalJobBeginMsg_ok (m : MonLocalJobBeginMsg) : bool :=
  is_u32 (ml_hostid m) &&
  is_u32 (ml_job_id m) &&
  is_u32 (ml_stime m) &&
  wire_string (shorten_filename (ml_file m)).

Definition MonLocalJobBeginMsg_view (p : Z) (m : MonLocalJobBeginMsg) : MonLocalJobBeginMsg :=
  mkMonLocalJobBeginMsg (ml_job_id m) (ml_stime m) (ml_hostid m)
    (shorten_filename (ml_file m)).

Lemma MonLocalJobBeginMsg_codec p m :
  MonLocalJobBeginMsg_ok m = true ->
  msg_codec p M_MON_LOCAL_JOB_BEGIN (MonLocalJobBeginMsg_send m) MonLocalJobBeginMsg_fill (MonLocalJobBeginMsg_view p m).
Proof.
  unfold MonLocalJobBeginMsg_ok. codec_msg. done.
Qed.

Definition MonStatsMsg_ok (m : MonStatsMsg) : bool :=
  is_u32 (ms_hostid m) &&
  wire_string (ms_statmsg m).

Lemma MonStatsMsg_codec p m :
  MonStatsMsg_ok m = true ->
  msg_codec p M_MON_STATS (MonStatsMsg_send m) MonStatsMsg_fill m.
Proof.
  unfold MonStatsMsg_ok. codec_msg. by destruct m.
Qed.

(** Messages of one field. *)
Lemma UseNativeEnvMsg_codec p s :
  wire_string s = true -> msg_codec p M_NATIVE_ENV (UseNativeEnvMsg_send s) UseNativeEnvMsg_fill s.
Proof. intros. apply msg_codec_intro. eauto with icc. Qed.

Lemma StatusTextMsg_codec p s :
  wire_string s = true -> msg_codec p M_STATUS_TEXT (StatusTextMsg_send s) StatusTextMsg_fill s.
Proof. intros. apply msg_codec_intro. eauto with icc. Qed.

Lemma JobLocalDoneMsg_codec p n :
  is_u32 n = true -> msg_codec p M_JOB_LOCAL_DONE (JobLocalDoneMsg_send n) JobLocalDoneMsg_fill n.
Proof. intros. apply msg_codec_intro. eauto with icc. Qed.

Lemma VerifyEnvResultMsg_codec p b :
  msg_codec p M_VERIFY_ENV_RESULT (VerifyEnvResultMsg_send b) VerifyEnvResultMsg_fill b.
Proof. apply msg_codec_intro. eapply codec_eq; [codec_auto | by destruct b]. Qed.

(** *** Job results *)

Definition JobDoneMsg_ok (m : JobDoneMsg) : bool :=
  is_u32 (jd_job_id m) && is_i32 (jd_exitcode m) && is_u32 (jd_real_msec m) &&
  is_u32 (jd_user_msec m) && is_u32 (jd_sys_msec m) && is_u32 (jd_pfaults m) &&
  is_u32 (jd_in_compressed m) && is_u32 (jd_in_uncompressed m) &&
  is_u32 (jd_out_compressed m) && is_u32 (jd_out_uncompressed m) &&
  is_u32 (jd_flags m) && is_u32 (jd_client_count m).

(** Before protocol 39 a result of a job without an id travels as exit code
    200, and so every exit code 200 is taken for one. *)
Definition exitcode_view (p : Z) (m : JobDoneMsg) : Z :=
  if negb (39 <=? p) && negb (Z.land (jd_flags m) UnknownJobId =? 0) then 200
  else jd_exitcode m.

Definition JobDoneMsg_view (p : Z) (m : JobDoneMsg) : JobDoneMsg :=
  mkJobDoneMsg (jd_real_msec m) (jd_user_msec m) (jd_sys_msec m) (jd_pfaults m)
    (exitcode_view p m)
    (if negb (39 <=? p) && (exitcode_view p m =? 200)
     then Z.lor (jd_flags m) UnknownJobId else jd_flags m)
    (jd_in_compressed m) (jd_in_uncompressed m) (jd_out_compressed m)
    (jd_out_uncompressed m) (jd_job_id m) (since p 39 (jd_client_count m) 0).

Lemma exitcode_codec p m :
  is_i32 (jd_exitcode m) = true ->
  codec p (fun c =>
    if negb (is_protocol_version 39 c) && negb (Z.land (jd_flags m) UnknownJobId =? 0)
    then put_u32 200 c else put_u32 (u32 (jd_exitcode m)) c)
    get_u32 (u32 (exitcode_view p m)).
Proof.
  intros He. unfold exitcode_view.
  apply (codec_dep p 39 (fun b c =>
    if negb b && negb (Z.land (jd_flags m) UnknownJobId =? 0)
    then put_u32 200 c else put_u32 (u32 (jd_exitcode m)) c)).
  case_match; [by apply (codec_u32 p 200) | apply codec_u32, is_u32_u32].
Qed.

Lemma JobDoneMsg_codec p t m :
  JobDoneMsg_ok m = true ->
  msg_codec p t (JobDoneMsg_send t m)
    (JobDoneMsg_fill (new_JobDoneMsg 0 (-1) FROM_SERVER 0)) (JobDoneMsg_view p m).
Proof.
  unfold JobDoneMsg_ok. intros. boolify. apply msg_codec_intro.
  assert (is_i32 (exitcode_view p m) = true) as He
    by (unfold exitcode_view; case_match; done).
  eapply codec_eq.
  - eapply codec_bind; [eauto with icc | cbv beta].
    eapply codec_bind; [by apply exitcode_codec | cbv beta].
    do 9 (eapply codec_bind; [solve [eauto with icc] | cbv beta]).
    apply codec_gets. codec_auto.
  - unfold JobDoneMsg_view, since. by rewrite i32_u32.
Qed.

(** *** Monitors' copies of requests *)

Definition MonGetCSMsg_ok (m : MonGetCSMsg) : bool :=
  GetCSMsg_ok (mg_base m) && is_u32 (mg_job_id m) && is_u32 (mg_clientid m).

Definition MonGetCSMsg_view (p : Z) (m : MonGetCSMsg) : MonGetCSMsg :=
  let d := default_GetCSMsg in
  mkMonGetCSMsg
    (if 29 <=? p then
       mkGetCSMsg (gcs_versions d) (shorten_filename (gcs_filename (mg_base m)))
         (gcs_lang (mg_base m)) (gcs_count d) (gcs_target d) (gcs_arg_flags d)
         (gcs_client_id d) (gcs_preferred_host d) (gcs_minimal_host_version d)
         (gcs_required_features d) (gcs_client_count d) (gcs_niceness d)
     else GetCSMsg_view p (mg_base m))
    (mg_job_id m) (mg_clientid m).

Lemma msg_codec_rest {A B} p t w1 w2 (r : reader A) (k : A -> reader B) a b :
  msg_codec p t w1 r a -> codec p w2 (k a) b -> msg_codec p t (w1 ;> w2) (r ≫= k) b.
Proof.
  intros (b1 & E1 & R1) (b2 & E2 & R2). exists (b1 ++ b2).
  split; [rewrite app_assoc; by apply emits_seq | by eapply reads_bind].
Qed.

Lemma msg_codec_dep {A} p x t (W : bool -> writer) (r : reader A) a :
  msg_codec p t (W (x <=? p)) r a ->
  msg_codec p t (fun c => W (is_protocol_version x c) c) r a.
Proof. intros (bs & E & R). exists bs. split; [by apply emits_dep | done]. Qed.

Lemma msg_codec_gets {A} p x t w (R : bool -> reader A) a :
  msg_codec p t w (R (x <=? p)) a ->
  msg_codec p t w (b ← gets (is_protocol_version x); R b) a.
Proof. intros (bs & E & H). exists bs. split; [done | by apply reads_dep]. Qed.

Lemma MonGetCSMsg_codec p m :
  MonGetCSMsg_ok m = true ->
  msg_codec p M_MON_GET_CS (MonGetCSMsg_send m)
    (MonGetCSMsg_fill (mkMonGetCSMsg default_GetCSMsg 0 0)) (MonGetCSMsg_view p m).
Proof.
  unfold MonGetCSMsg_ok. intros. boolify. unfold MonGetCSMsg_fill.
  apply msg_codec_gets. unfold MonGetCSMsg_view.
  eapply msg_codec_rest; [|codec_auto].
  apply (msg_codec_dep p 29 M_MON_GET_CS (fun (b : bool) c =>
    if b then (Msg_send M_MON_GET_CS ;>
       put_str (shorten_filename (gcs_filename (mg_base m))) ;>
       put_u32 (language_value (gcs_lang (mg_base m)))) c
    else GetCSMsg_send M_MON_GET_CS (mg_base m) c)).
  destruct (29 <=? p); [|by apply GetCSMsg_codec].
  unfold GetCSMsg_ok, language_ok in *. boolify.
  apply (msg_codec_intro p M_MON_GET_CS
    (put_str (shorten_filename (gcs_filename (mg_base m))) ;>
     put_u32 (language_value (gcs_lang (mg_base m))))).
  eapply codec_eq; [codec_auto|]. cbn.
  rewrite language_roundtrip by (unfold language_ok; by rewrite andb_true_iff). done.
Qed.

(** *** Compile requests *)

Definition CompileFileMsg_ok (j : CompileJob) : bool :=
  language_ok (j_language j) && is_u32 (j_id j) && wire_list (nonLocalFlags j) &&
  wire_list (remoteFlags j) && wire_list ("clang"%string :: remoteFlags j) &&
  wire_list (restFlags j) &&
  wire_string (j_environment_version j) && wire_string (j_target_platform j) &&
  wire_string (j_input_file j) && wire_string (j_working_directory j) &&
  wire_string (j_output_file j).

Definition flags_view (p : Z) (j : CompileJob) : ArgumentsList :=
  if 41 <=? p then map (fun a => (a, Arg_Remote)) (nonLocalFlags j)
  else
    map (fun a => (a, Arg_Remote))
      (if 30 <=? p then remoteFlags j
       else if is_clang_like (j_compiler_name j) then "clang"%string :: remoteFlags j
       else remoteFlags j)
    ++ map (fun a => (a, Arg_Rest)) (restFlags j).

Definition CompileFileMsg_view (p : Z) (j : CompileJob) : CompileJob :=
  mkCompileJob (j_id j) (j_language j) "" (since p 30 (remote_compiler_name j) "")
    (j_environment_version j) (flags_view p j)
    (since p 34 (j_input_file j) "") (since p 35 (j_output_file j) "")
    (since p 34 (j_working_directory j) "") (j_target_platform j)
    (since p 35 (j_dwarf_fission j) false) false.

Lemma wire_string_remote_compiler j : wire_string (remote_compiler_name j) = true.
Proof. unfold remote_compiler_name. by repeat case_match. Qed.

Lemma job_flags_codec p j :
  CompileFileMsg_ok j = true ->
  codec p (fun c =>
    if is_protocol_version 41 c then put_list (nonLocalFlags j) c
    else
      put_list (restFlags j)
        (if is_protocol_version 30 c then put_list (remoteFlags j) c
         else if is_clang_like (j_compiler_name j)
         then put_list ("clang"%string :: remoteFlags j) c
         else put_list (remoteFlags j) c))
    read_job_flags (flags_view p j).
Proof.
  unfold CompileFileMsg_ok. intros. boolify.
  apply (codec_dep p 41 (fun (b : bool) c =>
    if b then put_list (nonLocalFlags j) c
    else
      put_list (restFlags j)
        (if is_protocol_version 30 c then put_list (remoteFlags j) c
         else if is_clang_like (j_compiler_name j)
         then put_list ("clang"%string :: remoteFlags j) c
         else put_list (remoteFlags j) c))).
  unfold read_job_flags, flags_view. apply codec_gets.
  destruct (41 <=? p); [by apply codec_last, codec_list|].
  apply (codec_bind p (fun c => if is_protocol_version 30 c then put_list (remoteFlags j) c
         else if is_clang_like (j_compiler_name j)
         then put_list ("clang"%string :: remoteFlags j) c
         else put_list (remoteFlags j) c) (put_list (restFlags j)) _ _
      (if 30 <=? p then remoteFlags j
       else if is_clang_like (j_compiler_name j) then "clang"%string :: remoteFlags j
       else remoteFlags j)); cycle 1.
  { apply (codec_last p _ get_list (fun l2 => map _ _ ++ map (fun a => (a, Arg_Rest)) l2)).
    by apply codec_list. }
  apply (codec_dep p 30 (fun (b : bool) c => if b then put_list (remoteFlags j) c
         else if is_clang_like (j_compiler_name j)
         then put_list ("clang"%string :: remoteFlags j) c
         else put_list (remoteFlags j) c)).
  repeat case_match; by apply codec_list.
Qed.

#[export] Hint Resolve wire_string_remote_compiler : icc.

Lemma CompileFileMsg_codec p platform j :
  CompileFileMsg_ok j = true ->
  msg_codec p M_COMPILE_FILE (CompileFileMsg_send j)
    (CompileFileMsg_fill (new_CompileJob platform)) (CompileFileMsg_view p j).
Proof.
  intros Hok. pose proof (job_flags_codec p j Hok) as Hflags.
  unfold CompileFileMsg_ok, language_ok in Hok. boolify. apply msg_codec_intro.
  eapply codec_eq.
  - do 2 (eapply codec_bind; [solve [eauto with icc] | cbv beta]).
    eapply codec_bind; [exact Hflags | cbv beta]. codec_auto.
  - unfold CompileFileMsg_view, since. cbn.
    rewrite language_roundtrip by (unfold language_ok; by rewrite andb_true_iff).
    destruct (30 <=? p), (34 <=? p), (35 <=? p); cbn; by rewrite ?z_of_bool_back.
Qed.

(** *** File chunks *)

(** What the compression libraries document: with room for the worst case
    they compress every input, into at most that many bytes and at least one,
    and decompression into a buffer of the size of the input gives it back. *)
Class CompressorLaws `{Compressors} : Prop := {
  lzo_law : forall d, exists z, lzo_compress d = Some z /\
    0 < Z.of_nat (length z) <= compress_bound false (Z.of_nat (length d)) /\
    lzo_decompress z (Z.of_nat (length d)) = Some d;
  zstd_law : forall d, exists z, zstd_compress d = inl z /\
    0 < Z.of_nat (length z) <= compress_bound true (Z.of_nat (length d)) /\
    zstd_decompress z (Z.of_nat (length d)) = Some d
}.

Section chunk_codec.
Context `{CompressorLaws}.

(** The compressed form of a buffer on a connection of protocol [p]. *)
Definition compressed (p : Z) (d : list byte) : list byte :=
  if 40 <=? p then match zstd_compress d with inl z => z | inr _ => [] end
  else default [] (lzo_compress d).

Definition FileChunkMsg_ok (m : FileChunkMsg) : bool :=
  match fc_buffer m with
  | Some d => (fc_len m =? Z.of_nat (length d)) && (fc_len m <=? MAX_MSG_SIZE)
  | None => false
  end.

Definition FileChunkMsg_view (p : Z) (m : FileChunkMsg) : FileChunkMsg :=
  mkFileChunkMsg (fc_buffer m) (fc_len m)
    (Z.of_nat (length (compressed p (default [] (fc_buffer m))))).

Lemma compress_bound_small zstd n :
  0 <= n <= MAX_MSG_SIZE -> compress_bound zstd n <= 2 * MAX_MSG_SIZE.
Proof.
  unfold compress_bound, MAX_MSG_SIZE. intros Hn. rewrite !Z.shiftr_div_pow2 by lia.
  destruct zstd; [case_match|]; Z.div_mod_to_equations; lia.
Qed.

Lemma compressed_spec p d :
  let z := compressed p d in
  (if 40 <=? p then zstd_compress d = inl z else lzo_compress d = Some z) /\
  0 < Z.of_nat (length z) <= compress_bound (40 <=? p) (Z.of_nat (length d)) /\
  (if 40 <=? p then zstd_decompress z (Z.of_nat (length d)) = Some d
   else lzo_decompress z (Z.of_nat (length d)) = Some d).
Proof.
  unfold compressed. destruct (40 <=? p).
  - by destruct (zstd_law d) as (z & -> & Hl & Hd).
  - by destruct (lzo_law d) as (z & -> & Hl & Hd).
Qed.

Definition chunk_proto (p : Z) : Z := if 40 <=? p then C_ZSTD else C_LZO.

Lemma emits_writecompressed p d :
  0 <= Z.of_nat (length d) <= MAX_MSG_SIZE ->
  emits p (fun c => (writecompressed d c).1)
    (be32 (Z.of_nat (length d)) ++ be32 (Z.of_nat (length (compressed p d))) ++
     (if 40 <=? p then be32 (chunk_proto p) else []) ++ compressed p d).
Proof.
  intros Hd c Hok Hp Ht. unfold writecompressed.
  pose proof (compressed_spec p d) as (Hc & Hl & _).
  set (z := compressed p d) in *.
  assert (is_protocol_version 40 c = (40 <=? p)) as Hv
    by (unfold is_protocol_version; by rewrite Hp).
  rewrite Hv. fold (chunk_proto p).
  destruct (emits_writefull p (be32 (Z.of_nat (length d))) c Hok Hp Ht) as (Ho1 & Hok1 & S1).
  fold (put_u32 (Z.of_nat (length d))) in *.
  set (c1 := put_u32 (Z.of_nat (length d)) c) in *.
  assert (emits p (put_u32 0 ;> when_proto 40 (put_u32 (chunk_proto p)))
            (be32 0 ++ if 40 <=? p then be32 (chunk_proto p) else [])) as E2
    by (apply emits_seq; [apply emits_writefull | apply emits_when, emits_writefull]).
  destruct (E2 c1 Hok1) as (Ho2 & Hok2 & S2);
    [by rewrite (out_only_protocol _ _ Ho1) | by rewrite (out_only_text _ _ Ho1)|].
  clear E2. unfold seqw in Ho2, Hok2, S2.
  set (c2 := when_proto 40 _ (put_u32 0 c1)) in *. clearbody c2.
  match goal with |- context [let '(data, out_len) := ?x in _] =>
    assert (x = (z, Z.of_nat (length z))) as -> by (revert Hc; clearbody z; by destruct (40 <=? p); intros ->)
  end.
  match goal with |- context [c_msgtogo (if ?b then ?t else c2)] =>
    set (c3 := if b then t else c2) end.
  assert (c_msgtogo c3 = c_msgtogo c2 /\ c_msgbuf c3 = c_msgbuf c2 /\ out_only c2 c3)
    as (Et & Eb & Ho3)
    by (unfold c3; match goal with |- context [if ?b then _ else c2] => destruct b end;
        split_and!; first [done | apply out_only_refl | apply out_only_msgbuflen, out_only_refl]).
  cbn [fst].
  (* the data *)
  set (c4 := set_msgtogo (c_msgtogo c2 + length z)
               (set_msgbuf (poke (c_msgtogo c2) z (c_msgbuf c2)) c3)).
  assert (wbuf_ok c4) as Hok4
    by (unfold wbuf_ok, c4 in *; cbn; rewrite poke_length by done; lia).
  assert (staged c4 = staged c2 ++ z) as S4
    by (unfold staged, c4; cbn; by apply take_poke).
  (* the length word *)
  assert (c_msgtogo c1 = length (staged c ++ be32 (Z.of_nat (length d)))) as El
    by (rewrite <- S1; by rewrite staged_length).
  destruct (staged_patch c4 (staged c ++ be32 (Z.of_nat (length d))) (be32 0)
    ((if 40 <=? p then be32 (chunk_proto p) else []) ++ z)
    (Z.of_nat (length z)) Hok4) as [Hok5 S5];
    [rewrite S4, S2, S1, !app_assoc; done | done |].
  rewrite <- El in Hok5, S5.
  unfold add_size. clearbody c3. cbn [c_msgtogo c_msgbuf set_msgbuf].
  rewrite Et, Eb.
  pose proof (compress_bound_small (40 <=? p) (Z.of_nat (length d)) Hd).
  unfold MAX_MSG_SIZE in *.
  rewrite (proj2 (Z.ltb_lt _ _)) by lia. rewrite Nat2Z.id.
  split; [|split].
  - apply out_only_msgtogo, out_only_msgbuf, out_only_msgbuf.
    by eapply out_only_trans; [|exact Ho3]; eapply out_only_trans.
  - exact Hok5.
  - refine (eq_trans _ (eq_trans S5 _)); [reflexivity | by rewrite <- !app_assoc].
Qed.

Lemma reads_compressed p se d :
  Z.of_nat (length d) <= MAX_MSG_SIZE ->
  reads p (readcompressed se)
    (be32 (Z.of_nat (length d)) ++ be32 (Z.of_nat (length (compressed p d))) ++
     (if 40 <=? p then be32 (chunk_proto p) else []) ++ compressed p d)
    (mkChunk (Some d) (Z.of_nat (length d)) (Z.of_nat (length (compressed p d)))).
Proof.
  intros Hd. pose proof (compressed_spec p d) as (_ & Hl & Hz).
  set (z := compressed p d) in *.
  pose proof (compress_bound_small (40 <=? p) (Z.of_nat (length d)) ltac:(lia)) as Hb.
  unfold MAX_MSG_SIZE in Hb, Hd.
  unfold readcompressed.
  eapply reads_bind; [apply reads_u32|].
  eapply reads_bind; [apply reads_u32|].
  rewrite !u32_small by (apply is_u32_iff; lia).
  eapply (reads_bind _ _ _ _ _ (chunk_proto p)).
  { pose proof (reads_if p 40 get_u32 (be32 (chunk_proto p)) (chunk_proto p) C_LZO) as R.
    unfold chunk_proto in *. destruct (40 <=? p); by apply R, (reads_u32 p). }
  apply reads_dep.
  assert ((40 <=? p) && negb (chunk_proto p =? C_LZO) && negb (chunk_proto p =? C_ZSTD)
          = false) as -> by (unfold chunk_proto; by destruct (40 <=? p)).
  intros c rest Hp Hu. unfold get at 1, mbind at 1, M_bind at 1.
  assert (avail c = length z + length rest)%nat as Ha
    by (by rewrite avail_unread, Hu, length_app).
  unfold avail in *.
  match goal with |- (if ?b then _ else _) _ = _ => assert (b = false) as -> end.
  { unfold MAX_MSG_SIZE. repeat (apply orb_false_iff; split).
    - apply Z.ltb_ge. lia.
    - apply Z.ltb_ge. lia.
    - rewrite (proj2 (Z.eqb_neq (Z.of_nat (length z)) 0)) by lia. apply andb_false_r.
    - apply Z.ltb_ge. lia. }
  rewrite Nat2Z.id, Hu, take_app_length. unfold modify, mbind, M_bind.
  rewrite (proj2 (Z.eqb_neq (Z.of_nat (length z)) 0)) by lia.
  destruct (Z.of_nat (length d) =? 0) eqn:E0.
  - apply Z.eqb_eq in E0. by destruct d.
  - cbn [negb andb]. unfold chunk_proto. clearbody z.
    destruct (40 <=? p); cbn [Z.eqb C_LZO C_ZSTD]; by rewrite Hz.
Qed.

Lemma FileChunkMsg_codec p se m :
  FileChunkMsg_ok m = true ->
  msg_codec p M_FILE_CHUNK (FileChunkMsg_send m) (FileChunkMsg_fill se)
    (FileChunkMsg_view p m).
Proof.
  unfold FileChunkMsg_ok. destruct m as [[d|] n k]; [|done]. cbn. intros. boolify. subst n.
  apply msg_codec_intro. unfold FileChunkMsg_view, FileChunkMsg_fill. cbn.
  rewrite Nat2Z.id, firstn_all.
  refine (codec_last p _ _ (fun ch => mkFileChunkMsg (ch_buffer ch) (ch_uclen ch) (ch_clen ch))
    (mkChunk (Some d) (Z.of_nat (length d)) (Z.of_nat (length (compressed p d)))) _).
  eexists. split; [apply emits_writecompressed; lia | by apply reads_compressed].
Qed.
End chunk_codec.

(** ** All messages *)

Section all.
Context `{CompressorLaws}.

(** Messages that a binary channel carries without loss of data: words of
    32 bits, strings without NUL. A [TextMsg] belongs to text channels. *)
Definition msg_ok (m : Msg) : bool :=
  match m with
  | PingMsg | EndMsg | GetInternalStatus | MonLogin | VerifyEnvResult _ => true
  | Text _ => false
  | GetCS m => GetCSMsg_ok m
  | UseCS m => UseCSMsg_ok m
  | NoCS m => NoCSMsg_ok m
  | GetNativeEnv m => GetNativeEnvMsg_ok m
  | UseNativeEnv s | StatusText s => wire_string s
  | CompileFile j => CompileFileMsg_ok j
  | FileChunk m => FileChunkMsg_ok m
  | CompileResult m => CompileResultMsg_ok m
  | JobBegin m => JobBeginMsg_ok m
  | JobDone m | MonJobDone m => JobDoneMsg_ok m
  | JobLocalBegin m => JobLocalBeginMsg_ok m
  | JobLocalDone n => is_u32 n
  | Login m => LoginMsg_ok m
  | ConfCS m => ConfCSMsg_ok m
  | Stats m => StatsMsg_ok m
  | EnvTransfer m => EnvTransferMsg_ok m
  | MonGetCS m => MonGetCSMsg_ok m
  | MonJobBegin m => MonJobBeginMsg_ok m
  | MonLocalJobBegin m => MonLocalJobBeginMsg_ok m
  | MonStats m => MonStatsMsg_ok m
  | VerifyEnv m => VerifyEnvMsg_ok m
  | BlacklistHostEnv m => BlacklistHostEnvMsg_ok m
  end.

(** What the receiver obtains on a connection of protocol [p]. *)
Definition wire_view (p : Z) (m : Msg) : Msg :=
  match m with
  | GetCS m => GetCS (GetCSMsg_view p m)
  | UseCS m => UseCS (UseCSMsg_view p m)
  | GetNativeEnv m => GetNativeEnv (GetNativeEnvMsg_view p m)
  | CompileFile j => CompileFile (CompileFileMsg_view p j)
  | FileChunk m => FileChunk (FileChunkMsg_view p m)
  | CompileResult m => CompileResult (CompileResultMsg_view p m)
  | JobBegin m => JobBegin (JobBeginMsg_view p m)
  | JobDone m => JobDone (JobDoneMsg_view p m)
  | MonJobDone m => MonJobDone (JobDoneMsg_view p m)
  | JobLocalBegin m => JobLocalBegin (JobLocalBeginMsg_view p m)
  | Login m => Login (LoginMsg_view p m)
  | Stats m => Stats (StatsMsg_view p m)
  | MonGetCS m => MonGetCS (MonGetCSMsg_view p m)
  | MonLocalJobBegin m => MonLocalJobBegin (MonLocalJobBeginMsg_view p m)
  | m => m
  end.

(** Every class is a codec: what [send_to_channel] stages is the type word
    and a body that [fill_from_channel] of that type turns into the view. *)
Lemma msg_codec_ok platform se p m :
  msg_ok m = true ->
  exists w r, msg_send m = modify w /\ msg_fill platform se (msg_type m) = Some r /\
    msg_codec p (msg_type m) w r (wire_view p m).
Proof.
  destruct m; cbn [msg_ok msg_send msg_fill msg_type wire_view]; intros Hok; try done;
    do 2 eexists; (split; [reflexivity|]); (split; [reflexivity|]);
  [ apply msg_codec_bare
  | apply msg_codec_bare
  | by apply msg_codec_fmap, GetCSMsg_codec
  | by apply msg_codec_fmap, UseCSMsg_codec
  | by apply msg_codec_fmap, NoCSMsg_codec
  | by apply msg_codec_fmap, GetNativeEnvMsg_codec
  | by apply msg_codec_fmap, UseNativeEnvMsg_codec
  | by apply msg_codec_fmap, CompileFileMsg_codec
  | by apply msg_codec_fmap, FileChunkMsg_codec
  | by apply msg_codec_fmap, CompileResultMsg_codec
  | by apply msg_codec_fmap, JobBeginMsg_codec
  | by apply msg_codec_fmap, JobDoneMsg_codec
  | by apply msg_codec_fmap, JobLocalBeginMsg_codec
  | by apply msg_codec_fmap, JobLocalDoneMsg_codec
  | by apply msg_codec_fmap, LoginMsg_codec
  | by apply msg_codec_fmap, ConfCSMsg_codec
  | by apply msg_codec_fmap, StatsMsg_codec
  | by apply msg_codec_fmap, EnvTransferMsg_codec
  | apply msg_codec_bare
  | apply msg_codec_bare
  | by apply msg_codec_fmap, MonGetCSMsg_codec
  | by apply msg_codec_fmap, MonJobBeginMsg_codec
  | by apply msg_codec_fmap, JobDoneMsg_codec
  | by apply msg_codec_fmap, MonLocalJobBeginMsg_codec
  | by apply msg_codec_fmap, MonStatsMsg_codec
  | by apply msg_codec_fmap, StatusTextMsg_codec
  | by apply msg_codec_fmap, VerifyEnvMsg_codec
  | by apply msg_codec_fmap, VerifyEnvResultMsg_codec
  | by apply msg_codec_fmap, BlacklistHostEnvMsg_codec ].
Qed.
End all.

(** Compressors that satisfy the laws, for the witnesses. *)
Definition store_compressors : Compressors := {|
  lzo_compress d := Some (x00 :: d);
  lzo_decompress z n := if Z.of_nat (length (tail z)) =? n then Some (tail z) else None;
  zstd_compress d := inl (x00 :: d);
  zstd_decompress z n := if Z.of_nat (length (tail z)) =? n then Some (tail z) else None
|}.
Lemma store_laws : @CompressorLaws store_compressors.
Proof.
  split; intros d; exists (x00 :: d); cbn -[Z.of_nat]; rewrite Z.eqb_refl;
    (split; [done|split; [|done]]); unfold compress_bound.
  - pose proof (Z.div_pos (Z.of_nat (length d)) 64). lia.
  - rewrite !Z.shiftr_div_pow2 by lia. destruct (_ <? _) eqn:E; boolify;
      change (2 ^ 8) with 256; change (2 ^ 11) with 2048; Z.div_mod_to_equations; lia.
Qed.
