(* ===== verification/Interface.v ===== *)
(** * What the programs share

    The interface of the channels that the scheduler, the daemon and the client
    are written against ([Channels], implemented in ChannelImpl.v by the engine of
    Transport.v), the readiness of descriptors, and iteration over a [std::map]: its entries in the order of
    the keys, and an iterator that survives changes of the map. *)

From Stdlib Require Import ZArith Lia Sorted.
From Stdlib Require Import Strings.Byte Strings.String.
From stdpp Require Import base tactics option list gmap strings sorting.
From S2P Require Import Prelude MsgChannel Msg.

#[local] Open Scope Z_scope.

(** ** The interface to the channels

    What the scheduler and the daemon do with a connection. Its operations report success
    and may change the channel, but never who the peer is. *)

Definition same_peer (c c' : MsgChannel) : Prop :=
  c_fd c' = c_fd c /\ c_name c' = c_name c /\ c_addr c' = c_addr c /\
  c_text_based c' = c_text_based c.

Class Channels : Type := {
  ch_send : Msg -> Z -> reader bool;
  ch_get : Z -> bool -> reader (option Msg);
  ch_read : reader bool
}.

Class ChannelLaws `{Channels} : Prop := {
  ch_send_peer : forall m flags c b c', ch_send m flags c = Ok (b, c') -> same_peer c c';
  ch_get_peer : forall t e c m c', ch_get t e c = Ok (m, c') -> same_peer c c';
  ch_read_peer : forall c b c', ch_read c = Ok (b, c') -> same_peer c c'
}.

(** A send returns; a peer from which only messages of the protocol come: so does
    a read. *)
Class ChannelsReturn `{Channels} : Prop :=
  ch_send_returns : forall m flags c, exists b c', ch_send m flags c = Ok (b, c').
Class ChannelsAnswer `{Channels} : Prop :=
  ch_get_returns : forall t e c, exists m c', ch_get t e c = Ok (m, c').

(** ** [poll] (services/util.cpp) *)

Definition POLLIN : Z := 1.
Definition POLLOUT : Z := 4.
Definition POLLERR : Z := 8.
Definition POLLHUP : Z := 16.
Definition POLLNVAL : Z := 32.

(** What was polled, each with the events asked for; errors and the end of a
    stream count as readiness. *)
Definition pollfd_is_set `{EqDecision A} (pollfds : list (A * Z)) (revents : A -> Z) (fd : A)
    (flags : Z) : bool :=
  bool_decide (fd ∈ map fst pollfds) &&
  (negb (Z.land (revents fd) flags =? 0)
   || negb (Z.land (revents fd) (Z.lor POLLERR (Z.lor POLLHUP POLLNVAL)) =? 0)).

(** ** Maps in the order of their keys *)

Definition key_le {A} (a b : Z * A) : Prop := a.1 <= b.1.
#[export] Instance key_le_dec {A} : RelDecision (@key_le A).
Proof. intros a b. unfold key_le. apply _. Defined.
Definition in_order {A} (m : gmap Z A) : list (Z * A) := merge_sort key_le (map_to_list m).

(** Strings compare byte by byte. *)
Definition name_le {A} (a b : string * A) : Prop := String.leb a.1 b.1 = true.
#[export] Instance name_le_dec {A} : RelDecision (@name_le A).
Proof. intros a b. unfold name_le. apply _. Defined.
Definition in_name_order {A} (m : gmap string A) : list (string * A) :=
  merge_sort name_le (map_to_list m).

(** The entry after a key, or the first one. *)
Definition is_after {A} (k : option Z) (e : Z * A) : bool :=
  match k with Some k => k <? e.1 | None => true end.
Definition next_key {A} (k : option Z) (m : gmap Z A) : option (Z * A) :=
  head (filter (fun e => is_after k e) (in_order m)).

Definition is_after_name {A} (k : option string) (e : string * A) : bool :=
  match k with Some k => String.ltb k e.1 | None => true end.
Definition next_name {A} (k : option string) (m : gmap string A) : option (string * A) :=
  head (filter (fun e => is_after_name k e) (in_name_order m)).

Lemma in_order_spec {A} (m : gmap Z A) k a : (k, a) ∈ in_order m <-> m !! k = Some a.
Proof. unfold in_order. by rewrite merge_sort_Permutation, elem_of_map_to_list. Qed.

Lemma in_name_order_spec {A} (m : gmap string A) k a :
  (k, a) ∈ in_name_order m <-> m !! k = Some a.
Proof. unfold in_name_order. by rewrite merge_sort_Permutation, elem_of_map_to_list. Qed.

Lemma next_key_spec {A} k (m : gmap Z A) e :
  next_key k m = Some e -> m !! e.1 = Some e.2 /\ is_after k e = true.
Proof.
  unfold next_key. intros Hh.
  assert (e ∈ filter (fun e => is_after k e) (in_order m)) as Hin
    by (destruct (filter _ _); inversion Hh; left).
  apply list_elem_of_filter in Hin as [Ha Hin]. destruct e. apply in_order_spec in Hin.
  split; [done|by destruct (is_after k _)].
Qed.

#[export] Instance key_le_trans {A} : Transitive (@key_le A).
Proof. intros a b c. unfold key_le. lia. Qed.
#[export] Instance key_le_total {A} : Total (@key_le A).
Proof. intros a b. unfold key_le. lia. Qed.

Lemma head_filter_le {A} (P : Z * A -> bool) (l : list (Z * A)) x :
  StronglySorted key_le l -> x ∈ l -> P x = true ->
  exists e, head (filter (fun y => P y) l) = Some e /\ e ∈ l /\ P e = true /\ e.1 <= x.1.
Proof.
  intros Hs Hin Hp. induction Hs as [|y l Hs IH Hy]; [by apply not_elem_of_nil in Hin|].
  destruct (P y) eqn:Ey.
  - exists y. rewrite filter_cons, decide_True by (by rewrite Ey). split; [done|]. split; [left|].
    split; [done|]. apply elem_of_cons in Hin as [->|Hin]; [done|].
    rewrite Forall_forall in Hy. exact (Hy _ Hin).
  - rewrite filter_cons, decide_False by (rewrite Ey; intros []).
    apply elem_of_cons in Hin as [->|Hin]; [congruence|].
    destruct (IH Hin) as (e & ? & ? & ?). exists e. split; [done|]. split; [by right|done].
Qed.

Lemma filter_length_lt {A} (P Q : A -> bool) (l : list A) x :
  (forall y, P y = true -> Q y = true) -> x ∈ l -> P x = false -> Q x = true ->
  (length (filter (fun y => P y) l) < length (filter (fun y => Q y) l))%nat.
Proof.
  intros HPQ Hin Hx Hq.
  assert (forall l, length (filter (fun y => P y) l) <= length (filter (fun y => Q y) l))%nat as Hle.
  { clear - HPQ. induction l as [|y l IH]; [done|]. rewrite !filter_cons.
    destruct (decide (P y)) as [Hp|], (decide (Q y)) as [|Hn]; cbn; try lia.
    destruct Hn. apply Is_true_true, HPQ. by apply Is_true_true. }
  induction l as [|y l IH]; [by apply not_elem_of_nil in Hin|].
  apply elem_of_cons in Hin as [->|Hin].
  - rewrite !filter_cons. destruct (decide (P y)) as [Hp|_]; [by rewrite Hx in Hp|].
    destruct (decide (Q y)) as [_|Hn]; [|destruct Hn; by rewrite Hq].
    cbn. specialize (Hle l). lia.
  - specialize (IH Hin). rewrite !filter_cons.
    destruct (decide (P y)) as [Hp|], (decide (Q y)) as [|Hn]; cbn; try lia.
    destruct Hn. apply Is_true_true, HPQ. by apply Is_true_true.
Qed.

(** Up to an entry that lies ahead, [next_key] comes nearer: it gives that
    entry, or one before it, and fewer entries are left. *)
Lemma next_key_ahead {A} k (m : gmap Z A) k0 a :
  m !! k0 = Some a -> is_after k (k0, a) = true ->
  exists e, next_key k m = Some e /\ m !! e.1 = Some e.2 /\
    (e = (k0, a) \/ is_after (Some e.1) (k0, a) = true) /\
    (length (filter (fun x => is_after (Some e.1) x) (in_order m))
     < length (filter (fun x => is_after k x) (in_order m)))%nat.
Proof.
  intros Hk Ha. pose proof Hk as Hin. apply in_order_spec in Hin.
  assert (StronglySorted key_le (in_order m)) as Hs by (apply StronglySorted_merge_sort; apply _).
  destruct (head_filter_le (is_after k) _ _ Hs Hin Ha) as ([i x] & Eh & Hi & Hai & Hle).
  cbn in Hle. exists (i, x). split; [exact Eh|]. apply in_order_spec in Hi as Hm. split; [exact Hm|].
  split.
  - cbn. destruct (Z.eq_dec i k0) as [->|Hne]; [left; congruence|right; apply Z.ltb_lt; lia].
  - eapply filter_length_lt; [|exact Hi|apply Z.ltb_irrefl|exact Hai].
    intros [j y] Hj. cbn in Hj. apply Z.ltb_lt in Hj. destruct k as [k|]; [|done].
    cbn in *. apply Z.ltb_lt in Hai. apply Z.ltb_lt. lia.
Qed.
