(* ===== verification/Transport.v ===== *)
(** * The channel's engine (services/comm.cpp)

    Reading ([read_a_bit], [update_state], [wait_for_protocol],
    [wait_for_msg], [get_msg]), writing ([flush_writebuf], [send_msg]), the
    error state ([set_error]) and the constructor of [MsgChannel].

    These functions call each other: [set_error] fetches a last status text
    with [get_msg], which ends in [set_error] again; the member
    [set_error_recursion] stops the second round. They are therefore written
    over a variable [set_error], and tied by [set_error_depth], whose first
    argument bounds the nesting; TransportFacts.v proves that nesting never
    exceeds one round, so the bound is not one. *)

From Stdlib Require Import ZArith Lia.
From Stdlib Require Import Strings.Byte Strings.String.
From stdpp Require Import base tactics option list strings.
From S2P Require Import Prelude MsgChannel CompileJob Msg.

#[local] Open Scope Z_scope.

(** ** System calls on the descriptor *)

Definition with_io (f : io -> io) (c : MsgChannel) : MsgChannel := set_io (f (c_io c)) c.
Definition set_errno (e : errno) : reader unit := modify (with_io (set_io_errno e)).

(** [poll(&pfd, 1, timeout)] for one descriptor. *)
Definition sys_poll : reader poll_result :=
  ps ← gets (fun c => io_polls (c_io c));
  match ps with
  | [] => mret PollTimeout
  | r :: ps =>
      _ ← modify (with_io (set_io_polls ps));
      _ ← (match r with PollErr e => set_errno e | _ => mret tt end);
      mret r
  end.

(** [read(fd, buf, count)]: what does not fit stays in the kernel. *)
Definition sys_read (count : nat) : reader read_result :=
  rs ← gets (fun c => io_reads (c_io c));
  match rs with
  | [] => _ ← set_errno EAGAIN; mret (ReadErr EAGAIN)
  | ReadData bs :: rs =>
      _ ← modify (with_io (set_io_reads
            (match drop count bs with [] => rs | l => ReadData l :: rs end)));
      mret (ReadData (take count bs))
  | ReadErr e :: rs =>
      _ ← modify (with_io (set_io_reads rs));
      _ ← set_errno e;
      mret (ReadErr e)
  | ReadEof :: rs => _ ← modify (with_io (set_io_reads rs)); mret ReadEof
  end.

(** [send(fd, buf, |buf|, ...)] *)
Definition sys_send (buf : list byte) : reader (nat + errno) :=
  ss ← gets (fun c => io_sends (c_io c));
  match ss with
  | [] => _ ← modify (with_io (fun o => set_io_sent (io_sent o ++ buf) o));
          mret (inl (length buf))
  | SendOk n :: ss =>
      _ ← modify (with_io (fun o =>
            set_io_sends ss (set_io_sent (io_sent o ++ take n buf) o)));
      mret (inl (length (take n buf)))
  | SendErr e :: ss =>
      _ ← modify (with_io (set_io_sends ss));
      _ ← set_errno e;
      mret (inr e)
  end.

Definition get_max_write_size (slow_network : bool) : Z :=
  if slow_network then MAX_SLOW_WRITE_SIZE else MAX_MSG_SIZE.

(** The [for (;;)] around [poll] in [flush_writebuf]: repeated while it is
    interrupted. *)
Fixpoint poll_uninterrupted (fuel : nat) : reader poll_result :=
  r ← sys_poll;
  match fuel, r with
  | S fuel, PollErr EINTR => poll_uninterrupted fuel
  | _, _ => mret r
  end.

Section engine.
Context `{Compressors}.
(** [determine_platform()] *)
Context (platform : string).

(** ** Functions over [set_error] *)
Section open_recursion.
Context (set_error : bool -> reader unit).

(** *** Writing *)

(** The loop of [flush_writebuf]; [ofs] is [buf - msgbuf]. Returns the
    final offset and [error]. *)
Fixpoint flush_loop (fuel : nat) (blocking : bool) (ofs : nat) : reader (nat * bool) :=
  c ← get;
  match fuel, c_msgtogo c with
  | O, _ | _, O => mret (ofs, false)
  | S fuel, togo =>
      let n := Z.to_nat (Z.min (Z.of_nat togo) (get_max_write_size (io_slow (c_io c)))) in
      r ← sys_send (take n (drop ofs (c_msgbuf c)));
      match r with
      | inr EINTR => flush_loop fuel blocking ofs
      | inr e =>
          if blocking && bool_decide (e = EAGAIN \/ e = ENOTCONN \/ e = EWOULDBLOCK) then
            ps ← gets (fun c => length (io_polls (c_io c)));
            ready ← poll_uninterrupted ps;
            match ready with
            | PollReady => flush_loop fuel blocking ofs
            | _ => _ ← set_errno e; mret (ofs, true)
            end
          else _ ← set_errno e; mret (ofs, true)
      | inl O => mret (ofs, true)
      | inl k =>
          _ ← modify (fun c => set_msgtogo (c_msgtogo c - k) c);
          flush_loop fuel blocking (ofs + k)
      end
  end.

Definition flush_writebuf (blocking : bool) : reader bool :=
  c ← get;
  r ← flush_loop (S (length (io_sends (c_io c)) + c_msgtogo c)) blocking (c_msgofs c);
  _ ← modify (fun c => chop_output (set_msgofs r.1 c));
  if r.2 : bool then _ ← set_error false; mret false else mret true.

(** *** Reading *)

(** The position of the first character below [' '], if any. *)
Fixpoint find_control (l : list byte) : option nat :=
  match l with
  | [] => None
  | b :: l => if schar b <? 32 then Some O else S <$> find_control l
  end.

Definition state_fill_buf : reader bool :=
  c ← get;
  _ ← when (c_inmsglen c <=? Z.of_nat (avail c)) (modify (set_instate HAS_MSG));
  mret true.

Definition state_need_len : reader bool :=
  c ← get;
  if c_text_based c then
    if (c_inofs c <? c_intogo c)%nat then throw UninitRead
    else
      match find_control (unread c) with
      | Some n =>
          _ ← modify (fun c => set_instate HAS_MSG (set_inmsglen (Z.of_nat n) c));
          mret true
      | None => _ ← modify (set_inmsglen (Z.of_nat (avail c))); mret true
      end
  else if (4 <=? avail c)%nat then
    len ← get_u32;
    _ ← modify (set_inmsglen len);
    _ ← modify (fun c =>
          if c_inbuflen c - Z.of_nat (c_intogo c) <? len
          then set_inbuflen (align128 (len + Z.of_nat (c_intogo c))) c else c);
    _ ← modify (set_instate FILL_BUF);
    state_fill_buf
  else mret true.

(** The [while] loop of the state [NEED_PROTO]: [Some b] when the function
    returns [b] from inside of it. *)
Fixpoint state_need_proto (fuel : nat) : reader (option bool) :=
  c ← get;
  match fuel with
  | O => mret None
  | S fuel =>
    if (avail c <? 4)%nat then mret None
    else if c_protocol c =? 0 then mret (Some false)
    else
      let remote_prot := le_value (take 4 (unread c)) in
      _ ← modify (advance 4);
      if c_protocol c =? -1 then
        _ ← modify (set_protocol 0);
        if (remote_prot <? MIN_PROTOCOL_VERSION) || (Z.shiftl 1 20 <? remote_prot) then
          _ ← set_error false; mret (Some false)
        else
          _ ← modify (set_maximum_remote_protocol remote_prot);
          let remote_prot :=
            if PROTOCOL_VERSION <? remote_prot then PROTOCOL_VERSION else remote_prot in
          _ ← modify (writefull (le_bytes 4 remote_prot));
          ok ← flush_writebuf true;
          if negb ok then _ ← set_error false; mret (Some false)
          else
            _ ← modify (set_protocol (-1 - remote_prot));
            state_need_proto fuel
      else if c_protocol c <? -1 then
        let protocol := - (c_protocol c + 1) in
        _ ← modify (set_protocol protocol);
        if negb (i32 remote_prot =? protocol) then
          _ ← modify (set_protocol 0);
          _ ← set_error false;
          mret (Some false)
        else _ ← modify (set_instate NEED_LEN); mret None
      else _ ← set_error false; mret (Some false)
  end.

Definition update_state : reader bool :=
  c ← get;
  match c_instate c with
  | NEED_PROTO =>
      r ← state_need_proto (S (avail c));
      match r with
      | Some b => mret b
      | None =>
          st ← gets c_instate;
          if decide (st = NEED_LEN) then state_need_len else mret true
      end
  | NEED_LEN => state_need_len
  | FILL_BUF => state_fill_buf
  | HAS_MSG => mret true
  | ERROR => mret false
  end.

(** The loop around [read]: it is repeated only when interrupted. *)
Fixpoint read_loop (fuel : nat) (count : nat) : reader bool :=
  eof ← gets c_eof;
  match fuel, count, eof with
  | O, _, _ | _, O, _ | _, _, true => mret false
  | S fuel, _, false =>
      r ← sys_read count;
      match r with
      | ReadData [] | ReadEof => _ ← modify (set_eof true); mret false
      | ReadData d => _ ← modify (fun c => set_inbuf (c_inbuf c ++ d) c); mret false
      | ReadErr EINTR => read_loop fuel count
      | ReadErr EAGAIN | ReadErr EWOULDBLOCK => mret false
      | ReadErr _ => mret true
      end
  end.

Definition read_a_bit : reader bool :=
  _ ← modify chop_input;
  _ ← modify (fun c =>
        if c_inbuflen c - Z.of_nat (c_inofs c) <? 128
        then set_inbuflen (align128 (c_inbuflen c + 128)) c else c);
  c ← get;
  error ← read_loop (S (length (io_reads (c_io c))))
            (Z.to_nat (c_inbuflen c - Z.of_nat (c_inofs c)));
  ok ← update_state;
  if error || negb ok then
    st ← gets c_instate;
    _ ← set_error (bool_decide (st = NEED_PROTO));
    mret false
  else mret true.

(** The loop of [wait_for_protocol]. *)
Fixpoint wait_for_protocol_loop (fuel : nat) : reader bool :=
  st ← gets c_instate;
  if decide (st <> NEED_PROTO) then mret true else
  r ← sys_poll;
  match fuel, r with
  | S fuel, PollErr EINTR => wait_for_protocol_loop fuel
  | _, PollTimeout | _, PollErr _ => _ ← set_error false; mret false
  | O, PollReady => mret false
  | S fuel, PollReady =>
      ok ← read_a_bit;
      eof ← gets c_eof;
      if negb ok || eof then mret false else wait_for_protocol_loop fuel
  end.

Definition wait_for_protocol : reader bool :=
  c ← get;
  if (c_protocol c =? 0) || bool_decide (c_instate c = ERROR) then mret false
  else wait_for_protocol_loop (length (io_polls (c_io c))).

(** The loop of [wait_for_msg]. A time-out is reported with [errno] as the
    last failing call left it. *)
Fixpoint wait_for_msg_loop (fuel : nat) : reader bool :=
  has ← gets has_msg;
  if has : bool then mret true else
  r ← sys_poll;
  e ← gets (fun c => io_errno (c_io c));
  match fuel, r with
  | S fuel, PollReady =>
      ok ← read_a_bit;
      if ok : bool then wait_for_msg_loop fuel
      else _ ← set_error false; mret false
  | S fuel, _ => if decide (e = EINTR) then wait_for_msg_loop fuel else mret false
  | O, _ => mret false
  end.

Definition wait_for_msg (timeout : Z) : reader bool :=
  c ← get;
  if decide (c_instate c = ERROR) then mret false
  else if has_msg c then mret true
  else
    ok ← read_a_bit;
    if negb ok then _ ← set_error false; mret false
    else if timeout <=? 0 then gets has_msg
    else wait_for_msg_loop (length (io_polls (c_io c))).

(** The part of [get_msg] that runs when a complete message is there. *)
Definition take_msg : reader (option Msg) :=
  c ← get;
  t ← (if c_text_based c then mret (Some M_TEXT)
       else n ← get_u32; mret (msgtype_of n));
  match t ≫= msg_fill platform (set_error false) with
  | None => _ ← set_error false; mret None
  | Some fill =>
      m ← fill;
      c' ← get;
      if negb (c_text_based c')
         && negb (u64 (Z.of_nat (c_intogo c') - Z.of_nat (c_intogo c)) =? c_inmsglen c') then
        _ ← set_error false; mret None
      else
        _ ← modify (set_instate NEED_LEN);
        _ ← update_state;
        mret (Some m)
  end.

Definition get_msg (timeout : Z) (eofAllowed : bool) : reader (option Msg) :=
  ok ← wait_for_msg timeout;
  if negb ok then mret None else
  c ← get;
  if at_eof c then
    _ ← when (negb eofAllowed) (set_error false); mret None
  else if negb (has_msg c) then _ ← set_error false; mret None
  else take_msg.

Definition SendBlocking : Z := Z.shiftl 1 0.
Definition SendNonBlocking : Z := Z.shiftl 1 1.
Definition SendBulkOnly : Z := Z.shiftl 1 2.

(** The length word in front of a message, once its size is known. *)
Definition patch_len (ofs : nat) (c : MsgChannel) : MsgChannel :=
  set_msgbuf (poke ofs (be32 (u32 (Z.of_nat (c_msgtogo c - ofs) - 4))) (c_msgbuf c)) c.

Definition send_msg (m : Msg) (flags : Z) : reader bool :=
  c ← get;
  ready ← (match c_instate c with
           | ERROR => mret false
           | NEED_PROTO => wait_for_protocol
           | _ => mret true
           end);
  if negb ready then mret false else
  _ ← modify chop_output;
  c ← get;
  _ ← (if c_text_based c then msg_send m
       else
         _ ← modify (put_u32 0);
         _ ← msg_send m;
         modify (patch_len (c_msgtogo c)));
  c ← get;
  if negb (Z.land flags SendBulkOnly =? 0) && (Z.of_nat (c_msgtogo c) <? 4096)
  then mret true
  else flush_writebuf (negb (Z.land flags SendBlocking =? 0)).
End open_recursion.

(** ** Tying the knot *)

Definition set_error_with (get_msg : Z -> bool -> reader (option Msg)) (silent : bool)
  : reader unit :=
  c ← get;
  if decide (c_instate c = ERROR) then mret tt else
  _ ← when (negb silent && negb (c_set_error_recursion c))
        (_ ← modify (set_set_error_recursion true);
         _ ← get_msg 2 true;
         modify (set_set_error_recursion false));
  modify (fun c => set_eof true (set_instate ERROR c)).

Fixpoint set_error_depth (n : nat) : bool -> reader unit :=
  set_error_with
    (match n with
     | O => fun _ _ => mret None
     | S n => get_msg (set_error_depth n)
     end).

(** [MsgChannel::set_error] *)
Definition set_error : bool -> reader unit := set_error_depth 1.

Definition channel_get_msg := get_msg set_error.
Definition channel_send_msg := send_msg set_error.

(** [MsgChannel::MsgChannel]: [name] is the result of [getnameinfo] (or the
    fixed name of a local socket), [now] of [time]. *)
Definition new_channel (fd : Z) (addr : list byte) (name : string) (text : bool)
    (now : Z) (o : io) : res MsgChannel :=
  let c := mkMsgChannel fd (if text then PROTOCOL_VERSION else -1) (-1) name now
             [] 128 0 0 [] 128 0 (if text then NEED_LEN else NEED_PROTO) 0 false text
             addr false o in
  let init : reader unit :=
    if text then mret tt
    else
      _ ← modify (writefull [byte_of_Z PROTOCOL_VERSION; x00; x00; x00]);
      ok ← flush_writebuf set_error true;
      when (negb ok) (_ ← modify (set_protocol 0); set_error false) in
  match init c with
  | Ok (_, c) => Ok c
  | Fault f => Fault f
  end.

(** [Service::createChannel(int, struct sockaddr *, socklen_t)]: [None]
    when the handshake fails and the channel is deleted. *)
Definition createChannel (fd : Z) (addr : list byte) (name : string) (now : Z) (o : io)
  : res (option MsgChannel) :=
  match new_channel fd addr name false now o with
  | Fault f => Fault f
  | Ok c =>
      match wait_for_protocol set_error c with
      | Fault f => Fault f
      | Ok (true, c) => Ok (Some c)
      | Ok (false, _) => Ok None
      end
  end.
End engine.

(** [MsgChannel::eq_ip] compares the addresses' [sin_addr]: bytes 4 to 7 of a
    [sockaddr_in]. *)
Definition eq_ip (c s : MsgChannel) : bool :=
  bool_decide (length (c_addr c) = length (c_addr s)
    /\ take 4 (drop 4 (c_addr c)) = take 4 (drop 4 (c_addr s))).

(** [MsgChannel::dump]: name, state letter and eof digit. *)
Definition state_letter (st : channel_state) : byte :=
  match st with
  | NEED_PROTO => x41 | NEED_LEN => x42 | FILL_BUF => x43 | HAS_MSG => x44 | ERROR => x45
  end.
Definition dump (c : MsgChannel) : string :=
  str_of (bytes_of (c_name c) ++ bytes_of ": (" ++ [state_letter (c_instate c)]
          ++ bytes_of " eof: " ++ [if c_eof c then x31 else x30] ++ bytes_of ")").
