(* ===== verification/Connection.v ===== *)
(** * A connection between two channels

    What [send_msg] hands to the kernel on one side is what [get_msg] makes
    messages of on the other, however the kernel cuts the bytes. [incoming]
    describes a receiver by the bytes of the stream it holds and has not yet
    delivered; every step of the engine is shown to move it along. *)

From Stdlib Require Import ZArith Lia.
From Stdlib Require Import Strings.Byte Strings.String.
From stdpp Require Import base tactics option list strings.
From S2P Require Import Prelude MsgChannel CompileJob Msg MsgCodec Transport TransportFacts.

#[local] Open Scope Z_scope.

(** ** Frames *)

(** A binary channel of protocol [p] after its handshake. *)
Definition blank (p : Z) : MsgChannel :=
  mkMsgChannel 0 p (-1) "" 0 [] 128 0 0 [] 128 0 NEED_LEN 0 false false [] false
    (mkIo [] [] [] EAGAIN [] false).

Section frames.
Context `{CompressorLaws}.

(** Type word and body of a message. *)
Definition body (p : Z) (m : Msg) : list byte :=
  match msg_send m (blank p) with
  | Ok (_, c) => staged c
  | Fault _ => []
  end.

(** What [send_msg] stages. *)
Definition frame (p : Z) (m : Msg) : list byte :=
  be32 (Z.of_nat (length (body p m))) ++ body p m.

(** Messages whose size fits the length word. *)
Definition sendable (p : Z) (m : Msg) : bool :=
  msg_ok m && is_u32 (Z.of_nat (length (body p m))).

Lemma body_codec platform p m :
  msg_ok m = true ->
  exists w payload, msg_send m = modify w /\ emits p w (body p m) /\
    body p m = be32 (msgtype_code (msg_type m)) ++ payload /\
    forall se, exists r, msg_fill platform se (msg_type m) = Some r /\
      reads p r payload (wire_view p m).
Proof.
  intros Hok.
  assert (forall w bs, msg_send m = modify w -> emits p w bs -> body p m = bs) as Hb.
  { intros w bs Ew He. unfold body. rewrite Ew. cbn.
    destruct (He (blank p)) as (_ & _ & E); [unfold wbuf_ok; cbn; lia|done|done|].
    by rewrite E. }
  destruct (msg_codec_ok platform (mret tt) p m Hok) as (w & r0 & Ew & _ & payload & He & _).
  exists w, payload. rewrite (Hb _ _ Ew He). do 3 (split; [done|]).
  intros se. destruct (msg_codec_ok platform se p m Hok) as (w' & r & Ew' & Er & pl & He' & Hr).
  exists r. split; [done|].
  pose proof (Hb _ _ Ew He) as E1. rewrite (Hb _ _ Ew' He') in E1.
  by apply app_inv_head in E1 as ->.
Qed.

Lemma msgtype_of_u32_code t : msgtype_of (u32 (msgtype_code t)) = Some t.
Proof. by destruct t. Qed.
End frames.

(** ** The receiver *)

(** A binary channel past the handshake whose connection is open. *)
Definition live (p : Z) (c : MsgChannel) : Prop :=
  c_text_based c = false /\ c_protocol c = p /\ c_eof c = false /\ buffer_ok c.

(** The channel holds the bytes [bs] of the stream, of which it has delivered
    nothing, and has looked at all of them. *)
Definition incoming (p : Z) (bs : list byte) (c : MsgChannel) : Prop :=
  live p c /\
  ((c_instate c = NEED_LEN /\ unread c = bs /\ (length bs < 4)%nat) \/
   exists hdr, length hdr = 4%nat /\ c_inmsglen c = be32_value hdr /\ bs = hdr ++ unread c /\
     c_instate c = (if c_inmsglen c <=? Z.of_nat (avail c) then HAS_MSG else FILL_BUF)).

(** Bytes arriving in the read buffer. *)
Definition recv (d : list byte) (c : MsgChannel) : MsgChannel := set_inbuf (c_inbuf c ++ d) c.

Lemma unread_recv d c : (c_intogo c <= c_inofs c)%nat -> unread (recv d c) = unread c ++ d.
Proof. intros Hc. unfold unread, recv. cbn. by rewrite drop_app_le. Qed.

Section receiver.
Context `{CompressorLaws} (platform : string) (se : bool -> reader unit).

Lemma fill_buf_spec c :
  state_fill_buf c =
  Ok (true, if c_inmsglen c <=? Z.of_nat (avail c) then set_instate HAS_MSG c else c).
Proof. unfold state_fill_buf. rewrite bind_get. by case_match. Qed.

Lemma need_len_spec c :
  c_text_based c = false -> buffer_ok c ->
  exists len c', state_need_len c = Ok (true, c') /\
    c_inbuflen c <= len /\
    c' = (if (4 <=? avail c)%nat then
            let c1 := set_instate FILL_BUF (set_inbuflen len
                        (set_inmsglen (be32_value (take 4 (unread c))) (advance 4 c))) in
            if be32_value (take 4 (unread c)) <=? Z.of_nat (avail c - 4)
            then set_instate HAS_MSG c1 else c1
          else c).
Proof.
  intros Ht [Hb1 Hb2]. unfold state_need_len. rewrite bind_get, Ht.
  destruct (4 <=? avail c)%nat eqn:E4.
  - apply Nat.leb_le in E4.
    assert (((c_intogo c + 4 <=? c_inofs c)%nat) = true) as Eg
      by (apply Nat.leb_le; unfold avail in E4; lia).
    rewrite (bind_ok get_u32 _ c (be32_value (take 4 (unread c))) (advance 4 c))
      by (unfold get_u32; by rewrite Eg).
    rewrite !bind_modify. set (v := be32_value _). cbn [c_inbuflen c_intogo set_inmsglen advance set_intogo].
    exists (if c_inbuflen c - Z.of_nat (c_intogo c + 4) <? v
            then align128 (v + Z.of_nat (c_intogo c + 4)) else c_inbuflen c).
    eexists. split; [by rewrite fill_buf_spec|]. split; [|].
    2: {assert (avail c - 4 = avail (advance 4 c))%nat as ->
        by (unfold avail, c_inofs; cbn; lia).
      destruct (_ <? v); by destruct c. }
    destruct (_ <? v) eqn:El; [|lia]. apply Z.ltb_lt in El.
    pose proof (align128_ge (v + Z.of_nat (c_intogo c + 4))). lia.
  - exists (c_inbuflen c), c. done.
Qed.

(** *** Frames arriving *)

Lemma incoming_need_len p bs c :
  live p c -> c_instate c = NEED_LEN -> unread c = bs ->
  exists c', update_state se c = Ok (true, c') /\ incoming p bs c' /\ c_io c' = c_io c.
Proof.
  intros (Ht & Hp & He & Hb) Hs Hu. unfold update_state. rewrite bind_get, Hs.
  destruct (need_len_spec c Ht Hb) as (len & c' & -> & Hl & E). exists c'. split; [done|].
  rewrite avail_unread, Hu in E. destruct (4 <=? length bs)%nat eqn:E4.
  - apply Nat.leb_le in E4.
    assert (c_io c' = c_io c /\ live p c' /\ c_inmsglen c' = be32_value (take 4 bs) /\
            unread c' = drop 4 bs /\
            c_instate c' = (if be32_value (take 4 bs) <=? Z.of_nat (length bs - 4)
                            then HAS_MSG else FILL_BUF)) as (Eio & Hlive & Em & Eu & Est).
    { pose proof (unread_advance 4 c) as Ha. rewrite Hu in Ha. pose proof (avail_unread c) as Hav.
      rewrite Hu in Hav. unfold avail in Hav.
      rewrite E. unfold live, buffer_ok in *. cbv zeta in *. unfold c_inofs in *.
      destruct (_ <=? _); cbn in *; unfold c_inofs in *; cbn in *; repeat split; try done; lia. }
    split; [|done]. split; [done|]. right. exists (take 4 bs).
    rewrite avail_unread, Em, Eu, length_drop, length_take, take_drop. repeat split; [lia|done].
  - apply Nat.leb_gt in E4. subst c'. split; [|done]. split; [done|]. by left.
Qed.

Lemma incoming_full p hdr c :
  live p c -> length hdr = 4%nat -> c_inmsglen c = be32_value hdr ->
  incoming p (hdr ++ unread c)
    (set_instate (if c_inmsglen c <=? Z.of_nat (avail c) then HAS_MSG else FILL_BUF) c).
Proof. intros Hl H4 Em. split; [exact Hl|]. right. by exists hdr. Qed.

Lemma incoming_recv p bs d c :
  incoming p bs c -> Z.of_nat (c_inofs c + length d) <= c_inbuflen c ->
  exists c', update_state se (recv d c) = Ok (true, c') /\
    incoming p (bs ++ d) c' /\ c_io c' = c_io c.
Proof.
  intros [Hl Hi] Hroom.
  assert (live p (recv d c)) as Hl'.
  { destruct Hl as (Ht & Hp & He & Hb). unfold live. repeat (split; [done|]). by apply ci_recv. }
  pose proof (unread_recv d c) as Hu. destruct Hl as (Ht & Hp & He & Hb1 & Hb2).
  specialize (Hu Hb1). destruct Hi as [(Hs & Eu & Hlen)|(hdr & H4 & Em & Eb & Es)].
  - apply (incoming_need_len p (bs ++ d) (recv d c)); [done|done|]. by rewrite Hu, Eu.
  - unfold update_state. rewrite bind_get. change (c_instate (recv d c)) with (c_instate c).
    assert (incoming p (bs ++ d)
              (set_instate (if c_inmsglen c <=? Z.of_nat (avail (recv d c))
                            then HAS_MSG else FILL_BUF) (recv d c))) as Hin.
    { rewrite Eb, <- app_assoc, <- Hu. by apply (incoming_full p hdr (recv d c)). }
    rewrite Es. destruct (c_inmsglen c <=? Z.of_nat (avail c)) eqn:E.
    + assert ((c_inmsglen c <=? Z.of_nat (avail (recv d c))) = true) as E'.
      { apply Z.leb_le in E. apply Z.leb_le.
        rewrite !avail_unread in *. rewrite Hu, length_app. lia. }
      rewrite E' in Hin. exists (recv d c). split; [done|]. split; [|done].
      replace (recv d c) with (set_instate HAS_MSG (recv d c)); [done|].
      rewrite <- Es at 1. by destruct c.
    + rewrite fill_buf_spec. eexists. split; [reflexivity|].
      assert (set_instate FILL_BUF (recv d c) = recv d c) as Er
        by (rewrite <- Es at 1; by destruct c).
      change (c_inmsglen (recv d c)) with (c_inmsglen c).
      destruct (c_inmsglen c <=? Z.of_nat (avail (recv d c))); [done|].
      by rewrite Er in Hin.
Qed.

Lemma incoming_ext p bs c c' :
  incoming p bs c -> live p c' -> unread c' = unread c ->
  c_instate c' = c_instate c -> c_inmsglen c' = c_inmsglen c -> incoming p bs c'.
Proof.
  intros [_ Hi] Hl Hu Hs Hm. split; [done|]. by rewrite avail_unread, Hu, Hs, Hm, <- avail_unread.
Qed.

Lemma chop_input_spec p c :
  live p c -> live p (chop_input c) /\ unread (chop_input c) = unread c /\
    c_instate (chop_input c) = c_instate c /\ c_inmsglen (chop_input c) = c_inmsglen c /\
    c_io (chop_input c) = c_io c.
Proof.
  intros (Ht & Hp & He & Hb). pose proof (ci_chop_input c Hb) as Hb'.
  unfold live. unfold chop_input in *. by destruct (_ || _).
Qed.

(** The data a receiver is still going to get: the kernel hands it out in
    pieces [ds], none of them empty. *)
Definition source (ds : list (list byte)) (c : MsgChannel) : Prop :=
  io_reads (c_io c) = map ReadData ds /\ Forall (fun d => d <> []) ds.

Lemma sys_read_spec n ds c :
  source ds c -> (0 < n)%nat ->
  exists d ds' o, d ++ concat ds' = concat ds /\ (ds <> [] -> d <> []) /\
    sys_read n c = Ok (match ds with [] => ReadErr EAGAIN | _ => ReadData d end, set_io o c) /\
    io_reads o = map ReadData ds' /\ Forall (fun d => d <> []) ds' /\
    (io_polls o = io_polls (c_io c) /\ io_sends o = io_sends (c_io c) /\
     io_sent o = io_sent (c_io c)) /\ (length d <= n)%nat.
Proof.
  intros [Er Hne] Hn. unfold sys_read. rewrite bind_gets, Er.
  destruct ds as [|d ds]; cbn [map].
  - exists [], [], (set_io_errno EAGAIN (c_io c)). cbn. rewrite Er. repeat split; try done; try constructor; lia.
  - apply Forall_cons in Hne as [Hd Hne].
    exists (take n d), (match drop n d with [] => ds | l => l :: ds end).
    exists (set_io_reads (map ReadData (match drop n d with [] => ds | l => l :: ds end)) (c_io c)).
    pose proof (take_drop n d) as Etd. destruct n as [|n]; [lia|]. destruct d as [|b d]; [done|].
    split; [|split; [done|split; [|split; [done|split; [|split; [done|]]]]]].
    + cbn [concat]. rewrite <- Etd at 3. rewrite <- app_assoc. f_equal.
      by destruct (drop (S n) (b :: d)).
    + rewrite bind_modify. do 4 f_equal. by destruct (drop (S n) (b :: d)).
    + destruct (drop (S n) (b :: d)) eqn:E; [done|]. by constructor.
    + rewrite length_take. lia.
Qed.

(** Two channels that differ in the layout of the read buffer and in what
    the kernel holds for it only. *)
Definition same_channel (c c' : MsgChannel) : Prop :=
  (c_text_based c, c_protocol c, c_eof c, c_instate c, c_inmsglen c, c_msgtogo c, c_msgofs c,
   c_maximum_remote_protocol c)
  = (c_text_based c', c_protocol c', c_eof c', c_instate c', c_inmsglen c', c_msgtogo c',
     c_msgofs c', c_maximum_remote_protocol c') /\
  unread c = unread c' /\
  (io_sends (c_io c), io_sent (c_io c), io_polls (c_io c))
  = (io_sends (c_io c'), io_sent (c_io c'), io_polls (c_io c')).

Lemma chop_input_same c : same_channel (chop_input c) c.
Proof.
  unfold chop_input, same_channel, unread. destruct (_ || _); [|done]. cbn. by rewrite drop_0.
Qed.

(** [read_a_bit] takes in a piece of what the kernel holds, into a buffer
    that has room for it, and looks at it. *)
Lemma read_a_bit_reads ds c :
  c_eof c = false -> buffer_ok c -> source ds c ->
  exists d ds' c1, d ++ concat ds' = concat ds /\ (ds <> [] -> d <> []) /\ source ds' c1 /\
    same_channel c1 c /\ buffer_ok c1 /\ Z.of_nat (c_inofs c1 + length d) <= c_inbuflen c1 /\
    forall c', update_state se (recv d c1) = Ok (true, c') -> read_a_bit se c = Ok (true, c').
Proof.
  intros He Hb Hs. pose proof (ci_chop_input c Hb) as Hb1. pose proof (chop_input_same c) as Hs1.
  assert (c_io (chop_input c) = c_io c) as Hio1 by (unfold chop_input; by case_match).
  unfold read_a_bit. rewrite !bind_modify. set (c1 := chop_input c) in *. clearbody c1.
  match goal with |- context [(get ≫= _) ?x] => set (c2 := x) end.
  assert (same_channel c2 c /\ c_io c2 = c_io c /\ buffer_ok c2 /\
          Z.of_nat (c_inofs c2) + 128 <= c_inbuflen c2) as (Hs2 & Hio2 & Hb2 & Hroom).
  { subst c2. destruct (_ <? _) eqn:E; boolify; [|repeat (split; [done|]); lia].
    pose proof (align128_ge (c_inbuflen c1 + 128)). destruct Hb1 as [Hb1 Hb1'].
    split; [done|]. split; [done|]. split; [apply ci_inbuflen; [done|lia]|].
    unfold c_inofs in *. cbn. lia. }
  clearbody c2. rewrite bind_get. set (n := Z.to_nat _).
  assert (source ds c2) as Hsrc by (unfold source; by rewrite Hio2).
  destruct (sys_read_spec n ds c2 Hsrc ltac:(unfold n; lia))
    as (d & ds' & o & Ed & Hd & Er & Ho & Hne & (Hp & Hse & Hst) & Hdn).
  assert (c_eof c2 = false) as He2 by (destruct Hs2; congruence).
  exists d, ds', (set_io o c2). do 2 (split; [done|]). split; [done|].
  split; [|split; [done|split; [change (Z.of_nat (c_inofs c2 + length d) <= c_inbuflen c2); unfold n in *; lia|]]].
  - destruct Hs2 as (E1 & E2 & E3). split; [exact E1|split; [exact E2|]]. cbn. by rewrite Hp, Hse, Hst.
  - intros c' Eu. assert (exists k, n = S k) as [k Ek] by (exists (pred n); unfold n; lia).
    clearbody n. cbn [read_loop]. rewrite bind_assoc, bind_gets, He2, Ek.
    rewrite bind_assoc, <- Ek, (bind_ok _ _ _ _ _ Er).
    destruct ds as [|d0 ds].
    + assert (d = []) as -> by (by destruct d).
      assert (recv [] (set_io o c2) = set_io o c2) as E0
        by (unfold recv; cbn; rewrite app_nil_r; by destruct c2).
      rewrite E0 in Eu. by rewrite bind_ret_l, (bind_ok _ _ _ _ _ Eu).
    + destruct d as [|b d]; [by destruct Hd|].
      rewrite bind_assoc, bind_modify, bind_ret_l.
      change (set_inbuf _ _) with (recv (b :: d) (set_io o c2)).
      by rewrite (bind_ok _ _ _ _ _ Eu).
Qed.

Lemma read_a_bit_spec p bs ds c :
  incoming p bs c -> source ds c ->
  exists d ds' c', read_a_bit se c = Ok (true, c') /\ incoming p (bs ++ d) c' /\
    d ++ concat ds' = concat ds /\ (ds <> [] -> d <> []) /\ source ds' c' /\
    io_polls (c_io c') = io_polls (c_io c).
Proof.
  intros Hi Hs. pose proof Hi as [(Ht & Hp & He & Hb) _].
  destruct (read_a_bit_reads ds c He Hb Hs)
    as (d & ds' & c1 & Ed & Hd & Hs' & (E1 & E2 & E3) & Hb1 & Hroom & Hr).
  injection E1 as Et Ep Ee Est Em _ _ _. injection E3 as _ _ Epo.
  assert (incoming p bs c1) as Hi1.
  { eapply incoming_ext; [exact Hi| |done..]. unfold live. by rewrite Et, Ep, Ee. }
  destruct (incoming_recv p bs d c1 Hi1 Hroom) as (c' & Eu & Hi' & Hio').
  exists d, ds', c'. unfold source. rewrite Hio'. split; [by apply Hr|].
  do 3 (split; [done|]). split; [exact Hs'|exact Epo].
Qed.

Lemma frame_prefix p m bs c t rest :
  sendable p m = true -> incoming p bs c -> bs ++ t = frame p m ++ rest ->
  (c_instate c = HAS_MSG /\ c_inmsglen c = Z.of_nat (length (body p m)) /\
   unread c ++ t = body p m ++ rest /\ (length (body p m) <= length (unread c))%nat) \/
  (c_instate c <> HAS_MSG /\ t <> []).
Proof.
  intros Hm [Hl Hi] E. apply andb_true_iff in Hm as [_ Hm].
  pose proof (f_equal length E) as El. unfold frame in *.
  rewrite !length_app, be32_length in El.
  destruct Hi as [(Hs & Hu & H4)|(hdr & H4 & Em & Eb & Es)].
  - right. split; [by rewrite Hs|]. intros ->. cbn in El. lia.
  - subst bs. rewrite <- !app_assoc in E. apply app_inj_1 in E as [-> E]; [|by rewrite H4].
    rewrite be32_value_be32, u32_small in Em by done.
    rewrite Em in Es. rewrite Es, Em. clear El Es. pose proof (f_equal length E) as El. rewrite !length_app in El.
    destruct (_ <=? _) eqn:Ele.
    + left. rewrite avail_unread in Ele. apply Z.leb_le in Ele. repeat split; try done. lia.
    + right. split; [done|]. intros ->.
      apply Z.leb_gt in Ele. rewrite avail_unread in Ele. cbn in El. lia.
Qed.

Lemma has_msg_live p c : live p c -> has_msg c = bool_decide (c_instate c = HAS_MSG).
Proof. intros (_ & _ & He & _). unfold has_msg. by rewrite He. Qed.

(** The loop reads until the message is complete. *)
Lemma wait_for_msg_loop_spec p m fuel bs ds c rest :
  sendable p m = true -> incoming p bs c -> source ds c ->
  bs ++ concat ds = frame p m ++ rest -> (length (concat ds) <= fuel)%nat ->
  io_polls (c_io c) = repeat PollReady fuel ->
  exists bs' ds' c' fuel', wait_for_msg_loop se fuel c = Ok (true, c') /\
    c_instate c' = HAS_MSG /\ incoming p bs' c' /\ source ds' c' /\
    bs' ++ concat ds' = frame p m ++ rest /\
    (length (concat ds') <= fuel')%nat /\ io_polls (c_io c') = repeat PollReady fuel'.
Proof.
  intros Hm. revert bs ds c.
  induction fuel as [|fuel IH]; intros bs ds c Hi Hs E Hf Hp;
    cbn [wait_for_msg_loop]; rewrite bind_gets, (has_msg_live p) by apply Hi;
    destruct (frame_prefix p m bs c _ rest Hm Hi E) as [(Hst & _)|[Hst Ht]].
  - rewrite bool_decide_true by done. exists bs, ds, c, 0%nat. done.
  - destruct (concat ds); [done|cbn in Hf; lia].
  - rewrite bool_decide_true by done. by exists bs, ds, c, (S fuel).
  - rewrite bool_decide_false by done. unfold sys_poll. rewrite bind_assoc, bind_gets, Hp.
    cbn [repeat]. rewrite !bind_assoc, bind_modify, !bind_assoc, !bind_ret_l, bind_gets.
    set (c1 := with_io _ c).
    destruct (read_a_bit_spec p bs ds c1) as (d & ds' & c2 & Er & Hi2 & Ed & Hd & Hs2 & Hp2).
    { eapply incoming_ext; [exact Hi|apply Hi|done..]. }
    { exact Hs. }
    rewrite (bind_ok _ _ _ _ _ Er).
    assert (length (concat ds') <= fuel)%nat as Hf'.
    { apply (f_equal length) in Ed. rewrite length_app in Ed.
      assert (d <> []) by (apply Hd; by intros ->). destruct d; [done|]. cbn in Ed. lia. }
    destruct (IH (bs ++ d) ds' c2) as (bs' & ds'' & c' & f' & ? & ?);
      [done|done|by rewrite <- app_assoc, Ed|done|by rewrite Hp2|].
    by exists bs', ds'', c', f'.
Qed.

Lemma take_msg_spec p m bs ds c rest :
  sendable p m = true -> incoming p bs c -> c_instate c = HAS_MSG ->
  bs ++ concat ds = frame p m ++ rest ->
  exists bs' c', take_msg platform se c = Ok (Some (wire_view p m), c') /\
    incoming p bs' c' /\ bs' ++ concat ds = rest /\ c_io c' = c_io c.
Proof.
  intros Hm Hi Hst E.
  destruct (frame_prefix p m bs c _ rest Hm Hi E) as [(_ & Em & Eu & Hlen)|[]]; [|done].
  assert (exists r, unread c = body p m ++ r /\ r ++ concat ds = rest) as (r & Er & Erest).
  { exists (drop (length (body p m)) (unread c)).
    pose proof (f_equal (take (length (body p m))) Eu) as Et.
    rewrite take_app_le, take_app_length in Et by lia.
    pose proof (take_drop (length (body p m)) (unread c)) as Etd. rewrite Et in Etd.
    split; [done|]. rewrite <- Etd, <- app_assoc in Eu. by apply app_inv_head in Eu. }
  apply andb_true_iff in Hm as [Hok Hlen32].
  destruct (body_codec platform p m Hok) as (w & payload & _ & _ & Eb & Hfill).
  destruct (Hfill (se false)) as (fill & Ef & Hr). clear Hfill.
  destruct Hi as [(Ht & Hp & He & Hb1 & Hb2) _].
  unfold take_msg. rewrite bind_get, Ht, bind_assoc.
  rewrite (bind_ok _ _ _ _ _ (reads_u32 p (msgtype_code (msg_type m)) c (payload ++ r) Hp
            ltac:(by rewrite Er, Eb, <- app_assoc))).
  rewrite bind_ret_l, msgtype_of_u32_code. cbn [mbind option_bind]. rewrite Ef.
  rewrite be32_length.
  rewrite (bind_ok _ _ _ _ _ (Hr (advance 4 c) r Hp
            ltac:(by rewrite unread_advance, Er, Eb, <- app_assoc))).
  rewrite bind_get, advance_advance. set (k := (4 + length payload)%nat).
  assert (length (body p m) = k) as Ek by (rewrite Eb, length_app, be32_length; done).
  change (c_text_based (advance k c)) with (c_text_based c).
  change (c_inmsglen (advance k c)) with (c_inmsglen c).
  change (c_intogo (advance k c)) with (c_intogo c + k)%nat.
  rewrite Ht, Em, <- Ek.
  replace (Z.of_nat (c_intogo c + length (body p m)) - Z.of_nat (c_intogo c))
    with (Z.of_nat (length (body p m))) by lia.
  apply is_u32_iff in Hlen32.
  assert (u64 (Z.of_nat (length (body p m))) = Z.of_nat (length (body p m))) as ->
    by (unfold u64; rewrite Z.mod_small; lia).
  rewrite Z.eqb_refl. cbn [negb andb]. rewrite bind_modify.
  destruct (incoming_need_len p r (set_instate NEED_LEN (advance (length (body p m)) c)))
    as (c' & Eup & Hi' & Hio).
  - repeat (split; [done|]). apply (ci_instate (I := buffer_ok)), ci_advance; [done|].
    rewrite avail_unread. lia.
  - done.
  - change (unread (advance (length (body p m)) c) = r).
    by rewrite unread_advance, Er, drop_app_length.
  - exists r, c'. rewrite (bind_ok _ _ _ _ _ Eup). done.
Qed.

(** A receiver holding [bs], with [stream] still to come, and whose [poll]s
    report data as long as there is some. *)
Definition receiving (p : Z) (stream : list byte) (c : MsgChannel) : Prop :=
  exists bs ds n, incoming p bs c /\ source ds c /\ bs ++ concat ds = stream /\
    (length (concat ds) <= n)%nat /\ io_polls (c_io c) = repeat PollReady n.

Lemma wait_for_msg_spec p m timeout c rest :
  sendable p m = true -> receiving p (frame p m ++ rest) c -> 0 < timeout ->
  exists bs ds c' n, wait_for_msg se timeout c = Ok (true, c') /\
    c_instate c' = HAS_MSG /\ incoming p bs c' /\ source ds c' /\
    bs ++ concat ds = frame p m ++ rest /\
    (length (concat ds) <= n)%nat /\ io_polls (c_io c') = repeat PollReady n.
Proof.
  intros Hm (bs & ds & n & Hi & Hs & E & Hn & Hp) Ht.
  unfold wait_for_msg. rewrite bind_get, (has_msg_live p) by apply Hi.
  destruct (frame_prefix p m bs c _ rest Hm Hi E) as [(Hst & _)|[Hst Hne]].
  - rewrite decide_False, bool_decide_true by (congruence || done).
    by exists bs, ds, c, n.
  - rewrite decide_False by (destruct Hi as [_ [(-> & _)|(? & _ & _ & _ & ->)]]; [done|by case_match]).
    rewrite bool_decide_false by done.
    destruct (read_a_bit_spec p bs ds c Hi Hs) as (d & ds' & c2 & Er & Hi2 & Ed & Hd & Hs2 & Hp2).
    rewrite (bind_ok _ _ _ _ _ Er). cbn [negb].
    rewrite (proj2 (Z.leb_gt timeout 0)) by lia.
    rewrite Hp, repeat_length.
    apply (wait_for_msg_loop_spec p m n (bs ++ d) ds'); [done|done|done| | |by rewrite Hp2, Hp].
    + by rewrite <- app_assoc, Ed.
    + apply (f_equal length) in Ed. rewrite length_app in Ed. lia.
Qed.

Lemma get_msg_spec p m timeout eofAllowed c rest :
  sendable p m = true -> receiving p (frame p m ++ rest) c -> 0 < timeout ->
  exists c', get_msg platform se timeout eofAllowed c = Ok (Some (wire_view p m), c') /\
    receiving p rest c'.
Proof.
  intros Hm Hr Ht. destruct (wait_for_msg_spec p m timeout c rest Hm Hr Ht)
    as (bs & ds & c1 & n & Ew & Hst & Hi & Hs & E & Hn & Hp).
  unfold get_msg. rewrite (bind_ok _ _ _ _ _ Ew). cbn [negb]. rewrite bind_get.
  unfold at_eof. rewrite (has_msg_live p) by apply Hi. rewrite Hst. cbn.
  destruct (take_msg_spec p m bs ds c1 rest Hm Hi Hst E) as (bs' & c' & Et & Hi' & E' & Hio).
  exists c'. split; [done|]. exists bs', ds, n. unfold source. by rewrite Hio.
Qed.

Lemma get_msgs_spec p ms timeout eofAllowed c rest :
  Forall (fun m => sendable p m = true) ms ->
  receiving p (concat (map (frame p) ms) ++ rest) c -> 0 < timeout ->
  exists c', repeat_m (length ms) (get_msg platform se timeout eofAllowed) c
    = Ok (map (fun m => Some (wire_view p m)) ms, c') /\ receiving p rest c'.
Proof.
  intros Hms Hr Ht. revert c Hr. induction Hms as [|m ms Hm Hms IH]; intros c Hr; [by exists c|].
  cbn [map concat length repeat_m] in *. rewrite <- app_assoc in Hr.
  destruct (get_msg_spec p m timeout eofAllowed c _ Hm Hr Ht) as (c1 & E1 & Hr1).
  rewrite (bind_ok _ _ _ _ _ E1). destruct (IH c1 Hr1) as (c2 & E2 & Hr2).
  exists c2. by rewrite (bind_ok _ _ _ _ _ E2).
Qed.
End receiver.

(** ** The sender *)

(** The kernel accepts data, possibly in pieces and with interruptions. *)
Definition accepting (l : list send_result) : Prop :=
  Forall (fun r => match r with SendOk (S _) | SendErr EINTR => True | _ => False end) l.

(** A binary channel past the handshake that has sent all it had. *)
Definition ready (p : Z) (c : MsgChannel) : Prop :=
  c_text_based c = false /\ c_protocol c = p /\ c_instate c <> NEED_PROTO /\
  c_instate c <> ERROR /\ c_msgtogo c = 0%nat /\ c_msgofs c = 0%nat /\
  accepting (io_sends (c_io c)).

Section sender.
Context `{CompressorLaws} (platform : string) (se : bool -> reader unit).

Lemma max_write_pos b : 0 < get_max_write_size b.
Proof. by destruct b. Qed.

(** Sending touches neither what is to be read nor what is polled. *)
Definition same_input (o o' : io) : Prop :=
  (io_reads o, io_polls o) = (io_reads o', io_polls o').

Lemma flush_loop_spec fuel blocking ofs c :
  (length (io_sends (c_io c)) + c_msgtogo c < fuel)%nat ->
  (ofs + c_msgtogo c <= length (c_msgbuf c))%nat -> accepting (io_sends (c_io c)) ->
  exists o, flush_loop fuel blocking ofs c
    = Ok (((ofs + c_msgtogo c)%nat, false), set_msgtogo 0 (set_io o c)) /\
    io_sent o = io_sent (c_io c) ++ take (c_msgtogo c) (drop ofs (c_msgbuf c)) /\
    accepting (io_sends o) /\ same_input o (c_io c).
Proof.
  revert ofs c. induction fuel as [|fuel IH]; intros ofs c Hf Hb Ha; [lia|].
  cbn [flush_loop]. rewrite bind_get.
  destruct (c_msgtogo c) as [|togo] eqn:Et.
  { exists (c_io c). rewrite Nat.add_0_r, take_0, app_nil_r. repeat split; [|done].
    rewrite <- Et. by destruct c. }
  set (n := Z.to_nat _). pose proof (max_write_pos (io_slow (c_io c))).
  assert (1 <= n <= S togo)%nat as Hn by (subst n; lia). clearbody n.
  set (buf := take n (drop ofs (c_msgbuf c))).
  assert (length buf = n) as Hbuf by (unfold buf; rewrite length_take, length_drop; lia).
  assert (forall k o, (1 <= k <= n)%nat ->
    (length (io_sends o) <= length (io_sends (c_io c)))%nat -> accepting (io_sends o) ->
    same_input o (c_io c) -> io_sent o = io_sent (c_io c) ++ take k buf ->
    exists o', (_ ← modify (fun c => set_msgtogo (c_msgtogo c - k) c);
                flush_loop fuel blocking (ofs + k)) (set_io o c)
      = Ok ((ofs + S togo, false)%nat, set_msgtogo 0 (set_io o' c)) /\
    io_sent o' = io_sent (c_io c) ++ take (S togo) (drop ofs (c_msgbuf c)) /\
    accepting (io_sends o') /\ same_input o' (c_io c)) as Hstep.
  { intros k o Hk Ho Hacc Hin Hsent. rewrite bind_modify.
    edestruct (IH (ofs + k)%nat (set_msgtogo (S togo - k) (set_io o c))) as (o' & E' & Es' & Ha' & Hin').
    - cbn. lia.
    - cbn. lia.
    - done.
    - exists o'. cbn [c_msgtogo set_io set_msgtogo]. rewrite Et.
      split; [|split; [|split; [done|by etrans]]].
      + rewrite E'. cbn [c_msgtogo set_msgtogo].
        by replace (ofs + k + (S togo - k))%nat with (ofs + S togo)%nat by lia.
      + rewrite Es'. cbn. rewrite Hsent, <- app_assoc. f_equal.
        unfold buf. rewrite take_take, Nat.min_l by lia.
        rewrite <- drop_drop. symmetry. etrans; [symmetry; apply (take_drop k)|].
        rewrite take_take, Nat.min_l by lia. f_equal.
        by rewrite skipn_firstn_comm. }
  unfold sys_send. rewrite bind_assoc, bind_gets.
  destruct (io_sends (c_io c)) as [|r ss] eqn:Es.
  - rewrite bind_assoc, bind_modify, bind_ret_l, Hbuf.
    destruct n as [|n]; [lia|].
    apply (Hstep (S n) (set_io_sent (io_sent (c_io c) ++ buf) (c_io c))); cbn;
      [lia|by rewrite Es|by rewrite Es|done|]. by rewrite take_ge by lia.
  - apply Forall_cons in Ha as [Hr Hss]. destruct r as [[|k]|e]; try done.
    + rewrite bind_assoc, bind_modify, bind_ret_l.
      assert (exists k', length (take (S k) buf) = S k' /\ (S k' <= n)%nat) as (k' & Ek & Hk').
      { rewrite length_take. exists (Nat.min k (pred n)). lia. }
      rewrite Ek. apply (Hstep (S k')
        (set_io_sends ss (set_io_sent (io_sent (c_io c) ++ take (S k) buf) (c_io c)))); cbn;
        [lia|lia|done|done|].
      f_equal. rewrite <- Ek, length_take. rewrite <- (take_take buf (S k)).
      by rewrite (take_ge buf (length buf)) by lia.
    + destruct e; try done. rewrite bind_assoc, bind_modify, bind_assoc.
      unfold set_errno. rewrite bind_modify, bind_ret_l.
      destruct (IH ofs (with_io (set_io_errno EINTR) (with_io (set_io_sends ss) c)))
        as (o' & E' & Es' & Ha'); cbn in *; [lia|lia|done|].
      exists o'. rewrite Et in *. done.
Qed.

Lemma flush_spec blocking c :
  c_msgofs c = 0%nat -> wbuf_ok c -> accepting (io_sends (c_io c)) ->
  exists o, flush_writebuf se blocking c
      = Ok (true, set_msgofs 0 (set_msgtogo 0 (set_io o c))) /\
    io_sent o = io_sent (c_io c) ++ staged c /\ accepting (io_sends o) /\
    same_input o (c_io c).
Proof.
  intros Ho Hw Ha. unfold flush_writebuf. rewrite bind_get.
  destruct (flush_loop_spec (S (length (io_sends (c_io c)) + c_msgtogo c)) blocking (c_msgofs c) c)
    as (o & E & Eo & Ha'); [lia|rewrite Ho; exact Hw|done|].
  rewrite (bind_ok _ _ _ _ _ E), bind_modify. exists o. rewrite Ho in Eo.
  split; [|done]. unfold chop_output. cbn. by rewrite orb_true_r.
Qed.

Lemma send_msg_spec p m flags c :
  sendable p m = true -> ready p c -> Z.land flags SendBulkOnly = 0 ->
  exists c', send_msg se m flags c = Ok (true, c') /\ ready p c' /\
    io_sent (c_io c') = io_sent (c_io c) ++ frame p m.
Proof.
  intros Hm (Ht & Hp & Hs & He & Hg & Ho & Ha) Hf.
  apply andb_true_iff in Hm as [Hok Hlen].
  destruct (body_codec platform p m Hok) as (w & payload & Ew & Hw & Eb & _).
  assert (chop_output c = c) as Ec.
  { unfold chop_output. rewrite Hg, orb_true_r. cbn. rewrite <- Ho. by destruct c. }
  unfold send_msg. rewrite bind_get.
  match goal with |- context [(?r ≫= _) c] =>
    assert (r = (mret true : reader bool)) as -> by (by destruct (c_instate c)) end.
  rewrite bind_ret_l. cbn [negb]. rewrite bind_modify, bind_get, Ec, Ht, bind_assoc, bind_modify.
  assert (wbuf_ok c) as Hwb by (unfold wbuf_ok; lia).
  destruct (emits_seq p (put_u32 0) w (be32 0) (body p m)) with (c := c) as (Hout & Hwb2 & Est);
    [apply emits_writefull|done|done|done|done|].
  unfold seqw in *. rewrite Ew, bind_assoc, bind_modify, bind_modify.
  set (c2 := w (put_u32 0 c)) in *. clearbody c2. rewrite Hg.
  assert (staged c2 = [] ++ be32 0 ++ body p m) as Est'
    by (rewrite Est; unfold staged; by rewrite Hg).
  pose proof (staged_length c2 Hwb2) as Hsl.
  rewrite Est', !length_app, be32_length in Hsl. cbn [length] in Hsl.
  destruct (staged_patch c2 [] (be32 0) (body p m)
              (u32 (Z.of_nat (c_msgtogo c2 - 0) - 4)) Hwb2 Est' eq_refl) as [Hwb3 Est3].
  cbv zeta in *. cbn [app length] in *. fold (patch_len 0 c2) in *.
  rewrite be32_u32 in Est3.
  replace (Z.of_nat (c_msgtogo c2 - 0) - 4) with (Z.of_nat (length (body p m))) in Est3 by lia.
  fold (frame p m) in Est3. rewrite bind_get, Hf. cbn [Z.eqb negb andb].
  assert (c_io (patch_len 0 c2) = c_io c) as Eio by (rewrite Hout; done).
  destruct (flush_spec (negb (Z.land flags SendBlocking =? 0)) (patch_len 0 c2))
    as (o & E' & Hsent & Ha' & _); [by rewrite Hout|done|by rewrite Eio|].
  eexists. split; [exact E'|]. rewrite Est3, Eio in Hsent.
  split; [|done]. repeat split; try done; by rewrite Hout.
Qed.

Lemma send_msgs_spec p ms flags c :
  Forall (fun m => sendable p m = true) ms -> ready p c -> Z.land flags SendBulkOnly = 0 ->
  exists c', for_each (fun m => ok ← send_msg se m flags; assert ok) ms c = Ok (tt, c') /\
    ready p c' /\ io_sent (c_io c') = io_sent (c_io c) ++ concat (map (frame p) ms).
Proof.
  intros Hms. revert c. induction Hms as [|m ms Hm Hms IH]; intros c Hr Hf.
  - exists c. by rewrite app_nil_r.
  - destruct (send_msg_spec p m flags c Hm Hr Hf) as (c1 & E1 & Hr1 & S1).
    destruct (IH c1 Hr1 Hf) as (c2 & E2 & Hr2 & S2).
    exists c2. cbn [for_each map concat].
    rewrite bind_assoc, (bind_ok _ _ _ _ _ E1). cbn [assert]. rewrite bind_ret_l.
    split; [done|]. split; [done|]. by rewrite S2, S1, app_assoc.
Qed.
End sender.

(** ** The handshake *)

Section handshake.
Context `{CompressorLaws} (platform : string) (se : bool -> reader unit).

(** Where a channel is in its handshake: nothing heard yet, or the agreed
    version sent (and kept as [-1 - version]) and not confirmed. *)
Definition negotiating (c : MsgChannel) : Prop :=
  c_instate c = NEED_PROTO /\
  (c_protocol c = -1 \/ MIN_PROTOCOL_VERSION <= - (c_protocol c + 1) <= PROTOCOL_VERSION).
Definition negotiated (c : MsgChannel) : Prop :=
  MIN_PROTOCOL_VERSION <= c_protocol c <= PROTOCOL_VERSION.

Lemma flush_true_io blocking c c' :
  flush_writebuf se blocking c = Ok (true, c') ->
  c_protocol c' = c_protocol c /\ c_instate c' = c_instate c /\ c_eof c' = c_eof c.
Proof.
  assert (forall x y z fuel ofs,
    keeps (fun c => c_protocol c = x /\ c_instate c = y /\ c_eof c = z) (flush_loop fuel blocking ofs)) as Hl.
  { intros x y z. induction fuel as [|fuel IH]; intros ofs; cbn [flush_loop]; [keep|].
    assert (forall e, keeps (fun c => c_protocol c = x /\ c_instate c = y /\ c_eof c = z) (set_errno e)) as He
      by (intros e; unfold set_errno; by apply keeps_modify).
    assert (forall k, keeps (fun c => c_protocol c = x /\ c_instate c = y /\ c_eof c = z)
                        (modify (fun c => set_msgtogo (c_msgtogo c - k) c))) as Hm
      by (intros k; by apply keeps_modify).
    assert (keeps (fun c => c_protocol c = x /\ c_instate c = y /\ c_eof c = z) sys_poll) as Hp.
    { unfold sys_poll. apply keeps_bind; [keep|]. intros [|r ps]; [keep|].
      apply keeps_bind; [by apply keeps_modify|intros _].
      apply keeps_bind; [destruct r; [keep|keep|apply He]|intros _; keep]. }
    assert (forall n, keeps (fun c => c_protocol c = x /\ c_instate c = y /\ c_eof c = z) (poll_uninterrupted n)) as Hpu
      by (intros n; induction n; cbn; keep).
    apply keeps_get_any. intros c0. destruct (c_msgtogo c0); [keep|].
    apply keeps_bind.
    { unfold sys_send. apply keeps_bind; [keep|]. intros [|[k|e] ss];
        (apply keeps_bind; [by apply keeps_modify|intros _]); keep. }
    intros [[|k]|e]; keep. }
  unfold flush_writebuf. rewrite bind_get. intros E.
  apply bind_inv in E as ([ofs err] & c1 & E1 & E2). rewrite bind_modify in E2.
  apply (Hl (c_protocol c) (c_instate c) (c_eof c)) in E1; [|done].
  cbn [fst snd] in E2. destruct err.
  - apply bind_inv in E2 as (? & ? & _ & [=]).
  - injection E2 as <-. unfold chop_output. by destruct (_ || _).
Qed.

Lemma need_proto_safe fuel c c' :
  negotiating c -> state_need_proto se fuel c = Ok (None, c') ->
  negotiating c' \/ (c_instate c' = NEED_LEN /\ negotiated c').
Proof.
  revert c. induction fuel as [|fuel IH]; intros c Hn; cbn [state_need_proto];
    rewrite bind_get; [intros [= <-]; by left|].
  destruct (avail c <? 4)%nat; [intros [= <-]; by left|].
  destruct (c_protocol c =? 0); [done|]. rewrite bind_modify.
  set (v := le_value _). destruct Hn as [Hst Hp].
  destruct (c_protocol c =? -1) eqn:E1.
  - rewrite bind_modify.
    assert (forall s x y, (_ ← se s; mret (Some false)) x <> Ok (None, y)) as Hse
      by (intros s x y E; apply bind_inv in E as (? & ? & _ & [=])).
    destruct (_ || _) eqn:Ev; [by intros E%Hse|]. boolify.
    rewrite bind_modify, bind_modify. intros E.
    apply bind_inv in E as (ok & c1 & Ef & E). destruct ok; cbn [negb] in E; [|by apply Hse in E].
    apply flush_true_io in Ef as (_ & Ei & _). rewrite bind_modify in E.
    apply IH in E; [done|]. split.
    { cbn. rewrite Ei. unfold writefull. cbn -[le_bytes]. by destruct (_ <=? _). }
    right. cbn.
    unfold MIN_PROTOCOL_VERSION, PROTOCOL_VERSION in *.
    destruct (_ <? v) eqn:Ez; boolify; lia.
  - apply Z.eqb_neq in E1. destruct (_ <? -1) eqn:E2.
    + rewrite bind_modify. destruct (negb _); [intros E|].
      { apply bind_inv in E as (? & ? & _ & E). apply bind_inv in E as (? & ? & _ & [=]). }
      rewrite bind_modify. intros [= <-]. right. split; [done|].
      unfold negotiated. cbn. lia.
    + intros E. apply bind_inv in E as (? & ? & _ & [=]).
Qed.

Ltac kp :=
  apply keeps_modify; intros ? (? & ? & ?); try case_goal;
  (split; [assumption|split; [assumption|first [assumption|by split]]]).

(** The handshake is over and the channel is not in its error state. *)
Definition past_handshake (c : MsgChannel) : Prop :=
  c_instate c <> NEED_PROTO /\ c_instate c <> ERROR.

Lemma keeps_need_len_protocol x y :
  keeps (fun c => c_protocol c = x /\ c_maximum_remote_protocol c = y /\ past_handshake c) state_need_len.
Proof.
  assert (keeps (fun c => c_protocol c = x /\ c_maximum_remote_protocol c = y /\ past_handshake c) get_u32) as Hu.
  { intros c a c' HI. unfold get_u32. by destruct (_ <=? _)%nat; intros [= <- <-]. }
  assert (keeps (fun c => c_protocol c = x /\ c_maximum_remote_protocol c = y /\ past_handshake c) state_fill_buf) as Hb.
  { unfold state_fill_buf. apply keeps_get_any. intros c.
    apply keeps_bind; [|intros; apply keeps_ret]. apply keeps_when. kp. }
  unfold state_need_len. apply keeps_get_any. intros c. apply keeps_if.
  - apply keeps_if; [apply keeps_throw|]. destruct (find_control _);
      (apply keeps_bind; [kp|intros; apply keeps_ret]).
  - apply keeps_if; [|apply keeps_ret]. apply keeps_bind; [exact Hu|intros len].
    do 3 (apply keeps_bind; [kp|intros _]).
    exact Hb.
Qed.

Lemma update_state_safe c c' :
  negotiating c -> update_state se c = Ok (true, c') ->
  negotiating c' \/ (past_handshake c' /\ negotiated c').
Proof.
  intros Hn. unfold update_state. rewrite bind_get. rewrite (proj1 Hn). intros E.
  apply bind_inv in E as (r & c1 & E1 & E). destruct r as [b|].
  { injection E as -> <-. exfalso. revert E1. clear Hn.
    generalize (S (avail c)). intros fuel. revert c.
    induction fuel as [|fuel IH]; intros c; cbn [state_need_proto]; rewrite bind_get; [done|].
    destruct (avail c <? 4)%nat; [done|]. destruct (c_protocol c =? 0); [done|]. rewrite bind_modify.
    assert (forall s x y, (_ ← se s; mret (Some false)) x <> Ok (Some true, y)) as Hse
      by (intros s x y E; apply bind_inv in E as (? & ? & _ & [=])).
    destruct (c_protocol c =? -1).
    - rewrite bind_modify. destruct (_ || _); [by intros E%Hse|].
      rewrite !bind_modify. intros E. apply bind_inv in E as (ok & c2 & _ & E).
      destruct ok; cbn [negb] in E; [|by apply Hse in E]. rewrite bind_modify in E. by apply IH in E.
    - destruct (_ <? -1); [|by intros E%Hse]. rewrite bind_modify. destruct (negb _); [|done].
      rewrite bind_modify. by intros E%Hse. }
  apply need_proto_safe in E1; [|done]. rewrite bind_gets in E.
  destruct E1 as [Hn1|[Hs1 Hn1]].
  - destruct Hn1 as [Hs1 Hn1]. destruct (decide (c_instate c1 = NEED_LEN)); [congruence|].
    injection E as <-. by left.
  - destruct (decide (c_instate c1 = NEED_LEN)); [|done]. right.
    apply (keeps_need_len_protocol (c_protocol c1) (c_maximum_remote_protocol c1))
      in E as (Ep & _ & Ei); [|by unfold past_handshake; rewrite Hs1]. split; [done|]. unfold negotiated. by rewrite Ep.
Qed.

(** The steps of the engine outside of [update_state] leave protocol and
    state alone. *)
Lemma keeps_read_loop_protocol x y fuel n :
  keeps (fun c => c_protocol c = x /\ c_instate c = y) (read_loop fuel n).
Proof.
  assert (keeps (fun c => c_protocol c = x /\ c_instate c = y) (sys_read n)) as Hr.
  { unfold sys_read. apply keeps_bind; [keep|]. intros [|[bs|e|] rs]; unfold set_errno;
      repeat (apply keeps_bind; [by apply keeps_modify|intros _]); keep. }
  induction fuel as [|fuel IH]; cbn [read_loop]; (apply keeps_bind; [keep|intros e]); [keep|].
  destruct n; [keep|]. destruct e; [keep|]. apply keeps_bind; [exact Hr|].
  intros [[|b d]|e|]; try (apply keeps_bind; [by apply keeps_modify|intros _; keep]).
  destruct e; first [exact IH|keep].
Qed.

Lemma read_a_bit_safe c c' :
  negotiating c -> read_a_bit se c = Ok (true, c') ->
  negotiating c' \/ (past_handshake c' /\ negotiated c').
Proof.
  intros Hn. unfold read_a_bit. rewrite !bind_modify, bind_get. intros E.
  apply bind_inv in E as (err & c1 & E1 & E).
  apply (keeps_read_loop_protocol (c_protocol c) (c_instate c)) in E1 as [Ep1 Ei1].
  2: { unfold chop_input. by repeat case_goal. }
  apply bind_inv in E as (ok & c2 & E2 & E).
  destruct (err || negb ok) eqn:Eo.
  { apply bind_inv in E as (? & ? & _ & E). apply bind_inv in E as (? & ? & _ & [=]). }
  injection E as <-. destruct err, ok; try done. apply update_state_safe in E2; [done|].
  unfold negotiating in *. by rewrite Ep1, Ei1.
Qed.

Lemma wait_for_protocol_safe fuel c c' :
  c_eof c = false -> negotiating c \/ (past_handshake c /\ negotiated c) ->
  wait_for_protocol_loop se fuel c = Ok (true, c') ->
  c_eof c' = false /\ past_handshake c' /\ negotiated c'.
Proof.
  assert (forall x y, keeps (fun c => c_eof c = false /\ c_protocol c = x /\ c_instate c = y) sys_poll) as Hpoll.
  { intros x y. unfold sys_poll, set_errno. apply keeps_bind; [keep|]. intros [|r ps]; [keep|].
    apply keeps_bind; [by apply keeps_modify|intros _].
    apply keeps_bind; [|intros _; keep]. destruct r; [keep|keep|by apply keeps_modify]. }
  assert (forall x y, (_ ← se false; mret false) x <> Ok (true, y)) as Hse
    by (intros x y E; apply bind_inv in E as (? & ? & _ & [=])).
  revert c. induction fuel as [|fuel IH]; intros c He Hn; cbn [wait_for_protocol_loop]; rewrite bind_gets;
    (destruct (decide _) as [Hd|Hd]; [intros [= <-]; destruct Hn as [[Hs _]|Hn]; done|]);
    intros E; apply bind_inv in E as (r & c1 & E1 & E).
  - destruct r; [done|by apply Hse in E..].
  - apply (Hpoll (c_protocol c) (c_instate c)) in E1 as (He1 & Ep & Ei); [|done].
    assert (negotiating c1) as Hn1.
    { destruct Hn as [Hn|[[Hs _] _]]; [|by apply dec_stable in Hd].
      unfold negotiating in *. by rewrite Ep, Ei. }
    destruct r as [| |e]; [|by apply Hse in E|destruct e; first [by apply Hse in E|by apply (IH c1); [|left|]]].
    apply bind_inv in E as (ok & c2 & E2 & E). rewrite bind_gets in E.
    destruct ok; [|done]. destruct (c_eof c2) eqn:He2; [done|].
    apply read_a_bit_safe in E2; [|done]. by apply (IH c2).
Qed.
(** *** A handshake that succeeds *)

(** A binary channel in its handshake that has sent all it had. *)
Definition greeting (c : MsgChannel) : Prop :=
  c_instate c = NEED_PROTO /\ c_text_based c = false /\ c_eof c = false /\ buffer_ok c /\
  c_msgtogo c = 0%nat /\ c_msgofs c = 0%nat /\ accepting (io_sends (c_io c)).

(** How far a channel is that began with [sent] sent and whose peer knows the
    versions up to [v]: [bs] are the bytes it has taken from the stream. *)
Definition heard (v : Z) (sent bs : list byte) (c : MsgChannel) : Prop :=
  let p := Z.min v PROTOCOL_VERSION in
  greeting c /\
  ((c_protocol c = -1 /\ unread c = bs /\ io_sent (c_io c) = sent) \/
   (c_protocol c = -1 - p /\ bs = le_bytes 4 v ++ unread c /\
    c_maximum_remote_protocol c = v /\ io_sent (c_io c) = sent ++ le_bytes 4 p)).

(** ... and when the handshake is over, [bs] being the bytes after it. *)
Definition agreed (v : Z) (sent bs : list byte) (c : MsgChannel) : Prop :=
  let p := Z.min v PROTOCOL_VERSION in
  incoming p bs c /\ ready p c /\ c_maximum_remote_protocol c = v /\
  io_sent (c_io c) = sent ++ le_bytes 4 p.

Definition versions (v : Z) : list byte :=
  le_bytes 4 v ++ le_bytes 4 (Z.min v PROTOCOL_VERSION).

Lemma versions_length v : length (versions v) = 8%nat.
Proof. unfold versions. by rewrite length_app, !le_bytes_length. Qed.

Lemma le_value_le_bytes_small z : 0 <= z < 2 ^ 32 -> le_value (le_bytes 4 z) = z.
Proof. intros Hz. rewrite le_value_le_bytes. by apply Z.mod_small. Qed.

Lemma greeting_advance n c : greeting c -> (n <= avail c)%nat -> greeting (advance n c).
Proof.
  intros (? & ? & ? & Hb & ? & ? & ?) Hn. do 3 (split; [done|]). split; [|done].
  by apply ci_advance.
Qed.

(** The first word: the peer's version is answered. *)
Lemma first_word fuel v rest sent c :
  MIN_PROTOCOL_VERSION <= v <= Z.shiftl 1 20 -> greeting c -> c_protocol c = -1 ->
  io_sent (c_io c) = sent -> unread c = le_bytes 4 v ++ rest ->
  exists c', state_need_proto se (S fuel) c = state_need_proto se fuel c' /\
    heard v sent (le_bytes 4 v ++ rest) c' /\ unread c' = rest /\
    c_protocol c' = -1 - Z.min v PROTOCOL_VERSION /\
    io_reads (c_io c') = io_reads (c_io c) /\ io_polls (c_io c') = io_polls (c_io c).
Proof.
  intros Hv Hg Hp Hsent Hu. pose proof Hg as (Hst & Ht & He & Hb & Htogo & Hofs & Hacc).
  assert (avail c = 4 + length rest)%nat as Ha
    by (rewrite avail_unread, Hu, length_app, le_bytes_length; lia).
  change (Z.shiftl 1 20) with 1048576 in Hv. unfold MIN_PROTOCOL_VERSION in Hv.
  cbn [state_need_proto]. rewrite bind_get, Ha. cbn [Nat.add Nat.ltb Nat.leb]. rewrite Hp.
  cbn [Z.eqb Pos.eqb]. rewrite bind_modify, Hu, take_app_length' by (by rewrite le_bytes_length).
  rewrite le_value_le_bytes_small by lia. rewrite bind_modify.
  rewrite (proj2 (orb_false_iff _ _))
    by (split; apply Z.ltb_ge; unfold MIN_PROTOCOL_VERSION; change (Z.shiftl 1 20) with 1048576; lia).
  rewrite bind_modify. cbv zeta. set (p := Z.min v PROTOCOL_VERSION) in *.
  assert ((if PROTOCOL_VERSION <? v then PROTOCOL_VERSION else v) = p) as ->.
  { unfold p, PROTOCOL_VERSION. destruct (_ <? v) eqn:E; boolify; lia. }
  rewrite bind_modify. set (c1 := set_maximum_remote_protocol v _).
  destruct (emits_writefull (c_protocol c1) (le_bytes 4 p) c1) as (Hout & Hwb & Est);
    [unfold wbuf_ok; cbn; lia|done|done|].
  set (c2 := writefull _ c1) in *. clearbody c2.
  destruct (flush_spec se true c2) as (o & Ef & Hsent' & Hacc' & [= Hr' Hp']);
    [by rewrite Hout|done|by rewrite Hout|].
  rewrite (bind_ok _ _ _ _ _ Ef). cbn [negb]. rewrite bind_modify.
  eexists. split; [reflexivity|]. set (c3 := set_protocol (-1 - p) _).
  assert (unread c3 = rest) as Hu3.
  { unfold c3. rewrite Hout. change (drop (c_intogo c + 4) (c_inbuf c) = rest).
    rewrite <- drop_drop. change (drop (c_intogo c) (c_inbuf c)) with (unread c).
    rewrite Hu. apply drop_app_length'. by rewrite le_bytes_length. }
  assert (buffer_ok (advance 4 c)) as Hb4 by (apply ci_advance; [done|lia]).
  split; [|split; [done|]].
  - split.
    + unfold greeting, c3. rewrite Hout. done.
    + right. rewrite Hu3. split; [done|split; [done|split; [by unfold c3; rewrite Hout|]]].
      change (io_sent o = sent ++ le_bytes 4 p). rewrite Hsent', Est, Hout.
      unfold staged. cbn. by rewrite Htogo, Hsent.
  - split; [done|]. change (c_io c3) with o. rewrite Hr', Hp', Hout. done.
Qed.

(** The second word confirms it. *)
Lemma second_word fuel v rest c :
  MIN_PROTOCOL_VERSION <= v -> greeting c ->
  c_protocol c = -1 - Z.min v PROTOCOL_VERSION ->
  unread c = le_bytes 4 (Z.min v PROTOCOL_VERSION) ++ rest ->
  state_need_proto se (S fuel) c
  = Ok (None, set_instate NEED_LEN (set_protocol (Z.min v PROTOCOL_VERSION) (advance 4 c))).
Proof.
  intros Hv Hg Hp Hu. set (p := Z.min v PROTOCOL_VERSION) in *.
  assert (21 <= p <= 45) as Hpb by (unfold p, PROTOCOL_VERSION, MIN_PROTOCOL_VERSION in *; lia).
  assert (avail c = 4 + length rest)%nat as Ha
    by (rewrite avail_unread, Hu, length_app, le_bytes_length; lia).
  cbn [state_need_proto]. rewrite bind_get, Ha. cbn [Nat.add Nat.ltb Nat.leb]. rewrite Hp.
  rewrite (proj2 (Z.eqb_neq (-1 - p) 0)) by lia.
  rewrite bind_modify, Hu, take_app_length' by (by rewrite le_bytes_length).
  rewrite le_value_le_bytes_small by lia.
  rewrite (proj2 (Z.eqb_neq (-1 - p) (-1))), (proj2 (Z.ltb_lt (-1 - p) (-1))) by lia.
  replace (- (-1 - p + 1)) with p by lia. rewrite bind_modify.
  rewrite i32_small by (apply is_i32_iff; lia). by rewrite Z.eqb_refl.
Qed.

Lemma need_len_frame p c c' :
  live p c -> c_instate c = NEED_LEN -> update_state se c = Ok (true, c') ->
  c_msgtogo c' = c_msgtogo c /\ c_msgofs c' = c_msgofs c /\
  c_maximum_remote_protocol c' = c_maximum_remote_protocol c.
Proof.
  intros (Ht & Hp & He & Hb) Hs. unfold update_state. rewrite bind_get, Hs.
  destruct (need_len_spec c Ht Hb) as (len & c1 & -> & _ & ->). intros [= <-].
  cbv zeta. by repeat case_goal.
Qed.

Lemma incoming_past p bs c : incoming p bs c -> past_handshake c.
Proof.
  intros [_ [(Hs & _)|(? & _ & _ & _ & Hs)]]; unfold past_handshake; rewrite Hs; [done|].
  by case_match.
Qed.

(** What [update_state] does in the handshake, by the fuel of its loop. *)
Definition in_handshake (fuel : nat) : reader bool :=
  r ← state_need_proto se fuel;
  match r with
  | Some b => mret b
  | None =>
      st ← gets c_instate;
      if decide (st = NEED_LEN) then state_need_len else mret true
  end.

Lemma in_handshake_short fuel c :
  c_instate c = NEED_PROTO -> (length (unread c) < 4)%nat -> in_handshake (S fuel) c = Ok (true, c).
Proof.
  intros Hst Hu. unfold in_handshake. cbn [state_need_proto].
  rewrite bind_assoc, bind_get, avail_unread, (proj2 (Nat.ltb_lt _ _)) by done.
  by rewrite bind_ret_l, bind_gets, Hst.
Qed.

(** What has been heard after a round: the handshake goes on, or is over. *)
Definition moved (v : Z) (sent bs : list byte) (c c' : MsgChannel) : Prop :=
  same_input (c_io c') (c_io c) /\
  (((length bs < 8)%nat /\ heard v sent bs c') \/
   exists bs', bs = versions v ++ bs' /\ agreed v sent bs' c').

Lemma second_round fuel v rest sent bs tl c :
  MIN_PROTOCOL_VERSION <= v -> heard v sent bs c ->
  c_protocol c = -1 - Z.min v PROTOCOL_VERSION -> bs ++ tl = versions v ++ rest ->
  exists c', in_handshake (S fuel) c = Ok (true, c') /\ moved v sent bs c c'.
Proof.
  intros Hv Hh Hp E. pose proof Hh as [Hg Hph].
  destruct Hph as [(Hp' & _)|(_ & Ebs & Hmax & Hsent)];
    [unfold MIN_PROTOCOL_VERSION, PROTOCOL_VERSION in *; lia|].
  pose proof (f_equal length Ebs) as Hl. rewrite length_app, le_bytes_length in Hl.
  destruct (decide (length (unread c) < 4)%nat) as [Hs|Hs].
  { exists c. split; [apply in_handshake_short; [apply Hg|done]|].
    split; [done|]. left. split; [lia|done]. }
  assert (exists r, unread c = le_bytes 4 (Z.min v PROTOCOL_VERSION) ++ r /\ r ++ tl = rest)
    as (r & Eu & Er).
  { rewrite Ebs in E. unfold versions in E. rewrite <- !app_assoc in E. apply app_inv_head in E.
    exists (drop 4 (unread c)).
    pose proof (f_equal (take 4) E) as Et. pose proof (f_equal (drop 4) E) as Ed.
    rewrite take_app_le, take_app_length' in Et by (rewrite ?le_bytes_length; lia || done).
    rewrite drop_app_le, drop_app_length' in Ed by (rewrite ?le_bytes_length; lia || done).
    by rewrite <- Et, take_drop. }
  unfold in_handshake.
  rewrite (bind_ok _ _ _ _ _ (second_word fuel v r c Hv Hg Hp Eu)), bind_gets.
  set (p := Z.min v PROTOCOL_VERSION) in *. set (c4 := set_instate NEED_LEN _).
  destruct Hg as (Hst & Ht & He & Hb & Htogo & Hofs & Hacc).
  assert (live p c4) as Hlive.
  { split; [done|]. split; [done|]. split; [done|].
    assert (buffer_ok (advance 4 c)) by (apply ci_advance; [done|rewrite avail_unread; lia]). done. }
  destruct (incoming_need_len se p r c4 Hlive eq_refl) as (c' & Eu' & Hi & Hio).
  { change (unread (advance 4 c) = r). rewrite unread_advance, Eu.
    apply drop_app_length'. by rewrite le_bytes_length. }
  destruct (need_len_frame p c4 c' Hlive eq_refl Eu') as (E1 & E2 & E3).
  exists c'. unfold update_state in Eu'. rewrite bind_get in Eu'.
  change (c_instate c4) with NEED_LEN in *.
  destruct (decide (NEED_LEN = NEED_LEN)); [|done].
  split; [exact Eu'|]. split; [by rewrite Hio|]. right. exists r.
  split; [unfold versions; by rewrite Ebs, Eu, app_assoc|].
  destruct (incoming_past p r c' Hi) as [Hq1 Hq2]. destruct Hi as [(Ht' & Hp'' & He' & Hb') Hi].
  split; [by split|]. split; [|split].
  - unfold ready. by rewrite Hio, E1, E2.
  - by rewrite E3.
  - by rewrite Hio.
Qed.

(** Taking in what has arrived moves the handshake on. *)
Lemma update_state_heard v rest sent bs tl c :
  MIN_PROTOCOL_VERSION <= v <= Z.shiftl 1 20 -> heard v sent bs c ->
  bs ++ tl = versions v ++ rest ->
  exists c', update_state se c = Ok (true, c') /\ moved v sent bs c c'.
Proof.
  intros Hv Hh E. pose proof Hh as [Hg Hph]. unfold update_state. rewrite bind_get, (proj1 Hg).
  change (exists c', in_handshake (S (avail c)) c = Ok (true, c') /\ moved v sent bs c c').
  destruct Hph as [(Hp & Eu & Hsent)|(Hp & _)]; [|by eapply second_round; [lia|..]].
  destruct (decide (length bs < 4)%nat) as [Hs|Hs].
  { exists c. split; [apply in_handshake_short; [apply Hg|by rewrite Eu]|].
    split; [done|]. left. split; [lia|done]. }
  assert (exists r, bs = le_bytes 4 v ++ r) as (r & Er).
  { exists (drop 4 bs). pose proof (f_equal (take 4) E) as Et. unfold versions in Et.
    rewrite take_app_le, <- app_assoc, take_app_length' in Et by (rewrite ?le_bytes_length; lia || done).
    by rewrite <- Et, take_drop. }
  rewrite Er in Eu. rewrite avail_unread, Eu, length_app, le_bytes_length. cbn [Nat.add].
  destruct (first_word (4 + length r) v r sent c Hv Hg Hp Hsent Eu)
    as (c1 & E1 & Hh1 & Eu1 & Hp1 & Hr1 & Hq1).
  rewrite <- Er in Hh1.
  destruct (second_round (3 + length r) v rest sent bs tl c1) as (c' & E' & [Hin Hm]); [lia|done..|].
  exists c'. split.
  - revert E'. unfold in_handshake, mbind, M_bind. cbn [Nat.add] in *. by rewrite E1.
  - split; [|done]. unfold same_input in *. by rewrite Hin, Hr1, Hq1.
Qed.


(** One round of the loop, and the loop. *)
Lemma read_a_bit_heard v rest sent bs ds c :
  MIN_PROTOCOL_VERSION <= v <= Z.shiftl 1 20 -> heard v sent bs c -> source ds c ->
  bs ++ concat ds = versions v ++ rest ->
  exists d ds' c', read_a_bit se c = Ok (true, c') /\ source ds' c' /\
    d ++ concat ds' = concat ds /\ (ds <> [] -> d <> []) /\
    io_polls (c_io c') = io_polls (c_io c) /\ moved v sent (bs ++ d) c' c'.
Proof.
  intros Hv Hh Hs E. pose proof Hh as [(Hst & Ht & He & Hb & Hto & Hof & Ha) Hph].
  destruct (read_a_bit_reads se ds c He Hb Hs)
    as (d & ds' & c1 & Ed & Hd & Hs' & (E1 & E2 & E3) & Hb1 & Hroom & Hr).
  injection E1 as Et Ep Ee Est Em Eto Eof Emx. injection E3 as Ese Esn Epo.
  assert (heard v sent (bs ++ d) (recv d c1)) as Hh1.
  { split.
    - unfold greeting. cbn. rewrite Et, Ee, Est, Eto, Eof, Ese. repeat (split; [done|]).
      split; [by apply ci_recv|done].
    - rewrite (unread_recv d c1) by apply Hb1. cbn. rewrite Ep, Emx, Esn, E2.
      destruct Hph as [(? & <- & ?)|(? & Ebs & ? & ?)]; [by left|right].
      split; [done|]. split; [|done]. exact (f_equal (fun l => l ++ d) Ebs). }
  destruct (update_state_heard v rest sent (bs ++ d) (concat ds') (recv d c1) Hv Hh1)
    as (c' & Eu & Hin & Hm).
  { by rewrite <- app_assoc, Ed. }
  exists d, ds', c'. split; [by apply Hr|]. injection Hin as Er Epl.
  split; [unfold source; by rewrite Er|]. do 2 (split; [done|]). split; [by rewrite Epl|done].
Qed.

Lemma wait_for_protocol_heard v rest sent fuel bs ds c :
  MIN_PROTOCOL_VERSION <= v <= Z.shiftl 1 20 -> heard v sent bs c -> source ds c ->
  (length bs < 8)%nat -> bs ++ concat ds = versions v ++ rest ->
  (length (concat ds) <= fuel)%nat -> io_polls (c_io c) = repeat PollReady fuel ->
  exists bs' ds' fuel' c', wait_for_protocol_loop se fuel c = Ok (true, c') /\
    agreed v sent bs' c' /\ source ds' c' /\ bs' ++ concat ds' = rest /\
    (length (concat ds') <= fuel')%nat /\ io_polls (c_io c') = repeat PollReady fuel'.
Proof.
  intros Hv. revert bs ds c.
  induction fuel as [|fuel IH]; intros bs ds c Hh Hs Hl E Hf Hp.
  { apply (f_equal length) in E. rewrite !length_app, versions_length in E. lia. }
  cbn [wait_for_protocol_loop]. rewrite bind_gets, (proj1 (proj1 Hh)).
  destruct (decide _) as [|_]; [done|].
  unfold sys_poll. rewrite bind_assoc, bind_gets, Hp. cbn [repeat].
  rewrite bind_assoc, bind_modify, bind_assoc, !bind_ret_l.
  destruct (read_a_bit_heard v rest sent bs ds (with_io (set_io_polls (repeat PollReady fuel)) c))
    as (d & ds' & c' & Er & Hs' & Ed & Hd & Hp' & _ & Hm); [done|done|done|done|].
  rewrite (bind_ok _ _ _ _ _ Er), bind_gets.
  assert (length (concat ds') <= fuel)%nat as Hf'.
  { apply (f_equal length) in E, Ed. rewrite !length_app, versions_length in E.
    rewrite length_app in Ed. assert (d <> []) as Hne.
    { apply Hd. intros ->. cbn in E. lia. }
    destruct d; [done|]. cbn in Ed. lia. }
  destruct Hm as [[Hlt Hh']|(bs' & Ebs & Ha)].
  - rewrite (proj1 (proj2 (proj2 (proj1 Hh')))). cbn [negb orb].
    apply (IH (bs ++ d) ds' c'); [done|done|done|by rewrite <- app_assoc, Ed|done|done].
  - pose proof Ha as (Hi & _). rewrite (proj1 (proj2 (proj2 (proj1 Hi)))). cbn [negb orb].
    exists bs', ds', fuel, c'. split.
    { destruct fuel; cbn [wait_for_protocol_loop]; rewrite bind_gets;
        (destruct (decide _) as [|Hn]; [done|]); apply dec_stable in Hn;
        by destruct (incoming_past _ _ _ Hi). }
    split; [done|]. split; [done|]. split; [|done].
    rewrite <- Ed, app_assoc, Ebs, <- app_assoc in E. by apply app_inv_head in E.
Qed.
End handshake.

(** ** Properties *)

#[local] Existing Instances store_compressors store_laws.

(** C1 (connection): messages are delivered. Whatever valid messages one side
    sends, whichever way the kernel accepts the bytes (in pieces, with
    interruptions) and hands them out on the other side (any cut into
    non-empty pieces), [send_msg] succeeds for each, and the same number of
    calls of [get_msg] return exactly their views, in order, leaving what
    follows on the connection for the next call. *)
Theorem connection_delivers `{CompressorLaws} platform p ms flags timeout snd :
  Forall (fun m => sendable p m = true) ms ->
  ready p snd -> Z.land flags SendBulkOnly = 0 -> 0 < timeout ->
  exists snd' bs,
    for_each (fun m => ok ← channel_send_msg platform m flags; assert ok) ms snd = Ok (tt, snd')
    /\ io_sent (c_io snd') = io_sent (c_io snd) ++ bs /\ ready p snd'
    /\ forall rest rcv, receiving p (bs ++ rest) rcv ->
       exists rcv', repeat_m (length ms) (channel_get_msg platform timeout false) rcv
         = Ok (map (fun m => Some (wire_view p m)) ms, rcv') /\ receiving p rest rcv'.
Proof.
  intros Hms Hr Hf Ht.
  destruct (send_msgs_spec platform (set_error platform) p ms flags snd Hms Hr Hf)
    as (snd' & E & Hr' & Es).
  exists snd', (concat (map (frame p) ms)). do 3 (split; [done|]). intros rest rcv Hrcv.
  by apply get_msgs_spec.
Qed.

Lemma connection_delivers_witness :
  exists snd' bs,
    for_each (fun m => ok ← channel_send_msg "x86_64" m SendBlocking; assert ok)
      [PingMsg; FileChunk (mkFileChunkMsg (Some (bytes_of "int")) 3 0)]
      (set_io (mkIo [] [SendOk 2; SendErr EINTR] [] EAGAIN [] false) (blank 45)) = Ok (tt, snd')
    /\ bs = io_sent (c_io snd')
    /\ exists rcv', repeat_m 2 (channel_get_msg "x86_64" 1 false)
         (set_io (mkIo [ReadData (take 7 bs); ReadData (drop 7 bs)] []
                    (repeat PollReady (length bs)) EAGAIN [] false) (blank 45))
         = Ok ([Some PingMsg;
                Some (FileChunk (mkFileChunkMsg (Some (bytes_of "int")) 3 4))], rcv').
Proof.
  destruct (connection_delivers "x86_64" 45
    [PingMsg; FileChunk (mkFileChunkMsg (Some (bytes_of "int")) 3 0)] SendBlocking 1
    (set_io (mkIo [] [SendOk 2; SendErr EINTR] [] EAGAIN [] false) (blank 45)))
    as (snd' & bs & E & Es & _ & Hd).
  { repeat constructor. }
  { repeat split; try discriminate. repeat constructor. }
  { reflexivity. }
  { reflexivity. }
  exists snd', bs. split; [exact E|]. split; [symmetry; exact Es|].
  assert (bs = match for_each (fun m => ok ← channel_send_msg "x86_64" m SendBlocking; assert ok)
      [PingMsg; FileChunk (mkFileChunkMsg (Some (bytes_of "int")) 3 0)]
      (set_io (mkIo [] [SendOk 2; SendErr EINTR] [] EAGAIN [] false) (blank 45)) with
      | Ok (_, c) => io_sent (c_io c) | Fault _ => [] end) as Ebs by (rewrite E; symmetry; exact Es).
  vm_compute in Ebs.
  destruct (Hd [] (set_io (mkIo [ReadData (take 7 bs); ReadData (drop 7 bs)] []
                    (repeat PollReady (length bs)) EAGAIN [] false) (blank 45)))
    as (rcv' & Er & _).
  - exists [], [take 7 bs; drop 7 bs], (length bs). rewrite Ebs. split; [|split; [|split; [|split]]].
    + split; [|left].
      * do 3 (split; [reflexivity|]). split; cbn; lia.
      * do 2 (split; [reflexivity|]). cbn. lia.
    + split; [reflexivity|]. repeat constructor; discriminate.
    + reflexivity.
    + cbn. lia.
    + reflexivity.
  - exists rcv'. exact Er.
Defined.

Section create.
Context `{CompressorLaws} (platform : string).

Lemma set_error_with_error gm s c c' :
  set_error_with gm s c = Ok (tt, c') -> c_instate c' = ERROR.
Proof.
  unfold set_error_with. rewrite bind_get. destruct (decide _); [by intros [= <-]|].
  intros E. apply bind_inv in E as (? & ? & _ & E). by injection E as <-.
Qed.

Lemma new_channel_negotiating fd addr name now o c0 :
  new_channel platform fd addr name false now o = Ok c0 ->
  (negotiating c0 /\ c_eof c0 = false) \/ c_instate c0 = ERROR.
Proof.
  unfold new_channel. cbv iota zeta. rewrite bind_modify.
  match goal with |- match ?m with _ => _ end = _ -> _ => destruct m as [[[] c2]|] eqn:E end;
    [|done]. intros [= <-].
  apply bind_inv in E as (ok & c3 & Ef & E). destruct ok; cbn [negb when] in E.
  - injection E as <-. left. apply flush_true_io in Ef as (Ep & Ei & He).
    split; [|by rewrite He]. split; [by rewrite Ei|]. left. by rewrite Ep.
  - rewrite bind_modify in E. right. by eapply set_error_with_error.
Qed.

(** C2 (handshake is safe): a channel that [Service::createChannel] hands out
    has agreed on a protocol between [MIN_PROTOCOL_VERSION] and
    [PROTOCOL_VERSION], has left the handshake without an error, and has not
    seen the end of the connection, whatever the peer sent and however the
    system calls went. *)
Theorem createChannel_protocol fd addr name now o c :
  createChannel platform fd addr name now o = Ok (Some c) ->
  MIN_PROTOCOL_VERSION <= c_protocol c <= PROTOCOL_VERSION /\
  (c_instate c = NEED_LEN \/ c_instate c = FILL_BUF \/ c_instate c = HAS_MSG) /\
  c_eof c = false.
Proof.
  unfold createChannel. destruct (new_channel _ _ _ _ _ _ _) as [c0|] eqn:E0; [|done].
  apply new_channel_negotiating in E0.
  destruct (wait_for_protocol _ _) as [[[] c']|] eqn:E; [|done|done]. intros [= <-].
  unfold wait_for_protocol in E. rewrite bind_get in E.
  destruct (_ || _) eqn:Eo; [done|]. apply orb_false_iff in Eo as [_ He].
  apply bool_decide_eq_false in He. destruct E0 as [[Hn He0]|]; [|done].
  apply wait_for_protocol_safe in E as (He' & [Hs1 Hs2] & Hp); [|done|by left].
  split; [exact Hp|]. split; [|done]. destruct (c_instate c'); auto; congruence.
Qed.

(** C7 (handshake completes): a channel made on a fresh connection whose peer
    announces a version [v] the code accepts and then confirms the smaller of
    [v] and this side's version, in pieces cut anywhere, is handed out. It has
    sent its own version and then the smaller one, speaks that one, has sent
    all it had, and what follows on the connection is what it receives. *)
Theorem handshake_completes fd addr name now v rest ds sends n e slow :
  let p := Z.min v PROTOCOL_VERSION in
  MIN_PROTOCOL_VERSION <= v <= Z.shiftl 1 20 -> accepting sends ->
  Forall (fun d => d <> []) ds -> concat ds = le_bytes 4 v ++ le_bytes 4 p ++ rest ->
  (length (concat ds) <= n)%nat ->
  exists c, createChannel platform fd addr name now
      (mkIo (map ReadData ds) sends (repeat PollReady n) e [] slow) = Ok (Some c) /\
    c_maximum_remote_protocol c = v /\
    io_sent (c_io c) = le_bytes 4 PROTOCOL_VERSION ++ le_bytes 4 p /\
    ready p c /\ receiving p rest c.
Proof.
  intros p Hv Ha Hne E Hn. unfold createChannel, new_channel. cbv iota zeta.
  rewrite bind_modify. set (c := mkMsgChannel _ _ _ _ _ _ _ _ _ _ _ _ _ _ _ _ _ _ _).
  destruct (emits_writefull (-1) (le_bytes 4 PROTOCOL_VERSION) c) as (Hout & Hwb & Est);
    [unfold wbuf_ok; cbn; lia|done|done|].
  change [byte_of_Z PROTOCOL_VERSION; x00; x00; x00] with (le_bytes 4 PROTOCOL_VERSION).
  set (c2 := writefull _ c) in *. clearbody c2.
  destruct (flush_spec (set_error platform) true c2) as (o & Ef & Hsent & Hacc & [= Hr Hp]);
    [by rewrite Hout|done|by rewrite Hout|].
  rewrite (bind_ok _ _ _ _ _ Ef). cbn [negb when]. set (c3 := set_msgofs 0 _).
  assert (io_sent (c_io c3) = le_bytes 4 PROTOCOL_VERSION) as Hs3
    by (change (c_io c3) with o; rewrite Hsent, Est, Hout; done).
  assert (io_reads (c_io c3) = map ReadData ds /\ io_polls (c_io c3) = repeat PollReady n) as [Hr3 Hp3]
    by (change (c_io c3) with o; rewrite Hr, Hp, Hout; done).
  assert (heard v (le_bytes 4 PROTOCOL_VERSION) [] c3) as Hh.
  { split; [|left; unfold c3; rewrite Hout; done].
    unfold greeting, c3. rewrite Hout. do 3 (split; [done|]).
    split; [split; cbn; lia|done]. }
  destruct (wait_for_protocol_heard (set_error platform) v rest _ n [] ds c3 Hv Hh)
    as (bs & ds' & n' & c' & Ew & (Hi & Hrd & Hm & Hsn) & Hs' & Er & Hn' & Hp');
    [by split|cbn; lia|by unfold versions; rewrite <- app_assoc|done|done|].
  exists c'. change ((mret tt : reader unit) c3) with (Ok (tt, c3) : res (unit * MsgChannel)).
  cbv iota beta. unfold wait_for_protocol. rewrite bind_get.
  assert (c_protocol c3 = -1 /\ c_instate c3 = NEED_PROTO) as [-> ->]
    by (unfold c3; rewrite Hout; done).
  cbn [Z.eqb Pos.eqb orb]. rewrite bool_decide_false by done.
  rewrite Hp3, repeat_length, Ew. do 4 (split; [done|]). by exists bs, ds', n'.
Qed.
End create.

Lemma createChannel_protocol_witness :
  exists c, createChannel "x86_64" 3 [] "peer" 0
      (mkIo [ReadData (le_bytes 4 42); ReadData (le_bytes 4 42)] []
         [PollReady; PollErr EINTR; PollReady] EAGAIN [] false) = Ok (Some c)
    /\ MIN_PROTOCOL_VERSION <= c_protocol c <= PROTOCOL_VERSION /\
    (c_instate c = NEED_LEN \/ c_instate c = FILL_BUF \/ c_instate c = HAS_MSG) /\
    c_eof c = false.
Proof.
  eexists. split; [vm_compute; reflexivity|].
  eapply (createChannel_protocol "x86_64" 3 [] "peer" 0
    (mkIo [ReadData (le_bytes 4 42); ReadData (le_bytes 4 42)] []
         [PollReady; PollErr EINTR; PollReady] EAGAIN [] false)).
  vm_compute. reflexivity.
Defined.

Lemma handshake_completes_witness :
  exists c, createChannel "x86_64" 3 [] "peer" 0
      (mkIo [ReadData [x63; x00]; ReadData [x00; x00; x2d]; ReadData [x00; x00; x00; x07]]
         [SendOk 3; SendErr EINTR] (repeat PollReady 9) EAGAIN [] false) = Ok (Some c) /\
    c_maximum_remote_protocol c = 99 /\ io_sent (c_io c) = le_bytes 4 45 ++ le_bytes 4 45 /\
    ready 45 c /\ receiving 45 [x07] c.
Proof.
  apply (handshake_completes "x86_64" 3 [] "peer" 0 99 [x07]
    [[x63; x00]; [x00; x00; x2d]; [x00; x00; x00; x07]] [SendOk 3; SendErr EINTR] 9 EAGAIN false).
  - split; vm_compute; discriminate.
  - repeat constructor.
  - repeat constructor; discriminate.
  - reflexivity.
  - cbn. lia.
Defined.
