(* ===== verification/Discovery.v ===== *)
(** * Finding the scheduler (services/comm.cpp)

    Schedulers announce themselves ([Broadcasts]); daemons and clients ask
    for one by broadcast and choose among the answers ([DiscoverSched]). The
    datagrams are lists of bytes; sockets are the lists of the datagrams that
    have arrived on them, with the senders' addresses.

    Sockets, name resolution and connecting are in Sockets.v and Searching.v. *)

From Stdlib Require Import ZArith Lia.
From Stdlib Require Import Strings.Byte Strings.String.
From stdpp Require Import base tactics option list sets strings.
From S2P Require Import Prelude MsgChannel Msg.

#[local] Open Scope Z_scope.

Definition BROAD_BUFLEN : nat := 268.
Definition BROAD_BUFLEN_OLD_2 : nat := 32.
Definition BROAD_BUFLEN_OLD_1 : nat := 16.

(** The character at an index of a buffer. *)
Definition char_at (buf : list byte) (i : nat) : res byte :=
  match buf !! i with Some b => Ok b | None => Fault OutOfBounds end.

(** A string stored in a buffer from an offset on. *)
Definition c_string_at (buf : list byte) (i : nat) : res (list byte) :=
  match c_string (drop i buf) with Some s => Ok s | None => Fault UninitRead end.

(** ** Announcements *)

(** The datagram for schedulers older than version 38. *)
Definition old_announcement (netname : list byte) (starttime : Z) : res (list byte) :=
  let length_netname := i8 (Z.of_nat (length netname)) in
  if 5 + 8 + length_netname <? 0 then Fault Uncaught
  else if length_netname <=? 0 then Fault OutOfBounds
  else Ok (bytes_of "ICE" ++ [byte_of_Z PROTOCOL_VERSION] ++ le_bytes 8 starttime
           ++ [byte_of_Z length_netname]
           ++ take (Z.to_nat (length_netname - 1)) netname ++ [x00]).

(** High word and low word of a time, each in network order. *)
Definition be_time (t : Z) : list byte :=
  be32 (Z.shiftr (u64 t) 32) ++ be32 (Z.land t 4294967295).
Definition time_of_words (high low : Z) : Z := i64 (Z.lor (Z.shiftl high 32) low).

Definition announcement (netname : list byte) (starttime : Z) : list byte :=
  padded BROAD_BUFLEN
    (bytes_of "ICF" ++ [byte_of_Z PROTOCOL_VERSION] ++ be_time starttime
     ++ snprintf_s (BROAD_BUFLEN - 12) netname).

(** [Broadcasts::broadcastSchedulerVersion]: what it sends, in order. *)
Definition broadcastSchedulerVersion (netname : list byte) (starttime : Z)
  : res (list (list byte)) :=
  match old_announcement netname starttime with
  | Ok buf => Ok [buf; announcement netname starttime]
  | Fault f => Fault f
  end.

Definition isSchedulerVersion (buf : list byte) (buflen : nat) : bool :=
  bool_decide (buflen = BROAD_BUFLEN) && bool_decide (take 3 buf = bytes_of "ICF").

(** Protocol, start time and netname of an announcement. *)
Definition getSchedulerVersionData (buf : list byte) : res (Z * Z * list byte) :=
  if negb (isSchedulerVersion buf BROAD_BUFLEN) then Fault AssertFailed else
  match char_at buf 3, c_string_at buf 12 with
  | Ok p, Ok netname =>
      Ok (Z_of_byte p,
          time_of_words (be32_value (take 4 (drop 4 buf))) (be32_value (take 4 (drop 8 buf))),
          netname)
  | Fault f, _ | _, Fault f => Fault f
  end.

(** ** Questions and answers *)

(** The question is one byte, the version of who asks. *)
Definition discovery (version : Z) : list byte := [byte_of_Z version].
Definition isSchedulerDiscovery (buf : list byte) (buflen : nat) : option Z :=
  match buf with
  | b :: _ => if (buflen =? 1)%nat then Some (schar b) else None
  | [] => None
  end.

(** The answer, in the form the version of who asks understands. *)
Definition prepareBroadcastReply (question : byte) (netname : list byte) (starttime : Z)
  : list byte :=
  let v := schar question in
  if v <? 33 then
    padded BROAD_BUFLEN_OLD_1
      ([byte_of_Z (v + 1)] ++ snprintf_s (BROAD_BUFLEN_OLD_1 - 1) netname)
  else if v <? 36 then
    padded BROAD_BUFLEN_OLD_2
      ([byte_of_Z (v + 2)] ++ le_bytes 4 PROTOCOL_VERSION ++ le_bytes 8 starttime
       ++ snprintf_s (BROAD_BUFLEN_OLD_2 - 13) netname)
  else if v <? 38 then
    padded BROAD_BUFLEN
      ([byte_of_Z (v + 2)] ++ le_bytes 4 PROTOCOL_VERSION ++ le_bytes 8 starttime
       ++ snprintf_s (BROAD_BUFLEN - 13) netname)
  else
    padded BROAD_BUFLEN
      ([byte_of_Z (v + 3)] ++ be32 PROTOCOL_VERSION ++ be_time starttime
       ++ snprintf_s (BROAD_BUFLEN - 13) netname).

(** Name, version and start time of an answer. *)
Definition get_broad_data (buf : list byte) : res (list byte * Z * Z) :=
  match char_at buf 0 with
  | Fault f => Fault f
  | Ok b =>
      let m := schar b in
      let with_name ofs version start :=
        match c_string_at buf ofs with Ok n => Ok (n, version, start) | Fault f => Fault f end in
      if m =? PROTOCOL_VERSION + 1 then with_name 1%nat 32 0
      else if m =? PROTOCOL_VERSION + 2 then
        with_name 13%nat (i32 (le_value (take 4 (drop 1 buf)))) (i64 (le_value (take 8 (drop 5 buf))))
      else if m =? PROTOCOL_VERSION + 3 then
        with_name 13%nat (i32 (be32_value (take 4 (drop 1 buf))))
          (time_of_words (be32_value (take 4 (drop 5 buf))) (be32_value (take 4 (drop 9 buf))))
      else Fault Aborted
  end.

(** A datagram and its sender. *)
Record packet : Type := mkPacket {
  pkt_data : list byte;
  pkt_addr : string;
  pkt_port : Z
}.

(** [get_broad_answer] on the datagram at the head of the socket: [None] is
    the result [false]. [recvfrom] truncates to [BROAD_BUFLEN]. *)
Definition get_broad_answer (sock : list packet) : option (list byte * packet) * list packet :=
  match sock with
  | [] => (None, [])
  | p :: sock =>
      let buf := take BROAD_BUFLEN (pkt_data p) in
      let len := length buf in
      let mark := default 0 (schar <$> head buf) in
      let known :=
        ((len =? BROAD_BUFLEN_OLD_1)%nat && (mark =? PROTOCOL_VERSION + 1))
        || ((len =? BROAD_BUFLEN_OLD_2)%nat && (mark =? PROTOCOL_VERSION + 2))
        || ((len =? BROAD_BUFLEN)%nat && (mark =? PROTOCOL_VERSION + 2))
        || ((len =? BROAD_BUFLEN)%nat && (mark =? PROTOCOL_VERSION + 3)) in
      if known then (Some (take (pred len) buf ++ [x00], p), sock) else (None, sock)
  end.

(** ** [DiscoverSched] *)

Record DiscoverSched : Type := mkDiscoverSched {
  d_netname : string;
  d_schedname : string;
  d_sport : Z;
  d_best_version : Z;
  d_best_start_time : Z;
  d_best_schedname : string;
  d_best_port : Z;
  d_multiple : bool
}.

(** The part of the value of [ICECC_SCHEDULER] before and after the last
    colon. *)
Fixpoint split_last_colon (l : list byte) : option (list byte * list byte) :=
  match l with
  | [] => None
  | b :: l =>
      match split_last_colon l with
      | Some (h, p) => Some (b :: h, p)
      | None => if decide (b = x3a) then Some ([], l) else None
      end
  end.

(** The constructor, given the environment variable [ICECC_SCHEDULER] (or
    [USE_SCHEDULER]). *)
Definition new_DiscoverSched (netname schedname : string) (port : Z) (env : option string)
  : DiscoverSched :=
  let '(schedname, sport) :=
    match env with
    | Some scheduler =>
        if decide (schedname = ""%string) then
          match split_last_colon (bytes_of scheduler) with
          | None => (scheduler, port)
          | Some (h, p) => (str_of h, atoi p)
          end
        else (schedname, port)
    | None => (schedname, port)
    end in
  let netname := if decide (netname = ""%string) then "ICECREAM"%string else netname in
  let sport := if sport =? 0 then 8765 else sport in
  mkDiscoverSched (if decide (schedname = ""%string) then netname else ""%string)
    schedname sport 0 0 "" 0 false.

(** One accepted answer: the body of the loop of [try_get_scheduler]. *)
Definition consider (d : DiscoverSched) (name : list byte) (version start_time : Z)
    (addr : string) (port : Z) : DiscoverSched :=
  if same_nocase (bytes_of (d_netname d)) name then
    if (128 <=? version) || (version <? 1) then d
    else
      let d := if negb (d_best_version d =? 0) then
                 mkDiscoverSched (d_netname d) (d_schedname d) (d_sport d) (d_best_version d)
                   (d_best_start_time d) (d_best_schedname d) (d_best_port d) true
               else d in
      if (d_best_version d <? version)
         || ((d_best_version d =? version) && (start_time <? d_best_start_time d)) then
        mkDiscoverSched (d_netname d) (d_schedname d) (d_sport d) version start_time
          addr port (d_multiple d)
      else d
  else d.

(** The loop: until neither socket has an answer. *)
Fixpoint scan (fuel : nat) (s1 : list packet) (s2 : option (list packet)) (d : DiscoverSched)
  : res (DiscoverSched * list packet * option (list packet)) :=
  let '(a1, s1) := get_broad_answer s1 in
  let '(a, s2) :=
    match a1, s2 with
    | None, Some l => let '(a2, l) := get_broad_answer l in (a2, Some l)
    | _, _ => (a1, s2)
    end in
  match a, fuel with
  | None, _ | _, O => Ok (d, s1, s2)
  | Some (buf, p), S fuel =>
      match get_broad_data buf with
      | Fault f => Fault f
      | Ok (name, version, start_time) =>
          scan fuel s1 s2 (consider d name version start_time (pkt_addr p) (pkt_port p))
      end
  end.

(** [try_get_scheduler] up to connecting: the answers that have arrived are
    read; after the time-out the best one becomes the scheduler. *)
Definition choose_scheduler (timed_out : bool) (s1 : list packet) (s2 : option (list packet))
    (d : DiscoverSched) : res (DiscoverSched * list packet * option (list packet)) :=
  if decide (d_schedname d <> ""%string) then Ok (d, s1, s2) else
  match scan (length s1 + length (default [] s2)) s1 s2 d with
  | Fault f => Fault f
  | Ok (d, s1, s2) =>
      if timed_out && negb (d_best_version d =? 0) then
        Ok (mkDiscoverSched (d_netname d) (d_best_schedname d) (d_best_port d) (d_best_version d)
              (d_best_start_time d) (d_best_schedname d) (d_best_port d) (d_multiple d), s1, s2)
      else Ok (d, s1, s2)
  end.

(** ** Facts *)

Lemma i64_u64 z : - 2 ^ 63 <= z < 2 ^ 63 -> i64 (u64 z) = z.
Proof.
  intros H. unfold i64, u64. rewrite Zplus_mod_idemp_l. rewrite Z.mod_small; lia.
Qed.

Lemma lor_words t : Z.lor (Z.shiftl (u32 (Z.shiftr (u64 t) 32)) 32) (u32 (Z.land t 4294967295)) = u64 t.
Proof.
  apply Z.bits_inj'. intros n Hn. rewrite Z.lor_spec. unfold u32, u64.
  change 4294967295 with (Z.ones 32).
  destruct (decide (n < 32)).
  - rewrite Z.shiftl_spec_low by lia. rewrite !Z.mod_pow2_bits_low by lia.
    rewrite Z.land_spec, Z.ones_spec_low by lia. by rewrite andb_true_r.
  - rewrite (Z.mod_pow2_bits_high (Z.land _ _)) by lia. rewrite orb_false_r.
    rewrite Z.shiftl_spec by lia. destruct (decide (n < 64)).
    + rewrite Z.mod_pow2_bits_low by lia. rewrite Z.shiftr_spec by lia. f_equal. lia.
    + rewrite !Z.mod_pow2_bits_high by lia. done.
Qed.

Lemma time_of_be_time t :
  - 2 ^ 63 <= t < 2 ^ 63 ->
  time_of_words (be32_value (take 4 (be_time t))) (be32_value (take 4 (drop 4 (be_time t)))) = t.
Proof.
  intros Ht. unfold be_time.
  change (take 4 (be32 ?a ++ be32 ?b)) with (be32 a).
  change (take 4 (drop 4 (be32 (Z.shiftr (u64 t) 32) ++ be32 (Z.land t 4294967295))))
    with (be32 (Z.land t 4294967295)).
  rewrite !be32_value_be32. unfold time_of_words. rewrite lor_words. by apply i64_u64.
Qed.

(** A name stored with [snprintf] and read back. *)
Lemma c_string_snprintf n s r :
  forallb (fun b => bool_decide (b <> x00)) s = true ->
  c_string (snprintf_s n s ++ r) = Some (take (pred n) s).
Proof.
  intros Hs. unfold snprintf_s. rewrite <- app_assoc. apply c_string_app.
  apply forallb_forall. intros b Hb. rewrite forallb_forall in Hs. apply Hs.
  rewrite <- (take_drop (pred n) s). apply in_or_app. by left.
Qed.

Lemma padded_app n l1 l2 : padded n (l1 ++ l2) = l1 ++ l2 ++ repeat x00 (n - length (l1 ++ l2)).
Proof. unfold padded. by rewrite <- app_assoc. Qed.

(** An announcement is understood by the other schedulers: protocol,
    start time and network name arrive unchanged, for every name that fits
    the datagram. *)
Theorem announcement_roundtrip netname starttime :
  forallb (fun b => bool_decide (b <> x00)) netname = true ->
  (length netname <= 255)%nat -> - 2 ^ 63 <= starttime < 2 ^ 63 ->
  isSchedulerVersion (announcement netname starttime) (length (announcement netname starttime)) = true /\
  getSchedulerVersionData (announcement netname starttime)
    = Ok (PROTOCOL_VERSION, starttime, netname).
Proof.
  intros Hn Hl Ht.
  assert (length (announcement netname starttime) = BROAD_BUFLEN) as Hlen.
  { unfold announcement, padded, snprintf_s, BROAD_BUFLEN.
    rewrite !length_app, repeat_length, !length_take.
    change (length (bytes_of "ICF")) with 3%nat. change (length (be_time starttime)) with 8%nat. cbn [length]. lia. }
  assert (isSchedulerVersion (announcement netname starttime) BROAD_BUFLEN = true) as Hv
    by reflexivity.
  split; [by rewrite Hlen|]. unfold getSchedulerVersionData. rewrite Hv. cbn [negb].
  change (char_at _ 3) with (Ok (byte_of_Z PROTOCOL_VERSION)).
  unfold c_string_at, announcement.
  set (h := bytes_of "ICF" ++ [byte_of_Z PROTOCOL_VERSION] ++ be_time starttime).
  assert (padded BROAD_BUFLEN (bytes_of "ICF" ++ [byte_of_Z PROTOCOL_VERSION] ++ be_time starttime
     ++ snprintf_s (BROAD_BUFLEN - 12) netname)
    = h ++ snprintf_s (BROAD_BUFLEN - 12) netname
        ++ repeat x00 (BROAD_BUFLEN - length (h ++ snprintf_s (BROAD_BUFLEN - 12) netname))) as ->.
  { rewrite <- padded_app. unfold h. by rewrite <- !app_assoc. }
  change 12%nat with (length h) at 1. rewrite drop_app_length.
  rewrite c_string_snprintf by done.
  rewrite (take_ge netname) by (cbn; lia).
  transitivity (Ok (PROTOCOL_VERSION, time_of_words (be32_value (take 4 (be_time starttime)))
    (be32_value (take 4 (drop 4 (be_time starttime)))), netname)); [reflexivity|].
  by rewrite time_of_be_time.
Qed.

Lemma announcement_roundtrip_witness :
  getSchedulerVersionData (announcement (bytes_of "ICECREAM") 1700000000)
    = Ok (PROTOCOL_VERSION, 1700000000, bytes_of "ICECREAM").
Proof.
  apply (announcement_roundtrip (bytes_of "ICECREAM") 1700000000); [reflexivity|cbn; lia|lia].
Defined.

(** The announcement for old schedulers drops the last character of the
    network name: it stores [strlen - 1] characters and a NUL. *)
Theorem old_announcement_truncates netname starttime :
  forallb (fun b => bool_decide (b <> x00)) netname = true ->
  (1 <= length netname <= 127)%nat ->
  exists buf, old_announcement netname starttime = Ok buf /\
    length buf = (13 + length netname)%nat /\
    c_string_at buf 13 = Ok (take (length netname - 1) netname).
Proof.
  intros Hn Hl. unfold old_announcement.
  assert (i8 (Z.of_nat (length netname)) = Z.of_nat (length netname)) as ->
    by (unfold i8; rewrite Z.mod_small; lia).
  destruct (_ <? 0) eqn:E0; [boolify; lia|]. destruct (_ <=? 0) eqn:E1; [boolify; lia|].
  replace (Z.to_nat (Z.of_nat (length netname) - 1)) with (length netname - 1)%nat by lia.
  eexists. split; [reflexivity|]. split.
  - rewrite !length_app, length_take, le_bytes_length. change (length (bytes_of "ICE")) with 3%nat.
    cbn [length]. lia.
  - unfold c_string_at.
    match goal with |- context [drop 13 ?l] =>
      change (drop 13 l) with (take (length netname - 1) netname ++ [x00]) end.
    assert (forallb (fun b => bool_decide (b <> x00)) (take (length netname - 1) netname) = true) as Ht.
    { apply forallb_forall. intros b Hb. rewrite forallb_forall in Hn. apply Hn.
      rewrite <- (take_drop (length netname - 1) netname). apply in_or_app. by left. }
    by rewrite (c_string_app _ []).
Qed.

Lemma old_announcement_truncates_witness :
  exists buf, old_announcement (bytes_of "ICECREAM") 0 = Ok buf /\
    length buf = 21%nat /\ c_string_at buf 13 = Ok (bytes_of "ICECREA").
Proof. apply (old_announcement_truncates (bytes_of "ICECREAM") 0); [reflexivity|cbn; lia]. Defined.

Lemma c_string_total l r : exists s, c_string (l ++ x00 :: r) = Some s.
Proof.
  induction l as [|b l [s IH]]; cbn [app c_string]; [by exists []|].
  destruct (decide (b = x00)); [by exists []|]. rewrite IH. by exists (b :: s).
Qed.

(** An accepted answer can be decoded. *)
Lemma answer_decodes s buf p s' :
  get_broad_answer s = (Some (buf, p), s') -> exists r, get_broad_data buf = Ok r.
Proof.
  unfold get_broad_answer. destruct s as [|q s]; [done|].
  set (b := take BROAD_BUFLEN (pkt_data q)). clearbody b.
  destruct (_ || _) eqn:Hk; [|done]. intros [= <- <- <-].
  destruct b as [|c b]; [done|].
  change (default 0 (schar <$> head (c :: b))) with (schar c) in Hk.
  assert (forall ofs, (ofs <= length b)%nat ->
            exists n, c_string_at (take (length b) (c :: b) ++ [x00]) ofs = Ok n) as Hs.
  { intros ofs Ho. unfold c_string_at. rewrite drop_app_le by (rewrite length_take; cbn; lia).
    destruct (c_string_total (drop ofs (take (length b) (c :: b))) []) as [n ->]. eauto. }
  cbn [length pred]. unfold get_broad_data.
  destruct b as [|c' b]; [done|].
  change (char_at (take (length (c' :: b)) (c :: c' :: b) ++ [x00]) 0) with (Ok c).
  cbv zeta. unfold BROAD_BUFLEN_OLD_1, BROAD_BUFLEN_OLD_2, BROAD_BUFLEN in Hk.
  destruct (schar c =? PROTOCOL_VERSION + 1) eqn:E1.
  { destruct (Hs 1%nat) as [n ->]; [cbn; lia|]. rewrite E1. by eexists. }
  rewrite E1.
  assert (13 <= length (c' :: b))%nat as Hl.
  { rewrite !andb_false_r in Hk. cbn [orb] in Hk. cbn [length] in *.
    rewrite !orb_true_iff, !andb_true_iff, !Nat.eqb_eq in Hk. lia. }
  destruct (Hs 13%nat Hl) as [n ->].
  destruct (schar c =? PROTOCOL_VERSION + 2) eqn:E2; [rewrite ?E2; by eexists|].
  destruct (schar c =? PROTOCOL_VERSION + 3) eqn:E3; [rewrite ?E2, ?E3; by eexists|].
  by rewrite !andb_false_r in Hk.
Qed.

(** The answers the loop sees, decoded: name, version, start time, sender. *)
Definition answer : Type := list byte * Z * Z * packet.
Fixpoint heard (fuel : nat) (s1 : list packet) (s2 : option (list packet)) : list answer :=
  let '(a1, s1) := get_broad_answer s1 in
  let '(a, s2) :=
    match a1, s2 with
    | None, Some l => let '(a2, l) := get_broad_answer l in (a2, Some l)
    | _, _ => (a1, s2)
    end in
  match a, fuel with
  | None, _ | _, O => []
  | Some (buf, p), S fuel =>
      match get_broad_data buf with
      | Fault _ => []
      | Ok (name, version, start) => (name, version, start, p) :: heard fuel s1 s2
      end
  end.

Definition consider_answer (d : DiscoverSched) (a : answer) : DiscoverSched :=
  let '(name, version, start, p) := a in consider d name version start (pkt_addr p) (pkt_port p).

Lemma scan_heard fuel s1 s2 d :
  exists s1' s2', scan fuel s1 s2 d = Ok (fold_left consider_answer (heard fuel s1 s2) d, s1', s2').
Proof.
  revert s1 s2 d. induction fuel as [|fuel IH]; intros s1 s2 d; cbn [scan heard];
    destruct (get_broad_answer s1) as [a1 s1'] eqn:E1.
  - destruct a1 as [[buf p]|]; [eauto|]. destruct s2 as [l|]; [|eauto].
    destruct (get_broad_answer l) as [[[]|] ?]; eauto.
  - assert (exists a s2', (match a1, s2 with
        | None, Some l => let '(a2, l) := get_broad_answer l in (a2, Some l)
        | _, _ => (a1, s2) end) = (a, s2') /\
        (forall buf p, a = Some (buf, p) -> exists r, get_broad_data buf = Ok r)) as (a & s2' & -> & Ha).
    { destruct a1 as [[buf p]|].
      - do 2 eexists. split; [done|]. intros ? ? [= <- <-]. by eapply answer_decodes.
      - destruct s2 as [l|]; [|by do 2 eexists].
        destruct (get_broad_answer l) as [a2 l'] eqn:E2. do 2 eexists. split; [done|].
        intros ? ? ->. by eapply answer_decodes. }
    destruct a as [[buf p]|]; [|eauto].
    destruct (Ha buf p eq_refl) as [[[name version] start] ->].
    cbn [fold_left consider_answer]. apply IH.
Qed.

(** An answer [try_get_scheduler] may choose, and the order of preference. *)
Definition eligible (netname : string) (a : answer) : bool :=
  let '(name, version, _, _) := a in
  same_nocase (bytes_of netname) name && (1 <=? version) && (version <? 128).
Definition preferred (v1 t1 v2 t2 : Z) : Prop := v2 < v1 \/ (v1 = v2 /\ t1 < t2).

Definition chosen (d : DiscoverSched) (a : answer) : Prop :=
  let '(_, version, start, p) := a in
  d_best_version d = version /\ d_best_start_time d = start /\
  d_best_schedname d = pkt_addr p /\ d_best_port d = pkt_port p.

(** What the loop has found after some answers. *)
Definition found (netname : string) (l : list answer) (d : DiscoverSched) : Prop :=
  d_netname d = netname /\
  (filter (fun a => eligible netname a) l = [] -> d_best_version d = 0) /\
  (filter (fun a => eligible netname a) l <> [] ->
     (exists a, a ∈ l /\ eligible netname a = true /\ chosen d a) /\
     forall name v t p, (name, v, t, p) ∈ l -> eligible netname (name, v, t, p) = true ->
       ~ preferred v t (d_best_version d) (d_best_start_time d)) /\
  d_multiple d = (1 <? Z.of_nat (length (filter (fun a => eligible netname a) l))).

Lemma consider_ineligible d a : eligible (d_netname d) a = false -> consider_answer d a = d.
Proof.
  destruct a as [[[name v] t] p]. cbn. unfold consider.
  destruct (same_nocase _ _); cbn; [|done]. intros E.
  destruct (128 <=? v) eqn:E1, (v <? 1) eqn:E2; cbn; try done. boolify.
  exfalso. rewrite (proj2 (Z.leb_le 1 v)), (proj2 (Z.ltb_lt v 128)) in E by lia. done.
Qed.

Lemma found_step netname l d a :
  found netname l d -> found netname (l ++ [a]) (consider_answer d a).
Proof.
  intros (Hn & H0 & H1 & Hm). unfold found. rewrite filter_app, filter_cons, filter_nil.
  destruct (eligible netname a) eqn:Ea.
  2: { rewrite consider_ineligible by (by rewrite Hn). rewrite app_nil_r.
       split; [done|]. split; [done|]. split; [|done]. intros Hne.
       destruct (H1 Hne) as [(b & Hb & ?) Hb']. split; [exists b; rewrite elem_of_app; eauto|].
       intros name v t p [Hin|Hin%list_elem_of_singleton]%elem_of_app He; [eauto|congruence]. }
  destruct a as [[[name v] t] p]. cbn in Ea. boolify. cbn [consider_answer]. unfold consider.
  rewrite Hn, H. cbn [andb]. destruct (128 <=? v) eqn:E1; [boolify; lia|].
  destruct (v <? 1) eqn:E2; [boolify; lia|]. cbn [orb].
  set (d1 := if negb (d_best_version d =? 0) then _ else d).
  assert (d_netname d1 = netname /\ d_best_version d1 = d_best_version d /\
          d_best_start_time d1 = d_best_start_time d /\ d_best_schedname d1 = d_best_schedname d /\
          d_best_port d1 = d_best_port d) as (En & Ev & Et & Es & Ep)
    by (subst d1; by destruct (negb _)).
  assert (filter (fun a => eligible netname a) l = [] \/ d_best_version d <> 0) as Hz.
  { destruct (filter _ l) eqn:Ef; [by left|right].
    destruct (H1 ltac:(done)) as [([[[n2 v2] t2] p2] & _ & He2 & Hc) _].
    cbn in He2, Hc. boolify. lia. }
  assert (d_multiple d1 = (1 <? Z.of_nat (length (filter (fun a => eligible netname a) l ++ [(name, v, t, p)])))) as Hm1.
  { rewrite length_app. cbn [length]. subst d1. destruct Hz as [Hz|Hz].
    - rewrite (H0 Hz), Hz. cbn. by rewrite Hm, Hz.
    - assert (filter (fun a => eligible netname a) l <> []) as Hne by (intros E; apply Hz; by apply H0).
      destruct (filter _ l) as [|x f] eqn:Ef; [done|]. cbn [length].
      rewrite (proj2 (Z.eqb_neq _ _) Hz). cbn. symmetry. apply Z.ltb_lt. lia. }
  clearbody d1.
  assert (eligible netname (name, v, t, p) = true) as Hea.
  { cbn. rewrite H. cbn. apply andb_true_iff. split; [apply Z.leb_le|apply Z.ltb_lt]; lia. }
  rewrite Ev, Et.
  destruct ((d_best_version d <? v) || _) eqn:Eb.
  - cbn. split; [done|]. split; [by destruct (filter _ l)|]. split; [|done]. intros _. split.
    + exists (name, v, t, p). split; [rewrite elem_of_app, list_elem_of_singleton; eauto|]. by split.
    + intros name' v' t' p' [Hin|Hin%list_elem_of_singleton]%elem_of_app He.
      * assert (filter (fun a => eligible netname a) l <> []) as Hne.
        { intros E. assert ((name', v', t', p') ∈ filter (fun a => eligible netname a) l) as Hf
            by (apply list_elem_of_filter; split; [apply Is_true_true; exact He|done]).
          rewrite E in Hf. by apply elem_of_nil in Hf. }
        destruct (H1 Hne) as [_ Hb]. specialize (Hb _ _ _ _ Hin He). unfold preferred in *.
        apply orb_true_iff in Eb as [Eb|Eb]; boolify; lia.
      * injection Hin as -> -> -> ->. unfold preferred. lia.
  - boolify. split; [done|]. rewrite Ev.
    assert (filter (fun a => eligible netname a) l <> []) as Hne.
    { destruct Hz as [Hz|Hz]; [|intros E; apply Hz; by apply H0]. rewrite (H0 Hz) in *. lia. }
    destruct (H1 Hne) as [(b & Hb & He & Hc) Hmax].
    split; [by destruct (filter _ l)|]. split; [|done]. intros _. split.
    + exists b. split; [rewrite elem_of_app; eauto|]. split; [done|].
      destruct b as [[[n2 v2] t2] p2]. cbn in *. by rewrite Ev, Et, Es, Ep.
    + rewrite Et. intros name' v' t' p' [Hin|Hin%list_elem_of_singleton]%elem_of_app He'; [eauto|].
      injection Hin as -> -> -> ->. unfold preferred.
      match goal with E : (_ && _)%bool = false |- _ => apply andb_false_iff in E as [E|E] end;
        boolify; lia.
Qed.

Lemma found_all netname l d l' :
  found netname l d -> found netname (l ++ l') (fold_left consider_answer l' d).
Proof.
  revert l d. induction l' as [|a l' IH]; intros l d Hf; cbn; [by rewrite app_nil_r|].
  replace (l ++ a :: l') with ((l ++ [a]) ++ l') by (by rewrite <- app_assoc).
  by apply IH, found_step.
Qed.

(** The choice, of the answers [l0] of earlier calls and those read now. *)
Lemma choose_scheduler_from l0 s1 s2 d :
  d_schedname d = "" -> found (d_netname d) l0 d ->
  let l := l0 ++ heard (length s1 + length (default [] s2)) s1 s2 in
  exists d' s1' s2', choose_scheduler true s1 s2 d = Ok (d', s1', s2') /\
    d_multiple d' = (1 <? Z.of_nat (length (filter (fun a => eligible (d_netname d) a) l))) /\
    ((forall a, a ∈ l -> eligible (d_netname d) a = false) ->
       d_schedname d' = "" /\ d_sport d' = d_sport d) /\
    ((exists a, a ∈ l /\ eligible (d_netname d) a = true) ->
       exists name v t p, (name, v, t, p) ∈ l /\ eligible (d_netname d) (name, v, t, p) = true /\
         d_schedname d' = pkt_addr p /\ d_sport d' = pkt_port p /\
         forall name2 v2 t2 p2, (name2, v2, t2, p2) ∈ l ->
           eligible (d_netname d) (name2, v2, t2, p2) = true -> ~ preferred v2 t2 v t).
Proof.
  intros Hs Hfound l. unfold choose_scheduler. destruct (decide _); [done|].
  destruct (scan_heard (length s1 + length (default [] s2)) s1 s2 d) as (s1' & s2' & ->).
  set (h := heard _ s1 s2) in *.
  pose proof (found_all _ _ _ h Hfound) as Hf. fold l in Hf.
  assert (forall l d, d_schedname (fold_left consider_answer l d) = d_schedname d /\
                      d_sport (fold_left consider_answer l d) = d_sport d) as Hsame.
  { clear. induction l as [|[[[name v] t] p] l IH]; intros d; [done|]. cbn [fold_left].
    destruct (IH (consider_answer d (name, v, t, p))) as [-> ->].
    cbn. unfold consider. by repeat case_goal. }
  destruct (Hsame h d) as [Es Ep]. destruct Hf as (_ & H0 & H1 & Hmul).
  set (d' := fold_left consider_answer h d) in *. clearbody d'.
  destruct (filter (fun a => eligible (d_netname d) a) l) as [|x f] eqn:Ef.
  - rewrite (H0 eq_refl). cbn [Z.eqb negb andb]. exists d', s1', s2'.
    split; [done|]. split; [done|]. split; [intros _; by rewrite Es, Hs|].
    intros (a & Ha & He). exfalso.
    assert (a ∈ filter (fun a => eligible (d_netname d) a) l) as Hin
      by (apply list_elem_of_filter; split; [apply Is_true_true; exact He|done]).
    rewrite Ef in Hin. by apply elem_of_nil in Hin.
  - destruct (H1 ltac:(done)) as [([[[name v] t] p] & Hin & He & Hc) Hmax].
    assert ((d_best_version d' =? 0) = false) as ->.
    { cbn in He, Hc. boolify. apply Z.eqb_neq. lia. }
    cbn [negb andb]. do 3 eexists. split; [reflexivity|]. cbn. split; [done|].
    split; [intros Hno; by rewrite Hno in He|]. intros _.
    exists name, v, t, p. cbn in Hc. destruct Hc as (<- & <- & -> & ->). done.
Qed.

(** Discovery ends well. Whatever datagrams have arrived (malformed ones
    included), reading the answers neither aborts nor reads outside of the
    buffer; when the time is up, the scheduler is none if no answer was
    eligible, and otherwise the sender of an eligible answer to which none is
    preferred: the newest version, and among these the earliest start. The
    flag [multiple] says whether there was a choice. *)
Theorem choose_scheduler_best s1 s2 d :
  d_schedname d = "" -> d_best_version d = 0 -> d_multiple d = false ->
  let l := heard (length s1 + length (default [] s2)) s1 s2 in
  exists d' s1' s2', choose_scheduler true s1 s2 d = Ok (d', s1', s2') /\
    d_multiple d' = (1 <? Z.of_nat (length (filter (fun a => eligible (d_netname d) a) l))) /\
    ((forall a, a ∈ l -> eligible (d_netname d) a = false) ->
       d_schedname d' = "" /\ d_sport d' = d_sport d) /\
    ((exists a, a ∈ l /\ eligible (d_netname d) a = true) ->
       exists name v t p, (name, v, t, p) ∈ l /\ eligible (d_netname d) (name, v, t, p) = true /\
         d_schedname d' = pkt_addr p /\ d_sport d' = pkt_port p /\
         forall name2 v2 t2 p2, (name2, v2, t2, p2) ∈ l ->
           eligible (d_netname d) (name2, v2, t2, p2) = true -> ~ preferred v2 t2 v t).
Proof.
  intros Hs Hv Hm l. apply (choose_scheduler_from [] s1 s2 d Hs).
  split; [done|]. split; [done|]. by split.
Qed.

Lemma choose_scheduler_best_witness :
  let d := new_DiscoverSched "" "" 0 None in
  let ask := byte_of_Z PROTOCOL_VERSION in
  let s1 := [mkPacket (prepareBroadcastReply ask (bytes_of "ICECREAM") 500) "10.0.0.1" 8765;
             mkPacket (prepareBroadcastReply ask (bytes_of "other") 100) "10.0.0.2" 8765;
             mkPacket (prepareBroadcastReply ask (bytes_of "icecream") 300) "10.0.0.3" 8765] in
  d_schedname d = "" /\
  exists d' s1' s2', choose_scheduler true s1 None d = Ok (d', s1', s2') /\
    d_schedname d' = "10.0.0.3" /\ d_multiple d' = true.
Proof.
  intros d ask s1. split; [reflexivity|].
  destruct (choose_scheduler_best s1 None d eq_refl eq_refl eq_refl)
    as (d' & s1' & s2' & E & Em & _ & _).
  exists d', s1', s2'. split; [exact E|]. vm_compute in E. injection E as <- _ _.
  split; reflexivity.
Defined.

(** C39: the answer of a scheduler is accepted by a daemon of this version and
    decoded to the network name, protocol and start time it was made of. *)
Theorem reply_roundtrip netname starttime addr port rest :
  forallb (fun b => bool_decide (b <> x00)) netname = true ->
  (length netname <= 253)%nat -> - 2 ^ 63 <= starttime < 2 ^ 63 ->
  exists buf p,
    get_broad_answer (mkPacket (prepareBroadcastReply (byte_of_Z PROTOCOL_VERSION) netname starttime)
                        addr port :: rest) = (Some (buf, p), rest) /\
    pkt_addr p = addr /\ pkt_port p = port /\
    get_broad_data buf = Ok (netname, PROTOCOL_VERSION, starttime).
Proof.
  intros Hn Hl Ht. set (q := mkPacket _ addr port).
  set (h := [byte_of_Z (PROTOCOL_VERSION + 3)] ++ be32 PROTOCOL_VERSION ++ be_time starttime).
  assert (pkt_data q = h ++ snprintf_s (BROAD_BUFLEN - 13) netname
        ++ repeat x00 (BROAD_BUFLEN - length (h ++ snprintf_s (BROAD_BUFLEN - 13) netname))) as Eq.
  { rewrite <- padded_app. unfold h. by rewrite <- !app_assoc. }
  assert (length (snprintf_s (BROAD_BUFLEN - 13) netname) = S (length netname)) as Hsn.
  { unfold snprintf_s. rewrite take_ge by (cbn; lia). rewrite length_app. cbn. lia. }
  assert (length h = 13%nat) as Hh by reflexivity.
  rewrite length_app, Hh, Hsn in Eq.
  replace (repeat x00 (BROAD_BUFLEN - (13 + S (length netname))))
    with (repeat x00 (BROAD_BUFLEN - 15 - length netname) ++ [x00]) in Eq.
  2: { rewrite <- repeat_cons. f_equal. unfold BROAD_BUFLEN.
       change (x00 :: repeat x00 (268 - 15 - length netname))
         with (repeat x00 (S (268 - 15 - length netname))). f_equal. lia. }
  assert (length (pkt_data q) = BROAD_BUFLEN) as Hlen.
  { rewrite Eq, !length_app, Hh, Hsn, repeat_length. unfold BROAD_BUFLEN. cbn [length]. lia. }
  exists (pkt_data q), q. cbn [get_broad_answer].
  rewrite (take_ge (pkt_data q)) by (rewrite Hlen; lia). rewrite Hlen.
  assert (take (pred BROAD_BUFLEN) (pkt_data q) ++ [x00] = pkt_data q) as Et.
  { rewrite Eq at 2. rewrite !app_assoc. f_equal. rewrite Eq, !app_assoc.
    apply take_app_length'. rewrite !length_app, Hh, Hsn, repeat_length. unfold BROAD_BUFLEN. lia. }
  rewrite Et. change (default 0 (schar <$> head (pkt_data q))) with (PROTOCOL_VERSION + 3).
  split; [done|]. split; [done|]. split; [done|].
  unfold get_broad_data. change (char_at (pkt_data q) 0) with (Ok (byte_of_Z (PROTOCOL_VERSION + 3))).
  cbv zeta. change (schar (byte_of_Z (PROTOCOL_VERSION + 3))) with (PROTOCOL_VERSION + 3).
  cbn [Z.eqb Z.add Pos.eqb Pos.add Pos.succ PROTOCOL_VERSION].
  unfold c_string_at. assert (drop 13 (pkt_data q) = snprintf_s (BROAD_BUFLEN - 13) netname
     ++ (repeat x00 (BROAD_BUFLEN - 15 - length netname) ++ [x00])) as ->
    by (rewrite Eq; by apply drop_app_length').
  rewrite c_string_snprintf, (take_ge netname) by (done || cbn; lia).
  transitivity (Ok (netname, PROTOCOL_VERSION, time_of_words (be32_value (take 4 (be_time starttime)))
    (be32_value (take 4 (drop 4 (be_time starttime)))))); [|by rewrite time_of_be_time].
  rewrite Eq. reflexivity.
Qed.

Lemma reply_roundtrip_witness :
  exists buf p,
    get_broad_answer [mkPacket (prepareBroadcastReply (byte_of_Z PROTOCOL_VERSION)
                        (bytes_of "ICECREAM") 1700000000) "10.0.0.1" 8765] = (Some (buf, p), []) /\
    pkt_addr p = "10.0.0.1"%string /\ pkt_port p = 8765 /\
    get_broad_data buf = Ok (bytes_of "ICECREAM", PROTOCOL_VERSION, 1700000000).
Proof.
  apply (reply_roundtrip (bytes_of "ICECREAM") 1700000000 "10.0.0.1" 8765 []);
    [reflexivity|cbn; lia|lia].
Defined.
