(* ===== verification/Sockets.v ===== *)
(** * Sockets (services/comm.cpp)

    Making connections and sending broadcasts, with the set of the descriptors
    that are open. What the system answers is the class [Network]; the numbers of
    descriptors are the lowest that are free.

    Not modelled: options of sockets, and the flag [FD_CLOEXEC] beyond the failure
    of setting it. *)

From Stdlib Require Import ZArith Lia.
From Stdlib Require Import Strings.Byte Strings.String.
From stdpp Require Import base tactics option list gmap sets strings pretty.
From S2P Require Import Prelude MsgChannel Msg Transport Discovery.

#[local] Open Scope Z_scope.

(** ** The network *)

(** What a socket is connected to: an IPv4 address and a port, or a path. *)
Inductive endpoint : Type :=
| Inet (address : list byte) (port : Z)
| Local (path : list byte).

(** [connect]: 0, [EISCONN], [EINPROGRESS], [EAGAIN], another error. *)
Inductive conn_status : Type :=
| Connected | Is_connected | In_progress | Try_again | Not_connected.
#[export] Instance conn_status_eq_dec : EqDecision conn_status.
Proof. solve_decision. Defined.

Definition AF_INET : Z := 2.
Definition IFF_BROADCAST : Z := 2.
Definition IFF_POINTOPOINT : Z := 16.

(** [struct kde_ifaddrs] *)
Record ifaddr : Type := mkIfaddr {
  ifa_name : option string;
  ifa_addr : option (Z * list byte);     (* family and address *)
  ifa_netmask : bool;                    (* not null *)
  ifa_flags : Z;
  ifa_broadaddr : option (list byte)
}.

(** Each answer depends on how many questions were put before. *)
Class Network : Type := {
  net_platform : string;
  net_slow : bool;                                 (* slow_network() *)
  net_in_tests : bool;                             (* ICECC_TESTS *)
  net_test_ports : option string;                  (* ICECC_TEST_SCHEDULER_PORTS *)
  net_scheduler : option string;                   (* ICECC_SCHEDULER, USE_SCHEDULER *)
  net_time : nat -> Z;
  net_socket : nat -> bool;                        (* a socket could be made *)
  net_fcntl : nat -> bool;
  net_setsockopt : nat -> bool;
  net_ifaddrs : nat -> option (list ifaddr);       (* kde_getifaddrs *)
  net_resolve : nat -> string -> option (list byte); (* gethostbyname *)
  net_connect : nat -> Z -> endpoint -> conn_status;
  net_writable : nat -> Z -> Z -> bool;            (* poll for so many ms succeeds *)
  net_io : nat -> io;                              (* of a new channel *)
  (** the datagrams that have arrived since, until [poll] finds none *)
  net_arrived : nat -> Z -> list packet
}.

(** What is done to the network, in order. *)
Inductive net_effect : Type :=
| Datagram (address : list byte) (port : Z) (data : list byte)
| Connecting (to : endpoint)
| Bound (fd : Z) (at_ : endpoint)
| Listening (fd : Z)
| Unlinked_socket (path : list byte).

Record Sockets : Type := mkSockets {
  so_open : gset Z;                    (* the descriptors of the process *)
  so_nonblocking : gset Z;
  so_waiting : gmap Z (list packet);   (* datagrams that were not read *)
  so_asked : nat;
  so_effects : list net_effect
}.

Definition set_so_open (v : gset Z) (s : Sockets) : Sockets :=
  mkSockets v s.(so_nonblocking) s.(so_waiting) s.(so_asked) s.(so_effects).
Definition set_so_nonblocking (v : gset Z) (s : Sockets) : Sockets :=
  mkSockets s.(so_open) v s.(so_waiting) s.(so_asked) s.(so_effects).
Definition set_so_waiting (v : gmap Z (list packet)) (s : Sockets) : Sockets :=
  mkSockets s.(so_open) s.(so_nonblocking) v s.(so_asked) s.(so_effects).
Definition set_so_asked (v : nat) (s : Sockets) : Sockets :=
  mkSockets s.(so_open) s.(so_nonblocking) s.(so_waiting) v s.(so_effects).
Definition set_so_effects (v : list net_effect) (s : Sockets) : Sockets :=
  mkSockets s.(so_open) s.(so_nonblocking) s.(so_waiting) s.(so_asked) v.

Abbreviation net := (M Sockets).

(** The lowest number that is not in use; among [size + 1] there is one. *)
Fixpoint lowest_from (fuel : nat) (n : Z) (used : gset Z) : Z :=
  match fuel with
  | O => n
  | S fuel => if decide (n ∈ used) then lowest_from fuel (n + 1) used else n
  end.
Definition lowest_free (used : gset Z) : Z := lowest_from (size used) 0 used.

(** [inet_ntoa] *)
Definition inet_ntoa (a : list byte) : string :=
  String.concat "." (map (fun b => pretty (Byte.to_N b)) a).
(** A [sockaddr_in] as bytes. *)
Definition sockaddr_in (a : list byte) (port : Z) : list byte :=
  [x02; x00] ++ [byte_of_Z (Z.shiftr port 8); byte_of_Z port] ++ a ++ repeat x00 8.
Definition sockaddr_un (path : list byte) : list byte := [x01; x00] ++ padded 108 path.
Definition sockaddr_of (e : endpoint) : list byte :=
  match e with Inet a p => sockaddr_in a p | Local path => sockaddr_un path end.

Section sockets.
Context `{Compressors, Network}.

Definition ask_net {A} (q : nat -> A) : net A :=
  s ← get; _ ← put (set_so_asked (S (so_asked s)) s); mret (q (so_asked s)).
Definition note (e : net_effect) : net unit :=
  modify (fun s => set_so_effects (so_effects s ++ [e]) s).

(** [socket]: the descriptor, or -1. *)
Definition open_socket : net Z :=
  made ← ask_net net_socket;
  if negb made then mret (-1)
  else
    fd ← gets (fun s => lowest_free (so_open s));
    _ ← modify (fun s => set_so_open ({[fd]} ∪ so_open s) s);
    mret fd.
(** [close] of what is not open fails, which is only logged. *)
Definition close_fd (fd : Z) : net unit :=
  modify (fun s => set_so_open (so_open s ∖ {[fd]})
    (set_so_nonblocking (so_nonblocking s ∖ {[fd]}) (set_so_waiting (delete fd (so_waiting s)) s))).
Definition set_nonblocking (fd : Z) : net unit :=
  modify (fun s => set_so_nonblocking ({[fd]} ∪ so_nonblocking s) s).
Definition set_blocking (fd : Z) : net unit :=
  modify (fun s => set_so_nonblocking (so_nonblocking s ∖ {[fd]}) s).
Definition connect (fd : Z) (e : endpoint) : net conn_status :=
  _ ← note (Connecting e);
  ask_net (fun n => net_connect n fd e).

(** ** Connections *)

(** A socket for a host, and the address to connect it to: [remote_addr] is left
    alone when the result is negative. *)
Definition prepare_connect (hostname : string) (p : Z) (remote_addr : endpoint)
  : net (Z * endpoint) :=
  remote_fd ← open_socket;
  if remote_fd <? 0 then mret (-1, remote_addr)
  else
    host ← ask_net (fun n => net_resolve n hostname);
    match host with
    | None => _ ← close_fd remote_fd; mret (-1, remote_addr)
    | Some address =>
        if negb (length address =? 4)%nat then
          _ ← close_fd remote_fd; mret (-1, remote_addr)
        else mret (remote_fd, Inet address (p mod 2 ^ 16))
    end.

Definition connect_async (remote_fd : Z) (remote_addr : endpoint) (timeout : Z) : net bool :=
  _ ← set_nonblocking remote_fd;
  status ← connect remote_fd remote_addr;
  status ←
    (if bool_decide (status = In_progress) || bool_decide (status = Try_again) then
       ready ← ask_net (fun n => net_writable n remote_fd (timeout * 1000));
       if ready : bool then
         again ← connect remote_fd remote_addr;
         mret (if decide (again = Is_connected) then Connected else again)
       else mret status
     else mret status);
  if decide (status = Connected) then _ ← set_blocking remote_fd; mret true
  else _ ← close_fd remote_fd; mret false.

(** [Service::createChannel(int, struct sockaddr *, socklen_t)]; the destructor of
    a channel whose handshake fails closes the descriptor. *)
Definition create_channel (fd : Z) (e : endpoint) : net (option MsgChannel) :=
  now ← ask_net net_time;
  o ← ask_net net_io;
  _ ← set_nonblocking fd;
  let name := match e with Inet a _ => inet_ntoa a | Local _ => "local unix domain socket"%string end in
  match createChannel net_platform fd (sockaddr_of e) name now o with
  | Fault f => throw f
  | Ok (Some c) => mret (Some c)
  | Ok None => _ ← close_fd fd; mret None
  end.

(** [Service::createChannel(const string &, unsigned short, int)] *)
Definition create_channel_to (hostname : string) (p timeout : Z) : net (option MsgChannel) :=
  '(remote_fd, remote_addr) ← prepare_connect hostname p (Inet [] 0);
  if remote_fd <? 0 then mret None
  else
    connected ←
      (if negb (timeout =? 0) then connect_async remote_fd remote_addr timeout
       else
         status ← connect remote_fd remote_addr;
         if decide (status = Connected) then mret true
         else _ ← close_fd remote_fd; mret false);
    if connected : bool then create_channel remote_fd remote_addr else mret None.

(** [Service::createChannel(const string &)]: a name that is too long is cut off. *)
Definition create_channel_local (socket_path : list byte) : net (option MsgChannel) :=
  remote_fd ← open_socket;
  if remote_fd <? 0 then mret None
  else
    let remote_addr := Local (take 107 socket_path) in
    status ← connect remote_fd remote_addr;
    if negb (bool_decide (status = Connected)) then _ ← close_fd remote_fd; mret None
    else create_channel remote_fd remote_addr.

(** ** Broadcasts *)

Fixpoint after_colon (l : list byte) : option (list byte) :=
  match l with
  | [] => None
  | b :: l => if decide (b = x3a) then Some l else after_colon l
  end.

(** The other port of the schedulers under test, or -1. *)
Definition get_second_port_for_debug (port : Z) : Z :=
  let '(debugPort1, debugPort2) :=
    match net_test_ports with
    | None => (0, 0)
    | Some env => (atoi (bytes_of env), default 0 (atoi <$> after_colon (bytes_of env)))
    end in
  let secondPort :=
    if port =? debugPort1 then debugPort2
    else if port =? debugPort2 then debugPort1 else 0 in
  if negb (secondPort =? 0) then secondPort else -1.

Definition localhost : list byte := [x7f; x00; x00; x01].

(** An interface to which broadcasts go: the broadcast address. *)
Definition broadcast_of (i : ifaddr) : option (list byte) :=
  match ifa_name i, ifa_addr i with
  | Some _, Some (family, address) =>
      if negb (family =? AF_INET) || negb (ifa_netmask i) then None
      else if
        if negb net_in_tests then
          bool_decide (address = localhost)
          || negb (Z.land (ifa_flags i) IFF_POINTOPOINT =? 0)
          || (Z.land (ifa_flags i) IFF_BROADCAST =? 0)
        else negb (bool_decide (address = localhost))
      then None
      else ifa_broadaddr i
  | _, _ => None
  end.

(** The descriptor, or a negative number. Where the interfaces cannot be listed
    the socket stays open. *)
Definition open_send_broadcast (port : Z) (buf : list byte) : net Z :=
  ask_fd ← open_socket;
  if ask_fd <? 0 then mret (-1)
  else
    done ← ask_net net_fcntl;
    if negb done then _ ← close_fd ask_fd; mret (-1)
    else
      done ← ask_net net_setsockopt;
      if negb done then _ ← close_fd ask_fd; mret (-1)
      else
        addrs ← ask_net net_ifaddrs;
        match addrs with
        | None => mret (-1)
        | Some addrs =>
            _ ← for_each (fun a => note (Datagram a (port mod 2 ^ 16) buf)) (omap broadcast_of addrs);
            mret ask_fd
        end.

(** [Broadcasts::broadcastData] *)
Definition broadcastData (port : Z) (buf : list byte) : net unit :=
  fd ← open_send_broadcast port buf;
  _ ← when (0 <=? fd) (close_fd fd);
  let secondPort := get_second_port_for_debug port in
  when (0 <? secondPort)
    (fd2 ← open_send_broadcast secondPort buf;
     when (0 <=? fd2) (close_fd fd2)).
End sockets.
