(* ===== verification/Searching.v ===== *)
(** * The search for a scheduler (services/comm.cpp, daemon/main.cpp)

    The object [DiscoverSched] with its sockets and its time, the announcements
    as they are sent, and the piece of [Daemon::reconnect] that drives the search.
    What the datagrams mean is in Discovery.v. *)

From Stdlib Require Import ZArith Lia.
From Stdlib Require Import Strings.Byte Strings.String.
From stdpp Require Import base tactics option list gmap sets strings.
From S2P Require Import Prelude MsgChannel Msg Transport Discovery Sockets.

#[local] Open Scope Z_scope.

(** A [DiscoverSched]: what Discovery.v has of it, and the rest. *)
Record Search : Type := mkSearch {
  se_disc : DiscoverSched;
  se_timeout : Z;
  se_ask_fd : Z;
  se_ask_second_fd : Z;
  se_time0 : Z;
  se_remote : endpoint     (* remote_addr *)
}.

Definition set_se_disc (v : DiscoverSched) (f : Search) : Search :=
  mkSearch v f.(se_timeout) f.(se_ask_fd) f.(se_ask_second_fd) f.(se_time0) f.(se_remote).
Definition set_se_ask_fd (v : Z) (f : Search) : Search :=
  mkSearch f.(se_disc) f.(se_timeout) v f.(se_ask_second_fd) f.(se_time0) f.(se_remote).
Definition set_se_ask_second_fd (v : Z) (f : Search) : Search :=
  mkSearch f.(se_disc) f.(se_timeout) f.(se_ask_fd) v f.(se_time0) f.(se_remote).
Definition set_se_time0 (v : Z) (f : Search) : Search :=
  mkSearch f.(se_disc) f.(se_timeout) f.(se_ask_fd) f.(se_ask_second_fd) v f.(se_remote).
Definition set_se_remote (v : endpoint) (f : Search) : Search :=
  mkSearch f.(se_disc) f.(se_timeout) f.(se_ask_fd) f.(se_ask_second_fd) f.(se_time0) v.

(** No scheduler was named. *)
Definition unnamed (f : Search) : bool := bool_decide (d_schedname (se_disc f) = ""%string).
Definition listen_fd (f : Search) : Z := if unnamed f then se_ask_fd f else -1.
Definition connect_fd (f : Search) : Z := if unnamed f then -1 else se_ask_fd f.

Section search.
Context `{Compressors, Network}.

(** ** [DiscoverSched] *)

Definition timed_out (f : Search) : net bool :=
  t ← ask_net net_time; mret (se_timeout f <=? t - se_time0 f).

Definition attempt_scheduler_connect (f : Search) : net Search :=
  t ← ask_net net_time;
  let f := set_se_time0 (t + MAX_SCHEDULER_PONG net_slow) f in
  '(fd, remote) ← prepare_connect (d_schedname (se_disc f)) (d_sport (se_disc f) mod 2 ^ 16) (se_remote f);
  _ ← when (0 <=? fd) (set_nonblocking fd);
  mret (set_se_ask_fd fd (set_se_remote remote f)).

Definition sendSchedulerDiscovery (version : Z) (f : Search) : net Search :=
  _ ← assert (version <? 128);
  let sport := i32 (d_sport (se_disc f)) in
  fd ← open_send_broadcast sport (discovery version);
  let f := set_se_ask_fd fd f in
  let secondPort := get_second_port_for_debug sport in
  if 0 <? secondPort then
    fd2 ← open_send_broadcast secondPort (discovery version);
    mret (set_se_ask_second_fd fd2 f)
  else mret f.

(** The constructor. *)
Definition new_Search (netname : string) (timeout : Z) (schedname : string) (port : Z)
  : net Search :=
  time0 ← ask_net net_time;
  let f := mkSearch (new_DiscoverSched netname schedname port net_scheduler) timeout (-1) (-1)
             time0 (Inet [] 0) in
  if unnamed f then sendSchedulerDiscovery PROTOCOL_VERSION f
  else attempt_scheduler_connect f.

(** The destructor. *)
Definition delete_Search (f : Search) : net unit :=
  _ ← when (0 <=? se_ask_fd f) (close_fd (se_ask_fd f));
  when (0 <=? se_ask_second_fd f) (close_fd (se_ask_second_fd f)).

(** The datagrams on a socket: those left over, and what has arrived since. *)
Definition datagrams (fd : Z) : net (list packet) :=
  more ← ask_net (fun n => net_arrived n fd);
  old ← gets (fun s => default [] (so_waiting s !! fd));
  mret (old ++ more).
Definition leave_waiting (fd : Z) (l : list packet) : net unit :=
  modify (fun s => set_so_waiting (<[fd := l]> (so_waiting s)) s).

(** The loop over the answers, the test of the time and the choice
    ([choose_scheduler]); the assertions are those of [get_broad_answer]. *)
Definition read_answers (f : Search) : net (bool * Search) :=
  _ ← assert (0 <? se_ask_fd f);
  s1 ← datagrams (se_ask_fd f);
  s2 ← (if se_ask_second_fd f =? -1 then mret None
        else _ ← assert (0 <? se_ask_second_fd f);
             Some <$> datagrams (se_ask_second_fd f));
  expired ← timed_out f;
  match choose_scheduler expired s1 s2 (se_disc f) with
  | Fault e => throw e
  | Ok (d, s1, s2) =>
      _ ← leave_waiting (se_ask_fd f) s1;
      _ ← (match s2 with
           | None => mret tt
           | Some s2 => leave_waiting (se_ask_second_fd f) s2
           end);
      mret (expired, set_se_disc d f)
  end.

(** The sockets of the broadcasts are not needed any more. *)
Definition drop_broadcasts (f : Search) : net Search :=
  _ ← close_fd (se_ask_fd f);
  let f := set_se_ask_fd (-1) f in
  if 0 <? get_second_port_for_debug (i32 (d_sport (se_disc f))) then
    _ ← close_fd (se_ask_second_fd f);
    mret (set_se_ask_second_fd (-1) f)
  else
    _ ← assert (se_ask_second_fd f =? -1);
    mret f.

(** A call of [connect]; where it is good enough the channel is made on the
    socket, which is not the object's any more. *)
Definition connect_search (good : conn_status -> bool) (f : Search)
  : net (option MsgChannel * Search) :=
  status ← connect (se_ask_fd f) (se_remote f);
  if good status then
    c ← create_channel (se_ask_fd f) (se_remote f);
    mret (c, set_se_ask_fd (-1) f)
  else mret (None, f).

Definition try_get_scheduler (f : Search) : net (option MsgChannel * Search) :=
  if unnamed f then
    '(expired, f) ← read_answers f;
    if negb expired || (d_best_version (se_disc f) =? 0) then mret (None, f)
    else
      f ← drop_broadcasts f;
      f ← attempt_scheduler_connect f;
      if 0 <=? se_ask_fd f then
        connect_search (fun st => bool_decide (st = Connected) || bool_decide (st = Is_connected)
                                  || bool_decide (st = In_progress)) f
      else mret (None, f)
  else if 0 <=? se_ask_fd f then
    _ ← assert (se_ask_second_fd f =? -1);
    connect_search (fun st => bool_decide (st = Connected) || bool_decide (st = Is_connected)) f
  else mret (None, f).

(** ** [DiscoverSched::getNetnames]

    The names in the answers that have arrived. One that comes when the time of
    the round is over is dropped, and ends the round. *)
Fixpoint read_names (fd timeout_time : Z) (l : list packet) (acc : list string)
  : net (list string) :=
  match l with
  | [] => _ ← leave_waiting fd []; mret acc
  | p :: rest =>
      match get_broad_answer [p] with
      | (None, _) => _ ← leave_waiting fd rest; mret acc
      | (Some (buf, _), _) =>
          t ← ask_net net_time;
          if negb (t <? timeout_time) then _ ← leave_waiting fd rest; mret acc
          else
            match get_broad_data buf with
            | Fault e => throw e
            | Ok (name, _, _) => read_names fd timeout_time rest (acc ++ [str_of name])
            end
      end
  end.

(** At most [rounds] turns of the outer loop; the flag tells whether it has ended. *)
Fixpoint netname_rounds (rounds : nat) (fd timeout time0 : Z) (acc : list string)
  : net (list string * bool) :=
  match rounds with
  | O => mret (acc, false)
  | S rounds =>
      t ← ask_net net_time;
      _ ← assert (0 <? fd);
      l ← datagrams fd;
      acc ← read_names fd (t + Z.min 3 timeout) l acc;
      t ← ask_net net_time;
      if t - time0 <? Z.quot timeout 1000 then netname_rounds rounds fd timeout time0 acc
      else mret (acc, true)
  end.
Definition getNetnames (rounds : nat) (timeout port : Z) : net (list string * bool) :=
  time0 ← ask_net net_time;
  ask_fd ← open_send_broadcast port (discovery PROTOCOL_VERSION);
  r ← netname_rounds rounds ask_fd timeout time0 [];
  _ ← close_fd ask_fd;
  mret r.

(** ** Announcements as they are sent *)

(** [Broadcasts::broadcastSchedulerVersion] *)
Definition announce_version (scheduler_port : Z) (netname : list byte) (starttime : Z) : net unit :=
  match broadcastSchedulerVersion netname starttime with
  | Fault f => throw f
  | Ok bufs => for_each (broadcastData scheduler_port) bufs
  end.

(** ** The daemon's part

    [reconnect] from the test of [discover] on, without the greeting of the
    scheduler: the channel to it, and the object that is kept. *)
Record Wish : Type := mkWish {
  w_netname : string;
  w_pong : Z;              (* max_scheduler_pong *)
  w_schedname : string;
  w_port : Z
}.

Definition search (w : Wish) (discover : option Search)
  : net (option MsgChannel * option Search) :=
  let fresh :=
    f ← new_Search (w_netname w) (w_pong w) (w_schedname w) (w_port w); mret (None, Some f) in
  match discover with
  | None => fresh
  | Some f =>
      '(scheduler, f) ← try_get_scheduler f;
      match scheduler with
      | Some c => _ ← delete_Search f; mret (Some c, None)
      | None =>
          over ← timed_out f;
          if over : bool then _ ← delete_Search f; fresh else mret (None, Some f)
      end
  end.

(** Rounds of the search, until there is a scheduler. *)
Fixpoint search_rounds (rounds : nat) (w : Wish) (discover : option Search)
  : net (option MsgChannel * option Search) :=
  match rounds with
  | O => mret (None, discover)
  | S rounds =>
      r ← search w discover;
      match r.1 with
      | Some _ => mret r
      | None => search_rounds rounds w r.2
      end
  end.
End search.
