(* ===== verification/Float.v ===== *)
(** * Machine floating point

    The [float] and [double] arithmetic the scheduler's statistics use:
    binary32 and binary64 with rounding to nearest even, on the executable
    specification floats of the standard library. [float] operations round
    after each step, as they do on the platforms the code targets. *)

From Stdlib Require Import ZArith Lia.
From Stdlib Require Import Floats.SpecFloat.
From Stdlib Require Import Strings.Byte Strings.String.
From stdpp Require Import base tactics list pretty strings.
From S2P Require Import Prelude.

#[local] Open Scope Z_scope.

Definition float : Type := spec_float.

(** Rounding of [m * 2 ^ e] to a format. *)
Definition to_f32 (m e : Z) : float := binary_normalize 24 128 m e false.
Definition to_f64 (m e : Z) : float := binary_normalize 53 1024 m e false.

(** Conversion between the formats; the conversion to [double] is exact. *)
Definition convert (to : Z -> Z -> float) (f : float) : float :=
  match f with
  | S754_finite s m e => to (cond_Zopp s (Zpos m)) e
  | f => f
  end.
Definition f32 (f : float) : float := convert to_f32 f.
Definition f64 (f : float) : float := convert to_f64 f.

(** From an integer. *)
Definition f32_of_Z (z : Z) : float := to_f32 z 0.
Definition f64_of_Z (z : Z) : float := to_f64 z 0.
(** The literal [n / 10 ^ k]. *)
Definition f64_lit (n d : Z) : float := SFdiv 53 1024 (f64_of_Z n) (f64_of_Z d).

Definition fadd32 : float -> float -> float := SFadd 24 128.
Definition fsub32 : float -> float -> float := SFsub 24 128.
Definition fmul32 : float -> float -> float := SFmul 24 128.
Definition fdiv32 : float -> float -> float := SFdiv 24 128.
Definition fadd64 : float -> float -> float := SFadd 53 1024.
Definition fsub64 : float -> float -> float := SFsub 53 1024.
Definition fmul64 : float -> float -> float := SFmul 53 1024.
Definition fdiv64 : float -> float -> float := SFdiv 53 1024.

Definition flt (a b : float) : bool := SFltb a b.
Definition fle (a b : float) : bool := SFleb a b.

(** [(unsigned long) f]: truncation, undefined outside of the range. *)
Definition f64_to_ulong (f : float) : option Z :=
  match f with
  | S754_zero _ => Some 0
  | S754_finite s m e =>
      let t := if 0 <=? e then Zpos m * 2 ^ e else Zpos m / 2 ^ (- e) in
      if s then (if t =? 0 then Some 0 else None)
      else if t <? 2 ^ 64 then Some t else None
  | _ => None
  end.

(** [%.<n>f]: the exact value rounded to [n] decimals, ties to even. *)
Definition round_decimals (n : nat) (m e : Z) : Z :=
  let p := m * 10 ^ Z.of_nat n in
  if 0 <=? e then p * 2 ^ e
  else
    let d := 2 ^ (- e) in
    let q := p / d in
    let r := p mod d in
    if (d <? 2 * r) || ((d =? 2 * r) && Z.odd q) then q + 1 else q.

Fixpoint decimals (n : nat) (z : Z) : string :=
  match n with
  | O => ""
  | S n => (decimals n (z / 10) +:+ pretty (z mod 10))%string
  end.

Definition print_fixed (n : nat) (f : float) : string :=
  let sign (s : bool) := if s then "-"%string else ""%string in
  let digits z := (pretty (z / 10 ^ Z.of_nat n) +:+ "." +:+ decimals n (z mod 10 ^ Z.of_nat n))%string in
  match f with
  | S754_nan => "nan"
  | S754_infinity s => sign s +:+ "inf"
  | S754_zero s => sign s +:+ digits 0
  | S754_finite s m e => sign s +:+ digits (round_decimals n (Zpos m) e)
  end.

Example print_1_5 : print_fixed 6 (fdiv32 (f32_of_Z 3) (f32_of_Z 2)) = "1.500000"%string.
Proof. reflexivity. Qed.
Example print_tenth : print_fixed 2 (f64_lit (-1) 10) = "-0.10"%string.
Proof. reflexivity. Qed.
Example tenth_exact : f64_lit 1 10 = S754_finite false 7205759403792794 (-56).
Proof. reflexivity. Qed.
