(* ===== verification/CompileServer.v ===== *)
(** * Jobs and compile servers (scheduler/job.cpp, jobstat.cpp, compileserver.cpp)

    The scheduler's records: the statistics of a job ([JobStat]), a job
    ([Job]) and a connected host ([CompileServer], which extends a
    [MsgChannel]). Objects of the heap are named by positive numbers; a
    pointer that may be null is an [option]. Accessors are the fields and
    their setters; methods that compute are definitions of the same name. *)

From Stdlib Require Import ZArith Lia.
From Stdlib Require Import Strings.Byte Strings.String.
From stdpp Require Import base tactics option list gmap strings.
From S2P Require Import Prelude MsgChannel CompileJob Msg Transport TransportFacts.

#[local] Open Scope Z_scope.

(** ** Statistics *)

Record JobStat : Type := mkJobStat {
  js_outputSize : Z;
  js_compileTimeReal : Z;
  js_compileTimeUser : Z;
  js_compileTimeSys : Z;
  js_jobId : Z
}.

Definition set_js_outputSize (v : Z) (r : JobStat) : JobStat :=
  mkJobStat v (r.(js_compileTimeReal)) (r.(js_compileTimeUser))
    (r.(js_compileTimeSys)) (r.(js_jobId)).
Definition set_js_compileTimeReal (v : Z) (r : JobStat) : JobStat :=
  mkJobStat (r.(js_outputSize)) v (r.(js_compileTimeUser))
    (r.(js_compileTimeSys)) (r.(js_jobId)).
Definition set_js_compileTimeUser (v : Z) (r : JobStat) : JobStat :=
  mkJobStat (r.(js_outputSize)) (r.(js_compileTimeReal)) v
    (r.(js_compileTimeSys)) (r.(js_jobId)).
Definition set_js_compileTimeSys (v : Z) (r : JobStat) : JobStat :=
  mkJobStat (r.(js_outputSize)) (r.(js_compileTimeReal))
    (r.(js_compileTimeUser)) v (r.(js_jobId)).
Definition set_js_jobId (v : Z) (r : JobStat) : JobStat :=
  mkJobStat (r.(js_outputSize)) (r.(js_compileTimeReal))
    (r.(js_compileTimeUser)) (r.(js_compileTimeSys)) v.

Definition no_stat : JobStat := mkJobStat 0 0 0 0 0.

(** [operator+=], [operator-=] and [operator/=]: the sums are [unsigned long],
    the divisor is converted to it. *)
Definition stat_map2 (f : Z -> Z -> Z) (a b : JobStat) : JobStat :=
  mkJobStat (f (js_outputSize a) (js_outputSize b))
    (f (js_compileTimeReal a) (js_compileTimeReal b))
    (f (js_compileTimeUser a) (js_compileTimeUser b))
    (f (js_compileTimeSys a) (js_compileTimeSys b)) 0.
Definition stat_add : JobStat -> JobStat -> JobStat := stat_map2 (fun x y => u64 (x + y)).
Definition stat_sub : JobStat -> JobStat -> JobStat := stat_map2 (fun x y => u64 (x - y)).
Definition stat_div (a : JobStat) (d : Z) : res JobStat :=
  if d =? 0 then Fault DivByZero
  else
    let f x := x / u64 d in
    Ok (mkJobStat (f (js_outputSize a)) (f (js_compileTimeReal a))
          (f (js_compileTimeUser a)) (f (js_compileTimeSys a)) 0).

(** ** Jobs *)

Abbreviation ptr := positive (only parsing).

Inductive job_state : Type := PENDING | WAITINGFORCS | COMPILING.
#[export] Instance job_state_eq_dec : EqDecision job_state.
Proof. solve_decision. Defined.

Record Job : Type := mkJob {
  j_id : Z;
  j_localClientId : Z;
  j_state : job_state;
  j_server : option ptr;
  j_submitter : ptr;
  j_environments : Environments;
  j_startTime : Z;
  j_startOnScheduler : Z;
  j_doneTime : Z;
  j_targetPlatform : string;
  j_fileName : string;
  j_masterJobFor : list ptr;
  j_argFlags : Z;
  j_language : string;
  j_preferredHost : string;
  j_minimalHostVersion : Z;
  j_requiredFeatures : Z;
  j_niceness : Z
}.

Definition set_job_id (v : Z) (r : Job) : Job :=
  mkJob v (r.(j_localClientId)) (r.(j_state)) (r.(j_server))
    (r.(j_submitter)) (r.(j_environments)) (r.(j_startTime))
    (r.(j_startOnScheduler)) (r.(j_doneTime)) (r.(j_targetPlatform))
    (r.(j_fileName)) (r.(j_masterJobFor)) (r.(j_argFlags)) (r.(j_language))
    (r.(j_preferredHost)) (r.(j_minimalHostVersion)) (r.(j_requiredFeatures))
    (r.(j_niceness)).
Definition set_job_localClientId (v : Z) (r : Job) : Job :=
  mkJob (r.(j_id)) v (r.(j_state)) (r.(j_server)) (r.(j_submitter))
    (r.(j_environments)) (r.(j_startTime)) (r.(j_startOnScheduler))
    (r.(j_doneTime)) (r.(j_targetPlatform)) (r.(j_fileName))
    (r.(j_masterJobFor)) (r.(j_argFlags)) (r.(j_language))
    (r.(j_preferredHost)) (r.(j_minimalHostVersion)) (r.(j_requiredFeatures))
    (r.(j_niceness)).
Definition set_job_state (v : job_state) (r : Job) : Job :=
  mkJob (r.(j_id)) (r.(j_localClientId)) v (r.(j_server)) (r.(j_submitter))
    (r.(j_environments)) (r.(j_startTime)) (r.(j_startOnScheduler))
    (r.(j_doneTime)) (r.(j_targetPlatform)) (r.(j_fileName))
    (r.(j_masterJobFor)) (r.(j_argFlags)) (r.(j_language))
    (r.(j_preferredHost)) (r.(j_minimalHostVersion)) (r.(j_requiredFeatures))
    (r.(j_niceness)).
Definition set_job_server (v : option ptr) (r : Job) : Job :=
  mkJob (r.(j_id)) (r.(j_localClientId)) (r.(j_state)) v (r.(j_submitter))
    (r.(j_environments)) (r.(j_startTime)) (r.(j_startOnScheduler))
    (r.(j_doneTime)) (r.(j_targetPlatform)) (r.(j_fileName))
    (r.(j_masterJobFor)) (r.(j_argFlags)) (r.(j_language))
    (r.(j_preferredHost)) (r.(j_minimalHostVersion)) (r.(j_requiredFeatures))
    (r.(j_niceness)).
Definition set_job_submitter (v : ptr) (r : Job) : Job :=
  mkJob (r.(j_id)) (r.(j_localClientId)) (r.(j_state)) (r.(j_server)) v
    (r.(j_environments)) (r.(j_startTime)) (r.(j_startOnScheduler))
    (r.(j_doneTime)) (r.(j_targetPlatform)) (r.(j_fileName))
    (r.(j_masterJobFor)) (r.(j_argFlags)) (r.(j_language))
    (r.(j_preferredHost)) (r.(j_minimalHostVersion)) (r.(j_requiredFeatures))
    (r.(j_niceness)).
Definition set_job_environments (v : Environments) (r : Job) : Job :=
  mkJob (r.(j_id)) (r.(j_localClientId)) (r.(j_state)) (r.(j_server))
    (r.(j_submitter)) v (r.(j_startTime)) (r.(j_startOnScheduler))
    (r.(j_doneTime)) (r.(j_targetPlatform)) (r.(j_fileName))
    (r.(j_masterJobFor)) (r.(j_argFlags)) (r.(j_language))
    (r.(j_preferredHost)) (r.(j_minimalHostVersion)) (r.(j_requiredFeatures))
    (r.(j_niceness)).
Definition set_job_startTime (v : Z) (r : Job) : Job :=
  mkJob (r.(j_id)) (r.(j_localClientId)) (r.(j_state)) (r.(j_server))
    (r.(j_submitter)) (r.(j_environments)) v (r.(j_startOnScheduler))
    (r.(j_doneTime)) (r.(j_targetPlatform)) (r.(j_fileName))
    (r.(j_masterJobFor)) (r.(j_argFlags)) (r.(j_language))
    (r.(j_preferredHost)) (r.(j_minimalHostVersion)) (r.(j_requiredFeatures))
    (r.(j_niceness)).
Definition set_job_startOnScheduler (v : Z) (r : Job) : Job :=
  mkJob (r.(j_id)) (r.(j_localClientId)) (r.(j_state)) (r.(j_server))
    (r.(j_submitter)) (r.(j_environments)) (r.(j_startTime)) v
    (r.(j_doneTime)) (r.(j_targetPlatform)) (r.(j_fileName))
    (r.(j_masterJobFor)) (r.(j_argFlags)) (r.(j_language))
    (r.(j_preferredHost)) (r.(j_minimalHostVersion)) (r.(j_requiredFeatures))
    (r.(j_niceness)).
Definition set_job_doneTime (v : Z) (r : Job) : Job :=
  mkJob (r.(j_id)) (r.(j_localClientId)) (r.(j_state)) (r.(j_server))
    (r.(j_submitter)) (r.(j_environments)) (r.(j_startTime))
    (r.(j_startOnScheduler)) v (r.(j_targetPlatform)) (r.(j_fileName))
    (r.(j_masterJobFor)) (r.(j_argFlags)) (r.(j_language))
    (r.(j_preferredHost)) (r.(j_minimalHostVersion)) (r.(j_requiredFeatures))
    (r.(j_niceness)).
Definition set_job_targetPlatform (v : string) (r : Job) : Job :=
  mkJob (r.(j_id)) (r.(j_localClientId)) (r.(j_state)) (r.(j_server))
    (r.(j_submitter)) (r.(j_environments)) (r.(j_startTime))
    (r.(j_startOnScheduler)) (r.(j_doneTime)) v (r.(j_fileName))
    (r.(j_masterJobFor)) (r.(j_argFlags)) (r.(j_language))
    (r.(j_preferredHost)) (r.(j_minimalHostVersion)) (r.(j_requiredFeatures))
    (r.(j_niceness)).
Definition set_job_fileName (v : string) (r : Job) : Job :=
  mkJob (r.(j_id)) (r.(j_localClientId)) (r.(j_state)) (r.(j_server))
    (r.(j_submitter)) (r.(j_environments)) (r.(j_startTime))
    (r.(j_startOnScheduler)) (r.(j_doneTime)) (r.(j_targetPlatform)) v
    (r.(j_masterJobFor)) (r.(j_argFlags)) (r.(j_language))
    (r.(j_preferredHost)) (r.(j_minimalHostVersion)) (r.(j_requiredFeatures))
    (r.(j_niceness)).
Definition set_job_masterJobFor (v : list ptr) (r : Job) : Job :=
  mkJob (r.(j_id)) (r.(j_localClientId)) (r.(j_state)) (r.(j_server))
    (r.(j_submitter)) (r.(j_environments)) (r.(j_startTime))
    (r.(j_startOnScheduler)) (r.(j_doneTime)) (r.(j_targetPlatform))
    (r.(j_fileName)) v (r.(j_argFlags)) (r.(j_language))
    (r.(j_preferredHost)) (r.(j_minimalHostVersion)) (r.(j_requiredFeatures))
    (r.(j_niceness)).
Definition set_job_argFlags (v : Z) (r : Job) : Job :=
  mkJob (r.(j_id)) (r.(j_localClientId)) (r.(j_state)) (r.(j_server))
    (r.(j_submitter)) (r.(j_environments)) (r.(j_startTime))
    (r.(j_startOnScheduler)) (r.(j_doneTime)) (r.(j_targetPlatform))
    (r.(j_fileName)) (r.(j_masterJobFor)) v (r.(j_language))
    (r.(j_preferredHost)) (r.(j_minimalHostVersion)) (r.(j_requiredFeatures))
    (r.(j_niceness)).
Definition set_job_language (v : string) (r : Job) : Job :=
  mkJob (r.(j_id)) (r.(j_localClientId)) (r.(j_state)) (r.(j_server))
    (r.(j_submitter)) (r.(j_environments)) (r.(j_startTime))
    (r.(j_startOnScheduler)) (r.(j_doneTime)) (r.(j_targetPlatform))
    (r.(j_fileName)) (r.(j_masterJobFor)) (r.(j_argFlags)) v
    (r.(j_preferredHost)) (r.(j_minimalHostVersion)) (r.(j_requiredFeatures))
    (r.(j_niceness)).
Definition set_job_preferredHost (v : string) (r : Job) : Job :=
  mkJob (r.(j_id)) (r.(j_localClientId)) (r.(j_state)) (r.(j_server))
    (r.(j_submitter)) (r.(j_environments)) (r.(j_startTime))
    (r.(j_startOnScheduler)) (r.(j_doneTime)) (r.(j_targetPlatform))
    (r.(j_fileName)) (r.(j_masterJobFor)) (r.(j_argFlags)) (r.(j_language)) v
    (r.(j_minimalHostVersion)) (r.(j_requiredFeatures)) (r.(j_niceness)).
Definition set_job_minimalHostVersion (v : Z) (r : Job) : Job :=
  mkJob (r.(j_id)) (r.(j_localClientId)) (r.(j_state)) (r.(j_server))
    (r.(j_submitter)) (r.(j_environments)) (r.(j_startTime))
    (r.(j_startOnScheduler)) (r.(j_doneTime)) (r.(j_targetPlatform))
    (r.(j_fileName)) (r.(j_masterJobFor)) (r.(j_argFlags)) (r.(j_language))
    (r.(j_preferredHost)) v (r.(j_requiredFeatures)) (r.(j_niceness)).
Definition set_job_requiredFeatures (v : Z) (r : Job) : Job :=
  mkJob (r.(j_id)) (r.(j_localClientId)) (r.(j_state)) (r.(j_server))
    (r.(j_submitter)) (r.(j_environments)) (r.(j_startTime))
    (r.(j_startOnScheduler)) (r.(j_doneTime)) (r.(j_targetPlatform))
    (r.(j_fileName)) (r.(j_masterJobFor)) (r.(j_argFlags)) (r.(j_language))
    (r.(j_preferredHost)) (r.(j_minimalHostVersion)) v (r.(j_niceness)).
Definition set_job_niceness (v : Z) (r : Job) : Job :=
  mkJob (r.(j_id)) (r.(j_localClientId)) (r.(j_state)) (r.(j_server))
    (r.(j_submitter)) (r.(j_environments)) (r.(j_startTime))
    (r.(j_startOnScheduler)) (r.(j_doneTime)) (r.(j_targetPlatform))
    (r.(j_fileName)) (r.(j_masterJobFor)) (r.(j_argFlags)) (r.(j_language))
    (r.(j_preferredHost)) (r.(j_minimalHostVersion)) (r.(j_requiredFeatures))
    v.

(** The constructor, apart from [submittedJobsIncrement] of the submitter. *)
Definition new_Job (id : Z) (subm : ptr) : Job :=
  mkJob id 0 PENDING None subm [] 0 0 0 "" "" [] 0 "" "" 0 0 0.

(** ** Compile servers *)

Inductive cs_state : Type := CONNECTED | LOGGEDIN.
Inductive cs_type : Type := UNKNOWN | DAEMON | MONITOR | LINE.
#[export] Instance cs_state_eq_dec : EqDecision cs_state.
Proof. solve_decision. Defined.
#[export] Instance cs_type_eq_dec : EqDecision cs_type.
Proof. solve_decision. Defined.

Record CompileServer : Type := mkCompileServer {
  cs_channel : MsgChannel;
  cs_remotePort : Z;
  cs_hostId : Z;
  cs_nodeName : string;
  cs_busyInstalling : Z;
  cs_hostPlatform : string;
  cs_load : Z;
  cs_maxJobs : Z;
  cs_noRemote : bool;
  cs_jobList : list ptr;
  cs_st : cs_state;
  cs_ty : cs_type;
  cs_chrootPossible : bool;
  cs_featuresSupported : Z;
  cs_clientCount : Z;
  cs_submittedJobsCount : Z;
  cs_lastPickId : Z;
  cs_compilerVersions : Environments;
  cs_lastCompiledJobs : list JobStat;
  cs_lastRequestedJobs : list JobStat;
  cs_cumCompiled : JobStat;
  cs_cumRequested : JobStat;
  cs_clientLocalMap : gmap Z (Z * bool);
  cs_blacklist : gmap ptr Environments;
  cs_inFd : Z;
  cs_inConnAttempt : Z;
  cs_nextConnTime : Z;
  cs_lastConnStartTime : Z;
  cs_acceptingInConnection : bool
}.

Definition set_cs_channel (v : MsgChannel) (r : CompileServer) : CompileServer :=
  mkCompileServer v (r.(cs_remotePort)) (r.(cs_hostId)) (r.(cs_nodeName))
    (r.(cs_busyInstalling)) (r.(cs_hostPlatform)) (r.(cs_load))
    (r.(cs_maxJobs)) (r.(cs_noRemote)) (r.(cs_jobList)) (r.(cs_st))
    (r.(cs_ty)) (r.(cs_chrootPossible)) (r.(cs_featuresSupported))
    (r.(cs_clientCount)) (r.(cs_submittedJobsCount)) (r.(cs_lastPickId))
    (r.(cs_compilerVersions)) (r.(cs_lastCompiledJobs))
    (r.(cs_lastRequestedJobs)) (r.(cs_cumCompiled)) (r.(cs_cumRequested))
    (r.(cs_clientLocalMap)) (r.(cs_blacklist)) (r.(cs_inFd))
    (r.(cs_inConnAttempt)) (r.(cs_nextConnTime)) (r.(cs_lastConnStartTime))
    (r.(cs_acceptingInConnection)).
Definition set_cs_remotePort (v : Z) (r : CompileServer) : CompileServer :=
  mkCompileServer (r.(cs_channel)) v (r.(cs_hostId)) (r.(cs_nodeName))
    (r.(cs_busyInstalling)) (r.(cs_hostPlatform)) (r.(cs_load))
    (r.(cs_maxJobs)) (r.(cs_noRemote)) (r.(cs_jobList)) (r.(cs_st))
    (r.(cs_ty)) (r.(cs_chrootPossible)) (r.(cs_featuresSupported))
    (r.(cs_clientCount)) (r.(cs_submittedJobsCount)) (r.(cs_lastPickId))
    (r.(cs_compilerVersions)) (r.(cs_lastCompiledJobs))
    (r.(cs_lastRequestedJobs)) (r.(cs_cumCompiled)) (r.(cs_cumRequested))
    (r.(cs_clientLocalMap)) (r.(cs_blacklist)) (r.(cs_inFd))
    (r.(cs_inConnAttempt)) (r.(cs_nextConnTime)) (r.(cs_lastConnStartTime))
    (r.(cs_acceptingInConnection)).
Definition set_cs_hostId (v : Z) (r : CompileServer) : CompileServer :=
  mkCompileServer (r.(cs_channel)) (r.(cs_remotePort)) v (r.(cs_nodeName))
    (r.(cs_busyInstalling)) (r.(cs_hostPlatform)) (r.(cs_load))
    (r.(cs_maxJobs)) (r.(cs_noRemote)) (r.(cs_jobList)) (r.(cs_st))
    (r.(cs_ty)) (r.(cs_chrootPossible)) (r.(cs_featuresSupported))
    (r.(cs_clientCount)) (r.(cs_submittedJobsCount)) (r.(cs_lastPickId))
    (r.(cs_compilerVersions)) (r.(cs_lastCompiledJobs))
    (r.(cs_lastRequestedJobs)) (r.(cs_cumCompiled)) (r.(cs_cumRequested))
    (r.(cs_clientLocalMap)) (r.(cs_blacklist)) (r.(cs_inFd))
    (r.(cs_inConnAttempt)) (r.(cs_nextConnTime)) (r.(cs_lastConnStartTime))
    (r.(cs_acceptingInConnection)).
Definition set_cs_nodeName (v : string) (r : CompileServer) : CompileServer :=
  mkCompileServer (r.(cs_channel)) (r.(cs_remotePort)) (r.(cs_hostId)) v
    (r.(cs_busyInstalling)) (r.(cs_hostPlatform)) (r.(cs_load))
    (r.(cs_maxJobs)) (r.(cs_noRemote)) (r.(cs_jobList)) (r.(cs_st))
    (r.(cs_ty)) (r.(cs_chrootPossible)) (r.(cs_featuresSupported))
    (r.(cs_clientCount)) (r.(cs_submittedJobsCount)) (r.(cs_lastPickId))
    (r.(cs_compilerVersions)) (r.(cs_lastCompiledJobs))
    (r.(cs_lastRequestedJobs)) (r.(cs_cumCompiled)) (r.(cs_cumRequested))
    (r.(cs_clientLocalMap)) (r.(cs_blacklist)) (r.(cs_inFd))
    (r.(cs_inConnAttempt)) (r.(cs_nextConnTime)) (r.(cs_lastConnStartTime))
    (r.(cs_acceptingInConnection)).
Definition set_cs_busyInstalling (v : Z) (r : CompileServer) : CompileServer :=
  mkCompileServer (r.(cs_channel)) (r.(cs_remotePort)) (r.(cs_hostId))
    (r.(cs_nodeName)) v (r.(cs_hostPlatform)) (r.(cs_load)) (r.(cs_maxJobs))
    (r.(cs_noRemote)) (r.(cs_jobList)) (r.(cs_st)) (r.(cs_ty))
    (r.(cs_chrootPossible)) (r.(cs_featuresSupported)) (r.(cs_clientCount))
    (r.(cs_submittedJobsCount)) (r.(cs_lastPickId)) (r.(cs_compilerVersions))
    (r.(cs_lastCompiledJobs)) (r.(cs_lastRequestedJobs)) (r.(cs_cumCompiled))
    (r.(cs_cumRequested)) (r.(cs_clientLocalMap)) (r.(cs_blacklist))
    (r.(cs_inFd)) (r.(cs_inConnAttempt)) (r.(cs_nextConnTime))
    (r.(cs_lastConnStartTime)) (r.(cs_acceptingInConnection)).
Definition set_cs_hostPlatform (v : string) (r : CompileServer) : CompileServer :=
  mkCompileServer (r.(cs_channel)) (r.(cs_remotePort)) (r.(cs_hostId))
    (r.(cs_nodeName)) (r.(cs_busyInstalling)) v (r.(cs_load))
    (r.(cs_maxJobs)) (r.(cs_noRemote)) (r.(cs_jobList)) (r.(cs_st))
    (r.(cs_ty)) (r.(cs_chrootPossible)) (r.(cs_featuresSupported))
    (r.(cs_clientCount)) (r.(cs_submittedJobsCount)) (r.(cs_lastPickId))
    (r.(cs_compilerVersions)) (r.(cs_lastCompiledJobs))
    (r.(cs_lastRequestedJobs)) (r.(cs_cumCompiled)) (r.(cs_cumRequested))
    (r.(cs_clientLocalMap)) (r.(cs_blacklist)) (r.(cs_inFd))
    (r.(cs_inConnAttempt)) (r.(cs_nextConnTime)) (r.(cs_lastConnStartTime))
    (r.(cs_acceptingInConnection)).
Definition set_cs_load (v : Z) (r : CompileServer) : CompileServer :=
  mkCompileServer (r.(cs_channel)) (r.(cs_remotePort)) (r.(cs_hostId))
    (r.(cs_nodeName)) (r.(cs_busyInstalling)) (r.(cs_hostPlatform)) v
    (r.(cs_maxJobs)) (r.(cs_noRemote)) (r.(cs_jobList)) (r.(cs_st))
    (r.(cs_ty)) (r.(cs_chrootPossible)) (r.(cs_featuresSupported))
    (r.(cs_clientCount)) (r.(cs_submittedJobsCount)) (r.(cs_lastPickId))
    (r.(cs_compilerVersions)) (r.(cs_lastCompiledJobs))
    (r.(cs_lastRequestedJobs)) (r.(cs_cumCompiled)) (r.(cs_cumRequested))
    (r.(cs_clientLocalMap)) (r.(cs_blacklist)) (r.(cs_inFd))
    (r.(cs_inConnAttempt)) (r.(cs_nextConnTime)) (r.(cs_lastConnStartTime))
    (r.(cs_acceptingInConnection)).
Definition set_cs_maxJobs (v : Z) (r : CompileServer) : CompileServer :=
  mkCompileServer (r.(cs_channel)) (r.(cs_remotePort)) (r.(cs_hostId))
    (r.(cs_nodeName)) (r.(cs_busyInstalling)) (r.(cs_hostPlatform))
    (r.(cs_load)) v (r.(cs_noRemote)) (r.(cs_jobList)) (r.(cs_st))
    (r.(cs_ty)) (r.(cs_chrootPossible)) (r.(cs_featuresSupported))
    (r.(cs_clientCount)) (r.(cs_submittedJobsCount)) (r.(cs_lastPickId))
    (r.(cs_compilerVersions)) (r.(cs_lastCompiledJobs))
    (r.(cs_lastRequestedJobs)) (r.(cs_cumCompiled)) (r.(cs_cumRequested))
    (r.(cs_clientLocalMap)) (r.(cs_blacklist)) (r.(cs_inFd))
    (r.(cs_inConnAttempt)) (r.(cs_nextConnTime)) (r.(cs_lastConnStartTime))
    (r.(cs_acceptingInConnection)).
Definition set_cs_noRemote (v : bool) (r : CompileServer) : CompileServer :=
  mkCompileServer (r.(cs_channel)) (r.(cs_remotePort)) (r.(cs_hostId))
    (r.(cs_nodeName)) (r.(cs_busyInstalling)) (r.(cs_hostPlatform))
    (r.(cs_load)) (r.(cs_maxJobs)) v (r.(cs_jobList)) (r.(cs_st)) (r.(cs_ty))
    (r.(cs_chrootPossible)) (r.(cs_featuresSupported)) (r.(cs_clientCount))
    (r.(cs_submittedJobsCount)) (r.(cs_lastPickId)) (r.(cs_compilerVersions))
    (r.(cs_lastCompiledJobs)) (r.(cs_lastRequestedJobs)) (r.(cs_cumCompiled))
    (r.(cs_cumRequested)) (r.(cs_clientLocalMap)) (r.(cs_blacklist))
    (r.(cs_inFd)) (r.(cs_inConnAttempt)) (r.(cs_nextConnTime))
    (r.(cs_lastConnStartTime)) (r.(cs_acceptingInConnection)).
Definition set_cs_jobList (v : list ptr) (r : CompileServer) : CompileServer :=
  mkCompileServer (r.(cs_channel)) (r.(cs_remotePort)) (r.(cs_hostId))
    (r.(cs_nodeName)) (r.(cs_busyInstalling)) (r.(cs_hostPlatform))
    (r.(cs_load)) (r.(cs_maxJobs)) (r.(cs_noRemote)) v (r.(cs_st))
    (r.(cs_ty)) (r.(cs_chrootPossible)) (r.(cs_featuresSupported))
    (r.(cs_clientCount)) (r.(cs_submittedJobsCount)) (r.(cs_lastPickId))
    (r.(cs_compilerVersions)) (r.(cs_lastCompiledJobs))
    (r.(cs_lastRequestedJobs)) (r.(cs_cumCompiled)) (r.(cs_cumRequested))
    (r.(cs_clientLocalMap)) (r.(cs_blacklist)) (r.(cs_inFd))
    (r.(cs_inConnAttempt)) (r.(cs_nextConnTime)) (r.(cs_lastConnStartTime))
    (r.(cs_acceptingInConnection)).
Definition set_cs_st (v : cs_state) (r : CompileServer) : CompileServer :=
  mkCompileServer (r.(cs_channel)) (r.(cs_remotePort)) (r.(cs_hostId))
    (r.(cs_nodeName)) (r.(cs_busyInstalling)) (r.(cs_hostPlatform))
    (r.(cs_load)) (r.(cs_maxJobs)) (r.(cs_noRemote)) (r.(cs_jobList)) v
    (r.(cs_ty)) (r.(cs_chrootPossible)) (r.(cs_featuresSupported))
    (r.(cs_clientCount)) (r.(cs_submittedJobsCount)) (r.(cs_lastPickId))
    (r.(cs_compilerVersions)) (r.(cs_lastCompiledJobs))
    (r.(cs_lastRequestedJobs)) (r.(cs_cumCompiled)) (r.(cs_cumRequested))
    (r.(cs_clientLocalMap)) (r.(cs_blacklist)) (r.(cs_inFd))
    (r.(cs_inConnAttempt)) (r.(cs_nextConnTime)) (r.(cs_lastConnStartTime))
    (r.(cs_acceptingInConnection)).
Definition set_cs_ty (v : cs_type) (r : CompileServer) : CompileServer :=
  mkCompileServer (r.(cs_channel)) (r.(cs_remotePort)) (r.(cs_hostId))
    (r.(cs_nodeName)) (r.(cs_busyInstalling)) (r.(cs_hostPlatform))
    (r.(cs_load)) (r.(cs_maxJobs)) (r.(cs_noRemote)) (r.(cs_jobList))
    (r.(cs_st)) v (r.(cs_chrootPossible)) (r.(cs_featuresSupported))
    (r.(cs_clientCount)) (r.(cs_submittedJobsCount)) (r.(cs_lastPickId))
    (r.(cs_compilerVersions)) (r.(cs_lastCompiledJobs))
    (r.(cs_lastRequestedJobs)) (r.(cs_cumCompiled)) (r.(cs_cumRequested))
    (r.(cs_clientLocalMap)) (r.(cs_blacklist)) (r.(cs_inFd))
    (r.(cs_inConnAttempt)) (r.(cs_nextConnTime)) (r.(cs_lastConnStartTime))
    (r.(cs_acceptingInConnection)).
Definition set_cs_chrootPossible (v : bool) (r : CompileServer) : CompileServer :=
  mkCompileServer (r.(cs_channel)) (r.(cs_remotePort)) (r.(cs_hostId))
    (r.(cs_nodeName)) (r.(cs_busyInstalling)) (r.(cs_hostPlatform))
    (r.(cs_load)) (r.(cs_maxJobs)) (r.(cs_noRemote)) (r.(cs_jobList))
    (r.(cs_st)) (r.(cs_ty)) v (r.(cs_featuresSupported)) (r.(cs_clientCount))
    (r.(cs_submittedJobsCount)) (r.(cs_lastPickId)) (r.(cs_compilerVersions))
    (r.(cs_lastCompiledJobs)) (r.(cs_lastRequestedJobs)) (r.(cs_cumCompiled))
    (r.(cs_cumRequested)) (r.(cs_clientLocalMap)) (r.(cs_blacklist))
    (r.(cs_inFd)) (r.(cs_inConnAttempt)) (r.(cs_nextConnTime))
    (r.(cs_lastConnStartTime)) (r.(cs_acceptingInConnection)).
Definition set_cs_featuresSupported (v : Z) (r : CompileServer) : CompileServer :=
  mkCompileServer (r.(cs_channel)) (r.(cs_remotePort)) (r.(cs_hostId))
    (r.(cs_nodeName)) (r.(cs_busyInstalling)) (r.(cs_hostPlatform))
    (r.(cs_load)) (r.(cs_maxJobs)) (r.(cs_noRemote)) (r.(cs_jobList))
    (r.(cs_st)) (r.(cs_ty)) (r.(cs_chrootPossible)) v (r.(cs_clientCount))
    (r.(cs_submittedJobsCount)) (r.(cs_lastPickId)) (r.(cs_compilerVersions))
    (r.(cs_lastCompiledJobs)) (r.(cs_lastRequestedJobs)) (r.(cs_cumCompiled))
    (r.(cs_cumRequested)) (r.(cs_clientLocalMap)) (r.(cs_blacklist))
    (r.(cs_inFd)) (r.(cs_inConnAttempt)) (r.(cs_nextConnTime))
    (r.(cs_lastConnStartTime)) (r.(cs_acceptingInConnection)).
Definition set_cs_clientCount (v : Z) (r : CompileServer) : CompileServer :=
  mkCompileServer (r.(cs_channel)) (r.(cs_remotePort)) (r.(cs_hostId))
    (r.(cs_nodeName)) (r.(cs_busyInstalling)) (r.(cs_hostPlatform))
    (r.(cs_load)) (r.(cs_maxJobs)) (r.(cs_noRemote)) (r.(cs_jobList))
    (r.(cs_st)) (r.(cs_ty)) (r.(cs_chrootPossible))
    (r.(cs_featuresSupported)) v (r.(cs_submittedJobsCount))
    (r.(cs_lastPickId)) (r.(cs_compilerVersions)) (r.(cs_lastCompiledJobs))
    (r.(cs_lastRequestedJobs)) (r.(cs_cumCompiled)) (r.(cs_cumRequested))
    (r.(cs_clientLocalMap)) (r.(cs_blacklist)) (r.(cs_inFd))
    (r.(cs_inConnAttempt)) (r.(cs_nextConnTime)) (r.(cs_lastConnStartTime))
    (r.(cs_acceptingInConnection)).
Definition set_cs_submittedJobsCount (v : Z) (r : CompileServer) : CompileServer :=
  mkCompileServer (r.(cs_channel)) (r.(cs_remotePort)) (r.(cs_hostId))
    (r.(cs_nodeName)) (r.(cs_busyInstalling)) (r.(cs_hostPlatform))
    (r.(cs_load)) (r.(cs_maxJobs)) (r.(cs_noRemote)) (r.(cs_jobList))
    (r.(cs_st)) (r.(cs_ty)) (r.(cs_chrootPossible))
    (r.(cs_featuresSupported)) (r.(cs_clientCount)) v (r.(cs_lastPickId))
    (r.(cs_compilerVersions)) (r.(cs_lastCompiledJobs))
    (r.(cs_lastRequestedJobs)) (r.(cs_cumCompiled)) (r.(cs_cumRequested))
    (r.(cs_clientLocalMap)) (r.(cs_blacklist)) (r.(cs_inFd))
    (r.(cs_inConnAttempt)) (r.(cs_nextConnTime)) (r.(cs_lastConnStartTime))
    (r.(cs_acceptingInConnection)).
Definition set_cs_lastPickId (v : Z) (r : CompileServer) : CompileServer :=
  mkCompileServer (r.(cs_channel)) (r.(cs_remotePort)) (r.(cs_hostId))
    (r.(cs_nodeName)) (r.(cs_busyInstalling)) (r.(cs_hostPlatform))
    (r.(cs_load)) (r.(cs_maxJobs)) (r.(cs_noRemote)) (r.(cs_jobList))
    (r.(cs_st)) (r.(cs_ty)) (r.(cs_chrootPossible))
    (r.(cs_featuresSupported)) (r.(cs_clientCount))
    (r.(cs_submittedJobsCount)) v (r.(cs_compilerVersions))
    (r.(cs_lastCompiledJobs)) (r.(cs_lastRequestedJobs)) (r.(cs_cumCompiled))
    (r.(cs_cumRequested)) (r.(cs_clientLocalMap)) (r.(cs_blacklist))
    (r.(cs_inFd)) (r.(cs_inConnAttempt)) (r.(cs_nextConnTime))
    (r.(cs_lastConnStartTime)) (r.(cs_acceptingInConnection)).
Definition set_cs_compilerVersions (v : Environments) (r : CompileServer) : CompileServer :=
  mkCompileServer (r.(cs_channel)) (r.(cs_remotePort)) (r.(cs_hostId))
    (r.(cs_nodeName)) (r.(cs_busyInstalling)) (r.(cs_hostPlatform))
    (r.(cs_load)) (r.(cs_maxJobs)) (r.(cs_noRemote)) (r.(cs_jobList))
    (r.(cs_st)) (r.(cs_ty)) (r.(cs_chrootPossible))
    (r.(cs_featuresSupported)) (r.(cs_clientCount))
    (r.(cs_submittedJobsCount)) (r.(cs_lastPickId)) v
    (r.(cs_lastCompiledJobs)) (r.(cs_lastRequestedJobs)) (r.(cs_cumCompiled))
    (r.(cs_cumRequested)) (r.(cs_clientLocalMap)) (r.(cs_blacklist))
    (r.(cs_inFd)) (r.(cs_inConnAttempt)) (r.(cs_nextConnTime))
    (r.(cs_lastConnStartTime)) (r.(cs_acceptingInConnection)).
Definition set_cs_lastCompiledJobs (v : list JobStat) (r : CompileServer) : CompileServer :=
  mkCompileServer (r.(cs_channel)) (r.(cs_remotePort)) (r.(cs_hostId))
    (r.(cs_nodeName)) (r.(cs_busyInstalling)) (r.(cs_hostPlatform))
    (r.(cs_load)) (r.(cs_maxJobs)) (r.(cs_noRemote)) (r.(cs_jobList))
    (r.(cs_st)) (r.(cs_ty)) (r.(cs_chrootPossible))
    (r.(cs_featuresSupported)) (r.(cs_clientCount))
    (r.(cs_submittedJobsCount)) (r.(cs_lastPickId)) (r.(cs_compilerVersions))
    v (r.(cs_lastRequestedJobs)) (r.(cs_cumCompiled)) (r.(cs_cumRequested))
    (r.(cs_clientLocalMap)) (r.(cs_blacklist)) (r.(cs_inFd))
    (r.(cs_inConnAttempt)) (r.(cs_nextConnTime)) (r.(cs_lastConnStartTime))
    (r.(cs_acceptingInConnection)).
Definition set_cs_lastRequestedJobs (v : list JobStat) (r : CompileServer) : CompileServer :=
  mkCompileServer (r.(cs_channel)) (r.(cs_remotePort)) (r.(cs_hostId))
    (r.(cs_nodeName)) (r.(cs_busyInstalling)) (r.(cs_hostPlatform))
    (r.(cs_load)) (r.(cs_maxJobs)) (r.(cs_noRemote)) (r.(cs_jobList))
    (r.(cs_st)) (r.(cs_ty)) (r.(cs_chrootPossible))
    (r.(cs_featuresSupported)) (r.(cs_clientCount))
    (r.(cs_submittedJobsCount)) (r.(cs_lastPickId)) (r.(cs_compilerVersions))
    (r.(cs_lastCompiledJobs)) v (r.(cs_cumCompiled)) (r.(cs_cumRequested))
    (r.(cs_clientLocalMap)) (r.(cs_blacklist)) (r.(cs_inFd))
    (r.(cs_inConnAttempt)) (r.(cs_nextConnTime)) (r.(cs_lastConnStartTime))
    (r.(cs_acceptingInConnection)).
Definition set_cs_cumCompiled (v : JobStat) (r : CompileServer) : CompileServer :=
  mkCompileServer (r.(cs_channel)) (r.(cs_remotePort)) (r.(cs_hostId))
    (r.(cs_nodeName)) (r.(cs_busyInstalling)) (r.(cs_hostPlatform))
    (r.(cs_load)) (r.(cs_maxJobs)) (r.(cs_noRemote)) (r.(cs_jobList))
    (r.(cs_st)) (r.(cs_ty)) (r.(cs_chrootPossible))
    (r.(cs_featuresSupported)) (r.(cs_clientCount))
    (r.(cs_submittedJobsCount)) (r.(cs_lastPickId)) (r.(cs_compilerVersions))
    (r.(cs_lastCompiledJobs)) (r.(cs_lastRequestedJobs)) v
    (r.(cs_cumRequested)) (r.(cs_clientLocalMap)) (r.(cs_blacklist))
    (r.(cs_inFd)) (r.(cs_inConnAttempt)) (r.(cs_nextConnTime))
    (r.(cs_lastConnStartTime)) (r.(cs_acceptingInConnection)).
Definition set_cs_cumRequested (v : JobStat) (r : CompileServer) : CompileServer :=
  mkCompileServer (r.(cs_channel)) (r.(cs_remotePort)) (r.(cs_hostId))
    (r.(cs_nodeName)) (r.(cs_busyInstalling)) (r.(cs_hostPlatform))
    (r.(cs_load)) (r.(cs_maxJobs)) (r.(cs_noRemote)) (r.(cs_jobList))
    (r.(cs_st)) (r.(cs_ty)) (r.(cs_chrootPossible))
    (r.(cs_featuresSupported)) (r.(cs_clientCount))
    (r.(cs_submittedJobsCount)) (r.(cs_lastPickId)) (r.(cs_compilerVersions))
    (r.(cs_lastCompiledJobs)) (r.(cs_lastRequestedJobs)) (r.(cs_cumCompiled))
    v (r.(cs_clientLocalMap)) (r.(cs_blacklist)) (r.(cs_inFd))
    (r.(cs_inConnAttempt)) (r.(cs_nextConnTime)) (r.(cs_lastConnStartTime))
    (r.(cs_acceptingInConnection)).
Definition set_cs_clientLocalMap (v : gmap Z (Z * bool)) (r : CompileServer) : CompileServer :=
  mkCompileServer (r.(cs_channel)) (r.(cs_remotePort)) (r.(cs_hostId))
    (r.(cs_nodeName)) (r.(cs_busyInstalling)) (r.(cs_hostPlatform))
    (r.(cs_load)) (r.(cs_maxJobs)) (r.(cs_noRemote)) (r.(cs_jobList))
    (r.(cs_st)) (r.(cs_ty)) (r.(cs_chrootPossible))
    (r.(cs_featuresSupported)) (r.(cs_clientCount))
    (r.(cs_submittedJobsCount)) (r.(cs_lastPickId)) (r.(cs_compilerVersions))
    (r.(cs_lastCompiledJobs)) (r.(cs_lastRequestedJobs)) (r.(cs_cumCompiled))
    (r.(cs_cumRequested)) v (r.(cs_blacklist)) (r.(cs_inFd))
    (r.(cs_inConnAttempt)) (r.(cs_nextConnTime)) (r.(cs_lastConnStartTime))
    (r.(cs_acceptingInConnection)).
Definition set_cs_blacklist (v : gmap ptr Environments) (r : CompileServer) : CompileServer :=
  mkCompileServer (r.(cs_channel)) (r.(cs_remotePort)) (r.(cs_hostId))
    (r.(cs_nodeName)) (r.(cs_busyInstalling)) (r.(cs_hostPlatform))
    (r.(cs_load)) (r.(cs_maxJobs)) (r.(cs_noRemote)) (r.(cs_jobList))
    (r.(cs_st)) (r.(cs_ty)) (r.(cs_chrootPossible))
    (r.(cs_featuresSupported)) (r.(cs_clientCount))
    (r.(cs_submittedJobsCount)) (r.(cs_lastPickId)) (r.(cs_compilerVersions))
    (r.(cs_lastCompiledJobs)) (r.(cs_lastRequestedJobs)) (r.(cs_cumCompiled))
    (r.(cs_cumRequested)) (r.(cs_clientLocalMap)) v (r.(cs_inFd))
    (r.(cs_inConnAttempt)) (r.(cs_nextConnTime)) (r.(cs_lastConnStartTime))
    (r.(cs_acceptingInConnection)).
Definition set_cs_inFd (v : Z) (r : CompileServer) : CompileServer :=
  mkCompileServer (r.(cs_channel)) (r.(cs_remotePort)) (r.(cs_hostId))
    (r.(cs_nodeName)) (r.(cs_busyInstalling)) (r.(cs_hostPlatform))
    (r.(cs_load)) (r.(cs_maxJobs)) (r.(cs_noRemote)) (r.(cs_jobList))
    (r.(cs_st)) (r.(cs_ty)) (r.(cs_chrootPossible))
    (r.(cs_featuresSupported)) (r.(cs_clientCount))
    (r.(cs_submittedJobsCount)) (r.(cs_lastPickId)) (r.(cs_compilerVersions))
    (r.(cs_lastCompiledJobs)) (r.(cs_lastRequestedJobs)) (r.(cs_cumCompiled))
    (r.(cs_cumRequested)) (r.(cs_clientLocalMap)) (r.(cs_blacklist)) v
    (r.(cs_inConnAttempt)) (r.(cs_nextConnTime)) (r.(cs_lastConnStartTime))
    (r.(cs_acceptingInConnection)).
Definition set_cs_inConnAttempt (v : Z) (r : CompileServer) : CompileServer :=
  mkCompileServer (r.(cs_channel)) (r.(cs_remotePort)) (r.(cs_hostId))
    (r.(cs_nodeName)) (r.(cs_busyInstalling)) (r.(cs_hostPlatform))
    (r.(cs_load)) (r.(cs_maxJobs)) (r.(cs_noRemote)) (r.(cs_jobList))
    (r.(cs_st)) (r.(cs_ty)) (r.(cs_chrootPossible))
    (r.(cs_featuresSupported)) (r.(cs_clientCount))
    (r.(cs_submittedJobsCount)) (r.(cs_lastPickId)) (r.(cs_compilerVersions))
    (r.(cs_lastCompiledJobs)) (r.(cs_lastRequestedJobs)) (r.(cs_cumCompiled))
    (r.(cs_cumRequested)) (r.(cs_clientLocalMap)) (r.(cs_blacklist))
    (r.(cs_inFd)) v (r.(cs_nextConnTime)) (r.(cs_lastConnStartTime))
    (r.(cs_acceptingInConnection)).
Definition set_cs_nextConnTime (v : Z) (r : CompileServer) : CompileServer :=
  mkCompileServer (r.(cs_channel)) (r.(cs_remotePort)) (r.(cs_hostId))
    (r.(cs_nodeName)) (r.(cs_busyInstalling)) (r.(cs_hostPlatform))
    (r.(cs_load)) (r.(cs_maxJobs)) (r.(cs_noRemote)) (r.(cs_jobList))
    (r.(cs_st)) (r.(cs_ty)) (r.(cs_chrootPossible))
    (r.(cs_featuresSupported)) (r.(cs_clientCount))
    (r.(cs_submittedJobsCount)) (r.(cs_lastPickId)) (r.(cs_compilerVersions))
    (r.(cs_lastCompiledJobs)) (r.(cs_lastRequestedJobs)) (r.(cs_cumCompiled))
    (r.(cs_cumRequested)) (r.(cs_clientLocalMap)) (r.(cs_blacklist))
    (r.(cs_inFd)) (r.(cs_inConnAttempt)) v (r.(cs_lastConnStartTime))
    (r.(cs_acceptingInConnection)).
Definition set_cs_lastConnStartTime (v : Z) (r : CompileServer) : CompileServer :=
  mkCompileServer (r.(cs_channel)) (r.(cs_remotePort)) (r.(cs_hostId))
    (r.(cs_nodeName)) (r.(cs_busyInstalling)) (r.(cs_hostPlatform))
    (r.(cs_load)) (r.(cs_maxJobs)) (r.(cs_noRemote)) (r.(cs_jobList))
    (r.(cs_st)) (r.(cs_ty)) (r.(cs_chrootPossible))
    (r.(cs_featuresSupported)) (r.(cs_clientCount))
    (r.(cs_submittedJobsCount)) (r.(cs_lastPickId)) (r.(cs_compilerVersions))
    (r.(cs_lastCompiledJobs)) (r.(cs_lastRequestedJobs)) (r.(cs_cumCompiled))
    (r.(cs_cumRequested)) (r.(cs_clientLocalMap)) (r.(cs_blacklist))
    (r.(cs_inFd)) (r.(cs_inConnAttempt)) (r.(cs_nextConnTime)) v
    (r.(cs_acceptingInConnection)).
Definition set_cs_acceptingInConnection (v : bool) (r : CompileServer) : CompileServer :=
  mkCompileServer (r.(cs_channel)) (r.(cs_remotePort)) (r.(cs_hostId))
    (r.(cs_nodeName)) (r.(cs_busyInstalling)) (r.(cs_hostPlatform))
    (r.(cs_load)) (r.(cs_maxJobs)) (r.(cs_noRemote)) (r.(cs_jobList))
    (r.(cs_st)) (r.(cs_ty)) (r.(cs_chrootPossible))
    (r.(cs_featuresSupported)) (r.(cs_clientCount))
    (r.(cs_submittedJobsCount)) (r.(cs_lastPickId)) (r.(cs_compilerVersions))
    (r.(cs_lastCompiledJobs)) (r.(cs_lastRequestedJobs)) (r.(cs_cumCompiled))
    (r.(cs_cumRequested)) (r.(cs_clientLocalMap)) (r.(cs_blacklist))
    (r.(cs_inFd)) (r.(cs_inConnAttempt)) (r.(cs_nextConnTime))
    (r.(cs_lastConnStartTime)) v.


(** The constructor, over the channel the base class built. *)
Definition new_CompileServer (c : MsgChannel) : CompileServer :=
  mkCompileServer c 0 0 "" 0 "" 1000 0 false [] CONNECTED UNKNOWN false 0 0 0 0 [] [] []
    no_stat no_stat ∅ ∅ (-1) 0 0 0 true.

Definition cs_name (cs : CompileServer) : string := c_name (cs_channel cs).
Definition cs_maximum_remote_protocol (cs : CompileServer) : Z :=
  c_maximum_remote_protocol (cs_channel cs).

(** [CompileServer::pick_new_id]: [counter] is [s_hostIdCounter]. *)
Definition pick_new_id (counter : Z) (cs : CompileServer) : res (Z * CompileServer) :=
  if negb (cs_hostId cs =? 0) then Fault AssertFailed
  else let id := u32 (counter + 1) in Ok (id, set_cs_hostId id cs).

Definition matches (cs : CompileServer) (nm : string) : bool :=
  bool_decide (cs_nodeName cs = nm) || bool_decide (cs_name cs = nm).

Definition platform_map : list (string * string) :=
  [("i386", "i486"); ("i386", "i586"); ("i386", "i686"); ("i386", "x86_64");
   ("i486", "i586"); ("i486", "i686"); ("i486", "x86_64");
   ("i586", "i686"); ("i586", "x86_64");
   ("i686", "x86_64");
   ("ppc", "ppc64");
   ("s390", "s390x")]%string.

Definition platforms_compatible (cs : CompileServer) (target : string) : bool :=
  bool_decide (target = cs_hostPlatform cs)
  || bool_decide ((target, cs_hostPlatform cs) ∈ platform_map).

Definition featuresSupported (cs : CompileServer) (features : Z) : bool :=
  Z.land (cs_featuresSupported cs) features =? features.

(** [int] division truncates. *)
Definition maxPreloadCount (cs : CompileServer) : Z := 1 + Z.quot (cs_maxJobs cs) 4.

Definition currentJobCountRemote (cs : CompileServer) : Z := Z.of_nat (length (cs_jobList cs)).
Definition currentJobCountLocal (cs : CompileServer) : Z :=
  map_fold (fun _ (info : Z * bool) n => n + (if info.2 then cs_maxJobs cs else 1)) 0
    (cs_clientLocalMap cs).
Definition currentJobCount (cs : CompileServer) : Z :=
  currentJobCountRemote cs + currentJobCountLocal cs.

Definition appendJob (job : ptr) (id : Z) (cs : CompileServer) : CompileServer :=
  set_cs_jobList (cs_jobList cs ++ [job]) (set_cs_lastPickId id cs).
Definition removeJob (job : ptr) (cs : CompileServer) : CompileServer :=
  set_cs_jobList (filter (fun j => j <> job) (cs_jobList cs)) cs.

(** [m_clientLocalMap[id].id]: a missing entry is created with zeros. *)
Definition getClientLocalJobId (id : Z) (cs : CompileServer) : Z * CompileServer :=
  match cs_clientLocalMap cs !! id with
  | Some info => (info.1, cs)
  | None => (0, set_cs_clientLocalMap (<[id := (0, false)]> (cs_clientLocalMap cs)) cs)
  end.
Definition insertClientLocalJobId (localJobId newJobId : Z) (fulljob : bool) (cs : CompileServer)
  : CompileServer :=
  set_cs_clientLocalMap (<[localJobId := (newJobId, fulljob)]> (cs_clientLocalMap cs)) cs.
Definition eraseClientLocalJobId (localJobId : Z) (cs : CompileServer) : CompileServer :=
  set_cs_clientLocalMap (delete localJobId (cs_clientLocalMap cs)) cs.

(** The blacklist maps a server to environments. The code reads it with
    [operator[]], which may create an empty entry; an empty entry and none
    are the same here, nothing tells them apart. *)
Definition getEnvsForBlacklistedCS (p : ptr) (cs : CompileServer) : Environments :=
  default [] (cs_blacklist cs !! p).
Definition blacklistCompileServer (p : ptr) (env : string * string) (cs : CompileServer)
  : CompileServer :=
  set_cs_blacklist (<[p := getEnvsForBlacklistedCS p cs ++ [env]]> (cs_blacklist cs)) cs.
Definition eraseCSFromBlacklist (p : ptr) (cs : CompileServer) : CompileServer :=
  set_cs_blacklist (delete p (cs_blacklist cs)) cs.

(** ** Eligibility

    Questions about server [cs], whose pointer is [p], and a job whose
    submitter is the object [sub]. *)
Section eligible.
Context (p : ptr) (cs : CompileServer) (job : Job) (sub : CompileServer).

Definition check_remote : bool :=
  bool_decide (j_submitter job = p) || negb (cs_noRemote cs).

Definition blacklisted (env : string * string) : bool :=
  bool_decide (env ∈ getEnvsForBlacklistedCS p sub).

Fixpoint can_install_env (envs : Environments) : string :=
  match envs with
  | [] => ""
  | env :: envs =>
      if platforms_compatible cs env.1 && negb (blacklisted env) then env.1
      else can_install_env envs
  end.

Definition can_install (ignore_installing : bool) : string :=
  if negb ignore_installing && negb (cs_busyInstalling cs =? 0) then ""%string
  else can_install_env (j_environments job).

Definition nonempty (s : string) : bool := bool_decide (s <> ""%string).

Definition is_eligible_ever : bool :=
  let jobs_okay := 0 <? cs_maxJobs cs in
  let version_okay := j_minimalHostVersion job <=? cs_maximum_remote_protocol cs in
  let features_okay := featuresSupported cs (j_requiredFeatures job) in
  jobs_okay
  && (cs_chrootPossible cs || bool_decide (j_submitter job = p))
  && version_okay && features_okay && cs_acceptingInConnection cs
  && nonempty (can_install true) && check_remote.

Definition is_eligible_now : bool :=
  is_eligible_ever &&
  (let local_jobs_now := currentJobCountLocal cs in
   let jobs_now := local_jobs_now + currentJobCountRemote cs in
   let jobs_okay :=
     (jobs_now <? cs_maxJobs cs)
     || ((0 <? cs_maxJobs cs) && (jobs_now <? cs_maxJobs cs + maxPreloadCount cs)
         && (local_jobs_now <? cs_maxJobs cs)) in
   let load_okay := cs_load cs <? 1000 in
   jobs_okay && load_okay && nonempty (can_install false)).
End eligible.

(** ** The test whether a server accepts connections *)

Definition getConnectionInProgress (cs : CompileServer) : bool := negb (cs_inFd cs =? -1).

Definition getConnectionTimeout (now : Z) (cs : CompileServer) : Z :=
  let elapsed_time := now - cs_lastConnStartTime cs in
  if elapsed_time <? 5 then 5 - elapsed_time else 0.

Definition getNextTimeout (now : Z) (cs : CompileServer) : Z :=
  if cs_noRemote cs then -1
  else if negb (cs_inFd cs =? -1) then getConnectionTimeout now cs
  else
    let until_connect := cs_nextConnTime cs - now in
    if 0 <? until_connect then until_connect else 0.

Definition time_offset_table : list Z :=
  [2; 4; 8; 16; 32; 64; 128; 256; 512; 1024; 2048; 4096].
(** [sizeof(time_offset_table)]: twelve entries of eight bytes. *)
Definition table_size : Z := 8 * Z.of_nat (length time_offset_table).

Definition updateInConnectivity (now : Z) (acceptingIn : bool) (cs : CompileServer)
  : res CompileServer :=
  if acceptingIn then
    let cs := if cs_acceptingInConnection cs then cs
              else set_cs_inConnAttempt 0 (set_cs_acceptingInConnection true cs) in
    Ok (set_cs_inFd (-1) (set_cs_nextConnTime (now + 60) cs))
  else
    let cs := set_cs_acceptingInConnection false cs in
    match time_offset_table !! Z.to_nat (cs_inConnAttempt cs) with
    | None => Fault OutOfBounds
    | Some offset =>
        let cs := set_cs_nextConnTime (now + offset) cs in
        let cs := if cs_inConnAttempt cs <? table_size - 1
                  then set_cs_inConnAttempt (cs_inConnAttempt cs + 1) cs else cs in
        Ok (set_cs_inFd (-1) cs)
    end.

(** [isConnected]: [error] is the pending error of the socket, [None] when
    [getsockopt] fails. *)
Definition isConnected (now : Z) (error : option Z) (cs : CompileServer) : bool :=
  if getConnectionTimeout now cs =? 0 then false
  else bool_decide (error = Some 0).

(** [startInConnectionTest]: what [socket] returns, and how [connect] ends. *)
Inductive connect_result : Type := ConnectOk | ConnectPending | ConnectFailed.
Definition startInConnectionTest (now fd : Z) (r : connect_result) (error : option Z)
    (cs : CompileServer) : res CompileServer :=
  if cs_noRemote cs || getConnectionInProgress cs || (now <? cs_nextConnTime cs) then Ok cs
  else
    let cs := set_cs_inFd fd cs in
    match
      match r with
      | ConnectOk => updateInConnectivity now (isConnected now error cs) cs
      | ConnectPending => Ok cs
      | ConnectFailed => updateInConnectivity now false cs
      end
    with
    | Ok cs => Ok (set_cs_lastConnStartTime now cs)
    | Fault f => Fault f
    end.

(** ** Facts *)

(** The fields of a statistics record are [unsigned long]s. *)
Definition is_u64 (z : Z) : Prop := 0 <= z < 2 ^ 64.
Definition stat_ok (a : JobStat) : Prop :=
  is_u64 (js_outputSize a) /\ is_u64 (js_compileTimeReal a) /\
  is_u64 (js_compileTimeUser a) /\ is_u64 (js_compileTimeSys a).

Lemma u64_add_sub x y : is_u64 x -> u64 (u64 (x + y) - y) = x.
Proof.
  intros H. unfold u64. rewrite Zminus_mod_idemp_l. replace (x + y - y) with x by lia.
  by apply Z.mod_small.
Qed.

(** Taking a job's statistics back out of a sum restores the sum, whether or
    not the addition wrapped around. *)
Lemma stat_sub_add a b : stat_ok a -> stat_sub (stat_add a b) b = set_js_jobId 0 a.
Proof.
  intros (H1 & H2 & H3 & H4). unfold stat_sub, stat_add, stat_map2. cbn.
  by rewrite !u64_add_sub.
Qed.

Lemma u64_range z : is_u64 (u64 z).
Proof. unfold is_u64, u64. apply Z.mod_pos_bound. lia. Qed.

Lemma stat_add_ok a b : stat_ok (stat_add a b).
Proof. unfold stat_ok. cbn. eauto using u64_range. Qed.
Lemma stat_sub_ok a b : stat_ok (stat_sub a b).
Proof. unfold stat_ok. cbn. eauto using u64_range. Qed.

(** The sum of a list of statistics, as the code accumulates it. *)
Definition stat_sum (l : list JobStat) : JobStat := fold_left stat_add l no_stat.

(** ** Platforms *)

Definition runs_on (target host : string) : bool :=
  bool_decide (target = host) || bool_decide ((target, host) ∈ platform_map).

Definition platforms : list string :=
  ["i386"; "i486"; "i586"; "i686"; "x86_64"; "ppc"; "ppc64"; "s390"; "s390x"]%string.

Lemma platform_map_in a b : (a, b) ∈ platform_map -> a ∈ platforms /\ b ∈ platforms.
Proof.
  intros H. unfold platform_map in H.
  repeat (apply elem_of_cons in H as [[= -> ->]|H];
          [by split; apply (bool_decide_unpack _)|]).
  by apply elem_of_nil in H.
Qed.

(** A relation on the known platforms, checked on each of them. *)
Lemma platforms_check (P : string -> string -> string -> bool) :
  forallb (fun a => forallb (fun b => forallb (P a b) platforms) platforms) platforms = true ->
  forall a b c, a ∈ platforms -> b ∈ platforms -> c ∈ platforms -> P a b c = true.
Proof.
  intros H a b c Ha Hb Hc. rewrite forallb_forall in H.
  specialize (H a (proj1 (list_elem_of_In _ _) Ha)). rewrite forallb_forall in H.
  specialize (H b (proj1 (list_elem_of_In _ _) Hb)). rewrite forallb_forall in H.
  exact (H c (proj1 (list_elem_of_In _ _) Hc)).
Qed.

(** [platforms_compatible] is a partial order on platform names: a
    program for a platform runs there, what runs on a platform that runs on a
    third one runs on the third one, and two different platforms never run
    each other's programs. *)
Theorem platforms_compatible_order :
  (forall cs target, platforms_compatible cs target = runs_on target (cs_hostPlatform cs)) /\
  (forall a, runs_on a a = true) /\
  (forall a b c, runs_on a b = true -> runs_on b c = true -> runs_on a c = true) /\
  (forall a b, runs_on a b = true -> runs_on b a = true -> a = b).
Proof.
  assert (forall a b, runs_on a b = true -> a = b \/ (a, b) ∈ platform_map) as Hd.
  { intros a b H. apply orb_true_iff in H as [H|H]; apply bool_decide_eq_true in H; auto. }
  split; [done|]. split; [|split].
  - intros a. unfold runs_on. by rewrite bool_decide_true.
  - intros a b c [->|H1]%Hd; [done|]. intros [->|H2]%Hd;
      [unfold runs_on; by rewrite (bool_decide_true _ H1), orb_true_r|].
    pose proof (platforms_check (fun a b c =>
      negb (bool_decide ((a, b) ∈ platform_map) && bool_decide ((b, c) ∈ platform_map))
      || runs_on a c) eq_refl a b c) as Hp. cbv beta in Hp.
    rewrite (bool_decide_true _ H1), (bool_decide_true _ H2) in Hp. cbn in Hp.
    apply Hp; [apply (platform_map_in a b)|apply (platform_map_in a b)|apply (platform_map_in b c)]; done.
  - intros a b [->|H1]%Hd; [done|]. intros [->|H2]%Hd; [done|].
    pose proof (platforms_check (fun a b _ =>
      negb (bool_decide ((a, b) ∈ platform_map) && bool_decide ((b, a) ∈ platform_map)))
      eq_refl a b a) as Hp. cbv beta in Hp.
    rewrite (bool_decide_true _ H1), (bool_decide_true _ H2) in Hp. cbn in Hp.
    enough (false = true) by done. apply Hp; by apply (platform_map_in a b).
Qed.

(** ** Installing environments *)

Definition installable (p : ptr) (cs sub : CompileServer) (env : string * string) : bool :=
  platforms_compatible cs env.1 && negb (blacklisted p sub env).

Lemma can_install_env_spec p cs sub envs :
  (exists l1 env l2, envs = l1 ++ env :: l2 /\ installable p cs sub env = true /\
     Forall (fun e => installable p cs sub e = false) l1 /\
     can_install_env p cs sub envs = env.1) \/
  (Forall (fun e => installable p cs sub e = false) envs /\ can_install_env p cs sub envs = ""%string).
Proof.
  induction envs as [|env envs IH]; [right; done|]. cbn [can_install_env].
  fold (installable p cs sub env). destruct (installable p cs sub env) eqn:E.
  - left. by exists [], env, envs.
  - destruct IH as [(l1 & e & l2 & -> & He & Hl & IH)|[Hl IH]].
    + left. exists (env :: l1), e, l2. split; [done|]. split; [done|]. split; [by constructor|done].
    + right. split; [by constructor|done].
Qed.

(** [can_install] answers the first environment of the job that the
    server can run (the platforms are compatible) and that the submitter has
    not blacklisted for it; the answer is empty when there is none, and, if
    installations under way count, when one is. *)
Theorem can_install_spec p cs job sub ignore :
  Forall (fun e => e.1 <> ""%string) (j_environments job) ->
  (can_install p cs job sub ignore <> ""%string <->
     (ignore = true \/ cs_busyInstalling cs = 0) /\
     exists env, env ∈ j_environments job /\ installable p cs sub env = true) /\
  (can_install p cs job sub ignore <> ""%string ->
     exists l1 env l2, j_environments job = l1 ++ env :: l2 /\
       can_install p cs job sub ignore = env.1 /\ installable p cs sub env = true /\
       Forall (fun e => installable p cs sub e = false) l1).
Proof.
  intros Hne. unfold can_install.
  destruct (negb ignore && negb (cs_busyInstalling cs =? 0)) eqn:Eb.
  { boolify. subst. split; [split; [done|]|done]. intros [[?|?] _]; done. }
  assert (ignore = true \/ cs_busyInstalling cs = 0) as Hok.
  { apply andb_false_iff in Eb as [E|E]; boolify; auto. }
  destruct (can_install_env_spec p cs sub (j_environments job))
    as [(l1 & env & l2 & Ee & Hi & Hl & E)|[Hl E]]; rewrite E.
  - rewrite Ee in Hne |- *. apply Forall_app in Hne as [_ Hne]. apply Forall_cons in Hne as [Hne _].
    split; [split; [|done]|intros _; by exists l1, env, l2].
    intros _. split; [done|]. exists env. rewrite elem_of_app, elem_of_cons. auto.
  - split; [split; [done|]|done]. intros [_ (env & Hin & Hi)].
    rewrite Forall_forall in Hl. by rewrite (Hl env Hin) in Hi.
Qed.

(** ** Capacity *)

(** A server never gets more jobs than it has slots and places to preload:
    a server that is eligible has a free slot, or a free place to preload and
    a slot its local jobs do not take, so that after one more job its jobs
    still fit. It also accepts connections, is not overloaded, and may be
    used by this submitter. *)
Theorem eligible_has_room p cs job sub jp :
  is_eligible_now p cs job sub = true ->
  0 < cs_maxJobs cs /\
  currentJobCountLocal cs < cs_maxJobs cs + maxPreloadCount cs /\
  currentJobCount (appendJob jp (j_id job) cs) <= cs_maxJobs cs + maxPreloadCount cs /\
  cs_load cs < 1000 /\ cs_acceptingInConnection cs = true /\
  (j_submitter job = p \/ (cs_noRemote cs = false /\ cs_chrootPossible cs = true)).
Proof.
  unfold is_eligible_now, is_eligible_ever, check_remote. intros H. boolify.
  assert (0 < maxPreloadCount cs) as Hp.
  { unfold maxPreloadCount. pose proof (Z.quot_pos (cs_maxJobs cs) 4). lia. }
  assert (currentJobCountLocal cs + currentJobCountRemote cs < cs_maxJobs cs + maxPreloadCount cs) as Hj.
  { repeat match goal with E : (_ || _)%bool = true |- _ => apply orb_true_iff in E as [E|E] end;
      boolify; lia. }
  assert (0 <= currentJobCountRemote cs) by (unfold currentJobCountRemote; lia).
  split; [done|]. split; [lia|]. split; [|split; [done|split; [done|]]].
  - unfold currentJobCount.
    change (currentJobCountLocal (appendJob jp (j_id job) cs)) with (currentJobCountLocal cs).
    unfold currentJobCountRemote in *. cbn. rewrite length_app. cbn. lia.
  - repeat match goal with E : (_ || _)%bool = true |- _ => apply orb_true_iff in E as [E|E] end;
      repeat match goal with E : bool_decide _ = true |- _ => apply bool_decide_eq_true in E end;
      boolify; auto.
Qed.

(** ** Repeated failures *)

(** [n] failed connection tests in a row, at the given times. *)
Fixpoint failures (times : list Z) (cs : CompileServer) : res CompileServer :=
  match times with
  | [] => Ok cs
  | now :: times =>
      match updateInConnectivity now false cs with
      | Ok cs => failures times cs
      | Fault f => Fault f
      end
  end.

Lemma failures_ok times cs :
  0 <= cs_inConnAttempt cs -> cs_inConnAttempt cs + Z.of_nat (length times) <= 12 ->
  exists cs', failures times cs = Ok cs' /\
    cs_inConnAttempt cs' = cs_inConnAttempt cs + Z.of_nat (length times) /\
    cs_acceptingInConnection cs' = (if times is [] then cs_acceptingInConnection cs else false).
Proof.
  revert cs. induction times as [|now times IH]; intros cs H0 H; cbn [failures length] in *.
  - exists cs. rewrite Z.add_0_r. done.
  - unfold updateInConnectivity. cbn [cs_inConnAttempt set_cs_acceptingInConnection].
    destruct (time_offset_table !! Z.to_nat (cs_inConnAttempt cs)) as [o|] eqn:E.
    2: { apply lookup_ge_None in E. cbn in E. lia. }
    cbv zeta. cbn [cs_inConnAttempt set_cs_nextConnTime set_cs_acceptingInConnection].
    change (table_size - 1) with 95.
    rewrite (proj2 (Z.ltb_lt (cs_inConnAttempt cs) 95)) by lia.
    edestruct IH as (cs' & E' & Ea & Eacc); [| |exists cs'; split; [exact E'|]]; cbn; [lia|lia|].
    cbn in Ea, Eacc. split; [lia|]. by destruct times.
Qed.

(** The back-off table is indexed past its end. After twelve failed
    connection tests in a row the next one reads [time_offset_table[12]]: the
    guard compares the attempt with [sizeof] of the table, which counts bytes. *)
Theorem twelve_failures_overrun times now cs :
  cs_inConnAttempt cs = 0 -> length times = 12%nat ->
  exists cs', failures times cs = Ok cs' /\ updateInConnectivity now false cs' = Fault OutOfBounds.
Proof.
  intros H0 Hl. destruct (failures_ok times cs) as (cs' & E & Ea & _); [lia|lia|].
  exists cs'. split; [done|]. unfold updateInConnectivity.
  cbn [cs_inConnAttempt set_cs_acceptingInConnection]. by rewrite Ea, H0, Hl.
Qed.

(** ** Witnesses *)

(** An idle daemon with four slots. *)
Definition sample_cs : CompileServer :=
  set_cs_maxJobs 4 (set_cs_load 0 (set_cs_chrootPossible true (set_cs_hostPlatform "x86_64"
    (new_CompileServer (holding NEED_LEN 0 [] quiet))))).
Definition sample_job : Job :=
  set_job_environments [("ppc64", "e1.tar"); ("i686", "e2.tar")]%string (new_Job 7 2).

Lemma can_install_spec_witness :
  can_install 1 sample_cs sample_job sample_cs false = "i686"%string /\
  exists l1 env l2, j_environments sample_job = l1 ++ env :: l2 /\
    can_install 1 sample_cs sample_job sample_cs false = env.1 /\
    installable 1 sample_cs sample_cs env = true /\
    Forall (fun e => installable 1 sample_cs sample_cs e = false) l1.
Proof.
  split; [reflexivity|].
  apply (can_install_spec 1 sample_cs sample_job sample_cs false).
  - repeat constructor; discriminate.
  - discriminate.
Defined.

Lemma eligible_has_room_witness :
  is_eligible_now 1 sample_cs sample_job sample_cs = true /\
  currentJobCount (appendJob 9 7 sample_cs) <= cs_maxJobs sample_cs + maxPreloadCount sample_cs.
Proof.
  split; [vm_compute; reflexivity|].
  apply (eligible_has_room 1 sample_cs sample_job sample_cs 9). vm_compute. reflexivity.
Defined.

Lemma twelve_failures_overrun_witness :
  exists cs', failures (repeat 0 12) sample_cs = Ok cs' /\
    updateInConnectivity 0 false cs' = Fault OutOfBounds.
Proof. apply (twelve_failures_overrun (repeat 0 12) 0 sample_cs); reflexivity. Defined.
