(* ===== verification/SchedulingAlgo.v ===== *)
(** * Choosing a server (scheduler/scheduling_algo.cpp, scheduler.cpp)

    [server_speed], [envs_match], the filter of eligible servers and the
    algorithms that pick one of them, over servers given as their pointers and
    objects. A [random()] the code calls is an argument. *)

From Stdlib Require Import ZArith Lia.
From Stdlib Require Import Floats.SpecFloat Strings.Byte Strings.String.
From stdpp Require Import base tactics option list gmap strings.
From S2P Require Import Prelude MsgChannel CompileJob Msg Float CompileServer.

#[local] Open Scope Z_scope.

Abbreviation server := (ptr * CompileServer)%type.

(** ** Speed *)

Definition speed_penalty (p : ptr) (cs : CompileServer) (job : Job) (f : float) : float :=
  let f :=
    if decide (j_submitter job = p) then
      let clientCount := if cs_clientCount cs =? 0 then cs_submittedJobsCount cs
                         else cs_clientCount cs in
      if cs_maxJobs cs <? clientCount then f32 (fmul64 (f64 f) (f64_lit 1 10))
      else if clientCount =? cs_maxJobs cs then f32 (fmul64 (f64 f) (f64_lit 8 10))
      else if clientCount <=? Z.quot (cs_maxJobs cs) 2 then f32 (fmul64 (f64 f) (f64_lit 11 10))
      else f
    else fmul32 f (fdiv32 (f32_of_Z (u32 (1000 - cs_load cs))) (f32_of_Z 1000)) in
  let half := to_f32 1 (-1) in
  fmul32 f (fsub32 (f32_of_Z 1)
    (fdiv32 (fmul32 half (f32_of_Z (currentJobCount cs))) (f32_of_Z (cs_maxJobs cs)))).

Definition server_speed (p : ptr) (cs : CompileServer) (job : option Job) : float :=
  if bool_decide (cs_lastCompiledJobs cs = []) || (js_compileTimeUser (cs_cumCompiled cs) =? 0)
  then S754_zero false
  else
    let f := fdiv32 (f32_of_Z (js_outputSize (cs_cumCompiled cs)))
                    (f32_of_Z (js_compileTimeUser (cs_cumCompiled cs))) in
    let f := match job with Some job => speed_penalty p cs job f | None => f end in
    let n := Z.of_nat (length (cs_lastCompiledJobs cs)) in
    if n <? 7 then f32 (fmul64 (f64 f) (fadd64 (fmul64 (to_f64 (-1) (-1)) (f64_of_Z n)) (to_f64 9 (-1))))
    else f.

(** ** Environments *)

Fixpoint matching_env (cs : CompileServer) (version : string) (envs : Environments)
  : option string :=
  match envs with
  | [] => None
  | env :: envs =>
      if bool_decide (version = env.2) && platforms_compatible cs env.1 then Some env.1
      else matching_env cs version envs
  end.

Fixpoint envs_match_loop (cs : CompileServer) (job : Job) (installed : Environments) : string :=
  match installed with
  | [] => ""
  | it :: installed =>
      match (if bool_decide (it.1 = j_targetPlatform job)
             then matching_env cs it.2 (j_environments job) else None) with
      | Some plat => plat
      | None => envs_match_loop cs job installed
      end
  end.

Definition envs_match (p : ptr) (cs : CompileServer) (job : Job) : string :=
  if decide (j_submitter job = p) then cs_hostPlatform cs
  else envs_match_loop cs job (cs_compilerVersions cs).

(** ** Candidates *)

Definition candidate (job : Job) (sub : CompileServer) (s : server) : bool :=
  let '(p, cs) := s in
  is_eligible_now p cs job sub
  && nonempty (can_install p cs job sub false)
  && negb (negb (cs_chrootPossible cs) && negb (bool_decide (j_submitter job = p)))
  && check_remote p cs job.

Definition filter_ineligible_servers (job : Job) (sub : CompileServer) (css : list server)
  : list server :=
  filter (fun s => candidate job sub s) css.

(** ** Algorithms *)

(** [std::advance(eligible.begin(), random() % eligible.size())] *)
Definition pick_server_random (random : Z) (eligible : list server) : option server :=
  eligible !! Z.to_nat (random mod Z.of_nat (length eligible)).

Definition pick_server_round_robin (eligible : list server) : option server :=
  (fold_left (fun (acc : option server * Z) s =>
     match acc.1 with
     | None => (Some s, cs_lastPickId s.2)
     | Some _ => if cs_lastPickId s.2 <? acc.2 then (Some s, cs_lastPickId s.2) else acc
     end) eligible (None, 0)).1.

Definition server_load (submission_weight : Z) (cs : CompileServer) : float :=
  let effective_jobs := f32_of_Z (Z.max 0 (currentJobCount cs)) in
  let effective_jobs :=
    if 0 <? submission_weight then
      fadd32 effective_jobs
        (fdiv32 (f32_of_Z (Z.max 0 (cs_submittedJobsCount cs))) (f32_of_Z submission_weight))
    else effective_jobs in
  fdiv32 effective_jobs (f32_of_Z (cs_maxJobs cs)).

Definition least_load (submission_weight : Z) (eligible : list server) : float :=
  let min_load := fold_left (fun min_load (s : server) =>
    if cs_maxJobs s.2 =? 0 then min_load
    else
      let load := server_load submission_weight s.2 in
      if flt min_load (S754_zero false) || flt load min_load then load else min_load)
    eligible (f32_of_Z (-1)) in
  if flt min_load (S754_zero false) then f32_of_Z 0 else min_load.

(** [1e-6f] *)
Definition epsilon : float := f32 (f64_lit 1 1000000).

Definition pick_server_least_busy (eligible : list server) (submission_weight : Z)
  : option server :=
  let min_load := least_load submission_weight eligible in
  pick_server_round_robin
    (filter (fun s : server =>
       negb (cs_maxJobs s.2 =? 0)
       && fle (server_load submission_weight s.2) (fadd32 min_load epsilon)) eligible).

Definition weight_factor (stats_update_weight : Z) : float :=
  fdiv32 (fsub32 (f32_of_Z 255) (f32_of_Z stats_update_weight)) (f32_of_Z 255).

Definition should_refresh_stats (job_id last_picked_id eligible_count stats_update_weight : Z)
  : bool :=
  if stats_update_weight =? 255 then false
  else if last_picked_id =? 0 then true
  else flt (fmul32 (weight_factor stats_update_weight) (f32_of_Z eligible_count))
           (f32_of_Z (u32 (job_id - last_picked_id))).

Definition pick_server_new (job : Job) (eligible : list server) : option server :=
  fold_left (fun selected (s : server) =>
    let '(p, cs) := s in
    if bool_decide (cs_lastCompiledJobs cs = []) && (currentJobCount cs =? 0)
       && negb (cs_maxJobs cs =? 0) then
      match selected with
      | None => Some s
      | Some _ => if nonempty (envs_match p cs job) then Some s else selected
      end
    else selected) eligible None.

Definition STATS_UPDATE_WEIGHT : Z := 120.

(** The best of the servers seen so far, with the environment installed,
    without it, and for preloading. *)
Record best_servers : Type := mkBest {
  b_best : option server; b_ui : option server; b_pre : option server
}.

(** Whether [s] replaces [b], and whether it only counts for preloading. *)
Definition improves (job : Job) (b s : server) : bool :=
  negb (bool_decide (cs_lastCompiledJobs b.2 = []))
  && flt (server_speed b.1 b.2 (Some job)) (server_speed s.1 s.2 (Some job)).
Definition has_free_slot (s : server) : bool := currentJobCount s.2 <? cs_maxJobs s.2.

Fixpoint fastest_loop (job : Job) (count : Z) (l : list server) (b : best_servers) : best_servers :=
  match l with
  | [] => b
  | s :: l =>
      if should_refresh_stats (j_id job) (cs_lastPickId s.2) count STATS_UPDATE_WEIGHT then
        mkBest (Some s) (b_ui b) (b_pre b)
      else
        let b :=
          if nonempty (envs_match s.1 s.2 job) then
            match b_best b with
            | None => mkBest (Some s) (b_ui b) (b_pre b)
            | Some best =>
                if improves job best s then
                  if has_free_slot s then mkBest (Some s) (b_ui b) (b_pre b)
                  else mkBest (b_best b) (b_ui b) (Some s)
                else b
            end
          else
            match b_ui b with
            | None => mkBest (b_best b) (Some s) (b_pre b)
            | Some ui =>
                if improves job ui s then
                  if has_free_slot s then mkBest (b_best b) (Some s) (b_pre b)
                  else mkBest (b_best b) (b_ui b) (Some s)
                else b
            end in
        fastest_loop job count l b
  end.

Definition pick_server_fastest (stats : bool) (random : Z) (job : Job) (eligible : list server)
  : option server :=
  if negb stats then pick_server_random random eligible
  else
    match pick_server_new job eligible with
    | Some s => Some s
    | None =>
        let b := fastest_loop job (Z.of_nat (length eligible)) eligible (mkBest None None None) in
        match b_best b, b_ui b with
        | Some s, _ | None, Some s => Some s
        | None, None => b_pre b
        end
    end.

Inductive SchedulerAlgorithmName : Type :=
| ALG_NONE | RANDOM | ROUND_ROBIN | LEAST_BUSY | FASTEST | UNDEFINED.

(** [pick_server]; [stats] says whether there are any job statistics. *)
Definition pick_server (alg : SchedulerAlgorithmName) (submission_weight : Z) (stats : bool)
    (random : Z) (job : Job) (sub : CompileServer) (css : list server) : option server :=
  let eligible := filter_ineligible_servers job sub css in
  if decide (j_preferredHost job <> ""%string) then
    head (filter (fun s : server => matches s.2 (j_preferredHost job)
                            && is_eligible_now s.1 s.2 job sub) css)
  else
    match eligible with
    | [] => None
    | [s] => Some s
    | _ =>
        match alg with
        | ALG_NONE | UNDEFINED | RANDOM => pick_server_random random eligible
        | ROUND_ROBIN => pick_server_round_robin eligible
        | LEAST_BUSY => pick_server_least_busy eligible submission_weight
        | FASTEST => pick_server_fastest stats random job eligible
        end
    end.

(** ** Facts *)

Lemma fold_left_inv {A B} (f : A -> B -> A) (P : A -> list B -> Prop) l a :
  P a [] -> (forall a l1 b, b ∈ l -> P a l1 -> P (f a b) (l1 ++ [b])) -> P (fold_left f l a) l.
Proof.
  intros H0 Hs. rewrite <- (app_nil_l l) at 2. revert a H0. generalize (@nil B).
  induction l as [|b l IH]; intros l0 a H0; cbn; [by rewrite app_nil_r|].
  replace (l0 ++ b :: l) with ((l0 ++ [b]) ++ l) by (by rewrite <- app_assoc).
  apply IH; [intros; apply Hs; [by right|done]|]. apply Hs; [by left|done].
Qed.

Lemma round_robin_spec l :
  match pick_server_round_robin l with
  | None => l = []
  | Some s => s ∈ l /\ forall s', s' ∈ l -> cs_lastPickId s.2 <= cs_lastPickId s'.2
  end.
Proof.
  unfold pick_server_round_robin.
  match goal with |- context [fold_left ?f l ?a] =>
    pose proof (fold_left_inv f (fun (acc : option server * Z) l =>
      match acc.1 with
      | None => l = []
      | Some s => acc.2 = cs_lastPickId s.2 /\ s ∈ l /\
                  forall s', s' ∈ l -> cs_lastPickId s.2 <= cs_lastPickId s'.2
      end) l a eq_refl) as H end.
  cbv beta in H. destruct (fold_left _ l _) as [[s|] m]; cbn in *; apply H; clear;
    intros [[b|] n] l1 s' _ Hb; cbn in *.
  1, 3: destruct Hb as (-> & Hin & Hmin); destruct (_ <? _) eqn:E; cbn; boolify;
    (split; [done|]); (split; [rewrite elem_of_app, ?list_elem_of_singleton; auto|]);
    intros s2 [H2|H2%list_elem_of_singleton]%elem_of_app; subst;
    try specialize (Hmin _ H2); lia.
  all: subst l1; split; [done|]; split; [by apply list_elem_of_singleton|];
    intros s2 H2%list_elem_of_singleton; by subst.
Qed.

Lemma random_in random l s : pick_server_random random l = Some s -> s ∈ l.
Proof. apply list_elem_of_lookup_2. Qed.

Lemma random_some random l : l <> [] -> pick_server_random random l <> None.
Proof.
  intros Hl. unfold pick_server_random. intros E%lookup_ge_None.
  assert (0 < Z.of_nat (length l)) by (destruct l; [done|cbn; lia]).
  pose proof (Z.mod_pos_bound random (Z.of_nat (length l))). lia.
Qed.

Lemma least_busy_in l w s : pick_server_least_busy l w = Some s -> s ∈ l.
Proof.
  unfold pick_server_least_busy. intros E.
  pose proof (round_robin_spec (filter (fun s : server => negb (cs_maxJobs s.2 =? 0) &&
       fle (server_load w s.2) (fadd32 (least_load w l) epsilon)) l)) as H.
  rewrite E in H. destruct H as [H _]. by apply list_elem_of_filter in H as [_ H].
Qed.

Lemma new_in job l s : pick_server_new job l = Some s -> s ∈ l.
Proof.
  unfold pick_server_new.
  match goal with |- context [fold_left ?f l ?a] =>
    pose proof (fold_left_inv f (fun acc l => forall s, acc = Some s -> s ∈ l) l a) as H end.
  cbv beta in H. intros E. apply H; [done| |done]. clear.
  intros acc l1 [p cs] _ Hacc s. rewrite elem_of_app, list_elem_of_singleton.
  destruct (_ && _); [|intros E; left; auto].
  destruct acc as [s0|]; [destruct (nonempty _)|]; intros [= <-]; auto.
Qed.

(** The loop of the fastest algorithm only names servers of its list, and names
    one when the list is not empty. *)
Lemma fastest_loop_in job count l b (P : server -> Prop) :
  (forall s, s ∈ l -> P s) ->
  (forall s, b_best b = Some s \/ b_ui b = Some s \/ b_pre b = Some s -> P s) ->
  forall s, let b' := fastest_loop job count l b in
    b_best b' = Some s \/ b_ui b' = Some s \/ b_pre b' = Some s -> P s.
Proof.
  revert b. induction l as [|x l IH]; intros b Hl Hb s; cbn [fastest_loop]; [auto|].
  assert (P x) as Hx by (apply Hl; by left).
  assert (forall s, s ∈ l -> P s) as Hl' by (intros; apply Hl; by right).
  destruct (should_refresh_stats _ _ _ _).
  - cbn. intros [[= <-]|[E|E]]; eauto.
  - apply IH; [done|]. intros s'.
    repeat case_goal; cbn; intros [E|[E|E]];
      first [solve [injection E as <-; assumption]|apply Hb; intuition congruence].
Qed.

Lemma fastest_loop_some job count l b :
  (l <> [] \/ b_best b <> None \/ b_ui b <> None) ->
  let b' := fastest_loop job count l b in b_best b' <> None \/ b_ui b' <> None.
Proof.
  revert b. induction l as [|x l IH]; intros b Hb; cbn [fastest_loop].
  - destruct Hb as [?|Hb]; [done|exact Hb].
  - destruct (should_refresh_stats _ _ _ _); [by left|].
    apply IH. right. clear Hb.
    destruct (nonempty _); [destruct (b_best b) as [bb|] eqn:Eb|destruct (b_ui b) as [bb|] eqn:Eb];
      cbn; try (left; done); try (right; done);
      destruct (improves job bb x), (has_free_slot x); cbn; rewrite ?Eb; auto.
Qed.

Lemma fastest_in stats random job l s : pick_server_fastest stats random job l = Some s -> s ∈ l.
Proof.
  unfold pick_server_fastest. destruct (negb stats); [apply random_in|].
  destruct (pick_server_new job l) eqn:E; [intros [= <-]; by eapply new_in|].
  pose proof (fastest_loop_in job (Z.of_nat (length l)) l (mkBest None None None) (fun s => s ∈ l)) as H.
  cbv zeta in H. intros Hs. apply H; [done|cbn; intros ? [?|[?|?]]; done|].
  destruct (fastest_loop _ _ _ _) as [[?|] [?|] pre]; cbn in *; auto.
Qed.

Lemma fastest_some stats random job l : l <> [] -> pick_server_fastest stats random job l <> None.
Proof.
  intros Hl. unfold pick_server_fastest. destruct (negb stats); [by apply random_some|].
  destruct (pick_server_new job l); [done|].
  pose proof (fastest_loop_some job (Z.of_nat (length l)) l (mkBest None None None)) as H.
  cbv zeta in H. destruct H as [H|H]; [by left|by destruct (b_best _)|].
  destruct (b_best _); [done|]. by destruct (b_ui _).
Qed.

Lemma pick_server_in alg w stats random job sub css s :
  pick_server alg w stats random job sub css = Some s ->
  s ∈ css /\ is_eligible_now s.1 s.2 job sub = true.
Proof.
  unfold pick_server. destruct (decide _) as [Hp|Hp].
  - intros E. apply head_Some_elem_of in E. apply list_elem_of_filter in E as [E Hin].
    apply Is_true_true, andb_true_iff in E as [E1 E2]. by destruct s.
  - assert (forall x, x ∈ filter_ineligible_servers job sub css ->
              x ∈ css /\ is_eligible_now x.1 x.2 job sub = true) as Hf.
    { intros [q c] Hin. apply list_elem_of_filter in Hin as [Hc Hin].
      apply Is_true_true in Hc. unfold candidate in Hc. boolify. done. }
    intros E. apply Hf.
    destruct (filter_ineligible_servers job sub css) as [|s1 [|s2 l]]; [done| |].
    + injection E as ->. by left.
    + destruct alg; eauto using random_in, least_busy_in, fastest_in;
        pose proof (round_robin_spec (s1 :: s2 :: l)) as H; rewrite E in H; apply H.
Qed.

(** ** Properties *)

(** C40: the server [pick_server] returns for a job is a connected one of the list
    that is eligible for the job at this moment, and, if the job names a preferred
    host, it is that host, whatever the algorithm, its parameters and the random
    numbers. (That [empty_queue] gives a job to its submitter where nobody else
    takes it is another path.) *)
Theorem pick_server_sound alg w stats random job sub css p cs :
  pick_server alg w stats random job sub css = Some (p, cs) ->
  (p, cs) ∈ css /\ is_eligible_now p cs job sub = true /\
  (j_preferredHost job <> ""%string -> matches cs (j_preferredHost job) = true).
Proof.
  intros E. pose proof (pick_server_in _ _ _ _ _ _ _ _ E) as [Hin He].
  split; [done|]. split; [done|]. intros Hp. unfold pick_server in E. rewrite decide_True in E by done.
  apply head_Some_elem_of in E. apply list_elem_of_filter in E as [E _].
  by apply Is_true_true, andb_true_iff in E as [E1 E2].
Qed.

(** With the algorithms RANDOM, ROUND_ROBIN and FASTEST (and those that
    fall back to RANDOM) a job without a preferred host finds a server exactly
    when some connected server is a candidate for it. *)
Theorem pick_server_complete alg w stats random job sub css :
  j_preferredHost job = ""%string -> alg <> LEAST_BUSY ->
  (pick_server alg w stats random job sub css = None <->
   Forall (fun s => candidate job sub s = false) css).
Proof.
  intros Hp Ha. unfold pick_server. destruct (decide _); [done|].
  assert (filter_ineligible_servers job sub css = [] <->
          Forall (fun s => candidate job sub s = false) css) as <-.
  { unfold filter_ineligible_servers. rewrite Forall_forall. split.
    - intros E s Hs. destruct (candidate job sub s) eqn:Ec; [|done].
      assert (s ∈ filter (fun s => candidate job sub s) css) as Hin
        by (apply list_elem_of_filter; split; [by apply Is_true_true|done]).
      rewrite E in Hin. by apply elem_of_nil in Hin.
    - intros Hn. destruct (filter _ css) as [|s l] eqn:E; [done|].
      assert (s ∈ filter (fun s => candidate job sub s) css) as Hin by (rewrite E; by left).
      apply list_elem_of_filter in Hin as [Hc Hin]. apply Is_true_true in Hc.
      by rewrite (Hn s Hin) in Hc. }
  destruct (filter_ineligible_servers job sub css) as [|s1 [|s2 l]]; [done|done|].
  split; [|done]. intros E. exfalso.
  destruct alg; try done;
    try (by eapply random_some; [|exact E]); try (by eapply fastest_some; [|exact E]).
  pose proof (round_robin_spec (s1 :: s2 :: l)) as H. by rewrite E in H.
Qed.

(** The round-robin algorithm picks a candidate whose last job is the
    oldest: none of the candidates was given its last job before it. *)
Theorem pick_server_oldest w stats random job sub css p cs :
  j_preferredHost job = ""%string ->
  pick_server ROUND_ROBIN w stats random job sub css = Some (p, cs) ->
  forall q c, (q, c) ∈ css -> candidate job sub (q, c) = true ->
    cs_lastPickId cs <= cs_lastPickId c.
Proof.
  intros Hp. unfold pick_server. destruct (decide _); [done|]. intros E q c Hin Hc.
  assert ((q, c) ∈ filter_ineligible_servers job sub css) as Hf
    by (apply list_elem_of_filter; split; [by apply Is_true_true|done]).
  destruct (filter_ineligible_servers job sub css) as [|s1 [|s2 l]]; [done| |].
  - injection E as ->. apply list_elem_of_singleton in Hf. by injection Hf as -> ->.
  - pose proof (round_robin_spec (s1 :: s2 :: l)) as H. rewrite E in H.
    apply (proj2 H (q, c) Hf).
Qed.

(** A larger weight makes the refresh of statistics more frequent: the gap
    between job ids it takes shrinks strictly from weight 0 to weight 254. *)
Theorem weight_factor_decreasing w :
  0 <= w < 254 -> flt (weight_factor (w + 1)) (weight_factor w) = true.
Proof.
  intros Hw.
  assert (forallb (fun n => flt (weight_factor (Z.of_nat n + 1)) (weight_factor (Z.of_nat n)))
            (seq 0 254) = true) as H by (vm_compute; reflexivity).
  rewrite forallb_forall in H. specialize (H (Z.to_nat w)).
  rewrite Z2Nat.id in H by lia. apply H. apply in_seq. lia.
Qed.

(** ** Witnesses *)

Definition two_servers : list server :=
  [(1%positive, set_cs_lastPickId 5 sample_cs); (3%positive, set_cs_lastPickId 4 sample_cs)].

Lemma pick_server_sound_witness :
  pick_server FASTEST 0 false 7 sample_job sample_cs two_servers
    = Some (3%positive, set_cs_lastPickId 4 sample_cs) /\
  is_eligible_now 3 (set_cs_lastPickId 4 sample_cs) sample_job sample_cs = true.
Proof.
  split; [vm_compute; reflexivity|].
  refine (proj1 (proj2 (pick_server_sound FASTEST 0 false 7 sample_job sample_cs two_servers 3
    (set_cs_lastPickId 4 sample_cs) _))).
  vm_compute. reflexivity.
Defined.

Lemma pick_server_complete_witness :
  pick_server RANDOM 0 false 7 sample_job sample_cs [(1%positive, set_cs_load 1000 sample_cs)] = None.
Proof.
  apply (pick_server_complete RANDOM 0 false 7 sample_job sample_cs
    [(1%positive, set_cs_load 1000 sample_cs)]); [reflexivity|discriminate|].
  repeat constructor.
Defined.

Lemma pick_server_oldest_witness :
  cs_lastPickId (set_cs_lastPickId 4 sample_cs) <= 5.
Proof.
  apply (pick_server_oldest 0 false 7 sample_job sample_cs two_servers 3
    (set_cs_lastPickId 4 sample_cs) eq_refl ltac:(vm_compute; reflexivity)
    1%positive (set_cs_lastPickId 5 sample_cs)).
  - by left.
  - vm_compute. reflexivity.
Defined.

Lemma weight_factor_decreasing_witness : flt (weight_factor 121) (weight_factor 120) = true.
Proof. apply (weight_factor_decreasing 120). lia. Defined.
