(* ===== verification/Scheduler.v ===== *)
(** * The scheduler's state and queue (scheduler/scheduler.cpp)

    The global variables of the scheduler and its heap ([Scheduler]), access
    to objects through their pointers (a pointer to a deleted object is the
    fault [UseAfterFree]), and the queue of job requests. *)

From Stdlib Require Import ZArith Lia.
From Stdlib Require Import Strings.Byte Strings.String.
From stdpp Require Import base tactics option list gmap strings sorting.
From S2P Require Import Prelude MsgChannel CompileJob Msg Interface CompileServer.

#[local] Open Scope Z_scope.

(** ** State *)

(** Job requests from one submitter with one niceness; [g_ptr] is the address
    of the group. *)
Record JobRequestsGroup : Type := mkGroup {
  g_ptr : positive;
  g_l : list ptr;
  g_submitter : ptr;
  g_niceness : Z
}.
Definition set_g_l (v : list ptr) (g : JobRequestsGroup) : JobRequestsGroup :=
  mkGroup (g_ptr g) v (g_submitter g) (g_niceness g).

Record Scheduler : Type := mkScheduler {
  s_servers : gmap positive CompileServer;
  s_heap_jobs : gmap positive Job;
  s_next : positive;
  s_fd2cs : gmap Z positive;
  s_css : list ptr;
  s_monitors : list ptr;
  s_controls : list ptr;
  s_block_css : list string;
  s_new_job_id : Z;
  s_jobs : gmap Z positive;
  s_job_requests : list JobRequestsGroup;
  s_all_job_stats : list JobStat;
  s_cum_job_stats : JobStat;
  s_host_id_counter : Z;
  s_starttime : Z;
  s_now : Z;
  s_random : list Z;
  s_slow : bool
}.

Definition set_s_servers (v : gmap positive CompileServer) (r : Scheduler) : Scheduler :=
  mkScheduler v (r.(s_heap_jobs)) (r.(s_next)) (r.(s_fd2cs)) (r.(s_css))
    (r.(s_monitors)) (r.(s_controls)) (r.(s_block_css)) (r.(s_new_job_id))
    (r.(s_jobs)) (r.(s_job_requests)) (r.(s_all_job_stats))
    (r.(s_cum_job_stats)) (r.(s_host_id_counter)) (r.(s_starttime))
    (r.(s_now)) (r.(s_random)) (r.(s_slow)).
Definition set_s_heap_jobs (v : gmap positive Job) (r : Scheduler) : Scheduler :=
  mkScheduler (r.(s_servers)) v (r.(s_next)) (r.(s_fd2cs)) (r.(s_css))
    (r.(s_monitors)) (r.(s_controls)) (r.(s_block_css)) (r.(s_new_job_id))
    (r.(s_jobs)) (r.(s_job_requests)) (r.(s_all_job_stats))
    (r.(s_cum_job_stats)) (r.(s_host_id_counter)) (r.(s_starttime))
    (r.(s_now)) (r.(s_random)) (r.(s_slow)).
Definition set_s_next (v : positive) (r : Scheduler) : Scheduler :=
  mkScheduler (r.(s_servers)) (r.(s_heap_jobs)) v (r.(s_fd2cs)) (r.(s_css))
    (r.(s_monitors)) (r.(s_controls)) (r.(s_block_css)) (r.(s_new_job_id))
    (r.(s_jobs)) (r.(s_job_requests)) (r.(s_all_job_stats))
    (r.(s_cum_job_stats)) (r.(s_host_id_counter)) (r.(s_starttime))
    (r.(s_now)) (r.(s_random)) (r.(s_slow)).
Definition set_s_fd2cs (v : gmap Z positive) (r : Scheduler) : Scheduler :=
  mkScheduler (r.(s_servers)) (r.(s_heap_jobs)) (r.(s_next)) v (r.(s_css))
    (r.(s_monitors)) (r.(s_controls)) (r.(s_block_css)) (r.(s_new_job_id))
    (r.(s_jobs)) (r.(s_job_requests)) (r.(s_all_job_stats))
    (r.(s_cum_job_stats)) (r.(s_host_id_counter)) (r.(s_starttime))
    (r.(s_now)) (r.(s_random)) (r.(s_slow)).
Definition set_s_css (v : list ptr) (r : Scheduler) : Scheduler :=
  mkScheduler (r.(s_servers)) (r.(s_heap_jobs)) (r.(s_next)) (r.(s_fd2cs)) v
    (r.(s_monitors)) (r.(s_controls)) (r.(s_block_css)) (r.(s_new_job_id))
    (r.(s_jobs)) (r.(s_job_requests)) (r.(s_all_job_stats))
    (r.(s_cum_job_stats)) (r.(s_host_id_counter)) (r.(s_starttime))
    (r.(s_now)) (r.(s_random)) (r.(s_slow)).
Definition set_s_monitors (v : list ptr) (r : Scheduler) : Scheduler :=
  mkScheduler (r.(s_servers)) (r.(s_heap_jobs)) (r.(s_next)) (r.(s_fd2cs))
    (r.(s_css)) v (r.(s_controls)) (r.(s_block_css)) (r.(s_new_job_id))
    (r.(s_jobs)) (r.(s_job_requests)) (r.(s_all_job_stats))
    (r.(s_cum_job_stats)) (r.(s_host_id_counter)) (r.(s_starttime))
    (r.(s_now)) (r.(s_random)) (r.(s_slow)).
Definition set_s_controls (v : list ptr) (r : Scheduler) : Scheduler :=
  mkScheduler (r.(s_servers)) (r.(s_heap_jobs)) (r.(s_next)) (r.(s_fd2cs))
    (r.(s_css)) (r.(s_monitors)) v (r.(s_block_css)) (r.(s_new_job_id))
    (r.(s_jobs)) (r.(s_job_requests)) (r.(s_all_job_stats))
    (r.(s_cum_job_stats)) (r.(s_host_id_counter)) (r.(s_starttime))
    (r.(s_now)) (r.(s_random)) (r.(s_slow)).
Definition set_s_block_css (v : list string) (r : Scheduler) : Scheduler :=
  mkScheduler (r.(s_servers)) (r.(s_heap_jobs)) (r.(s_next)) (r.(s_fd2cs))
    (r.(s_css)) (r.(s_monitors)) (r.(s_controls)) v (r.(s_new_job_id))
    (r.(s_jobs)) (r.(s_job_requests)) (r.(s_all_job_stats))
    (r.(s_cum_job_stats)) (r.(s_host_id_counter)) (r.(s_starttime))
    (r.(s_now)) (r.(s_random)) (r.(s_slow)).
Definition set_s_new_job_id (v : Z) (r : Scheduler) : Scheduler :=
  mkScheduler (r.(s_servers)) (r.(s_heap_jobs)) (r.(s_next)) (r.(s_fd2cs))
    (r.(s_css)) (r.(s_monitors)) (r.(s_controls)) (r.(s_block_css)) v
    (r.(s_jobs)) (r.(s_job_requests)) (r.(s_all_job_stats))
    (r.(s_cum_job_stats)) (r.(s_host_id_counter)) (r.(s_starttime))
    (r.(s_now)) (r.(s_random)) (r.(s_slow)).
Definition set_s_jobs (v : gmap Z positive) (r : Scheduler) : Scheduler :=
  mkScheduler (r.(s_servers)) (r.(s_heap_jobs)) (r.(s_next)) (r.(s_fd2cs))
    (r.(s_css)) (r.(s_monitors)) (r.(s_controls)) (r.(s_block_css))
    (r.(s_new_job_id)) v (r.(s_job_requests)) (r.(s_all_job_stats))
    (r.(s_cum_job_stats)) (r.(s_host_id_counter)) (r.(s_starttime))
    (r.(s_now)) (r.(s_random)) (r.(s_slow)).
Definition set_s_job_requests (v : list JobRequestsGroup) (r : Scheduler) : Scheduler :=
  mkScheduler (r.(s_servers)) (r.(s_heap_jobs)) (r.(s_next)) (r.(s_fd2cs))
    (r.(s_css)) (r.(s_monitors)) (r.(s_controls)) (r.(s_block_css))
    (r.(s_new_job_id)) (r.(s_jobs)) v (r.(s_all_job_stats))
    (r.(s_cum_job_stats)) (r.(s_host_id_counter)) (r.(s_starttime))
    (r.(s_now)) (r.(s_random)) (r.(s_slow)).
Definition set_s_all_job_stats (v : list JobStat) (r : Scheduler) : Scheduler :=
  mkScheduler (r.(s_servers)) (r.(s_heap_jobs)) (r.(s_next)) (r.(s_fd2cs))
    (r.(s_css)) (r.(s_monitors)) (r.(s_controls)) (r.(s_block_css))
    (r.(s_new_job_id)) (r.(s_jobs)) (r.(s_job_requests)) v
    (r.(s_cum_job_stats)) (r.(s_host_id_counter)) (r.(s_starttime))
    (r.(s_now)) (r.(s_random)) (r.(s_slow)).
Definition set_s_cum_job_stats (v : JobStat) (r : Scheduler) : Scheduler :=
  mkScheduler (r.(s_servers)) (r.(s_heap_jobs)) (r.(s_next)) (r.(s_fd2cs))
    (r.(s_css)) (r.(s_monitors)) (r.(s_controls)) (r.(s_block_css))
    (r.(s_new_job_id)) (r.(s_jobs)) (r.(s_job_requests))
    (r.(s_all_job_stats)) v (r.(s_host_id_counter)) (r.(s_starttime))
    (r.(s_now)) (r.(s_random)) (r.(s_slow)).
Definition set_s_host_id_counter (v : Z) (r : Scheduler) : Scheduler :=
  mkScheduler (r.(s_servers)) (r.(s_heap_jobs)) (r.(s_next)) (r.(s_fd2cs))
    (r.(s_css)) (r.(s_monitors)) (r.(s_controls)) (r.(s_block_css))
    (r.(s_new_job_id)) (r.(s_jobs)) (r.(s_job_requests))
    (r.(s_all_job_stats)) (r.(s_cum_job_stats)) v (r.(s_starttime))
    (r.(s_now)) (r.(s_random)) (r.(s_slow)).
Definition set_s_starttime (v : Z) (r : Scheduler) : Scheduler :=
  mkScheduler (r.(s_servers)) (r.(s_heap_jobs)) (r.(s_next)) (r.(s_fd2cs))
    (r.(s_css)) (r.(s_monitors)) (r.(s_controls)) (r.(s_block_css))
    (r.(s_new_job_id)) (r.(s_jobs)) (r.(s_job_requests))
    (r.(s_all_job_stats)) (r.(s_cum_job_stats)) (r.(s_host_id_counter)) v
    (r.(s_now)) (r.(s_random)) (r.(s_slow)).
Definition set_s_now (v : Z) (r : Scheduler) : Scheduler :=
  mkScheduler (r.(s_servers)) (r.(s_heap_jobs)) (r.(s_next)) (r.(s_fd2cs))
    (r.(s_css)) (r.(s_monitors)) (r.(s_controls)) (r.(s_block_css))
    (r.(s_new_job_id)) (r.(s_jobs)) (r.(s_job_requests))
    (r.(s_all_job_stats)) (r.(s_cum_job_stats)) (r.(s_host_id_counter))
    (r.(s_starttime)) v (r.(s_random)) (r.(s_slow)).
Definition set_s_random (v : list Z) (r : Scheduler) : Scheduler :=
  mkScheduler (r.(s_servers)) (r.(s_heap_jobs)) (r.(s_next)) (r.(s_fd2cs))
    (r.(s_css)) (r.(s_monitors)) (r.(s_controls)) (r.(s_block_css))
    (r.(s_new_job_id)) (r.(s_jobs)) (r.(s_job_requests))
    (r.(s_all_job_stats)) (r.(s_cum_job_stats)) (r.(s_host_id_counter))
    (r.(s_starttime)) (r.(s_now)) v (r.(s_slow)).
Definition set_s_slow (v : bool) (r : Scheduler) : Scheduler :=
  mkScheduler (r.(s_servers)) (r.(s_heap_jobs)) (r.(s_next)) (r.(s_fd2cs))
    (r.(s_css)) (r.(s_monitors)) (r.(s_controls)) (r.(s_block_css))
    (r.(s_new_job_id)) (r.(s_jobs)) (r.(s_job_requests))
    (r.(s_all_job_stats)) (r.(s_cum_job_stats)) (r.(s_host_id_counter))
    (r.(s_starttime)) (r.(s_now)) (r.(s_random)) v.

(** The globals as the program starts, at time [t]. *)
Definition initial (t : Z) (slow : bool) : Scheduler :=
  mkScheduler ∅ ∅ 1 ∅ [] [] [] [] 0 ∅ [] [] no_stat 0 t t [] slow.

Abbreviation sched := (M Scheduler).

(** ** The heap *)

(** A fresh address. *)
Definition alloc : sched positive :=
  s ← get; _ ← put (set_s_next (Pos.succ (s_next s)) s); mret (s_next s).

Definition deref_cs (p : ptr) : sched CompileServer :=
  s ← get; need UseAfterFree (s_servers s !! p).
Definition update_cs (p : ptr) (f : CompileServer -> CompileServer) : sched unit :=
  cs ← deref_cs p; modify (fun s => set_s_servers (<[p := f cs]> (s_servers s)) s).

Definition deref_job (j : ptr) : sched Job :=
  s ← get; need UseAfterFree (s_heap_jobs s !! j).
Definition update_job (j : ptr) (f : Job -> Job) : sched unit :=
  job ← deref_job j; modify (fun s => set_s_heap_jobs (<[j := f job]> (s_heap_jobs s)) s).

(** A [CompileServer *] that may be null. *)
Definition deref_server (o : option ptr) : sched (ptr * CompileServer) :=
  p ← need NullDeref o; cs ← deref_cs p; mret (p, cs).

(** [new Job(id, subm)] and [delete job], with what they do to the submitter. *)
Definition create_job (id : Z) (subm : ptr) : sched ptr :=
  j ← alloc;
  _ ← update_cs subm (fun cs => set_cs_submittedJobsCount (cs_submittedJobsCount cs + 1) cs);
  _ ← modify (fun s => set_s_heap_jobs (<[j := new_Job id subm]> (s_heap_jobs s)) s);
  mret j.
Definition delete_job (j : ptr) : sched unit :=
  job ← deref_job j;
  _ ← update_cs (j_submitter job)
        (fun cs => set_cs_submittedJobsCount (cs_submittedJobsCount cs - 1) cs);
  modify (fun s => set_s_heap_jobs (delete j (s_heap_jobs s)) s).

(** [time(nullptr)] and [random()] *)
Definition now : sched Z := gets s_now.
Definition random : sched Z :=
  s ← get;
  match s_random s with
  | [] => mret 0
  | r :: l => _ ← put (set_s_random l s); mret r
  end.

Definition remove_ptr (p : ptr) (l : list ptr) : list ptr := filter (fun q => q <> p) l.

(** The servers of a list with their objects. *)
Fixpoint deref_all (l : list ptr) : sched (list (ptr * CompileServer)) :=
  match l with
  | [] => mret []
  | p :: l => cs ← deref_cs p; r ← deref_all l; mret ((p, cs) :: r)
  end.

(** ** The queue of job requests *)

Definition find_group (p : positive) (q : list JobRequestsGroup) : option JobRequestsGroup :=
  head (filter (fun g => g_ptr g = p) q).

(** [enqueue_job_request]: [j] is the job, [newone] the address of a group
    that may have to be created. *)
Fixpoint enqueue_in (newone : positive) (j submitter : ptr) (niceness : Z)
    (q : list JobRequestsGroup) : list JobRequestsGroup :=
  match q with
  | [] => [mkGroup newone [j] submitter niceness]
  | g :: q' =>
      if bool_decide (g_submitter g = submitter) && (g_niceness g =? niceness)
      then set_g_l (g_l g ++ [j]) g :: q'
      else if niceness <? g_niceness g then mkGroup newone [j] submitter niceness :: q
      else g :: enqueue_in newone j submitter niceness q'
  end.

Definition enqueue_job_request (j : ptr) : sched unit :=
  job ← deref_job j;
  newone ← alloc;
  modify (fun s => set_s_job_requests
    (enqueue_in newone j (j_submitter job) (j_niceness job) (s_job_requests s)) s).

(** [enqueue_job_requests_group] *)
Fixpoint enqueue_group_in (group : JobRequestsGroup) (q : list JobRequestsGroup)
  : list JobRequestsGroup :=
  match q with
  | [] => [group]
  | g :: q' =>
      if g_niceness group <? g_niceness g then group :: q else g :: enqueue_group_in group q'
  end.

(** [JobRequestPosition]: a group and a job of it, [None] when not valid. *)
Definition JobRequestPosition : Type := option (positive * ptr).

Definition get_first_job_request : sched JobRequestPosition :=
  q ← gets s_job_requests;
  match q with
  | [] => mret None
  | first :: _ =>
      match g_l first with
      | [] => throw AssertFailed
      | j :: _ => mret (Some (g_ptr first, j))
      end
  end.

(** What follows the first occurrence of an element. *)
Fixpoint after {A} (P : A -> bool) (l : list A) : option (list A) :=
  match l with
  | [] => None
  | x :: l => if P x then Some l else after P l
  end.

Definition get_next_job_request (pos : positive * ptr) : sched JobRequestPosition :=
  q ← gets s_job_requests;
  group ← need UseAfterFree (find_group pos.1 q);
  rest ← need AssertFailed (after (fun j => bool_decide (j = pos.2)) (g_l group));
  match rest with
  | j :: _ => mret (Some (pos.1, j))
  | [] =>
      groups ← need AssertFailed (after (fun g => bool_decide (g_ptr g = pos.1)) q);
      match groups with
      | [] => mret None
      | g :: _ =>
          match g_l g with
          | [] => throw AssertFailed
          | j :: _ => mret (Some (g_ptr g, j))
          end
      end
  end.

(** [JobRequestsGroup::remove_job]: the first occurrence is erased. *)
Fixpoint erase_first (j : ptr) (l : list ptr) : list ptr :=
  match l with
  | [] => []
  | x :: l => if decide (x = j) then l else x :: erase_first j l
  end.

(** [remove_job_request]: a group that keeps requests goes behind the others
    of its niceness. *)
Definition remove_job_request (pos : positive * ptr) : sched unit :=
  q ← gets s_job_requests;
  group ← need AssertFailed (find_group pos.1 q);
  let q := filter (fun g => g_ptr g <> pos.1) q in
  _ ← assert (bool_decide (pos.2 ∈ g_l group));
  job ← deref_job pos.2;
  _ ← assert (g_niceness group =? j_niceness job);
  let l := erase_first pos.2 (g_l group) in
  modify (set_s_job_requests
    (match l with [] => q | _ => enqueue_group_in (set_g_l l group) q end)).

(** ** Jobs *)

Definition create_new_job (submitter : ptr) : sched ptr :=
  _ ← modify (fun s => set_s_new_job_id (u32 (s_new_job_id s + 1)) s);
  s ← get;
  _ ← assert (bool_decide (s_jobs s !! s_new_job_id s = None));
  job ← create_job (s_new_job_id s) submitter;
  _ ← modify (fun s => set_s_jobs (<[s_new_job_id s := job]> (s_jobs s)) s);
  mret job.
