(* ===== verification/ChannelImpl.v ===== *)
(** * The channels of the programs

    The interface [Channels] of Interface.v, implemented by the engine of
    Transport.v; its laws hold of it. *)

From Stdlib Require Import ZArith Lia.
From Stdlib Require Import Strings.Byte Strings.String.
From stdpp Require Import base tactics option list strings.
From S2P Require Import Prelude MsgChannel CompileJob Msg MsgCodec Interface Transport TransportFacts Connection.

#[local] Open Scope Z_scope.

Section impl.
Context `{Compressors} (platform : string).

Definition transport_channels : Channels := {|
  ch_send := channel_send_msg platform;
  ch_get := channel_get_msg platform;
  ch_read := read_a_bit (set_error platform)
|}.

#[local] Instance same_peer_inv c0 : ChanInv (same_peer c0).
Proof.
  split; intros; unfold chop_input, writefull; repeat case_match; assumption.
Qed.

Lemma same_peer_roomy c0 : roomy (I := same_peer c0).
Proof. by right. Qed.

Lemma same_peer_refl c : same_peer c c.
Proof. by repeat split. Qed.

Lemma get_same_peer t e c m c' : channel_get_msg platform t e c = Ok (m, c') -> same_peer c c'.
Proof.
  intros E. eapply (keeps_channel_get_msg (I := same_peer c)); eauto using same_peer_roomy, same_peer_refl.
Qed.
Lemma read_same_peer c b c' : read_a_bit (set_error platform) c = Ok (b, c') -> same_peer c c'.
Proof.
  intros E. eapply (keeps_read_a_bit (I := same_peer c)); eauto using same_peer_roomy, same_peer_refl.
  intros s. apply keeps_set_error; eauto using same_peer_roomy.
Qed.

(** A new channel has the descriptor it was made for. *)
Lemma createChannel_fd fd addr name now o c :
  createChannel platform fd addr name now o = Ok (Some c) -> c_fd c = fd.
Proof.
  unfold createChannel. destruct (new_channel _ _ _ _ _ _ _) as [c0|] eqn:E0; [|done].
  destruct (wait_for_protocol _ _) as [[[] c1]|] eqn:E; [|done|done]. intros [= <-].
  assert (same_peer c0 c1) as (-> & _).
  { eapply (keeps_wait_for_protocol (I := same_peer c0)); eauto using same_peer_roomy, same_peer_refl.
    intros s. apply keeps_set_error; eauto using same_peer_roomy. }
  unfold new_channel in E0. set (c := mkMsgChannel _ _ _ _ _ _ _ _ _ _ _ _ _ _ _ _ _ _ _) in E0.
  set (init := _ : reader unit) in E0.
  assert (keeps (same_peer c) init) as Hi.
  { subst init. cbv iota. apply keeps_bind.
    { apply keeps_modify. intros c' Hc. unfold writefull. repeat case_match; exact Hc. }
    intros _.
    apply keeps_bind; [apply (keeps_flush (I := same_peer c))|intros ok].
    { intros s. apply keeps_set_error; eauto using same_peer_roomy. }
    apply keeps_when, keeps_bind; [apply keeps_modify; intros c' Hc; exact Hc|intros _].
    apply (keeps_set_error (I := same_peer c)); [intros v c' Hc; exact Hc|apply same_peer_roomy]. }
  clearbody init. destruct (init c) as [[[] c2]|] eqn:E2; [|done]. injection E0 as ->.
  by destruct (Hi _ _ _ (same_peer_refl c) E2) as (-> & _).
Qed.

Lemma transport_laws : @ChannelLaws transport_channels.
Proof.
  split; cbn; intros; eauto using get_same_peer, read_same_peer.
  eapply (keeps_channel_send_msg (I := same_peer c)); eauto using same_peer_roomy, same_peer_refl.
Qed.
End impl.

(** A channel of protocol 45 on which messages have arrived, for samples. *)
Definition sample_channel `{Compressors} (fd : Z) (name : string) (msgs : list Msg) : MsgChannel :=
  mkMsgChannel fd 45 45 name 0 [] 128 0 0 [] 128 0 NEED_LEN 0 false false [] false
    (mkIo [ReadData (concat (map (frame 45) msgs))] [] [] EAGAIN [] false).

Section samples.
#[local] Existing Instance store_compressors.
(** Sends succeed; what arrives is read as in Transport.v. *)
Definition client_channels : Channels := {|
  ch_send := fun _ _ c => Ok (true, c);
  ch_get := fun t e c => match channel_get_msg "x86_64" t e c with
                         | Ok r => Ok r
                         | Fault _ => Ok (None, c)
                         end;
  ch_read := fun c => Ok (true, c)
|}.
Lemma client_returns : @ChannelsReturn client_channels.
Proof. intros m flags c. by do 2 eexists. Qed.
Lemma client_answers : @ChannelsAnswer client_channels.
Proof.
  intros t e c. unfold ch_get, client_channels. destruct (channel_get_msg _ _ _ _) as [[m c']|f]; by do 2 eexists.
Qed.
End samples.
