(* ===== verification/SearchFacts.v ===== *)
(** * The search for a scheduler: what holds

    The search loses no descriptor and closes only its own; it connects to the
    best scheduler that has answered; a search whose broadcast could not be sent
    ends the daemon; the search for network names ends. *)

From Stdlib Require Import ZArith Lia.
From Stdlib Require Import Strings.Byte Strings.String.
From stdpp Require Import base tactics option list gmap sets strings fin_sets pretty.
From S2P Require Import Prelude MsgChannel Msg MsgCodec Interface Transport ChannelImpl Discovery Sockets Searching.

#[local] Open Scope Z_scope.

(** ** From a set of states to results and states *)

Definition ends {A} (P : Sockets -> Prop) (m : net A) (Q : A -> Sockets -> Prop) : Prop :=
  forall s r s', P s -> m s = Ok (r, s') -> Q r s'.

Lemma ends_ret {A} (P : Sockets -> Prop) (a : A) (Q : A -> Sockets -> Prop) :
  (forall s, P s -> Q a s) -> ends P (mret a) Q.
Proof. intros HQ s r s' HP [= <- <-]. auto. Qed.

Lemma ends_seq {A B} P (m : net A) (k : A -> net B) R Q :
  ends P m R -> (forall a, ends (R a) (k a) Q) -> ends P (m ≫= k) Q.
Proof.
  intros Hm Hk s r s' HP E. apply bind_inv in E as (a & s1 & E1 & E2).
  eapply Hk; [|exact E2]. eapply Hm; eauto.
Qed.

Lemma ends_weaken {A} (P P' : Sockets -> Prop) (m : net A) (Q' Q : A -> Sockets -> Prop) :
  ends P' m Q' -> (forall s, P s -> P' s) -> (forall a s, Q' a s -> Q a s) -> ends P m Q.
Proof. intros Hm HP HQ s r s' Hs E. eapply HQ, Hm; eauto. Qed.

Lemma ends_pre {A} (P P' : Sockets -> Prop) (m : net A) (Q : A -> Sockets -> Prop) :
  ends P' m Q -> (forall s, P s -> P' s) -> ends P m Q.
Proof. intros Hm HP. eapply ends_weaken; eauto. Qed.

Lemma ends_use {A} P (m : net A) Q s r s' : P s -> m s = Ok (r, s') -> ends P m Q -> Q r s'.
Proof. intros HP E Hm. eauto. Qed.

Lemma ends_fact {A} (F : Prop) P (m : net A) Q : (F -> ends P m Q) -> ends (fun s => F /\ P s) m Q.
Proof. intros Hm s r s' [HF HP] E. eapply Hm; eauto. Qed.

Lemma ends_throw {A} P e (Q : A -> Sockets -> Prop) : ends P (throw e) Q.
Proof. by intros s r s' HP E. Qed.

Lemma ends_assert b P : ends P (assert b) (fun _ s => b = true /\ P s).
Proof. destruct b; [apply ends_ret|apply ends_throw]; auto. Qed.

(** ** Descriptors *)

(** The lowest free number is free: [n] up to [n + size used] cannot all be used. *)
Lemma lowest_from_free fuel n (used : gset Z) :
  (size (filter (fun x => n <= x)%Z used) <= fuel)%nat -> n <= lowest_from fuel n used /\ lowest_from fuel n used ∉ used.
Proof.
  revert n. induction fuel as [|fuel IH]; intros n Hs; cbn [lowest_from].
  - split; [lia|]. intros Hn.
    assert (n ∈ filter (fun x => n <= x) used) as Hf by (apply elem_of_filter; split; [lia|done]).
    assert (filter (fun x => n <= x) used ≡ ∅) as He by (apply size_empty_inv; lia).
    rewrite He in Hf. by apply elem_of_empty in Hf.
  - case_decide as Hn; [|split; [lia|done]].
    destruct (IH (n + 1)) as [Hle Hno]; [|split; [lia|done]].
    enough (size (filter (fun x => n + 1 <= x)%Z used) < size (filter (fun x => n <= x)%Z used))%nat by lia.
    apply subset_size. split.
    + intros x. rewrite !elem_of_filter. intros [??]. split; [lia|done].
    + intros Hsub. assert (n ∈ filter (fun x => n + 1 <= x) used) as Hf
        by (apply Hsub, elem_of_filter; split; [lia|done]).
      apply elem_of_filter in Hf as [? _]. lia.
Qed.

Lemma lowest_free_free used : 0 <= lowest_free used /\ lowest_free used ∉ used.
Proof. apply lowest_from_free. apply subseteq_size. intros x. rewrite elem_of_filter. tauto. Qed.

(** What a variable that may hold a descriptor owns. *)
Definition own (fd : Z) : gset Z := if 0 <=? fd then {[fd]} else ∅.
Definition frame (b : gset Z) (s : Sockets) : Prop :=
  so_open s = b /\ forall x, x ∈ b -> 0 <= x.

Lemma own_nonneg fd : 0 <= fd -> own fd = {[fd]}.
Proof. intros Hfd. unfold own. by rewrite (proj2 (Z.leb_le _ _) Hfd). Qed.
Lemma own_none fd : fd < 0 -> own fd = ∅.
Proof. intros Hfd. unfold own. by rewrite (proj2 (Z.leb_gt _ _) Hfd). Qed.

(** A variable without a descriptor; one that gets the lowest number. *)
Lemma frame_none b s : frame b s -> frame (own (-1) ∪ b) s /\ own (-1) ## b /\ -1 <= -1.
Proof.
  intros Hs. rewrite own_none by lia. rewrite (left_id_L ∅ (∪)). split; [done|].
  split; [apply disjoint_empty_l|lia].
Qed.
Lemma frame_new used : (forall x, x ∈ used -> 0 <= x) ->
  let fd := lowest_free used in
  {[fd]} ∪ used = own fd ∪ used /\ (forall x, x ∈ own fd ∪ used -> 0 <= x) /\ own fd ## used /\ -1 <= fd.
Proof.
  intros Hb fd. destruct (lowest_free_free used) as [Hr Hf]. fold fd in Hr, Hf. clearbody fd.
  rewrite own_nonneg by done. split; [done|].
  split; [intros x [->%elem_of_singleton|Hx]%elem_of_union; auto|].
  split; [by apply disjoint_singleton_l|lia].
Qed.
Lemma own_closed fd b :
  own fd ## b -> -1 <= fd -> (forall x, x ∈ own fd ∪ b -> 0 <= x) -> (own fd ∪ b) ∖ {[fd]} = b.
Proof.
  intros Hd Hfd Hb. apply set_eq. intros x. rewrite elem_of_difference, elem_of_union, elem_of_singleton.
  revert Hd Hb. unfold own. destruct (0 <=? fd) eqn:E; boolify; intros Hd Hb.
  - rewrite elem_of_singleton. specialize (Hd x). rewrite elem_of_singleton in Hd. tauto.
  - rewrite elem_of_empty. split; [tauto|]. intros Hx. split; [tauto|]. intros ->.
    enough (0 <= fd) by lia. apply Hb, elem_of_union. by right.
Qed.

Lemma union_comm_lr (a b c : gset Z) : a ∪ (b ∪ c) = b ∪ (a ∪ c).
Proof. rewrite !(assoc_L (∪)). by rewrite (comm_L (∪) a b). Qed.

Section facts.
Context `{Compressors, Network}.

Lemma ends_ask {A} (q : nat -> A) b : ends (frame b) (ask_net q) (fun _ => frame b).
Proof. by intros s r s' HP [= <- <-]. Qed.
Lemma ends_note e b : ends (frame b) (note e) (fun _ => frame b).
Proof. by intros s r s' HP [= <- <-]. Qed.
Lemma ends_gets {A} (f : Sockets -> A) b : ends (frame b) (gets f) (fun _ => frame b).
Proof. by intros s r s' HP [= <- <-]. Qed.
Lemma ends_nonblocking fd b : ends (frame b) (set_nonblocking fd) (fun _ => frame b).
Proof. by intros s r s' HP [= <- <-]. Qed.
Lemma ends_waiting fd l b : ends (frame b) (leave_waiting fd l) (fun _ => frame b).
Proof. by intros s r s' HP [= <- <-]. Qed.

(** A descriptor that comes, and one that goes. *)
Definition gained (b : gset Z) (fd : Z) (s : Sockets) : Prop :=
  frame (own fd ∪ b) s /\ own fd ## b /\ -1 <= fd.

Lemma ends_open_socket b : ends (frame b) open_socket (gained b).
Proof.
  eapply ends_seq; [apply ends_ask|]. intros made. destruct made; cbn [negb].
  - intros s r s' [Eo Hb] [= <- <-]. unfold gained, frame. cbn. rewrite Eo in *.
    destruct (frame_new b Hb) as (-> & Hn & Hd & Hr). auto.
  - apply ends_ret. apply frame_none.
Qed.

Lemma ends_close fd b : own fd ## b -> -1 <= fd -> ends (frame (own fd ∪ b)) (close_fd fd) (fun _ => frame b).
Proof.
  intros Hd Hfd s [] s' [Eo Hb] [= <-]. split; cbn; [rewrite Eo; by apply own_closed|].
  intros x Hx. apply Hb, elem_of_union. by right.
Qed.

(** Closing what was opened and returning -1. *)
Lemma ends_give_up {A} fd b (a : A) (Q : A -> Sockets -> Prop) :
  (forall s, frame b s -> Q a s) ->
  ends (gained b fd) (_ ← close_fd fd; mret a) Q.
Proof.
  intros HQ s r s' (Hs & Hd & Hfd) E. eapply (ends_use _ _ _ _ _ _ Hs E). apply (ends_seq _ _ _ (fun _ => frame b)).
  - by apply ends_close.
  - intros _. by apply ends_ret.
Qed.
Lemma ends_ask_gained {A} (q : nat -> A) b fd : ends (gained b fd) (ask_net q) (fun _ => gained b fd).
Proof. intros s r s' (Hs & Hd) [= <- <-]. by split. Qed.

(** Steps that leave the descriptors alone. *)
Lemma ends_then {A B} b (m : net A) (k : A -> net B) Q :
  ends (frame b) m (fun _ => frame b) -> (forall a, ends (frame b) (k a) Q) -> ends (frame b) (m ≫= k) Q.
Proof. intros Hm Hk. eapply ends_seq; [exact Hm|done]. Qed.
Lemma ends_gained {A B} b (m : net A) (k : A -> net B) fd Q :
  ends (gained b fd) m (fun _ => gained b fd) -> (forall a, ends (gained b fd) (k a) Q) ->
  ends (gained b fd) (m ≫= k) Q.
Proof. intros Hm Hk. eapply ends_seq; [exact Hm|done]. Qed.

Lemma ends_prepare_connect h p e b :
  ends (frame b) (prepare_connect h p e) (fun r => gained b r.1).
Proof.
  eapply ends_seq; [apply ends_open_socket|]. intros fd. destruct (fd <? 0) eqn:E.
  { apply ends_ret. intros s (Hs & _ & _). boolify. apply frame_none.
    rewrite own_none, (left_id_L ∅ (∪)) in Hs by done. done. }
  eapply ends_gained; [apply ends_ask_gained|]. intros [a|].
  - destruct (negb _); [apply ends_give_up, frame_none|by apply ends_ret].
  - apply ends_give_up, frame_none.
Qed.

Context (interfaces_listed : forall n, net_ifaddrs n <> None).

Lemma ends_open_send_broadcast port buf b : ends (frame b) (open_send_broadcast port buf) (gained b).
Proof.
  eapply ends_seq; [apply ends_open_socket|]. intros fd. destruct (fd <? 0) eqn:E.
  { apply ends_ret. intros s (Hs & _ & _). boolify. apply frame_none.
    rewrite own_none, (left_id_L ∅ (∪)) in Hs by done. done. }
  eapply ends_gained; [apply ends_ask_gained|]. intros ok1.
  destruct (negb ok1); [apply ends_give_up, frame_none|].
  eapply ends_gained; [apply ends_ask_gained|]. intros ok2.
  destruct (negb ok2); [apply ends_give_up, frame_none|].
  apply ends_seq with (R := fun a s => a <> None /\ gained b fd s).
  { intros s r s' (Hs & Hd) [= <- <-]. split; [apply interfaces_listed|by split]. }
  intros [addrs|]; apply ends_fact; [intros _|done].
  eapply ends_gained; [|intros _; by apply ends_ret].
  induction (omap broadcast_of addrs) as [|a l IH]; [by apply ends_ret|]. cbn [for_each].
  eapply ends_gained; [|intros _; apply IH]. intros s r s' (Hs & Hd) [= <- <-]. by split.
Qed.

(** ** The object *)

Definition holds (b : gset Z) (f : Search) (s : Sockets) : Prop :=
  gained (own (se_ask_second_fd f) ∪ b) (se_ask_fd f) s /\
  own (se_ask_second_fd f) ## b /\ -1 <= se_ask_second_fd f.

Lemma ends_holds {A} b f (m : net A) Q :
  (own (se_ask_second_fd f) ## b -> -1 <= se_ask_second_fd f ->
   ends (gained (own (se_ask_second_fd f) ∪ b) (se_ask_fd f)) m Q) ->
  ends (holds b f) m Q.
Proof. intros Hm s r s' (Hs & Hd & Hr) E. by eapply Hm. Qed.

Definition chan_fd (c : option MsgChannel) : Z := default (-1) (c_fd <$> c).

(** A call that may make a channel and leaves an object. *)
Definition made (b : gset Z) (r : option MsgChannel * Search) (s : Sockets) : Prop :=
  holds (own (chan_fd r.1) ∪ b) r.2 s /\ own (chan_fd r.1) ## b.

Lemma made_none b f s : holds b f s -> made b (None, f) s.
Proof.
  intros Hs. unfold made. cbn [fst snd]. change (chan_fd None) with (-1).
  rewrite own_none, (left_id_L ∅ (∪)) by lia. split; [done|apply disjoint_empty_l].
Qed.

Lemma ends_attempt b f :
  own (se_ask_second_fd f) ## b -> -1 <= se_ask_second_fd f ->
  ends (frame (own (se_ask_second_fd f) ∪ b)) (attempt_scheduler_connect f) (holds b).
Proof.
  intros Hd Hr. apply ends_then; [apply ends_ask|]. intros t.
  eapply ends_seq; [apply ends_prepare_connect|]. intros [fd remote]. cbn [fst].
  eapply ends_gained; [destruct (0 <=? fd); [|by apply ends_ret]|].
  { intros s r s' (Hs & Hg) [= <- <-]. by split. }
  intros _. apply ends_ret. intros s Hs. by split.
Qed.

Lemma ends_sendSchedulerDiscovery v b f :
  se_ask_second_fd f = -1 -> ends (frame b) (sendSchedulerDiscovery v f) (holds b).
Proof.
  intros E2. eapply ends_seq; [apply ends_assert|]. intros u. apply ends_fact. intros _.
  eapply ends_seq; [apply ends_open_send_broadcast|]. intros fd. cbv zeta. destruct (0 <? _).
  - intros s r s' (Hs & Hd & Hr) E. eapply (ends_use _ _ _ _ _ _ Hs E).
    eapply ends_seq; [apply ends_open_send_broadcast|]. intros fd2. apply ends_ret.
    intros s1 (Hs1 & Hd1 & Hr1). apply disjoint_union_r in Hd1 as [Hd1 Hd2].
    split; [|by split]. cbn. split; [|split; [|done]].
    + by rewrite union_comm_lr.
    + apply disjoint_union_r. by split; [symmetry|].
  - apply ends_ret. intros s Hs. unfold holds. cbn. rewrite E2, own_none, (left_id_L ∅ (∪)) by lia.
    split; [done|]. split; [apply disjoint_empty_l|done].
Qed.

Lemma ends_new_Search n t h p b : ends (frame b) (new_Search n t h p) (holds b).
Proof.
  apply ends_then; [apply ends_ask|]. intros time0. cbv zeta. destruct (unnamed _).
  - by apply ends_sendSchedulerDiscovery.
  - eapply ends_pre; [apply ends_attempt; cbn; [apply disjoint_empty_l|done]|].
    intros s Hs. cbn. by rewrite (left_id_L ∅ (∪)).
Qed.

Lemma ends_close_own b fd s s' :
  gained b fd s -> close_fd fd s = Ok (tt, s') -> frame b s'.
Proof. intros (Hs & Hd & Hr) E. by eapply ends_close. Qed.

Lemma ends_close_if b fd : ends (gained b fd) (when (0 <=? fd) (close_fd fd)) (fun _ => frame b).
Proof.
  destruct (0 <=? fd) eqn:E; cbn [when].
  - intros s [] s' Hs Es. by eapply ends_close_own.
  - apply ends_ret. boolify. intros s (Hs & _). by rewrite own_none, (left_id_L ∅ (∪)) in Hs.
Qed.

Lemma ends_delete_Search b f : ends (holds b f) (delete_Search f) (fun _ => frame b).
Proof.
  apply ends_holds. intros Hd Hr. eapply ends_seq; [apply ends_close_if|]. intros u.
  eapply ends_pre; [apply ends_close_if|]. intros s1 Hs1. by split.
Qed.

(** *** The calls *)

Lemma ends_create_channel b fd e :
  0 <= fd -> ends (gained b fd) (create_channel fd e) (fun c => gained b (chan_fd c)).
Proof.
  intros Hfd. eapply ends_gained; [apply ends_ask_gained|]. intros now.
  eapply ends_gained; [apply ends_ask_gained|]. intros o.
  apply (ends_gained _ _ _ fd); [intros s r s' (Hs & Hd) [= <- <-]; by split|]. intros _. cbv zeta.
  destruct (createChannel _ _ _ _ _ _) as [[c|]|] eqn:E; [| |apply ends_throw].
  - apply createChannel_fd in E as Ec. apply ends_ret. intros s Hs. unfold chan_fd. cbn. by rewrite Ec.
  - apply ends_give_up, frame_none.
Qed.

Lemma ends_connect_search b good f :
  0 <= se_ask_fd f -> ends (holds b f) (connect_search good f) (made b).
Proof.
  intros Hf s r s' (Hs & Hd & Hr) E. eapply (ends_use _ _ (made b) _ _ _ Hs E).
  apply ends_gained; [intros s1 u s2 (H1 & H2) [= <- <-]; by split|]. intros st.
  destruct (good st); [|apply ends_ret; intros s1 Hs1; apply made_none; by split].
  eapply ends_seq; [by apply ends_create_channel|]. intros c. apply ends_ret.
  intros s1 (Hs1 & Hd1 & Hr1). apply disjoint_union_r in Hd1 as [Hd1 Hd2].
  split; [split; [|split; [|done]]|done].
  - cbn [fst snd]. change (se_ask_second_fd (set_se_ask_fd (-1) f)) with (se_ask_second_fd f).
    change (se_ask_fd (set_se_ask_fd (-1) f)) with (-1). apply frame_none. by rewrite union_comm_lr.
  - apply disjoint_union_r. by split; [symmetry|].
Qed.

Lemma ends_datagrams fd b : ends (frame b) (datagrams fd) (fun _ => frame b).
Proof. by intros s r s' HP [= <- <-]. Qed.

(** Reading answers only changes what is known of schedulers. *)
Definition same_sockets (f f' : Search) : Prop :=
  se_ask_fd f' = se_ask_fd f /\ se_ask_second_fd f' = se_ask_second_fd f /\
  se_timeout f' = se_timeout f /\ se_remote f' = se_remote f.

Lemma ends_read_answers b f :
  ends (frame b) (read_answers f) (fun r s => (same_sockets f r.2 /\ 0 < se_ask_fd f) /\ frame b s).
Proof.
  eapply ends_seq; [apply ends_assert|]. intros u. apply ends_fact. intros Ha.
  apply ends_then; [apply ends_datagrams|]. intros s1.
  apply ends_then.
  { destruct (_ =? -1); [by apply ends_ret|].
    eapply ends_seq; [apply ends_assert|]. intros u2. apply ends_fact. intros _.
    by intros s r s' HP [= <- <-]. }
  intros s2. apply ends_then; [by intros s r s' HP [= <- <-]|]. intros expired.
  destruct (choose_scheduler _ _ _ _) as [[[d s1'] s2']|e]; [|apply ends_throw].
  apply ends_then; [apply ends_waiting|]. intros _.
  apply ends_then; [destruct s2'; [apply ends_waiting|by apply ends_ret]|]. intros _.
  apply ends_ret. intros s Hs. boolify. split; [split; [by repeat split|done]|done].
Qed.

Lemma ends_drop_broadcasts b f :
  ends (holds b f) (drop_broadcasts f)
    (fun f' s => (se_ask_fd f' = -1 /\ se_ask_second_fd f' = -1) /\ frame b s).
Proof.
  apply ends_holds. intros Hd Hr. apply ends_seq with (R := fun _ => frame (own (se_ask_second_fd f) ∪ b)).
  { intros s1 [] s2 Hs1 E1. by eapply ends_close_own. }
  intros u. cbv zeta. destruct (0 <? _).
  - eapply ends_seq; [by apply ends_close|]. intros v. by apply ends_ret.
  - eapply ends_seq; [apply ends_assert|]. intros v. apply ends_fact. intros E2.
    apply ends_ret. change (se_ask_second_fd (set_se_ask_fd (-1) f)) with (se_ask_second_fd f) in *.
    boolify. intros s1 Hs1. rewrite E2, own_none, (left_id_L ∅ (∪)) in Hs1 by done. done.
Qed.

Lemma ends_try_get_scheduler b f : ends (holds b f) (try_get_scheduler f) (made b).
Proof.
  unfold try_get_scheduler. destruct (unnamed f).
  - apply ends_seq with (R := fun r => holds b r.2).
    { intros s r s' (Hs & Hd & Hr) E. destruct Hs as (Hs & Hd' & Hr').
      destruct (ends_use _ _ _ _ _ _ Hs E (ends_read_answers _ _)) as ((Hsame & _) & Hf).
      destruct Hsame as (Ea & E2 & _). unfold holds, gained. by rewrite Ea, E2. }
    intros [expired f1]. cbn [snd]. destruct (_ || _); [apply ends_ret, made_none|].
    eapply ends_seq; [apply ends_drop_broadcasts|]. intros f2. apply ends_fact. intros [Ea E2].
    apply ends_seq with (R := holds b).
    { eapply ends_pre; [apply ends_attempt|]; rewrite E2, ?own_none by lia;
        [apply disjoint_empty_l|done|]. intros s Hs. by rewrite (left_id_L ∅ (∪)). }
    intros f3. destruct (0 <=? se_ask_fd f3) eqn:E; [|apply ends_ret, made_none].
    boolify. by apply ends_connect_search.
  - destruct (0 <=? se_ask_fd f) eqn:E; [|apply ends_ret, made_none].
    eapply ends_seq; [apply ends_assert|]. intros u. apply ends_fact. intros _.
    boolify. by apply ends_connect_search.
Qed.

(** What the daemon keeps. *)
Definition kept (b : gset Z) (o : option Search) (s : Sockets) : Prop :=
  match o with Some f => holds b f s | None => frame b s end.
Definition searched (b : gset Z) (r : option MsgChannel * option Search) (s : Sockets) : Prop :=
  kept (own (chan_fd r.1) ∪ b) r.2 s /\ own (chan_fd r.1) ## b /\ (r.1 <> None -> r.2 = None).

Lemma searched_none b o s : kept b o s -> searched b (None, o) s.
Proof.
  intros Hs. unfold searched. cbn [fst snd]. change (chan_fd None) with (-1).
  rewrite own_none, (left_id_L ∅ (∪)) by lia. split; [done|]. split; [apply disjoint_empty_l|done].
Qed.

Lemma ends_search w b o : ends (kept b o) (search w o) (searched b).
Proof.
  assert (ends (frame b) (f ← new_Search (w_netname w) (w_pong w) (w_schedname w) (w_port w);
                          mret (None, Some f)) (searched b)) as Hfresh.
  { eapply ends_seq; [apply ends_new_Search|]. intros f. apply ends_ret.
    intros s Hs. by apply searched_none. }
  unfold search. cbv zeta. destruct o as [f|]; [|exact Hfresh].
  eapply ends_seq; [apply ends_try_get_scheduler|]. intros [[c|] f1].
  - intros s r s' [Hs Hd] E. apply bind_inv in E as ([] & s1 & E1 & [= <- <-]).
    split; [by eapply ends_delete_Search|done].
  - eapply ends_pre with (P' := holds b f1).
    2:{ unfold made. cbn [fst snd]. change (chan_fd None) with (-1).
        rewrite own_none, (left_id_L ∅ (∪)) by lia. by intros s [Hs _]. }
    eapply ends_seq with (R := fun _ => holds b f1).
    { intros s r s' Hs [= <- <-]. exact Hs. }
    intros over. destruct over; [|apply ends_ret; intros s Hs; by apply searched_none].
    eapply ends_seq; [apply ends_delete_Search|]. intros u. exact Hfresh.
Qed.

Lemma ends_search_rounds rounds w b o : ends (kept b o) (search_rounds rounds w o) (searched b).
Proof.
  revert o. induction rounds as [|rounds IH]; intros o; cbn [search_rounds].
  - apply ends_ret. apply searched_none.
  - eapply ends_seq; [apply ends_search|]. intros [[c|] o1]; cbn [fst snd]; [by apply ends_ret|].
    eapply ends_pre; [apply IH|]. unfold searched. cbn [fst snd]. change (chan_fd None) with (-1).
    intros s (Hs & _). by rewrite own_none, (left_id_L ∅ (∪)) in Hs by lia.
Qed.

Definition descriptors (o : option Search) : gset Z :=
  match o with Some f => own (se_ask_fd f) ∪ own (se_ask_second_fd f) | None => ∅ end.

(** C37: the search loses no descriptor and closes none but its own: after any
    rounds of it, begun without an object, the open descriptors are those from
    before, those the object knows, and that of the channel; the object is gone
    when there is a channel. It assumes that the interfaces can be listed. *)
Theorem search_descriptors rounds w s c o s' :
  (forall x, x ∈ so_open s -> 0 <= x) ->
  search_rounds rounds w None s = Ok ((c, o), s') ->
  so_open s' = own (chan_fd c) ∪ (descriptors o ∪ so_open s) /\
  own (chan_fd c) ## so_open s /\ descriptors o ## so_open s /\
  (c <> None -> o = None).
Proof.
  intros Hs E. destruct (ends_search_rounds rounds w (so_open s) None s _ s' (conj eq_refl Hs) E)
    as (Hk & Hd & Hn). cbn [fst snd] in *. destruct o as [f|]; cbn [descriptors kept] in *.
  - destruct Hk as (([-> _] & Hd1 & _) & Hd2 & _).
    destruct c as [c|]; [by specialize (Hn ltac:(done))|]. change (chan_fd None) with (-1) in *.
    rewrite (own_none (-1)), (left_id_L ∅ (∪)) in Hd1, Hd2 by lia.
    rewrite (own_none (-1)), !(left_id_L ∅ (∪)), (assoc_L (∪)) by lia.
    split; [done|]. split; [apply disjoint_empty_l|]. split; [|done].
    apply disjoint_union_r in Hd1 as [_ Hd1]. by apply disjoint_union_l.
  - destruct Hk as [-> _]. rewrite (left_id_L ∅ (∪)). split; [done|]. split; [done|].
    split; [apply disjoint_empty_l|done].
Qed.
End facts.

Lemma bind_ask_net {A B} `{Network} (q : nat -> A) (k : A -> net B) s :
  (ask_net q ≫= k) s = k (q (so_asked s)) (set_so_asked (S (so_asked s)) s).
Proof. done. Qed.

(** ** A broadcast that could not be sent *)

Section broken.
Context `{Compressors, Network}.

Lemma closed_fd_runs {A} fd (a : A) s : exists s', (_ ← close_fd fd; mret a) s = Ok (a, s').
Proof. by eexists. Qed.

Lemma no_broadcast port buf s :
  (forall n, net_socket n = false) \/ (forall n, net_ifaddrs n = None) ->
  exists s', open_send_broadcast port buf s = Ok (-1, s').
Proof.
  intros Hn. unfold open_send_broadcast, open_socket. rewrite bind_assoc.
  unfold mbind, M_bind, ask_net, mbind, M_bind. cbn.
  destruct (net_socket _) eqn:Es; cbn; [|by eexists].
  destruct Hn as [Hn|Hn]; [by rewrite Hn in Es|].
  destruct (lowest_free_free (so_open s)) as [Hr _].
  rewrite (proj2 (Z.ltb_ge _ _) Hr). cbn.
  destruct (net_fcntl _); cbn; [|by eexists]. destruct (net_setsockopt _); cbn; [|by eexists].
  rewrite Hn. by eexists.
Qed.

Lemma send_broken f s :
  (forall n, net_socket n = false) \/ (forall n, net_ifaddrs n = None) ->
  exists f' s', sendSchedulerDiscovery PROTOCOL_VERSION f s = Ok (f', s') /\
    se_disc f' = se_disc f /\ se_ask_fd f' = -1.
Proof.
  intros Hn. unfold sendSchedulerDiscovery. rewrite bind_assert by done.
  edestruct no_broadcast as (s1 & E1); [exact Hn|]. rewrite (bind_ok _ _ _ _ _ E1). cbv zeta.
  destruct (0 <? _); [|by do 2 eexists].
  edestruct no_broadcast as (s2 & E2); [exact Hn|]. rewrite (bind_ok _ _ _ _ _ E2). by do 2 eexists.
Qed.

Lemma new_Search_broken n t p s :
  net_scheduler = None ->
  (forall n, net_socket n = false) \/ (forall n, net_ifaddrs n = None) ->
  exists f s', new_Search n t "" p s = Ok (f, s') /\ unnamed f = true /\ se_ask_fd f = -1.
Proof.
  intros Ee Hn. unfold new_Search. rewrite bind_ask_net, Ee. cbv zeta.
  set (f := mkSearch _ _ _ _ _ _). assert (unnamed f = true) as Eu by done. rewrite Eu.
  destruct (send_broken f (set_so_asked (S (so_asked s)) s) Hn) as (f' & s' & -> & Ed & Ea).
  do 2 eexists. split; [done|]. split; [|done]. unfold unnamed. by rewrite Ed.
Qed.

(** C38: a daemon that is to find its scheduler by broadcast, on a machine where no
    socket can be made or the interfaces cannot be listed, does not go on without
    one: the object is made without a descriptor, and the next look for answers
    fails the assertion of [get_broad_answer]. *)
Theorem failed_broadcast_aborts rounds w s :
  w_schedname w = ""%string -> net_scheduler = None ->
  (forall n, net_socket n = false) \/ (forall n, net_ifaddrs n = None) ->
  search_rounds (S (S rounds)) w None s = Fault AssertFailed.
Proof.
  intros Ew Ee Hn. cbn [search_rounds search]. rewrite Ew.
  destruct (new_Search_broken (w_netname w) (w_pong w) (w_port w) s Ee Hn) as (f & s1 & E & Eu & Ea).
  rewrite bind_assoc, (bind_ok _ _ _ _ _ E), bind_ret_l. cbn [fst snd].
  unfold mbind, M_bind. cbn [search]. unfold mbind, M_bind.
  unfold try_get_scheduler. rewrite Eu. unfold read_answers. by rewrite Ea.
Qed.
End broken.

(** ** The best scheduler *)

Section best.
Context `{Compressors, Network}.
Context (one_port : net_test_ports = None).
Context (sockets_made : forall n, net_socket n = true).
(** A name that stands for an address. *)
Definition resolves (h : string) (a : list byte) : Prop :=
  length a = 4%nat /\ forall n, net_resolve n h = Some a.

(** Where the datagrams on the descriptor of the broadcast come from. *)
Definition to_read (f : Search) (s : Sockets) : list packet :=
  default [] (so_waiting s !! se_ask_fd f) ++ net_arrived (so_asked s) (se_ask_fd f).

Lemma no_second_port port : get_second_port_for_debug port = -1.
Proof. unfold get_second_port_for_debug. rewrite one_port. by destruct (port =? 0). Qed.

Lemma prepare_resolved h a p e s :
  resolves h a ->
  exists fd s', prepare_connect h p e s = Ok ((fd, Inet a (p mod 2 ^ 16)), s') /\
    0 <= fd /\ so_effects s' = so_effects s.
Proof.
  intros [Ha Hres]. unfold prepare_connect, open_socket. rewrite bind_assoc, bind_ask_net, sockets_made.
  cbn [negb]. rewrite bind_assoc, bind_gets, bind_assoc, bind_modify, bind_ret_l.
  cbn [so_open set_so_asked]. destruct (lowest_free_free (so_open s)) as [Hr _].
  rewrite (proj2 (Z.ltb_ge _ _) Hr), bind_ask_net, Hres, Ha.
  by do 2 eexists.
Qed.

Lemma attempt_resolved f a s :
  resolves (d_schedname (se_disc f)) a ->
  exists f' s', attempt_scheduler_connect f s = Ok (f', s') /\ 0 <= se_ask_fd f' /\
    se_remote f' = Inet a (d_sport (se_disc f) mod 2 ^ 16) /\ so_effects s' = so_effects s.
Proof.
  intros Ha. unfold attempt_scheduler_connect. rewrite bind_ask_net. cbv zeta.
  cbn [se_disc set_se_time0 se_remote].
  destruct (prepare_resolved _ a (d_sport (se_disc f) mod 2 ^ 16) (se_remote f)
              (set_so_asked (S (so_asked s)) s) Ha) as (fd & s1 & E1 & Hfd & Ee).
  rewrite (bind_ok _ _ _ _ _ E1). rewrite (proj2 (Z.leb_le _ _) Hfd).
  do 2 eexists. split; [reflexivity|]. cbn. by rewrite Zmod_mod.
Qed.

Lemma drop_single f s :
  se_ask_second_fd f = -1 ->
  exists s', drop_broadcasts f s = Ok (set_se_ask_fd (-1) f, s') /\ so_effects s' = so_effects s.
Proof.
  intros E2. unfold drop_broadcasts. rewrite no_second_port. cbn [Z.ltb Z.compare].
  unfold mbind at 1, M_bind at 1. cbn. rewrite E2. by eexists.
Qed.

Lemma scan_schedname l d : d_schedname (fold_left consider_answer l d) = d_schedname d.
Proof.
  revert d. induction l as [|[[[name v] t] p] l IH]; intros d; [done|]. cbn [fold_left]. rewrite IH.
  cbn. unfold consider. by repeat case_goal.
Qed.

(** Without a version there is no choice. *)
Lemma choose_named s1 s2 d d' s1' s2' :
  choose_scheduler true s1 s2 d = Ok (d', s1', s2') ->
  d_schedname d' <> d_schedname d -> d_best_version d' <> 0.
Proof.
  unfold choose_scheduler. destruct (decide _); [intros [= <- _ _]; done|].
  destruct (scan_heard (length s1 + length (default [] s2)) s1 s2 d) as (t1 & t2 & ->). cbn [andb].
  destruct (negb _) eqn:E; intros [= <- _ _]; boolify; [done|]. by rewrite scan_schedname.
Qed.

(** One socket of a broadcast is read: [late] tells whether its time is over. *)
Lemma read_single f s :
  0 < se_ask_fd f -> se_ask_second_fd f = -1 ->
  let late := se_timeout f <=? net_time (S (so_asked s)) - se_time0 f in
  forall d s1' s2', choose_scheduler late (to_read f s) None (se_disc f) = Ok (d, s1', s2') ->
  exists s', read_answers f s = Ok ((late, set_se_disc d f), s') /\ so_effects s' = so_effects s.
Proof.
  intros Ha E2 late d s1' s2' Ec. unfold read_answers. rewrite bind_assert by by apply Z.ltb_lt.
  unfold datagrams. rewrite bind_assoc, bind_ask_net, bind_assoc, bind_gets, bind_ret_l, E2.
  change (-1 =? -1) with true. cbv iota. rewrite bind_ret_l.
  unfold timed_out. rewrite bind_assoc, bind_ask_net, bind_ret_l.
  cbn [so_asked so_waiting set_so_asked]. fold late. change (_ ++ _) with (to_read f s). rewrite Ec.
  by destruct s2'; eexists.
Qed.

(** The answers a call of [try_get_scheduler] reads. *)
Definition read_now (f : Search) (s : Sockets) : list answer :=
  heard (length (to_read f s) + 0) (to_read f s) None.

(** An object that searches by broadcast, and the answers it has read in all of
    the calls of [try_get_scheduler] so far, made while there was time. *)
Inductive searching : list answer -> Search -> Prop :=
| searching_new netname timeout port s f s' :
    new_Search netname timeout "" port s = Ok (f, s') -> unnamed f = true -> searching [] f
| searching_try l f s f' s' :
    searching l f -> net_time (S (so_asked s)) - se_time0 f < se_timeout f ->
    try_get_scheduler f s = Ok ((None, f'), s') -> searching (l ++ read_now f s) f'.

Lemma new_Search_single n t p s f s' :
  new_Search n t "" p s = Ok (f, s') -> unnamed f = true ->
  se_ask_second_fd f = -1 /\ found (d_netname (se_disc f)) [] (se_disc f).
Proof.
  unfold new_Search. rewrite bind_ask_net. set (f0 := mkSearch _ _ _ _ _ _).
  assert (found (d_netname (se_disc f0)) [] (se_disc f0) /\ se_ask_second_fd f0 = -1) as [Hf0 Hs0].
  { split; [|done]. unfold f0, new_DiscoverSched. cbn.
    match goal with |- context [let '(_, _) := ?x in _] => destruct x end. by repeat split. }
  destruct (unnamed f0) eqn:Eu.
  - unfold sendSchedulerDiscovery. rewrite bind_assert by done. intros E _.
    apply bind_inv in E as (fd & s1 & _ & E). rewrite no_second_port in E. injection E as <- _.
    by split.
  - unfold attempt_scheduler_connect. rewrite bind_ask_net. intros E Hu.
    apply bind_inv in E as ([fd r] & s1 & _ & E). apply bind_inv in E as (? & s2 & _ & E). injection E as <- _.
    exfalso. unfold unnamed in *. cbn in *. congruence.
Qed.

Lemma searching_found l f :
  searching l f -> unnamed f = true /\ se_ask_second_fd f = -1 /\
    found (d_netname (se_disc f)) l (se_disc f).
Proof.
  induction 1 as [n t p s f s' E Hu|l f s f' s' _ (Hu & H2 & Hf) Ht E].
  - split; [done|]. by eapply new_Search_single.
  - unfold try_get_scheduler in E. rewrite Hu in E.
    apply bind_inv in E as ([late f1] & s1 & Er & E).
    assert (0 < se_ask_fd f) as Ha.
    { unfold read_answers in Er. apply bind_inv in Er as (? & ? & Ea & _).
      destruct (0 <? se_ask_fd f) eqn:E0; [by apply Z.ltb_lt|discriminate Ea]. }
    destruct (scan_heard (length (to_read f s) + 0) (to_read f s) None (se_disc f)) as (t1 & t2 & Es).
    destruct (read_single f s Ha H2 (fold_left consider_answer (read_now f s) (se_disc f)) t1 t2)
      as (s2 & Er2 & _).
    { unfold choose_scheduler. unfold unnamed in Hu. apply bool_decide_eq_true in Hu.
      rewrite decide_False by auto. cbn [default length]. rewrite Es.
      by rewrite (proj2 (Z.leb_gt _ _)) by lia. }
    rewrite Er2, (proj2 (Z.leb_gt _ _)) in Er by lia. injection Er as <- <- <-.
    cbn [negb orb] in E. injection E as <- _. cbn [se_disc set_se_disc].
    split; [unfold unnamed in *; cbn; by rewrite scan_schedname|]. split; [done|].
    apply (found_all _ _ _ (read_now f s)) in Hf. by rewrite (proj1 Hf) at 1.
Qed.

Definition good_enough (st : conn_status) : bool :=
  bool_decide (st = Connected) || bool_decide (st = Is_connected) || bool_decide (st = In_progress).

(** C36: when the time of a search by broadcast is over, a connection to the best
    scheduler is tried: of the eligible answers that have been read, in this call
    and in all earlier ones of the object (each reads up to the first malformed
    one), one of the newest version, and among these of the earliest start. Its
    call of [connect] goes to the address and the port the answer came from. *)
Theorem search_connects_best l0 f s :
  searching l0 f -> 0 < se_ask_fd f ->
  let l := l0 ++ read_now f s in
  (forall name v t p, (name, v, t, p) ∈ l -> pkt_addr p <> ""%string /\ exists a, resolves (pkt_addr p) a) ->
  se_timeout f <= net_time (S (so_asked s)) - se_time0 f ->
  (exists x, x ∈ l /\ eligible (d_netname (se_disc f)) x = true) ->
  exists name v t p a f' s',
    (name, v, t, p) ∈ l /\ eligible (d_netname (se_disc f)) (name, v, t, p) = true /\
    (forall name2 v2 t2 p2, (name2, v2, t2, p2) ∈ l ->
       eligible (d_netname (se_disc f)) (name2, v2, t2, p2) = true -> ~ preferred v2 t2 v t) /\
    resolves (pkt_addr p) a /\
    try_get_scheduler f s = connect_search good_enough f' s' /\
    se_remote f' = Inet a (pkt_port p mod 2 ^ 16) /\ so_effects s' = so_effects s.
Proof.
  intros Hsearching Ha l Hl Ht Hx. destruct (searching_found _ _ Hsearching) as (Hu & E2 & Hfound).
  assert (d_schedname (se_disc f) = ""%string) as Es by (unfold unnamed in Hu; by apply bool_decide_eq_true in Hu).
  destruct (choose_scheduler_from l0 (to_read f s) None (se_disc f) Es Hfound)
    as (d & s1' & s2' & Ec & _ & _ & Hbest).
  cbn [default length] in Hbest, Ec. fold (read_now f s) in Hbest. fold l in Hbest.
  destruct (Hbest Hx) as (name & v & t & p & Hin & He & Hn & Hp & Hpref).
  destruct (Hl _ _ _ _ Hin) as (Hpa & a & Hla).
  apply Z.leb_le in Ht. destruct (read_single f s Ha E2 d s1' s2') as (t1 & E1 & Ee1); [by rewrite Ht|].
  rewrite Ht in E1.
  assert (d_best_version d <> 0) as Hv.
  { apply (choose_named _ _ _ _ _ _ Ec). by rewrite Hn, Es. }
  destruct (drop_single (set_se_disc d f) t1 E2) as (t2 & E3 & Ee2).
  destruct (attempt_resolved (set_se_ask_fd (-1) (set_se_disc d f)) a t2)
    as (f' & t3 & E4 & Hf & Er & Ee3); [by cbn; rewrite Hn|].
  exists name, v, t, p, a, f', t3. do 4 (split; [done|]). split; [|split].
  - unfold try_get_scheduler. rewrite Hu.
    rewrite (bind_ok _ _ _ _ _ E1). cbn [negb orb se_disc set_se_disc].
    rewrite (proj2 (Z.eqb_neq _ _) Hv), (bind_ok _ _ _ _ _ E3), (bind_ok _ _ _ _ _ E4).
    by rewrite (proj2 (Z.leb_le _ _) Hf).
  - rewrite Er. cbn. by rewrite Hp.
  - by rewrite Ee3, Ee2.
Qed.
End best.

(** ** The search for network names *)

Section netnames.
Context `{Compressors, Network}.

Lemma read_names_runs fd tt l acc s :
  exists acc' s', read_names fd tt l acc s = Ok (acc', s') /\ (so_asked s <= so_asked s')%nat.
Proof.
  revert acc s. induction l as [|p l IH]; intros acc s; cbn [read_names]; [by do 2 eexists|].
  destruct (get_broad_answer [p]) as [[[buf q]|] rest] eqn:E; [|by do 2 eexists].
  rewrite bind_ask_net. destruct (negb _).
  - do 2 eexists. split; [reflexivity|]. cbn. lia.
  - destruct (answer_decodes _ _ _ _ E) as [[[name v] t] ->].
    destruct (IH (acc ++ [str_of name]) (set_so_asked (S (so_asked s)) s)) as (acc' & s' & -> & Hs').
    do 2 eexists. split; [done|]. cbn in Hs'. lia.
Qed.

Context (reached : nat) (timeout time0 : Z).
Context (clock : forall n, (reached <= n)%nat -> Z.quot timeout 1000 <= net_time n - time0).

Lemma netname_rounds_end rounds fd acc s :
  0 < fd -> (reached < rounds + so_asked s)%nat -> (0 < rounds)%nat ->
  exists names s', netname_rounds rounds fd timeout time0 acc s = Ok ((names, true), s').
Proof.
  intros Hfd. revert acc s. induction rounds as [|rounds IH]; intros acc s Hr Hp; [lia|].
  cbn [netname_rounds]. rewrite bind_ask_net, bind_assert by by apply Z.ltb_lt.
  unfold datagrams. rewrite bind_assoc, bind_ask_net, bind_assoc, bind_gets, bind_ret_l.
  cbn [so_asked so_waiting set_so_asked].
  edestruct (read_names_runs fd) as (acc' & s1 & E1 & Ha). rewrite (bind_ok _ _ _ _ _ E1), bind_ask_net.
  cbn [so_asked set_so_asked] in Ha. destruct (_ <? _) eqn:E; [|by do 2 eexists].
  destruct (decide (reached <= so_asked s1)%nat) as [Hle|Hgt].
  { specialize (clock _ Hle). boolify. lia. }
  apply IH; cbn [so_asked set_so_asked]; lia.
Qed.
End netnames.

Section netnames_end.
Context `{Compressors, Network}.

(** A broadcast that is sent has a descriptor other than standard input. *)
Lemma broadcast_sent port buf s :
  0 ∈ so_open s -> (forall n, net_socket n = true) -> (forall n, net_fcntl n = true) ->
  (forall n, net_setsockopt n = true) -> (forall n, net_ifaddrs n <> None) ->
  exists fd s', open_send_broadcast port buf s = Ok (fd, s') /\ 0 < fd /\ (so_asked s <= so_asked s')%nat.
Proof.
  intros Hin Hs Hf Ho Hi. unfold open_send_broadcast, open_socket. rewrite bind_assoc, bind_ask_net, Hs.
  cbn [negb]. rewrite bind_assoc, bind_gets, bind_assoc, bind_modify, bind_ret_l.
  cbn [so_open set_so_asked]. destruct (lowest_free_free (so_open s)) as [Hr Hn].
  assert (lowest_free (so_open s) <> 0) as Hz by (intros E; by rewrite E in Hn).
  rewrite (proj2 (Z.ltb_ge _ _) Hr), bind_ask_net, Hf. cbn [negb]. rewrite bind_ask_net, Ho. cbn [negb].
  rewrite bind_ask_net. destruct (net_ifaddrs _) as [addrs|] eqn:Ea; [|by apply Hi in Ea].
  match goal with |- context [(for_each ?g ?l ≫= ?k) ?s1] =>
    assert (forall s, exists s2, for_each g l s = Ok (tt, s2) /\ so_asked s2 = so_asked s) as Hfe end.
  { clear. induction (omap broadcast_of addrs) as [|a l IH]; intros s; cbn [for_each]; [by eexists|].
    edestruct (IH (set_so_effects (so_effects s ++ [Datagram a (port mod 2 ^ 16) buf]) s)) as (s2 & E & Ea).
    exists s2. split; [|exact Ea]. unfold mbind, M_bind, note, modify. exact E. }
  edestruct Hfe as (s2 & E2 & Ea2). rewrite (bind_ok _ _ _ _ _ E2).
  do 2 eexists. split; [reflexivity|]. split; [lia|]. rewrite Ea2. cbn. lia.
Qed.

(** The search for network names ends: when the clock has passed the time-out
    by its [reached]-th question to the system, whatever datagrams have arrived, a
    list of names is returned, after no more than that many rounds. It assumes that
    the broadcast could be sent, and that standard input is open. *)
Theorem getNetnames_ends reached rounds timeout port s :
  0 ∈ so_open s -> (forall n, net_socket n = true) -> (forall n, net_fcntl n = true) ->
  (forall n, net_setsockopt n = true) -> (forall n, net_ifaddrs n <> None) ->
  (forall n, (reached <= n)%nat -> Z.quot timeout 1000 <= net_time n - net_time (so_asked s)) ->
  (reached < rounds)%nat ->
  exists names s', getNetnames rounds timeout port s = Ok ((names, true), s').
Proof.
  intros Hin Hs Hf Ho Hi Hc Hr. unfold getNetnames. rewrite bind_ask_net.
  destruct (broadcast_sent port (discovery PROTOCOL_VERSION) (set_so_asked (S (so_asked s)) s))
    as (fd & s1 & E1 & Hfd & Ha1); [done..|]. rewrite (bind_ok _ _ _ _ _ E1).
  destruct (netname_rounds_end reached timeout _ Hc rounds fd [] s1 Hfd) as (names & s2 & E2); [lia..|].
  rewrite (bind_ok _ _ _ _ _ E2). by do 2 eexists.
Qed.
End netnames_end.

(** ** Samples *)

Section samples.
#[local] Existing Instance store_compressors.

Definition eth0 : ifaddr :=
  mkIfaddr (Some "eth0") (Some (AF_INET, [x0a; x00; x00; x02])) true IFF_BROADCAST
    (Some [x0a; x00; x00; xff]).
Definition reply_from (name addr : string) (start : Z) : packet :=
  mkPacket (prepareBroadcastReply (byte_of_Z PROTOCOL_VERSION) (bytes_of name) start) addr 8765.

(** Three schedulers answer, one of them of another network. *)
Definition sample_net : Network := {|
  net_platform := "x86_64"; net_slow := false; net_in_tests := false; net_test_ports := None;
  net_scheduler := None; net_time := Z.of_nat; net_socket := fun _ => true;
  net_fcntl := fun _ => true; net_setsockopt := fun _ => true;
  net_ifaddrs := fun _ => Some [eth0];
  net_resolve := fun _ h =>
    if decide (h = "10.0.0.3"%string) then Some [x0a; x00; x00; x03]
    else Some [x0a; x00; x00; x01];
  net_connect := fun _ _ _ => In_progress; net_writable := fun _ _ _ => true;
  net_io := fun _ => mkIo [ReadData (le_bytes 4 42); ReadData (le_bytes 4 42)] []
                       [PollReady; PollReady] EAGAIN [] false;
  net_arrived := fun n _ =>
    if (n <=? 6)%nat then
      [reply_from "ICECREAM" "10.0.0.1" 500; reply_from "other" "10.0.0.2" 100;
       reply_from "ICECREAM" "10.0.0.3" 300]
    else []
|}.
#[local] Existing Instance sample_net.

Definition standard_fds : gset Z := {[0; 1; 2]}.
Definition fresh_sockets : Sockets := mkSockets standard_fds ∅ ∅ 0 [].
Definition sample_wish : Wish := mkWish "" 3 "" 8765.

Lemma standard_nonneg x : x ∈ standard_fds -> 0 <= x.
Proof. unfold standard_fds. rewrite !elem_of_union, !elem_of_singleton. lia. Qed.

(** The question goes out; then the best scheduler is connected to. *)
Example sample_search :
  match search_rounds 3 sample_wish None fresh_sockets with
  | Ok ((c, _), s) =>
      chan_fd c = 3 /\
      so_effects s = [Datagram [x0a; x00; x00; xff] 8765 (discovery PROTOCOL_VERSION);
                      Connecting (Inet [x0a; x00; x00; x03] 8765)]
  | Fault _ => False
  end.
Proof. vm_compute. by split. Qed.

Lemma search_descriptors_witness :
  exists c o s', search_rounds 3 sample_wish None fresh_sockets = Ok ((c, o), s') /\
    so_open s' = own (chan_fd c) ∪ (descriptors o ∪ standard_fds).
Proof.
  destruct (search_rounds 3 sample_wish None fresh_sockets) as [[[c o] s']|] eqn:E;
    [|vm_compute in E; discriminate E].
  exists c, o, s'. split; [done|].
  refine (proj1 (search_descriptors _ 3 sample_wish fresh_sockets c o s' standard_nonneg E)).
  by intros n.
Defined.

(** A search with more time: its first call reads three answers and goes on,
    its second one reads nothing new and finds that the time is over. *)
Definition started : Search * Sockets :=
  match new_Search "" 7 "" 8765 fresh_sockets with
  | Ok r => r
  | Fault _ => (mkSearch (new_DiscoverSched "" "" 0 None) 0 0 0 0 (Inet [] 0), fresh_sockets)
  end.
Definition called_once : Search * Sockets :=
  match try_get_scheduler started.1 started.2 with
  | Ok ((None, f), s) => (f, s)
  | _ => started
  end.

Lemma called_once_searching : searching ([] ++ read_now started.1 started.2) called_once.1.
Proof.
  eapply (searching_try (H0 := sample_net) [] started.1 started.2 called_once.1 called_once.2).
  - apply (searching_new (H0 := sample_net) "" 7 8765 fresh_sockets started.1 started.2); reflexivity.
  - vm_compute. reflexivity.
  - vm_compute. reflexivity.
Qed.

Lemma search_connects_best_witness :
  read_now called_once.1 called_once.2 = [] /\
  exists f' s', try_get_scheduler called_once.1 called_once.2 = connect_search good_enough f' s' /\
    exists a p, se_remote f' = Inet a p.
Proof.
  split; [vm_compute; reflexivity|].
  destruct (search_connects_best (H0 := sample_net) eq_refl (fun _ => eq_refl) _ called_once.1 called_once.2
              called_once_searching eq_refl) as (name & v & t & p & a & f' & s' & Hin & He & Hb & Hr & E & Er & _).
  - intros name v t p Hin.
    assert (Forall (fun x : answer => negb (bool_decide (pkt_addr x.2 = ""%string)) = true)
              (([] ++ read_now started.1 started.2) ++ read_now called_once.1 called_once.2)) as Hall
      by (vm_compute; repeat constructor).
    rewrite Forall_forall in Hall. specialize (Hall _ Hin). cbn in Hall.
    split; [intros E; by rewrite E in Hall|].
    destruct (decide (pkt_addr p = "10.0.0.3"%string)) as [E|E].
    + exists [x0a; x00; x00; x03]. split; [done|]. intros n. cbn. by rewrite decide_True.
    + exists [x0a; x00; x00; x01]. split; [done|]. intros n. cbn. by rewrite decide_False.
  - vm_compute. discriminate.
  - eexists. split; [vm_compute; left|]. vm_compute. reflexivity.
  - exists f', s'. split; [exact E|]. exists a, (pkt_port p mod 2 ^ 16). exact Er.
Defined.

Definition broken_net : Network := {|
  net_platform := "x86_64"; net_slow := false; net_in_tests := false; net_test_ports := None;
  net_scheduler := None; net_time := Z.of_nat; net_socket := fun _ => true;
  net_fcntl := fun _ => true; net_setsockopt := fun _ => true; net_ifaddrs := fun _ => None;
  net_resolve := fun _ _ => None; net_connect := fun _ _ _ => Not_connected;
  net_writable := fun _ _ _ => false; net_io := fun _ => mkIo [] [] [] EAGAIN [] false;
  net_arrived := fun _ _ => []
|}.

Lemma failed_broadcast_aborts_witness :
  search_rounds (H0 := broken_net) 2 sample_wish None fresh_sockets = Fault AssertFailed.
Proof.
  apply (failed_broadcast_aborts (H0 := broken_net) 0 sample_wish fresh_sockets);
    [reflexivity|reflexivity|right; intros n; reflexivity].
Defined.

Lemma getNetnames_ends_witness :
  exists names s', getNetnames 3 2000 8765 fresh_sockets = Ok ((names, true), s').
Proof.
  apply (getNetnames_ends 2 3 2000 8765 fresh_sockets); try (intros n; reflexivity || discriminate).
  - apply (bool_decide_unpack _). vm_compute. exact I.
  - intros n Hn. cbn. change (Z.quot 2000 1000) with 2. lia.
  - lia.
Defined.
End samples.
