(* ===== verification/Handlers.v ===== *)
(** * What the scheduler does (scheduler/scheduler.cpp)

    The end of a connection, notification of monitors, the handlers of the
    messages.
    Logging is left out, except for the pointers it dereferences. *)

From Stdlib Require Import ZArith Lia.
From Stdlib Require Import Strings.Byte Strings.String.
From stdpp Require Import base tactics option list gmap strings pretty.
From S2P Require Import Prelude MsgChannel CompileJob Msg Interface Transport Discovery Float CompileServer SchedulingAlgo Scheduler.

#[local] Open Scope Z_scope.

(** ** Texts *)

(** [snprintf(buffer, sizeof(buffer), ...)] with 1000 bytes, taken as a string. *)
Definition buffer_text (s : string) : string :=
  str_of (default [] (c_string (take 999 (bytes_of s) ++ [x00]))).
Definition newline : string := str_of [x0a].
Definition quote : string := str_of [x27].
Definition line (s : string) : string := (buffer_text (s +:+ newline))%string.

Definition has_flag (flags f : Z) : bool := negb (Z.land flags f =? 0).

Definition supported_features_to_string (features : Z) : string :=
  let ret := ((if has_flag features NODE_FEATURE_ENV_XZ then " env_xz" else "")
    +:+ (if has_flag features NODE_FEATURE_ENV_ZSTD then " env_zstd" else ""))%string in
  match bytes_of ret with [] => "--"%string | _ :: l => str_of l end.

(** The text about a server that monitors get. *)
Definition monitor_stats_text (p : ptr) (cs : CompileServer) (m : option StatsMsg) : string :=
  (line ("Name:" +:+ cs_nodeName cs) +:+ line ("IP:" +:+ cs_name cs)
   +:+ line ("MaxJobs:" +:+ pretty (cs_maxJobs cs))
   +:+ line ("NoRemote:" +:+ (if cs_noRemote cs then "true" else "false"))
   +:+ line ("Platform:" +:+ cs_hostPlatform cs)
   +:+ line ("Version:" +:+ pretty (cs_maximum_remote_protocol cs))
   +:+ line ("Features:" +:+ supported_features_to_string (cs_featuresSupported cs))
   +:+ line ("Speed:" +:+ print_fixed 6 (server_speed p cs None))
   +:+ match m with
       | Some m =>
           line ("Load:" +:+ pretty (i32 (st_load m)))
           +:+ line ("LoadAvg1:" +:+ pretty (st_loadAvg1 m))
           +:+ line ("LoadAvg5:" +:+ pretty (st_loadAvg5 m))
           +:+ line ("LoadAvg10:" +:+ pretty (st_loadAvg10 m))
           +:+ line ("FreeMem:" +:+ pretty (st_freeMem m))
       | None => line ("Load:" +:+ pretty (cs_load cs))
       end)%string.

(** [dump_job] *)
Definition job_state_text (st : job_state) : string :=
  match st with PENDING => "PEND" | WAITINGFORCS => "WAIT" | COMPILING => "COMP" end.
Definition dump_text (job : Job) (submitter : CompileServer) (server : option CompileServer)
  : string :=
  (buffer_text (pretty (j_id job) +:+ " " +:+ job_state_text (j_state job) +:+ " sub:"
     +:+ cs_nodeName submitter +:+ " on:"
     +:+ match server with Some cs => cs_nodeName cs | None => "<unknown>" end +:+ " ")
   +:+ j_fileName job)%string.

(** [split_string]: the maximal pieces without a character of the set. *)
Fixpoint split_loop (set : list byte) (cur : list byte) (s : list byte) : list (list byte) :=
  match s with
  | [] => match cur with [] => [] | _ => [rev cur] end
  | b :: s =>
      if bool_decide (b ∈ set) then
        match cur with [] => split_loop set [] s | _ => rev cur :: split_loop set [] s end
      else split_loop set (b :: cur) s
  end.
Definition split_string (s : string) (set : list byte) : list string :=
  map str_of (split_loop set [] (bytes_of s)).

(** ** Statistics *)

(** Adding to a window of the last statistics and their sum: [push_back], and
    when there are more than [limit], the first is taken out again. *)
Definition push_window (limit : Z) (st : JobStat) (w : list JobStat * JobStat)
  : list JobStat * JobStat :=
  let l := w.1 ++ [st] in
  let cum := stat_add w.2 st in
  if limit <? Z.of_nat (length l) then
    match l with
    | first :: l' => (l', stat_sub cum first)
    | [] => (l, cum)
    end
  else (l, cum).

(** The output size, scaled by the debug and optimisation flags. *)
Definition scaled_size (argFlags out_uncompressed : Z) : Z :=
  let size := out_uncompressed in
  let size :=
    if has_flag argFlags Flag_g then u64 (size * 10) / 36
    else if has_flag argFlags Flag_g3 then u64 (size * 10) / 45
    else size in
  if has_flag argFlags Flag_O || has_flag argFlags Flag_O2 || has_flag argFlags Flag_Ol2
  then u64 (size * 58) / 35 else size.

(** At most 20% of the current speed more or less. *)
Definition smoothed_size (size user : Z) (cur_speed : float) : option Z :=
  let this_speed := fdiv32 (f32_of_Z size) (f32_of_Z user) in
  let c12 := f64_lit 12 10 in
  if flt (f64 cur_speed) (fdiv64 (f64 this_speed) c12) then
    f64_to_ulong (fmul64 (fmul64 (f64 cur_speed) c12) (f64_of_Z user))
  else if flt (fmul64 (f64 this_speed) c12) (f64 cur_speed) then
    f64_to_ulong (fmul64 (fdiv64 (f64 cur_speed) c12) (f64_of_Z user))
  else Some size.

Definition append_compiled (st : JobStat) (cs : CompileServer) : CompileServer :=
  let w := push_window 200 st (cs_lastCompiledJobs cs, cs_cumCompiled cs) in
  set_cs_cumCompiled w.2 (set_cs_lastCompiledJobs w.1 cs).
Definition append_requested (st : JobStat) (cs : CompileServer) : CompileServer :=
  let w := push_window 200 st (cs_lastRequestedJobs cs, cs_cumRequested cs) in
  set_cs_cumRequested w.2 (set_cs_lastRequestedJobs w.1 cs).

Definition add_job_stats (j : ptr) (m : JobDoneMsg) : sched unit :=
  if (jd_out_uncompressed m <? 4096) || negb (jd_exitcode m =? 0) then mret tt else
  job ← deref_job j;
  let size := scaled_size (j_argFlags job) (jd_out_uncompressed m) in
  srv ← deref_server (j_server job);
  size ← (if 7 <=? Z.of_nat (length (cs_lastCompiledJobs srv.2))
          then need BadCast (smoothed_size size (jd_user_msec m) (server_speed srv.1 srv.2 None))
          else mret size);
  let st := mkJobStat size (jd_real_msec m) (jd_user_msec m) (jd_sys_msec m) (j_id job) in
  _ ← update_cs srv.1 (append_compiled st);
  _ ← update_cs (j_submitter job) (append_requested st);
  modify (fun s =>
    let w := push_window 2000 st (s_all_job_stats s, s_cum_job_stats s) in
    set_s_cum_job_stats w.2 (set_s_all_job_stats w.1 s)).

Section handlers.
Context `{Channels}.

(** ** Connections *)

Definition on_channel {A} (p : ptr) (r : reader A) : sched A :=
  cs ← deref_cs p;
  match r (cs_channel cs) with
  | Ok (a, c) =>
      _ ← modify (fun s => set_s_servers (<[p := set_cs_channel c cs]> (s_servers s)) s);
      mret a
  | Fault f => throw f
  end.
Definition cs_send (p : ptr) (m : Msg) (flags : Z) : sched bool := on_channel p (ch_send m flags).

Definition set_talk (t : Z) (p : ptr) : sched unit :=
  update_cs p (fun cs => set_cs_channel (set_last_talk t (cs_channel cs)) cs).

(** *** Notification

    A monitor that cannot be sent to is closed at once, by [handle_end],
    which itself notifies the monitors; the functions are written over a
    variable for it and tied below. *)
Section open_recursion.
Context (handle_end : ptr -> sched unit).

Definition notify_monitors_with (m : Msg) : sched unit :=
  ms ← gets s_monitors;
  for_each (fun p =>
    ok ← cs_send p m SendNonBlocking;
    when (negb ok) (handle_end p)) ms.

(** A job of a daemon that went away. *)
Definition notify_stopped (j : ptr) : sched Job :=
  job ← deref_job j;
  _ ← notify_monitors_with (MonJobDone (new_JobDoneMsg (j_id job) 255 FROM_SERVER 0));
  deref_job j.

Definition not_installing (o : option ptr) : sched unit :=
  match o with
  | Some sp => update_cs sp (set_cs_busyInstalling 0)
  | None => mret tt
  end.

Definition erase_job (id : Z) : sched unit :=
  modify (fun s => set_s_jobs (delete id (s_jobs s)) s).

(** A request of the daemon still in the queue. *)
Definition end_request (j : ptr) : sched unit :=
  job ← notify_stopped j;
  _ ← not_installing (j_server job);
  _ ← erase_job (j_id job);
  delete_job j.

(** A job compiled by the daemon or for it. *)
Definition end_job (p : ptr) (e : Z * ptr) : sched unit :=
  job ← deref_job e.2;
  when (bool_decide (j_server job = Some p) || bool_decide (j_submitter job = p))
    (job ← notify_stopped e.2;
     _ ← (match j_server job with
          | Some sp => when (negb (bool_decide (sp = p))) (update_cs sp (removeJob e.2))
          | None => mret tt
          end);
     _ ← not_installing (j_server job);
     _ ← erase_job e.1;
     delete_job e.2).

Definition end_daemon (p : ptr) : sched unit :=
  cs ← deref_cs p;
  _ ← notify_monitors_with (MonStats (mkMonStatsMsg (cs_hostId cs) ("State:Offline" +:+ newline)));
  _ ← modify (fun s => set_s_css (remove_ptr p (s_css s)) s);
  q ← gets s_job_requests;
  _ ← for_each (fun g =>
        when (bool_decide (g_submitter g = p))
          (_ ← for_each end_request (g_l g);
           modify (fun s => set_s_job_requests
             (filter (fun g' => g_ptr g' <> g_ptr g) (s_job_requests s)) s))) q;
  l ← gets (fun s => in_order (s_jobs s));
  _ ← for_each (end_job p) l;
  css ← gets s_css;
  for_each (fun q => update_cs q (eraseCSFromBlacklist p)) css.

(** [fd2cs.erase(toremove->fd); delete toremove;] *)
Definition forget (p : ptr) : sched unit :=
  cs ← deref_cs p;
  modify (fun s => set_s_servers (delete p (s_servers s))
                     (set_s_fd2cs (delete (c_fd (cs_channel cs)) (s_fd2cs s)) s)).

Definition handle_end_with (p : ptr) : sched unit :=
  cs ← deref_cs p;
  _ ← (match cs_ty cs with
       | MONITOR =>
           ms ← gets s_monitors;
           _ ← assert (bool_decide (p ∈ ms));
           modify (fun s => set_s_monitors (remove_ptr p (s_monitors s)) s)
       | DAEMON => end_daemon p
       | LINE =>
           _ ← cs_send p (Text ("200 Good Bye!")) SendBlocking;
           modify (fun s => set_s_controls (remove_ptr p (s_controls s)) s)
       | UNKNOWN => mret tt
       end);
  forget p.
End open_recursion.

(** Monitors have the type [MONITOR], and the end of one notifies nobody:
    one round of nesting is enough (Reachable.v). *)
Definition handle_end : ptr -> sched unit :=
  handle_end_with (handle_end_with (fun _ => throw Aborted)).
Definition notify_monitors : Msg -> sched unit :=
  notify_monitors_with (handle_end_with (fun _ => throw Aborted)).

Definition handle_monitor_stats (p : ptr) (m : option StatsMsg) : sched unit :=
  ms ← gets s_monitors;
  match ms with
  | [] => mret tt
  | _ =>
      cs ← deref_cs p;
      notify_monitors (MonStats (mkMonStatsMsg (cs_hostId cs) (monitor_stats_text p cs m)))
  end.

(** ** Requests and local jobs *)

Definition language_name (l : Language) : string :=
  match l with
  | Lang_C => "C" | Lang_CXX => "C++" | Lang_OBJC => "ObjC" | Lang_OBJCXX => "ObjC++"
  | Lang_Custom => "<custom>"
  | _ => "???"
  end.

(** The fields of a request set in a new job. *)
Definition fill_job (m : GetCSMsg) (job : Job) : Job :=
  set_job_niceness (Z.max 0 (Z.min 20 (i32 (gcs_niceness m))))
  (set_job_requiredFeatures (gcs_required_features m)
  (set_job_minimalHostVersion (gcs_minimal_host_version m)
  (set_job_preferredHost (gcs_preferred_host m)
  (set_job_localClientId (gcs_client_id m)
  (set_job_fileName (gcs_filename m)
  (set_job_language (language_name (gcs_lang m))
  (set_job_argFlags (gcs_arg_flags m)
  (set_job_targetPlatform (gcs_target m)
  (set_job_environments (gcs_versions m) job))))))))).

(** The loop of [handle_cs_request]; [n] requests are left. *)
Fixpoint cs_requests (n : nat) (p : ptr) (m : GetCSMsg) (master_job : option ptr) : sched unit :=
  match n with
  | O => mret tt
  | S n =>
      job ← create_new_job p;
      _ ← update_job job (fill_job m);
      _ ← enqueue_job_request job;
      j ← deref_job job;
      cs ← deref_cs p;
      mon ← need AssertFailed (new_MonGetCSMsg (j_id j) (cs_hostId cs) m);
      _ ← notify_monitors (MonGetCS mon);
      match master_job with
      | None => cs_requests n p m (Some job)
      | Some master =>
          _ ← update_job master (fun j => set_job_masterJobFor (j_masterJobFor j ++ [job]) j);
          cs_requests n p m master_job
      end
  end.

Definition handle_cs_request (p : ptr) (m : GetCSMsg) : sched bool :=
  _ ← update_cs p (set_cs_clientCount (i32 (gcs_client_count m)));
  _ ← cs_requests (Z.to_nat (gcs_count m)) p m None;
  mret true.

Definition handle_local_job (p : ptr) (m : JobLocalBeginMsg) : sched bool :=
  _ ← modify (fun s => set_s_new_job_id (u32 (s_new_job_id s + 1)) s);
  id ← gets s_new_job_id;
  _ ← update_cs p (insertClientLocalJobId (i32 (jl_id m)) (i32 id) (jl_fulljob m));
  cs ← deref_cs p;
  _ ← notify_monitors (MonLocalJobBegin
        (mkMonLocalJobBeginMsg id (jl_stime m) (cs_hostId cs) (jl_outfile m)));
  mret true.

Definition handle_local_job_done (p : ptr) (job_id : Z) : sched bool :=
  cs ← deref_cs p;
  _ ← update_cs p (fun cs => (getClientLocalJobId (i32 job_id) cs).2);
  _ ← notify_monitors (JobLocalDone (u32 (getClientLocalJobId (i32 job_id) cs).1));
  _ ← update_cs p (eraseClientLocalJobId (i32 job_id));
  mret true.

(** ** Logins *)

(** Hosts with the address and name of the new one are stale. *)
Definition end_stale (p : ptr) (q : ptr) : sched unit :=
  cs ← deref_cs p;
  other ← deref_cs q;
  when (eq_ip (cs_channel cs) (cs_channel other) && bool_decide (cs_nodeName cs = cs_nodeName other))
    (handle_end q).

Definition send_conf (p : ptr) : sched unit :=
  cs ← deref_cs p;
  slow ← gets s_slow;
  when (is_protocol_version 24 (cs_channel cs))
    (_ ← cs_send p (ConfCS (new_ConfCSMsg slow)) SendBlocking; mret tt).

Definition login_cs (m : LoginMsg) (cs : CompileServer) : CompileServer :=
  let cs := set_cs_noRemote (lg_noremote m) (set_cs_maxJobs (i32 (lg_max_kids m))
             (set_cs_compilerVersions (lg_envs m) (set_cs_remotePort (lg_port m) cs))) in
  let cs := set_cs_nodeName (if decide (lg_nodename m <> ""%string) then lg_nodename m
                             else cs_name cs) cs in
  set_cs_featuresSupported (lg_supported_features m)
    (set_cs_chrootPossible (lg_chroot_possible m) (set_cs_hostPlatform (lg_host_platform m) cs)).

Definition handle_login (p : ptr) (m : LoginMsg) : sched bool :=
  _ ← update_cs p (login_cs m);
  s ← get;
  cs ← deref_cs p;
  (match pick_new_id (s_host_id_counter s) cs with
   | Fault f => throw f
   | Ok (counter, cs) =>
       _ ← modify (set_s_host_id_counter counter);
       _ ← update_cs p (fun _ => cs);
       if existsb (matches cs) (s_block_css s) then mret false
       else
         _ ← handle_monitor_stats p None;
         css ← gets s_css;
         _ ← for_each (end_stale p) css;
         _ ← modify (fun s => set_s_css (s_css s ++ [p]) s);
         _ ← send_conf p;
         mret true
   end).

Definition handle_relogin (p : ptr) (m : LoginMsg) : sched bool :=
  _ ← update_cs p (fun cs => set_cs_busyInstalling 0 (set_cs_compilerVersions (lg_envs m) cs));
  _ ← send_conf p;
  mret false.

Definition handle_mon_login (p : ptr) : sched bool :=
  _ ← modify (fun s => set_s_monitors (s_monitors s ++ [p]) s);
  _ ← deref_cs p;
  css ← gets s_css;
  _ ← for_each (fun q => handle_monitor_stats q None) css;
  cs ← deref_cs p;
  _ ← modify (fun s => set_s_fd2cs (delete (c_fd (cs_channel cs)) (s_fd2cs s)) s);
  mret true.

(** ** Jobs begun and done *)

Definition handle_job_begin (p : ptr) (m : JobBeginMsg) : sched bool :=
  jobs ← gets s_jobs;
  match jobs !! jb_job_id m with
  | None => mret false
  | Some j =>
      job ← deref_job j;
      if negb (bool_decide (j_server job = Some p)) then mret false
      else
        _ ← update_cs p (set_cs_clientCount (i32 (jb_client_count m)));
        t ← now;
        _ ← update_job j (fun job => set_job_startOnScheduler t
              (set_job_startTime (jb_stime m) (set_job_state COMPILING job)));
        cs ← deref_cs p;
        _ ← notify_monitors (MonJobBegin (mkMonJobBeginMsg (jb_job_id m) (jb_stime m) (cs_hostId cs)));
        job ← deref_job j;
        _ ← deref_cs (j_submitter job);
        _ ← deref_server (j_server job);
        mret true
  end.

(** The clean-up of the queue for a job whose id the daemon did not know. *)
Fixpoint purge_queue (p j : ptr) (q : list JobRequestsGroup) : list JobRequestsGroup :=
  match q with
  | [] => []
  | g :: q =>
      if bool_decide (g_submitter g = p) then
        match erase_first j (g_l g) with
        | [] => q
        | l => set_g_l l g :: purge_queue p j q
        end
      else g :: purge_queue p j q
  end.

(** The search by client id: every match is taken out of the queue, the last
    one is the result. *)
Fixpoint find_by_client (p : ptr) (clientId : Z) (l : list (Z * ptr)) (found : option (Z * ptr))
  : sched (option (Z * ptr)) :=
  match l with
  | [] => mret found
  | (_, j) :: l =>
      job ← deref_job j;
      if bool_decide (j_server job = None) && bool_decide (j_submitter job = p)
         && (j_localClientId job =? clientId) then
        _ ← modify (fun s => set_s_job_requests (purge_queue p j (s_job_requests s)) s);
        find_by_client p clientId l (Some (j_id job, j))
      else find_by_client p clientId l found
  end.

(** The job a message is about, and the message with its id filled in. *)
Definition job_of_done (p : ptr) (m : JobDoneMsg) : sched (option (ptr * JobDoneMsg)) :=
  jobs ← gets s_jobs;
  let clientId := unknown_job_client_id m in
  if negb (clientId =? 0) then
    r ← find_by_client p clientId (in_order jobs) None;
    mret (match r with Some (id, j) => Some (j, Msg.set_job_id id m) | None => None end)
  else mret ((fun j => (j, m)) <$> jobs !! jd_job_id m).

Definition handle_job_done (p : ptr) (m : JobDoneMsg) : sched bool :=
  r ← job_of_done p m;
  match r with
  | None => mret false
  | Some (j, m) =>
      job ← deref_job j;
      if is_from_server m && negb (bool_decide (j_server job = Some p)) then
        _ ← deref_server (j_server job);
        _ ← deref_cs p;
        _ ← handle_end p;
        mret false
      else if negb (is_from_server m) && negb (bool_decide (j_submitter job = p)) then
        _ ← deref_cs (j_submitter job);
        _ ← deref_cs p;
        _ ← handle_end p;
        mret false
      else
        _ ← update_cs p (set_cs_clientCount (i32 (jd_client_count m)));
        _ ← when (jd_exitcode m =? 0) (_ ← deref_server (j_server job); mret tt);
        _ ← (match j_server job with Some sp => update_cs sp (removeJob j) | None => mret tt end);
        _ ← add_job_stats j m;
        _ ← notify_monitors (MonJobDone m);
        _ ← erase_job (jd_job_id m);
        _ ← delete_job j;
        mret true
  end.

(** ** Pings, load, blacklists *)

Definition revive (cs : CompileServer) : CompileServer :=
  if cs_maxJobs cs <? 0 then set_cs_maxJobs (cs_maxJobs cs * -1) cs else cs.

Definition handle_ping (p : ptr) : sched bool :=
  t ← now;
  _ ← set_talk t p;
  _ ← update_cs p revive;
  mret true.

Definition handle_stats (p : ptr) (m : StatsMsg) : sched bool :=
  cs ← deref_cs p;
  _ ← when (negb (is_protocol_version 25 (cs_channel cs)))
        (t ← now; _ ← set_talk t p; update_cs p revive);
  css ← gets s_css;
  if bool_decide (p ∈ css) then
    _ ← update_cs p (fun cs => set_cs_clientCount (i32 (st_client_count m))
                                 (set_cs_load (st_load m) cs));
    _ ← handle_monitor_stats p (Some m);
    mret true
  else mret false.

Definition handle_blacklist_host_env (p : ptr) (m : BlacklistHostEnvMsg) : sched bool :=
  css ← gets s_css;
  _ ← for_each (fun q =>
        other ← deref_cs q;
        when (bool_decide (cs_name other = bh_hostname m))
          (update_cs p (blacklistCompileServer q (bh_target m, bh_environment m)))) css;
  mret true.
End handlers.
