(* ===== verification/Dispatch.v ===== *)
(** * Dispatch (scheduler/scheduler.cpp)

    The control connection, the choice of a handler for a message
    ([handle_activity]), the assignment of queued jobs to servers
    ([empty_queue]), and the steps of the main loop: pruning, broadcasts, new
    connections, the scan of the connections with messages. *)

From Stdlib Require Import ZArith Lia.
From Stdlib Require Import Strings.Byte Strings.String.
From stdpp Require Import base tactics option list gmap strings pretty.
From S2P Require Import Prelude MsgChannel CompileJob Msg Interface Transport Discovery Float CompileServer SchedulingAlgo Scheduler Handlers.

#[local] Open Scope Z_scope.

(** Runs a computation on the elements of a list until one answers [false]. *)
Fixpoint all_ok {S A} (f : A -> M S bool) (l : list A) : M S bool :=
  match l with
  | [] => mret true
  | x :: l => ok ← f x; if ok : bool then all_ok f l else mret false
  end.

Section dispatch.
Context `{Channels}.
(** [VERSION], which the build defines. *)
Context (version : string).
Context (scheduler_algo : SchedulerAlgorithmName) (submission_weight : Z).

(** ** The control connection *)

Definition say (p : ptr) (text : string) : sched bool := cs_send p (Text text) SendBlocking.

Definition handle_control_login (p : ptr) : sched bool :=
  t ← now;
  _ ← update_cs p (set_cs_ty LINE);
  _ ← set_talk t p;
  _ ← update_cs p (set_cs_st LOGGEDIN);
  s ← get;
  _ ← assert (negb (bool_decide (p ∈ s_controls s)));
  _ ← modify (fun s => set_s_controls (s_controls s ++ [p]) s);
  say p ("200-ICECC " +:+ version +:+ ": " +:+ pretty (t - s_starttime s) +:+ "s uptime, "
         +:+ pretty (Z.of_nat (length (s_css s))) +:+ " hosts, "
         +:+ pretty (Z.of_nat (size (s_jobs s))) +:+ " jobs in queue "
         +:+ "(" +:+ pretty (s_new_job_id s) +:+ " total)." +:+ newline
         +:+ "200 Use 'help' for help and 'quit' to quit." +:+ newline).

(** [dump_job]: the server's name is read from the object. *)
Definition dump_job (j : ptr) : sched string :=
  job ← deref_job j;
  sub ← deref_cs (j_submitter job);
  match j_server job with
  | None => mret (dump_text job sub None)
  | Some sp => cs ← deref_cs sp; mret (dump_text job sub (Some cs))
  end.

Definition listcs_line (t : Z) (p : ptr) (cs : CompileServer) : string :=
  (" " +:+ cs_nodeName cs
   +:+ buffer_text (" (" +:+ cs_name cs +:+ ":" +:+ pretty (cs_remotePort cs) +:+ ") ")
   +:+ "[" +:+ cs_hostPlatform cs +:+ "] speed="
   +:+ buffer_text (print_fixed 2 (server_speed p cs None) +:+ " jobs="
         +:+ pretty (currentJobCount cs) +:+ "/" +:+ pretty (cs_maxJobs cs)
         +:+ " load=" +:+ pretty (cs_load cs))
   +:+ (if decide (cs_busyInstalling cs = 0) then ""
        else buffer_text (" busy installing since " +:+ pretty (t - cs_busyInstalling cs) +:+ " s")))%string.

Definition cmd_listcs (p : ptr) : sched bool :=
  t ← now;
  css ← gets s_css;
  all_ok (fun q =>
    cs ← deref_cs q;
    ok ← say p (listcs_line t q cs);
    if negb ok then mret false
    else
      cs ← deref_cs q;
      all_ok (fun j => text ← dump_job j; say p ("   " +:+ text)) (cs_jobList cs)) css.

Definition cmd_listblocks (p : ptr) : sched bool :=
  l ← gets s_block_css; all_ok (fun b => say p ("   " +:+ b)) l.

Definition cmd_listjobs (p : ptr) : sched bool :=
  l ← gets (fun s => in_order (s_jobs s));
  all_ok (fun e : Z * ptr => text ← dump_job e.2; say p (" " +:+ text)) l.

(** The first server of a list that has a name. *)
Fixpoint first_match (name : string) (l : list ptr) : sched (option ptr) :=
  match l with
  | [] => mret None
  | q :: l => cs ← deref_cs q; if matches cs name then mret (Some q) else first_match name l
  end.

Definition cmd_removecs (block : bool) (p : ptr) (l : list string) : sched bool :=
  match l with
  | [] => say p "401 Sure. But which hosts?"
  | _ =>
      _ ← for_each (fun si =>
            _ ← when block (modify (fun s => set_s_block_css (s_block_css s ++ [si]) s));
            css ← gets s_css;
            r ← first_match si css;
            match r with
            | None => mret tt
            | Some q => ok ← say p ("removing host " +:+ si); when ok (handle_end q)
            end) l;
      mret true
  end.

Fixpoint erase_string (x : string) (l : list string) : list string :=
  match l with
  | [] => []
  | y :: l => if decide (x = y) then l else y :: erase_string x l
  end.
Definition cmd_unblockcs (p : ptr) (l : list string) : sched bool :=
  match l with
  | [] => say p "401 Sure. But which host?"
  | _ =>
      _ ← modify (fun s => set_s_block_css
            (fold_left (fun blocks si => erase_string si blocks) l (s_block_css s)) s);
      mret true
  end.

Definition cmd_internals (p : ptr) (l : list string) : sched bool :=
  css ← gets s_css;
  all_ok (fun q =>
    cs ← deref_cs q;
    if negb (bool_decide (l = [])) && negb (existsb (matches cs) l) then mret true
    else
      sent ← cs_send q GetInternalStatus SendBlocking;
      msg ← (if sent : bool then on_channel q (ch_get 10 false) else mret None);
      match msg with
      | Some (StatusText text) => say p text
      | _ => say p (cs_nodeName cs +:+ " not reporting" +:+ newline)
      end) css.

Definition tolower (s : string) : string := str_of (map lower (bytes_of s)).

Definition handle_line (p : ptr) (text : string) : sched bool :=
  let words := split_string text [x20; x09; x0a] in
  let cmd := match words with [] => ""%string | w :: _ => tolower w end in
  let l := tail words in
  t ← now;
  _ ← set_talk t p;
  if decide (cmd = "quit" \/ cmd = "exit")%string then _ ← handle_end p; mret false
  else
    ok ← (if decide (cmd = "listcs")%string then cmd_listcs p
          else if decide (cmd = "listblocks")%string then cmd_listblocks p
          else if decide (cmd = "listjobs")%string then cmd_listjobs p
          else if decide (cmd = "removecs")%string then cmd_removecs false p l
          else if decide (cmd = "blockcs")%string then cmd_removecs true p l
          else if decide (cmd = "unblockcs")%string then cmd_unblockcs p l
          else if decide (cmd = "internals")%string then cmd_internals p l
          else if decide (cmd = "help")%string then
            say p ("listcs" +:+ newline +:+ "listblocks" +:+ newline +:+ "listjobs" +:+ newline
                   +:+ "removecs" +:+ newline +:+ "blockcs" +:+ newline +:+ "unblockcs" +:+ newline
                   +:+ "internals" +:+ newline +:+ "help" +:+ newline +:+ "quit")
          else say p ("Invalid command '" +:+ text +:+ "'"));
    if ok : bool then say p "200 done" else mret false.

(** ** Messages *)

Definition try_login (p : ptr) (m : Msg) : sched bool :=
  ret ← (match m with
         | Login m => _ ← update_cs p (set_cs_ty DAEMON); handle_login p m
         | MonLogin => _ ← update_cs p (set_cs_ty MONITOR); handle_mon_login p
         | _ => mret false
         end);
  _ ← (if ret : bool then update_cs p (set_cs_st LOGGEDIN) else handle_end p);
  mret ret.

(** The handler of a message of a connection that has logged in. *)
Definition handle_msg (p : ptr) (m : Msg) : sched bool :=
  match m with
  | JobBegin m => handle_job_begin p m
  | JobDone m => handle_job_done p m
  | PingMsg => handle_ping p
  | Stats m => handle_stats p m
  | EndMsg => _ ← handle_end p; mret false
  | JobLocalBegin m => handle_local_job p m
  | JobLocalDone id => handle_local_job_done p id
  | Login m => handle_relogin p m
  | Text text => handle_line p text
  | GetCS m => handle_cs_request p m
  | BlacklistHostEnv m => handle_blacklist_host_env p m
  | _ => _ ← handle_end p; mret false
  end.

Definition handle_activity (p : ptr) : sched bool :=
  m ← on_channel p (ch_get 0 true);
  match m with
  | None => _ ← handle_end p; mret false
  | Some m =>
      cs ← deref_cs p;
      if decide (cs_st cs = CONNECTED) then try_login p m else handle_msg p m
  end.

(** ** Assigning jobs *)

(** [pick_server] on the state; [random] is called only by the algorithm. *)
Definition needs_random (stats : bool) (job : Job) (sub : CompileServer)
    (css : list (ptr * CompileServer)) : bool :=
  bool_decide (j_preferredHost job = ""%string)
  && (2 <=? Z.of_nat (length (filter_ineligible_servers job sub css)))
  && match scheduler_algo with
     | ALG_NONE | UNDEFINED | RANDOM => true
     | ROUND_ROBIN | LEAST_BUSY => false
     | FASTEST =>
         negb stats
     end.

Definition pick (j : ptr) : sched (option ptr) :=
  job ← deref_job j;
  sub ← deref_cs (j_submitter job);
  l ← gets s_css;
  css ← deref_all l;
  stats ← gets (fun s => negb (bool_decide (s_all_job_stats s = [])));
  r ← (if needs_random stats job sub css then random else mret 0);
  mret (fst <$> pick_server scheduler_algo submission_weight stats r job sub css).

(** The submitter takes its own job when it has a free slot. *)
Definition submitter_takes (job : Job) (sub : CompileServer) : bool :=
  (currentJobCount sub <? cs_maxJobs sub)
  && bool_decide (j_preferredHost job = ""%string)
  && nonempty (can_install (j_submitter job) sub job sub false).

(** Whether somebody could compile the job at another time. *)
Definition somebody_ever (job : Job) (sub : CompileServer) (css : list (ptr * CompileServer))
  : bool :=
  existsb (fun s : ptr * CompileServer =>
    negb (bool_decide (j_preferredHost job <> ""%string)
          && negb (matches s.2 (j_preferredHost job)))
    && is_eligible_ever s.1 s.2 job sub) css.

(** The loop of [empty_queue]: the job to assign is [j], the position in the
    queue [pos]. The result is the position and the server, [None] when the
    jobs have to wait. *)
Fixpoint find_server (fuel : nat) (j : ptr) (pos : positive * ptr)
  : sched (option (positive * ptr * ptr * ptr)) :=
  use_cs ← pick j;
  match use_cs with
  | Some u => mret (Some (pos, j, u))
  | None =>
      job ← deref_job j;
      sub ← deref_cs (j_submitter job);
      if submitter_takes job sub then mret (Some (pos, j, j_submitter job))
      else
        next ← get_next_job_request pos;
        match next, fuel with
        | Some pos, S fuel => find_server fuel j pos
        | Some _, O => throw Aborted
        | None, _ =>
            first ← get_first_job_request;
            pos ← need AssertFailed first;
            let j := pos.2 in
            job ← deref_job j;
            sub ← deref_cs (j_submitter job);
            l ← gets s_css;
            css ← deref_all l;
            if somebody_ever job sub css then mret None
            else mret (Some (pos, j, j_submitter job))
        end
  end.

(** The number of requests in the queue bounds the loop. *)
Definition queue_length (q : list JobRequestsGroup) : nat := length (concat (map g_l q)).

(** A job id both the submitter's and the server's last jobs have. *)
Definition matched_job_id (requested compiled : list JobStat) : Z :=
  match filter (fun id => id <> 0 /\ id ∈ map js_jobId (take 17 compiled))
          (map js_jobId (take 17 requested)) with
  | id :: _ => id
  | [] => 0
  end.

Definition assign (j u : ptr) : sched unit :=
  _ ← update_job j (fun job => set_job_server (Some u) (set_job_state WAITINGFORCS job));
  job ← deref_job j;
  cs ← deref_cs u;
  sub ← deref_cs (j_submitter job);
  let env := envs_match u cs job in
  let gotit := nonempty env in
  let host_platform := if gotit then env else can_install u cs job sub false in
  let matched := matched_job_id (cs_lastRequestedJobs sub) (cs_lastCompiledJobs cs) in
  sent ← cs_send (j_submitter job)
           (if is_protocol_version 37 (cs_channel sub) && bool_decide (u = j_submitter job)
            then NoCS (mkNoCSMsg (j_id job) (j_localClientId job))
            else UseCS (new_UseCSMsg host_platform (cs_name cs) (cs_remotePort cs) (j_id job) gotit
                          (j_localClientId job) matched)) SendBlocking;
  if negb sent then handle_end (j_submitter job)
  else
    _ ← update_cs u (appendJob j (j_id job));
    t ← now;
    _ ← when (negb gotit) (update_cs u (set_cs_busyInstalling t));
    let env := match j_masterJobFor job with
               | [] => ""%string
               | _ => default ""%string (snd <$> head (filter
                        (fun e : string * string => e.1 = cs_hostPlatform cs) (j_environments job)))
               end in
    when (nonempty env)
      (for_each (fun t => update_job t (set_job_environments [(cs_hostPlatform cs, env)]))
         (j_masterJobFor job)).

Definition empty_queue : sched bool :=
  first ← get_first_job_request;
  match first with
  | None => mret false
  | Some pos =>
      s ← get;
      _ ← assert (negb (bool_decide (s_css s = [])));
      r ← find_server (queue_length (s_job_requests s)) pos.2 pos;
      match r with
      | None => mret false
      | Some (pos, j, u) =>
          _ ← remove_job_request pos;
          _ ← assign j u;
          mret true
      end
  end.

(** ** The main loop *)

(** [prune_servers]: [test] gives for each server what [socket], [connect]
    and [getsockopt] return in [startInConnectionTest]. *)
Definition start_test (test : ptr -> Z * connect_result * option Z) (p : ptr) : sched unit :=
  t ← now;
  cs ← deref_cs p;
  let '(fd, r, error) := test p in
  match startInConnectionTest t fd r error cs with
  | Ok cs => update_cs p (fun _ => cs)
  | Fault f => throw f
  end.

Fixpoint prune_controls (l : list ptr) (min_time : Z) : sched Z :=
  match l with
  | [] => mret min_time
  | p :: l =>
      t ← now;
      slow ← gets s_slow;
      cs ← deref_cs p;
      let last_talk := c_last_talk (cs_channel cs) in
      if MAX_SCHEDULER_PING slow <=? t - last_talk then
        _ ← handle_end p; prune_controls l min_time
      else prune_controls l (Z.min min_time (MAX_SCHEDULER_PING slow - t + last_talk))
  end.

Definition prune_server (test : ptr -> Z * connect_result * option Z) (p : ptr) (min_time : Z)
  : sched Z :=
  _ ← start_test test p;
  t ← now;
  slow ← gets s_slow;
  cs ← deref_cs p;
  let timeout := getNextTimeout t cs in
  let min_time := if timeout =? -1 then min_time else Z.min min_time timeout in
  let last_talk := c_last_talk (cs_channel cs) in
  if negb (cs_busyInstalling cs =? 0) && (MAX_BUSY_INSTALLING slow <=? t - cs_busyInstalling cs)
  then _ ← handle_end p; mret min_time
  else if is_protocol_version 27 (cs_channel cs) then mret min_time
  else if MAX_SCHEDULER_PING slow <=? t - last_talk then
    alive ← (if 0 <=? cs_maxJobs cs then
               _ ← update_cs p (fun cs => set_cs_maxJobs (cs_maxJobs cs * -1) cs);
               cs_send p PingMsg SendBlocking
             else mret false);
    if alive : bool then
      _ ← set_talk (t - MAX_SCHEDULER_PING slow + 2 * MAX_SCHEDULER_PONG slow) p;
      mret (Z.min min_time (2 * MAX_SCHEDULER_PONG slow))
    else _ ← handle_end p; mret min_time
  else mret (Z.min min_time (MAX_SCHEDULER_PING slow - t + last_talk)).

Fixpoint prune_css (test : ptr -> Z * connect_result * option Z) (l : list ptr) (min_time : Z)
  : sched Z :=
  match l with
  | [] => mret min_time
  | p :: l => min_time ← prune_server test p min_time; prune_css test l min_time
  end.

Definition prune_servers (test : ptr -> Z * connect_result * option Z) : sched Z :=
  slow ← gets s_slow;
  controls ← gets s_controls;
  min_time ← prune_controls controls (MAX_SCHEDULER_PING slow);
  css ← gets s_css;
  prune_css test css min_time.

(** [while (!l.empty()) handle_end(l.front(), nullptr);] *)
Fixpoint end_all (fuel : nat) (l : Scheduler -> list ptr) : sched unit :=
  ps ← gets l;
  match ps, fuel with
  | [], _ => mret tt
  | p :: _, S fuel => _ ← handle_end p; end_all fuel l
  | _, O => throw Aborted
  end.

(** Whether the scheduler an announcement comes from is preferred. *)
Definition announced_preferred (starttime other_protocol_version other_time : Z) : bool :=
  (PROTOCOL_VERSION <? other_protocol_version)
  || ((other_protocol_version =? PROTOCOL_VERSION) && (other_time <? starttime)).

Definition handle_scheduler_announce (buf netname : list byte) (persistent_clients : bool)
  : sched unit :=
  match getSchedulerVersionData buf with
  | Fault f => throw f
  | Ok (other_protocol_version, other_time, other_netname) =>
      s ← get;
      when ((36 <=? other_protocol_version) && bool_decide (other_netname = netname)
            && announced_preferred (s_starttime s) other_protocol_version other_time
            && negb persistent_clients)
        (_ ← end_all (length (s_css s)) s_css;
         s ← get;
         end_all (length (s_monitors s)) s_monitors)
  end.

(** A datagram on the broadcast socket: the answer to send, if any. *)
Definition handle_broadcast (buf netname : list byte) (persistent_clients : bool)
  : sched (option (list byte)) :=
  match isSchedulerDiscovery buf (length buf) with
  | Some daemon_version =>
      s ← get;
      mret (if MIN_PROTOCOL_VERSION <=? daemon_version
            then (fun b => prepareBroadcastReply b netname (s_starttime s)) <$> head buf else None)
  | None =>
      _ ← when (isSchedulerVersion buf (length buf))
            (handle_scheduler_announce buf netname persistent_clients);
      mret None
  end.

(** [while (!cs->read_a_bit() || cs->has_msg()) if (!handle_activity(cs)) break;] *)
Fixpoint drain (fuel : nat) (p : ptr) : sched unit :=
  match fuel with
  | O => mret tt
  | S fuel =>
      ok ← on_channel p ch_read;
      cs ← deref_cs p;
      when (negb ok || has_msg (cs_channel cs))
        (more ← handle_activity p; when more (drain fuel p))
  end.

(** A connection of a host, over the channel its constructor built; and one
    of the control port. *)
Definition accept_host (fuel : nat) (c : MsgChannel) : sched unit :=
  t ← now;
  let c := set_last_talk t c in
  if c_protocol c =? 0 then mret tt
  else
    p ← alloc;
    _ ← modify (fun s => set_s_servers (<[p := new_CompileServer c]> (s_servers s))
                           (set_s_fd2cs (<[c_fd c := p]> (s_fd2cs s)) s));
    drain fuel p.

(** The result says whether the round goes on. *)
Definition accept_control (fuel : nat) (c : MsgChannel) : sched bool :=
  p ← alloc;
  _ ← modify (fun s => set_s_servers (<[p := new_CompileServer c]> (s_servers s))
                         (set_s_fd2cs (<[c_fd c := p]> (s_fd2cs s)) s));
  ok ← handle_control_login p;
  if ok : bool then _ ← drain fuel p; mret true else _ ← handle_end p; mret false.

(** The scan of the connections with complete messages: the descriptors that
    are to be polled. The iterator is advanced before the handlers run; [it] is
    the key of the entry it is at. Erasing that entry invalidates it. *)
Fixpoint handle_pending (fuel : nat) (p : ptr) : sched bool :=
  match fuel with
  | O => mret true
  | S fuel =>
      cs ← deref_cs p;
      if has_msg (cs_channel cs) then
        ok ← handle_activity p; if ok : bool then handle_pending fuel p else mret false
      else mret true
  end.

Fixpoint scan_connections (fuel msgs : nat) (it : option (Z * positive)) : sched (list Z) :=
  match it, fuel with
  | Some (k, _), S fuel =>
      m ← gets s_fd2cs;
      p ← need UseAfterFree (m !! k);
      let next := next_key (Some k) m in
      ok ← handle_pending msgs p;
      fds ← scan_connections fuel msgs next;
      mret (if ok : bool then k :: fds else fds)
  | _, _ => mret []
  end.
Definition scan_all (msgs : nat) : sched (list Z) :=
  m ← gets s_fd2cs;
  scan_connections (size m) msgs (next_key None m).
End dispatch.
