(* ===== verification/SchedulerMain.v ===== *)
(** * The scheduler's main loop (scheduler/scheduler.cpp)

    [main] once the sockets are open: the rounds of its loop and the shutdown.
    What a round gets from outside is a [Round]: the answers of the system in
    the order in which the code asks. Time passes during [poll] only.

    Not modelled: the options, the sockets' opening, the file with the
    process id. *)

From Stdlib Require Import ZArith Lia.
From Stdlib Require Import Strings.Byte Strings.String.
From stdpp Require Import base tactics option list gmap sets strings.
From S2P Require Import Prelude MsgChannel CompileJob Msg Interface Transport Discovery CompileServer SchedulingAlgo Scheduler Handlers Dispatch.

#[local] Open Scope Z_scope.

(** ** State *)

(** What the scheduler sends by datagram: to all, or to one that asked. *)
Inductive datagram : Type :=
| Announced (data : list byte)
| Answered (to : string) (data : list byte).

Record SchedulerMain : Type := mkSchedulerMain {
  mn_sched : Scheduler;
  mn_next_listen : Z;
  mn_last_announce : Z;
  mn_sent : list datagram
}.
Definition set_mn_sched (v : Scheduler) (s : SchedulerMain) : SchedulerMain :=
  mkSchedulerMain v (mn_next_listen s) (mn_last_announce s) (mn_sent s).
Definition set_mn_next_listen (v : Z) (s : SchedulerMain) : SchedulerMain :=
  mkSchedulerMain (mn_sched s) v (mn_last_announce s) (mn_sent s).
Definition set_mn_last_announce (v : Z) (s : SchedulerMain) : SchedulerMain :=
  mkSchedulerMain (mn_sched s) (mn_next_listen s) v (mn_sent s).
Definition send_datagrams (l : list datagram) (s : SchedulerMain) : SchedulerMain :=
  mkSchedulerMain (mn_sched s) (mn_next_listen s) (mn_last_announce s) (mn_sent s ++ l).
Abbreviation in_main := (M SchedulerMain).

Definition lift {A} (m : sched A) : in_main A := fun s =>
  match m (mn_sched s) with
  | Ok (a, s') => Ok (a, set_mn_sched s' s)
  | Fault f => Fault f
  end.

(** ** What comes from outside *)

Inductive poll_answer : Type :=
| Poll_interrupted
| Poll_failed
| Poll_ready (revents : Z -> Z).

Inductive received : Type :=
| Received (data : list byte) (from : string)
| Not_received (again : bool).

Record Round : Type := mkRound {
  (** [random()], from here on *)
  r_random : list Z;
  (** [socket], [connect] and [getsockopt] of the tests that start *)
  r_test : ptr -> Z * connect_result * option Z;
  (** [poll], given the descriptors and the time-out *)
  r_poll : list (Z * Z) -> Z -> poll_answer;
  (** the seconds it took, and what arrived meanwhile *)
  r_elapsed : nat;
  r_arrivals : list (ptr * (MsgChannel -> MsgChannel));
  (** [accept] until it fails, as the channels that result, given the
      descriptors in use; and on the control port *)
  r_hosts : list (gset Z -> MsgChannel);
  r_control : option (gset Z -> MsgChannel);
  (** [recvfrom] *)
  r_datagram : received;
  (** the [n]-th [getsockopt(SO_ERROR)] on a descriptor in the last loop *)
  r_error : Z -> nat -> option Z
}.

(** While the scheduler sleeps. *)
Definition arrive (s : Scheduler) (e : ptr * (MsgChannel -> MsgChannel)) : Scheduler :=
  match s_servers s !! e.1 with
  | Some cs => set_s_servers (<[e.1 := set_cs_channel (e.2 (cs_channel cs)) cs]> (s_servers s)) s
  | None => s
  end.
Definition sleep (n : nat) (arrivals : list (ptr * (MsgChannel -> MsgChannel))) (s : Scheduler)
  : Scheduler :=
  fold_left arrive arrivals (set_s_now (s_now s + Z.of_nat n) s).

Section main.
Context `{Channels}.
Context (version : string) (alg : SchedulerAlgorithmName) (weight : Z).
(** The options, the sockets, and a bound on the messages one peer sends. *)
Context (netname : list byte) (persistent_clients : bool).
Context (listen_fd text_fd broad_fd : Z) (msgs : nat).

(** ** Before [poll] *)

(** [while (empty_queue(...)) continue;]: whether it ended. *)
Fixpoint empty_queues (fuel : nat) : sched bool :=
  match fuel with
  | O => mret false
  | S fuel => more ← empty_queue alg weight; if more : bool then empty_queues fuel else mret true
  end.

Definition announce : in_main unit :=
  s ← get;
  when (mn_last_announce s + 120 <? s_now (mn_sched s))
    (match broadcastSchedulerVersion netname (s_starttime (mn_sched s)) with
     | Ok l => modify (fun s =>
         set_mn_last_announce (s_now (mn_sched s)) (send_datagrams (map Announced l) s))
     | Fault f => throw f
     end).

(** [cs_in_tsts], with the descriptors of the tests. *)
Definition tests_in_progress : sched (list (ptr * Z)) :=
  css ← gets s_css;
  l ← deref_all css;
  mret (map (fun e => (e.1, cs_inFd e.2)) (filter (fun e => getConnectionInProgress e.2 = true) l)).

Definition pollfds (listening : bool) (fds : list Z) (tests : list (ptr * Z)) : list (Z * Z) :=
  (if listening then [(listen_fd, POLLIN); (text_fd, POLLIN)] else [])
  ++ [(broad_fd, POLLIN)] ++ map (fun fd => (fd, POLLIN)) fds
  ++ map (fun e : ptr * Z => (e.2, Z.lor POLLIN POLLOUT)) tests.

(** What [poll] returns: how many descriptors are ready. *)
Definition ready_count (fds : list (Z * Z)) (revents : Z -> Z) : Z :=
  Z.of_nat (length (filter (fun e : Z * Z => revents e.1 <> 0) fds)).

(** ** After [poll] *)

(** The descriptors the scheduler has open. *)
Definition open_fds (s : Scheduler) : gset Z :=
  list_to_set ([listen_fd; text_fd; broad_fd]
    ++ map (fun e : positive * CompileServer => c_fd (cs_channel e.2)) (map_to_list (s_servers s))
    ++ map (fun e : positive * CompileServer => cs_inFd e.2) (map_to_list (s_servers s))).

Fixpoint accept_hosts (l : list (gset Z -> MsgChannel)) : sched unit :=
  match l with
  | [] => mret tt
  | f :: l => s ← get; _ ← accept_host msgs (f (open_fds s)); accept_hosts l
  end.

Definition accept_controls (o : option (gset Z -> MsgChannel)) : sched bool :=
  match o with
  | None => mret true
  | Some f => s ← get; accept_control version msgs (f (open_fds s))
  end.

(** The result is the exit status of the program, if it ends. *)
Definition broadcast (r : received) : in_main (option Z) :=
  match r with
  | Not_received again => mret (if again then None else Some (-1))
  | Received data from =>
      answer ← lift (handle_broadcast (take BROAD_BUFLEN data) netname persistent_clients);
      _ ← match answer with
          | Some b => modify (send_datagrams [Answered from b])
          | None => mret tt
          end;
      mret None
  end.

(** The connections that are ready, while [poll] has counted more; the
    iterator is advanced first, as in [scan_connections]. *)
Fixpoint read_connections (fuel : nat) (set : Z -> Z -> bool) (active : Z)
    (it : option (Z * positive)) : sched Z :=
  if active <=? 0 then mret active else
  match it, fuel with
  | Some (k, _), S fuel =>
      m ← gets s_fd2cs;
      p ← need UseAfterFree (m !! k);
      let next := next_key (Some k) m in
      if set k POLLIN then _ ← drain msgs p; read_connections fuel set (active - 1) next
      else read_connections fuel set active next
  | _, _ => mret active
  end.
Definition read_all (set : Z -> Z -> bool) (active : Z) : sched Z :=
  m ← gets s_fd2cs;
  read_connections (size m) set active (next_key None m).

(** [updateInConnectivity] on the object of a server. *)
Definition connectivity (accepting : bool) (p : ptr) : sched unit :=
  t ← now;
  cs ← deref_cs p;
  match updateInConnectivity t accepting cs with
  | Ok cs => update_cs p (fun _ => cs)
  | Fault f => throw f
  end.

(** The end of a connection test. The conditions are evaluated from the left;
    where the first one gets to [isConnected] the second one calls it again. *)
Definition finish_test (error : Z -> nat -> option Z) (set : Z -> Z -> bool) (active : Z) (p : ptr)
  : sched Z :=
  css ← gets s_css;
  if negb (bool_decide (p ∈ css)) then mret active else
  cs ← deref_cs p;
  if negb (getConnectionInProgress cs) then mret active else
  t ← now;
  let fd := cs_inFd cs in
  let hit := set fd (Z.lor POLLIN POLLOUT) in
  let asked := (0 <? active) && hit in
  if asked && isConnected t (error fd 0%nat) cs then
    _ ← connectivity true p; mret (active - 1)
  else if ((active =? 0) || hit)
          && negb (isConnected t (error fd (if asked then 1 else 0)%nat) cs) then
    _ ← connectivity false p; mret active
  else mret active.

Fixpoint finish_tests (error : Z -> nat -> option Z) (set : Z -> Z -> bool) (active : Z)
    (tests : list (ptr * Z)) : sched unit :=
  match tests with
  | [] => mret tt
  | e :: tests =>
      active ← finish_test error set active e.1; finish_tests error set active tests
  end.

(** The rest of a round; a control connection that is not accepted skips the
    remainder. *)
Definition after_poll (w : Round) (tests : list (ptr * Z)) (set : Z -> Z -> bool) (active : Z)
  : in_main (option Z) :=
  active ← (if set listen_fd POLLIN then
              _ ← lift (accept_hosts (r_hosts w));
              _ ← modify (fun s => set_mn_next_listen (s_now (mn_sched s) + 1) s);
              mret (active - 1)
            else mret active);
  let control := negb (active =? 0) && set text_fd POLLIN in
  go ← (if control then lift (accept_controls (r_control w)) else mret true);
  let active := if control then active - 1 else active in
  if negb go then mret None else
  let asked := negb (active =? 0) && set broad_fd POLLIN in
  code ← (if asked then broadcast (r_datagram w) else mret None);
  let active := if asked then active - 1 else active in
  match code with
  | Some code => mret (Some code)
  | None =>
      active ← lift (read_all set active);
      _ ← lift (finish_tests (r_error w) set active tests);
      mret None
  end.

(** ** The loop *)

Definition turn (w : Round) : in_main (option Z) :=
  _ ← lift (modify (set_s_random (r_random w)));
  timeout ← lift (prune_servers (r_test w));
  s ← get;
  ended ← lift (empty_queues (S (queue_length (s_job_requests (mn_sched s)))));
  _ ← (if ended : bool then mret tt else throw Aborted);
  _ ← announce;
  s ← get;
  let listening := mn_next_listen s <=? s_now (mn_sched s) in
  fds ← lift (scan_all msgs);
  tests ← lift tests_in_progress;
  let fds := pollfds listening fds tests in
  _ ← lift (modify (sleep (r_elapsed w) (r_arrivals w)));
  match r_poll w fds (timeout * 1000) with
  | Poll_interrupted => mret None
  | Poll_failed => mret (Some 1)
  | Poll_ready revents => after_poll w tests (pollfd_is_set fds revents) (ready_count fds revents)
  end.

Definition shutdown : sched unit :=
  css ← gets s_css;
  _ ← end_all (length css) s_css;
  monitors ← gets s_monitors;
  end_all (length monitors) s_monitors.

(** The rounds up to the signal that ends the program, or an error. *)
Fixpoint rounds (ws : list Round) : in_main (option Z) :=
  match ws with
  | [] => mret None
  | w :: ws => code ← turn w; match code with None => rounds ws | Some code => mret (Some code) end
  end.
Definition main_loop (ws : list Round) : in_main Z :=
  code ← rounds ws;
  match code with
  | Some code => mret code
  | None => _ ← lift shutdown; mret 0
  end.

Definition started (t : Z) (slow : bool) (sent : list datagram) : SchedulerMain :=
  mkSchedulerMain (initial t slow) 0 t sent.
(** [main], from the first announcement on. *)
Definition main (t : Z) (slow : bool) (ws : list Round) : res (Z * SchedulerMain) :=
  match broadcastSchedulerVersion netname t with
  | Ok l => main_loop ws (started t slow (map Announced l))
  | Fault f => Fault f
  end.
End main.
