(* ===== verification/QueueFacts.v ===== *)
(** * The queue of job requests

    The invariant of the queue (groups sorted by niceness, none empty, one per
    submitter and niceness, no request twice), that each operation keeps it,
    and what the operations do: requests of a submitter stay in the order they
    came, and submitters of the same niceness take turns. *)

From Stdlib Require Import ZArith Lia Sorted.
From Stdlib Require Import Strings.Byte Strings.String.
From stdpp Require Import base tactics option list gmap strings.
From S2P Require Import Prelude MsgChannel CompileJob Msg Interface CompileServer Scheduler Handlers.

#[local] Open Scope Z_scope.

Definition g_key (g : JobRequestsGroup) : ptr * Z := (g_submitter g, g_niceness g).
Definition not_before (a b : JobRequestsGroup) : Prop := g_niceness a <= g_niceness b.
Definition queue_jobs (q : list JobRequestsGroup) : list ptr := concat (map g_l q).

Record queue_ok (q : list JobRequestsGroup) : Prop := {
  q_sorted : StronglySorted not_before q;
  q_nonempty : Forall (fun g => g_l g <> []) q;
  q_keys : NoDup (map g_key q);
  q_ptrs : NoDup (map g_ptr q);
  q_jobs : NoDup (queue_jobs q)
}.

(** ** Groups in and out *)

(** A group can be replaced by one with the same key and address. *)
Lemma enqueue_in_cases newone j sub n q :
  queue_ok q ->
  (exists q1 g q2, q = (q1 ++ g :: q2) /\ g_key g = (sub, n) /\
     enqueue_in newone j sub n q = q1 ++ set_g_l (g_l g ++ [j]) g :: q2) \/
  (exists q1 q2, q = q1 ++ q2 /\ ((sub, n) ∉ map g_key q) /\
     Forall (fun g => g_niceness g <= n) q1 /\ Forall (fun g => n < g_niceness g) q2 /\
     enqueue_in newone j sub n q = q1 ++ mkGroup newone [j] sub n :: q2).
Proof.
  intros [Hs _ Hk _ _]. induction q as [|g q IH]; cbn [enqueue_in].
  { right. exists [], []. repeat split; try constructor. apply not_elem_of_nil. }
  apply StronglySorted_inv in Hs as [Hs Hg]. cbn in Hk. apply NoDup_cons in Hk as [Hgk Hk].
  destruct (bool_decide _ && _) eqn:E.
  { apply andb_true_iff in E as [E1 E2]. apply bool_decide_eq_true in E1. apply Z.eqb_eq in E2.
    left. exists [], g, q. split; [done|]. split; [unfold g_key; congruence|done]. }
  assert (g_key g <> (sub, n)) as Hne.
  { intros [= E1 E2]. rewrite (bool_decide_true _ E1), E2, Z.eqb_refl in E. done. }
  destruct (n <? g_niceness g) eqn:En; boolify.
  - right. exists [], (g :: q). split; [done|]. split.
    + cbn. rewrite not_elem_of_cons. split; [done|]. intros Hin.
      apply list_elem_of_fmap in Hin as (g' & [= _ En'] & Hin).
      rewrite Forall_forall in Hg. specialize (Hg _ Hin). unfold not_before in Hg. lia.
    + split; [constructor|]. split; [|done]. constructor; [done|].
      eapply Forall_impl; [exact Hg|]. unfold not_before. intros. lia.
  - destruct (IH Hs Hk) as [(q1 & g' & q2 & -> & Hk' & ->)|(q1 & q2 & -> & Hni & H1 & H2 & ->)].
    + left. by exists (g :: q1), g', q2.
    + right. exists (g :: q1), q2. split; [done|]. split; [cbn; by rewrite not_elem_of_cons|].
      split; [by constructor|done].
Qed.

Lemma StronglySorted_insert q1 g q2 :
  StronglySorted not_before (q1 ++ q2) ->
  Forall (fun x => g_niceness x <= g_niceness g) q1 ->
  Forall (fun x => g_niceness g <= g_niceness x) q2 ->
  StronglySorted not_before (q1 ++ g :: q2).
Proof.
  induction q1 as [|x q1 IH]; cbn; intros Hs H1 H2.
  - by constructor.
  - apply StronglySorted_inv in Hs as [Hs Hx]. apply Forall_cons in H1 as [Hx1 H1].
    constructor; [by apply IH|]. apply Forall_app in Hx as [Ha Hb].
    apply Forall_app. split; [done|]. by constructor.
Qed.

Lemma map_middle {A} (f : JobRequestsGroup -> A) q1 g g' q2 :
  f g = f g' -> map f (q1 ++ g :: q2) = map f (q1 ++ g' :: q2).
Proof. intros E. rewrite !map_app. cbn. by rewrite E. Qed.

Lemma StronglySorted_middle q1 g g' q2 :
  g_niceness g = g_niceness g' ->
  StronglySorted not_before (q1 ++ g :: q2) -> StronglySorted not_before (q1 ++ g' :: q2).
Proof.
  intros E. induction q1 as [|x q1 IH]; cbn; intros [Hs Hx]%StronglySorted_inv.
  - constructor; [done|]. eapply Forall_impl; [exact Hx|]. unfold not_before. intros. lia.
  - constructor; [by apply IH|]. apply Forall_app in Hx as [Ha Hb]. apply Forall_cons in Hb as [Hb Hc].
    apply Forall_app. split; [done|]. constructor; [|done]. unfold not_before in *. lia.
Qed.

Lemma queue_jobs_app q1 q2 : queue_jobs (q1 ++ q2) = queue_jobs q1 ++ queue_jobs q2.
Proof. unfold queue_jobs. by rewrite map_app, concat_app. Qed.
Lemma queue_jobs_cons g q : queue_jobs (g :: q) = g_l g ++ queue_jobs q.
Proof. done. Qed.

Lemma in_queue_jobs j q : j ∈ queue_jobs q <-> exists g, g ∈ q /\ j ∈ g_l g.
Proof.
  unfold queue_jobs. induction q as [|g q IH]; cbn.
  - split; [intros H; by apply elem_of_nil in H|intros (g & H & _); by apply elem_of_nil in H].
  - rewrite elem_of_app, IH. split.
    + intros [H|(g' & H1 & H2)]; [exists g|exists g']; rewrite elem_of_cons; auto.
    + intros (g' & [->|H1]%elem_of_cons & H2); eauto.
Qed.

(** Replacing the list of one group. *)
Lemma queue_ok_replace q1 g q2 l :
  queue_ok (q1 ++ g :: q2) -> l <> [] -> NoDup (queue_jobs (q1 ++ set_g_l l g :: q2)) ->
  queue_ok (q1 ++ set_g_l l g :: q2).
Proof.
  intros [Hs Hn Hk Hp _] Hl Hj. split; [|..|done].
  - by eapply StronglySorted_middle; [|exact Hs].
  - apply Forall_app in Hn as [Ha Hb]. apply Forall_cons in Hb as [_ Hb].
    apply Forall_app. split; [done|]. by constructor.
  - by rewrite <- (map_middle g_key q1 g).
  - by rewrite <- (map_middle g_ptr q1 g).
Qed.

Lemma queue_ok_insert q1 g q2 :
  queue_ok (q1 ++ q2) -> g_l g <> [] -> g_key g ∉ map g_key (q1 ++ q2) ->
  g_ptr g ∉ map g_ptr (q1 ++ q2) ->
  NoDup (g_l g) -> (forall j, j ∈ g_l g -> j ∉ queue_jobs (q1 ++ q2)) ->
  Forall (fun x => g_niceness x <= g_niceness g) q1 ->
  Forall (fun x => g_niceness g <= g_niceness x) q2 ->
  queue_ok (q1 ++ g :: q2).
Proof.
  intros [Hs Hn Hk Hp Hj] Hl Hkg Hpg Hnd Hjg H1 H2. split.
  - by apply StronglySorted_insert.
  - apply Forall_app in Hn as [Ha Hb]. apply Forall_app. split; [done|]. by constructor.
  - rewrite map_app in *. cbn. rewrite <- Permutation_middle. by constructor.
  - rewrite map_app in *. cbn. rewrite <- Permutation_middle. by constructor.
  - rewrite queue_jobs_app, queue_jobs_cons.
    rewrite queue_jobs_app in Hj, Hjg.
    rewrite app_assoc, (Permutation_app_comm (queue_jobs q1)), <- app_assoc.
    by apply NoDup_app.
Qed.

Lemma enqueue_in_ok newone j sub n q :
  queue_ok q -> newone ∉ map g_ptr q -> j ∉ queue_jobs q ->
  queue_ok (enqueue_in newone j sub n q).
Proof.
  intros Hq Hnew Hj.
  destruct (enqueue_in_cases newone j sub n q Hq)
    as [(q1 & g & q2 & -> & Hk & ->)|(q1 & q2 & -> & Hk & H1 & H2 & ->)].
  - apply queue_ok_replace; [done|by destruct (g_l g)|].
    pose proof (q_jobs _ Hq) as Hnd. rewrite queue_jobs_app, queue_jobs_cons in *. cbn [g_l set_g_l].
    rewrite <- (app_assoc (g_l g)). cbn [app]. rewrite app_assoc, <- Permutation_middle, <- app_assoc.
    by constructor.
  - apply queue_ok_insert; cbn; try done.
    + apply NoDup_singleton.
    + by intros ? ->%list_elem_of_singleton.
    + eapply Forall_impl; [exact H2|]. cbn. lia.
Qed.

Lemma enqueue_group_in_cases g q :
  StronglySorted not_before q ->
  exists q1 q2, q = q1 ++ q2 /\ enqueue_group_in g q = q1 ++ g :: q2 /\
    Forall (fun x => g_niceness x <= g_niceness g) q1 /\
    Forall (fun x => g_niceness g < g_niceness x) q2.
Proof.
  induction q as [|x q IH]; cbn [enqueue_group_in]; intros Hs.
  - by exists [], [].
  - apply StronglySorted_inv in Hs as [Hs Hx]. destruct (_ <? _) eqn:E; boolify.
    + exists [], (x :: q). split; [done|]. split; [done|]. split; [constructor|].
      constructor; [done|]. eapply Forall_impl; [exact Hx|]. unfold not_before. intros. lia.
    + destruct (IH Hs) as (q1 & q2 & -> & -> & H1 & H2). exists (x :: q1), q2.
      split; [done|]. split; [done|]. split; [by constructor|done].
Qed.

(** Taking requests and groups out. *)
Inductive shrinks : list JobRequestsGroup -> list JobRequestsGroup -> Prop :=
| shrinks_nil : shrinks [] []
| shrinks_drop g q' q : shrinks q' q -> shrinks q' (g :: q)
| shrinks_keep l g q' q :
    l <> [] -> sublist l (g_l g) -> shrinks q' q -> shrinks (set_g_l l g :: q') (g :: q).

Lemma shrinks_same g q' q : g_l g <> [] -> shrinks q' q -> shrinks (g :: q') (g :: q).
Proof.
  intros Hg Hs. replace g with (set_g_l (g_l g) g) at 1 by (by destruct g).
  by constructor.
Qed.

Lemma shrinks_refl q : Forall (fun g => g_l g <> []) q -> shrinks q q.
Proof. induction 1; [constructor|by apply shrinks_same]. Qed.

Lemma shrinks_filter (P : JobRequestsGroup -> Prop) `{!forall g, Decision (P g)} q :
  Forall (fun g => g_l g <> []) q -> shrinks (filter P q) q.
Proof.
  induction 1 as [|g q Hg Hq IH]; [constructor|]. rewrite filter_cons.
  destruct (decide (P g)); [by apply shrinks_same|by constructor].
Qed.

Lemma shrinks_map {A} (f : JobRequestsGroup -> A) q' q :
  (forall l g, f (set_g_l l g) = f g) -> shrinks q' q -> sublist (map f q') (map f q).
Proof.
  intros Hf. induction 1; cbn; [constructor|by constructor|]. rewrite Hf. by constructor.
Qed.

Lemma shrinks_jobs q' q : shrinks q' q -> sublist (queue_jobs q') (queue_jobs q).
Proof.
  induction 1; [constructor| |]; rewrite ?queue_jobs_cons.
  - by apply sublist_inserts_l.
  - by apply sublist_app.
Qed.

Lemma queue_ok_shrinks q q' : queue_ok q -> shrinks q' q -> queue_ok q'.
Proof.
  intros [Hs _ Hk Hp Hj] Hsh. split.
  - clear -Hs Hsh. revert Hs. induction Hsh as [|g q' q H IH|l g q' q Hl Hsub H IH]; [constructor|..];
      intros [Hs Hx]%StronglySorted_inv; [by apply IH|].
    constructor; [by apply IH|].
    assert (sublist (map g_niceness q') (map g_niceness q)) as Hn by (by apply shrinks_map).
    rewrite Forall_forall in *. intros y Hy.
    assert (g_niceness y ∈ map g_niceness q) as Hin
      by (eapply elem_of_sublist; [|exact Hn]; apply list_elem_of_fmap; eauto).
    apply list_elem_of_fmap in Hin as (z & E & Hz). specialize (Hx z Hz).
    unfold not_before in *. cbn. lia.
  - clear -Hsh. induction Hsh; [constructor|done|by constructor].
  - eapply sublist_NoDup; [exact Hk|]. by apply shrinks_map.
  - eapply sublist_NoDup; [exact Hp|]. by apply shrinks_map.
  - eapply sublist_NoDup; [exact Hj|]. by apply shrinks_jobs.
Qed.

Lemma filter_all {A} (P : A -> Prop) `{!forall x, Decision (P x)} l :
  Forall P l -> filter P l = l.
Proof.
  induction 1 as [|x l Hx Hl IH]; [done|]. rewrite filter_cons, decide_True by done. by rewrite IH.
Qed.

Lemma find_group_split p q g :
  NoDup (map g_ptr q) -> find_group p q = Some g ->
  exists q1 q2, q = q1 ++ g :: q2 /\ g_ptr g = p /\ filter (fun g => g_ptr g <> p) q = q1 ++ q2.
Proof.
  unfold find_group. induction q as [|x q IH]; intros Hp; [done|].
  cbn [map] in Hp. apply NoDup_cons in Hp as [Hx Hp]. rewrite !filter_cons.
  destruct (decide (g_ptr x = p)) as [Ex|Ex].
  - intros [= ->]. exists [], q. split; [done|]. split; [done|].
    rewrite decide_False by (intros Hn; by apply Hn).
    cbn [app]. apply filter_all. rewrite Forall_forall. intros y Hy Ey. apply Hx.
    rewrite Ex, <- Ey. apply list_elem_of_fmap. eauto.
  - intros E. destruct (IH Hp E) as (q1 & q2 & -> & Eg & Ef). exists (x :: q1), q2.
    split; [done|]. split; [done|]. rewrite decide_True by done. cbn. by rewrite Ef.
Qed.

Lemma erase_first_sublist j l : sublist (erase_first j l) l.
Proof.
  induction l as [|x l IH]; cbn; [done|]. destruct (decide (x = j)).
  - by apply sublist_cons.
  - by apply sublist_skip.
Qed.

(** What [remove_job_request] makes of a queue. *)
Definition without (p : positive) (j : ptr) (g : JobRequestsGroup) (q : list JobRequestsGroup)
  : list JobRequestsGroup :=
  let q := filter (fun g => g_ptr g <> p) q in
  match erase_first j (g_l g) with
  | [] => q
  | l => enqueue_group_in (set_g_l l g) q
  end.

Lemma without_ok p j g q :
  queue_ok q -> find_group p q = Some g -> queue_ok (without p j g q).
Proof.
  intros Hq Hf. destruct (find_group_split p q g (q_ptrs _ Hq) Hf) as (q1 & q2 & -> & Eg & Ef).
  unfold without. rewrite Ef.
  assert (queue_ok (q1 ++ q2)) as Hq'.
  { eapply queue_ok_shrinks; [exact Hq|]. rewrite <- Ef. apply shrinks_filter, Hq. }
  destruct (erase_first j (g_l g)) as [|x l] eqn:El; [done|].
  pose proof (erase_first_sublist j (g_l g)) as Hsub. rewrite El in Hsub.
  destruct (enqueue_group_in_cases (set_g_l (x :: l) g) (q1 ++ q2) (q_sorted _ Hq'))
    as (r1 & r2 & Er & -> & H1 & H2).
  destruct Hq as [_ _ Hk Hp Hj].
  rewrite map_app in Hk, Hp. cbn in Hk, Hp.
  rewrite <- Permutation_middle in Hk, Hp. apply NoDup_cons in Hk as [Hk _], Hp as [Hp _].
  rewrite queue_jobs_app, queue_jobs_cons in Hj.
  rewrite app_assoc, (Permutation_app_comm (queue_jobs q1)), <- app_assoc in Hj.
  apply NoDup_app in Hj as (Hg & Hd & _).
  rewrite Er in Hq'. apply queue_ok_insert; cbn [g_l set_g_l]; rewrite <- ?Er, ?map_app, ?queue_jobs_app.
  - by rewrite Er.
  - done.
  - exact Hk.
  - exact Hp.
  - by eapply sublist_NoDup.
  - intros y Hy. apply Hd. by eapply elem_of_sublist.
  - done.
  - eapply Forall_impl; [exact H2|]. cbn. intros. lia.
Qed.

Lemma purge_shrinks p j q :
  Forall (fun g => g_l g <> []) q -> shrinks (purge_queue p j q) q.
Proof.
  induction 1 as [|g q Hg Hq IH]; cbn [purge_queue]; [constructor|].
  destruct (bool_decide _); [|by apply shrinks_same].
  pose proof (erase_first_sublist j (g_l g)) as He.
  destruct (erase_first j (g_l g)) as [|x l]; constructor; [by apply shrinks_refl|done..].
Qed.
