(* ===== verification/SchedulerFacts.v ===== *)
(** * Facts about the scheduler's handlers

    The interfaces of the properties that the scheduler's operations keep, and
    the invariant of the queue as one of them. *)

From Stdlib Require Import ZArith Lia Sorted.
From Stdlib Require Import Strings.Byte Strings.String.
From stdpp Require Import base tactics option list gmap strings.
From S2P Require Import Prelude MsgChannel CompileJob Msg Interface Transport CompileServer SchedulingAlgo Scheduler Handlers Dispatch QueueFacts.

#[local] Open Scope Z_scope.

(** ** The queue invariant *)

(** The queue is in order and everything in it was allocated. *)
Definition queue_inv (s : Scheduler) : Prop :=
  queue_ok (s_job_requests s) /\
  Forall (fun g => (g_ptr g < s_next s)%positive) (s_job_requests s) /\
  Forall (fun j => (j < s_next s)%positive) (queue_jobs (s_job_requests s)).

Lemma queue_inv_shrinks s q :
  queue_inv s -> shrinks q (s_job_requests s) -> queue_inv (set_s_job_requests q s).
Proof.
  intros (Hq & Hp & Hj) Hs. split; [by eapply queue_ok_shrinks|]. split.
  - assert (sublist (map g_ptr q) (map g_ptr (s_job_requests s))) as Hm by (by apply shrinks_map).
    rewrite Forall_forall in *. intros g Hg. cbn.
    assert (g_ptr g ∈ map g_ptr (s_job_requests s)) as Hin
      by (eapply elem_of_sublist; [|exact Hm]; apply list_elem_of_fmap; eauto).
    apply list_elem_of_fmap in Hin as (g' & -> & Hin). by apply Hp.
  - rewrite Forall_forall in *. intros j Hin. apply Hj.
    eapply elem_of_sublist; [exact Hin|by apply shrinks_jobs].
Qed.

(** ** Invariants of the scheduler

    Most of the scheduler changes little of what an invariant is about. The
    laws below are about its primitives; an invariant that satisfies them is
    kept by every handler that is made of primitives only. *)

(** Equal, but for counters, statistics, blocked hosts, time and chance. *)
Record same_core (s s' : Scheduler) : Prop := {
  sc_servers : s_servers s' = s_servers s;
  sc_heap : s_heap_jobs s' = s_heap_jobs s;
  sc_next : s_next s' = s_next s;
  sc_fd2cs : s_fd2cs s' = s_fd2cs s;
  sc_css : s_css s' = s_css s;
  sc_monitors : s_monitors s' = s_monitors s;
  sc_controls : s_controls s' = s_controls s;
  sc_jobs : s_jobs s' = s_jobs s;
  sc_requests : s_job_requests s' = s_job_requests s
}.

(** What a connection is: its type, its state, its descriptor. *)
Definition same_identity (cs cs' : CompileServer) : Prop :=
  cs_ty cs' = cs_ty cs /\ cs_st cs' = cs_st cs /\
  c_fd (cs_channel cs') = c_fd (cs_channel cs).

Class SchedPrim (I : Scheduler -> Prop) : Prop := {
  si_core : forall s s', same_core s s' -> I s -> I s';
  si_cs : forall p s cs cs', s_servers s !! p = Some cs -> same_identity cs cs' -> I s ->
    I (set_s_servers (<[p := cs']> (s_servers s)) s);
  si_job : forall j s job job', s_heap_jobs s !! j = Some job -> j_id job' = j_id job -> I s ->
    I (set_s_heap_jobs (<[j := job']> (s_heap_jobs s)) s);
  si_alloc : forall s, I s -> I (set_s_next (Pos.succ (s_next s)) s);
  si_queue : forall s q, I s ->
    (Forall (fun g => g_l g <> []) (s_job_requests s) -> shrinks q (s_job_requests s)) ->
    I (set_s_job_requests q s)
}.

#[export] Instance and_prim I J : SchedPrim I -> SchedPrim J -> SchedPrim (fun s => I s /\ J s).
Proof.
  intros HI HJ. split.
  - intros s s' H [H1 H2]. split; by eapply si_core.
  - intros p s cs cs' E Hf [H1 H2]. split; by eapply si_cs.
  - intros j s job job' E Hf [H1 H2]. split; by eapply si_job.
  - intros s [H1 H2]. split; by apply si_alloc.
  - intros s q [H1 H2] Hq. split; by apply si_queue.
Qed.

(** A step that only changes what [same_core] leaves out. *)
Ltac core :=
  apply keeps_modify; intros ? HI0; eapply si_core; [|exact HI0]; split; reflexivity.
Ltac ident := intros ?; repeat split; reflexivity.

(** What a dereference does to the rest of a computation. *)
Lemma deref_cs_bind {A} p (k : CompileServer -> sched A) s :
  (deref_cs p ≫= k) s =
    match s_servers s !! p with Some cs => k cs s | None => Fault UseAfterFree end.
Proof. unfold deref_cs, mbind, M_bind, get. by destruct (s_servers s !! p). Qed.
Lemma deref_job_bind {A} j (k : Job -> sched A) s :
  (deref_job j ≫= k) s =
    match s_heap_jobs s !! j with Some job => k job s | None => Fault UseAfterFree end.
Proof. unfold deref_job, mbind, M_bind, get. by destruct (s_heap_jobs s !! j). Qed.

(** ** Computations made of primitives *)

Section prim.
Context `{ChannelLaws} {I : Scheduler -> Prop} `{!SchedPrim I}.

Lemma keeps_deref_cs p : keeps I (deref_cs p).
Proof. unfold deref_cs. ks. Qed.
Lemma keeps_deref_job j : keeps I (deref_job j).
Proof. unfold deref_job. ks. Qed.
#[local] Hint Resolve keeps_deref_cs keeps_deref_job : icc.
Lemma keeps_deref_server o : keeps I (deref_server o).
Proof. unfold deref_server. ks. Qed.

Lemma deref_cs_spec p s cs s' :
  deref_cs p s = Ok (cs, s') -> s' = s /\ s_servers s !! p = Some cs.
Proof.
  unfold deref_cs. rewrite bind_get. destruct (s_servers s !! p); [|done].
  by intros [= <- <-].
Qed.
Lemma deref_job_spec j s job s' :
  deref_job j s = Ok (job, s') -> s' = s /\ s_heap_jobs s !! j = Some job.
Proof.
  unfold deref_job. rewrite bind_get. destruct (s_heap_jobs s !! j); [|done].
  by intros [= <- <-].
Qed.
Lemma update_cs_spec p f s u s' :
  update_cs p f s = Ok (u, s') -> exists cs, s_servers s !! p = Some cs /\
    s' = set_s_servers (<[p := f cs]> (s_servers s)) s.
Proof.
  unfold update_cs. intros E. apply bind_inv in E as (cs & s1 & E1 & E).
  apply deref_cs_spec in E1 as [-> E1]. injection E as <-. eauto.
Qed.
Lemma update_job_spec j f s u s' :
  update_job j f s = Ok (u, s') -> exists job, s_heap_jobs s !! j = Some job /\
    s' = set_s_heap_jobs (<[j := f job]> (s_heap_jobs s)) s.
Proof.
  unfold update_job. intros E. apply bind_inv in E as (job & s1 & E1 & E).
  apply deref_job_spec in E1 as [-> E1]. injection E as <-. eauto.
Qed.

Lemma keeps_update_cs p f : (forall cs, same_identity cs (f cs)) -> keeps I (update_cs p f).
Proof. intros Hf s u s' HI E. apply update_cs_spec in E as (cs & E & ->). by eapply si_cs. Qed.
Lemma keeps_update_job j f : (forall job, j_id (f job) = j_id job) -> keeps I (update_job j f).
Proof. intros Hf s u s' HI E. apply update_job_spec in E as (job & E & ->). by eapply si_job. Qed.

Lemma keeps_alloc : keeps I alloc.
Proof. intros s p s' HI [= <- <-]. by apply si_alloc. Qed.
Lemma keeps_now : keeps I now.
Proof. apply keeps_gets. Qed.
Lemma keeps_random : keeps I random.
Proof.
  intros s z s' HI. unfold random. rewrite bind_get.
  destruct (s_random s) as [|r l]; intros [= <- <-]; [done|].
  eapply si_core; [|exact HI]. by split.
Qed.

Lemma on_channel_spec {A} p (r : reader A) s a s' :
  on_channel p r s = Ok (a, s') -> exists cs c, s_servers s !! p = Some cs /\
    r (cs_channel cs) = Ok (a, c) /\
    s' = set_s_servers (<[p := set_cs_channel c cs]> (s_servers s)) s.
Proof.
  unfold on_channel. intros E. apply bind_inv in E as (cs & s1 & E1 & E).
  apply deref_cs_spec in E1 as [-> E1]. destruct (r (cs_channel cs)) as [[a0 c]|] eqn:Er; [|done].
  rewrite bind_modify in E. injection E as <- <-. eauto 6.
Qed.
Lemma keeps_on_channel {A} p (r : reader A) :
  (forall c a c', r c = Ok (a, c') -> same_peer c c') -> keeps I (on_channel p r).
Proof.
  intros Hr s a s' HI E. apply on_channel_spec in E as (cs & c & E & Er & ->).
  apply Hr in Er as (Hfd & _). eapply si_cs; [exact E| |exact HI]. by destruct cs.
Qed.
Lemma keeps_cs_send p m f : keeps I (cs_send p m f).
Proof. apply keeps_on_channel. intros c b c'. apply ch_send_peer. Qed.
Lemma keeps_ch_get p t e : keeps I (on_channel p (ch_get t e)).
Proof. apply keeps_on_channel. intros c b c'. apply ch_get_peer. Qed.
Lemma keeps_ch_read p : keeps I (on_channel p ch_read).
Proof. apply keeps_on_channel. intros c b c'. apply ch_read_peer. Qed.
Lemma keeps_set_talk t p : keeps I (set_talk t p).
Proof. apply keeps_update_cs. ident. Qed.

Lemma keeps_notify_with he m : (forall q, keeps I (he q)) -> keeps I (notify_monitors_with he m).
Proof.
  intros Hhe. unfold notify_monitors_with. ks; first [apply keeps_cs_send|apply Hhe].
Qed.
Lemma keeps_not_installing o : keeps I (not_installing o).
Proof. unfold not_installing. destruct o; [apply keeps_update_cs; ident|ks]. Qed.
Lemma keeps_removeJob j sp : keeps I (update_cs sp (removeJob j)).
Proof. apply keeps_update_cs. ident. Qed.
Lemma keeps_job_requests q :
  (forall s, Forall (fun g => g_l g <> []) (s_job_requests s) -> shrinks (q s) (s_job_requests s)) ->
  keeps I (modify (fun s => set_s_job_requests (q s) s)).
Proof. intros Hq. apply keeps_modify. intros s HI. apply si_queue; auto. Qed.
End prim.
#[export] Hint Resolve keeps_deref_cs keeps_deref_job keeps_deref_server keeps_alloc keeps_now
  keeps_random keeps_cs_send keeps_ch_get keeps_ch_read keeps_set_talk keeps_not_installing
  keeps_removeJob : icc.
#[export] Hint Extern 2 (keeps _ (update_cs _ _)) => apply keeps_update_cs; ident : icc.
#[export] Hint Extern 2 (keeps _ (update_job _ _)) => apply keeps_update_job; reflexivity : icc.
#[export] Hint Extern 1 (SchedPrim _) => typeclasses eauto : icc.
#[export] Hint Extern 1 (ChannelLaws) => typeclasses eauto : icc.

Section done.
Context `{ChannelLaws} {I : Scheduler -> Prop} `{!SchedPrim I}.

Lemma keeps_find_by_client p id l found : keeps I (find_by_client p id l found).
Proof.
  revert found. induction l as [|[k j] l IH]; intros found; cbn [find_by_client]; [ks|].
  ks_step; [ks|]. apply keeps_if; [|done]. ks_step; [|done].
  apply keeps_job_requests. intros s. apply purge_shrinks.
Qed.
#[local] Hint Resolve keeps_find_by_client : icc.
Lemma keeps_job_of_done p m : keeps I (job_of_done p m).
Proof. unfold job_of_done. ks. Qed.
Lemma keeps_add_job_stats j m : keeps I (add_job_stats j m).
Proof. unfold add_job_stats. ks; core. Qed.
End done.
#[export] Hint Resolve keeps_find_by_client keeps_job_of_done keeps_add_job_stats : icc.

(** ** Everything else the scheduler does

    Given that the operations that delete or create objects keep an
    invariant, so does every message, the assignment of jobs, pruning and the
    answer to broadcasts. *)

Definition connected (p : ptr) (s : Scheduler) : Prop :=
  exists cs, s_servers s !! p = Some cs /\ cs_st cs = CONNECTED.

Class SchedOps `{Channels} (I : Scheduler -> Prop) : Prop := {
  so_prim :: SchedPrim I;
  so_end : forall p, keeps I (handle_end p);
  so_notify : forall m, keeps I (notify_monitors m);
  so_requests : forall n p m master, keeps I (cs_requests n p m master);
  so_remove : forall pos, keeps I (remove_job_request pos);
  so_done : forall p m, keeps I (handle_job_done p m);
  so_login : forall p m s r s', I s -> connected p s -> try_login p m s = Ok (r, s') -> I s'
}.

#[export] Hint Extern 1 (SchedOps _) => typeclasses eauto : icc.

Section ops.
Context `{ChannelLaws} {I : Scheduler -> Prop} `{!SchedOps I}.
#[local] Hint Resolve so_end so_notify so_requests so_remove so_done : icc.

Lemma keeps_monitor_stats p m : keeps I (handle_monitor_stats p m).
Proof. unfold handle_monitor_stats. ks. Qed.
#[local] Hint Resolve keeps_monitor_stats : icc.

Lemma keeps_send_conf p : keeps I (send_conf p).
Proof. unfold send_conf. ks. Qed.
#[local] Hint Resolve keeps_send_conf : icc.
Lemma keeps_relogin p m : keeps I (handle_relogin p m).
Proof. unfold handle_relogin. ks. Qed.
Lemma keeps_local_job p m : keeps I (handle_local_job p m).
Proof. unfold handle_local_job. ks; core. Qed.
Lemma keeps_local_job_done p id : keeps I (handle_local_job_done p id).
Proof.
  unfold handle_local_job_done. ks. apply keeps_update_cs. intros cs.
  unfold getClientLocalJobId. by destruct (_ !! _).
Qed.
Lemma keeps_job_begin p m : keeps I (handle_job_begin p m).
Proof. unfold handle_job_begin. ks. Qed.
Lemma keeps_revive p : keeps I (update_cs p revive).
Proof. apply keeps_update_cs. intros cs. unfold revive. by destruct (_ <? _). Qed.
#[local] Hint Resolve keeps_revive : icc.
Lemma keeps_ping p : keeps I (handle_ping p).
Proof. unfold handle_ping. ks. Qed.
Lemma keeps_stats p m : keeps I (handle_stats p m).
Proof. unfold handle_stats. ks. Qed.
Lemma keeps_blacklist p m : keeps I (handle_blacklist_host_env p m).
Proof. unfold handle_blacklist_host_env. ks. Qed.
Lemma keeps_cs_request p m : keeps I (handle_cs_request p m).
Proof. unfold handle_cs_request. ks. Qed.
#[local] Hint Resolve keeps_relogin keeps_local_job keeps_local_job_done keeps_job_begin keeps_ping
  keeps_stats keeps_blacklist keeps_cs_request : icc.

Lemma keeps_all_ok {A} (f : A -> sched bool) l : (forall x, keeps I (f x)) -> keeps I (all_ok f l).
Proof. intros Hf. induction l as [|x l IH]; cbn [all_ok]; ks. Qed.
Lemma keeps_say p t : keeps I (say p t).
Proof. apply keeps_cs_send. Qed.
#[local] Hint Resolve keeps_say : icc.
Lemma keeps_dump_job j : keeps I (dump_job j).
Proof. unfold dump_job. ks. Qed.
#[local] Hint Resolve keeps_dump_job : icc.
Lemma keeps_first_match n l : keeps I (first_match n l).
Proof. induction l as [|q l IH]; cbn [first_match]; ks. Qed.
#[local] Hint Resolve keeps_first_match : icc.
Lemma keeps_handle_line p t : keeps I (handle_line p t).
Proof.
  unfold handle_line, cmd_listcs, cmd_listblocks, cmd_listjobs, cmd_removecs, cmd_unblockcs,
    cmd_internals.
  repeat first [apply keeps_all_ok; intros ? | ks_step]; core.
Qed.
#[local] Hint Resolve keeps_handle_line : icc.

Lemma keeps_handle_msg p m : keeps I (handle_msg p m).
Proof. destruct m; cbn [handle_msg]; ks. Qed.
Lemma keeps_activity p : keeps I (handle_activity p).
Proof.
  unfold handle_activity. ks_step; [apply keeps_ch_get|]. destruct a as [m|]; [|ks].
  intros s r s' HI E. apply bind_inv in E as (cs & s1 & E1 & E).
  apply deref_cs_spec in E1 as [-> E1]. destruct (decide _) as [Ec|Ec].
  - eapply so_login; [exact HI| |exact E]. by exists cs.
  - by eapply keeps_handle_msg.
Qed.
#[local] Hint Resolve keeps_activity : icc.

Context (version : string) (alg : SchedulerAlgorithmName) (weight : Z).

Lemma keeps_deref_all l : keeps I (deref_all l).
Proof. induction l as [|q l IH]; cbn [deref_all]; ks. Qed.
#[local] Hint Resolve keeps_deref_all : icc.
Lemma keeps_pick j : keeps I (pick alg weight j).
Proof. unfold pick. ks. Qed.
Lemma keeps_first_request : keeps I get_first_job_request.
Proof. unfold get_first_job_request. ks. Qed.
Lemma keeps_next_request pos : keeps I (get_next_job_request pos).
Proof. unfold get_next_job_request. ks. Qed.
#[local] Hint Resolve keeps_pick keeps_first_request keeps_next_request : icc.
Lemma keeps_find_server fuel j pos : keeps I (find_server alg weight fuel j pos).
Proof. revert pos. induction fuel as [|fuel IH]; intros pos; cbn [find_server]; ks. Qed.
Lemma keeps_assign j u : keeps I (assign j u).
Proof. unfold assign. ks. Qed.
#[local] Hint Resolve keeps_find_server keeps_assign : icc.
Lemma keeps_empty_queue : keeps I (empty_queue alg weight).
Proof. unfold empty_queue. ks. Qed.

Lemma keeps_prune_controls l t : keeps I (prune_controls l t).
Proof. revert t. induction l as [|p l IH]; intros t; cbn [prune_controls]; ks. Qed.

Lemma updateInConnectivity_identity t a cs cs' :
  updateInConnectivity t a cs = Ok cs' -> same_identity cs cs'.
Proof.
  unfold updateInConnectivity. repeat case_match; try done; intros [= <-]; by destruct cs.
Qed.
Lemma startInConnectionTest_identity t fd r e cs cs' :
  startInConnectionTest t fd r e cs = Ok cs' -> same_identity cs cs'.
Proof.
  unfold startInConnectionTest. destruct (_ || _); [by intros [= <-]|].
  assert (forall c, same_identity cs c -> same_identity cs (set_cs_lastConnStartTime t c)) as Hset
    by (by intros c).
  assert (same_identity cs (set_cs_inFd fd cs)) as Hid by done.
  assert (forall a c, updateInConnectivity t a (set_cs_inFd fd cs) = Ok c ->
            same_identity cs (set_cs_lastConnStartTime t c)) as Hu.
  { intros a c Hc%updateInConnectivity_identity. apply Hset. exact Hc. }
  destruct r.
  - destruct (updateInConnectivity _ _ _) eqn:E; intros [= <-]. by eapply Hu.
  - by intros [= <-].
  - destruct (updateInConnectivity _ _ _) eqn:E; intros [= <-]. by eapply Hu.
Qed.
Lemma keeps_start_test test p : keeps I (start_test test p).
Proof.
  unfold start_test. ks_step; [ks|]. intros s u s' HI E.
  apply bind_inv in E as (cs & s1 & E1 & E). apply deref_cs_spec in E1 as [-> E1].
  destruct (test p) as [[fd r] e]. destruct (startInConnectionTest _ _ _ _ _) as [cs'|] eqn:Et; [|done].
  apply update_cs_spec in E as (cs0 & E0 & ->). rewrite E1 in E0. injection E0 as <-.
  eapply si_cs; [exact E1|by eapply startInConnectionTest_identity|exact HI].
Qed.
#[local] Hint Resolve keeps_prune_controls keeps_start_test : icc.
Lemma keeps_prune_server test p t : keeps I (prune_server test p t).
Proof. unfold prune_server. ks. Qed.
#[local] Hint Resolve keeps_prune_server : icc.
Lemma keeps_prune_css test l t : keeps I (prune_css test l t).
Proof. revert t. induction l as [|p l IH]; intros t; cbn [prune_css]; ks. Qed.
#[local] Hint Resolve keeps_prune_css : icc.
Lemma keeps_prune_servers test : keeps I (prune_servers test).
Proof. unfold prune_servers. ks. Qed.
Lemma keeps_end_all fuel l : keeps I (end_all fuel l).
Proof. induction fuel as [|fuel IH]; cbn [end_all]; ks. Qed.
#[local] Hint Resolve keeps_end_all : icc.
Lemma keeps_announce buf netname pc : keeps I (handle_scheduler_announce buf netname pc).
Proof. unfold handle_scheduler_announce. ks. Qed.
#[local] Hint Resolve keeps_announce : icc.
Lemma keeps_broadcast buf netname pc : keeps I (handle_broadcast buf netname pc).
Proof. unfold handle_broadcast. ks. Qed.
Lemma keeps_drain fuel p : keeps I (drain fuel p).
Proof. induction fuel as [|fuel IH]; cbn [drain]; ks. Qed.
Lemma keeps_handle_pending fuel p : keeps I (handle_pending fuel p).
Proof. induction fuel as [|fuel IH]; cbn [handle_pending]; ks. Qed.
#[local] Hint Resolve keeps_handle_pending : icc.
Lemma keeps_scan_connections fuel msgs it : keeps I (scan_connections fuel msgs it).
Proof. revert it. induction fuel as [|fuel IH]; intros it; cbn [scan_connections]; ks. Qed.
#[local] Hint Resolve keeps_scan_connections : icc.
Lemma keeps_scan_all msgs : keeps I (scan_all msgs).
Proof. unfold scan_all. ks. Qed.
End ops.

(** ** Invariants that survive deletions

    [SchedDrop] is for those that survive the deletion of jobs, [SchedWeak]
    for those that survive the deletion of connections too. *)

Class SchedDrop (I : Scheduler -> Prop) : Prop := {
  sd_prim :: SchedPrim I;
  sd_css : forall s p, I s -> I (set_s_css (remove_ptr p (s_css s)) s);
  sd_controls : forall s p, I s -> I (set_s_controls (remove_ptr p (s_controls s)) s);
  sd_erase : forall s id, I s -> I (set_s_jobs (delete id (s_jobs s)) s);
  sd_delete : forall s j, I s -> I (set_s_heap_jobs (delete j (s_heap_jobs s)) s)
}.
Class SchedWeak (I : Scheduler -> Prop) : Prop := {
  sw_drop :: SchedDrop I;
  sw_forget : forall s p fd, I s ->
    I (set_s_servers (delete p (s_servers s)) (set_s_fd2cs (delete fd (s_fd2cs s)) s));
  sw_monitors : forall s p, I s -> I (set_s_monitors (remove_ptr p (s_monitors s)) s)
}.
#[export] Hint Extern 1 (SchedDrop _) => typeclasses eauto : icc.
#[export] Hint Extern 1 (SchedWeak _) => typeclasses eauto : icc.

Section drop.
Context `{ChannelLaws} {I : Scheduler -> Prop} `{!SchedDrop I}.

Lemma keeps_erase_job id : keeps I (erase_job id).
Proof. apply keeps_modify. intros s HI. by apply sd_erase. Qed.
Lemma keeps_delete_job j : keeps I (delete_job j).
Proof.
  unfold delete_job. do 2 (ks_step; [ks|]). apply keeps_modify. intros s HI. by apply sd_delete.
Qed.
#[local] Hint Resolve keeps_erase_job keeps_delete_job : icc.

Section ends.
Context (he : ptr -> sched unit) (Hhe : forall p, keeps I (he p)).
#[local] Hint Extern 1 (keeps _ (notify_monitors_with _ _)) => apply keeps_notify_with : icc.

Lemma drop_end_request j : keeps I (end_request he j).
Proof. unfold end_request, notify_stopped. ks. Qed.
Lemma drop_end_job p e : keeps I (end_job he p e).
Proof. unfold end_job, notify_stopped. ks. Qed.
#[local] Hint Resolve drop_end_request drop_end_job : icc.
Lemma drop_end_daemon p : keeps I (end_daemon he p).
Proof.
  unfold end_daemon. ks.
  - apply keeps_modify. intros s HI. by apply sd_css.
  - apply keeps_job_requests. intros s. apply shrinks_filter.
Qed.
End ends.

Lemma drop_job_done p m :
  (forall q, keeps I (handle_end q)) -> (forall m, keeps I (notify_monitors m)) ->
  keeps I (handle_job_done p m).
Proof. intros He Hn. unfold handle_job_done. ks. Qed.
End drop.

Section weak.
Context `{ChannelLaws} {I : Scheduler -> Prop} `{!SchedWeak I}.

Lemma weak_handle_end_with he p : (forall q, keeps I (he q)) -> keeps I (handle_end_with he p).
Proof.
  intros Hhe. unfold handle_end_with, forget. ks; try by apply drop_end_daemon.
  all: apply keeps_modify; intros s HI;
    first [by apply sd_controls | by apply sw_monitors | by apply sw_forget].
Qed.
Lemma weak_inner_end p : keeps I (handle_end_with (fun _ => throw Aborted) p).
Proof. apply weak_handle_end_with. intros. apply keeps_throw. Qed.
Lemma weak_handle_end p : keeps I (handle_end p).
Proof. apply weak_handle_end_with, weak_inner_end. Qed.
Lemma weak_notify m : keeps I (notify_monitors m).
Proof. apply keeps_notify_with, weak_inner_end. Qed.
Lemma weak_job_done p m : keeps I (handle_job_done p m).
Proof. apply drop_job_done; [apply weak_handle_end|apply weak_notify]. Qed.
End weak.

(** ** The queue invariant is kept *)

Lemma queue_inv_same s s' :
  s_job_requests s' = s_job_requests s -> s_next s' = s_next s -> queue_inv s -> queue_inv s'.
Proof. intros E1 E2 (H1 & H2 & H3). unfold queue_inv. by rewrite E1, E2. Qed.
Ltac qs := first [eapply queue_inv_same; [| |eassumption]; reflexivity
                 |apply keeps_modify; intros ? ?; eapply queue_inv_same; [| |eassumption]; reflexivity].

#[export] Instance queue_inv_weak : SchedWeak queue_inv.
Proof.
  split; [split; [split|..]|..]; intros; try qs.
  - eapply queue_inv_same; [| |eassumption]; by destruct_and?; destruct H.
  - match goal with H : queue_inv _ |- _ => destruct H as (H1 & H2 & H3) end.
    split; [done|]. split; cbn; (eapply Forall_impl; [eassumption|]); cbn; intros; lia.
  - match goal with H : queue_inv _ |- _ => pose proof H as (H1 & _) end.
    apply queue_inv_shrinks; [done|]. match goal with H : _ -> shrinks _ _ |- _ => apply H, H1 end.
Qed.

Section queue.
Context `{ChannelLaws}.

(** A new job is not in the queue. *)
Lemma create_new_job_spec p s j s' :
  create_new_job p s = Ok (j, s') ->
  j = s_next s /\ s_next s' = Pos.succ j /\ s_job_requests s' = s_job_requests s /\
  s_new_job_id s' = u32 (s_new_job_id s + 1) /\
  s_heap_jobs s' = <[j := new_Job (u32 (s_new_job_id s + 1)) p]> (s_heap_jobs s) /\
  s_jobs s' = <[u32 (s_new_job_id s + 1) := j]> (s_jobs s).
Proof.
  unfold create_new_job. rewrite bind_modify, bind_get. intros E.
  apply bind_inv in E as (? & s1 & E1 & E). unfold assert in E1.
  destruct (bool_decide _); [|done]. injection E1 as _ <-.
  apply bind_inv in E as (j' & s2 & E2 & E). injection E as <- <-.
  unfold create_job, alloc in E2. rewrite bind_assoc, bind_get, bind_assoc in E2.
  apply bind_inv in E2 as (? & s3 & [= _ <-] & E2). rewrite bind_ret_l in E2.
  apply bind_inv in E2 as (? & s4 & E4 & E2). injection E2 as <- <-.
  unfold update_cs in E4. apply bind_inv in E4 as (cs & s5 & E5 & E4).
  injection E4 as Es4. unfold deref_cs in E5. rewrite bind_get in E5.
  destruct (s_servers _ !! p); [|done]. injection E5 as <- <-. by subst s4.
Qed.

Lemma enqueue_inv j s u s' :
  queue_inv s -> (j < s_next s)%positive -> j ∉ queue_jobs (s_job_requests s) ->
  enqueue_job_request j s = Ok (u, s') -> queue_inv s'.
Proof.
  intros (Hq & Hp & Hj) Hlt Hnew E. unfold enqueue_job_request in E.
  apply bind_inv in E as (job0 & s1 & E1 & E). unfold deref_job in E1. rewrite bind_get in E1.
  destruct (s_heap_jobs s !! j) as [job|]; [|done]. injection E1 as <- <-.
  apply bind_inv in E as (g & s2 & E2 & E). injection E2 as <- <-. injection E as _ <-.
  unfold queue_inv. cbn [s_job_requests set_s_job_requests s_next].
  assert (s_next s ∉ map g_ptr (s_job_requests s)) as Hfresh.
  { intros Hin. apply list_elem_of_fmap in Hin as (g & Eg & Hin).
    rewrite Forall_forall in Hp. specialize (Hp g Hin). lia. }
  split; [by apply enqueue_in_ok|].
  destruct (enqueue_in_cases (s_next s) j (j_submitter job) (j_niceness job) (s_job_requests s) Hq)
    as [(q1 & g & q2 & Eq & Hk & ->)|(q1 & q2 & Eq & Hk & H1 & H2 & ->)]; rewrite Eq in *;
    rewrite ?queue_jobs_app, ?queue_jobs_cons, ?Forall_app, ?Forall_cons in *; cbn; open_hyps;
    repeat split; try done; try lia;
    rewrite ?Forall_app; repeat split; repeat constructor; try lia.
  all: match goal with F : Forall _ ?l |- Forall _ ?l =>
    eapply Forall_impl; [exact F|]; cbn; intros; lia end.
Qed.

#[local] Hint Resolve weak_notify : icc.

Lemma queue_cs_requests n p m master : keeps queue_inv (cs_requests n p m master).
Proof.
  revert master. induction n as [|n IH]; intros master; cbn [cs_requests]; [apply keeps_ret|].
  intros s0 u s' HI E.
  apply bind_inv in E as (j & s1 & E1 & E). apply create_new_job_spec in E1 as (-> & En & Eq & _).
  apply bind_inv in E as (? & s2 & E2 & E). apply update_job_spec in E2 as (job & _ & ->).
  apply bind_inv in E as (? & s3 & E3 & E).
  destruct HI as (Hq & Hp & Hj).
  apply enqueue_inv in E3.
  - revert E3 E. match goal with |- queue_inv _ -> ?m _ = _ -> _ =>
      assert (keeps queue_inv m) as Hk end.
    { repeat ks_step. }
    intros HI3 E. by eapply Hk.
  - unfold queue_inv. cbn. rewrite Eq, En. split; [done|].
    split; (eapply Forall_impl; [eassumption|]; cbn; intros; lia).
  - cbn. rewrite En. lia.
  - cbn. rewrite Eq. rewrite Forall_forall in Hj. intros Hin. specialize (Hj _ Hin). lia.
Qed.
Lemma remove_spec pos s u s' :
  remove_job_request pos s = Ok (u, s') ->
  exists g, find_group pos.1 (s_job_requests s) = Some g /\ pos.2 ∈ g_l g /\
    s' = set_s_job_requests (without pos.1 pos.2 g (s_job_requests s)) s.
Proof.
  unfold remove_job_request. rewrite bind_gets. intros E.
  apply bind_inv in E as (g & s1 & E1 & E).
  destruct (find_group pos.1 (s_job_requests s)) as [g'|]; [|done]. injection E1 as <- <-.
  apply bind_inv in E as (? & s1 & E1 & E). unfold assert in E1.
  destruct (bool_decide (pos.2 ∈ g_l g')) eqn:Ed; [|done]. injection E1 as _ <-.
  apply bind_inv in E as (job & s1 & E1 & E). unfold deref_job in E1. rewrite bind_get in E1.
  destruct (s_heap_jobs s !! pos.2) as [job'|]; [|done]. injection E1 as <- <-.
  apply bind_inv in E as (? & s1 & E1 & E). unfold assert in E1.
  destruct (_ =? _); [|done]. injection E1 as _ <-. injection E as _ <-.
  apply bool_decide_eq_true in Ed. exists g'. split; [done|]. split; [done|].
  unfold without. by destruct (erase_first _ _).
Qed.

Lemma queue_remove pos : keeps queue_inv (remove_job_request pos).
Proof.
  intros s u s' (Hq & Hp & Hj) E. apply remove_spec in E as (g & Hf & _ & ->).
  destruct (find_group_split _ _ _ (q_ptrs _ Hq) Hf) as (q1 & q2 & Eq & Eg & Ef).
  unfold queue_inv. cbn [s_job_requests set_s_job_requests s_next].
  split; [by apply without_ok|]. unfold without. rewrite Ef.
  rewrite Eq, ?queue_jobs_app, ?queue_jobs_cons, ?Forall_app, ?Forall_cons in *. open_hyps.
  destruct (erase_first pos.2 (g_l g)) as [|x l] eqn:El.
  - by rewrite queue_jobs_app, !Forall_app.
  - pose proof (erase_first_sublist pos.2 (g_l g)) as Hsub. rewrite El in Hsub.
    assert (StronglySorted not_before (q1 ++ q2)) as Hs.
    { assert (queue_ok (q1 ++ q2)) as Hok by
        (rewrite <- Ef; eapply queue_ok_shrinks; [exact Hq|]; apply shrinks_filter; apply Hq).
      apply Hok. }
    destruct (enqueue_group_in_cases (set_g_l (x :: l) g) (q1 ++ q2) Hs)
      as (r1 & r2 & Er & -> & _ & _).
    assert (Forall (fun g => (g_ptr g < s_next s)%positive) (r1 ++ r2)) as Hr1
      by (rewrite <- Er, Forall_app; done).
    assert (Forall (fun j => (j < s_next s)%positive) (queue_jobs (r1 ++ r2))) as Hr2
      by (rewrite <- Er, queue_jobs_app, Forall_app; done).
    rewrite queue_jobs_app, Forall_app in Hr2. rewrite Forall_app in Hr1.
    rewrite queue_jobs_app, queue_jobs_cons, !Forall_app, Forall_cons. open_hyps.
    repeat split; try done. cbn [g_l set_g_l].
    rewrite Forall_forall in *. intros y Hy. match goal with F : forall x, x ∈ g_l g -> _ |- _ => apply F end. by eapply elem_of_sublist.
Qed.

Lemma queue_update_cs p f : keeps queue_inv (update_cs p f).
Proof. intros s u s' HI E. apply update_cs_spec in E as (cs & E & ->). qs. Qed.
#[local] Hint Resolve queue_update_cs weak_handle_end weak_notify : icc.

Lemma queue_monitor_stats p m : keeps queue_inv (handle_monitor_stats p m).
Proof. unfold handle_monitor_stats. ks. Qed.
#[local] Hint Resolve queue_monitor_stats : icc.
Lemma queue_try_login p m : keeps queue_inv (try_login p m).
Proof.
  unfold try_login, handle_login, handle_mon_login, end_stale, send_conf. ks. all: qs.
Qed.
End queue.

#[export] Instance queue_inv_ops `{ChannelLaws} : SchedOps queue_inv.
Proof.
  split; [apply _|..]; intros.
  - apply weak_handle_end.
  - apply weak_notify.
  - apply queue_cs_requests.
  - apply queue_remove.
  - apply weak_job_done.
  - by eapply queue_try_login.
Qed.
