(* ===== verification/WellFormed.v ===== *)
(** * The scheduler's tables

    Two invariants of every state the scheduler reaches. The job table is
    exact: it and the heap of jobs name the same jobs, under their ids
    ([table_ok]). The lists of connections hold live objects of the right
    type, descriptors belong to one connection each, and no connection is
    leaked ([lists_ok]). *)

From Stdlib Require Import ZArith Lia.
From Stdlib Require Import Strings.Byte Strings.String.
From stdpp Require Import base tactics option list gmap strings sorting.
From S2P Require Import Prelude MsgChannel CompileJob Msg Interface Transport CompileServer SchedulingAlgo Scheduler Handlers Dispatch QueueFacts SchedulerFacts.

#[local] Open Scope Z_scope.

(** ** Small weak invariants *)

(** The servers listed are among [X]; the connection [p], while it lives, has
    type [t]; the jobs of a list have the ids it says. *)
Definition css_within (X : list ptr) (s : Scheduler) : Prop := forall q, q ∈ s_css s -> q ∈ X.
Definition typed (p : ptr) (t : cs_type) (s : Scheduler) : Prop :=
  (p < s_next s)%positive /\ forall cs, s_servers s !! p = Some cs -> cs_ty cs = t.
Definition named_all (l : list (Z * ptr)) (s : Scheduler) : Prop :=
  forall e, e ∈ l -> (e.2 < s_next s)%positive /\
    forall job, s_heap_jobs s !! e.2 = Some job -> j_id job = e.1.

Lemma elem_of_remove_ptr p q l : q ∈ remove_ptr p l <-> q <> p /\ q ∈ l.
Proof. unfold remove_ptr. by rewrite list_elem_of_filter. Qed.

#[export] Instance css_within_weak X : SchedWeak (css_within X).
Proof.
  split; [split; [split|..]|..]; intros; try assumption.
  - destruct H as [? ? ? ? Ec]. unfold css_within in *. by rewrite Ec.
  - intros q Hq. cbn in Hq. apply elem_of_remove_ptr in Hq as [_ Hq]. auto.
Qed.

#[export] Instance typed_weak p t : SchedWeak (typed p t).
Proof.
  split; [split; [split|..]|..]; intros; try assumption.
  - destruct H as [Es ? En]. unfold typed in *. by rewrite Es, En.
  - destruct H1 as [Hlt Ht], H0 as (Ety & _). split; [done|]. cbn. intros c.
    rewrite lookup_insert_Some. intros [[-> <-]|[_ E]]; [|by apply Ht].
    rewrite Ety. by apply Ht.
  - destruct H as [Hlt Ht]. split; [cbn; lia|done].
  - destruct H as [Hlt Ht]. split; [done|]. cbn. intros c. rewrite lookup_delete_Some.
    intros [_ E]. by apply Ht.
Qed.

#[export] Instance named_all_weak l : SchedWeak (named_all l).
Proof.
  split; [split; [split|..]|..]; intros; try assumption.
  - destruct H as [? Eh En]. unfold named_all in *. by rewrite Eh, En.
  - intros e He. destruct (H1 e He) as [Hlt Hn]. split; [done|]. cbn. intros c.
    rewrite lookup_insert_Some. intros [[-> <-]|[_ E]]; [|by apply Hn].
    rewrite H0. by apply Hn.
  - intros e He. destruct (H e He) as [Hlt Hn]. split; [cbn; lia|done].
  - intros e He. destruct (H e He) as [Hlt Hn]. split; [done|]. cbn. intros c.
    rewrite lookup_delete_Some. intros [_ E]. by apply Hn.
Qed.

Lemma all_weak {X} (P : X -> Prop) (J : X -> Scheduler -> Prop) :
  (forall x, SchedWeak (J x)) -> SchedWeak (fun s => forall x, P x -> J x s).
Proof.
  intros HJ. split; [split; [split|..]|..]; intros.
  - eapply si_core; eauto.
  - eapply si_cs; eauto.
  - eapply si_job; eauto.
  - apply si_alloc; eauto.
  - apply si_queue; eauto.
  - apply sd_css; eauto.
  - apply sd_controls; eauto.
  - apply sd_erase; eauto.
  - apply sd_delete; eauto.
  - apply sw_forget; eauto.
  - apply sw_monitors; eauto.
Qed.

Lemma keeps_and {A} (I J : Scheduler -> Prop) (m : sched A) :
  keeps I m -> keeps J m -> keeps (fun s => I s /\ J s) m.
Proof. intros HI HJ s a s' [H1 H2] E. split; [by eapply HI|by eapply HJ]. Qed.

Lemma keeps_for_each_in {S A} (I : S -> Prop) (f : A -> M S unit) l :
  (forall x, x ∈ l -> keeps I (f x)) -> keeps I (for_each f l).
Proof.
  induction l as [|x l IH]; intros Hf; [apply keeps_ret|].
  apply keeps_bind; [apply Hf, elem_of_cons; by left|].
  intros _. apply IH. intros y Hy. apply Hf, elem_of_cons. by right.
Qed.

(** ** The job table *)

Record table_ok (s : Scheduler) : Prop := {
  tb_jobs : forall id j, s_jobs s !! id = Some j ->
    exists job, s_heap_jobs s !! j = Some job /\ j_id job = id;
  tb_heap : forall j job, s_heap_jobs s !! j = Some job ->
    s_jobs s !! j_id job = Some j /\ (j < s_next s)%positive
}.

Lemma table_same s s' :
  s_jobs s' = s_jobs s -> s_heap_jobs s' = s_heap_jobs s -> s_next s' = s_next s ->
  table_ok s -> table_ok s'.
Proof. intros E1 E2 E3 [H1 H2]. split; intros; rewrite ?E1, ?E2, ?E3 in *; auto. Qed.
Ltac ts := first [eapply table_same; [| | |eassumption]; reflexivity
  |apply keeps_modify; intros ? ?; eapply table_same; [| | |eassumption]; reflexivity].

#[export] Instance table_ok_prim : SchedPrim table_ok.
Proof.
  split; intros; try ts.
  - match goal with H : same_core _ _ |- _ => destruct H end. eapply table_same; eauto.
  - destruct H1 as [H1 H2]. split; cbn.
    + intros id j' E. destruct (H1 id j' E) as (job0 & Ej & En).
      destruct (decide (j' = j)) as [->|Hne].
      * exists job'. rewrite lookup_insert, decide_True by done. split; [done|]. congruence.
      * exists job0. by rewrite lookup_insert_ne by done.
    + intros j' job0. rewrite lookup_insert_Some. intros [[<- <-]|[_ E]]; [|by apply H2].
      rewrite H0. by apply H2.
  - destruct H as [H1 H2]. split; [done|]. cbn. intros j job E. destruct (H2 j job E).
    split; [done|lia].
Qed.

Lemma table_named s : table_ok s -> named_all (in_order (s_jobs s)) s.
Proof.
  intros [H1 H2] [id j] He. unfold in_order in He. rewrite merge_sort_Permutation in He.
  apply elem_of_map_to_list in He. destruct (H1 _ _ He) as (job & Ej & <-). cbn [fst snd].
  split; [by eapply H2|]. intros job' E. congruence.
Qed.

(** [jobs.erase(id); delete j;] *)
Lemma table_drop id j s u s' :
  table_ok s -> (forall job, s_heap_jobs s !! j = Some job -> j_id job = id) ->
  (erase_job id ≫= fun _ => delete_job j) s = Ok (u, s') -> table_ok s'.
Proof.
  intros [H1 H2] Hid E. unfold erase_job in E. rewrite bind_modify in E. unfold delete_job in E.
  apply bind_inv in E as (job & s1 & E1 & E). apply deref_job_spec in E1 as [-> E1].
  apply bind_inv in E as (? & s2 & E2 & E). apply update_cs_spec in E2 as (cs & _ & ->).
  injection E as _ <-. cbn in E1. specialize (Hid _ E1). split; cbn.
  - intros id' j'. rewrite lookup_delete_Some. intros [Hne E]. destruct (H1 _ _ E) as (job' & Ej & <-).
    exists job'. rewrite lookup_delete_Some. split; [|done]. split; [|done]. intros ->. congruence.
  - intros j' job'. rewrite lookup_delete_Some. intros [Hne E]. destruct (H2 _ _ E) as [Ej Hlt].
    split; [|done]. rewrite lookup_delete_Some. split; [|done]. intros Eid. rewrite <- Eid, <- Hid in Ej.
    destruct (H2 _ _ E1). congruence.
Qed.

Lemma not_installing_heap o s u s' :
  not_installing o s = Ok (u, s') -> s_heap_jobs s' = s_heap_jobs s.
Proof.
  unfold not_installing. destruct o; [|by intros [= _ <-]].
  intros E. by apply update_cs_spec in E as (cs & _ & ->).
Qed.

Section table.
Context `{ChannelLaws}.

Section ends.
Context (he : ptr -> sched unit).
Context (Ht : forall p, keeps table_ok (he p)).
Context (Hw : forall l p, keeps (named_all l) (he p)).

Lemma table_stopped j : keeps table_ok (notify_stopped he j).
Proof. unfold notify_stopped. ks. by apply keeps_notify_with. Qed.
Lemma notify_stopped_spec j s job s' :
  notify_stopped he j s = Ok (job, s') -> s_heap_jobs s' !! j = Some job.
Proof.
  unfold notify_stopped. intros E. apply bind_inv in E as (? & s1 & _ & E).
  apply bind_inv in E as (? & s2 & _ & E). by apply deref_job_spec in E as [-> E].
Qed.

Lemma table_end_request j : keeps table_ok (end_request he j).
Proof.
  intros s u s' HI E. unfold end_request in E.
  apply bind_inv in E as (job & s1 & E1 & E). pose proof (notify_stopped_spec _ _ _ _ E1) as Ej.
  apply table_stopped in E1; [|done].
  apply bind_inv in E as (? & s2 & E2 & E). pose proof (not_installing_heap _ _ _ _ E2) as Eh.
  eapply keeps_not_installing in E2; [|exact E1].
  eapply table_drop; [exact E2| |exact E]. rewrite Eh. intros job'. congruence.
Qed.

Lemma table_end_job p e l :
  e ∈ l -> keeps (fun s => table_ok s /\ named_all l s) (end_job he p e).
Proof.
  intros He. unfold end_job. ks_step; [ks|]. destruct (_ || _); [|apply keeps_ret]. unfold when.
  assert (keeps (fun s => table_ok s /\ named_all l s) (notify_stopped he e.2)) as Hst.
  { apply keeps_and; [apply table_stopped|]. unfold notify_stopped. ks. by apply keeps_notify_with. }
  ks_step; [exact Hst|]. ks_step; [destruct (j_server _); ks|]. ks_step; [ks|].
  intros s u s' [HI HJ] E. split.
  - eapply table_drop; [exact HI| |exact E]. by apply HJ.
  - revert E. apply (keeps_bind (named_all l)); [apply keeps_erase_job|intros ?; apply keeps_delete_job|done].
Qed.

Lemma table_end_daemon p : keeps table_ok (end_daemon he p).
Proof.
  unfold end_daemon. ks_step; [ks|]. ks_step; [by apply keeps_notify_with|]. ks_step; [ts|].
  ks_step; [ks|]. ks_step.
  { apply keeps_for_each. intros g. apply keeps_when. ks_step.
    - apply keeps_for_each, table_end_request.
    - apply keeps_job_requests. intros s. apply shrinks_filter. }
  intros s u s' HI E. rewrite bind_gets in E. apply bind_inv in E as (? & s1 & E1 & E).
  assert (keeps (fun s1 => table_ok s1 /\ named_all (in_order (s_jobs s)) s1)
            (for_each (end_job he p) (in_order (s_jobs s)))) as Hk.
  { apply keeps_for_each_in. intros e. apply table_end_job. }
  apply Hk in E1 as [HI1 _]; [|split; [done|by apply table_named]].
  revert E. apply (keeps_bind table_ok); [ks|intros ?|done]. ks.
Qed.

Lemma table_handle_end_with p : keeps table_ok (handle_end_with he p).
Proof. unfold handle_end_with, forget. ks; first [apply table_end_daemon|ts]. Qed.
End ends.

Lemma table_inner_end p : keeps table_ok (handle_end_with (fun _ => throw Aborted) p).
Proof. apply table_handle_end_with; intros; apply keeps_throw. Qed.
Lemma table_handle_end p : keeps table_ok (handle_end p).
Proof. apply table_handle_end_with; intros; [apply table_inner_end|apply weak_inner_end]. Qed.
Lemma table_notify m : keeps table_ok (notify_monitors m).
Proof. apply keeps_notify_with, table_inner_end. Qed.
#[local] Hint Resolve table_handle_end table_notify : icc.

Lemma table_create p : keeps table_ok (create_new_job p).
Proof.
  intros s j s' [H1 H2] E. unfold create_new_job in E. pose proof E as E0.
  apply create_new_job_spec in E as (-> & En & _ & _ & Eh & Ej).
  assert (s_jobs s !! u32 (s_new_job_id s + 1) = None) as Hnew.
  { rewrite bind_modify, bind_get in E0. apply bind_inv in E0 as (? & s1 & E1 & _).
    unfold assert in E1. destruct (bool_decide _) eqn:Eb; [|done]. by apply bool_decide_eq_true in Eb. }
  split; rewrite ?Eh, ?Ej, ?En.
  - intros id j. rewrite lookup_insert_Some. intros [[<- <-]|[Hne Eid]].
    + eexists. by rewrite lookup_insert, decide_True by done.
    + destruct (H1 _ _ Eid) as (job & Ejob & <-). exists job. split; [|done].
      rewrite lookup_insert_ne; [done|]. intros <-. destruct (H2 _ _ Ejob). lia.
  - intros j job. rewrite lookup_insert_Some. intros [[<- <-]|[Hne Ejob]].
    + cbn. rewrite lookup_insert, decide_True by done. split; [done|lia].
    + destruct (H2 _ _ Ejob) as [Eid Hlt]. split; [|lia]. rewrite lookup_insert_ne; [done|].
      intros Eq. rewrite Eq in Hnew. congruence.
Qed.
#[local] Hint Resolve table_create : icc.

Lemma table_enqueue j : keeps table_ok (enqueue_job_request j).
Proof. unfold enqueue_job_request. ks; ts. Qed.
#[local] Hint Resolve table_enqueue : icc.
Lemma table_requests n p m master : keeps table_ok (cs_requests n p m master).
Proof. revert master. induction n as [|n IH]; intros master; cbn [cs_requests]; ks. Qed.
Lemma table_remove pos : keeps table_ok (remove_job_request pos).
Proof. unfold remove_job_request. ks; ts. Qed.

Lemma find_by_client_spec p id l found s r s' :
  named_all l s -> (forall e, found = Some e -> named_all [e] s) ->
  find_by_client p id l found s = Ok (r, s') -> forall e, r = Some e -> named_all [e] s'.
Proof.
  revert found s. induction l as [|[k j] l IH]; intros found s Hl Hf; cbn [find_by_client].
  { intros [= <- <-]. done. }
  intros E. apply bind_inv in E as (job & s1 & E1 & E). apply deref_job_spec in E1 as [-> E1].
  assert (named_all l s) as Hl' by (intros e He; apply Hl, elem_of_cons; by right).
  destruct (_ && _); [|by eapply IH].
  rewrite bind_modify in E. eapply IH; [| |exact E].
  - apply si_queue; [done|]. apply purge_shrinks.
  - intros e [= <-]. apply si_queue; [|apply purge_shrinks].
    intros e' ->%list_elem_of_singleton. destruct (Hl (k, j)) as [Hlt Hn]; [apply elem_of_cons; by left|].
    split; [done|]. cbn in *. intros job' E'. congruence.
Qed.

Lemma job_of_done_spec p m s r s' :
  table_ok s -> job_of_done p m s = Ok (r, s') ->
  forall j m', r = Some (j, m') -> named_all [(jd_job_id m', j)] s'.
Proof.
  intros HI E j m' ->. unfold job_of_done in E. rewrite bind_gets in E. cbv zeta in E.
  destruct (negb _).
  - apply bind_inv in E as (o & s1 & E1 & E). injection E as Eo <-.
    destruct o as [[id j']|]; [|done]. injection Eo as <- <-.
    eapply find_by_client_spec in E1; [|by apply table_named|done|done]. by destruct m.
  - injection E as Eo <-. destruct (s_jobs s !! jd_job_id m) as [j'|] eqn:Ej; [|done].
    injection Eo as <- <-. intros e ->%list_elem_of_singleton. cbn.
    destruct (tb_jobs _ HI _ _ Ej) as (job & Eh & Ei). destruct (tb_heap _ HI _ _ Eh) as [_ Hlt].
    split; [done|]. intros job' E'. congruence.
Qed.

Lemma table_job_done p m : keeps table_ok (handle_job_done p m).
Proof.
  intros s b s' HI E. unfold handle_job_done in E. apply bind_inv in E as (r & s1 & E1 & E).
  pose proof (job_of_done_spec _ _ _ _ _ HI E1) as Hn.
  assert (table_ok s1) as HI1 by (by eapply keeps_job_of_done).
  destruct r as [[j m']|]; [|by injection E as _ <-].
  specialize (Hn j m' eq_refl).
  set (J := fun s => table_ok s /\ named_all [(jd_job_id m', j)] s) in *.
  assert (J s1) as HJ by done. clear E1 HI HI1 Hn. revert s1 b s' HJ E.
  apply (leads_bind J table_ok); [apply keeps_deref_job|intros job].
  assert (forall q : ptr, leads J table_ok (_ ← handle_end q; mret false)) as Hend.
  { intros q. apply (leads_keeps _ table_ok); [by intros ? []|done|]. ks. }
  destruct (_ && _).
  { apply leads_bind; [apply keeps_deref_server|intros _]. by apply leads_bind; [apply keeps_deref_cs|]. }
  destruct (_ && _).
  { by do 2 (apply leads_bind; [apply keeps_deref_cs|intros _]). }
  apply leads_bind; [ks|intros _]. apply leads_bind; [ks|intros _].
  apply leads_bind; [destruct (j_server job); ks|intros _]. apply leads_bind; [ks|intros _].
  apply leads_bind; [apply keeps_and; [apply table_notify|apply weak_notify]|intros _].
  intros s2 b2 s2' [HI HJ] E. rewrite <- bind_assoc in E. apply bind_inv in E as (u & s1 & E1 & E).
  injection E as _ <-. eapply table_drop; [exact HI| |exact E1].
  intros job' E'. destruct (HJ (jd_job_id m', j)) as [_ Hn]; [by apply list_elem_of_singleton|]. by apply Hn.
Qed.

Lemma table_monitor_stats p m : keeps table_ok (handle_monitor_stats p m).
Proof. unfold handle_monitor_stats. ks. Qed.
#[local] Hint Resolve table_monitor_stats : icc.
Lemma table_update_cs p f : keeps table_ok (update_cs p f).
Proof. intros s u s' HI E. apply update_cs_spec in E as (cs & E & ->). ts. Qed.
#[local] Hint Resolve table_update_cs : icc.
Lemma table_try_login p m : keeps table_ok (try_login p m).
Proof. unfold try_login, handle_login, handle_mon_login, end_stale, send_conf. ks; ts. Qed.
End table.

#[export] Instance table_ok_ops `{ChannelLaws} : SchedOps table_ok.
Proof.
  split; [apply _|..]; intros.
  - apply table_handle_end.
  - apply table_notify.
  - apply table_requests.
  - apply table_remove.
  - apply table_job_done.
  - by eapply table_try_login.
Qed.

(** ** The lists of connections

    [e] is a connection in the middle of its login, if any. *)

Definition listed (e : option ptr) (t : cs_type) (p : ptr) (s : Scheduler) : Prop :=
  exists cs, s_servers s !! p = Some cs /\ cs_ty cs = t /\ (cs_st cs = LOGGEDIN \/ e = Some p).
Definition fd_of (cs : CompileServer) : Z := c_fd (cs_channel cs).

Record lists_ok (e : option ptr) (s : Scheduler) : Prop := {
  lo_fresh : forall p cs, s_servers s !! p = Some cs -> (p < s_next s)%positive;
  lo_css : forall p, p ∈ s_css s -> listed e DAEMON p s;
  lo_monitors : forall p, p ∈ s_monitors s -> listed e MONITOR p s;
  lo_controls : forall p, p ∈ s_controls s -> listed e LINE p s;
  lo_fds : forall fd p, s_fd2cs s !! fd = Some p ->
    exists cs, s_servers s !! p = Some cs /\ fd_of cs = fd;
  lo_inj : forall p q cs cs', s_servers s !! p = Some cs -> s_servers s !! q = Some cs' ->
    fd_of cs = fd_of cs' -> p = q;
  lo_owned : forall p cs, s_servers s !! p = Some cs ->
    s_fd2cs s !! fd_of cs = Some p \/ p ∈ s_monitors s;
  lo_watching : forall p cs, s_servers s !! p = Some cs -> cs_ty cs = MONITOR -> p ∈ s_monitors s
}.

Lemma listed_same e t p s s' : s_servers s' = s_servers s -> listed e t p s -> listed e t p s'.
Proof. intros E. unfold listed. by rewrite E. Qed.

Lemma lists_same e s s' :
  s_servers s' = s_servers s -> s_fd2cs s' = s_fd2cs s -> s_monitors s' = s_monitors s ->
  s_css s' = s_css s -> s_controls s' = s_controls s -> (s_next s <= s_next s')%positive ->
  lists_ok e s -> lists_ok e s'.
Proof.
  intros E1 E2 E3 E4 E5 Hle [H1 H2 H3 H4 H5 H6 H7 H8].
  split; rewrite ?E1, ?E2, ?E3, ?E4, ?E5; intros; eauto using listed_same.
  specialize (H1 _ _ H). lia.
Qed.
Ltac ls := first [eapply lists_same; [| | | | | |eassumption]; (reflexivity || cbn; lia)
  |apply keeps_modify; intros ? ?; eapply lists_same; [| | | | | |eassumption]; (reflexivity || cbn; lia)].

(** Replacing the object of a connection that stays who it is. *)
Lemma lists_cs e p s cs cs' :
  s_servers s !! p = Some cs -> same_identity cs cs' -> lists_ok e s ->
  lists_ok e (set_s_servers (<[p := cs']> (s_servers s)) s).
Proof.
  intros E (I1 & I2 & I3) [H1 H2 H3 H4 H5 H6 H7 H8].
  assert (forall q c, <[p := cs']> (s_servers s) !! q = Some c ->
    exists c0, s_servers s !! q = Some c0 /\ cs_ty c = cs_ty c0 /\ cs_st c = cs_st c0 /\
      fd_of c = fd_of c0) as Hback.
  { intros q c. rewrite lookup_insert_Some. intros [[<- <-]|[_ Eq]]; [|by eauto].
    exists cs. by repeat split. }
  assert (forall q c0, s_servers s !! q = Some c0 ->
    exists c, <[p := cs']> (s_servers s) !! q = Some c /\ cs_ty c = cs_ty c0 /\ cs_st c = cs_st c0 /\
      fd_of c = fd_of c0) as Hforth.
  { intros q c0 Eq. destruct (decide (q = p)) as [->|Hne].
    - exists cs'. rewrite lookup_insert, decide_True by done. simplify_eq. by repeat split.
    - exists c0. by rewrite lookup_insert_ne by done. }
  assert (forall t q, listed e t q s -> listed e t q (set_s_servers (<[p := cs']> (s_servers s)) s)) as Hl.
  { intros t q (c0 & Eq & Et & Es). destruct (Hforth _ _ Eq) as (c & Ec & E1 & E2 & _).
    exists c. split; [done|]. split; congruence. }
  split; cbn; intros.
  - destruct (Hback _ _ H) as (c0 & Ec & _). eauto.
  - by apply Hl, H2.
  - by apply Hl, H3.
  - by apply Hl, H4.
  - destruct (H5 _ _ H) as (c0 & Ec & <-). destruct (Hforth _ _ Ec) as (c & Ec' & _ & _ & Ef). eauto.
  - destruct (Hback _ _ H) as (c1 & E1 & _ & _ & F1), (Hback _ _ H0) as (c2 & E2 & _ & _ & F2).
    eapply H6; [exact E1|exact E2|congruence].
  - destruct (Hback _ _ H) as (c0 & Ec & _ & _ & ->). eauto.
  - destruct (Hback _ _ H) as (c0 & Ec & Et & _). eapply H8; [exact Ec|congruence].
Qed.

#[export] Instance lists_ok_drop e : SchedDrop (lists_ok e).
Proof.
  split; [split|..]; intros; try ls.
  - destruct H as [? ? En]. eapply lists_same; try eassumption. rewrite En. lia.
  - by eapply lists_cs.
  - destruct H as [H1 H2 H3 H4 H5 H6 H7 H8]. split; cbn; try done.
    intros q [_ Hq]%elem_of_remove_ptr. by apply H2.
  - destruct H as [H1 H2 H3 H4 H5 H6 H7 H8]. split; cbn; try done.
    intros q [_ Hq]%elem_of_remove_ptr. by apply H4.
Qed.

(** Forgetting a connection that is in none of the other lists. *)
Lemma lists_forget e s p cs :
  s_servers s !! p = Some cs -> p ∉ s_css s -> p ∉ s_controls s -> lists_ok e s ->
  lists_ok e (set_s_monitors (remove_ptr p (s_monitors s))
    (set_s_servers (delete p (s_servers s)) (set_s_fd2cs (delete (fd_of cs) (s_fd2cs s)) s))).
Proof.
  intros E Hcss Hctl [H1 H2 H3 H4 H5 H6 H7 H8].
  assert (forall t q, q <> p -> listed e t q s -> exists c, delete p (s_servers s) !! q = Some c /\
    cs_ty c = t /\ (cs_st c = LOGGEDIN \/ e = Some q)) as Hl.
  { intros t q Hne (c & Ec & Hc). exists c. by rewrite lookup_delete_ne by done. }
  split; cbn; unfold listed; cbn.
  - intros q c. rewrite lookup_delete_Some. intros [_ Eq]. eauto.
  - intros q Hq. apply Hl; [by intros ->|by apply H2].
  - intros q [Hne Hq]%elem_of_remove_ptr. by apply Hl, H3.
  - intros q Hq. apply Hl; [by intros ->|by apply H4].
  - intros fd q. rewrite lookup_delete_Some. intros [Hne Eq]. destruct (H5 _ _ Eq) as (c & Ec & <-).
    exists c. rewrite lookup_delete_ne; [done|]. intros ->. congruence.
  - intros q q' c c'. rewrite !lookup_delete_Some. intros [_ Eq] [_ Eq']. by apply H6.
  - intros q c. rewrite lookup_delete_Some. intros [Hne Eq]. rewrite elem_of_remove_ptr.
    destruct (H7 _ _ Eq) as [Hf|Hm]; [|by right]. left. rewrite lookup_delete_ne; [done|].
    intros Ef. apply Hne. by eapply H6.
  - intros q c. rewrite lookup_delete_Some. intros [Hne Eq] Et. rewrite elem_of_remove_ptr. eauto.
Qed.

Lemma remove_ptr_absent p l : p ∉ l -> remove_ptr p l = l.
Proof.
  intros Hp. unfold remove_ptr. apply filter_all. rewrite Forall_forall. by intros q Hq ->.
Qed.

Lemma listed_ty e t t' p s : listed e t p s -> (forall cs, s_servers s !! p = Some cs -> cs_ty cs = t') -> t = t'.
Proof. intros (cs & E & Ht & _) Hall. rewrite <- Ht. by apply Hall. Qed.

Section lists.
Context `{ChannelLaws}.

Lemma forget_spec p s u s' :
  forget p s = Ok (u, s') -> exists cs, s_servers s !! p = Some cs /\
    s' = set_s_servers (delete p (s_servers s)) (set_s_fd2cs (delete (fd_of cs) (s_fd2cs s)) s).
Proof.
  unfold forget. intros E. apply bind_inv in E as (cs & s1 & E1 & E).
  apply deref_cs_spec in E1 as [-> E1]. injection E as _ <-. eauto.
Qed.

(** The end of a connection that is not a monitor, once it is in no list. *)
Lemma forget_lists e p s u s' :
  lists_ok e s -> p ∉ s_css s -> p ∉ s_controls s -> p ∉ s_monitors s ->
  forget p s = Ok (u, s') -> lists_ok e s'.
Proof.
  intros HI Hc Hl Hm E. apply forget_spec in E as (cs & E & ->).
  pose proof (lists_forget e s p cs E Hc Hl HI) as Hf. rewrite remove_ptr_absent in Hf by done.
  by eapply lists_same; [..|exact Hf].
Qed.

Lemma lists_elsewhere e s p t :
  lists_ok e s -> typed p t s ->
  (t <> DAEMON -> p ∉ s_css s) /\ (t <> MONITOR -> p ∉ s_monitors s) /\ (t <> LINE -> p ∉ s_controls s).
Proof.
  intros HI [_ Ht]. split; [|split]; intros Hne Hin; apply Hne; symmetry.
  - by eapply listed_ty; [apply (lo_css _ _ HI)|].
  - by eapply listed_ty; [apply (lo_monitors _ _ HI)|].
  - by eapply listed_ty; [apply (lo_controls _ _ HI)|].
Qed.

Section ends.
Context (he : ptr -> sched unit).
Context (Hl : forall e p, keeps (lists_ok e) (he p)).
Context (Hw : forall (J : Scheduler -> Prop) `{!SchedWeak J} p, keeps J (he p)).

Lemma end_daemon_css p s u s' : end_daemon he p s = Ok (u, s') -> p ∉ s_css s'.
Proof.
  unfold end_daemon. intros E. apply bind_inv in E as (cs & s1 & _ & E).
  apply bind_inv in E as (? & s2 & _ & E). rewrite bind_modify in E.
  enough (css_within (remove_ptr p (s_css s2)) s') as Hs'.
  { intros Hin. apply Hs', elem_of_remove_ptr in Hin as [Hne _]. done. }
  revert E. apply (keeps_bind (css_within (remove_ptr p (s_css s2)))); [ks| |by intros q Hq].
  intros q. ks_step.
  { apply keeps_for_each. intros g. apply keeps_when. ks_step.
    - apply keeps_for_each. intros j. apply drop_end_request. apply Hw, _.
    - apply keeps_job_requests. intros s0. apply shrinks_filter. }
  ks. apply drop_end_job, Hw, _.
Qed.

Lemma lists_handle_end_with e p : keeps (lists_ok e) (handle_end_with he p).
Proof.
  intros s u s' HI E. unfold handle_end_with in E.
  apply bind_inv in E as (cs & s1 & E1 & E). apply deref_cs_spec in E1 as [-> E1].
  assert (typed p (cs_ty cs) s) as HT.
  { split; [by eapply lo_fresh|]. intros cs' E'. congruence. }
  apply bind_inv in E as (? & s1 & E2 & E). destruct (cs_ty cs) eqn:Ety.
  - injection E2 as _ <-. destruct (lists_elsewhere e s p _ HI HT) as (A1 & A2 & A3).
    eapply forget_lists; [exact HI|by apply A1|by apply A3|by apply A2|exact E].
  - pose proof (end_daemon_css _ _ _ _ E2) as Hcss.
    assert (lists_ok e s1) as HI1 by (by eapply drop_end_daemon).
    assert (typed p DAEMON s1) as HT1 by (eapply (drop_end_daemon he); [apply Hw, _|exact HT|exact E2]).
    destruct (lists_elsewhere e s1 p _ HI1 HT1) as (_ & A2 & A3).
    eapply forget_lists; [exact HI1|done|by apply A3|by apply A2|exact E].
  - rewrite bind_gets in E2. apply bind_inv in E2 as (? & s2 & E3 & E2).
    unfold assert in E3. destruct (bool_decide _); [|done]. injection E3 as _ <-. injection E2 as _ <-.
    apply forget_spec in E as (cs' & E' & ->). destruct (lists_elsewhere e s p _ HI HT) as (A1 & _ & A3).
    exact (lists_forget e s p cs' E' (A1 ltac:(done)) (A3 ltac:(done)) HI).
  - apply bind_inv in E2 as (? & s2 & E3 & E2). injection E2 as _ <-.
    assert (lists_ok e s2) as HI2 by (by eapply keeps_cs_send).
    assert (typed p LINE s2) as HT2 by (by eapply (keeps_cs_send (I := typed p LINE))).
    destruct (lists_elsewhere e s2 p _ HI2 HT2) as (A1 & A2 & _).
    eapply forget_lists; [by apply sd_controls|by apply A1| |by apply A2|exact E].
    cbn. rewrite elem_of_remove_ptr. by intros [? _].
Qed.
End ends.

Lemma lists_inner_end e p : keeps (lists_ok e) (handle_end_with (fun _ => throw Aborted) p).
Proof. apply lists_handle_end_with; intros; apply keeps_throw. Qed.
Lemma lists_handle_end e p : keeps (lists_ok e) (handle_end p).
Proof. apply lists_handle_end_with; intros; [apply lists_inner_end|by apply weak_inner_end]. Qed.
Lemma lists_notify e m : keeps (lists_ok e) (notify_monitors m).
Proof. apply keeps_notify_with, lists_inner_end. Qed.
#[local] Hint Resolve lists_handle_end lists_notify : icc.

Lemma lists_create e p : keeps (lists_ok e) (create_new_job p).
Proof. unfold create_new_job, create_job. ks; ls. Qed.
Lemma lists_enqueue e j : keeps (lists_ok e) (enqueue_job_request j).
Proof. unfold enqueue_job_request. ks; ls. Qed.
#[local] Hint Resolve lists_create lists_enqueue : icc.
Lemma lists_requests e n p m master : keeps (lists_ok e) (cs_requests n p m master).
Proof. revert master. induction n as [|n IH]; intros master; cbn [cs_requests]; ks. Qed.
Lemma lists_remove e pos : keeps (lists_ok e) (remove_job_request pos).
Proof. unfold remove_job_request. ks; ls. Qed.
Lemma lists_job_done e p m : keeps (lists_ok e) (handle_job_done p m).
Proof. apply drop_job_done; [apply lists_handle_end|apply lists_notify]. Qed.
Lemma lists_monitor_stats e p m : keeps (lists_ok e) (handle_monitor_stats p m).
Proof. unfold handle_monitor_stats. ks. Qed.
#[local] Hint Resolve lists_monitor_stats : icc.

(** *** Logins *)

(** A connection that has not logged in is in no list; its type can be set,
    together with its place among the monitors. *)
Lemma lists_retype s p cs cs' extra :
  s_servers s !! p = Some cs -> cs_st cs = CONNECTED -> fd_of cs' = fd_of cs ->
  (cs_ty cs' <> MONITOR /\ extra = [] \/ cs_ty cs' = MONITOR /\ extra = [p]) ->
  lists_ok None s ->
  lists_ok (Some p) (set_s_monitors (s_monitors s ++ extra)
    (set_s_servers (<[p := cs']> (s_servers s)) s)).
Proof.
  intros E Est Ef Hx [H1 H2 H3 H4 H5 H6 H7 H8].
  assert (forall t q, listed None t q s -> q <> p) as Hne.
  { intros t q (c & Ec & _ & [Hs|[=]]) ->. rewrite E in Ec. injection Ec as <-. congruence. }
  assert (forall t q, listed None t q s -> exists c, <[p := cs']> (s_servers s) !! q = Some c /\
    cs_ty c = t /\ (cs_st c = LOGGEDIN \/ Some p = Some q)) as Hl.
  { intros t q Hq. pose proof (Hne _ _ Hq). destruct Hq as (c & Ec & Ht & [Hs|[=]]).
    exists c. rewrite lookup_insert_ne by done. auto. }
  assert (forall q c, <[p := cs']> (s_servers s) !! q = Some c ->
    exists c0, s_servers s !! q = Some c0 /\ fd_of c = fd_of c0) as Hback.
  { intros q c. rewrite lookup_insert_Some. intros [[<- <-]|[_ Eq]]; eauto. }
  split; cbn; unfold listed; cbn.
  - intros q c Eq. destruct (Hback _ _ Eq) as (c0 & Ec & _). eauto.
  - intros q Hq. by apply Hl, H2.
  - intros q [Hq|Hq]%elem_of_app; [by apply Hl, H3|].
    destruct Hx as [[_ ->]|[Ht ->]]; [by apply elem_of_nil in Hq|].
    apply list_elem_of_singleton in Hq as ->. exists cs'.
    rewrite lookup_insert, decide_True by done. auto.
  - intros q Hq. by apply Hl, H4.
  - intros fd q Eq. destruct (H5 _ _ Eq) as (c & Ec & Efd). destruct (decide (q = p)) as [->|Hqp].
    + exists cs'. rewrite lookup_insert, decide_True by done. split; [done|congruence].
    + exists c. by rewrite lookup_insert_ne by done.
  - intros q q' c c' Eq Eq' Efd. destruct (Hback _ _ Eq) as (c1 & E1 & F1), (Hback _ _ Eq') as (c2 & E2 & F2).
    eapply H6; [exact E1|exact E2|congruence].
  - intros q c Eq. destruct (Hback _ _ Eq) as (c0 & Ec & ->). destruct (H7 _ _ Ec); [by left|].
    right. apply elem_of_app. by left.
  - intros q c. rewrite lookup_insert_Some, elem_of_app. intros [[<- <-]|[_ Eq]] Et; [|left; eauto].
    right. destruct Hx as [[Hn _]|[_ ->]]; [done|]. by apply list_elem_of_singleton.
Qed.

Lemma lists_begin s p : lists_ok None s -> lists_ok (Some p) s.
Proof.
  intros [H1 H2 H3 H4 H5 H6 H7 H8].
  assert (forall t q, listed None t q s -> listed (Some p) t q s) as Hl.
  { intros t q (c & Ec & Ht & [Hs|[=]]). exists c. auto. }
  split; auto.
Qed.

(** The end of a login. *)
Lemma lists_settle s p :
  lists_ok (Some p) s -> (forall cs, s_servers s !! p = Some cs -> cs_st cs = LOGGEDIN) ->
  lists_ok None s.
Proof.
  intros [H1 H2 H3 H4 H5 H6 H7 H8] Hp.
  assert (forall t q, listed (Some p) t q s -> listed None t q s) as Hl.
  { intros t q (c & Ec & Ht & [Hs|[= <-]]); exists c; auto. }
  split; auto.
Qed.

Lemma lists_log_in s p cs :
  s_servers s !! p = Some cs -> lists_ok (Some p) s ->
  lists_ok (Some p) (set_s_servers (<[p := set_cs_st LOGGEDIN cs]> (s_servers s)) s).
Proof.
  intros E [H1 H2 H3 H4 H5 H6 H7 H8].
  assert (forall t q, listed (Some p) t q s -> exists c,
    <[p := set_cs_st LOGGEDIN cs]> (s_servers s) !! q = Some c /\
    cs_ty c = t /\ (cs_st c = LOGGEDIN \/ Some p = Some q)) as Hl.
  { intros t q (c & Ec & Ht & Hs). destruct (decide (q = p)) as [->|Hne].
    - rewrite E in Ec. injection Ec as ->. eexists. rewrite lookup_insert, decide_True by done. auto.
    - exists c. rewrite lookup_insert_ne by done. auto. }
  assert (forall q c, <[p := set_cs_st LOGGEDIN cs]> (s_servers s) !! q = Some c ->
    exists c0, s_servers s !! q = Some c0 /\ fd_of c = fd_of c0 /\ cs_ty c = cs_ty c0) as Hback.
  { intros q c. rewrite lookup_insert_Some. intros [[<- <-]|[_ Eq]]; eauto. }
  split; cbn; unfold listed; cbn; auto.
  - intros q c Eq. destruct (Hback _ _ Eq) as (c0 & Ec & _). eauto.
  - intros fd q Eq. destruct (H5 _ _ Eq) as (c & Ec & Efd). destruct (decide (q = p)) as [->|Hqp].
    + eexists. rewrite lookup_insert, decide_True by done. split; [done|].
      rewrite E in Ec. by injection Ec as ->.
    + exists c. by rewrite lookup_insert_ne by done.
  - intros q q' c c' Eq Eq' Efd. destruct (Hback _ _ Eq) as (c1 & E1 & F1 & _), (Hback _ _ Eq') as (c2 & E2 & F2 & _).
    eapply H6; [exact E1|exact E2|congruence].
  - intros q c Eq. destruct (Hback _ _ Eq) as (c0 & Ec & -> & _). eauto.
  - intros q c Eq Et. destruct (Hback _ _ Eq) as (c0 & Ec & _ & Et'). eapply H8; [exact Ec|congruence].
Qed.

Lemma handle_end_gone p s u s' : handle_end p s = Ok (u, s') -> s_servers s' !! p = None.
Proof.
  intros E. apply bind_inv in E as (cs & s1 & _ & E). apply bind_inv in E as (? & s2 & _ & E).
  apply forget_spec in E as (cs' & _ & ->). cbn. apply lookup_delete_None. by left.
Qed.

Lemma lists_end_stale e p q : keeps (lists_ok e) (end_stale p q).
Proof. unfold end_stale. ks. Qed.
Lemma lists_send_conf e p : keeps (lists_ok e) (send_conf p).
Proof. unfold send_conf. ks. Qed.
#[local] Hint Resolve lists_end_stale lists_send_conf : icc.

Lemma lists_push_css p s u s' :
  lists_ok (Some p) s -> typed p DAEMON s ->
  (_ ← modify (fun s => set_s_css (s_css s ++ [p]) s); send_conf p) s = Ok (u, s') ->
  lists_ok (Some p) s'.
Proof.
  intros HI [_ HT] E. rewrite bind_modify in E. eapply lists_send_conf; [|exact E].
  unfold send_conf in E. apply bind_inv in E as (cs & s1 & E1 & _).
  apply deref_cs_spec in E1 as [_ E1]. cbn in E1. destruct HI as [H1 H2 H3 H4 H5 H6 H7 H8].
  split; cbn; auto. intros q [Hq|Hq]%elem_of_app; [by apply H2|].
  apply list_elem_of_singleton in Hq as ->. exists cs. auto.
Qed.

Lemma typed_handle_end p t q : keeps (typed p t) (handle_end q).
Proof. apply weak_handle_end. Qed.
Lemma typed_notify p t m : keeps (typed p t) (notify_monitors m).
Proof. apply weak_notify. Qed.
#[local] Hint Resolve typed_handle_end typed_notify : icc.
Lemma logging_in_stats e p t q m :
  keeps (fun s => lists_ok e s /\ typed p t s) (handle_monitor_stats q m).
Proof. apply keeps_and; [apply lists_monitor_stats|]. unfold handle_monitor_stats. ks. Qed.
Lemma logging_in_stale e p t q r :
  keeps (fun s => lists_ok e s /\ typed p t s) (end_stale q r).
Proof. apply keeps_and; [apply lists_end_stale|]. unfold end_stale. ks. Qed.

Lemma lists_login p m :
  leads (fun s => lists_ok (Some p) s /\ typed p DAEMON s) (lists_ok (Some p)) (handle_login p m).
Proof.
  unfold handle_login. apply leads_bind; [ks|intros _]. intros s r s' HJ E. rewrite bind_get in E.
  apply bind_inv in E as (cs & s1 & E1 & E). apply deref_cs_spec in E1 as [-> E1].
  destruct (pick_new_id _ cs) as [[counter cs']|] eqn:Ep; [|done].
  rewrite bind_modify in E. apply bind_inv in E as (? & s1 & E2 & E).
  apply update_cs_spec in E2 as (cs0 & E0 & ->). cbn in E0. rewrite E1 in E0. injection E0 as <-.
  assert (same_identity cs cs') as Hid.
  { unfold pick_new_id in Ep. destruct (negb _); [done|]. by injection Ep as _ <-. }
  set (s1 := set_s_host_id_counter counter s) in *.
  set (J := fun s => lists_ok (Some p) s /\ typed p DAEMON s) in *.
  assert (J s1) as HJ1 by (by apply (si_core s)).
  assert (J (set_s_servers (<[p := cs']> (s_servers s1)) s1)) as HJ2 by (by apply (si_cs p s1 cs cs')).
  revert E. revert HJ2. generalize (set_s_servers (<[p := cs']> (s_servers s1)) s1).
  intros s0 HJ0 E0. clear HJ1 s1 HJ E1 Ep Hid. revert s0 r s' HJ0 E0.
  change (leads J (lists_ok (Some p)) (if existsb (matches cs') (s_block_css s) then mret false else
    _ ← handle_monitor_stats p None; css ← gets s_css; _ ← for_each (end_stale p) css;
    _ ← modify (fun s => set_s_css (s_css s ++ [p]) s); _ ← send_conf p; mret true)).
  destruct (existsb _ _); [by intros s0 r0 s0' [] [= _ <-]|].
  apply leads_bind; [apply logging_in_stats|intros _]. apply leads_bind; [ks|intros css].
  apply leads_bind; [apply keeps_for_each, logging_in_stale|intros _].
  intros s2 r2 s2' [HI HT] E. rewrite <- bind_assoc in E. apply bind_inv in E as (u & s3 & E2 & E).
  injection E as _ <-. by eapply lists_push_css.
Qed.

Lemma lists_mon_stats_all e l : keeps (lists_ok e) (for_each (fun q => handle_monitor_stats q None) l).
Proof. ks. Qed.

(** A monitor's descriptor is given back. *)
Lemma lists_unwatch e s p cs :
  s_servers s !! p = Some cs -> cs_ty cs = MONITOR -> lists_ok e s ->
  lists_ok e (set_s_fd2cs (delete (fd_of cs) (s_fd2cs s)) s).
Proof.
  intros E Et [H1 H2 H3 H4 H5 H6 H7 H8]. split; cbn; auto.
  - intros fd q. rewrite lookup_delete_Some. intros [_ Eq]. by apply H5.
  - intros q c Eq. destruct (H7 _ _ Eq) as [Hf|Hm]; [|by right].
    destruct (decide (fd_of c = fd_of cs)) as [Ef|Ef].
    + right. rewrite (H6 _ _ _ _ Eq E Ef). by eapply H8.
    + left. by rewrite lookup_delete_ne by done.
Qed.

Lemma lists_mon_login p s r s' :
  lists_ok (Some p) (set_s_monitors (s_monitors s ++ [p]) s) -> typed p MONITOR s ->
  handle_mon_login p s = Ok (r, s') -> lists_ok (Some p) s'.
Proof.
  intros HI HT E. unfold handle_mon_login in E. rewrite bind_modify in E.
  assert (typed p MONITOR (set_s_monitors (s_monitors s ++ [p]) s)) as HT1 by done.
  revert E HI HT1. generalize (set_s_monitors (s_monitors s ++ [p]) s). clear - H0. intros s E HI HT.
  set (J := fun s => lists_ok (Some p) s /\ typed p MONITOR s).
  assert (J s) as HJ by done. clear HI HT. revert s r s' HJ E.
  apply leads_bind; [ks|intros _]. apply leads_bind; [ks|intros css].
  apply leads_bind; [apply keeps_for_each; intros q; apply logging_in_stats|intros _].
  intros s r s' [HI HT] E. apply bind_inv in E as (cs & s1 & E1 & E).
  apply deref_cs_spec in E1 as [-> E1]. rewrite bind_modify in E. injection E as _ <-.
  apply (lists_unwatch _ s p cs); [done| |done]. by apply HT.
Qed.

Lemma lists_try_login p m s r s' :
  lists_ok None s -> connected p s -> try_login p m s = Ok (r, s') -> lists_ok None s'.
Proof.
  intros HI (cs & Ecs & Est) E. unfold try_login in E. apply bind_inv in E as (b & s1 & E1 & E).
  assert (lists_ok (Some p) s1) as HI1.
  { assert (forall t, typed p t (set_s_servers (<[p := set_cs_ty t cs]> (s_servers s)) s)) as HT.
    { intros t. split; [by eapply (lo_fresh None s)|]. cbn. intros c.
      rewrite lookup_insert, decide_True by done. by intros [= <-]. }
    destruct m; try (injection E1 as _ <-; by apply lists_begin).
    - apply bind_inv in E1 as (? & s2 & E2 & E1). apply update_cs_spec in E2 as (cs0 & E0 & ->).
      rewrite Ecs in E0. injection E0 as <-. eapply lists_login; [|exact E1]. split; [|apply HT].
      pose proof (lists_retype s p cs (set_cs_ty DAEMON cs) [] Ecs Est eq_refl) as Hr.
      rewrite app_nil_r in Hr. apply Hr; [by left|done].
    - apply bind_inv in E1 as (? & s2 & E2 & E1). apply update_cs_spec in E2 as (cs0 & E0 & ->).
      rewrite Ecs in E0. injection E0 as <-. eapply lists_mon_login; [|apply HT|exact E1].
      apply (lists_retype s p cs (set_cs_ty MONITOR cs) [p]); auto. }
  destruct b.
  - apply bind_inv in E as (? & s2 & E2 & E). apply update_cs_spec in E2 as (cs1 & E2 & ->).
    injection E as _ <-. apply (lists_settle _ p); [by apply lists_log_in|]. cbn. intros c.
    rewrite lookup_insert, decide_True by done. by intros [= <-].
  - apply bind_inv in E as (? & s2 & E2 & E). injection E as _ <-.
    pose proof (handle_end_gone _ _ _ _ E2) as Hg.
    assert (lists_ok (Some p) s2) as HI2 by (by eapply lists_handle_end).
    apply (lists_settle _ p); [done|]. intros c. by rewrite Hg.
Qed.
End lists.

#[export] Instance lists_ok_ops `{ChannelLaws} : SchedOps (lists_ok None).
Proof.
  split; [apply _|..]; intros.
  - apply lists_handle_end.
  - apply lists_notify.
  - apply lists_requests.
  - apply lists_remove.
  - apply lists_job_done.
  - by eapply lists_try_login.
Qed.
