(* ===== verification/Reachable.v ===== *)
(** * The states the scheduler reaches

    One turn of the main loop, whatever happens to it from outside, as a step
    relation; the invariants of the queue, of the job table and of the lists
    of connections hold in every reachable state. *)

From Stdlib Require Import ZArith Lia.
From Stdlib Require Import Strings.Byte Strings.String.
From stdpp Require Import base tactics option list gmap strings sorting.
From S2P Require Import Prelude MsgChannel CompileJob Msg MsgCodec Interface Transport Connection Discovery CompileServer SchedulingAlgo Scheduler ChannelImpl Handlers Dispatch QueueFacts SchedulerFacts WellFormed.

#[local] Open Scope Z_scope.

Section steps.
Context `{ChannelLaws} (version : string) (alg : SchedulerAlgorithmName) (weight : Z).

(** What the world does to the scheduler, and what the scheduler does. *)
Inductive step (s : Scheduler) : Scheduler -> Prop :=
| step_time t : s_now s <= t -> step s (set_s_now t s)
| step_random l : step s (set_s_random l s)
| step_channel p cs c :
    s_servers s !! p = Some cs -> same_peer (cs_channel cs) c ->
    step s (set_s_servers (<[p := set_cs_channel c cs]> (s_servers s)) s)
| step_prune test r s' : prune_servers test s = Ok (r, s') -> step s s'
| step_queue r s' : empty_queue alg weight s = Ok (r, s') -> step s s'
| step_scan msgs u s' : scan_all msgs s = Ok (u, s') -> step s s'
| step_read fd p msgs u s' :
    s_fd2cs s !! fd = Some p -> drain msgs p s = Ok (u, s') -> step s s'
| step_host c msgs u s' :
    (forall p cs, s_servers s !! p = Some cs -> fd_of cs <> c_fd c) ->
    accept_host msgs c s = Ok (u, s') -> step s s'
| step_control c msgs u s' :
    (forall p cs, s_servers s !! p = Some cs -> fd_of cs <> c_fd c) ->
    accept_control version msgs c s = Ok (u, s') -> step s s'
| step_broadcast buf netname pc r s' : handle_broadcast buf netname pc s = Ok (r, s') -> step s s'
| step_tested p cs cs' a :
    s_servers s !! p = Some cs -> updateInConnectivity (s_now s) a cs = Ok cs' ->
    step s (set_s_servers (<[p := cs']> (s_servers s)) s).

Inductive reachable : Scheduler -> Prop :=
| reachable_initial t slow : reachable (initial t slow)
| reachable_step s s' : reachable s -> step s s' -> reachable s'.

(** ** The invariants *)

Record sched_ok (s : Scheduler) : Prop := {
  so_queue : queue_inv s;
  so_table : table_ok s;
  so_lists : lists_ok None s
}.

Lemma keeps_sched_ok {A} (m : sched A) :
  (forall I, SchedOps I -> keeps I m) -> keeps sched_ok m.
Proof.
  intros Hm s a s' [H1 H2 H3] E.
  split; [exact (Hm queue_inv _ _ _ _ H1 E)|exact (Hm table_ok _ _ _ _ H2 E)|exact (Hm (lists_ok None) _ _ _ _ H3 E)].
Qed.

Lemma sched_ok_prim s s' :
  (forall I, SchedPrim I -> I s -> I s') -> sched_ok s -> sched_ok s'.
Proof.
  intros Hs [H1 H2 H3].
  split; [exact (Hs queue_inv _ H1)|exact (Hs table_ok _ H2)|exact (Hs (lists_ok None) _ H3)].
Qed.

Lemma initial_ok t slow : sched_ok (initial t slow).
Proof.
  split.
  - split; [|by split; constructor]. split; cbn; constructor.
  - split; cbn; intros *; by rewrite lookup_empty.
  - split; cbn; intros *; try (intros Hq; by apply elem_of_nil in Hq); by rewrite lookup_empty.
Qed.

(** A new connection. *)
Definition accepted (c : MsgChannel) (s : Scheduler) : Scheduler :=
  set_s_servers (<[s_next s := new_CompileServer c]> (s_servers s))
    (set_s_fd2cs (<[c_fd c := s_next s]> (s_fd2cs s)) (set_s_next (Pos.succ (s_next s)) s)).

Lemma accepted_ok c s :
  (forall p cs, s_servers s !! p = Some cs -> fd_of cs <> c_fd c) -> sched_ok s ->
  sched_ok (accepted c s).
Proof.
  intros Hfd [H1 H2 H3]. split.
  - apply (si_alloc s) in H1. by eapply queue_inv_same; [..|exact H1].
  - apply (si_alloc s) in H2. by eapply table_same; [..|exact H2].
  - destruct H3 as [I1 I2 I3 I4 I5 I6 I7 I8].
    assert (s_servers s !! s_next s = None) as Hnew.
    { destruct (s_servers s !! s_next s) as [cs|] eqn:E; [|done]. specialize (I1 _ _ E). lia. }
    assert (forall t q, listed None t q s -> listed None t q (accepted c s)) as Hl.
    { intros t q (cs & E & Hc). exists cs. cbn. rewrite lookup_insert_ne; [done|]. intros <-. congruence. }
    split; cbn; auto.
    + intros p cs. rewrite lookup_insert_Some. intros [[<- _]|[_ E]]; [lia|].
      specialize (I1 _ _ E). lia.
    + intros fd p. rewrite lookup_insert_Some. intros [[<- <-]|[Hne E]].
      * eexists. by rewrite lookup_insert, decide_True by done.
      * destruct (I5 _ _ E) as (cs & Ecs & <-). exists cs. rewrite lookup_insert_ne; [done|].
        intros <-. congruence.
    + intros p q cs cs'. rewrite !lookup_insert_Some.
      intros [[<- <-]|[Hp Ep]] [[<- <-]|[Hq Eq]] Ef; [done|..].
      * by destruct (Hfd _ _ Eq).
      * by destruct (Hfd _ _ Ep).
      * by eapply I6.
    + intros p cs. rewrite lookup_insert_Some. intros [[<- <-]|[Hp Ep]].
      * left. by rewrite lookup_insert, decide_True by done.
      * destruct (I7 _ _ Ep) as [Hf|Hm]; [|by right]. left. rewrite lookup_insert_ne; [done|].
        intros Ef. by destruct (Hfd _ _ Ep).
    + intros p cs. rewrite lookup_insert_Some. intros [[<- <-]|[Hp Ep]]; [done|]. by apply I8.
Qed.

Lemma accept_host_ok c msgs s u s' :
  (forall p cs, s_servers s !! p = Some cs -> fd_of cs <> c_fd c) -> sched_ok s ->
  accept_host msgs c s = Ok (u, s') -> sched_ok s'.
Proof.
  intros Hfd Hok E. unfold accept_host, now in E. rewrite bind_gets in E. cbv zeta in E.
  destruct (_ =? 0); [by injection E as _ <-|].
  unfold alloc in E. rewrite bind_assoc, bind_get, bind_assoc in E.
  apply bind_inv in E as (? & s1 & E1 & E). injection E1 as _ <-.
  rewrite bind_ret_l, bind_modify in E. revert E. apply keeps_sched_ok; [intros; apply keeps_drain|].
  by apply (accepted_ok (set_last_talk (s_now s) c) s).
Qed.

Lemma lists_push_control s p cs :
  s_servers s !! p = Some cs -> cs_ty cs = LINE -> cs_st cs = LOGGEDIN -> lists_ok (Some p) s ->
  lists_ok None (set_s_controls (s_controls s ++ [p]) s).
Proof.
  intros E Ety Est HI. apply (lists_settle _ p); [|cbn; intros c Ec; congruence].
  destruct HI as [I1 I2 I3 I4 I5 I6 I7 I8]. split; cbn; auto.
  intros q [Hq|Hq]%elem_of_app; [by apply I4|]. apply list_elem_of_singleton in Hq as ->.
  exists cs. auto.
Qed.

(** A control connection goes to the list of controls before anything is read. *)
Lemma control_login_ok p s r s' cs :
  s_servers s !! p = Some cs -> cs_st cs = CONNECTED -> sched_ok s ->
  handle_control_login version p s = Ok (r, s') -> sched_ok s'.
Proof.
  intros Ecs Est [H1 H2 H3] E.
  unfold handle_control_login, now in E. rewrite bind_gets in E.
  apply bind_inv in E as (? & s1 & E1 & E). apply update_cs_spec in E1 as (cs1 & E1 & ->).
  rewrite Ecs in E1. injection E1 as <-.
  pose proof (lists_retype s p cs (set_cs_ty LINE cs) [] Ecs Est eq_refl) as HL.
  rewrite app_nil_r in HL. specialize (HL ltac:(by left) H3).
  apply bind_inv in E as (? & s1 & E1 & E). apply update_cs_spec in E1 as (cs1 & E1 & ->).
  cbn in E1. rewrite lookup_insert, decide_True in E1 by done. injection E1 as <-.
  apply bind_inv in E as (? & s1 & E1 & E). apply update_cs_spec in E1 as (cs1 & E1 & ->).
  cbn in E1. rewrite lookup_insert, decide_True in E1 by done. injection E1 as <-.
  rewrite bind_get in E. apply bind_inv in E as (? & s1 & E1 & E).
  unfold assert in E1. destruct (negb _); [|done]. injection E1 as _ <-.
  rewrite bind_modify in E. revert E. apply keeps_sched_ok; [intros; apply keeps_say|].
  split; [by eapply queue_inv_same; [..|exact H1]|by eapply table_same; [..|exact H2]|].
  set (s1 := set_s_servers (<[p := set_cs_ty LINE cs]> (s_servers s)) s) in *.
  assert (s_servers s1 !! p = Some (set_cs_ty LINE cs)) as E1
    by (cbn; by rewrite lookup_insert, decide_True by done).
  assert (lists_ok (Some p) s1) as HL1 by exact HL.
  pose proof (lists_cs (Some p) p s1 _ (set_cs_channel (set_last_talk (s_now s) (cs_channel cs))
    (set_cs_ty LINE cs)) E1 ltac:(by repeat split) HL1) as HL2.
  match type of HL2 with lists_ok _ ?s2 => assert (s_servers s2 !! p =
    Some (set_cs_channel (set_last_talk (s_now s) (cs_channel cs)) (set_cs_ty LINE cs))) as E2
    by (cbn; by rewrite lookup_insert, decide_True by done) end.
  pose proof (lists_log_in _ p _ E2 HL2) as HL3.
  eapply (lists_push_control _ p (set_cs_st LOGGEDIN (set_cs_channel
    (set_last_talk (s_now s) (cs_channel cs)) (set_cs_ty LINE cs)))); [|done|done|exact HL3].
  cbn. by rewrite lookup_insert, decide_True by done.
Qed.

Lemma accept_control_ok c msgs s u s' :
  (forall p cs, s_servers s !! p = Some cs -> fd_of cs <> c_fd c) -> sched_ok s ->
  accept_control version msgs c s = Ok (u, s') -> sched_ok s'.
Proof.
  intros Hfd Hok E. unfold accept_control in E.
  unfold alloc in E. rewrite bind_assoc, bind_get, bind_assoc in E.
  apply bind_inv in E as (? & s1 & E1 & E). injection E1 as _ <-.
  rewrite bind_ret_l, bind_modify in E. apply bind_inv in E as (ok & s1 & E1 & E).
  assert (sched_ok s1) as Hok1.
  { eapply (control_login_ok _ _ _ _ (new_CompileServer c)); [..|exact E1]; [|done|by apply (accepted_ok c s)].
    cbn. by rewrite lookup_insert, decide_True by done. }
  revert E. destruct ok; apply keeps_sched_ok; try done; intros I HI;
    (apply keeps_bind; [|intros; apply keeps_ret]); [apply keeps_drain|apply so_end].
Qed.

Lemma step_ok s s' : sched_ok s -> step s s' -> sched_ok s'.
Proof.
  intros Hok Hstep. destruct Hstep.
  - revert Hok. apply sched_ok_prim. intros I HI. by apply si_core.
  - revert Hok. apply sched_ok_prim. intros I HI. by apply si_core.
  - revert Hok. apply sched_ok_prim. intros I HI. eapply si_cs; [eassumption|].
    match goal with P : same_peer _ _ |- _ => destruct P as (Hfd & _) end. by destruct cs.
  - match goal with E : prune_servers _ _ = _ |- _ => revert E end.
    apply keeps_sched_ok; [intros; apply keeps_prune_servers|done].
  - match goal with E : empty_queue _ _ _ = _ |- _ => revert E end.
    apply keeps_sched_ok; [intros; apply keeps_empty_queue|done].
  - match goal with E : scan_all _ _ = _ |- _ => revert E end.
    apply keeps_sched_ok; [intros; apply keeps_scan_all|done].
  - match goal with E : drain _ _ _ = _ |- _ => revert E end.
    apply keeps_sched_ok; [intros; apply keeps_drain|done].
  - by eapply accept_host_ok.
  - by eapply accept_control_ok.
  - match goal with E : handle_broadcast _ _ _ _ = _ |- _ => revert E end.
    apply keeps_sched_ok; [intros; apply keeps_broadcast|done].
  - revert Hok. apply sched_ok_prim. intros I HI. eapply si_cs; [eassumption|].
    by eapply updateInConnectivity_identity.
Qed.

Lemma reachable_sched_ok s : reachable s -> sched_ok s.
Proof. induction 1; [apply initial_ok|by eapply step_ok]. Qed.

(** ** Monitors notify nobody

    The end of a monitor does not notify, so [handle_end] nests one round. *)

Lemma agree_for_each {S A} (I : S -> Prop) (f g : A -> M S unit) l :
  (forall x, x ∈ l -> agree I (f x) (g x)) -> agree I (for_each f l) (for_each g l).
Proof.
  induction l as [|x l IH]; intros Hf; [apply agree_refl, keeps_ret|].
  apply agree_bind; [apply Hf, elem_of_cons; by left|].
  intros _. apply IH. intros y Hy. apply Hf, elem_of_cons. by right.
Qed.

Lemma monitor_end he1 he2 q s :
  typed q MONITOR s -> handle_end_with he1 q s = handle_end_with he2 q s.
Proof.
  intros [_ Ht]. unfold handle_end_with, deref_cs. unfold mbind, M_bind, get.
  destruct (s_servers s !! q) as [cs|] eqn:E; [|done]. cbn [need].
  specialize (Ht _ eq_refl). cbn. unfold mret, M_ret. by rewrite Ht.
Qed.

Definition no_end : ptr -> sched unit := fun _ => throw Aborted.

Lemma agree_notify e he m :
  agree (lists_ok e) (notify_monitors m) (notify_monitors_with (handle_end_with he) m).
Proof.
  split; [apply lists_notify|]. intros s HI. unfold notify_monitors, notify_monitors_with.
  rewrite !bind_gets. set (J := fun s' => forall q, q ∈ s_monitors s -> typed q MONITOR s').
  assert (SchedWeak J) as HJ by (apply all_weak; apply _).
  assert (J s) as Hs.
  { intros q Hq. destruct (lo_monitors _ _ HI q Hq) as (cs & E & Ht & _).
    split; [by eapply lo_fresh|]. intros cs'. congruence. }
  enough (agree J (for_each (fun p => ok ← cs_send p m SendNonBlocking;
      when (negb ok) (handle_end_with no_end p)) (s_monitors s))
    (for_each (fun p => ok ← cs_send p m SendNonBlocking;
      when (negb ok) (handle_end_with he p)) (s_monitors s))) as [_ Ha] by by apply Ha.
  apply agree_for_each. intros q Hq. apply agree_bind; [apply agree_refl, keeps_cs_send|].
  intros ok. split.
  - apply keeps_when, weak_inner_end.
  - intros s0 Hs0. destruct ok; [done|]. apply monitor_end, Hs0, Hq.
Qed.

Lemma handle_end_bind he p s :
  handle_end_with he p s =
    match s_servers s !! p with
    | Some cs =>
        ((match cs_ty cs with
          | MONITOR =>
              ms ← gets s_monitors;
              _ ← assert (bool_decide (p ∈ ms));
              modify (fun s => set_s_monitors (remove_ptr p (s_monitors s)) s)
          | DAEMON => end_daemon he p
          | LINE =>
              _ ← cs_send p (Text ("200 Good Bye!")) SendBlocking;
              modify (fun s => set_s_controls (remove_ptr p (s_controls s)) s)
          | UNKNOWN => mret tt
          end) ≫= fun _ => forget p) s
    | None => Fault UseAfterFree
    end.
Proof. apply deref_cs_bind. Qed.
Lemma bind_eq {A B} (m1 m2 : sched A) (k : A -> sched B) s :
  m1 s = m2 s -> (m1 ≫= k) s = (m2 ≫= k) s.
Proof. intros E. unfold mbind, M_bind. by rewrite E. Qed.

Section nesting.
Context (e : option ptr) (he : ptr -> sched unit).

Lemma agree_stopped j :
  agree (lists_ok e) (notify_stopped (handle_end_with no_end) j) (notify_stopped (handle_end_with he) j).
Proof.
  unfold notify_stopped. apply agree_bind; [apply agree_refl; ks|intros job].
  apply agree_bind; [apply agree_notify|intros _]. apply agree_refl. ks.
Qed.
Lemma agree_end_request j :
  agree (lists_ok e) (end_request (handle_end_with no_end) j) (end_request (handle_end_with he) j).
Proof.
  unfold end_request. apply agree_bind; [apply agree_stopped|intros job]. apply agree_refl.
  ks; [apply keeps_erase_job|apply keeps_delete_job].
Qed.
Lemma agree_end_job p x :
  agree (lists_ok e) (end_job (handle_end_with no_end) p x) (end_job (handle_end_with he) p x).
Proof.
  unfold end_job. apply agree_bind; [apply agree_refl; ks|intros job].
  destruct (_ || _); cbn [when]; [|apply agree_refl; ks].
  apply agree_bind; [apply agree_stopped|intros job']. apply agree_refl.
  ks; [apply keeps_erase_job|apply keeps_delete_job].
Qed.
Lemma agree_end_daemon p :
  agree (lists_ok e) (end_daemon (handle_end_with no_end) p) (end_daemon (handle_end_with he) p).
Proof.
  unfold end_daemon. apply agree_bind; [apply agree_refl; ks|intros cs].
  apply agree_bind; [apply agree_notify|intros _].
  apply agree_bind; [apply agree_refl, keeps_modify; intros s; apply sd_css|intros _].
  apply agree_bind; [apply agree_refl; ks|intros q]. apply agree_bind.
  { apply agree_for_each. intros g _. destruct (bool_decide _); cbn [when]; [|apply agree_refl; ks].
    apply agree_bind; [apply agree_for_each; intros j _; apply agree_end_request|intros _].
    apply agree_refl, keeps_job_requests. intros s. apply shrinks_filter. }
  intros _. apply agree_bind; [apply agree_refl; ks|intros l].
  apply agree_bind; [apply agree_for_each; intros x _; apply agree_end_job|intros _].
  apply agree_refl. ks.
Qed.

Lemma nested_end p s :
  lists_ok e s -> handle_end_with (handle_end_with he) p s = handle_end p s.
Proof.
  intros HI. unfold handle_end. fold no_end.
  rewrite (handle_end_bind (handle_end_with he)), (handle_end_bind (handle_end_with no_end)).
  destruct (s_servers s !! p) as [cs|]; [|reflexivity].
  apply bind_eq. destruct (cs_ty cs); lazymatch goal with
  | |- end_daemon _ _ _ = _ => symmetry; by apply agree_end_daemon
  | _ => reflexivity
  end.
Qed.
End nesting.

(** ** Theorems *)

(** C8: the queue of job requests keeps its order. In every reachable state
    the groups are sorted by niceness, none is empty, a submitter has one
    group per niceness, and no request is queued twice. *)
Theorem reachable_queue s : reachable s -> queue_ok (s_job_requests s).
Proof. intros Hr. apply reachable_sched_ok in Hr as [[Hq _] _ _]. done. Qed.

(** C9: the job table is exact. In every reachable state the table [jobs]
    and the allocated jobs are the same: every entry names a live job of that
    id, and every live job is in the table, so no job leaks and none is found
    after its deletion. *)
Theorem reachable_jobs_exact s : reachable s ->
  forall id j, s_jobs s !! id = Some j <-> exists job, s_heap_jobs s !! j = Some job /\ j_id job = id.
Proof.
  intros Hr id j. apply reachable_sched_ok in Hr as [_ [H1 H2] _].
  split; [apply H1|]. intros (job & E & <-). by apply H2.
Qed.

(** C10: the lists of connections hold what they should. In every reachable
    state the servers, monitors and controls are live connections of that
    type that have logged in, [fd2cs] maps a descriptor to the live connection
    that owns it, and every live connection is either in [fd2cs] or a
    monitor: none is leaked and none is listed after its deletion. *)
Theorem reachable_connections s : reachable s ->
  (forall p, p ∈ s_css s -> listed None DAEMON p s) /\
  (forall p, p ∈ s_monitors s -> listed None MONITOR p s) /\
  (forall p, p ∈ s_controls s -> listed None LINE p s) /\
  (forall fd p, s_fd2cs s !! fd = Some p ->
     exists cs, s_servers s !! p = Some cs /\ fd_of cs = fd) /\
  (forall p cs, s_servers s !! p = Some cs ->
     s_fd2cs s !! fd_of cs = Some p \/ p ∈ s_monitors s).
Proof. intros Hr. by apply reachable_sched_ok in Hr as [_ _ []]. Qed.

(** The end of a connection nests at most one round. [handle_end]
    notifies the monitors, and a monitor that cannot be sent to is ended by
    [handle_end] again; in a reachable state that second round never starts
    a third one, whatever it would do. *)
Theorem handle_end_nests_once s he p :
  reachable s -> handle_end_with (handle_end_with he) p s = handle_end p s.
Proof. intros Hr. apply (nested_end None). apply reachable_sched_ok in Hr as [_ _ Hl]. done. Qed.
End steps.

(** ** Sample states

    A daemon [alpha] logs in and asks for two servers with niceness 3. *)

#[local] Existing Instance store_compressors.
#[local] Instance sample_channels : Channels := transport_channels "x86_64".
#[local] Instance sample_laws : ChannelLaws.
Proof. apply transport_laws. Qed.

Definition sample_login (node : string) (kids : Z) : Msg :=
  Login (mkLoginMsg 10245 [("x86_64", "gcc")] kids false true node "x86_64" 0)%string.
Definition sample_request (count niceness : Z) : Msg :=
  GetCS (mkGetCSMsg [("x86_64", "gcc")] "/src/a/b/c.c" Lang_C count "x86_64" 0 7 "" 0 0 1 niceness)%string.
Definition run {A} (m : sched A) (s : Scheduler) : Scheduler :=
  match m s with Ok (_, s') => s' | Fault _ => s end.

Definition alpha : MsgChannel :=
  sample_channel 5 "10.0.0.5" [sample_login "alpha" 2; sample_request 2 3].
Definition busy : Scheduler := run (accept_host 10 alpha) (initial 100 false).

Lemma busy_reachable : reachable "1.4" FASTEST 0 busy.
Proof.
  eapply reachable_step; [apply (reachable_initial _ _ _ 100 false)|].
  eapply (step_host _ _ _ _ alpha 10 tt).
  - intros p cs. cbn. by rewrite lookup_empty.
  - vm_compute. reflexivity.
Qed.

Lemma reachable_queue_witness :
  map g_l (s_job_requests busy) = [[2; 4]]%positive /\ queue_ok (s_job_requests busy).
Proof.
  split; [vm_compute; reflexivity|]. apply (reachable_queue "1.4" FASTEST 0). apply busy_reachable.
Defined.

Lemma reachable_jobs_exact_witness :
  exists job, s_heap_jobs busy !! 4%positive = Some job /\ j_id job = 2.
Proof.
  apply (reachable_jobs_exact "1.4" FASTEST 0 busy busy_reachable 2 4%positive). vm_compute. reflexivity.
Defined.

Lemma reachable_connections_witness :
  s_css busy = [1%positive] /\ listed None DAEMON 1%positive busy.
Proof.
  split; [vm_compute; reflexivity|].
  apply (reachable_connections "1.4" FASTEST 0 busy busy_reachable).
  change (s_css busy) with [1%positive]. apply list_elem_of_singleton. reflexivity.
Defined.

Lemma handle_end_nests_once_witness :
  handle_end_with (handle_end_with (fun _ => mret tt)) 1%positive busy = handle_end 1%positive busy.
Proof. apply (handle_end_nests_once "1.4" FASTEST 0). apply busy_reachable. Defined.
