(* ===== verification/Serving.v ===== *)
(** * Serving the queue of job requests

    What the operations on the queue promise: requests of one submitter and
    niceness are served in the order they came, submitters of the same niceness
    take turns, and [empty_queue] only ever serves the first request. *)

From Stdlib Require Import ZArith Lia Sorted.
From Stdlib Require Import Strings.Byte Strings.String.
From stdpp Require Import base tactics option list gmap strings.
From S2P Require Import Prelude MsgChannel CompileJob Msg MsgCodec Interface Transport Connection CompileServer SchedulingAlgo Scheduler ChannelImpl Handlers Dispatch QueueFacts SchedulerFacts WellFormed Reachable.

#[local] Open Scope Z_scope.

(** ** Order of the requests *)

(** The requests of one submitter and niceness, in the order of the queue. *)
Definition requests_of (k : ptr * Z) (q : list JobRequestsGroup) : list ptr :=
  queue_jobs (filter (fun g => g_key g = k) q).

Lemma requests_of_app k q1 q2 : requests_of k (q1 ++ q2) = requests_of k q1 ++ requests_of k q2.
Proof. unfold requests_of. by rewrite filter_app, queue_jobs_app. Qed.
Lemma requests_of_cons k g q :
  requests_of k (g :: q) = (if decide (g_key g = k) then g_l g else []) ++ requests_of k q.
Proof.
  unfold requests_of. rewrite filter_cons. destruct (decide _); [|done]. apply queue_jobs_cons.
Qed.
Lemma requests_of_other k q : k ∉ map g_key q -> requests_of k q = [].
Proof.
  induction q as [|g q IH]; [done|]. cbn [map]. rewrite not_elem_of_cons, requests_of_cons.
  intros [Hg Hq]. rewrite decide_False by congruence. by apply IH.
Qed.

Lemma enqueue_in_requests newone j sub n q k :
  queue_ok q ->
  requests_of k (enqueue_in newone j sub n q) =
    requests_of k q ++ (if decide (k = (sub, n)) then [j] else []).
Proof.
  intros Hq. destruct (enqueue_in_cases newone j sub n q Hq)
    as [(q1 & g & q2 & -> & Hk & ->)|(q1 & q2 & -> & Hni & _ & _ & ->)];
    rewrite !requests_of_app, !requests_of_cons.
  - change (g_key (set_g_l (g_l g ++ [j]) g)) with (g_key g). rewrite Hk.
    destruct (decide ((sub, n) = k)) as [<-|Hne].
    + rewrite decide_True by done. pose proof (q_keys _ Hq) as Hnd.
      rewrite map_app in Hnd. cbn in Hnd. rewrite Hk in Hnd.
      apply NoDup_app in Hnd as (_ & Hd & Hnd). apply NoDup_cons in Hnd as [Hn2 _].
      rewrite (requests_of_other (sub, n) q2) by done. cbn. by rewrite !app_nil_r, app_assoc.
    + rewrite decide_False by congruence. by rewrite app_nil_r.
  - change (g_key (mkGroup newone [j] sub n)) with (sub, n).
    destruct (decide ((sub, n) = k)) as [<-|Hne].
    + rewrite decide_True by done. rewrite map_app, not_elem_of_app in Hni.
      by rewrite !(requests_of_other (sub, n)) by apply Hni.
    + rewrite decide_False by congruence. by rewrite app_nil_r.
Qed.

(** ** Turns *)

(** What [empty_queue] does to the queue when the first request finds a
    server. *)
Definition serve_first : sched ptr :=
  first ← get_first_job_request;
  pos ← need AssertFailed first;
  _ ← remove_job_request pos;
  mret pos.2.

(** The requests of a group are of live jobs with the niceness of the group. *)
Definition group_live (s : Scheduler) (g : JobRequestsGroup) : Prop :=
  Forall (fun j => exists job, s_heap_jobs s !! j = Some job /\ j_niceness job = g_niceness g) (g_l g).

(** The first request of each group. *)
Definition heads (q : list JobRequestsGroup) : list ptr := flat_map (fun g => take 1 (g_l g)) q.
(** The groups after each was served once. *)
Definition served (q : list JobRequestsGroup) : list JobRequestsGroup :=
  filter (fun g => g_l g <> []) (map (fun g => set_g_l (drop 1 (g_l g)) g) q).

Lemma find_group_head g q : find_group (g_ptr g) (g :: q) = Some g.
Proof. unfold find_group. rewrite filter_cons, decide_True by done. done. Qed.

Lemma first_group_removed g q :
  NoDup (map g_ptr (g :: q)) -> filter (fun x => g_ptr x <> g_ptr g) (g :: q) = q.
Proof.
  intros Hp. cbn [map] in Hp. apply NoDup_cons in Hp as [Hx _].
  rewrite filter_cons, decide_False by (intros Hn; by apply Hn).
  apply filter_all. rewrite Forall_forall. intros y Hy Ey. apply Hx.
  rewrite <- Ey. apply list_elem_of_fmap. eauto.
Qed.

(** One request served: the group goes behind the others. *)
Lemma remove_first_spec g j l q s :
  queue_ok (g :: q) -> s_job_requests s = g :: q -> g_l g = j :: l ->
  (exists job, s_heap_jobs s !! j = Some job /\ j_niceness job = g_niceness g) ->
  remove_job_request (g_ptr g, j) s = Ok (tt, set_s_job_requests
    (match l with [] => q | _ => enqueue_group_in (set_g_l l g) q end) s).
Proof.
  intros Hq Es Eg (job & Ej & En). unfold remove_job_request. cbn [fst snd].
  rewrite bind_gets, Es, find_group_head, (bind_need _ _ g), Eg by done.
  rewrite bind_assert by (apply bool_decide_true; by left).
  rewrite deref_job_bind, Ej, bind_assert by (by apply Z.eqb_eq).
  rewrite (first_group_removed g q) by apply Hq. cbn [erase_first]. by rewrite decide_True by done.
Qed.

Lemma serve_first_spec g j l q s :
  queue_ok (g :: q) -> s_job_requests s = g :: q -> g_l g = j :: l ->
  (exists job, s_heap_jobs s !! j = Some job /\ j_niceness job = g_niceness g) ->
  serve_first s = Ok (j, set_s_job_requests
    (match l with [] => q | _ => enqueue_group_in (set_g_l l g) q end) s).
Proof.
  intros Hq Es Eg Hj. unfold serve_first, get_first_job_request.
  rewrite bind_assoc, bind_gets, Es, Eg, bind_ret_l. cbn [need]. rewrite bind_ret_l.
  by rewrite (bind_ok _ _ _ _ _ (remove_first_spec g j l q s Hq Es Eg Hj)).
Qed.

Lemma enqueue_group_in_at g q1 q2 :
  Forall (fun x => g_niceness x <= g_niceness g) q1 ->
  Forall (fun x => g_niceness g < g_niceness x) q2 ->
  enqueue_group_in g (q1 ++ q2) = q1 ++ g :: q2.
Proof.
  intros H1 H2. induction H1 as [|x q1 Hx H1 IH]; cbn [app enqueue_group_in].
  - destruct H2 as [|x q2 Hx H2]; cbn [enqueue_group_in]; [done|]. by rewrite (proj2 (Z.ltb_lt _ _) Hx).
  - rewrite (proj2 (Z.ltb_ge _ _) Hx). by rewrite IH.
Qed.

(** The queue after a request was served keeps its order. *)
Lemma rest_ok g j l q :
  queue_ok (g :: q) -> g_l g = j :: l ->
  queue_ok (match l with [] => q | _ => enqueue_group_in (set_g_l l g) q end).
Proof.
  intros Hq Eg. pose proof (without_ok (g_ptr g) j g _ Hq (find_group_head g q)) as H.
  unfold without in H. rewrite first_group_removed in H by apply Hq.
  rewrite Eg in H. cbn [erase_first] in H. rewrite decide_True in H by done.
  by destruct l.
Qed.

Lemma set_requests_same q q' s : set_s_job_requests q (set_s_job_requests q' s) = set_s_job_requests q s.
Proof. done. Qed.

Lemma serve_round_spec n q1 r q2 s :
  queue_ok (q1 ++ r ++ q2) -> s_job_requests s = q1 ++ r ++ q2 ->
  Forall (fun g => g_niceness g = n) (q1 ++ r) -> Forall (fun g => n < g_niceness g) q2 ->
  Forall (group_live s) q1 ->
  repeat_m (length q1) serve_first s = Ok (heads q1, set_s_job_requests (r ++ served q1 ++ q2) s).
Proof.
  revert r s. induction q1 as [|g q1 IH]; intros r s Hq Es Hn H2 Hl; cbn [length repeat_m].
  { change (served []) with (@nil JobRequestsGroup). cbn [app] in *. rewrite <- Es. by destruct s. }
  cbn [app] in *. apply Forall_cons in Hn as [Hg Hn], Hl as [Hlg Hl].
  pose proof (q_nonempty _ Hq) as Hne. apply Forall_cons in Hne as [Hne _].
  destruct (g_l g) as [|j l] eqn:Eg; [done|].
  unfold group_live in Hlg. rewrite Eg in Hlg. apply Forall_cons in Hlg as [Hj _].
  pose proof (rest_ok g j l _ Hq Eg) as Hrest.
  rewrite (bind_ok _ _ _ _ _ (serve_first_spec g j l _ s Hq Es Eg Hj)).
  assert (heads (g :: q1) = j :: heads q1) as -> by (unfold heads; cbn; by rewrite Eg).
  destruct l as [|j2 l].
  - rewrite (bind_ok _ _ _ _ _ (IH r (set_s_job_requests (q1 ++ r ++ q2) s) Hrest eq_refl Hn H2 Hl)).
    unfold served. cbn [map]. rewrite Eg, filter_cons, decide_False by (intros Hx; by apply Hx).
    by rewrite set_requests_same.
  - assert (enqueue_group_in (set_g_l (j2 :: l) g) (q1 ++ r ++ q2)
            = q1 ++ (r ++ [set_g_l (j2 :: l) g]) ++ q2) as Eq.
    { rewrite app_assoc, enqueue_group_in_at; [by rewrite <- !app_assoc|..].
      - eapply Forall_impl; [exact Hn|]. cbn. intros x Hx. lia.
      - eapply Forall_impl; [exact H2|]. cbn. intros x Hx. lia. }
    rewrite Eq in *.
    assert (Forall (fun x => g_niceness x = n) (q1 ++ r ++ [set_g_l (j2 :: l) g])) as Hn'
      by (rewrite app_assoc; apply Forall_app; split; [done|by constructor]).
    rewrite (bind_ok _ _ _ _ _ (IH _ (set_s_job_requests (q1 ++ (r ++ [set_g_l (j2 :: l) g]) ++ q2) s)
      Hrest eq_refl Hn' H2 Hl)).
    unfold served. cbn [map]. rewrite Eg, filter_cons, decide_True by done. cbn [drop].
    rewrite set_requests_same, <- app_assoc. done.
Qed.

(** What a served request leaves of the queue. *)
Lemma rest_requests g j l q k :
  queue_ok (g :: q) -> g_l g = j :: l ->
  requests_of k (match l with [] => q | _ => enqueue_group_in (set_g_l l g) q end) =
    (if decide (g_key g = k) then l else []) ++ requests_of k q.
Proof.
  intros Hq Eg. destruct l as [|x l]; [by destruct (decide _)|].
  pose proof (q_sorted _ Hq) as Hs. apply StronglySorted_inv in Hs as [Hs _].
  destruct (enqueue_group_in_cases (set_g_l (x :: l) g) q Hs) as (q1 & q2 & Eq & -> & _ & _).
  rewrite requests_of_app, requests_of_cons.
  change (g_key (set_g_l (x :: l) g)) with (g_key g).
  destruct (decide (g_key g = k)) as [Ek|Ek]; [|by rewrite Eq, requests_of_app].
  pose proof (q_keys _ Hq) as Hk. cbn [map] in Hk. apply NoDup_cons in Hk as [Hk _].
  rewrite Ek, Eq, map_app, not_elem_of_app in Hk.
  rewrite Eq, requests_of_app, !(requests_of_other k) by apply Hk. done.
Qed.

(** ** Positions *)

Definition positions (q : list JobRequestsGroup) : list (positive * ptr) :=
  flat_map (fun g => map (pair (g_ptr g)) (g_l g)) q.

Lemma positions_length q : length (positions q) = queue_length q.
Proof.
  unfold queue_length, positions. induction q as [|g q IH]; [done|]. cbn.
  by rewrite !length_app, length_map, IH.
Qed.

Lemma positions_split q P1 pos P2 :
  positions q = P1 ++ pos :: P2 ->
  exists q1 g q2 l1 l2, q = q1 ++ g :: q2 /\ g_l g = l1 ++ pos.2 :: l2 /\ g_ptr g = pos.1 /\
    P2 = map (pair (g_ptr g)) l2 ++ positions q2.
Proof.
  revert P1. induction q as [|g q IH]; intros P1; cbn; [by destruct P1|].
  intros E. apply app_eq_inv in E as [(k & E1 & E2)|(k & -> & E)].
  - destruct k as [|x k]; cbn in E2.
    + destruct (IH [] (eq_sym E2)) as (q1 & g' & q2 & l1 & l2 & -> & Eg & Ep & EP).
      by exists (g :: q1), g', q2, l1, l2.
    + injection E2 as <- ->. apply map_eq_app in E1 as (l1 & l2 & Eg & _ & E1).
      destruct l2 as [|j l2]; [done|]. cbn in E1. injection E1 as <- <-.
      by exists [], g, q, l1, l2.
  - destruct (IH _ E) as (q1 & g' & q2 & l1 & l2 & -> & Eg & Ep & EP).
    by exists (g :: q1), g', q2, l1, l2.
Qed.

Lemma after_app {A} (P : A -> bool) l1 x l2 :
  Forall (fun y => P y = false) l1 -> P x = true -> after P (l1 ++ x :: l2) = Some l2.
Proof. intros H1 Hx. induction H1 as [|y l1 Hy _ IH]; cbn; [by rewrite Hx|by rewrite Hy]. Qed.

Lemma find_group_at q1 g q2 :
  NoDup (map g_ptr (q1 ++ g :: q2)) -> find_group (g_ptr g) (q1 ++ g :: q2) = Some g.
Proof.
  unfold find_group. rewrite map_app. cbn [map]. intros (_ & Hd & _)%NoDup_app.
  rewrite filter_app, filter_cons, decide_True by done.
  assert (filter (fun x => g_ptr x = g_ptr g) q1 = []) as ->; [|done].
  induction q1 as [|x q1 IH]; [done|]. rewrite filter_cons, decide_False.
  - apply IH. intros y Hy. apply Hd. by right.
  - intros E. apply (Hd (g_ptr x)); [by left|]. rewrite E. by left.
Qed.

Lemma not_same {A B} `{EqDecision B} (f : A -> B) l1 x :
  f x ∉ map f l1 -> Forall (fun y => bool_decide (f y = f x) = false) l1.
Proof.
  intros Hx. rewrite Forall_forall. intros y Hy. apply bool_decide_eq_false. intros E. apply Hx.
  rewrite <- E. apply list_elem_of_fmap. eauto.
Qed.

Lemma get_next_spec pos P1 P2 s :
  queue_ok (s_job_requests s) -> positions (s_job_requests s) = P1 ++ pos :: P2 ->
  get_next_job_request pos s = Ok (head P2, s).
Proof.
  intros Hq E. apply positions_split in E as (q1 & g & q2 & l1 & l2 & Eq & Eg & Ep & ->).
  destruct pos as [p j]. cbn [fst snd] in *. subst p.
  unfold get_next_job_request. cbn [fst snd]. rewrite bind_gets, Eq in *.
  rewrite (bind_need _ _ g) by apply find_group_at, Hq.
  pose proof (q_jobs _ Hq) as Hj. rewrite queue_jobs_app, queue_jobs_cons, Eg in Hj.
  apply NoDup_app in Hj as (_ & _ & Hj). rewrite <- app_assoc in Hj. apply NoDup_app in Hj as (_ & Hd & _).
  rewrite (bind_need _ _ l2).
  2: { rewrite Eg. apply after_app; [|by apply bool_decide_true].
       apply (not_same (fun x : ptr => x)). rewrite map_id. intros Hin. apply (Hd _ Hin). by left. }
  destruct l2 as [|j2 l2]; [|done].
  pose proof (q_ptrs _ Hq) as Hp. rewrite map_app in Hp. cbn [map] in Hp.
  apply NoDup_app in Hp as (_ & Hd2 & _).
  rewrite (bind_need _ _ q2).
  2: { apply after_app; [|by apply bool_decide_true]. apply not_same. intros Hin.
       apply (Hd2 _ Hin). by left. }
  pose proof (q_nonempty _ Hq) as Hne. apply Forall_app in Hne as [_ Hne].
  apply Forall_cons in Hne as [_ Hne]. destruct q2 as [|g2 q2]; [done|].
  apply Forall_cons in Hne as [Hne _]. cbn. by destruct (g_l g2).
Qed.

Lemma get_first_spec s :
  queue_ok (s_job_requests s) ->
  get_first_job_request s = Ok (head (positions (s_job_requests s)), s).
Proof.
  intros Hq. unfold get_first_job_request. rewrite bind_gets.
  pose proof (q_nonempty _ Hq) as Hne. destruct (s_job_requests s) as [|g q]; [done|].
  apply Forall_cons in Hne as [Hne _]. cbn. by destruct (g_l g).
Qed.

(** ** The search for a server *)

(** Whether a server is found does not depend on chance. *)
Lemma pick_server_none alg w stats r r' job sub css :
  pick_server alg w stats r job sub css = None -> pick_server alg w stats r' job sub css = None.
Proof.
  unfold pick_server. destruct (decide _); [done|].
  destruct (filter_ineligible_servers job sub css) as [|s1 [|s2 l]]; [done..|].
  destruct alg; try done; intros E; exfalso;
    try (by eapply random_some; [|exact E]); by eapply fastest_some; [|exact E].
Qed.

Lemma deref_all_spec l s :
  (exists css, forall r, deref_all l (set_s_random r s) = Ok (css, set_s_random r s)) \/
  (forall r, deref_all l (set_s_random r s) = Fault UseAfterFree).
Proof.
  induction l as [|p l IH]; cbn [deref_all]; [left; by exists []|].
  destruct (s_servers s !! p) as [cs|] eqn:E.
  - destruct IH as [(css & IH)|IH]; [left; exists ((p, cs) :: css)|right]; intros r;
      rewrite deref_cs_bind; cbn [s_servers set_s_random]; rewrite E;
      unfold mbind, M_bind; by rewrite IH.
  - right. intros r. rewrite deref_cs_bind. cbn [s_servers set_s_random]. by rewrite E.
Qed.

Section search.
Context `{Channels} (alg : SchedulerAlgorithmName) (weight : Z).

(** The objects a job is assigned with. *)
Record job_seen (s : Scheduler) (j : ptr) (job : Job) (sub : CompileServer)
    (css : list (ptr * CompileServer)) : Prop := {
  seen_job : s_heap_jobs s !! j = Some job;
  seen_sub : s_servers s !! j_submitter job = Some sub;
  seen_css : forall l, deref_all (s_css s) (set_s_random l s) = Ok (css, set_s_random l s)
}.

Definition any_stats (s : Scheduler) : bool := negb (bool_decide (s_all_job_stats s = [])).

Lemma pick_seen s j job sub css l :
  job_seen s j job sub css -> exists r l',
    pick alg weight j (set_s_random l s) =
      Ok (fst <$> pick_server alg weight (any_stats s) r job sub css, set_s_random l' s).
Proof.
  intros [Ej Es Ec]. unfold pick. rewrite deref_job_bind. cbn [s_heap_jobs set_s_random]. rewrite Ej.
  rewrite deref_cs_bind. cbn [s_servers set_s_random]. rewrite Es, bind_gets.
  cbn [s_css set_s_random]. rewrite (bind_ok _ _ _ _ _ (Ec l)), bind_gets.
  destruct (needs_random _ _ _ _ _); [|by eexists _, _].
  destruct l as [|r l]; by eexists _, _.
Qed.

Lemma job_seen_cases s j :
  (exists job sub css, job_seen s j job sub css) \/
  (forall l, pick alg weight j (set_s_random l s) = Fault UseAfterFree).
Proof.
  destruct (s_heap_jobs s !! j) as [job|] eqn:Ej.
  2: { right. intros l. unfold pick. rewrite deref_job_bind. cbn [s_heap_jobs set_s_random]. by rewrite Ej. }
  destruct (s_servers s !! j_submitter job) as [sub|] eqn:Es.
  2: { right. intros l. unfold pick. rewrite deref_job_bind. cbn [s_heap_jobs set_s_random]. rewrite Ej.
       rewrite deref_cs_bind. cbn [s_servers set_s_random]. by rewrite Es. }
  destruct (deref_all_spec (s_css s) s) as [(css & Hc)|Hc]; [left; by exists job, sub, css|].
  right. intros l. unfold pick. rewrite deref_job_bind. cbn [s_heap_jobs set_s_random]. rewrite Ej.
  rewrite deref_cs_bind. cbn [s_servers set_s_random]. rewrite Es, bind_gets.
  cbn [s_css set_s_random]. unfold mbind, M_bind. by rewrite Hc.
Qed.

(** The last part of the loop: nobody serves the first request now. *)
Definition give_up_or_delay (pos : positive * ptr) : sched (option (positive * ptr * ptr * ptr)) :=
  job ← deref_job pos.2;
  sub ← deref_cs (j_submitter job);
  l ← gets s_css;
  css ← deref_all l;
  if somebody_ever job sub css then mret None else mret (Some (pos, pos.2, j_submitter job)).

(** The loop, once neither a server nor the submitter takes [j]: it walks over
    the rest of the queue and comes back to the first request. *)
Lemma find_server_walk s j first job sub css :
  queue_ok (s_job_requests s) -> head (positions (s_job_requests s)) = Some first ->
  job_seen s j job sub css -> pick_server alg weight (any_stats s) 0 job sub css = None ->
  submitter_takes job sub = false ->
  forall fuel pos P1 P2 l, positions (s_job_requests s) = P1 ++ pos :: P2 ->
    (length P2 <= fuel)%nat ->
    exists l', find_server alg weight fuel j pos (set_s_random l s)
      = give_up_or_delay first (set_s_random l' s).
Proof.
  intros Hq Hfirst Hseen Hnone Hsub fuel. induction fuel as [|fuel IH];
    intros pos P1 P2 l EP Hf; cbn [find_server];
    destruct (pick_seen s j job sub css l Hseen) as (r & l' & E);
    rewrite (pick_server_none _ _ _ _ r _ _ _ Hnone) in E; rewrite (bind_ok _ _ _ _ _ E);
    cbn [fmap option_fmap option_map]; rewrite deref_job_bind; cbn [s_heap_jobs set_s_random];
    rewrite (seen_job _ _ _ _ _ Hseen), deref_cs_bind; cbn [s_servers set_s_random];
    rewrite (seen_sub _ _ _ _ _ Hseen), Hsub;
    rewrite (bind_ok _ _ _ _ _ (get_next_spec pos P1 P2 (set_s_random l' s) Hq EP)).
  all: destruct P2 as [|pos2 P2]; cbn [head] in *; cbn [length] in Hf.
  2: lia.
  3: { apply (IH pos2 (P1 ++ [pos]) P2 l'); [by rewrite <- app_assoc|lia]. }
  all: exists l'; rewrite (bind_ok _ _ _ _ _ (get_first_spec (set_s_random l' s) Hq));
    cbn [s_job_requests set_s_random]; rewrite Hfirst; reflexivity.
Qed.
End search.

(** ** Assignment *)

Section assignment.
Context `{ChannelLaws} (alg : SchedulerAlgorithmName) (weight : Z).

Lemma give_up_cases pos s :
  match give_up_or_delay pos s with
  | Ok (r, s') => s' = s /\ (r = None \/ exists u, r = Some (pos, pos.2, u))
  | Fault f => f = UseAfterFree
  end.
Proof.
  unfold give_up_or_delay. rewrite deref_job_bind. destruct (s_heap_jobs s !! pos.2) as [job|]; [|done].
  rewrite deref_cs_bind. destruct (s_servers s !! j_submitter job) as [sub|]; [|done]. rewrite bind_gets.
  assert (set_s_random (s_random s) s = s) as Er by (by destruct s).
  destruct (deref_all_spec (s_css s) s) as [(css & Hc)|Hc]; specialize (Hc (s_random s)); rewrite Er in Hc.
  - rewrite (bind_ok _ _ _ _ _ Hc). destruct (somebody_ever _ _ _); (split; [done|]); [by left|].
    right. by eexists.
  - unfold mbind, M_bind. by rewrite Hc.
Qed.

Lemma positions_first first s :
  head (positions (s_job_requests s)) = Some first ->
  exists P, positions (s_job_requests s) = [] ++ first :: P /\
    (length P <= queue_length (s_job_requests s))%nat.
Proof.
  rewrite <- positions_length. destruct (positions _) as [|x P]; [done|]. intros [= ->].
  exists P. split; [done|]. cbn. lia.
Qed.

(** A job that was assigned: to a server that has it in its list. *)
Definition assigned_to (j u : ptr) (s : Scheduler) : Prop :=
  (exists job, s_heap_jobs s !! j = Some job /\ j_state job = WAITINGFORCS /\ j_server job = Some u) /\
  (exists cs, s_servers s !! u = Some cs /\ j ∈ cs_jobList cs).

(** The same, with the rest of the queue as it was. *)
Definition settled (j u : ptr) (q : list JobRequestsGroup) (s : Scheduler) : Prop :=
  assigned_to j u s /\ s_job_requests s = q.

Lemma settled_set_env j u q t e : keeps (settled j u q) (update_job t (set_job_environments e)).
Proof.
  intros s [] s' [[(job & Ej & Hs & Hu) Hcs] Hq] E. apply update_job_spec in E as (job' & Ej' & ->).
  split; [|exact Hq]. split; [|exact Hcs]. cbn. destruct (decide (t = j)) as [->|Hne].
  - rewrite lookup_insert, decide_True by done. eexists. split; [done|].
    rewrite Ej in Ej'. injection Ej' as <-. done.
  - rewrite lookup_insert_ne by done. eauto.
Qed.
Lemma settled_installing j u q t : keeps (settled j u q) (update_cs u (set_cs_busyInstalling t)).
Proof.
  intros s [] s' [[Hj (cs & E & Hin)] Hq] E2. apply update_cs_spec in E2 as (cs' & E' & ->).
  split; [|exact Hq]. split; [exact Hj|]. cbn. rewrite lookup_insert, decide_True by done.
  eexists. split; [done|]. rewrite E in E'. injection E' as <-. done.
Qed.

Lemma assign_spec j u s job s' :
  s_heap_jobs s !! j = Some job -> assign j u s = Ok (tt, s') ->
  s_servers s' !! j_submitter job = None \/ settled j u (s_job_requests s) s'.
Proof.
  intros Ej E. unfold assign in E. apply bind_inv in E as (? & s1 & E1 & E).
  apply update_job_spec in E1 as (job1 & E1 & ->). rewrite Ej in E1. injection E1 as <-.
  rewrite deref_job_bind in E. cbn in E. rewrite lookup_insert, decide_True in E by done.
  set (job1 := set_job_server (Some u) (set_job_state WAITINGFORCS job)) in *.
  rewrite !deref_cs_bind in E. cbn in E.
  destruct (s_servers s !! u) as [cs|] eqn:Eu; [|done].
  rewrite deref_cs_bind in E. cbn in E.
  destruct (s_servers s !! j_submitter job) as [sub|] eqn:Es; [|done].
  apply bind_inv in E as (sent & s2 & E2 & E). apply on_channel_spec in E2 as (sub' & c & Es' & _ & ->).
  destruct sent; cbn [negb] in E; [right|left; by apply handle_end_gone in E].
  apply bind_inv in E as (? & s3 & E3 & E). apply update_cs_spec in E3 as (cs3 & Eu3 & ->).
  assert (forall (m : sched unit) q s0, keeps (settled j u q) m -> settled j u q s0 ->
    m s0 = Ok (tt, s') -> settled j u q s') as Hk by (unfold keeps; eauto).
  eapply Hk; [..|exact E].
  - ks; [apply settled_installing|apply settled_set_env].
  - split; [|reflexivity].
    split; cbn; rewrite lookup_insert, decide_True by done; eexists; (split; [done|]); [done|].
    apply elem_of_app. right. by left.
Qed.

Lemma find_server_spec s first :
  queue_ok (s_job_requests s) -> head (positions (s_job_requests s)) = Some first ->
  match find_server alg weight (queue_length (s_job_requests s)) first.2 first s with
  | Ok (r, s') => (r = None \/ exists u, r = Some (first, first.2, u)) /\
                  exists l, s' = set_s_random l s
  | Fault f => f = UseAfterFree
  end.
Proof.
  intros Hq Hfirst. destruct (positions_first first s Hfirst) as (P & EP & HP).
  assert (set_s_random (s_random s) s = s) as Er by (by destruct s).
  destruct (job_seen_cases alg weight s first.2) as [(job & sub & css & Hseen)|Hlost].
  2: { specialize (Hlost (s_random s)). rewrite Er in Hlost.
       destruct (queue_length _); cbn [find_server]; unfold mbind, M_bind; by rewrite Hlost. }
  destruct (pick_server alg weight (any_stats s) 0 job sub css) as [[p cs]|] eqn:Epick;
    [|destruct (submitter_takes job sub) eqn:Esub].
  - destruct (pick_seen alg weight s first.2 job sub css (s_random s) Hseen) as (r & l & E).
    rewrite Er in E. destruct (pick_server alg weight (any_stats s) r job sub css) as [[p' cs']|] eqn:Er'.
    2: { by rewrite (pick_server_none _ _ _ _ 0 _ _ _ Er') in Epick. }
    destruct (queue_length _); cbn [find_server]; rewrite (bind_ok _ _ _ _ _ E); cbn;
      (split; [right; by eexists|by eexists]).
  - destruct (pick_seen alg weight s first.2 job sub css (s_random s) Hseen) as (r & l & E).
    rewrite Er, (pick_server_none _ _ _ _ r _ _ _ Epick) in E.
    destruct (queue_length _); cbn [find_server]; rewrite (bind_ok _ _ _ _ _ E);
      cbn [fmap option_fmap option_map]; rewrite deref_job_bind; cbn [s_heap_jobs set_s_random];
      rewrite (seen_job _ _ _ _ _ Hseen), deref_cs_bind; cbn [s_servers set_s_random];
      rewrite (seen_sub _ _ _ _ _ Hseen), Esub; cbn; (split; [right; by eexists|by eexists]).
  - destruct (find_server_walk alg weight s first.2 first job sub css Hq Hfirst Hseen Epick Esub
      (queue_length (s_job_requests s)) first [] P (s_random s) EP HP) as (l & E).
    rewrite Er in E. rewrite E. pose proof (give_up_cases first (set_s_random l s)) as H1.
    destruct (give_up_or_delay _ _) as [[r s']|]; [|done]. destruct H1 as [-> H1]. eauto.
Qed.

(** ** Theorems *)

(** A request queues behind the earlier requests of its submitter and
    niceness, and the order of all other requests is left alone. *)
Theorem enqueue_keeps_order j s job :
  queue_ok (s_job_requests s) -> s_heap_jobs s !! j = Some job ->
  exists s', enqueue_job_request j s = Ok (tt, s') /\
    forall k, requests_of k (s_job_requests s') =
      requests_of k (s_job_requests s) ++
      (if decide (k = (j_submitter job, j_niceness job)) then [j] else []).
Proof.
  intros Hq Ej. eexists. split.
  - unfold enqueue_job_request. rewrite deref_job_bind, Ej. reflexivity.
  - intros k. cbn. by apply enqueue_in_requests.
Qed.

(** Submitters of the same niceness take turns. When the groups of least
    niceness are served as many times as there are of them, each is served
    exactly once, in their order and with its oldest request, before any group
    of a larger niceness, and they keep their order for the next round. *)
Theorem requests_take_turns n q1 q2 s :
  queue_ok (q1 ++ q2) -> s_job_requests s = q1 ++ q2 ->
  Forall (fun g => g_niceness g = n) q1 -> Forall (fun g => n < g_niceness g) q2 ->
  Forall (group_live s) q1 ->
  repeat_m (length q1) serve_first s = Ok (heads q1, set_s_job_requests (served q1 ++ q2) s).
Proof.
  intros Hq Es Hn H2 Hl. apply (serve_round_spec n q1 [] q2 s Hq Es); [by rewrite app_nil_r|done..].
Qed.

(** C20: [empty_queue] serves the first request of the queue or none. When it
    says that it assigned a job, that job is the oldest request of the first
    group, and it either waits for the compile server whose list it joined,
    the rest of the queue keeping its order, or its submitter is gone. *)
Theorem empty_queue_serves_first s s' :
  queue_ok (s_job_requests s) -> empty_queue alg weight s = Ok (true, s') ->
  exists first job, head (positions (s_job_requests s)) = Some first /\
    s_heap_jobs s !! first.2 = Some job /\
    (s_servers s' !! j_submitter job = None \/
     exists u k, assigned_to first.2 u s' /\
       forall k', requests_of k' (s_job_requests s) =
         (if decide (k = k') then [first.2] else []) ++ requests_of k' (s_job_requests s')).
Proof.
  intros Hq E. unfold empty_queue in E. rewrite (bind_ok _ _ _ _ _ (get_first_spec s Hq)) in E.
  destruct (head (positions (s_job_requests s))) as [first|] eqn:Hfirst; [|done].
  rewrite bind_get in E. apply bind_inv in E as ([] & s1 & E1 & E).
  unfold assert in E1. destruct (negb _); [|done]. injection E1 as <-.
  apply bind_inv in E as (r & s1 & E1 & E). pose proof (find_server_spec s first Hq Hfirst) as Hf.
  rewrite E1 in Hf. destruct Hf as [[->|(u & ->)] (l & ->)]; [done|].
  apply bind_inv in E as (? & s2 & E2 & E). apply remove_spec in E2 as (g & Eg & Hin & ->).
  cbn [s_job_requests set_s_random] in *.
  apply bind_inv in E as ([] & s3 & E3 & E). injection E as ->.
  exists first. destruct (s_heap_jobs s !! first.2) as [job|] eqn:Ej.
  2: { exfalso. unfold assign, update_job in E3. rewrite bind_assoc, deref_job_bind in E3.
       cbn in E3. by rewrite Ej in E3. }
  exists job. split; [done|]. split; [done|].
  apply (assign_spec _ _ _ job) in E3; [|exact Ej]. destruct E3 as [E3|[E3 Eq]]; [by left|right].
  exists u, (g_key g). split; [done|]. intros k. rewrite Eq. cbn [s_job_requests set_s_job_requests].
  destruct (s_job_requests s) as [|g0 q] eqn:Es; [done|].
  pose proof (q_nonempty _ Hq) as Hne. apply Forall_cons in Hne as [Hne _].
  destruct (g_l g0) as [|j js] eqn:El; [done|]. cbn in Hfirst. rewrite El in Hfirst.
  injection Hfirst as <-. cbn [fst snd] in *. rewrite find_group_head in Eg. injection Eg as <-.
  unfold without. rewrite first_group_removed by apply Hq. rewrite El. cbn [erase_first].
  destruct (decide (j = j)); [|done]. pose proof (rest_requests g0 j js q k Hq El) as Hr.
  rewrite requests_of_cons, El. unfold requests_of, queue_jobs in Hr |- *.
  destruct js; rewrite Hr; by destruct (decide (g_key g0 = k)).
Qed.

(** The search for a server ends. In every reachable state the loop of
    [empty_queue] finishes within as many rounds as there are requests, and
    none of its assertions fails. *)
Theorem find_server_ends version s first f :
  reachable version alg weight s -> head (positions (s_job_requests s)) = Some first ->
  find_server alg weight (queue_length (s_job_requests s)) first.2 first s = Fault f ->
  f = UseAfterFree.
Proof.
  intros Hr Hfirst E. apply reachable_sched_ok in Hr as [[Hq _] _ _].
  pose proof (find_server_spec s first Hq Hfirst) as H1. by rewrite E in H1.
Qed.

(** The first request blocks the queue. When no server takes the first
    request now, its submitter does not either, but some server could at
    another time, [empty_queue] assigns nothing and changes nothing (but the
    random numbers): none of the other requests is tried, whatever servers are
    free for them. *)
Theorem first_request_blocks s first job sub css :
  queue_ok (s_job_requests s) -> head (positions (s_job_requests s)) = Some first ->
  job_seen s first.2 job sub css -> s_css s <> [] ->
  pick_server alg weight (any_stats s) 0 job sub css = None ->
  submitter_takes job sub = false -> somebody_ever job sub css = true ->
  exists l, empty_queue alg weight s = Ok (false, set_s_random l s).
Proof.
  intros Hq Hfirst Hseen Hcss Hnone Hsub Hever. destruct (positions_first first s Hfirst) as (P & EP & HP).
  assert (set_s_random (s_random s) s = s) as Er by (by destruct s).
  destruct (find_server_walk alg weight s first.2 first job sub css Hq Hfirst Hseen Hnone Hsub
    (queue_length (s_job_requests s)) first [] P (s_random s) EP HP) as (l & E).
  rewrite Er in E. exists l. unfold empty_queue. rewrite (bind_ok _ _ _ _ _ (get_first_spec s Hq)), Hfirst.
  rewrite bind_get, bind_assert by (by rewrite bool_decide_false).
  assert (give_up_or_delay first (set_s_random l s) = Ok (None, set_s_random l s)) as Eg.
  { unfold give_up_or_delay. rewrite deref_job_bind. cbn [s_heap_jobs set_s_random].
    rewrite (seen_job _ _ _ _ _ Hseen), deref_cs_bind. cbn [s_servers set_s_random].
    rewrite (seen_sub _ _ _ _ _ Hseen), bind_gets. cbn [s_css set_s_random].
    by rewrite (bind_ok _ _ _ _ _ (seen_css _ _ _ _ _ Hseen l)), Hever. }
  rewrite Eg in E. by rewrite (bind_ok _ _ _ _ _ E).
Qed.
End assignment.

(** ** When everybody is there

    A request whose job is alive, and with it the submitter and the jobs of the
    same question: nothing that the assignment touches is gone. *)

Definition job_present (s : Scheduler) (niceness : Z) (j : ptr) : Prop :=
  exists job, s_heap_jobs s !! j = Some job /\ j_niceness job = niceness /\
    is_Some (s_servers s !! j_submitter job) /\
    Forall (fun t => is_Some (s_heap_jobs s !! t)) (j_masterJobFor job).
Definition requests_present (s : Scheduler) : Prop :=
  Forall (fun g => Forall (job_present s (g_niceness g)) (g_l g)) (s_job_requests s).

Definition requests_presentb (s : Scheduler) : bool :=
  forallb (fun g => forallb (fun j =>
    match s_heap_jobs s !! j with
    | Some job => (j_niceness job =? g_niceness g) && bool_decide (is_Some (s_servers s !! j_submitter job))
        && forallb (fun t => bool_decide (is_Some (s_heap_jobs s !! t))) (j_masterJobFor job)
    | None => false
    end) (g_l g)) (s_job_requests s).
Lemma requests_presentb_ok s : requests_presentb s = true -> requests_present s.
Proof.
  intros Hb. apply Forall_forall. intros g Hg. apply Forall_forall. intros j Hj.
  unfold requests_presentb in Hb. rewrite forallb_forall in Hb. apply list_elem_of_In, Hb in Hg.
  rewrite forallb_forall in Hg. apply list_elem_of_In, Hg in Hj.
  destruct (s_heap_jobs s !! j) as [job|] eqn:E; [|done].
  apply andb_true_iff in Hj as [[En Es]%andb_true_iff Em]. apply bool_decide_eq_true in Es.
  exists job. split; [done|]. split; [by apply Z.eqb_eq|]. split; [done|].
  apply Forall_forall. intros t Ht. rewrite forallb_forall in Em.
  apply list_elem_of_In, Em in Ht. by apply bool_decide_eq_true in Ht.
Qed.

Record present (s : Scheduler) : Prop := {
  pr_queue : queue_ok (s_job_requests s);
  pr_css : Forall (fun p => is_Some (s_servers s !! p)) (s_css s);
  pr_some : s_job_requests s <> [] -> s_css s <> [];
  pr_requests : requests_present s
}.

(** Nobody has gone. *)
Record nobody_left (s s' : Scheduler) : Prop := {
  nl_css : s_css s' = s_css s;
  nl_queue : s_job_requests s' = s_job_requests s;
  nl_servers : forall p, is_Some (s_servers s !! p) -> is_Some (s_servers s' !! p);
  nl_jobs : forall j job, s_heap_jobs s !! j = Some job -> exists job', s_heap_jobs s' !! j = Some job' /\
    j_niceness job' = j_niceness job /\ j_submitter job' = j_submitter job /\
    j_masterJobFor job' = j_masterJobFor job
}.

#[local] Instance nobody_left_preorder : PreOrder nobody_left.
Proof.
  split; [split; eauto|]. intros s1 s2 s3 [A1 B1 C1 D1] [A2 B2 C2 D2].
  split; [congruence|congruence|auto|]. intros j job Hj.
  destruct (D1 _ _ Hj) as (job' & Hj' & E1 & E2 & E3).
  destruct (D2 _ _ Hj') as (job2 & Hj2 & F1 & F2 & F3). exists job2. split; [done|]. repeat split; congruence.
Qed.

Lemma nobody_left_servers s p cs :
  nobody_left s (set_s_servers (<[p := cs]> (s_servers s)) s).
Proof.
  split; [done|done| |by eauto]. intros q Hq. cbn. rewrite lookup_insert. by destruct (decide _).
Qed.

Lemma nobody_left_job s j job job' :
  s_heap_jobs s !! j = Some job -> j_niceness job' = j_niceness job ->
  j_submitter job' = j_submitter job -> j_masterJobFor job' = j_masterJobFor job ->
  nobody_left s (set_s_heap_jobs (<[j := job']> (s_heap_jobs s)) s).
Proof.
  intros Hj E1 E2 E3. split; [done|done|done|]. intros k x Hk. cbn. rewrite lookup_insert.
  destruct (decide (j = k)) as [->|]; [|by eauto]. rewrite Hj in Hk. injection Hk as <-. eauto.
Qed.

Lemma job_present_left s s' n j : nobody_left s s' -> job_present s n j -> job_present s' n j.
Proof.
  intros HL (job & Hj & Hn & Hs & Hm). destruct (nl_jobs _ _ HL _ _ Hj) as (job' & Hj' & E1 & E2 & E3).
  exists job'. rewrite E1, E2, E3. split; [done|]. split; [done|]. split; [by apply (nl_servers _ _ HL)|].
  eapply Forall_impl; [exact Hm|]. intros t [x Ht]. destruct (nl_jobs _ _ HL _ _ Ht) as (x' & Hx & _).
  by exists x'.
Qed.

Lemma present_left s s' : nobody_left s s' -> present s -> present s'.
Proof.
  intros HL [Hq Hc Hs Hr]. split.
  - by rewrite (nl_queue _ _ HL).
  - rewrite (nl_css _ _ HL). eapply Forall_impl; [exact Hc|]. apply (nl_servers _ _ HL).
  - by rewrite (nl_queue _ _ HL), (nl_css _ _ HL).
  - unfold requests_present. rewrite (nl_queue _ _ HL). eapply Forall_impl; [exact Hr|].
    intros g Hg. eapply Forall_impl; [exact Hg|]. intros j. by apply job_present_left.
Qed.

(** A computation that returns, and after which everybody is still there. *)
Definition stays {A} (m : sched A) (s : Scheduler) : Prop := runs m s (fun _ s' => nobody_left s s').

Lemma stays_then {A B} (m : sched A) (k : A -> sched B) s :
  stays m s -> (forall a s', nobody_left s s' -> stays (k a) s') -> stays (m ≫= k) s.
Proof.
  intros Hm Hk. apply runs_bind. eapply runs_weaken; [|exact Hm]. intros a s1 H1.
  eapply runs_weaken; [|by apply Hk]. intros b s2 H2. exact (transitivity H1 H2).
Qed.
Lemma stays_ret {A} (a : A) s : stays (mret a) s.
Proof. apply runs_ret. reflexivity. Qed.
Lemma stays_deref_cs {B} p cs (k : CompileServer -> sched B) s :
  s_servers s !! p = Some cs -> stays (k cs) s -> stays (deref_cs p ≫= k) s.
Proof. intros E Hk. unfold stays, runs. by rewrite deref_cs_bind, E. Qed.
Lemma stays_deref_job {B} j job (k : Job -> sched B) s :
  s_heap_jobs s !! j = Some job -> stays (k job) s -> stays (deref_job j ≫= k) s.
Proof. intros E Hk. unfold stays, runs. by rewrite deref_job_bind, E. Qed.
Lemma stays_update_cs p f s : is_Some (s_servers s !! p) -> stays (update_cs p f) s.
Proof.
  intros [cs E]. eapply runs_ok; [|apply nobody_left_servers].
  unfold update_cs. by rewrite deref_cs_bind, E.
Qed.
Lemma stays_update_job j f s :
  is_Some (s_heap_jobs s !! j) ->
  (forall job, j_niceness (f job) = j_niceness job /\ j_submitter (f job) = j_submitter job /\
     j_masterJobFor (f job) = j_masterJobFor job) ->
  stays (update_job j f) s.
Proof.
  intros [job E] Hf. destruct (Hf job) as (E1 & E2 & E3).
  eapply runs_ok; [|by eapply (nobody_left_job s j job (f job))].
  unfold update_job. by rewrite deref_job_bind, E.
Qed.

Section everybody.
Context `{Channels} (alg : SchedulerAlgorithmName) (weight : Z).
Context (sends_succeed : forall m flags c, exists c', ch_send m flags c = Ok (true, c')).

Lemma left_job s s' j : nobody_left s s' -> is_Some (s_heap_jobs s !! j) -> is_Some (s_heap_jobs s' !! j).
Proof. intros HL [x Hx]. destruct (nl_jobs _ _ HL _ _ Hx) as (x' & Hx' & _). by exists x'. Qed.

Lemma stays_send {B} p m flags (k : bool -> sched B) s :
  is_Some (s_servers s !! p) -> (forall s', nobody_left s s' -> stays (k true) s') ->
  stays (cs_send p m flags ≫= k) s.
Proof.
  intros [cs E] Hk. destruct (sends_succeed m flags (cs_channel cs)) as (c & Ec).
  apply runs_bind. eapply runs_ok.
  - unfold cs_send, on_channel. rewrite deref_cs_bind, E, Ec. by rewrite bind_modify.
  - pose proof (nobody_left_servers s p (set_cs_channel c cs)) as HL.
    eapply runs_weaken; [|by apply Hk]. intros b s' H2. exact (transitivity HL H2).
Qed.

Lemma assign_stays j u s n :
  job_present s n j -> is_Some (s_servers s !! u) -> stays (assign j u) s.
Proof.
  intros Hj Hu. unfold assign.
  assert (is_Some (s_heap_jobs s !! j)) as Hjs by (destruct Hj as (? & ? & _); eauto).
  apply stays_then; [by apply stays_update_job|]. intros [] s1 H1.
  apply (job_present_left _ _ _ _ H1) in Hj. apply (nl_servers _ _ H1) in Hu.
  destruct Hj as (job & Ej & _ & Hs & Hm). pose proof Hu as [cs Ecs]. pose proof Hs as [sub Esub].
  eapply stays_deref_job; [exact Ej|]. eapply stays_deref_cs; [exact Ecs|].
  eapply stays_deref_cs; [exact Esub|]. cbv zeta. apply stays_send; [exact Hs|]. intros s2 H2. cbn [negb].
  apply (nl_servers _ _ H2) in Hu.
  apply stays_then; [by apply stays_update_cs|]. intros [] s3 H3. apply (nl_servers _ _ H3) in Hu.
  apply stays_then; [by eapply runs_ok|]. intros t s4 H4. apply (nl_servers _ _ H4) in Hu.
  apply stays_then; [destruct (negb _); [by apply stays_update_cs|apply stays_ret]|]. intros [] s5 H5.
  set (env := match j_masterJobFor job with [] => _ | _ => _ end). destruct (nonempty env); [|apply stays_ret].
  assert (Forall (fun t => is_Some (s_heap_jobs s5 !! t)) (j_masterJobFor job)) as Hm5.
  { eapply Forall_impl; [exact Hm|]. intros x Hx. do 4 (eapply left_job; [eassumption|]). exact Hx. }
  cbn [when]. clear - Hm5. induction (j_masterJobFor job) as [|x l IH] in s5, Hm5 |- *; [apply stays_ret|].
  apply Forall_cons in Hm5 as [Hx Hl]. cbn [for_each]. apply stays_then; [by apply stays_update_job|].
  intros [] s6 H6. apply IH. eapply Forall_impl; [exact Hl|]. intros y Hy. by eapply left_job.
Qed.

(** The search finds somebody who is there. *)
Lemma deref_all_in l s css p cs :
  deref_all l s = Ok (css, s) -> (p, cs) ∈ css -> s_servers s !! p = Some cs.
Proof.
  revert css. induction l as [|q l IH]; intros css E Hin; cbn [deref_all] in E.
  - injection E as <-. by apply not_elem_of_nil in Hin.
  - rewrite deref_cs_bind in E. destruct (s_servers s !! q) as [c|] eqn:Eq; [|done].
    apply bind_inv in E as (r & s1 & E1 & E). injection E as <- ->.
    apply elem_of_cons in Hin as [[= -> ->]|Hin]; [done|by eapply IH].
Qed.

Lemma everybody_seen s j n :
  present s -> job_present s n j -> exists job sub css, job_seen s j job sub css.
Proof.
  intros HP (job & Ej & _ & [sub Es] & _). destruct (deref_all_spec (s_css s) s) as [(css & Hc)|Hc].
  { by exists job, sub, css. }
  exfalso. specialize (Hc (s_random s)). assert (set_s_random (s_random s) s = s) as Er by (by destruct s).
  rewrite Er in Hc. pose proof (pr_css _ HP) as Hcss. revert Hc Hcss. generalize (s_css s).
  induction l as [|p l IH]; intros Hc Hcss; [done|]. apply Forall_cons in Hcss as [[cs Ep] Hcss].
  cbn [deref_all] in Hc. rewrite deref_cs_bind, Ep in Hc. unfold mbind, M_bind in Hc.
  destruct (deref_all l s) as [[x s1]|f] eqn:El; [done|]. injection Hc as ->. by apply IH.
Qed.

Lemma find_server_present s first n :
  present s -> head (positions (s_job_requests s)) = Some first -> job_present s n first.2 ->
  exists r l, find_server alg weight (queue_length (s_job_requests s)) first.2 first s
      = Ok (r, set_s_random l s) /\
    (r = None \/ exists u, r = Some (first, first.2, u) /\ is_Some (s_servers s !! u)).
Proof.
  intros HP Hfirst Hj. pose proof (pr_queue _ HP) as Hq.
  assert (set_s_random (s_random s) s = s) as Er by (by destruct s).
  destruct (everybody_seen _ _ _ HP Hj) as (job & sub & css & Hseen).
  destruct (positions_first first s Hfirst) as (P & EP & HPl).
  destruct (pick_seen alg weight s first.2 job sub css (s_random s) Hseen) as (r & l & E). rewrite Er in E.
  destruct (pick_server alg weight (any_stats s) r job sub css) as [[p cs]|] eqn:Epick.
  { exists (Some (first, first.2, p)), l.
    split; [destruct (queue_length _); cbn [find_server]; by rewrite (bind_ok _ _ _ _ _ E)|].
    right. exists p. split; [done|]. apply pick_server_in in Epick as [Hin _]. exists cs.
    eapply (deref_all_in (s_css s)); [|exact Hin]. pose proof (seen_css _ _ _ _ _ Hseen (s_random s)) as Hc.
    by rewrite Er in Hc. }
  destruct (submitter_takes job sub) eqn:Esub.
  { exists (Some (first, first.2, j_submitter job)), l.
    split; [|right; eexists; split; [done|rewrite (seen_sub _ _ _ _ _ Hseen); eauto]].
    destruct (queue_length _); cbn [find_server]; rewrite (bind_ok _ _ _ _ _ E);
      cbn [fmap option_fmap option_map]; rewrite deref_job_bind; cbn [s_heap_jobs set_s_random];
      rewrite (seen_job _ _ _ _ _ Hseen), deref_cs_bind; cbn [s_servers set_s_random];
      by rewrite (seen_sub _ _ _ _ _ Hseen), Esub. }
  apply (pick_server_none _ _ _ _ 0) in Epick.
  destruct (find_server_walk alg weight s first.2 first job sub css Hq Hfirst Hseen Epick Esub
    (queue_length (s_job_requests s)) first [] P (s_random s) EP HPl) as (l' & Ew).
  rewrite Er in Ew. rewrite Ew. unfold give_up_or_delay.
  rewrite deref_job_bind; cbn [s_heap_jobs set_s_random].
  rewrite (seen_job _ _ _ _ _ Hseen), deref_cs_bind; cbn [s_servers set_s_random].
  rewrite (seen_sub _ _ _ _ _ Hseen), bind_gets. cbn [s_css set_s_random].
  rewrite (bind_ok _ _ _ _ _ (seen_css _ _ _ _ _ Hseen l')).
  destruct (somebody_ever job sub css); eexists _, l'; (split; [reflexivity|]); [by left|right].
  eexists. split; [done|]. rewrite (seen_sub _ _ _ _ _ Hseen). eauto.
Qed.

(** What is left of the queue without its first request. *)
Lemma rest_present s g j l q :
  present s -> s_job_requests s = g :: q -> g_l g = j :: l ->
  present (set_s_job_requests (match l with [] => q | _ => enqueue_group_in (set_g_l l g) q end) s).
Proof.
  intros [Hq Hc Hs Hr] Es Eg. rewrite Es in Hq, Hs. split; [by eapply rest_ok|done|by intros _; apply Hs|].
  unfold requests_present in *. rewrite Es in Hr. apply Forall_cons in Hr as [Hg Hr].
  cbn [s_job_requests set_s_job_requests]. destruct l as [|x l]; [done|].
  destruct (enqueue_group_in_cases (set_g_l (x :: l) g) q) as (q1 & q2 & -> & -> & _).
  { by apply q_sorted, StronglySorted_inv in Hq as [? _]. }
  apply Forall_app in Hr as [H1 H2]. apply Forall_app. split; [exact H1|]. constructor; [|exact H2].
  rewrite Eg in Hg. by apply Forall_cons in Hg as [_ Hg].
Qed.

(** One turn of [empty_queue]. *)
Lemma empty_queue_present s :
  present s -> runs (empty_queue alg weight) s (fun _ s' => present s').
Proof.
  intros HP. pose proof (pr_queue _ HP) as Hq. unfold empty_queue.
  apply runs_bind. eapply runs_ok; [by apply get_first_spec|].
  destruct (s_job_requests s) as [|g q] eqn:Es; [by apply runs_ret|].
  pose proof (pr_requests _ HP) as Hr. unfold requests_present in Hr. rewrite Es in Hr.
  apply Forall_cons in Hr as [Hg _]. pose proof (q_nonempty _ Hq) as Hne.
  apply Forall_cons in Hne as [Hne _]. destruct (g_l g) as [|j js] eqn:Eg; [done|].
  assert (head (positions (g :: q)) = Some (g_ptr g, j)) as Hfirst by (cbn; by rewrite Eg).
  rewrite Hfirst. apply Forall_cons in Hg as [Hj _].
  apply runs_get, runs_assert; [apply negb_true_iff, bool_decide_eq_false, (pr_some _ HP); by rewrite Es|].
  destruct (find_server_present s (g_ptr g, j) (g_niceness g) HP) as (r & l & E & Hor);
    [by rewrite Es|exact Hj|].
  apply runs_bind. eapply runs_ok; [exact E|].
  assert (nobody_left s (set_s_random l s)) as HL by (split; eauto).
  destruct Hor as [->|(u & -> & Hu)]; [apply runs_ret; by eapply present_left|].
  apply (present_left _ _ HL) in HP. apply (job_present_left _ _ _ _ HL) in Hj.
  apply (nl_servers _ _ HL) in Hu. assert (s_job_requests (set_s_random l s) = g :: q) as Es1 by done.
  clear E HL Es. revert HP Hj Hu Es1. generalize (set_s_random l s). clear s. intros s HP Hj Hu Es.
  apply runs_bind. eapply runs_ok.
  { apply (remove_first_spec g j js q s Hq Es Eg). destruct Hj as (x & ? & ? & _). eauto. }
  pose proof (rest_present s g j js q HP Es Eg) as HP1. apply runs_bind.
  eapply runs_weaken; [|by eapply assign_stays]. cbn beta. intros [] s2 H2.
  apply runs_ret. by eapply present_left.
Qed.
End everybody.

(** ** Sample states

    [crowd]: the daemon [alpha], that compiles one job at a time, asks for five
    servers, and the daemon [beta], of another platform, for two. *)

#[local] Existing Instances store_compressors sample_channels sample_laws.

Definition beta_login : Msg :=
  Login (mkLoginMsg 10245 [("armv7l", "gcc")] 2 false true "beta" "armv7l" 0)%string.
Definition beta_request : Msg :=
  GetCS (mkGetCSMsg [("armv7l", "gcc")] "/src/d.c" Lang_C 2 "armv7l" 0 7 "" 0 0 1 3)%string.
Definition one_job : MsgChannel :=
  sample_channel 5 "10.0.0.5" [sample_login "alpha" 1; sample_request 5 3].
Definition two_jobs : MsgChannel := sample_channel 6 "10.0.0.6" [beta_login; beta_request].
Definition crowd : Scheduler :=
  run (accept_host 10 two_jobs) (run (accept_host 10 one_job) (initial 100 false)).

(** After one job of each: [alpha] is busy, and [beta] has a place left. *)
Definition blocked : Scheduler := run (empty_queue FASTEST 0) (run (empty_queue FASTEST 0) crowd).

Example blocked_requests : map g_l (s_job_requests blocked) = [[4; 6; 8; 10]; [15]]%positive.
Proof. vm_compute. reflexivity. Qed.

Lemma crowd_reachable : reachable "1.4" FASTEST 0 crowd.
Proof.
  eapply reachable_step; [eapply reachable_step; [apply (reachable_initial _ _ _ 100 false)|]|].
  - eapply (step_host _ _ _ _ one_job 10 tt); [|vm_compute; reflexivity].
    intros p cs. cbn. by rewrite lookup_empty.
  - eapply (step_host _ _ _ _ two_jobs 10 tt); [|vm_compute; reflexivity].
    vm_compute. intros p cs E. repeat (destruct p as [p|p|]; try discriminate E).
    injection E as <-. discriminate.
Qed.
Lemma queue_ok_crowd : queue_ok (s_job_requests crowd).
Proof. by destruct (reachable_sched_ok _ _ _ _ crowd_reachable) as [[Hq _] _ _]. Qed.
Lemma run_reachable s :
  reachable "1.4" FASTEST 0 s -> reachable "1.4" FASTEST 0 (run (empty_queue FASTEST 0) s).
Proof.
  intros Hr. unfold run. destruct (empty_queue FASTEST 0 s) as [[r s']|] eqn:E; [|done].
  eapply reachable_step; [exact Hr|by eapply step_queue].
Qed.
Lemma blocked_reachable : reachable "1.4" FASTEST 0 blocked.
Proof. apply run_reachable, run_reachable, crowd_reachable. Qed.
Lemma queue_ok_blocked : queue_ok (s_job_requests blocked).
Proof. by destruct (reachable_sched_ok _ _ _ _ blocked_reachable) as [[Hq _] _ _]. Qed.

(** One job, and a request of its submitter already in the queue. *)
Definition one_request : Scheduler :=
  set_s_heap_jobs {[4%positive := new_Job 2 1]}
    (set_s_job_requests [mkGroup 3 [2%positive] 1 0] (initial 100 false)).
Lemma queue_ok_one g j p n : queue_ok [mkGroup g [j] p n].
Proof. split; cbn; repeat constructor; try apply not_elem_of_nil. discriminate. Qed.

Lemma enqueue_keeps_order_witness :
  exists s', enqueue_job_request 4%positive one_request = Ok (tt, s') /\
    requests_of (1%positive, 0) (s_job_requests s') = [2; 4]%positive.
Proof.
  destruct (enqueue_keeps_order 4%positive one_request (new_Job 2 1)) as (s' & E1 & E2);
    [apply queue_ok_one|reflexivity|].
  exists s'. split; [exact E1|]. rewrite E2. reflexivity.
Defined.

Lemma group_live_check s q :
  forallb (fun g => forallb (fun j => match s_heap_jobs s !! j with
    | Some job => j_niceness job =? g_niceness g | None => false end) (g_l g)) q = true ->
  Forall (group_live s) q.
Proof.
  rewrite Forall_forall, forallb_forall. intros Hc g Hg. apply list_elem_of_In in Hg.
  specialize (Hc g Hg). rewrite forallb_forall in Hc. unfold group_live. rewrite Forall_forall.
  intros j Hj. apply list_elem_of_In in Hj. specialize (Hc j Hj).
  destruct (s_heap_jobs s !! j) as [job|]; [|done]. apply Z.eqb_eq in Hc. eauto.
Qed.

Definition crowd_groups : list JobRequestsGroup :=
  [mkGroup 3 [2; 4; 6; 8; 10] 1 3; mkGroup 14 [13; 15] 12 3]%positive.
Lemma crowd_requests : s_job_requests crowd = crowd_groups.
Proof. vm_compute. reflexivity. Qed.

Lemma requests_take_turns_witness :
  repeat_m 2 serve_first crowd =
    Ok ([2; 13]%positive, set_s_job_requests
      ([mkGroup 3 [4; 6; 8; 10] 1 3; mkGroup 14 [15] 12 3]%positive ++ []) crowd).
Proof.
  apply (requests_take_turns 3 crowd_groups [] crowd).
  - rewrite app_nil_r, <- crowd_requests. apply queue_ok_crowd.
  - rewrite app_nil_r. apply crowd_requests.
  - repeat constructor.
  - constructor.
  - apply group_live_check. vm_compute. reflexivity.
Defined.

Lemma find_server_ends_witness :
  exists r s', find_server FASTEST 0 2 2%positive (3%positive, 2%positive) busy = Ok (r, s').
Proof.
  destruct (find_server FASTEST 0 2 2%positive (3%positive, 2%positive) busy) as [[r s']|f] eqn:E; [eauto|].
  pose proof (find_server_ends FASTEST 0 "1.4" busy (3%positive, 2%positive) f busy_reachable
    ltac:(vm_compute; reflexivity) E) as ->.
  vm_compute in E. discriminate.
Defined.

Lemma empty_queue_serves_first_witness :
  exists s', empty_queue FASTEST 0 busy = Ok (true, s') /\
    (s_servers s' !! 1%positive = None \/ exists u, assigned_to 2%positive u s').
Proof.
  assert (match empty_queue FASTEST 0 busy with Ok (b, _) => b | Fault _ => false end = true) as Hb
    by (vm_compute; reflexivity).
  assert (queue_ok (s_job_requests busy)) as Hq
    by (by destruct (reachable_sched_ok _ _ _ _ busy_reachable) as [[Hq _] _ _]).
  assert (head (positions (s_job_requests busy)) = Some (3, 2)%positive) as Hh
    by (vm_compute; reflexivity).
  assert (j_submitter <$> s_heap_jobs busy !! 2%positive = Some 1%positive) as Hs
    by (vm_compute; reflexivity).
  revert Hb Hq Hh Hs. generalize busy as s. intros s Hb Hq Hh Hs.
  destruct (empty_queue FASTEST 0 s) as [[b s']|] eqn:E; [|done]. subst b.
  exists s'. split; [done|].
  destruct (empty_queue_serves_first FASTEST 0 s s' Hq E) as (first & job & E1 & E2 & E3).
  rewrite Hh in E1. injection E1 as <-. cbn [fst snd] in *. rewrite E2 in Hs. injection Hs as Hs.
  rewrite Hs in E3. destruct E3 as [E3|(u & k & E3 & _)]; eauto.
Defined.

(** Whether the hypotheses on the first request hold. *)
Definition first_blocks (s : Scheduler) : bool :=
  match head (positions (s_job_requests s)) with
  | Some first =>
      match s_heap_jobs s !! first.2 with
      | Some job =>
          match s_servers s !! j_submitter job, deref_all (s_css s) (set_s_random [] s) with
          | Some sub, Ok (css, _) =>
              match pick_server FASTEST 0 (any_stats s) 0 job sub css with
              | None => negb (submitter_takes job sub) && somebody_ever job sub css
              | Some _ => false
              end
          | _, _ => false
          end
      | None => false
      end
  | None => false
  end.

Lemma first_request_blocks_witness :
  exists l, empty_queue FASTEST 0 blocked = Ok (false, set_s_random l blocked).
Proof.
  assert (first_blocks blocked = true) as Hb by (vm_compute; reflexivity).
  assert (negb (bool_decide (s_css blocked = [])) = true) as Hcss by (vm_compute; reflexivity).
  pose proof queue_ok_blocked as Hq. revert Hb Hcss Hq. generalize blocked as s. intros s Hb Hcss Hq.
  unfold first_blocks in Hb. destruct (head _) as [first|] eqn:E1; [|done].
  destruct (s_heap_jobs s !! first.2) as [job|] eqn:E2; [|done].
  destruct (s_servers s !! j_submitter job) as [sub|] eqn:E3; [|done].
  destruct (deref_all_spec (s_css s) s) as [(css & Hc)|Hc]; rewrite (Hc []) in Hb; [|done].
  destruct (pick_server _ _ _ _ _ _ _) eqn:E4; [done|]. apply andb_true_iff in Hb as [Hb1 Hb2].
  apply (first_request_blocks FASTEST 0 s first job sub css Hq E1 ltac:(by split)).
  - intros E. by rewrite E in Hcss.
  - done.
  - by apply negb_true_iff in Hb1.
  - done.
Defined.
