(* ===== verification/MainFacts.v ===== *)
(** * The main loop of the scheduler keeps the invariants

    A round is a sequence of the steps of Reachable.v, its loops end, and so
    does the shutdown. Two ways in which a round goes wrong. *)

From Stdlib Require Import ZArith Lia Sorted.
From Stdlib Require Import Strings.Byte Strings.String.
From stdpp Require Import base tactics option list gmap sets strings.
From S2P Require Import Prelude MsgChannel CompileJob Msg MsgCodec Interface Transport Connection Discovery CompileServer SchedulingAlgo Scheduler ChannelImpl Handlers Dispatch SchedulerMain QueueFacts SchedulerFacts WellFormed Reachable Serving.

#[local] Open Scope Z_scope.

(** ** What the system promises *)

(** A new descriptor is not in use. *)
Definition fresh_fd (f : gset Z -> MsgChannel) : Prop := forall used, c_fd (f used) ∉ used.

Record round_ok (w : Round) : Prop := {
  ro_hosts : Forall fresh_fd (r_hosts w);
  ro_control : forall f, r_control w = Some f -> fresh_fd f;
  ro_arrivals : Forall (fun e => forall c, same_peer c (e.2 c)) (r_arrivals w)
}.

Lemma keeps_in_main {A} (I : Scheduler -> Prop) (m : sched A) :
  keeps I m -> keeps (fun s => I (mn_sched s)) (lift m).
Proof.
  intros Hm s a s' HI E. unfold lift in E. destruct (m (mn_sched s)) as [[a' s1]|] eqn:E1; [|done].
  injection E as <- <-. by eapply Hm.
Qed.
Lemma keeps_main (I : Scheduler -> Prop) (f : SchedulerMain -> SchedulerMain) :
  (forall s, mn_sched (f s) = mn_sched s) -> keeps (fun s => I (mn_sched s)) (modify f).
Proof. intros Hf. apply keeps_modify. intros s. by rewrite Hf. Qed.

Section reach.
Context `{ChannelLaws}.
Context (version : string) (alg : SchedulerAlgorithmName) (weight : Z).
Context (netname : list byte) (persistent_clients : bool).
Context (listen_fd text_fd broad_fd : Z) (msgs : nat).

#[local] Abbreviation reach := (reachable version alg weight).
#[local] Abbreviation open_fds := (open_fds listen_fd text_fd broad_fd).

Lemma keeps_step {A} (m : sched A) :
  (forall s a s', m s = Ok (a, s') -> step version alg weight s s') -> keeps reach m.
Proof. intros Hm s a s' Hs E. eapply reachable_step; [exact Hs|by eapply Hm]. Qed.

Lemma open_fds_servers s p cs : s_servers s !! p = Some cs -> c_fd (cs_channel cs) ∈ open_fds s.
Proof.
  intros E. unfold SchedulerMain.open_fds. apply elem_of_list_to_set, elem_of_app. right.
  apply elem_of_app. left. apply list_elem_of_fmap. exists (p, cs). split; [done|].
  by apply elem_of_map_to_list.
Qed.

Lemma fresh_not_used f s p cs :
  fresh_fd f -> s_servers s !! p = Some cs -> fd_of cs <> c_fd (f (open_fds s)).
Proof. intros Hf E Eq. apply (Hf (open_fds s)). rewrite <- Eq. by eapply open_fds_servers. Qed.

Lemma reach_accept_hosts l :
  Forall fresh_fd l -> keeps reach (accept_hosts listen_fd text_fd broad_fd msgs l).
Proof.
  induction 1 as [|f l Hf Hl IH]; cbn [accept_hosts]; [apply keeps_ret|].
  intros s a s' Hs E. rewrite bind_get in E. apply bind_inv in E as (u & s1 & E1 & E).
  eapply IH; [|exact E]. eapply reachable_step; [exact Hs|].
  eapply step_host; [|exact E1]. intros p cs. by apply fresh_not_used.
Qed.

Lemma reach_accept_controls o :
  (forall f, o = Some f -> fresh_fd f) ->
  keeps reach (accept_controls version listen_fd text_fd broad_fd msgs o).
Proof.
  intros Ho. destruct o as [f|]; cbn [accept_controls]; [|apply keeps_ret].
  intros s a s' Hs E. rewrite bind_get in E. eapply reachable_step; [exact Hs|].
  eapply step_control; [|exact E]. intros p cs. by apply fresh_not_used, Ho.
Qed.

Lemma reach_read fuel set active it :
  keeps reach (read_connections msgs fuel set active it).
Proof.
  revert active it. induction fuel as [|fuel IH]; intros active it; cbn [read_connections];
    (destruct (active <=? 0); [apply keeps_ret|]); destruct it as [[k q]|]; try apply keeps_ret.
  intros s a s' Hs E. rewrite bind_gets in E. apply bind_inv in E as (p & s1 & E1 & E).
  destruct (s_fd2cs s !! k) as [p'|] eqn:Ek; [|done]. injection E1 as <- <-.
  destruct (set k POLLIN); [|by eapply IH].
  apply bind_inv in E as (u & s1 & E1 & E). eapply IH; [|exact E].
  eapply reachable_step; [exact Hs|]. by eapply step_read.
Qed.

Lemma connectivity_spec a p s u s' :
  connectivity a p s = Ok (u, s') -> exists cs cs', s_servers s !! p = Some cs /\
    updateInConnectivity (s_now s) a cs = Ok cs' /\
    s' = set_s_servers (<[p := cs']> (s_servers s)) s.
Proof.
  unfold connectivity, now. rewrite bind_gets, deref_cs_bind. destruct (s_servers s !! p) as [cs|] eqn:E; [|done].
  destruct (updateInConnectivity _ _ _) as [cs'|] eqn:Eu; [|done].
  intros E2. apply update_cs_spec in E2 as (cs0 & E2 & ->). eauto 6.
Qed.
Lemma reach_connectivity a p : keeps reach (connectivity a p).
Proof.
  apply keeps_step. intros s u s' E. apply connectivity_spec in E as (cs & cs' & E & Eu & ->).
  by eapply step_tested.
Qed.

#[local] Hint Resolve reach_connectivity : icc.
Lemma keeps_look_cs p : keeps reach (deref_cs p).
Proof. unfold deref_cs. ks. Qed.
#[local] Hint Resolve keeps_look_cs : icc.
Lemma keeps_look_now : keeps reach now.
Proof. apply keeps_gets. Qed.
#[local] Hint Resolve keeps_look_now : icc.
Lemma keeps_look_all l : keeps reach (deref_all l).
Proof. induction l; cbn [deref_all]; ks. Qed.
#[local] Hint Resolve keeps_look_all : icc.

Lemma reach_finish_test error set active p : keeps reach (finish_test error set active p).
Proof. unfold finish_test. ks. Qed.
#[local] Hint Resolve reach_finish_test : icc.
Lemma reach_finish_tests error set active tests : keeps reach (finish_tests error set active tests).
Proof. revert active. induction tests as [|e l IH]; intros active; cbn [finish_tests]; ks. Qed.

Lemma reach_empty_queues fuel : keeps reach (empty_queues alg weight fuel).
Proof.
  induction fuel as [|fuel IH]; cbn [empty_queues]; [apply keeps_ret|].
  apply keeps_bind; [|intros []; [exact IH|apply keeps_ret]].
  apply keeps_step. intros s r s'. apply step_queue.
Qed.

Lemma reach_sleep n l :
  Forall (fun e : ptr * (MsgChannel -> MsgChannel) => forall c, same_peer c (e.2 c)) l ->
  keeps reach (modify (sleep n l)).
Proof.
  intros Hl. apply keeps_modify. intros s Hs. unfold sleep.
  assert (reach (set_s_now (s_now s + Z.of_nat n) s)) as Hs'
    by (eapply reachable_step; [exact Hs|apply step_time; lia]).
  revert Hs'. generalize (set_s_now (s_now s + Z.of_nat n) s). clear s Hs.
  induction Hl as [|e l He Hl IH]; intros s Hs; [done|]. cbn [fold_left]. apply IH.
  unfold arrive. destruct (s_servers s !! e.1) as [cs|] eqn:E; [|done].
  eapply reachable_step; [exact Hs|]. by apply step_channel.
Qed.

(** A round, piece by piece. *)
#[local] Abbreviation in_reach := (fun s => reach (mn_sched s)).

Lemma reach_announce : keeps in_reach (announce netname).
Proof. unfold announce. ks. Qed.
Lemma reach_broadcast r : keeps in_reach (broadcast netname persistent_clients r).
Proof.
  destruct r as [data from|again]; cbn [broadcast]; [|apply keeps_ret].
  apply keeps_bind; [|intros answer].
  - apply keeps_in_main, keeps_step. intros s a s'. apply step_broadcast.
  - apply keeps_bind; [|intros; apply keeps_ret]. destruct answer; [by apply keeps_main|apply keeps_ret].
Qed.

Lemma reach_after_poll w tests set active :
  round_ok w ->
  keeps in_reach (after_poll version netname persistent_clients listen_fd text_fd broad_fd msgs
    w tests set active).
Proof.
  intros [Hh Hc _]. unfold after_poll.
  repeat first [apply keeps_in_main | apply keeps_bind; [|intros ?] | apply keeps_if | apply keeps_ret];
    first [by apply reach_accept_hosts | by apply keeps_main | by apply reach_accept_controls
          | apply reach_broadcast | idtac].
  case_match; [apply keeps_ret|].
  apply keeps_bind; [apply keeps_in_main|intros ?].
  { unfold read_all. apply keeps_bind; [apply keeps_gets|intros ?]. apply reach_read. }
  apply keeps_bind; [apply keeps_in_main, reach_finish_tests|intros ?]. apply keeps_ret.
Qed.

Lemma reach_turn w :
  round_ok w ->
  keeps in_reach (turn version alg weight netname persistent_clients listen_fd text_fd broad_fd msgs w).
Proof.
  intros Hw. unfold turn.
  apply keeps_bind; [apply keeps_in_main, keeps_step; intros s a s' E; injection E as _ <-; apply step_random|intros _].
  apply keeps_bind; [apply keeps_in_main, keeps_step; intros s a s'; apply step_prune|intros timeout].
  apply keeps_bind; [intros s a s' Hs E; by injection E as _ <-|intros s].
  apply keeps_bind; [apply keeps_in_main, reach_empty_queues|intros ended].
  apply keeps_bind; [destruct ended; [apply keeps_ret|apply keeps_throw]|intros _].
  apply keeps_bind; [apply reach_announce|intros _].
  apply keeps_bind; [intros s0 a s' Hs E; by injection E as _ <-|intros s1].
  apply keeps_bind; [apply keeps_in_main, keeps_step; intros s0 a s'; apply step_scan|intros fds].
  apply keeps_bind; [apply keeps_in_main; unfold tests_in_progress; ks; apply keeps_look_all|intros tests].
  apply keeps_bind; [apply keeps_in_main, reach_sleep, (ro_arrivals w Hw)|intros _].
  destruct (r_poll w _ _); [apply keeps_ret..|]. by apply reach_after_poll.
Qed.

Lemma reach_rounds ws :
  Forall round_ok ws ->
  keeps in_reach (rounds version alg weight netname persistent_clients listen_fd text_fd broad_fd msgs ws).
Proof.
  induction 1 as [|w ws Hw _ IH]; cbn [rounds]; [apply keeps_ret|].
  apply keeps_bind; [by apply reach_turn|intros [code|]; [apply keeps_ret|exact IH]].
Qed.
End reach.

(** ** The queue is emptied in finitely many rounds *)

(** At most [n] requests are queued. *)
Definition few_requests (n : nat) (s : Scheduler) : Prop :=
  queue_ok (s_job_requests s) /\ (queue_length (s_job_requests s) <= n)%nat.

Lemma queue_length_jobs q : queue_length q = length (queue_jobs q).
Proof. unfold queue_length, queue_jobs. done. Qed.

#[export] Instance few_requests_weak n : SchedWeak (few_requests n).
Proof.
  assert (forall s s', s_job_requests s' = s_job_requests s -> few_requests n s -> few_requests n s') as Hsame.
  { unfold few_requests. by intros s s' ->. }
  split; [split; [split|..]|..]; intros; try (by eapply Hsame; [|eassumption]).
  - match goal with H : same_core _ _ |- _ => destruct H end. by eapply Hsame.
  - match goal with H : few_requests _ _ |- _ => destruct H as [Hq Hn] end.
    match goal with H : _ -> shrinks _ _ |- _ => specialize (H (q_nonempty _ Hq)); rename H into Hs end.
    split; cbn; [by eapply queue_ok_shrinks|]. apply shrinks_jobs, sublist_length in Hs.
    unfold queue_length, queue_jobs in *. lia.
Qed.

Lemma queue_jobs_enqueue g q : queue_jobs (enqueue_group_in g q) ≡ₚ g_l g ++ queue_jobs q.
Proof.
  induction q as [|x q IH]; cbn [enqueue_group_in]; [done|].
  destruct (_ <? _); [done|]. rewrite !queue_jobs_cons, IH. rewrite !app_assoc.
  by rewrite (Permutation_app_comm (g_l x)).
Qed.
Lemma erase_first_length j l : j ∈ l -> S (length (erase_first j l)) = length l.
Proof.
  induction l as [|x l IH]; [by intros ?%elem_of_nil|]. cbn [erase_first length].
  intros Hj. destruct (decide (x = j)) as [->|Hne]; [done|]. cbn. f_equal. apply IH.
  by apply elem_of_cons in Hj as [->|Hj].
Qed.
Lemma without_length p j g q :
  queue_ok q -> find_group p q = Some g -> j ∈ g_l g -> S (queue_length (without p j g q)) = queue_length q.
Proof.
  intros Hq Hf Hj. destruct (find_group_split p q g (q_ptrs _ Hq) Hf) as (q1 & q2 & -> & Eg & Ef).
  pose proof (erase_first_length j (g_l g) Hj) as El.
  unfold without, queue_length. fold queue_jobs. rewrite Ef. destruct (erase_first j (g_l g)) as [|x l].
  - change (S (length (queue_jobs (q1 ++ q2))) = length (queue_jobs (q1 ++ g :: q2))).
    rewrite !queue_jobs_app, queue_jobs_cons, !length_app. cbn in El. lia.
  - change (S (length (queue_jobs (enqueue_group_in (set_g_l (x :: l) g) (q1 ++ q2))))
            = length (queue_jobs (q1 ++ g :: q2))).
    rewrite queue_jobs_enqueue, !queue_jobs_app, queue_jobs_cons, !length_app. cbn [g_l set_g_l] in *. lia.
Qed.

Section ends.
Context `{ChannelLaws}.
Context (alg : SchedulerAlgorithmName) (weight : Z).

Lemma few_assign n j u : keeps (few_requests n) (assign j u).
Proof.
  unfold assign. ks; apply weak_handle_end.
Qed.

Lemma empty_queue_shortens s s' :
  queue_ok (s_job_requests s) -> empty_queue alg weight s = Ok (true, s') ->
  queue_ok (s_job_requests s') /\
  (queue_length (s_job_requests s') < queue_length (s_job_requests s))%nat.
Proof.
  intros Hq E. unfold empty_queue in E. rewrite (bind_ok _ _ _ _ _ (get_first_spec s Hq)) in E.
  destruct (head _) as [first|] eqn:Hfirst; [|done]. rewrite bind_get in E.
  apply bind_inv in E as (? & s1 & E1 & E). unfold assert in E1. destruct (negb _); [|done]. injection E1 as _ <-.
  apply bind_inv in E as (r & s1 & E1 & E). pose proof (find_server_spec alg weight s first Hq Hfirst) as Hf.
  rewrite E1 in Hf. destruct Hf as [[->|(u & ->)] (l & ->)]; [done|].
  apply bind_inv in E as (? & s2 & E2 & E). apply remove_spec in E2 as (g & Eg & Hin & ->).
  cbn [s_job_requests set_s_random fst snd] in *.
  apply bind_inv in E as (? & s3 & E3 & E). injection E as ->.
  pose proof (without_length _ _ _ _ Hq Eg Hin) as Hl.
  apply (few_assign (queue_length (without first.1 first.2 g (s_job_requests s)))) in E3 as [H1 H2].
  - split; [done|]. lia.
  - split; cbn; [|done]. by apply without_ok.
Qed.

(** The first request has to wait: neither a server nor its submitter takes it
    now, but some server could at another time. *)
Definition first_waits (s : Scheduler) : Prop :=
  exists first job sub css, head (positions (s_job_requests s)) = Some first /\
    job_seen s first.2 job sub css /\
    pick_server alg weight (any_stats s) 0 job sub css = None /\
    submitter_takes job sub = false /\ somebody_ever job sub css = true.

Lemma job_seen_random s l j job sub css :
  job_seen s j job sub css -> job_seen (set_s_random l s) j job sub css.
Proof. intros [E1 E2 E3]. by split. Qed.

Lemma find_server_waits s first s' :
  queue_ok (s_job_requests s) -> head (positions (s_job_requests s)) = Some first ->
  find_server alg weight (queue_length (s_job_requests s)) first.2 first s = Ok (None, s') ->
  first_waits s'.
Proof.
  intros Hq Hfirst E. destruct (positions_first first s Hfirst) as (P & EP & HP).
  assert (set_s_random (s_random s) s = s) as Er by (by destruct s).
  destruct (job_seen_cases alg weight s first.2) as [(job & sub & css & Hseen)|Hlost].
  2: { specialize (Hlost (s_random s)). rewrite Er in Hlost.
       destruct (queue_length _); cbn [find_server] in E; unfold mbind, M_bind in E; by rewrite Hlost in E. }
  destruct (pick_seen alg weight s first.2 job sub css (s_random s) Hseen) as (r & l & Ep).
  rewrite Er in Ep.
  destruct (pick_server alg weight (any_stats s) r job sub css) as [[p cs]|] eqn:Epick;
    [destruct (queue_length _); cbn [find_server] in E; by rewrite (bind_ok _ _ _ _ _ Ep) in E|].
  apply (pick_server_none _ _ _ _ 0) in Epick.
  destruct (submitter_takes job sub) eqn:Esub.
  { destruct (queue_length _); cbn [find_server] in E; rewrite (bind_ok _ _ _ _ _ Ep) in E;
      cbn [fmap option_fmap option_map] in E; rewrite deref_job_bind in E; cbn [s_heap_jobs set_s_random] in E;
      rewrite (seen_job _ _ _ _ _ Hseen), deref_cs_bind in E; cbn [s_servers set_s_random] in E;
      by rewrite (seen_sub _ _ _ _ _ Hseen), Esub in E. }
  destruct (find_server_walk alg weight s first.2 first job sub css Hq Hfirst Hseen Epick Esub
    (queue_length (s_job_requests s)) first [] P (s_random s) EP HP) as (l' & Ew).
  rewrite Er, E in Ew. symmetry in Ew. unfold give_up_or_delay in Ew.
  rewrite deref_job_bind in Ew. cbn [s_heap_jobs set_s_random] in Ew.
  rewrite (seen_job _ _ _ _ _ Hseen), deref_cs_bind in Ew. cbn [s_servers set_s_random] in Ew.
  rewrite (seen_sub _ _ _ _ _ Hseen), bind_gets in Ew. cbn [s_css set_s_random] in Ew.
  rewrite (bind_ok _ _ _ _ _ (seen_css _ _ _ _ _ Hseen l')) in Ew.
  destruct (somebody_ever job sub css) eqn:Eever; [|done]. injection Ew as <-.
  exists first, job, sub, css. split; [done|]. split; [by apply job_seen_random|]. done.
Qed.

Lemma empty_queue_stops s s' :
  queue_ok (s_job_requests s) -> empty_queue alg weight s = Ok (false, s') ->
  s_job_requests s' = [] \/ first_waits s'.
Proof.
  intros Hq E. unfold empty_queue in E. rewrite (bind_ok _ _ _ _ _ (get_first_spec s Hq)) in E.
  destruct (head _) as [first|] eqn:Hfirst.
  - right. rewrite bind_get in E. apply bind_inv in E as (? & s1 & E1 & E).
    unfold assert in E1. destruct (negb _); [|done]. injection E1 as _ <-.
    apply bind_inv in E as ([[[pos j] u]|] & s1 & E1 & E).
    + apply bind_inv in E as (? & s2 & _ & E). by apply bind_inv in E as (? & s3 & _ & E).
    + injection E as <-. by eapply find_server_waits.
  - left. injection E as <-. pose proof (q_nonempty _ Hq) as Hne.
    destruct (s_job_requests s) as [|g q]; [done|]. apply Forall_cons in Hne as [Hne _].
    cbn in Hfirst. by destruct (g_l g).
Qed.

(** The loop around [empty_queue] ends, with one round more than there are
    requests, and leaves nothing that could be assigned in turn. *)
Lemma empty_queues_ends fuel s b s' :
  queue_ok (s_job_requests s) -> (queue_length (s_job_requests s) < fuel)%nat ->
  empty_queues alg weight fuel s = Ok (b, s') ->
  b = true /\ (s_job_requests s' = [] \/ first_waits s').
Proof.
  revert s. induction fuel as [|fuel IH]; intros s Hq Hl E; [lia|]. cbn [empty_queues] in E.
  apply bind_inv in E as (more & s1 & E1 & E). destruct more.
  - apply empty_queue_shortens in E1 as [Hq1 Hl1]; [|done]. eapply IH; [exact Hq1|lia|exact E].
  - injection E as <- <-. split; [done|]. by eapply empty_queue_stops.
Qed.

Lemma empty_queues_return fuel s :
  (forall m flags c, exists c', ch_send m flags c = Ok (true, c')) ->
  present s -> (queue_length (s_job_requests s) < fuel)%nat ->
  exists s', empty_queues alg weight fuel s = Ok (true, s').
Proof.
  intros Hsend. revert s. induction fuel as [|fuel IH]; intros s HP Hl; [lia|]. cbn [empty_queues].
  destruct (empty_queue_present alg weight Hsend s HP) as (more & s1 & E & HP1).
  rewrite (bind_ok _ _ _ _ _ E). destruct more; [|by eexists].
  apply empty_queue_shortens in E as [_ Hl1]; [|apply HP]. apply IH; [done|lia].
Qed.
End ends.

(** ** The shutdown ends *)

(** A list of connections from which entries are only taken. *)
Definition css_left (l : list ptr) (s : Scheduler) : Prop := sublist (s_css s) l.
Definition monitors_left (l : list ptr) (s : Scheduler) : Prop := sublist (s_monitors s) l.

Lemma sublist_remove p l l' : sublist l l' -> sublist (remove_ptr p l) l'.
Proof. intros Hs. etrans; [apply sublist_filter|exact Hs]. Qed.
Lemma sublist_shorter (p : ptr) (l l' : list ptr) :
  sublist l l' -> p ∈ l' -> p ∉ l -> (length l < length l')%nat.
Proof.
  intros Hs Hp Hn. pose proof (sublist_length _ _ Hs). destruct (decide (length l = length l')) as [E|]; [|lia].
  exfalso. apply Hn. enough (l = l') as -> by done. clear -Hs E.
  induction Hs as [|x l l' Hs IH|x l l' Hs IH]; cbn in E; [done|f_equal; auto|].
  pose proof (sublist_length _ _ Hs). lia.
Qed.

#[export] Instance css_left_weak l : SchedWeak (css_left l).
Proof.
  split; [split; [split|..]|..]; intros; try assumption.
  - match goal with H : same_core _ _ |- _ => destruct H as [? ? ? ? Ec] end. unfold css_left. by rewrite Ec.
  - by apply sublist_remove.
Qed.
#[export] Instance monitors_left_weak l : SchedWeak (monitors_left l).
Proof.
  split; [split; [split|..]|..]; intros; try assumption.
  - match goal with H : same_core _ _ |- _ => destruct H as [? ? ? ? ? Em] end. unfold monitors_left. by rewrite Em.
  - by apply sublist_remove.
Qed.

Section down.
Context `{ChannelLaws}.

Lemma end_all_enough (I : Scheduler -> Prop) (l : Scheduler -> list ptr) n s :
  (forall s p r s', I s -> p ∈ l s -> handle_end p s = Ok (r, s') ->
     I s' /\ (length (l s') < length (l s))%nat) ->
  I s -> (length (l s) <= n)%nat -> end_all n l s = end_all (length (l s)) l s.
Proof.
  intros Hend. revert s. induction n as [n IH] using lt_wf_ind. intros s Hs Hn.
  destruct n as [|n]; [by rewrite (Nat.le_antisymm _ _ Hn (Nat.le_0_l _))|].
  destruct (l s) as [|p ps] eqn:El; cbn [length end_all]; rewrite !bind_gets, El; [done|].
  unfold mbind, M_bind. destruct (handle_end p s) as [[r s1]|f] eqn:E; [|done].
  destruct (Hend s p r s1) as [Hs1 Hl]; [done|rewrite El; by left|done|].
  rewrite El in Hl. cbn [length] in Hl, Hn.
  rewrite (IH n ltac:(lia) s1 Hs1 ltac:(lia)).
  by rewrite (IH (length ps) ltac:(lia) s1 Hs1 ltac:(lia)).
Qed.

Lemma handle_end_lists p s r s' :
  lists_ok None s -> handle_end p s = Ok (r, s') ->
  lists_ok None s' /\ (p ∉ s_css s') /\ (p ∉ s_monitors s').
Proof.
  intros HI E. pose proof (handle_end_gone _ _ _ _ E) as Hg.
  pose proof (lists_handle_end None p _ _ _ HI E) as HI'. split; [done|].
  split; intros Hin; [apply (lo_css _ _ HI') in Hin|apply (lo_monitors _ _ HI') in Hin];
    destruct Hin as (cs & Ecs & _); congruence.
Qed.

(** The shutdown ends: as many rounds as there are servers, then monitors. *)
Lemma shutdown_fuel s n :
  lists_ok None s ->
  ((length (s_css s) <= n)%nat -> end_all n s_css s = end_all (length (s_css s)) s_css s) /\
  ((length (s_monitors s) <= n)%nat -> end_all n s_monitors s = end_all (length (s_monitors s)) s_monitors s).
Proof.
  intros HI. split; apply (end_all_enough (lists_ok None)); try done; intros s0 p r s1 HI0 Hp E;
    destruct (handle_end_lists _ _ _ _ HI0 E) as (HI1 & H1 & H2); (split; [done|]).
  - eapply sublist_shorter; [|exact Hp|exact H1]. eapply (weak_handle_end (I := css_left _)); [|exact E].
    by unfold css_left.
  - eapply sublist_shorter; [|exact Hp|exact H2]. eapply (weak_handle_end (I := monitors_left _)); [|exact E].
    by unfold monitors_left.
Qed.

Lemma end_all_empties n l s u s' : end_all n l s = Ok (u, s') -> l s' = [].
Proof.
  revert s. induction n as [|n IH]; intros s E; cbn [end_all] in E; rewrite bind_gets in E;
    destruct (l s) as [|p ps] eqn:El; try done; try (by injection E as _ <-).
  apply bind_inv in E as (? & s1 & _ & E). by eapply IH.
Qed.

(** Nobody is left connected that could be told. *)
Lemma css_left_end_all n l X : keeps (css_left X) (end_all n l).
Proof.
  induction n as [|n IH]; cbn [end_all]; ks. apply weak_handle_end.
Qed.
Lemma shutdown_empties s u s' : shutdown s = Ok (u, s') -> s_css s' = [] /\ s_monitors s' = [].
Proof.
  unfold shutdown. rewrite bind_gets. intros E. apply bind_inv in E as (u1 & s1 & E1 & E).
  apply end_all_empties in E1. rewrite bind_gets in E. split; [|by eapply end_all_empties].
  apply (sublist_nil_r (s_css s')). apply (css_left_end_all _ _ [] _ _ _ ltac:(unfold css_left; by rewrite E1) E).
Qed.
End down.

(** ** Theorems *)

Lemma connectivity_ok a p s cs cs' :
  s_servers s !! p = Some cs -> updateInConnectivity (s_now s) a cs = Ok cs' ->
  connectivity a p s = Ok (tt, set_s_servers (<[p := cs']> (s_servers s)) s).
Proof.
  intros Ecs Eu. unfold connectivity, now. rewrite bind_gets, deref_cs_bind, Ecs, Eu.
  unfold update_cs. by rewrite deref_cs_bind, Ecs.
Qed.

(** The end of a test under way. *)
Lemma finish_test_eq error set active p s cs :
  p ∈ s_css s -> s_servers s !! p = Some cs -> getConnectionInProgress cs = true ->
  finish_test error set active p s =
    (let fd := cs_inFd cs in
     let hit := set fd (Z.lor POLLIN POLLOUT) in
     let asked := (0 <? active) && hit in
     if asked && isConnected (s_now s) (error fd 0%nat) cs then
       _ ← connectivity true p; mret (active - 1)
     else if ((active =? 0) || hit)
             && negb (isConnected (s_now s) (error fd (if asked then 1 else 0)%nat) cs) then
       _ ← connectivity false p; mret active
     else mret active) s.
Proof.
  intros Hcss Ecs Hp. unfold finish_test, now. rewrite bind_gets, bool_decide_true by done. cbn [negb].
  rewrite deref_cs_bind, Ecs, Hp. cbn [negb]. by rewrite bind_gets.
Qed.

Section theorems.
Context `{ChannelLaws}.
Context (version : string) (alg : SchedulerAlgorithmName) (weight : Z).
Context (netname : list byte) (persistent_clients : bool).
Context (listen_fd text_fd broad_fd : Z) (msgs : nat).

(** C21: the main loop of the scheduler implements the steps. Whatever the
    system answers in whatever number of rounds (new descriptors are not in use,
    and a connection stays that of its peer), the state the loop is in is
    reachable by the step relation of Reachable.v, so that all invariants of
    reachable states hold in the real loop. *)
Theorem main_loop_reachable t slow sent ws r s :
  Forall round_ok ws ->
  rounds version alg weight netname persistent_clients listen_fd text_fd broad_fd msgs ws
    (started t slow sent) = Ok (r, s) ->
  reachable version alg weight (mn_sched s).
Proof.
  intros Hws. apply (reach_rounds version alg weight netname persistent_clients
    listen_fd text_fd broad_fd msgs ws Hws). apply reachable_initial.
Qed.

(** C22: the queue is served out. In a reachable state with a server connected,
    the jobs of whose queued requests are alive (with their submitters and the
    jobs of the same question), and when sends get through, the loop around
    [empty_queue] ends, without a fault, within one round more than there are
    requests. Whenever it ends, also when sends fail, the queue is empty or its
    first request is one that no server takes now, nor its submitter, but that
    some server could take at another time. *)
Theorem queue_served_out s :
  reachable version alg weight s ->
  let round := empty_queues alg weight (S (queue_length (s_job_requests s))) s in
  ((forall m flags c, exists c', ch_send m flags c = Ok (true, c')) ->
   requests_present s -> (s_job_requests s <> [] -> s_css s <> []) ->
   exists s', round = Ok (true, s')) /\
  (forall b s', round = Ok (b, s') ->
   b = true /\ (s_job_requests s' = [] \/ first_waits alg weight s')).
Proof.
  intros [[Hq _] _ HL]%reachable_sched_ok. cbv zeta. split.
  - intros Hsend Hr Hs. apply empty_queues_return; [done| |lia]. split; [done| |done|done].
    apply Forall_forall. intros p (cs & E & _)%(lo_css _ _ HL). by exists cs.
  - intros b s' E. eapply empty_queues_ends; [exact Hq| |exact E]. lia.
Qed.

(** C23: a refused connection test counts as a success. [getsockopt(SO_ERROR)]
    gives the error of a socket once and clears it, and the two conditions at
    the end of a test both ask for it. When the connection to a server was
    refused, the first condition takes the error and the second one finds none,
    so the round records nothing; in the next round, still before the time-out,
    no error is left, and the server is taken for one that accepts connections. *)
Theorem refused_test_accepted s p cs n e error error' set set' active active' :
  p ∈ s_css s -> s_servers s !! p = Some cs -> cs_inFd cs <> -1 ->
  s_now s + Z.of_nat n < cs_lastConnStartTime cs + 5 ->
  0 < active -> set (cs_inFd cs) (Z.lor POLLIN POLLOUT) = true ->
  0 < active' -> set' (cs_inFd cs) (Z.lor POLLIN POLLOUT) = true ->
  error (cs_inFd cs) 0%nat = Some e -> e <> 0 ->
  error (cs_inFd cs) 1%nat = Some 0 -> error' (cs_inFd cs) 0%nat = Some 0 ->
  finish_test error set active p s = Ok (active, s) /\
  exists s' cs', finish_test error' set' active' p (sleep n [] s) = Ok (active' - 1, s') /\
    s_servers s' !! p = Some cs' /\
    cs_acceptingInConnection cs' = true /\ getConnectionInProgress cs' = false.
Proof.
  intros Hcss Ecs Hfd Ht Ha Hset Ha' Hset' E0 He E1 E0'.
  assert (getConnectionInProgress cs = true) as Hp by (apply negb_true_iff; by apply Z.eqb_neq).
  assert (forall m, (m <= n)%nat -> (getConnectionTimeout (s_now s + Z.of_nat m) cs =? 0) = false) as Hto.
  { intros m Hm. unfold getConnectionTimeout. apply Z.eqb_neq. destruct (_ <? 5) eqn:El; boolify; lia. }
  assert (isConnected (s_now s) (Some e) cs = false) as C1.
  { unfold isConnected. destruct (_ =? 0); [done|]. apply bool_decide_eq_false. congruence. }
  assert (isConnected (s_now s) (Some 0) cs = true) as C2.
  { replace (s_now s) with (s_now s + Z.of_nat 0) by lia. unfold isConnected.
    rewrite (Hto 0%nat ltac:(lia)). by apply bool_decide_eq_true. }
  assert (isConnected (s_now s + Z.of_nat n) (Some 0) cs = true) as C3.
  { unfold isConnected. rewrite (Hto n ltac:(lia)). by apply bool_decide_eq_true. }
  split; rewrite (finish_test_eq _ _ _ _ _ cs) by done; cbv zeta.
  - rewrite (proj2 (Z.ltb_lt _ _) Ha), Hset. cbn [andb]. rewrite E0, C1, E1, C2. cbn.
    by rewrite andb_false_r.
  - unfold sleep. cbn [fold_left s_now set_s_now]. rewrite (proj2 (Z.ltb_lt _ _) Ha'), Hset'. cbn [andb].
    rewrite E0', C3. rewrite (bind_ok _ _ _ _ _ (connectivity_ok true p (set_s_now (s_now s + Z.of_nat n) s) cs _ Ecs eq_refl)).
    eexists _, _. split; [reflexivity|]. cbn. rewrite lookup_insert, decide_True by done.
    split; [reflexivity|]. by destruct (cs_acceptingInConnection cs) eqn:Eacc.
Qed.

(** The loop over the connections is broken by a connection that ends the
    next one. The iterator is advanced before the messages of a connection are
    handled; when a handler ends the connection it stands on (the command
    [removecs], or the login of a daemon that was connected before), the entry
    is erased, and the loop goes on from it. *)
Theorem erased_entry_faults s s1 k p next fuel set active :
  s_fd2cs s !! k = Some p -> next_key (Some k) (s_fd2cs s) = Some next ->
  set k POLLIN = true -> 1 < active ->
  drain msgs p s = Ok (tt, s1) -> s_fd2cs s1 !! next.1 = None ->
  read_connections msgs (S (S fuel)) set active (Some (k, p)) s = Fault UseAfterFree.
Proof.
  intros Ep En Hset Ha Ed Hnone. remember (S fuel) as f eqn:Ef. cbn [read_connections].
  rewrite (proj2 (Z.leb_gt _ _)) by lia. rewrite bind_gets, (bind_need _ _ p), Hset by done.
  rewrite (bind_ok _ _ _ _ _ Ed), En, Ef. cbn [read_connections].
  rewrite (proj2 (Z.leb_gt _ _)) by lia. destruct next as [k' q]. cbn [fst] in Hnone.
  by rewrite bind_gets, Hnone.
Qed.
End theorems.

(** ** Samples

    A scheduler that listens on the descriptors 3, 4 and 10. The daemon [beta]
    connects, and gets the descriptor 6; later a control connection gets 5. *)

#[local] Existing Instances store_compressors sample_channels sample_laws.

(** The descriptor the system chooses: [n] where it is free. *)
Definition with_fd (n : Z) (c : MsgChannel) (used : gset Z) : MsgChannel :=
  set_fd (if decide (n ∈ used) then fresh used else n) c.
Lemma with_fd_fresh n c : fresh_fd (with_fd n c).
Proof. intros used. unfold with_fd. cbn. destruct (decide _); [apply is_fresh|done]. Qed.

Definition ready_in (l : list Z) (fd : Z) : Z := if decide (fd ∈ l) then POLLIN else 0.
Definition pending_test (p : ptr) : Z * connect_result * option Z :=
  (20 + Zpos p, ConnectPending, None).
Definition a_round (ready : list Z) : Round :=
  mkRound [] pending_test (fun _ _ => Poll_ready (ready_in ready)) 5 [] [] None (Not_received true)
    (fun _ _ => Some 0).
Definition set_r_hosts (l : list (gset Z -> MsgChannel)) (w : Round) : Round :=
  mkRound (r_random w) (r_test w) (r_poll w) (r_elapsed w) (r_arrivals w) l (r_control w)
    (r_datagram w) (r_error w).
Definition set_r_control (f : gset Z -> MsgChannel) (w : Round) : Round :=
  mkRound (r_random w) (r_test w) (r_poll w) (r_elapsed w) (r_arrivals w) (r_hosts w) (Some f)
    (r_datagram w) (r_error w).
Definition set_r_arrivals (l : list (ptr * (MsgChannel -> MsgChannel))) (w : Round) : Round :=
  mkRound (r_random w) (r_test w) (r_poll w) (r_elapsed w) l (r_hosts w) (r_control w)
    (r_datagram w) (r_error w).

(** A line typed on a control connection. *)
Definition typed_line (text : string) (c : MsgChannel) : MsgChannel :=
  set_io (set_io_reads [ReadData (bytes_of text ++ [x0a])] (c_io c)) c.
Definition a_terminal : MsgChannel :=
  mkMsgChannel 0 45 45 "10.0.0.9" 0 [] 128 0 0 [] 128 0 NEED_LEN 0 false true [] false
    (mkIo [] [] [] EAGAIN [] false).

Definition beta_connects : Round := set_r_hosts [with_fd 6 two_jobs] (a_round [3]).
Definition terminal_connects : Round := set_r_control (with_fd 5 a_terminal) (a_round [4]).
Definition sample_main (ws : list Round) : res (Z * SchedulerMain) :=
  main "1.4" FASTEST 0 (bytes_of "ICECREAM") false 3 4 10 10 100 false ws.
Definition sample_rounds (ws : list Round) : res (option Z * SchedulerMain) :=
  rounds "1.4" FASTEST 0 (bytes_of "ICECREAM") false 3 4 10 10 ws (started 100 false []).

Definition state_of (r : res (option Z * SchedulerMain)) : Scheduler :=
  match r with Ok (_, s) => mn_sched s | Fault _ => initial 0 false end.
Definition two_connections : list Round := [beta_connects; a_round []; terminal_connects].
(** One daemon, and a terminal on which [removecs beta] was typed. *)
Definition command_typed : Scheduler :=
  sleep 0 [(6%positive, typed_line "removecs beta")] (state_of (sample_rounds two_connections)).

Lemma a_round_ok l : round_ok (a_round l).
Proof. split; [constructor|discriminate|constructor]. Qed.
Lemma r_hosts_ok l w : Forall fresh_fd l -> round_ok w -> round_ok (set_r_hosts l w).
Proof. intros Hl [_ Hc Ha]. by split. Qed.
Lemma r_control_ok f w : fresh_fd f -> round_ok w -> round_ok (set_r_control f w).
Proof. intros Hf [Hh _ Ha]. split; [exact Hh| |exact Ha]. by intros g [= <-]. Qed.
Lemma two_connections_ok : Forall round_ok two_connections.
Proof.
  constructor; [|constructor; [|constructor; [|constructor]]].
  - apply r_hosts_ok; [|apply a_round_ok]. constructor; [apply with_fd_fresh|constructor].
  - apply a_round_ok.
  - apply r_control_ok; [apply with_fd_fresh|apply a_round_ok].
Qed.

(** Typed while both connections are ready, the command ends the program. *)
Example removecs_ends_the_scheduler :
  sample_main (two_connections
    ++ [set_r_arrivals [(6%positive, typed_line "removecs beta")] (a_round [5; 6])])
  = Fault UseAfterFree.
Proof. vm_compute. reflexivity. Qed.

Lemma main_loop_reachable_witness :
  reachable "1.4" FASTEST 0 (state_of (sample_rounds two_connections)).
Proof.
  destruct (sample_rounds two_connections) as [[r s]|f] eqn:E.
  - exact (main_loop_reachable "1.4" FASTEST 0 (bytes_of "ICECREAM") false 3 4 10 10 100 false []
      two_connections r s two_connections_ok E).
  - exfalso. revert E. vm_compute. discriminate.
Defined.

(** [crowd] where every send gets through. *)
Section get_through.
#[local] Instance open_channels : Channels := {|
  ch_send := fun _ _ c => Ok (true, c);
  ch_get := @ch_get sample_channels;
  ch_read := @ch_read sample_channels
|}.
#[local] Instance open_laws : ChannelLaws.
Proof.
  split; [by intros m flags c b c' [= <- <-]|..].
  - exact (@ch_get_peer sample_channels sample_laws).
  - exact (@ch_read_peer sample_channels sample_laws).
Qed.

Definition served_crowd : Scheduler :=
  run (accept_host 10 two_jobs) (run (accept_host 10 one_job) (initial 100 false)).
Lemma served_crowd_reachable : reachable "1.4" FASTEST 0 served_crowd.
Proof.
  eapply reachable_step; [eapply reachable_step; [apply (reachable_initial _ _ _ 100 false)|]|].
  - eapply (step_host _ _ _ _ one_job 10 tt); [|vm_compute; reflexivity].
    intros p cs. cbn. by rewrite lookup_empty.
  - eapply (step_host _ _ _ _ two_jobs 10 tt); [|vm_compute; reflexivity].
    vm_compute. intros p cs E. repeat (destruct p as [p|p|]; try discriminate E).
    injection E as <-. discriminate.
Qed.
Lemma served_crowd_present : requests_present served_crowd.
Proof. apply requests_presentb_ok. vm_compute. reflexivity. Qed.

Lemma queue_served_out_witness :
  queue_length (s_job_requests served_crowd) = 7%nat /\
  exists s', empty_queues FASTEST 0 8 served_crowd = Ok (true, s') /\
    (s_job_requests s' = [] \/ first_waits FASTEST 0 s').
Proof.
  assert (queue_length (s_job_requests served_crowd) = 7%nat) as Hl by (vm_compute; reflexivity).
  assert (s_job_requests served_crowd <> [] -> s_css served_crowd <> []) as Hs
    by (intros _; vm_compute; discriminate).
  pose proof served_crowd_reachable as Hr. pose proof served_crowd_present as Hp.
  revert Hl Hs Hr Hp. generalize served_crowd as s. intros s Hl Hs Hr Hp. split; [exact Hl|].
  destruct (queue_served_out "1.4" FASTEST 0 s Hr) as [Hret Hend]. rewrite Hl in Hret, Hend.
  destruct (Hret (fun _ _ c => ex_intro _ c eq_refl) Hp Hs) as [s' E].
  exists s'. split; [exact E|]. by apply (Hend true s').
Defined.
End get_through.

(** A server whose test has been under way for two seconds. *)
Definition tested : CompileServer :=
  set_cs_lastConnStartTime 98 (set_cs_inFd 21 (set_cs_acceptingInConnection false (new_CompileServer two_jobs))).
Definition testing : Scheduler :=
  set_s_css [1%positive] (set_s_servers {[1%positive := tested]} (initial 100 false)).

Lemma refused_test_accepted_witness :
  finish_test (fun _ n => Some (match n with O => 111 | _ => 0 end)) (fun _ _ => true) 1 1%positive testing
    = Ok (1, testing) /\
  exists s', finish_test (fun _ _ => Some 0) (fun _ _ => true) 1 1%positive (sleep 1 [] testing) = Ok (0, s').
Proof.
  assert (1%positive ∈ s_css testing) as Hcss by (by apply list_elem_of_singleton).
  assert (s_servers testing !! 1%positive = Some tested) as Es by apply lookup_singleton_eq.
  assert (cs_inFd tested <> -1) as Hfd by (vm_compute; discriminate).
  assert (s_now testing + Z.of_nat 1 < cs_lastConnStartTime tested + 5) as Ht by (vm_compute; reflexivity).
  revert Hcss Es Hfd Ht. generalize testing as s, tested as cs. intros s cs Hcss Es Hfd Ht.
  destruct (refused_test_accepted s 1%positive cs 1 111
    (fun _ n => Some (match n with O => 111 | _ => 0 end)) (fun _ _ => Some 0)
    (fun _ _ => true) (fun _ _ => true) 1 1 Hcss Es Hfd Ht Z.lt_0_1 eq_refl Z.lt_0_1 eq_refl eq_refl
    ltac:(discriminate) eq_refl eq_refl) as [H1 (s' & cs' & H2 & _)].
  split; [exact H1|]. exists s'. exact H2.
Defined.

Lemma erased_entry_faults_witness :
  exists p, s_fd2cs command_typed !! 5 = Some p /\
    read_connections 10 2 (fun _ _ => true) 2 (Some (5, p)) command_typed = Fault UseAfterFree.
Proof.
  exists 6%positive. split; [vm_compute; reflexivity|].
  assert (match drain 10 6%positive command_typed with
          | Ok (_, s1) => bool_decide (s_fd2cs s1 !! 6 = None) | Fault _ => false end = true) as Hd
    by (vm_compute; reflexivity).
  assert (s_fd2cs command_typed !! 5 = Some 6%positive) as Hp by (vm_compute; reflexivity).
  assert (next_key (Some 5) (s_fd2cs command_typed) = Some (6, 1%positive)) as Hn by (vm_compute; reflexivity).
  revert Hd Hp Hn. generalize command_typed as s. intros s Hd Hp Hn.
  destruct (drain 10 6%positive s) as [[[] s1]|] eqn:E; [|done]. apply bool_decide_eq_true in Hd.
  exact (erased_entry_faults 10 s s1 5 6%positive (6, 1%positive) 0 (fun _ _ => true) 2
    Hp Hn eq_refl eq_refl E Hd).
Defined.
