(* ===== verification/RoundRobin.v ===== *)
(** * The queue of job requests as turns

    An abstract queue: for each niceness the submitters in the order of their
    turns, each with its requests in the order they came. The queue of
    Scheduler.v, a single list of groups, implements it. *)

From Stdlib Require Import ZArith Lia Sorted.
From Stdlib Require Import Strings.Byte Strings.String.
From stdpp Require Import base tactics option list gmap strings.
From S2P Require Import Prelude MsgChannel CompileJob Msg MsgCodec Interface Transport Connection CompileServer SchedulingAlgo Scheduler ChannelImpl Handlers Dispatch QueueFacts SchedulerFacts WellFormed Reachable Serving.

#[local] Open Scope Z_scope.

(** ** The specification *)

(** Submitters in the order of their turns, each with its requests. *)
Abbreviation turns := (list (ptr * list ptr)).
Abbreviation Turns := (Z -> turns).

(** A request goes behind the others of its submitter; a new submitter has the
    last turn. *)
Fixpoint add (sub j : ptr) (t : turns) : turns :=
  match t with
  | [] => [(sub, [j])]
  | (x, l) :: t => if decide (x = sub) then (x, l ++ [j]) :: t else (x, l) :: add sub j t
  end.
(** A submitter that has requests left takes the last turn. *)
Definition again (sub : ptr) (l : list ptr) : turns :=
  match l with [] => [] | _ => [(sub, l)] end.

Inductive op : Type :=
| Submit (j : ptr)
| Serve (j : ptr).

(** [info] is the submitter and the niceness of a job. *)
Inductive spec_step (info : ptr -> option (ptr * Z)) (t : Turns) : op -> Turns -> Prop :=
  | spec_submit j sub n t' :
      info j = Some (sub, n) -> (forall m x, x ∈ t m -> j ∉ x.2) ->
      (forall m, t' m = if m =? n then add sub j (t m) else t m) ->
      spec_step info t (Submit j) t'
  | spec_serve n sub j l rest t' :
      t n = (sub, j :: l) :: rest -> (forall m, m < n -> t m = []) ->
      (forall m, t' m = if m =? n then rest ++ again sub l else t m) ->
      spec_step info t (Serve j) t'.

Inductive spec_trace (info : ptr -> option (ptr * Z)) : Turns -> list op -> Turns -> Prop :=
  | trace_nil t t' : (forall n, t' n = t n) -> spec_trace info t [] t'
  | trace_cons t o t1 os t2 : spec_step info t o t1 -> spec_trace info t1 os t2 ->
      spec_trace info t (o :: os) t2.

(** Steps do not tell functions with the same values apart. *)
#[export] Instance spec_step_proper info :
  Proper (pointwise_relation Z eq ==> eq ==> pointwise_relation Z eq ==> iff) (spec_step info).
Proof.
  assert (forall t1 t2 : Turns, pointwise_relation Z eq t1 t2 -> forall o (u1 u2 : Turns),
    pointwise_relation Z eq u1 u2 -> spec_step info t1 o u1 -> spec_step info t2 o u2) as Himp.
  { intros t1 t2 Ht o u1 u2 Hu Hst. unfold pointwise_relation in *.
    destruct Hst as [j sub n u1 Hi Hf Hs|n sub j l rest u1 Hn Hm Hs].
    - apply (spec_submit info t2 j sub n); [done|intros m x; rewrite <- Ht; apply Hf|].
      intros m. by rewrite <- Hu, Hs, Ht.
    - apply (spec_serve info t2 n sub j l rest); [by rewrite <- Ht|intros m Hlt; rewrite <- Ht; auto|].
      intros m. by rewrite <- Hu, Hs, Ht. }
  intros t1 t2 Ht o ? <- u1 u2 Hu. split; [by apply Himp|]. apply Himp; by symmetry.
Qed.

Lemma spec_trace_start info t1 t2 os u :
  pointwise_relation Z eq t1 t2 -> spec_trace info t1 os u -> spec_trace info t2 os u.
Proof.
  intros Ht Htr. destruct Htr as [t t' E|t o t3 os t4 Hs Htr].
  - constructor. intros n. by rewrite E, Ht.
  - econstructor; [|exact Htr]. by rewrite <- Ht.
Qed.

(** ** The queue *)

(** The turns of a queue. *)
Definition abs (q : list JobRequestsGroup) : Turns := fun n =>
  map (fun g => (g_submitter g, g_l g)) (filter (fun g => g_niceness g = n) q).
Definition job_info (s : Scheduler) (j : ptr) : option (ptr * Z) :=
  (fun job => (j_submitter job, j_niceness job)) <$> s_heap_jobs s !! j.

(** The operations of the scheduler on its queue; a job is only submitted when it
    is not in the queue. *)
Definition perform (o : op) : sched unit :=
  match o with
  | Submit j =>
      q ← gets s_job_requests;
      _ ← assert (bool_decide (j ∉ queue_jobs q));
      enqueue_job_request j
  | Serve j => j' ← serve_first; assert (bool_decide (j' = j))
  end.
Fixpoint performs (os : list op) : sched unit :=
  match os with [] => mret tt | o :: os => _ ← perform o; performs os end.

Lemma abs_app q1 q2 n : abs (q1 ++ q2) n = abs q1 n ++ abs q2 n.
Proof. unfold abs. by rewrite filter_app, map_app. Qed.
Lemma abs_cons g q n :
  abs (g :: q) n = (if decide (g_niceness g = n) then [(g_submitter g, g_l g)] else []) ++ abs q n.
Proof. unfold abs. rewrite filter_cons. by destruct (decide _). Qed.
Lemma abs_none n q : Forall (fun g => g_niceness g <> n) q -> abs q n = [].
Proof.
  induction 1 as [|g q Hg Hq IH]; [done|]. rewrite abs_cons, decide_False by done. exact IH.
Qed.
Lemma abs_in q n x : x ∈ abs q n -> exists g, g ∈ q /\ g_niceness g = n /\ x = (g_submitter g, g_l g).
Proof.
  unfold abs. intros (g & -> & Hg)%list_elem_of_fmap. apply list_elem_of_filter in Hg as [Hn Hg]. eauto.
Qed.

Lemma add_app sub j t1 t2 :
  sub ∉ map fst t1 -> add sub j (t1 ++ t2) = t1 ++ add sub j t2.
Proof.
  induction t1 as [|[x l] t1 IH]; [done|]. cbn. rewrite not_elem_of_cons. intros [Hx Ht].
  rewrite decide_False by done. by rewrite IH.
Qed.

(** A submitter has no turn of a niceness it has no group of. *)
Lemma abs_keys sub n q : (sub, n) ∉ map g_key q -> sub ∉ map fst (abs q n).
Proof.
  intros Hk (x & -> & Hx)%list_elem_of_fmap. apply abs_in in Hx as (g & Hg & Hn & ->).
  apply Hk, list_elem_of_fmap. exists g. split; [|done]. unfold g_key. cbn. by rewrite Hn.
Qed.

(** ** Steps *)

(** What the operations keep. *)
Record lively (s : Scheduler) : Prop := {
  lv_queue : queue_inv s;
  lv_fresh : forall j job, s_heap_jobs s !! j = Some job -> (j < s_next s)%positive;
  lv_live : Forall (group_live s) (s_job_requests s)
}.

Lemma abs_enqueue newone j sub n q m :
  queue_ok q ->
  abs (enqueue_in newone j sub n q) m = if m =? n then add sub j (abs q m) else abs q m.
Proof.
  intros Hq. destruct (enqueue_in_cases newone j sub n q Hq)
    as [(q1 & g & q2 & -> & Hk & ->)|(q1 & q2 & -> & Hni & H1 & H2 & ->)];
    rewrite !abs_app, !abs_cons; cbn [g_niceness g_submitter g_l set_g_l].
  - injection Hk as Hs Hn. rewrite Hn. destruct (m =? n) eqn:E; boolify; [subst m|by rewrite !decide_False by congruence].
    rewrite !decide_True, add_app by (try done; apply abs_keys; pose proof (q_keys _ Hq) as Hd;
      rewrite map_app in Hd; apply NoDup_app in Hd as (_ & Hd & _); intros Hin; apply (Hd _ Hin);
      cbn; unfold g_key at 1; rewrite Hs, Hn; left).
    cbn. by rewrite decide_True.
  - destruct (m =? n) eqn:E; boolify; [subst m|by rewrite decide_False by congruence].
    rewrite decide_True by done. rewrite map_app, not_elem_of_app in Hni.
    rewrite add_app by (apply abs_keys, Hni).
    rewrite (abs_none n q2); [done|]. eapply Forall_impl; [exact H2|]. cbn. intros g Hg. lia.
Qed.

Lemma enqueue_live s newone j sub n q :
  queue_ok q -> (exists job, s_heap_jobs s !! j = Some job /\ j_niceness job = n) ->
  Forall (group_live s) q -> Forall (group_live s) (enqueue_in newone j sub n q).
Proof.
  intros Hq Hj Hl. destruct (enqueue_in_cases newone j sub n q Hq)
    as [(q1 & g & q2 & -> & Hk & ->)|(q1 & q2 & -> & _ & _ & _ & ->)].
  - apply Forall_app in Hl as [H1 [Hg H2]%Forall_cons]. apply Forall_app. split; [done|]. constructor; [|done].
    unfold group_live in *. cbn. apply Forall_app. split; [done|]. constructor; [|done].
    injection Hk as _ ->. exact Hj.
  - apply Forall_app in Hl as [H1 H2]. apply Forall_app. split; [done|]. constructor; [|done].
    constructor; [exact Hj|done].
Qed.

(** *** A submission *)

Lemma submit_performs j s job :
  lively s -> s_heap_jobs s !! j = Some job -> j ∉ queue_jobs (s_job_requests s) ->
  exists s', perform (Submit j) s = Ok (tt, s') /\ lively s' /\ s_heap_jobs s' = s_heap_jobs s /\
    forall m, abs (s_job_requests s') m =
      if m =? j_niceness job then add (j_submitter job) j (abs (s_job_requests s) m)
      else abs (s_job_requests s) m.
Proof.
  intros [Hq Hf Hl] Ej Hni. set (s' := set_s_job_requests
    (enqueue_in (s_next s) j (j_submitter job) (j_niceness job) (s_job_requests s))
    (set_s_next (Pos.succ (s_next s)) s)).
  assert (enqueue_job_request j s = Ok (tt, s')) as E.
  { unfold enqueue_job_request. rewrite deref_job_bind, Ej. done. }
  exists s'. split_and!.
  - unfold perform. by rewrite bind_gets, bind_assert by (by apply bool_decide_eq_true).
  - split.
    + by eapply enqueue_inv; [exact Hq|by eapply Hf| |exact E].
    + intros j' job' Ej'. cbn in *. apply Hf in Ej'. lia.
    + apply (enqueue_live s); [apply Hq|eauto|done].
  - done.
  - intros m. apply abs_enqueue, Hq.
Qed.

(** *** A service *)

Lemma abs_after g j l q m :
  queue_ok (g :: q) -> g_l g = j :: l ->
  abs (match l with [] => q | _ => enqueue_group_in (set_g_l l g) q end) m =
    if m =? g_niceness g then abs q m ++ again (g_submitter g) l else abs q m.
Proof.
  intros Hq Eg. destruct l as [|x l]; [cbn [again]; rewrite app_nil_r; by destruct (m =? _)|].
  pose proof (q_sorted _ Hq) as Hs. apply StronglySorted_inv in Hs as [Hs _].
  destruct (enqueue_group_in_cases (set_g_l (x :: l) g) q Hs) as (q1 & q2 & -> & -> & _ & H2).
  rewrite !abs_app, abs_cons. cbn [g_niceness g_submitter g_l set_g_l] in *.
  destruct (m =? g_niceness g) eqn:E; boolify; [subst m|rewrite decide_False by congruence; done].
  rewrite decide_True by done. rewrite (abs_none _ q2); [by rewrite !app_nil_r|].
  eapply Forall_impl; [exact H2|]. cbn. intros g' Hg. lia.
Qed.

(** The first group has the next turn. *)
Lemma abs_first g q :
  StronglySorted not_before (g :: q) ->
  abs (g :: q) (g_niceness g) = (g_submitter g, g_l g) :: abs q (g_niceness g) /\
  forall m, m < g_niceness g -> abs (g :: q) m = [].
Proof.
  intros [_ Hg]%StronglySorted_inv. split; [by rewrite abs_cons, decide_True|].
  intros m Hm. apply abs_none. constructor; [lia|]. eapply Forall_impl; [exact Hg|].
  unfold not_before. intros x Hx. lia.
Qed.

Lemma keeps_serve_first : keeps queue_inv serve_first.
Proof. unfold serve_first, get_first_job_request. pose proof queue_remove. ks. Qed.

Lemma serve_performs g q j l s :
  lively s -> s_job_requests s = g :: q -> g_l g = j :: l ->
  exists s', serve_first s = Ok (j, s') /\ lively s' /\ s_heap_jobs s' = s_heap_jobs s /\
    forall m, abs (s_job_requests s') m =
      if m =? g_niceness g then abs q m ++ again (g_submitter g) l else abs (s_job_requests s) m.
Proof.
  intros [HQ Hf Hl] Es Eg. pose proof HQ as [Hq _]. rewrite Es in Hq, Hl.
  apply Forall_cons in Hl as [Hlg Hl]. pose proof Hlg as Hlg'. unfold group_live in Hlg'.
  rewrite Eg in Hlg'. apply Forall_cons in Hlg' as [Hlj Hll].
  pose proof (serve_first_spec g j l q s Hq Es Eg Hlj) as E. eexists. split; [exact E|].
  split; [split|split; [done|]].
  - by eapply keeps_serve_first.
  - exact Hf.
  - cbn. destruct l as [|x l]; [done|].
    destruct (enqueue_group_in_cases (set_g_l (x :: l) g) q) as (q1 & q2 & -> & -> & _).
    { by apply q_sorted, StronglySorted_inv in Hq as [? _]. }
    apply Forall_app in Hl as [H1 H2]. apply Forall_app. split; [exact H1|]. constructor; [|exact H2]. exact Hll.
  - intros m. cbn [s_job_requests set_s_job_requests]. rewrite (abs_after g j l q m Hq Eg), Es, abs_cons.
    destruct (m =? g_niceness g) eqn:Em; boolify; [done|]. by rewrite decide_False by congruence.
Qed.

(** *** Both sides *)

Lemma perform_refines o s u s' :
  lively s -> perform o s = Ok (u, s') ->
  spec_step (job_info s) (abs (s_job_requests s)) o (abs (s_job_requests s')) /\
  lively s' /\ s_heap_jobs s' = s_heap_jobs s.
Proof.
  intros HL E. destruct o as [j|j].
  - unfold perform in E. rewrite bind_gets in E. destruct (bool_decide (j ∉ _)) eqn:Hni; [|done].
    apply bool_decide_eq_true in Hni.
    destruct (s_heap_jobs s !! j) as [job|] eqn:Ej.
    + destruct (submit_performs j s job HL Ej Hni) as (s1 & E1 & HL1 & Hh & Ha).
      assert (s1 = s') as ->.
      { unfold perform in E1. rewrite bind_gets, bool_decide_true in E1 by done. congruence. }
      split; [|done]. apply (spec_submit _ _ j (j_submitter job) (j_niceness job)); [| |done].
      * unfold job_info. by rewrite Ej.
      * intros m x (g & Hg & _ & ->)%abs_in Hin. apply Hni, in_queue_jobs. eauto.
    + exfalso. apply bind_inv in E as (? & s1 & E1 & E). injection E1 as _ <-.
      unfold enqueue_job_request in E. by rewrite deref_job_bind, Ej in E.
  - unfold perform in E. destruct (s_job_requests s) as [|g q] eqn:Es.
    { unfold serve_first, get_first_job_request in E. by rewrite bind_assoc, bind_assoc, bind_gets, Es in E. }
    pose proof HL as [(Hq & _) _ _]. rewrite Es in Hq. pose proof (q_nonempty _ Hq) as Hne.
    apply Forall_cons in Hne as [Hne _]. destruct (g_l g) as [|j1 l] eqn:Eg; [done|].
    destruct (serve_performs g q j1 l s) as (s1 & E1 & HL1 & Hh & Ha); [done..|].
    rewrite (bind_ok _ _ _ _ _ E1) in E. unfold assert in E. destruct (bool_decide (j1 = j)) eqn:Hj; [|done].
    apply bool_decide_eq_true in Hj as ->. injection E as _ <-. split; [|done].
    destruct (abs_first g q (q_sorted _ Hq)) as [Ef Hlow]. rewrite Eg in Ef.
    apply (spec_serve _ _ (g_niceness g) (g_submitter g) j l (abs q (g_niceness g))); [done|done|].
    intros m. rewrite Ha, Es. destruct (m =? g_niceness g) eqn:Em; boolify; [by subst m|done].
Qed.

Lemma spec_performs o s t' :
  lively s -> spec_step (job_info s) (abs (s_job_requests s)) o t' ->
  exists s', perform o s = Ok (tt, s') /\ pointwise_relation Z eq (abs (s_job_requests s')) t'.
Proof.
  intros HL Hstep. destruct Hstep as [j sub n t' Hi Hf Ht|n sub j l rest t' Hn Hlow Ht].
  - unfold job_info in Hi. destruct (s_heap_jobs s !! j) as [job|] eqn:Ej; [|done]. injection Hi as <- <-.
    destruct (submit_performs j s job HL Ej) as (s' & E & _ & _ & Ha).
    + intros (g & Hg & Hin)%in_queue_jobs. apply (Hf (g_niceness g) (g_submitter g, g_l g)); [|exact Hin].
      apply list_elem_of_fmap. exists g. split; [done|]. by apply list_elem_of_filter.
    + exists s'. split; [exact E|]. intros m. by rewrite Ha, Ht.
  - pose proof HL as [(Hq & _) _ _]. destruct (s_job_requests s) as [|g q] eqn:Es; [done|].
    destruct (abs_first g q (q_sorted _ Hq)) as [Ef Hbelow].
    assert (n = g_niceness g) as ->.
    { destruct (Z.lt_trichotomy n (g_niceness g)) as [Hlt|[?|Hlt]]; [|done|].
      - by rewrite Hbelow in Hn by done.
      - apply Hlow in Hlt. by rewrite Ef in Hlt. }
    rewrite Ef in Hn. injection Hn as Hsub Hgl Hrest.
    destruct (serve_performs g q j l s) as (s' & E & _ & _ & Ha); [done..|].
    exists s'. split.
    + unfold perform. rewrite (bind_ok _ _ _ _ _ E). by rewrite bool_decide_true.
    + intros m. rewrite Ha, Ht, Es, Hsub. destruct (m =? g_niceness g) eqn:Em; boolify; [|done].
      subst m. by rewrite <- Hrest.
Qed.

Lemma performs_refine os s u s' :
  lively s -> performs os s = Ok (u, s') ->
  spec_trace (job_info s) (abs (s_job_requests s)) os (abs (s_job_requests s')).
Proof.
  revert s. induction os as [|o os IH]; intros s HL E; cbn in E; [injection E as _ <-; by constructor|].
  apply bind_inv in E as (u' & s1 & E1 & E). apply perform_refines in E1 as (Hs & HL1 & Hh); [|done].
  econstructor; [exact Hs|]. replace (job_info s) with (job_info s1) by (unfold job_info; by rewrite Hh).
  by apply IH.
Qed.

Lemma spec_trace_performs os s t' :
  lively s -> spec_trace (job_info s) (abs (s_job_requests s)) os t' ->
  exists s', performs os s = Ok (tt, s').
Proof.
  revert s. induction os as [|o os IH]; intros s HL Ht; [by exists s|].
  inversion Ht as [|? ? t1 ? ? Hstep Htr]; subst.
  destruct (spec_performs o s t1 HL Hstep) as (s1 & E1 & Ha).
  pose proof (perform_refines _ _ _ _ HL E1) as (_ & HL1 & Hh).
  destruct (IH s1 HL1) as (s' & E).
  { replace (job_info s1) with (job_info s) by (unfold job_info; by rewrite Hh).
    by eapply spec_trace_start; [|exact Htr]. }
  exists s'. cbn. by rewrite (bind_ok _ _ _ _ _ E1).
Qed.

(** ** The theorem *)

Section refinement.
Context `{ChannelLaws} (version : string) (alg : SchedulerAlgorithmName) (weight : Z).

(** C19: the queue implements the specification of turns. From every reachable
    state whose queued jobs are live, the scheduler can perform a sequence of
    submissions and services, with these jobs served in this order, exactly when
    the specification can, and then the turns of its queue are those the
    specification ends with: the requests of a submitter are served in order,
    submitters of the same niceness take turns, and a less nice one comes first. *)
Theorem queue_refines os s :
  reachable version alg weight s -> Forall (group_live s) (s_job_requests s) ->
  ((exists s', performs os s = Ok (tt, s')) <->
   (exists t, spec_trace (job_info s) (abs (s_job_requests s)) os t)) /\
  forall s', performs os s = Ok (tt, s') ->
    spec_trace (job_info s) (abs (s_job_requests s)) os (abs (s_job_requests s')).
Proof.
  intros Hr Hl. apply reachable_sched_ok in Hr as [Hq [_ Ht] _].
  assert (lively s) as HL by (split; [done|intros j job E; by destruct (Ht j job E)|done]).
  split; [|intros s' E; by eapply performs_refine]. split.
  - intros [s' E]. exists (abs (s_job_requests s')). by eapply performs_refine.
  - intros [t Htr]. by eapply spec_trace_performs.
Qed.
End refinement.

(** ** A sample

    Two submitters of the same niceness take turns. *)

#[local] Existing Instance store_compressors.
#[local] Existing Instance sample_channels.
#[local] Existing Instance sample_laws.

Lemma queue_refines_witness :
  spec_trace (job_info crowd) (abs (s_job_requests crowd)) [Serve 2; Serve 13; Serve 4]%positive
    (abs [mkGroup 14 [15] 12 3; mkGroup 3 [6; 8; 10] 1 3]%positive).
Proof.
  assert (exists s', performs [Serve 2; Serve 13; Serve 4]%positive crowd = Ok (tt, s') /\
            s_job_requests s' = [mkGroup 14 [15] 12 3; mkGroup 3 [6; 8; 10] 1 3]%positive) as (s' & E & Es).
  { eexists. split; vm_compute; reflexivity. }
  assert (Forall (group_live crowd) (s_job_requests crowd)) as Hl.
  { rewrite crowd_requests. apply group_live_check. vm_compute. reflexivity. }
  destruct (queue_refines "1.4" FASTEST 0 [Serve 2; Serve 13; Serve 4]%positive crowd crowd_reachable Hl)
    as [_ Ht].
  specialize (Ht s' E). rewrite Es in Ht. exact Ht.
Defined.
