(* ===== verification/Client.v ===== *)
(** * The client and its system (client/util.cpp, local.cpp, cpp.cpp, safeguard.cpp)

    The state of a client while it builds, the questions it puts to the system,
    its exceptions; the lock of the machine, the preprocessor and the compilation
    by the client itself. RemoteBuild.v and ClientMain.v are written with them. *)

From Stdlib Require Import ZArith Lia.
From Stdlib Require Import Strings.Byte Strings.String.
From stdpp Require Import base tactics option list gmap strings pretty.
From S2P Require Import Prelude Effects ExitCode StdString MsgChannel CompileJob Msg Interface Transport Compilers.

#[local] Open Scope Z_scope.

(** ** The state of a build *)

(** What can be observed from outside, in order: the messages of the two
    connections among it, and whether they were sent. *)
Inductive client_effect : Type :=
| Wrote (fd : Z) (text : string)
| Killed_cpp
| Closed (fd : Z)
| Unlinked (file : string)
| Renamed (file new : string)
| Ran (argv : list string)
| To_server (m : Msg) (sent : bool)
| From_server (m : option Msg)
| To_daemon (m : Msg) (sent : bool)
| From_daemon (m : option Msg).

Record Build : Type := mkBuild {
  bd_job : CompileJob;
  bd_local : option MsgChannel;
  bd_server : option MsgChannel;
  bd_files : gmap string (list byte);
  bd_remote_daemon : string;
  bd_lock_fd : Z;
  bd_asked : nat;
  bd_effects : list client_effect
}.

Definition set_bd_job (v : CompileJob) (r : Build) : Build :=
  mkBuild v (r.(bd_local)) (r.(bd_server)) (r.(bd_files))
    (r.(bd_remote_daemon)) (r.(bd_lock_fd)) (r.(bd_asked)) (r.(bd_effects)).
Definition set_bd_local (v : option MsgChannel) (r : Build) : Build :=
  mkBuild (r.(bd_job)) v (r.(bd_server)) (r.(bd_files))
    (r.(bd_remote_daemon)) (r.(bd_lock_fd)) (r.(bd_asked)) (r.(bd_effects)).
Definition set_bd_server (v : option MsgChannel) (r : Build) : Build :=
  mkBuild (r.(bd_job)) (r.(bd_local)) v (r.(bd_files)) (r.(bd_remote_daemon))
    (r.(bd_lock_fd)) (r.(bd_asked)) (r.(bd_effects)).
Definition set_bd_files (v : gmap string (list byte)) (r : Build) : Build :=
  mkBuild (r.(bd_job)) (r.(bd_local)) (r.(bd_server)) v
    (r.(bd_remote_daemon)) (r.(bd_lock_fd)) (r.(bd_asked)) (r.(bd_effects)).
Definition set_bd_remote_daemon (v : string) (r : Build) : Build :=
  mkBuild (r.(bd_job)) (r.(bd_local)) (r.(bd_server)) (r.(bd_files)) v
    (r.(bd_lock_fd)) (r.(bd_asked)) (r.(bd_effects)).
Definition set_bd_lock_fd (v : Z) (r : Build) : Build :=
  mkBuild (r.(bd_job)) (r.(bd_local)) (r.(bd_server)) (r.(bd_files))
    (r.(bd_remote_daemon)) v (r.(bd_asked)) (r.(bd_effects)).
Definition set_bd_asked (v : nat) (r : Build) : Build :=
  mkBuild (r.(bd_job)) (r.(bd_local)) (r.(bd_server)) (r.(bd_files))
    (r.(bd_remote_daemon)) (r.(bd_lock_fd)) v (r.(bd_effects)).
Definition set_bd_effects (v : list client_effect) (r : Build) : Build :=
  mkBuild (r.(bd_job)) (r.(bd_local)) (r.(bd_server)) (r.(bd_files))
    (r.(bd_remote_daemon)) (r.(bd_lock_fd)) (r.(bd_asked)) v.

(** ** The system

    Its answers, each to a question put at some time. A file that is read is the
    list of what [read] got, [None] for an error; behind the list is its end. *)

Class Host : Type := {
  h_machine : machine;
  h_realpath : string -> option string;
  h_niceness : Z;                                  (* getpriority *)
  h_user : string;                                 (* name or number *)
  h_ncpus : Z;
  h_pid : Z;
  h_mkdir : nat -> string -> bool;                 (* made, or there already *)
  h_lockfile : nat -> string -> bool -> option Z;  (* open and lock; may block *)
  h_connect : nat -> string -> Z -> Z -> option MsgChannel;  (* host, port, timeout *)
  h_connect_socket : nat -> string -> option MsgChannel;
  h_stat : nat -> string -> option Z;              (* the size *)
  h_open : nat -> string -> option (list (option (list byte)));
  h_pipe : nat -> bool;
  h_pipe_reads : nat -> list (option (list byte));
  h_create : nat -> string -> bool;
  h_write : nat -> list byte -> Z;                 (* bytes written, -1: error *)
  h_close : nat -> bool;
  h_rename : nat -> string -> string -> bool;
  h_unlink : nat -> string -> bool;
  h_fork : nat -> bool;
  h_wait : nat -> Z;                               (* the status of the child *)
  h_rusage : nat -> (Z * Z) * (Z * Z) * Z;         (* user, system time; faults *)
  h_time : nat -> Z * Z;                           (* gettimeofday *)
  h_rand : nat -> Z;
  h_tmpnam : nat -> string;
  h_wait_any : nat -> option (nat * Z);            (* wait: which child, its status *)
  h_md5 : nat -> string -> string;                 (* of a file; empty: no such file *)
  h_pending : nat -> nat                           (* messages the server still sends *)
}.

(** ** Exceptions

    A computation returns, throws, or the process ends or is replaced by another
    program ([execv]), after which nothing of it runs. *)

Inductive client_exn : Type :=
| client_error (code : Z)
| remote_error (code : Z)
| became (argv : list string)
| exited (code : Z).

Abbreviation build A := (M Build (sum client_exn A)) (only parsing).
#[local] Open Scope icecc_scope.
Definition ask {A} (q : nat -> A) : build A :=
  n ⇐ look bd_asked; _ ⇐ change (set_bd_asked (S n)); ok (q n).
Definition emit (e : client_effect) : build unit :=
  change (fun s => set_bd_effects (bd_effects s ++ [e]) s).

(** The connections *)
Definition on_local {A} (r : reader A) : build A :=
  o ⇐ look bd_local;
  match o with
  | None => throw NullDeref
  | Some c =>
      match r c with
      | Ok (a, c') => _ ⇐ change (set_bd_local (Some c')); ok a
      | Fault f => throw f
      end
  end.
Definition on_server {A} (r : reader A) : build A :=
  o ⇐ look bd_server;
  match o with
  | None => throw NullDeref
  | Some c =>
      match r c with
      | Ok (a, c') => _ ⇐ change (set_bd_server (Some c')); ok a
      | Fault f => throw f
      end
  end.

(** The files written here *)
Definition unlink_file `{Host} (file : string) : build bool :=
  b ⇐ ask (fun t => h_unlink t file);
  _ ⇐ (if b : bool then
         _ ⇐ change (fun s => set_bd_files (delete file (bd_files s)) s); emit (Unlinked file)
       else ok tt);
  ok b.
Definition rename_file `{Host} (file new : string) : build bool :=
  b ⇐ ask (fun t => h_rename t file new);
  _ ⇐ (if b : bool then
         _ ⇐ change (fun s =>
               match bd_files s !! file with
               | Some bs => set_bd_files (<[new := bs]> (delete file (bd_files s))) s
               | None => set_bd_files (delete new (bd_files s)) s
               end);
         emit (Renamed file new)
       else ok tt);
  ok b.

Section talk.
Context `{Channels}.

Definition send_daemon (m : Msg) : build bool :=
  b ⇐ on_local (ch_send m SendBlocking); _ ⇐ emit (To_daemon m b); ok b.
Definition hear_daemon (timeout : Z) : build (option Msg) :=
  m ⇐ on_local (ch_get timeout false); _ ⇐ emit (From_daemon m); ok m.
Definition send_server (m : Msg) : build bool :=
  b ⇐ on_server (ch_send m SendBlocking); _ ⇐ emit (To_server m b); ok b.
Definition hear_server (timeout : Z) (eof_allowed : bool) : build (option Msg) :=
  m ⇐ on_server (ch_get timeout eof_allowed); _ ⇐ emit (From_server m); ok m.
End talk.

(** ** The lock of the machine (client/util.cpp) *)

Section client.
Context `{Host}.

Definition dcc_unlock : build unit :=
  fd ⇐ look bd_lock_fd;
  _ ⇐ (if negb (fd =? -1) then emit (Closed fd) else ok tt);
  change (set_bd_lock_fd (-1)).

Definition dcc_lock_host_slot (fname : string) (lock : Z) (block : bool) : build bool :=
  let fname := if 0 <? lock then (fname +:+ pretty lock)%string else fname in
  fd ⇐ ask (fun t => h_lockfile t fname block);
  match fd with
  | Some fd => _ ⇐ change (set_bd_lock_fd fd); ok true
  | None => ok false
  end.

(** The first slot that is free, beginning with one that depends on the process. *)
Fixpoint try_slots (fname : string) (lock : Z) (n : nat) : build bool :=
  match n with
  | O => ok false
  | S n =>
      b ⇐ dcc_lock_host_slot fname (Z.rem (lock + h_pid) h_ncpus) false;
      if b : bool then ok true else try_slots fname (lock + 1) n
  end.

Definition dcc_lock_host : build bool :=
  fd ⇐ look bd_lock_fd;
  _ ⇐ require (fd =? -1);
  let fname := ("/tmp/.icecream-" +:+ h_user)%string in
  made ⇐ ask (fun t => h_mkdir t fname);
  if negb made then ok false
  else
    let fname := (fname +:+ "/local_lock")%string in
    _ ⇐ change (set_bd_lock_fd 0);
    b ⇐ try_slots fname 0 (Z.to_nat h_ncpus);
    if b : bool then ok true
    else if h_ncpus =? 0 then throw DivByZero
    else dcc_lock_host_slot fname (Z.rem h_pid h_ncpus) true.

(** The destructor of [HostUnlock] runs however the scope is left. *)
Definition with_unlock {A} (m : build A) : build A :=
  r ← m; _ ⇐ dcc_unlock; mret r.

(** ** The preprocessor (client/cpp.cpp)

    The flags of [call_cpp]: precompiled headers and modules are left out. The
    value of an [-include] that stays is looked at again as a flag. *)
Fixpoint cpp_flags (m : machine) (l : list string) : list string :=
  match l with
  | [] => []
  | a :: l =>
      if str_equal a "-include" then
        match l with
        | p :: rest =>
            if negb (m_readable m p) && m_readable m (p +:+ ".gch")%string then cpp_flags m rest
            else a :: cpp_flags m l
        | [] => [a]
        end
      else if str_equal a "-include-pch" then
        match l with
        | p :: rest => if m_readable m p then cpp_flags m rest else a :: cpp_flags m l
        | [] => [a]
        end
      else if str_equal a "-fpch-preprocess" || str_equal a "-fmodules" || str_equal a "-fcxx-modules"
           || str_equal a "-fmodules-ts" || str_startswith "-fmodules-cache-path=" a
      then cpp_flags m l
      else a :: cpp_flags m l
  end.

Definition dcc_is_preprocessed (sfile : string) : bool :=
  let s := bytes_of sfile in
  let n := length s in
  if (n <? 3)%nat then false
  else (bool_decide (s !! (n - 2)%nat = Some x2e) && bool_decide (s !! (n - 1)%nat = Some x69))
       || (bool_decide (s !! (n - 3)%nat = Some x2e) && bool_decide (s !! (n - 2)%nat = Some x69)
           && bool_decide (s !! (n - 1)%nat = Some x69)).

(** The command that preprocesses the input of a job. *)
Definition cpp_argv (m : machine) (job : CompileJob) : res (list string) :=
  if dcc_is_preprocessed (j_input_file job) then Ok ["/bin/cat"%string; j_input_file job]
  else
    match find_compiler m job, compiler_only_rewrite_includes m job, compiler_is_clang job with
    | Ok compiler, Ok rewrite, Ok clang =>
        Ok (compiler :: cpp_flags m (localFlags job ++ restFlags job) ++ ["-E"%string; j_input_file job]
            ++ (if rewrite then [if clang : bool then "-frewrite-includes"%string else "-fdirectives-only"%string]
                else []))
    | Fault f, _, _ | _, Fault f, _ | _, _, Fault f => Fault f
    end.

(** [call_cpp]: whether there is a child. Where the command has a fault it is the
    child's. *)
Definition call_cpp (job : CompileJob) : build bool :=
  forked ⇐ ask h_fork;
  if negb forked then ok false
  else
    _ ⇐ (match cpp_argv h_machine job with
         | Ok argv => emit (Ran argv)
         | Fault _ => ok tt
         end);
    ok true.

(** ** The output of a compiler in colour (client/util.cpp) *)

Definition escape : string := str_of [x1b].
Definition color_line (cline : string) : string :=
  (if StdString.contains ": error:" cline then escape +:+ "[1;31m" +:+ c_text cline +:+ escape +:+ "[0m" +:+ str_of [x0a]
   else if StdString.contains ": warning:" cline
   then escape +:+ "[36m" +:+ c_text cline +:+ escape +:+ "[0m" +:+ str_of [x0a]
   else c_text cline +:+ str_of [x0a])%string.

Fixpoint color_lines (fuel : nat) (s_ccout : string) : string :=
  let end_ := find (str_of [x0a]) s_ccout in
  if end_ =? npos then c_text s_ccout
  else
    match fuel with
    | O => c_text s_ccout
    | S fuel => (color_line (substr s_ccout 0 end_) +:+ color_lines fuel (substr_from s_ccout (end_ + 1)))%string
    end.
Definition colorify_output (s_ccout : string) : string :=
  color_lines (length (bytes_of s_ccout)) s_ccout.

(** ** Compiling here (client/local.cpp)

    The globals [explicit_color_diagnostics] and [explicit_no_show_caret], which
    the analysis of the command line sets, are arguments. *)

Context (explicit_color_diagnostics : bool).

Definition local_argv (compiler_name : string) (job : CompileJob) : list string :=
  filter (fun a => a <> "-fdirectives-only"%string)
    (compiler_name :: allFlags job
     ++ (if str_equal (j_input_file job) "" then [] else [j_input_file job])
     ++ (if str_equal (j_output_file job) "" then [] else ["-o"%string; j_output_file job])).

(** [execv]: the file of the lock was opened to be closed by it, and with it the
    lock is gone. *)
Definition exec {A} (argv : list string) : build A := _ ⇐ dcc_unlock; raise (became argv).

(** What the child has written, until an error or the end. *)
Fixpoint all_read (reads : list (option (list byte))) : string :=
  match reads with
  | Some bs :: reads => if bool_decide (bs = []) then "" else (c_text (str_of bs) +:+ all_read reads)%string
  | _ => ""
  end.

(** The child has the compiler for its program. Where nobody wants its statistics
    or its output there is no child. *)
Definition build_local (job : CompileJob) (local_daemon used : bool) : build Z :=
  compiler_name ⇐ from_res (find_compiler h_machine job);
  if str_equal compiler_name "" then ok EXIT_NO_SUCH_FILE
  else
    let argv := local_argv compiler_name job in
    locked ⇐ (if local_daemon then ok true else dcc_lock_host);
    if negb locked then ok EXIT_DISTCC_FAILED
    else
      wanted ⇐ (if bool_decide (j_language job = Lang_Custom) then ok false
                else from_res (colorify_wanted h_machine explicit_color_diagnostics job));
      color_output ⇐ (if wanted : bool then ask h_pipe else ok false);
      if negb (used || color_output) then exec argv
      else
        forked ⇐ ask h_fork;
        _ ⇐ (if forked : bool then emit (Ran argv) else ok tt);
        _ ⇐ (if color_output : bool then
               reads ⇐ ask h_pipe_reads; emit (Wrote 2 (colorify_output (all_read reads)))
             else ok tt);
        (* without a child, [wait4] leaves the 1 it was given *)
        status ⇐ (if forked : bool then ask h_wait else ok 1);
        _ ⇐ dcc_unlock;
        ok (shell_exit_status status).
End client.

(** ** Recursion (client/safeguard.cpp) *)

Definition SafeguardMaxLevel : Z := 2.
Definition dcc_recursion_safeguard (m : machine) : Z :=
  match m_getenv m "_ICECC_SAFEGUARD" with
  | Some env => let level := atoi (bytes_of env) in if level =? 0 then 1 else level
  | None => 0
  end.
