(* ===== verification/RemoteBuild.v ===== *)
(** * Remote builds (client/remote.cpp)

    The environments a client offers, the request for a server, the transfer of
    the environment and of the preprocessed source, the result and the files that
    are written, and the comparison of repeated builds. *)

From Stdlib Require Import ZArith Lia.
From Stdlib Require Import Strings.Byte Strings.String.
From stdpp Require Import base tactics option list gmap strings pretty.
From S2P Require Import Prelude ExitCode Effects Files Paths StdString MsgChannel CompileJob Msg Interface Transport Compilers Client.

#[local] Open Scope Z_scope.
#[local] Open Scope icecc_scope.

(** ** Environments *)

(** The pieces of a list separated by commas, empty ones left out. *)
Definition couples (icecc_version : string) : list string :=
  map str_of (filter (fun p => p <> []) (pieces x2c (bytes_of icecc_version))).

(** [platform:version], the platform being the job's if there is none. *)
Definition split_couple (target_platform couple : string) : string * string :=
  let colon := find ":" couple in
  if colon =? npos then (target_platform, couple)
  else (substr couple 0 colon, substr_from couple (colon + 1)).

(** [version=prefix], for a list in which prefixes occur; [None] when the entry
    is for another prefix. *)
Definition for_prefix (def_targets : bool) (prefix version : string) : option string :=
  if negb def_targets then Some version
  else
    let eq := find "=" version in
    if negb (eq =? npos) then
      if bool_decide (prefix = substr_from version (eq + 1)) then Some (substr version 0 eq) else None
    else if bool_decide (prefix = ""%string) then Some version else None.

(** A file that can be installed. *)
Definition is_tarball (m : machine) (version : string) : bool :=
  m_readable m version &&
  match m_lstat m version with Some (Regular, size) => 500 <=? size | _ => false end.

Fixpoint parse_couples (m : machine) (target_platform prefix : string) (def_targets : bool)
    (l : list string) (envs : Environments) (platforms : list string) : Environments :=
  match l with
  | [] => envs
  | couple :: l =>
      let (platform, version) := split_couple target_platform couple in
      match for_prefix def_targets prefix version with
      | Some version =>
          if negb (bool_decide (platform ∈ platforms)) && is_tarball m version
          then parse_couples m target_platform prefix def_targets l
                 (envs ++ [(platform, version)]) (platforms ++ [platform])
          else parse_couples m target_platform prefix def_targets l envs platforms
      | None => parse_couples m target_platform prefix def_targets l envs platforms
      end
  end.

(** [ICECC_VERSION] is set where this is called. *)
Definition parse_icecc_version (m : machine) (target_platform prefix : string) : res Environments :=
  match m_getenv m "ICECC_VERSION" with
  | None => Fault NullDeref
  | Some icecc_version =>
      if bool_decide (icecc_version = ""%string) then Fault AssertFailed
      else Ok (parse_couples m target_platform prefix (negb (find "=" icecc_version =? npos))
                 (couples icecc_version) [] [])
  end.

Definition endswith (orig suff : string) : option string :=
  let len := strlen suff in
  if (len <? strlen orig) && str_equal (substr_from orig (strlen orig - len)) suff
  then Some (substr orig 0 (strlen orig - len)) else None.

Definition suffs : list string := [".tar.xz"; ".tar.zst"; ".tar.bz2"; ".tar.gz"; ".tar"; ".tgz"]%string.

(** The names of the environments without directories and suffixes; for each
    platform its name and its file. *)
Definition ripped : Type := Environments * gmap string string * gmap string string.
Definition rip_one (env : string * string) (acc : ripped) (suff : string) : ripped :=
  let '(env2, version_map, versionfile_map) := acc in
  match endswith env.2 suff with
  | Some versfile =>
      let versfile := find_basename versfile in
      (env2 ++ [(env.1, versfile)], <[env.1 := versfile]> version_map, <[env.1 := env.2]> versionfile_map)
  | None => acc
  end.
Definition rip_out_paths (envs : Environments) : ripped :=
  foldl (fun acc env => foldl (rip_one env) acc suffs) ([], ∅, ∅) envs.

(** What the path of the environments is left out of, for the flags that name
    files: the file as the server sees it below [remote_root]. *)
Definition file_flag_prefixes : list string :=
  ["--warning-suppression-mappings="; "-fprofile-sample-use="; "-fprofile-use=";
   "-fsanitize-blacklist="; "-fsanitize-coverage-allowlist="; "-fsanitize-ignorelist="]%string.
Definition remote_root : string := "/icecc-extrafiles/".

Section remote.
Context `{Channels} `{Host}.
Context (explicit_color_diagnostics explicit_no_show_caret : bool).

(** [RebasePathFlagsUpdater]: its constructor and its operator. *)
Definition build_root : string :=
  match m_getenv h_machine "ICECC_BUILD_ROOT" with
  | None => ""
  | Some icecc_build_root =>
      match h_realpath icecc_build_root with
      | None => ""
      | Some path => (path +:+ "/")%string
      end
  end.

Definition rebase_with (arg prefix : string) : string :=
  let file := substr_from arg (strlen prefix) in
  match m_stat h_machine file with
  | None => arg
  | Some _ =>
      match h_realpath file with
      | None => arg
      | Some path =>
          if str_startswith build_root path
          then (prefix +:+ remote_root +:+ substr_from path (strlen build_root))%string
          else arg
      end
  end.
Definition rebase_flag (arg : string) (type : Argument_Type) : string :=
  if str_equal build_root "" || bool_decide (type = Arg_Local) then arg
  else
    match List.find (fun prefix => str_startswith prefix arg) file_flag_prefixes with
    | Some prefix => rebase_with arg prefix
    | None => arg
    end.

(** ** The server *)

Definition get_server : build UseCSMsg :=
  let timeout := if 0 <? h_niceness then 60 * 60 else 4 * 60 in
  umsg ⇐ hear_daemon timeout;
  match umsg with
  | Some (UseCS usecs) => ok usecs
  | _ => raise (client_error 1)
  end.

Definition check_for_failure (msg : option Msg) : build unit :=
  match msg with
  | Some (StatusText _) => raise (client_error 23)
  | _ => ok tt
  end.

(** ** Sending a file *)

(** One [FileChunkMsg]. The lock, where it is held, is given up meanwhile. *)
Definition send_chunk (buffer : list byte) (unlock_sending : bool) : build unit :=
  _ ⇐ (if unlock_sending then dcc_unlock else ok tt);
  sent ⇐ send_server (FileChunk (mkFileChunkMsg (Some buffer) (Z.of_nat (length buffer)) 0));
  if negb sent then
    m ⇐ hear_server 2 false;
    _ ⇐ check_for_failure m;
    raise (client_error 15)
  else if unlock_sending then
    locked ⇐ dcc_lock_host;
    if negb locked then raise (client_error 32) else ok tt
  else ok tt.

Fixpoint write_loop (fuel : nat) (buffer : list byte) (reads : list (option (list byte)))
    (unlock_sending : bool) : build unit :=
  match read_some (chunk_size - Z.of_nat (length buffer)) reads with
  | (None, _) => raise (client_error 16)
  | (Some bytes, reads) =>
      let buffer := buffer ++ bytes in
      let last := bool_decide (bytes = []) in
      if last || (Z.of_nat (length buffer) =? chunk_size) then
        _ ⇐ (if bool_decide (buffer = []) then ok tt else send_chunk buffer unlock_sending);
        if last then ok tt
        else match fuel with
             | O => throw Aborted
             | S fuel => write_loop fuel [] reads unlock_sending
             end
      else match fuel with
           | O => throw Aborted
           | S fuel => write_loop fuel buffer reads unlock_sending
           end
  end.

Definition write_fd_to_server (reads : list (option (list byte))) (unlock_sending : bool) : build unit :=
  write_loop (reads_size reads) [] reads unlock_sending.

(** ** Receiving a file *)

(** [write]: whether all of it was written. *)
Definition write_all (file : string) (data : option (list byte)) : build bool :=
  match data with
  | None => ok false
  | Some bs =>
      n ⇐ ask (fun t => h_write t bs);
      _ ⇐ change (fun s =>
            set_bd_files (<[file := default [] (bd_files s !! file) ++ take (Z.to_nat n) bs]> (bd_files s)) s);
      ok (n =? Z.of_nat (length bs))
  end.

(** A server that has sent all it will send is silent. *)
Fixpoint receive_loop (pending : nat) (tmp_file : string) : build unit :=
  let fail code := _ ⇐ unlink_file tmp_file; raise (client_error code) in
  match pending with
  | O => fail 19
  | S pending =>
      msg ⇐ hear_server 40 false;
      match msg with
      | None => fail 19
      | Some msg =>
          _ ⇐ check_for_failure (Some msg);
          match msg with
          | EndMsg => ok tt
          | FileChunk m =>
              data ⇐ from_res (chunk_data m);
              written ⇐ write_all tmp_file data;
              if negb written then fail 21 else receive_loop pending tmp_file
          | _ => fail 20
          end
      end
  end.

Definition receive_file (output_file : string) : build unit :=
  let tmp_file := (output_file +:+ "_icetmp")%string in
  created ⇐ ask (fun t => h_create t tmp_file);
  if negb created then raise (client_error 31)
  else
    _ ⇐ change (fun s => set_bd_files (<[tmp_file := []]> (bd_files s)) s);
    pending ⇐ ask h_pending;
    _ ⇐ receive_loop pending tmp_file;
    closed ⇐ ask h_close;
    if negb closed then _ ⇐ unlink_file tmp_file; raise (client_error 30)
    else
      renamed ⇐ rename_file tmp_file output_file;
      if negb renamed then _ ⇐ unlink_file tmp_file; raise (client_error 30) else ok tt.

(** ** One compilation on a server *)

Definition verify_environment (usecs : UseCSMsg) : build unit :=
  job ⇐ look bd_job;
  sent ⇐ send_server (VerifyEnv (mkVerifyEnvMsg (j_environment_version job) (j_target_platform job)));
  if negb sent then raise (client_error 22)
  else
    verify_msg ⇐ hear_server 60 false;
    match verify_msg with
    | Some (VerifyEnvResult verified) =>
        if negb verified then
          _ ⇐ send_daemon (BlacklistHostEnv (mkBlacklistHostEnvMsg (j_environment_version job)
                             (j_target_platform job) (ucs_hostname usecs)));
          raise (client_error 24)
        else ok tt
    | _ => raise (client_error 25)
    end.

Definition transfer_environment (usecs : UseCSMsg) (version_file : string) : build unit :=
  job ⇐ look bd_job;
  size ⇐ ask (fun t => h_stat t version_file);
  match size with
  | None => raise (client_error 4)
  | Some _ =>
      sent ⇐ send_server (EnvTransfer (mkEnvTransferMsg (j_environment_version job) (j_target_platform job)));
      if negb sent then raise (client_error 6)
      else
        env_fd ⇐ ask (fun t => h_open t version_file);
        match env_fd with
        | None => raise (client_error 5)
        | Some reads =>
            _ ⇐ write_fd_to_server reads false;
            sent ⇐ send_server EndMsg;
            if negb sent then raise (client_error 8)
            else
              verifies ⇐ on_server (gets (is_protocol_version 31));
              if verifies : bool then verify_environment usecs else ok tt
        end
  end.

Definition ignore_unverified : bool := bool_decide (is_Some (m_getenv h_machine "ICECC_IGNORE_UNVERIFIED")).

(** Older servers do not set [-x] properly. *)
Definition add_language (job : CompileJob) : CompileJob :=
  appendFlag (if bool_decide (j_language job = Lang_OBJC) then "objective-c" else "objective-c++") Arg_Remote
    (appendFlag "-x" Arg_Remote job).

Definition send_job : build unit :=
  verifies ⇐ on_server (gets (is_protocol_version 31));
  _ ⇐ (if negb verifies && ignore_unverified then raise (client_error 26) else ok tt);
  sets ⇐ on_server (gets (is_protocol_version 38));
  job ⇐ look bd_job;
  _ ⇐ (if (bool_decide (j_language job = Lang_OBJC) || bool_decide (j_language job = Lang_OBJCXX))
          && negb sets
       then change (set_bd_job (add_language job)) else ok tt);
  job ⇐ look bd_job;
  sent ⇐ send_server (CompileFile (updateFlags rebase_flag job));
  if negb sent then raise (client_error 9) else ok tt.

(** The preprocessor failed: whether the source is then compiled here. *)
Definition cpp_failed (code : Z) : build (option Z) :=
  _ ⇐ change (set_bd_server None);
  job ⇐ look bd_job;
  clang ⇐ from_res (compiler_is_clang job);
  directives_only ⇐ (if clang : bool then ok false
                     else from_res (compiler_only_rewrite_includes h_machine job));
  if directives_only : bool then raise (remote_error 103) else ok (Some code).

(** The preprocessed source; a code when the call returns at once. *)
Definition send_source (preproc_file : option string) : build (option Z) :=
  match preproc_file with
  | None =>
      piped ⇐ ask h_pipe;
      if negb piped then raise (client_error 32)
      else
        locked ⇐ dcc_lock_host;
        if negb locked then ok (Some EXIT_DISTCC_FAILED)
        else with_unlock (
          job ⇐ look bd_job;
          running ⇐ call_cpp job;
          if negb running then raise (client_error 18)
          else
            reads ⇐ ask h_pipe_reads;
            _ ⇐ on_exception (write_fd_to_server reads true) (emit Killed_cpp);
            status ⇐ ask h_wait;
            if negb (shell_exit_status status =? 0) then cpp_failed (shell_exit_status status)
            else ok None)
  | Some preproc_file =>
      cpp_fd ⇐ ask (fun t => h_open t preproc_file);
      match cpp_fd with
      | None => raise (client_error 11)
      | Some reads => _ ⇐ write_fd_to_server reads false; ok None
      end
  end.

Definition show_output (crmsg : CompileResultMsg) : build unit :=
  job ⇐ look bd_job;
  workaround ⇐ (if str_equal (cr_out crmsg) "" && str_equal (cr_err crmsg) "" then ok false
                else from_res (output_needs_workaround h_machine explicit_no_show_caret job));
  if workaround : bool then raise (remote_error 102)
  else if StdString.contains "file not found" (cr_err crmsg) then raise (remote_error 104)
  else
    _ ⇐ emit (Wrote 1 (cr_out crmsg));
    colors ⇐ from_res (colorify_wanted h_machine explicit_color_diagnostics job);
    emit (Wrote 2 (if colors : bool then colorify_output (cr_err crmsg) else cr_err crmsg)).

Definition dwo_name (output_file : string) : string :=
  (substr output_file 0 (rfind "." output_file) +:+ ".dwo")%string.

Definition receive_result (output : bool) : build Z :=
  msg ⇐ hear_server (12 * 60) false;
  match msg with
  | None => raise (client_error 14)
  | Some msg =>
      _ ⇐ check_for_failure (Some msg);
      match msg with
      | CompileResult crmsg =>
          let status := cr_status crmsg in
          if negb (status =? 0) && cr_was_out_of_memory crmsg then raise (remote_error 101)
          else
            _ ⇐ (if output then show_output crmsg else ok tt);
            job ⇐ look bd_job;
            _ ⇐ require (negb (str_equal (j_output_file job) ""));
            _ ⇐ (if status =? 0 then
                   _ ⇐ receive_file (j_output_file job);
                   if cr_have_dwo_file crmsg then receive_file (dwo_name (j_output_file job)) else ok tt
                 else ok tt);
            ok status
      | _ => raise (client_error 13)
      end
  end.

(** The messages that wait are read before the connection is closed. *)
Fixpoint drain_server (pending : nat) : build unit :=
  match pending with
  | O => ok tt
  | S pending =>
      msg ⇐ hear_server 0 true;
      match msg with None => ok tt | Some _ => drain_server pending end
  end.
Definition drop_server : build unit :=
  o ⇐ look bd_server;
  match o with
  | None => ok tt
  | Some _ => pending ⇐ ask h_pending; _ ⇐ drain_server pending; change (set_bd_server None)
  end.

(** The [port] of [createChannel] is 16 bits wide. *)
Definition build_remote_int (usecs : UseCSMsg) (environment version_file : string)
    (preproc_file : option string) (output : bool) : build Z :=
  _ ⇐ change (fun s => set_bd_job (setEnvironmentVersion environment
                                     (setJobID (ucs_job_id usecs) (bd_job s))) s);
  result ⇐ on_exception (
    cserver ⇐ ask (fun t => h_connect t (ucs_hostname usecs) (ucs_port usecs mod 2 ^ 16) 10);
    _ ⇐ change (set_bd_server cserver);
    match cserver with
    | None => raise (client_error 2)
    | Some _ =>
        _ ⇐ (if ucs_got_env usecs =? 0 then transfer_environment usecs version_file else ok tt);
        _ ⇐ send_job;
        early ⇐ send_source preproc_file;
        match early with
        | Some code => ok (inl code)
        | None =>
            sent ⇐ send_server EndMsg;
            if negb sent then raise (client_error 12)
            else status ⇐ receive_result output; ok (inr status)
        end
    end) drop_server;
  match result with
  | inl code => ok code
  | inr status => _ ⇐ change (set_bd_server None); ok status
  end.

(** ** Compiling here for the daemon *)

Definition msec (t : Z * Z) : Z := t.1 * 1000 + Z.quot t.2 1000.

(** The statistics the daemon passes on. *)
Definition local_stats (job_id ret : Z) (begintv endtv : Z * Z) (ru : (Z * Z) * (Z * Z) * Z)
    (sizes : Z) : JobDoneMsg :=
  let '(utime, stime, faults) := ru in
  mkJobDoneMsg
    (u32 ((endtv.1 - begintv.1) * 1000 + Z.quot (endtv.2 - begintv.2) 1000))
    (u32 (msec utime)) (u32 (msec stime)) (u32 faults) ret FROM_SUBMITTER
    0 0 0 (u32 sizes) (u32 job_id) 0.

(** The exit code when the job was compiled here and the daemon was told so. *)
Definition maybe_build_local (usecs : UseCSMsg) : build (option Z) :=
  _ ⇐ change (set_bd_remote_daemon (ucs_hostname usecs));
  if negb (str_equal (ucs_hostname usecs) "127.0.0.1") then ok None
  else if bool_decide (is_Some (m_getenv h_machine "ICECC_TEST_REMOTEBUILD")) && negb (ucs_port usecs =? 0)
  then ok None
  else
    _ ⇐ change (fun s => set_bd_job (setEnvironmentVersion "__client"
                                       (setJobID (ucs_job_id usecs) (bd_job s))) s);
    job ⇐ look bd_job;
    sent ⇐ send_daemon (CompileFile job);
    if negb sent then raise (client_error 29)
    else
      begintv ⇐ ask h_time;
      ret ⇐ build_local explicit_color_diagnostics job true true;
      endtv ⇐ ask h_time;
      out_size ⇐ ask (fun t => h_stat t (j_output_file job));
      dwo_size ⇐ ask (fun t => h_stat t (dwo_name (j_output_file job)));
      ru ⇐ ask h_rusage;
      told ⇐ send_daemon (JobDone (local_stats (ucs_job_id usecs) ret begintv endtv ru
                                     (default 0 out_size + default 0 dwo_size)));
      ok (if told : bool then Some ret else None).

(** ** A compilation *)

Definition minimalRemoteVersion (job : CompileJob) : Z :=
  let version := MIN_PROTOCOL_VERSION in
  let version := if ignore_unverified then Z.max version 31 else version in
  if j_dwarf_fission job then Z.max version 35 else version.

Definition requiredRemoteFeatures : Z :=
  match m_getenv h_machine "ICECC_ENV_COMPRESSION" with
  | None => 0
  | Some c =>
      Z.lor (if str_equal c "xz" then NODE_FEATURE_ENV_XZ else 0)
        (if str_equal c "zstd" then NODE_FEATURE_ENV_ZSTD else 0)
  end.

Definition preferred_host : string := default ""%string (m_getenv h_machine "ICECC_PREFERRED_HOST").

(** The name the scheduler sees: flags as directories. *)
Definition slashed (l : list string) : string :=
  fold_right (fun a s => ("/" +:+ a +:+ s)%string) ""%string l.

Definition request (envs : Environments) (filename : string) (count features : Z) (job : CompileJob)
  : build GetCSMsg :=
  arg_flags ⇐ from_res (argumentFlags job);
  match new_GetCSMsg envs filename (j_language job) count (j_target_platform job) arg_flags
          preferred_host (minimalRemoteVersion job) features h_niceness 0 with
  | Some getcs => ok getcs
  | None => throw AssertFailed
  end.

Definition build_once (envs : Environments) (version_map versionfile_map : gmap string string) : build Z :=
  job ⇐ look bd_job;
  file ⇐ from_res (get_absfilename (m_cwd h_machine) (j_input_file job));
  getcs ⇐ request envs (slashed (remoteFlags job ++ restFlags job) +:+ file)%string 1
            requiredRemoteFeatures job;
  sent ⇐ send_daemon (GetCS getcs);
  if negb sent then raise (client_error 24)
  else
    usecs ⇐ get_server;
    local ⇐ maybe_build_local usecs;
    match local with
    | Some ret => ok ret
    | None =>
        build_remote_int usecs
          (default ""%string (version_map !! ucs_host_platform usecs))
          (default ""%string (versionfile_map !! ucs_host_platform usecs)) None true
    end.
(** ** A compilation on several servers, to compare them

    The children are the system: each is [child] of a copy of the state. *)

(** What a child exits with; it kills itself when the build throws. *)
Definition child (usecs : UseCSMsg) (version_map versionfile_map : gmap string string)
    (preproc : string) (first : bool) : build Z :=
  local ⇐ maybe_build_local usecs;
  match local with
  | Some ret => ok ret
  | None =>
      build_remote_int usecs
        (default ""%string (version_map !! ucs_host_platform usecs))
        (default ""%string (versionfile_map !! ucs_host_platform usecs)) (Some preproc) first
  end.

(** The outputs of the jobs, the first one being the real one. *)
Fixpoint start_children (n : nat) (output : string) : build (list string) :=
  match n with
  | O => ok []
  | S n =>
      umsg ⇐ get_server;
      _ ⇐ change (set_bd_remote_daemon (ucs_hostname umsg));
      _ ⇐ ask h_fork;
      outputs ⇐ (match n with
                 | O => ok []
                 | S _ => output ⇐ ask h_tmpnam; start_children n output
                 end);
      ok (output :: outputs)
  end.

(** Whether a child was killed, and the exit codes of the others so far. *)
Fixpoint wait_children (n : nat) (exit_codes : list Z) : build (bool * list Z) :=
  match n with
  | O => ok (false, exit_codes)
  | S n =>
      ended ⇐ ask h_wait_any;
      match ended with
      | None => wait_children n exit_codes
      | Some (i, status) =>
          if WIFSIGNALED status then ok (true, exit_codes)
          else wait_children n (<[i := shell_exit_status status]> exit_codes)
      end
  end.

Definition discard (has_split_dwarf : bool) (output_file : string) : build unit :=
  _ ⇐ unlink_file output_file;
  _ ⇐ (if has_split_dwarf then unlink_file (dwo_name output_file) else ok false);
  ok tt.
Fixpoint discard_all (has_split_dwarf : bool) (outputs : list string) : build unit :=
  match outputs with
  | [] => ok tt
  | output :: outputs => _ ⇐ discard has_split_dwarf output; discard_all has_split_dwarf outputs
  end.

Definition caught (file : string) : string := (file +:+ ".caught")%string.

(** The exit code, given those of the other jobs. *)
Fixpoint compare_jobs (has_split_dwarf : bool) (first_md5 preproc output : string) (code : Z)
    (others : list (string * Z)) : build Z :=
  match others with
  | [] => ok code
  | (other, code') :: others =>
      if code =? 0 then
        if code' =? 42 then compare_jobs has_split_dwarf first_md5 preproc output code others
        else if negb (code' =? 0) then
          _ ⇐ discard has_split_dwarf output; ok (-1)
        else
          other_md5 ⇐ ask (fun t => h_md5 t other);
          if negb (str_equal other_md5 first_md5) then
            _ ⇐ rename_file output (caught output);
            _ ⇐ rename_file preproc (caught preproc);
            _ ⇐ (if has_split_dwarf then rename_file (dwo_name output) (caught (dwo_name output)) else ok false);
            ok (-1)
          else
            _ ⇐ discard has_split_dwarf other;
            compare_jobs has_split_dwarf first_md5 preproc output code others
      else
        _ ⇐ discard has_split_dwarf other;
        compare_jobs has_split_dwarf first_md5 preproc output code others
  end.

Definition settle (has_split_dwarf : bool) (preproc : string) (outputs : list string)
    (misc_error : bool) (exit_codes : list Z) : build Z :=
  match outputs, exit_codes with
  | output :: others, code :: codes =>
      ret ⇐ (if misc_error then
               _ ⇐ discard_all has_split_dwarf outputs; ok code
             else
               first_md5 ⇐ ask (fun t => h_md5 t output);
               compare_jobs has_split_dwarf first_md5 preproc output code (zip others codes));
      _ ⇐ unlink_file preproc;
      if misc_error then raise (client_error 27) else ok ret
  | _, _ => throw OutOfBounds
  end.

Definition build_repeatedly (envs : Environments) (torepeat : nat) : build Z :=
  job ⇐ look bd_job;
  let has_split_dwarf := j_dwarf_fission job in
  preproc ⇐ ask h_tmpnam;
  locked ⇐ dcc_lock_host;
  if negb locked then ok EXIT_DISTCC_FAILED
  else with_unlock (
    running ⇐ call_cpp job;
    if negb running then _ ⇐ unlink_file preproc; raise (client_error 10)
    else
      status ⇐ ask h_wait;
      if negb (shell_exit_status status =? 0) then
        _ ⇐ unlink_file preproc; ok (shell_exit_status status)
      else
        _ ⇐ dcc_unlock;
        seed ⇐ ask h_rand;
        _ ⇐ change (fun s => set_bd_job (appendFlag ("-frandom-seed=" +:+ pretty seed)%string Arg_Remote
                                           (bd_job s)) s);
        job ⇐ look bd_job;
        file ⇐ from_res (get_absfilename (m_cwd h_machine) (j_input_file job));
        getcs ⇐ request envs file (Z.of_nat torepeat) 0 job;
        sent ⇐ send_daemon (GetCS getcs);
        if negb sent then raise (client_error 0)
        else
          outputs ⇐ start_children torepeat (j_output_file job);
          ended ⇐ wait_children torepeat (repeat 42 torepeat);
          settle has_split_dwarf preproc outputs ended.1 ended.2).

(** [permill] times out of a thousand a compiler that is not clang is tested. *)
Definition build_remote (_envs : Environments) (permill : Z) : build Z :=
  job ⇐ look bd_job;
  clang ⇐ from_res (compiler_is_clang job);
  torepeat ⇐ (if clang : bool then ok 1%nat
              else r ⇐ ask h_rand; ok (if Z.rem r 1000 <? permill then 3%nat else 1%nat));
  let '(envs, version_map, versionfile_map) := rip_out_paths _envs in
  if bool_decide (envs = []) then raise (client_error 22)
  else match torepeat with
       | 1%nat => build_once envs version_map versionfile_map
       | _ => build_repeatedly envs torepeat
       end.
End remote.
