(* ===== verification/ClientMain.v ===== *)
(** * The client (client/main.cpp)

    What [icecc] does from its command line to its exit code: the connection to
    the daemon, the environment, the build on a server, and the build here when
    that fails or is not wanted. *)

From Stdlib Require Import ZArith Lia.
From Stdlib Require Import Strings.Byte Strings.String.
From stdpp Require Import base tactics option list gmap strings.
From S2P Require Import Prelude ExitCode Effects Paths StdString MsgChannel CompileJob Msg Interface Transport Compilers Arguments Client RemoteBuild.

#[local] Open Scope Z_scope.
#[local] Open Scope icecc_scope.

Section main.
Context `{Channels} `{Host}.
(** [determine_platform()], and [access(X_OK)]. *)
Context (platform : string) (executable : string -> bool).

(** ** Building an environment *)

Definition bindir_create_env (bindir : string) : string := (bindir +:+ "/icecc-create-env")%string.

(** The command; [None] when there is no such compiler. *)
Definition create_native (bindir : string) (args : list string) : res (option (list string)) :=
  let m := h_machine in
  let compiler := if is_prefix (bytes_of "Darwin") (bytes_of platform) then "clang" else "gcc"%string in
  let found :=
    match args with
    | [] => Ok (compiler, [])
    | a :: rest =>
        if str_equal a "clang" || str_equal a "gcc" then Ok (a, rest)
        else if m_readable m a && negb (executable a) then Ok (compiler, args)
        else
          match get_c_compiler a with
          | Ok c => match compiler_path_lookup m c with Ok c => Ok (c, rest) | Fault f => Fault f end
          | Fault f => Fault f
          end
    end in
  match found with
  | Fault f => Fault f
  | Ok (compiler, extrafiles) =>
      if str_equal compiler "" then Ok None
      else Ok (Some (bindir_create_env bindir :: compiler
             :: concat (map (fun file => ["--addfile"%string; file]) extrafiles)
             ++ match m_getenv m "ICECC_ENV_COMPRESSION" with
                | Some c => ["--compression"%string; c]
                | None => []
                end))
  end.

(** ** The daemon of the machine *)

Definition env_or (name otherwise : string) : string := default otherwise (m_getenv h_machine name).

(** Sockets to be tried in turn. *)
Fixpoint first_socket (paths : list string) : build (option MsgChannel) :=
  match paths with
  | [] => ok None
  | path :: paths =>
      c ⇐ ask (fun t => h_connect_socket t path);
      match c with Some c => ok (Some c) | None => first_socket paths end
  end.

Definition socket_paths : list string :=
  match m_getenv h_machine "ICECC_SOCKET_PATH" with Some path => [path] | None => [] end
  ++ [env_or "ICECC_SOCKET_PATH1" "/var/run/icecc/iceccd.socket";
      env_or "ICECC_SOCKET_PATH2" "/var/run/iceccd.socket"]
  ++ match m_getenv h_machine "HOME" with
     | Some home => [(home +:+ "/.iceccd.socket")%string]
     | None => []
     end.

Definition get_local_daemon : build (option MsgChannel) :=
  match m_getenv h_machine "ICECC_TEST_SOCKET" with
  | Some path =>
      c ⇐ ask (fun t => h_connect_socket t path);
      match c with Some c => ok (Some c) | None => raise (exited EXIT_TEST_SOCKET_ERROR) end
  | None =>
      c ⇐ first_socket socket_paths;
      match c with
      | Some c => ok (Some c)
      | None =>
          let tcp_port := match m_getenv h_machine "ICECC_DAEMON_PORT" with
                          | Some port => atoi (bytes_of port)
                          | None => 10245
                          end in
          ask (fun t => h_connect t (env_or "ICECC_DAEMON_HOST" "127.0.0.1") (tcp_port mod 2 ^ 16) 0)
      end
  end.

(** ** The command line *)

Inductive start : Type :=
| Show_usage | Show_version
| Build_native (args : list string)
| Build_job (job : CompileJob) (icerun : bool).

Definition named (arg : string) (job : CompileJob) : CompileJob :=
  if str_equal arg "" then job else setCompilerPathname arg (setCompilerName arg job).

Definition read_command (argv : list string) : res start :=
  match argv with
  | [] => Fault NullDeref
  | compiler_name :: args =>
      let job := new_CompileJob platform in
      let job := if str_equal (m_cwd h_machine) "" then job
                 else setWorkingDirectory (m_cwd h_machine) job in
      if str_equal (find_basename compiler_name) "icecc" then
        Ok match args with
           | [] => Build_job job false
           | arg :: args =>
               if str_equal arg "--help" then Show_usage
               else if str_equal arg "--version" then Show_version
               else if str_equal arg "--build-native" then Build_native args
               else Build_job (named arg job) false
           end
      else if str_equal (find_basename compiler_name) "icerun" then
        Ok match args with
           | [] => Build_job job true
           | arg :: _ =>
               if str_equal arg "--help" then Show_usage
               else if str_equal arg "--version" then Show_version
               else Build_job (named arg job) true
           end
      else
        Ok (Build_job job match m_readlink h_machine compiler_name with
                          | Some resolved => str_equal (find_basename resolved) "icerun"
                          | None => false
                          end)
  end.

(** [ICECC_EXTRAFILES]: the files found before one that is missing, and whether
    one is. *)
Fixpoint more_extrafiles (files : list (list byte)) (extrafiles : list string) : res (bool * list string) :=
  match files with
  | [] => Ok (false, extrafiles)
  | file :: files =>
      match get_absfilename (m_cwd h_machine) (str_of file) with
      | Fault f => Fault f
      | Ok file =>
          match m_stat h_machine file with
          | Some _ => more_extrafiles files (extrafiles ++ [file])
          | None => Ok (true, extrafiles)
          end
      end
  end.

(** ** Environments *)

(** The environment the daemon makes of the compiler: none, and whether the job
    is therefore local, or the only one. *)
Definition ask_native (job : CompileJob) (extrafiles : list string) : build (bool * Environments) :=
  absolute ⇐ on_local (gets (is_protocol_version 41));
  compiler ⇐ (if absolute : bool then
                from_res (res_bind (find_compiler h_machine job) (get_absfilename (m_cwd h_machine)))
              else
                clang ⇐ from_res (compiler_is_clang job); ok (if clang : bool then "clang" else "gcc")%string);
  sent ⇐ send_daemon (GetNativeEnv (mkGetNativeEnvMsg compiler extrafiles
                                      (env_or "ICECC_ENV_COMPRESSION" "")));
  umsg ⇐ (if sent : bool then hear_daemon (4 * 60) else ok None);
  let native := match umsg with Some (UseNativeEnv native) => native | _ => ""%string end in
  ok (negb sent,
      if str_equal native "" || negb (m_readable h_machine native) then []
      else [(j_target_platform job, native)]).

(** The environments, and whether the job is built here. *)
Definition find_environments (job : CompileJob) (extrafiles : list string) : build (bool * Environments) :=
  found ⇐ (match m_getenv h_machine "ICECC_VERSION" with
           | Some _ =>
               envs ⇐ from_res (parse_icecc_version h_machine (j_target_platform job)
                                  (find_prefix (j_compiler_name job)));
               ok (false, envs)
           | None =>
               handles ⇐ on_local (gets (is_protocol_version 32));
               if negb (bool_decide (extrafiles = [])) && negb handles then ok (true, [])
               else ask_native job extrafiles
           end);
  let envs := found.2 in
  ok (found.1 || bool_decide (envs = [])
      || negb (forallb (fun env => m_readable h_machine env.2) envs), envs).

(** ** Building *)

(** The try block of [main]: [None] when the job is built here after all. *)
Definition try_remote (explicit_color explicit_no_caret : bool) (envs : Environments) : build (option Z) :=
  let rate := match m_getenv h_machine "ICECC_REPEAT_RATE" with
              | Some s => atoi (bytes_of s)
              | None => 0
              end in
  r ← build_remote explicit_color explicit_no_caret envs rate;
  match r with
  | inr ret => _ ⇐ (if ret =? 0 then send_daemon EndMsg else ok true); ok (Some ret)
  | inl (client_error _) | inl (remote_error _) => ok None
  | inl e => raise e
  end.

(** The daemon says when the compilation may begin. *)
Definition build_here (explicit_color fulljob : bool) : build Z :=
  job ⇐ look bd_job;
  outfile ⇐ from_res (get_absfilename (m_cwd h_machine) (j_output_file job));
  now ⇐ ask h_time;
  sent ⇐ send_daemon (JobLocalBegin (mkJobLocalBeginMsg outfile (u32 now.1) 0 fulljob (u32 h_niceness)));
  startme ⇐ (if sent : bool then hear_daemon (if fulljob then 120 * 60 else 40 * 60) else ok None);
  match startme with
  | Some (JobLocalBegin _) =>
      ret ⇐ build_local explicit_color job true true;
      _ ⇐ change (set_bd_local None);
      ok ret
  | _ =>
      _ ⇐ change (set_bd_local None);
      build_local explicit_color job false false
  end.

Definition build_alone (explicit_color : bool) : build Z :=
  job ⇐ look bd_job; build_local explicit_color job false false.

Definition distribute (a : analysis) (fulljob : bool) (envs : Environments) : build Z :=
  result ⇐ try_remote (an_color a) (an_no_caret a) envs;
  match result with
  | Some ret => _ ⇐ change (set_bd_local None); ok ret
  | None =>
      _ ⇐ change (set_bd_local None);
      local_daemon ⇐ get_local_daemon;
      _ ⇐ change (set_bd_local local_daemon);
      match local_daemon with
      | None => build_alone (an_color a)
      | Some _ => build_here (an_color a) fulljob
      end
  end.

Definition run_job (a : analysis) (always_local fulljob : bool) : build Z :=
  let icecc := m_getenv h_machine "ICECC" in
  let icecc_is (v : string) := match icecc with
                               | Some i => same_nocase (bytes_of i) (bytes_of v)
                               | None => false
                               end in
  _ ⇐ change (set_bd_job (an_job a));
  if icecc_is "disable" then build_alone (an_color a)
  else
    local_daemon ⇐ look bd_local;
    match local_daemon with
    | None => build_alone (an_color a)
    | Some _ =>
        more ⇐ from_res (match m_getenv h_machine "ICECC_EXTRAFILES" with
                         | Some files => more_extrafiles (pieces x3a (bytes_of files)) (an_extrafiles a)
                         | None => Ok (false, an_extrafiles a)
                         end);
        if always_local || icecc_is "no" || more.1 then build_here (an_color a) fulljob
        else
          found ⇐ find_environments (an_job a) more.2;
          if found.1 : bool then build_here (an_color a) fulljob
          else distribute a fulljob found.2
    end.

(** [main], after the expansion of response files. *)
Definition main (bindir : string) (argv : list string) : build Z :=
  command ⇐ from_res (read_command argv);
  match command with
  | Show_usage | Show_version => ok 0
  | Build_native args =>
      native ⇐ from_res (create_native bindir args);
      match native with Some argv => raise (became argv) | None => ok 1 end
  | Build_job job icerun =>
      if SafeguardMaxLevel <=? dcc_recursion_safeguard h_machine then ok EXIT_RECURSION
      else
        let disabled := match m_getenv h_machine "ICECC" with
                        | Some icecc => same_nocase (bytes_of icecc) (bytes_of "disable")
                        | None => false
                        end in
        local_daemon ⇐ (if disabled then ok None else get_local_daemon);
        _ ⇐ change (set_bd_local local_daemon);
        analysed ⇐ from_res (analyse_argv h_machine argv job icerun []);
        let argv_result := z_of_bool analysed.1 in
        let always_local := negb (Z.land argv_result AlwaysLocal =? 0) in
        run_job analysed.2 always_local
          (always_local && negb (Z.land argv_result FullJob =? 0))
  end.
End main.
