(* ===== verification/ClientFacts.v ===== *)
(** * What a client says and writes

    A small logic for computations of the client: what they return or throw, what
    can be observed meanwhile, and the state they end in. *)

From Stdlib Require Import ZArith Lia.
From Stdlib Require Import Strings.Byte Strings.String.
From stdpp Require Import base tactics option list gmap strings.
From S2P Require Import Prelude Effects StdString MsgChannel CompileJob Msg Interface Compilers Client.

#[local] Open Scope Z_scope.
#[local] Open Scope icecc_scope.

Abbreviation yields := (yields_in bd_effects).

Section rules.
Context {A B : Type}.
Implicit Types (m : build A) (s : Build).

Lemma yields_ask (q : nat -> A) (k : A -> build B) s Q :
  (forall t, yields (k (q t)) (set_bd_asked (S (bd_asked s)) s) Q) -> yields (ebind (ask q) k) s Q.
Proof. intros Hk r s' E. by apply (Hk (bd_asked s)). Qed.

Lemma yields_emit e (k : unit -> build B) s Q :
  yields (k tt) (set_bd_effects (bd_effects s ++ [e]) s) (fun r l s' => Q r (e :: l) s') ->
  yields (ebind (emit e) k) s Q.
Proof. intros Hk. by apply (yields_record e (fun s => set_bd_effects (bd_effects s ++ [e]) s)). Qed.

End rules.

Lemma yields_emitted e s (Q : client_exn + unit -> list client_effect -> Build -> Prop) :
  Q (inr tt) [e] (set_bd_effects (bd_effects s ++ [e]) s) -> yields (emit e) s Q.
Proof. intros HQ r s' E. injection E as <- <-. by exists [e]. Qed.

(** ** Messages *)

(** What a message on a connection leaves alone. *)
Definition beside (s s' : Build) : Prop :=
  bd_files s' = bd_files s /\ bd_job s' = bd_job s /\ bd_lock_fd s' = bd_lock_fd s.

Lemma beside_refl s : beside s s.
Proof. by repeat split. Qed.
Lemma beside_trans s s1 s2 : beside s s1 -> beside s1 s2 -> beside s s2.
Proof. intros (? & ? & ?) (? & ? & ?). repeat split; congruence. Qed.

Lemma on_server_eq {A} (r : reader A) s :
  on_server r s = match bd_server s with
                  | None => Fault NullDeref
                  | Some c => match r c with
                              | Ok (a, c') => Ok (inr a, set_bd_server (Some c') s)
                              | Fault f => Fault f
                              end
                  end.
Proof.
  unfold on_server, ebind, look, run_io, mbind, M_bind, fmap, M_fmap. cbn.
  destruct (bd_server s); [|done]. destruct (r m) as [[a c]|f]; done.
Qed.
Lemma on_local_eq {A} (r : reader A) s :
  on_local r s = match bd_local s with
                 | None => Fault NullDeref
                 | Some c => match r c with
                             | Ok (a, c') => Ok (inr a, set_bd_local (Some c') s)
                             | Fault f => Fault f
                             end
                 end.
Proof.
  unfold on_local, ebind, look, run_io, mbind, M_bind, fmap, M_fmap. cbn.
  destruct (bd_local s); [|done]. destruct (r m) as [[a c]|f]; done.
Qed.

Section talk.
Context {A B : Type}.
Implicit Types (k : A -> build B) (s : Build).

Lemma yields_on_server (r : reader A) k s Q :
  (forall a s1, bd_effects s1 = bd_effects s -> beside s s1 -> yields (k a) s1 Q) ->
  yields (ebind (on_server r) k) s Q.
Proof.
  intros Hk res s' E. unfold ebind, mbind, M_bind in E. rewrite on_server_eq in E.
  destruct (bd_server s) as [c|]; [|discriminate E].
  destruct (r c) as [[a c']|f]; [|discriminate E].
  by apply (Hk a (set_bd_server (Some c') s)) in E.
Qed.
Lemma yields_on_local (r : reader A) k s Q :
  (forall a s1, bd_effects s1 = bd_effects s -> beside s s1 -> yields (k a) s1 Q) ->
  yields (ebind (on_local r) k) s Q.
Proof.
  intros Hk res s' E. unfold ebind, mbind, M_bind in E. rewrite on_local_eq in E.
  destruct (bd_local s) as [c|]; [|discriminate E].
  destruct (r c) as [[a c']|f]; [|discriminate E].
  by apply (Hk a (set_bd_local (Some c') s)) in E.
Qed.
End talk.

Section talks.
Context `{Channels} {B : Type}.
Implicit Types (s : Build).

(** A step followed by an observation. *)
Lemma yields_observed {A} (m : build A) (e : A -> client_effect) (k : A -> build B) s Q :
  (forall P, (forall a s1, bd_effects s1 = bd_effects s -> beside s s1 -> yields ((_ ⇐ emit (e a); ok a) : build A) s1 P) ->
     yields (ebind m (fun a => _ ⇐ emit (e a); ok a)) s P) ->
  (forall a s1, beside s s1 -> yields (k a) s1 (fun r l s' => Q r (e a :: l) s')) ->
  yields (ebind (a ⇐ m; _ ⇐ emit (e a); ok a) k) s Q.
Proof.
  intros Hm Hk. eapply (yields_bind _ _ _ (fun r l s' => exists a, r = inr a /\ l = [e a] /\ beside s s')).
  - apply Hm. intros a s1 _ Hb. apply yields_emit, yields_ok. by exists a.
  - intros a l s1 (a' & E & -> & Hb). injection E as ->. eapply yields_weaken; [by apply Hk|done].
  - by intros x l s1 (a & E & _).
Qed.

Lemma yields_send_server m (k : bool -> build B) s Q :
  (forall b s1, beside s s1 -> yields (k b) s1 (fun r l s' => Q r (To_server m b :: l) s')) ->
  yields (ebind (send_server m) k) s Q.
Proof. intros. by apply yields_observed; [intros; apply yields_on_server|]. Qed.
Lemma yields_send_daemon m (k : bool -> build B) s Q :
  (forall b s1, beside s s1 -> yields (k b) s1 (fun r l s' => Q r (To_daemon m b :: l) s')) ->
  yields (ebind (send_daemon m) k) s Q.
Proof. intros. by apply yields_observed; [intros; apply yields_on_local|]. Qed.
Lemma yields_hear_server t e (k : option Msg -> build B) s Q :
  (forall m s1, beside s s1 -> yields (k m) s1 (fun r l s' => Q r (From_server m :: l) s')) ->
  yields (ebind (hear_server t e) k) s Q.
Proof. intros. by apply yields_observed; [intros; apply yields_on_server|]. Qed.
Lemma yields_hear_daemon t (k : option Msg -> build B) s Q :
  (forall m s1, beside s s1 -> yields (k m) s1 (fun r l s' => Q r (From_daemon m :: l) s')) ->
  yields (ebind (hear_daemon t) k) s Q.
Proof. intros. by apply yields_observed; [intros; apply yields_on_local|]. Qed.
End talks.
