(* ===== verification/FileTransfer.v ===== *)
(** * Files over a connection

    Sending and receiving a file (client/remote.cpp): what is sent and when it
    ends, and what is in the files that are written. *)

From Stdlib Require Import ZArith Lia.
From Stdlib Require Import Strings.Byte Strings.String.
From stdpp Require Import base tactics option list gmap strings.
From S2P Require Import Prelude Effects Paths StdString MsgChannel CompileJob Msg MsgCodec Interface Transport Connection ChannelImpl Compilers Client RemoteBuild ClientFacts Files.

#[local] Open Scope Z_scope.
#[local] Open Scope icecc_scope.

(** The messages heard from the server, and those sent to it. *)
Definition heard (l : list client_effect) : list (option Msg) :=
  omap (fun e => match e with From_server m => Some m | _ => None end) l.
Definition said (l : list client_effect) : list (Msg * bool) :=
  omap (fun e => match e with To_server m b => Some (m, b) | _ => None end) l.

Lemma heard_app l l' : heard (l ++ l') = heard l ++ heard l'.
Proof. apply omap_app. Qed.
Lemma said_app l l' : said (l ++ l') = said l ++ said l'.
Proof. apply omap_app. Qed.

Lemma heard_from m l : heard (From_server m :: l) = m :: heard l.
Proof. done. Qed.
Lemma heard_to m b l : heard (To_server m b :: l) = heard l.
Proof. done. Qed.
Lemma said_from m l : said (From_server m :: l) = said l.
Proof. done. Qed.
Lemma said_to m b l : said (To_server m b :: l) = (m, b) :: said l.
Proof. done. Qed.
Lemma heard_nil : heard [] = [].
Proof. done. Qed.
Lemma said_nil : said [] = [].
Proof. done. Qed.
#[global] Arguments heard : simpl never.
#[global] Arguments said : simpl never.
#[export] Hint Rewrite heard_app said_app heard_from heard_to said_from said_to heard_nil said_nil
  @app_nil_r @app_nil_l : icc.

(** ** Computations without the server

    They say nothing to it, and leave the job, the files and the connection. *)

Definition apart (s s' : Build) : Prop :=
  bd_files s' = bd_files s /\ bd_job s' = bd_job s /\ bd_server s' = bd_server s.
Definition quiet {A} (m : build A) : Prop :=
  forall s, yields m s (fun r l s' => said l = [] /\ heard l = [] /\ apart s s').

Definition unheard (e : client_effect) : bool :=
  match e with To_server _ _ | From_server _ => false | _ => true end.

Section quiet.
Context {A B : Type}.
Lemma quiet_ok (a : A) : quiet (ok a).
Proof. intros s. by apply yields_ok. Qed.
Lemma quiet_raise e : quiet (raise (A := A) e).
Proof. intros s. by apply yields_raise. Qed.
Lemma quiet_throw f : quiet (throw f : build A).
Proof. intros s. apply yields_throw. Qed.
Lemma quiet_bind (m : build A) (k : A -> build B) :
  quiet m -> (forall a, quiet (k a)) -> quiet (ebind m k).
Proof.
  intros Hm Hk s. eapply yields_bind; [apply Hm|..]; cbn; [|tauto].
  intros a l s1 (El & El' & Ef & Ej & Es). eapply yields_weaken; [apply Hk|]. cbn.
  intros r l' s2 (E & E' & Ef' & Ej' & Es'). autorewrite with icc.
  rewrite El, El', E, E'. repeat split; congruence.
Qed.
Lemma quiet_look (f : Build -> A) : quiet (look f).
Proof. intros s r s' E. injection E as <- <-. exists []. by rewrite app_nil_r. Qed.
Lemma quiet_ask (q : nat -> A) : quiet (ask q).
Proof. intros s r s' E. injection E as <- <-. exists []. by rewrite app_nil_r. Qed.
Lemma quiet_emit e : unheard e = true -> quiet (emit e).
Proof. intros He s r s' E. injection E as <- <-. exists [e]. by destruct e. Qed.
Lemma quiet_change (f : Build -> Build) :
  (forall s, bd_effects (f s) = bd_effects s /\ apart s (f s)) -> quiet (change f).
Proof.
  intros Hf s r s' E. injection E as <- <-. exists []. destruct (Hf s) as [-> Ha].
  by rewrite app_nil_r.
Qed.
Lemma quiet_from_res (x : res A) : quiet (from_res x).
Proof. destruct x; [apply quiet_ok|apply quiet_throw]. Qed.
End quiet.
Lemma quiet_require b : quiet (require b).
Proof. destruct b; [apply quiet_ok|apply quiet_throw]. Qed.

#[export] Hint Resolve quiet_ok quiet_raise quiet_throw quiet_look quiet_ask quiet_from_res quiet_require : icc.
#[export] Hint Extern 1 (quiet (emit _)) => by apply quiet_emit : icc.
#[export] Hint Extern 1 (quiet (change _)) => by apply quiet_change; intros; repeat split : icc.

(** Proves that a computation is quiet. *)
Ltac hush :=
  repeat (intros; match goal with
  | |- quiet (ebind _ _) => apply quiet_bind
  | |- quiet (match ?b with _ => _ end) => destruct b
  | |- quiet _ => solve [auto with icc]
  end).

Lemma quiet_with_unlock `{Host} {A} (m : build A) : quiet m -> quiet (with_unlock m).
Proof.
  intros Hm s r s' E. apply bind_inv in E as (r1 & s1 & E1 & E2).
  destruct (Hm _ _ _ E1) as (l1 & El1 & Hs1 & Hh1 & Ha1 & Hb1 & Hc1).
  apply bind_inv in E2 as (r2 & s2 & E2 & E3).
  assert (s2 = s') as -> by (destruct r2; by injection E3).
  assert (quiet dcc_unlock) as Hu by (unfold dcc_unlock; hush).
  destruct (Hu _ _ _ E2) as (l2 & El2 & Hs2 & Hh2 & Ha2 & Hb2 & Hc2).
  exists (l1 ++ l2). rewrite El2, El1, app_assoc. autorewrite with icc.
  rewrite Hs1, Hs2, Hh1, Hh2. repeat split; congruence.
Qed.

Section quiet_ops.
Context `{Host}.
Lemma quiet_unlock : quiet dcc_unlock.
Proof. unfold dcc_unlock. hush. Qed.
Lemma quiet_slot fname lock block : quiet (dcc_lock_host_slot fname lock block).
Proof. unfold dcc_lock_host_slot. hush. Qed.
Lemma quiet_try_slots fname lock n : quiet (try_slots fname lock n).
Proof. revert lock. induction n; intros lock; cbn; hush; auto using quiet_slot. Qed.
#[local] Hint Resolve quiet_slot quiet_try_slots : icc.
Lemma quiet_lock_host : quiet dcc_lock_host.
Proof. unfold dcc_lock_host. hush. Qed.
Lemma quiet_call_cpp job : quiet (call_cpp job).
Proof. unfold call_cpp. hush. Qed.
End quiet_ops.
#[export] Hint Resolve quiet_unlock quiet_lock_host quiet_call_cpp : icc.

(** ** Sending a file *)

(** The pieces a file is sent in: none is empty, and all but the last are as
    large as the buffer. *)
Definition cut (cs : list (list byte)) : Prop :=
  Forall (fun c => 0 < Z.of_nat (length c) <= chunk_size) cs /\
  Forall (fun c => Z.of_nat (length c) = chunk_size) (removelast cs).

Lemma cut_cons c cs : Z.of_nat (length c) = chunk_size -> cut cs -> cut (c :: cs).
Proof.
  intros Hc [Ha Hr]. split; [constructor; [rewrite Hc; done|done]|].
  destruct cs; [constructor|]. by constructor.
Qed.

Section sending.
Context `{Channels} `{Host}.

Lemma check_status m s Q :
  (forall e, Q (inl e) [] s) -> Q (inr tt) [] s -> yields (check_for_failure m) s Q.
Proof.
  intros He Hok. unfold check_for_failure.
  destruct m as [[]|]; (apply yields_ok || apply yields_raise); auto.
Qed.

(** What a part of the conversation leaves alone. *)
Definition aside (s s' : Build) : Prop := bd_files s' = bd_files s /\ bd_job s' = bd_job s.
Lemma aside_beside s s1 : beside s s1 -> aside s s1.
Proof. by intros (? & ? & _). Qed.
Lemma aside_trans s s1 s2 : aside s s1 -> aside s1 s2 -> aside s s2.
Proof. intros (? & ?) (? & ?). split; congruence. Qed.
Lemma aside_apart s s1 : apart s s1 -> aside s s1.
Proof. by intros (? & ? & _). Qed.
#[local] Hint Resolve aside_beside aside_trans aside_apart : core.

(** The messages that were sent, where the call returned. *)
Definition sends (m : build unit) (s : Build) (P : list (Msg * bool) -> Prop) : Prop :=
  yields m s (fun r l s' => aside s s' /\ match r with inr _ => P (said l) /\ heard l = [] | inl _ => True end).

(** After a quiet computation. *)
Lemma yields_quiet {A B} (m : build A) (k : A -> build B) s Q :
  quiet m ->
  (forall a l s1, said l = [] -> heard l = [] -> apart s s1 ->
     yields (k a) s1 (fun r l' s' => Q r (l ++ l') s')) ->
  (forall e l s1, said l = [] -> heard l = [] -> apart s s1 -> Q (inl e) l s1) ->
  yields (ebind m k) s Q.
Proof.
  intros Hm Hk He. eapply yields_bind; [apply Hm|..]; cbn.
  - intros a l s1 (? & ? & ?). by apply Hk.
  - intros e l s1 (? & ? & ?). by apply He.
Qed.

Lemma send_chunk_spec bs u s : sends (send_chunk bs u) s (fun l => l = [(chunk bs, true)]).
Proof.
  apply yields_quiet; [destruct u; auto with icc| |naive_solver].
  intros _ l s1 Hl Hh Ha. apply yields_send_server. intros sent s2 Hb.
  assert (aside s s2) as Hs2 by eauto.
  destruct sent; cbn [negb]; cycle 1.
  { apply yields_hear_server. intros m s3 Hb3.
    assert (aside s s3) as Hs3 by eauto.
    eapply yields_bind; [by apply (check_status _ _ (fun r l s' => aside s s' /\ l = []))|..]; cbn.
    - intros _ l' s4 [Hs4 ->]. apply yields_raise. done.
    - intros e l' s4 [Hs4 ->]. done. }
  destruct u.
  - apply yields_quiet; [auto with icc| |].
    + intros locked l' s3 Hl' Hh' Ha'. assert (aside s s3) by eauto.
      destruct locked; cbn [negb].
      * apply yields_ok. split; [done|]. autorewrite with icc. by rewrite Hl, Hl', Hh, Hh'.
      * by apply yields_raise.
    + intros e l' s3 Hl' Hh' Ha'. split; [by eauto|done].
  - apply yields_ok. split; [done|]. autorewrite with icc. by rewrite Hl, Hh.
Qed.
Lemma sends_bind (m : build unit) (k : unit -> build unit) s (P Q : list (Msg * bool) -> Prop) :
  sends m s P ->
  (forall s1 l, aside s s1 -> P l -> sends (k tt) s1 (fun l' => Q (l ++ l'))) ->
  sends (ebind m k) s Q.
Proof.
  intros Hm Hk. eapply yields_bind; [apply Hm|..]; cbn; [|tauto].
  intros [] l s1 [Ha [HP Hh]]. eapply yields_weaken; [by apply (Hk s1 (said l))|]. cbn.
  intros r l' s2 [Ha' Hr]. split; [by eauto|]. destruct r; [done|].
  autorewrite with icc. rewrite Hh. exact Hr.
Qed.
Lemma sends_ok s (P : list (Msg * bool) -> Prop) : P [] -> sends (ok tt) s P.
Proof. intros HP. by apply yields_ok. Qed.
Lemma sends_raise e s P : sends (raise e) s P.
Proof. by apply yields_raise. Qed.
Lemma sends_throw f s P : sends (throw f) s P.
Proof. apply yields_throw. Qed.
Lemma sends_weaken (m : build unit) s (P Q : list (Msg * bool) -> Prop) :
  sends m s P -> (forall l, P l -> Q l) -> sends m s Q.
Proof.
  intros Hm HPQ. eapply yields_weaken; [apply Hm|]. cbn. intros r l s' [Ha Hr].
  split; [done|]. destruct r; [done|]. destruct Hr. auto.
Qed.

(** What was sent of a file with some bytes in the buffer. *)
Definition pieces_of (data : list byte) (l : list (Msg * bool)) : Prop :=
  exists cs, l = map (fun c => (chunk c, true)) cs /\ concat cs = data /\ cut cs.

Lemma pieces_of_last bs : bs <> [] -> Z.of_nat (length bs) <= chunk_size -> pieces_of bs [(chunk bs, true)].
Proof.
  intros Hne Hl. exists [bs]. split_and!; [done|apply app_nil_r|].
  assert (length bs <> 0%nat) by (by destruct bs).
  split; [repeat constructor; lia|constructor].
Qed.
Lemma pieces_of_cons bs data l :
  Z.of_nat (length bs) = chunk_size -> pieces_of data l -> pieces_of (bs ++ data) ((chunk bs, true) :: l).
Proof. intros Hl (cs & -> & <- & Hc). exists (bs :: cs). auto using cut_cons. Qed.

(** One round, and what follows it. *)
Definition write_round (next : list byte -> list (option (list byte)) -> build unit)
    (buffer : list byte) (reads : list (option (list byte))) (u : bool) : build unit :=
  match read_some (chunk_size - Z.of_nat (length buffer)) reads with
  | (None, _) => raise (client_error 16)
  | (Some bytes, reads) =>
      let buffer := buffer ++ bytes in
      if bool_decide (bytes = []) then
        if bool_decide (buffer = []) then ok tt else send_chunk buffer u
      else if Z.of_nat (length buffer) =? chunk_size then _ ⇐ send_chunk buffer u; next [] reads
      else next buffer reads
  end.

Lemma ebind_ok {A} (m : build unit) (k : build A) s : (_ ⇐ ok tt; k) s = k s.
Proof. done. Qed.

Lemma write_loop_round fuel buffer reads u s :
  write_loop fuel buffer reads u s =
  write_round (fun b reads => match fuel with
                              | O => throw Aborted
                              | S fuel => write_loop fuel b reads u
                              end) buffer reads u s.
Proof.
  assert (forall m : build unit, ebind m (fun _ => ok tt) s = m s) as Hr.
  { intros m. unfold ebind, mbind, M_bind. destruct (m s) as [[[e|[]] s1]|f]; reflexivity. }
  destruct fuel; cbn [write_loop]; unfold write_round;
    destruct (read_some _ reads) as [[bs|] reads']; try reflexivity; cbv zeta;
    (destruct (decide (bs = [])) as [->|Hne];
     [rewrite !bool_decide_eq_true_2 by done; cbn [orb]; rewrite app_nil_r; case_goal;
      [done|by rewrite Hr]
     |rewrite (bool_decide_eq_false_2 (bs = [])) by done; cbn [orb];
      rewrite (bool_decide_eq_false_2 (buffer ++ bs = [])); [done|by intros [_ ?]%app_nil]]).
Qed.

Lemma write_round_spec next buffer reads u s :
  Z.of_nat (length buffer) < chunk_size ->
  (forall b reads s1, Z.of_nat (length b) < chunk_size ->
     sends (next b reads) s1 (pieces_of (b ++ file_data reads))) ->
  sends (write_round next buffer reads u) s (pieces_of (buffer ++ file_data reads)).
Proof.
  intros Hl Hnext. unfold write_round.
  destruct (read_some _ reads) as [[bs|] reads'] eqn:Er; [|apply sends_raise].
  apply read_some_data in Er as (Hle & Hnil & Hcons & _); [|lia]. cbv zeta.
  destruct (decide (bs = [])) as [->|Hne].
  - rewrite bool_decide_eq_true_2, Hnil, !app_nil_r by done.
    case_bool_decide as Hb.
    + subst. apply sends_ok. exists []. by repeat split.
    + eapply sends_weaken; [apply send_chunk_spec|]. intros l ->. apply pieces_of_last; [done|lia].
  - rewrite bool_decide_eq_false_2, Hcons, app_assoc by done.
    destruct (_ =? chunk_size) eqn:Ef; boolify; [|apply Hnext; rewrite length_app in *; lia].
    eapply sends_bind; [apply send_chunk_spec|]. intros s1 l _ ->.
    eapply sends_weaken; [apply (Hnext []); done|]. intros l' Hl'. by apply pieces_of_cons.
Qed.

Lemma write_loop_spec fuel buffer reads u s :
  Z.of_nat (length buffer) < chunk_size ->
  sends (write_loop fuel buffer reads u) s (pieces_of (buffer ++ file_data reads)).
Proof.
  revert buffer reads s. induction fuel as [|fuel IH]; intros buffer reads s Hl r s' E;
    rewrite write_loop_round in E; revert r s' E; by apply write_round_spec.
Qed.
End sending.

(** ** Sending ends *)

Section returning.
Context `{ChannelsReturn} `{!ChannelsAnswer} `{Host}.
Context (some_cpu : h_ncpus <> 0).

(** The computation returns or throws, still connected to the server. *)
Definition ends {A} (m : build A) (s : Build) : Prop := runs m s (fun _ s' => is_Some (bd_server s')).

Lemma runs_asking {A B} (q : nat -> A) (k : A -> build B) s Q :
  (forall t, runs (k (q t)) (set_bd_asked (S (bd_asked s)) s) Q) -> runs (ebind (ask q) k) s Q.
Proof. intros Hk. exact (Hk (bd_asked s)). Qed.
Lemma runs_emit {B} e (k : unit -> build B) s Q :
  runs (k tt) (set_bd_effects (bd_effects s ++ [e]) s) Q -> runs (ebind (emit e) k) s Q.
Proof. done. Qed.
Lemma runs_send_server m (k : bool -> build unit) s Q :
  is_Some (bd_server s) ->
  (forall b s1, beside s s1 -> is_Some (bd_server s1) -> runs (k b) s1 Q) ->
  runs (ebind (send_server m) k) s Q.
Proof.
  intros [c Hc] Hk. destruct (ch_send_returns m SendBlocking c) as (b & c' & E).
  apply runs_ebind, runs_ebind. unfold runs at 1. rewrite on_server_eq, Hc, E.
  do 2 eexists. split; [done|]. eapply runs_ok; [done|]. by apply Hk.
Qed.
Lemma ends_hear_server t e (k : option Msg -> build unit) s :
  is_Some (bd_server s) ->
  (forall m s1, is_Some (bd_server s1) -> ends (k m) s1) -> ends (ebind (hear_server t e) k) s.
Proof.
  intros [c Hc] Hk. destruct (ch_get_returns t e c) as (m & c' & E).
  apply runs_ebind, runs_ebind. unfold runs at 1. rewrite on_server_eq, Hc, E.
  do 2 eexists. split; [done|]. eapply runs_ok; [done|]. by apply Hk.
Qed.

Lemma runs_slot fname lock block (k : bool -> build bool) s Q :
  (forall b s1, bd_server s1 = bd_server s -> runs (k b) s1 Q) ->
  runs (ebind (dcc_lock_host_slot fname lock block) k) s Q.
Proof.
  intros Hk. apply runs_ebind, runs_asking. intros t.
  destruct (h_lockfile _ _ _); [apply runs_change|]; by apply runs_done, Hk.
Qed.
Lemma runs_try_slots fname lock n s :
  runs (try_slots fname lock n) s (fun r s' => (exists b, r = inr b) /\ bd_server s' = bd_server s).
Proof.
  revert lock s. induction n as [|n IH]; intros lock s; cbn [try_slots]; [apply runs_done; eauto|].
  apply runs_slot. intros b s1 E1. destruct b; [apply runs_done; eauto|].
  eapply runs_weaken; [|apply IH]. cbn. by rewrite E1.
Qed.
Lemma ends_lock_host (k : bool -> build unit) s :
  bd_lock_fd s = -1 -> is_Some (bd_server s) ->
  (forall b s1, is_Some (bd_server s1) -> ends (k b) s1) -> ends (ebind dcc_lock_host k) s.
Proof.
  intros Hfd Hs Hk. apply runs_ebind, runs_look. rewrite Hfd. apply runs_asking. intros t.
  destruct (h_mkdir _ _); cbn [negb]; [|by apply runs_done, Hk].
  apply runs_change, runs_ebind. eapply runs_weaken; [|apply runs_try_slots].
  intros r s1 [[b ->] Es]. cbn in Es.
  destruct b; [apply runs_done, Hk; by rewrite Es|].
  apply Z.eqb_neq in some_cpu. rewrite some_cpu. apply runs_asking. intros t'.
  destruct (h_lockfile _ _ _); [apply runs_change|]; apply runs_done, Hk; cbn; by rewrite Es.
Qed.
Lemma runs_unlock (k : unit -> build unit) s Q :
  (forall s1, bd_lock_fd s1 = -1 -> bd_server s1 = bd_server s -> runs (k tt) s1 Q) ->
  runs (ebind dcc_unlock k) s Q.
Proof.
  intros Hk. apply runs_ebind, runs_look. destruct (negb _);
    [apply runs_emit|]; (eapply runs_ok; [done|]); by apply Hk.
Qed.

Lemma ends_bind {A B} (m : build A) (k : A -> build B) s :
  ends m s -> (forall a s1, is_Some (bd_server s1) -> ends (k a) s1) -> ends (ebind m k) s.
Proof.
  intros Hm Hk. apply runs_ebind. eapply runs_weaken; [|exact Hm]. intros [e|a] s1 Hs1; [done|]. by apply Hk.
Qed.
Lemma ends_done {A} (r : client_exn + A) s : is_Some (bd_server s) -> ends (mret r) s.
Proof. intros Hs. by apply runs_done. Qed.

(** With the lock to be taken again, which nobody holds then. *)
Lemma transfer_ends m (u : bool) s :
  (u = true -> bd_lock_fd s = -1) -> is_Some (bd_server s) ->
  ends (sent ⇐ send_server m;
        if negb sent then
          m ⇐ hear_server 2 false; _ ⇐ check_for_failure m; raise (client_error 15)
        else if u then
          locked ⇐ dcc_lock_host; if negb locked then raise (client_error 32) else ok tt
        else ok tt) s.
Proof.
  intros Hu Hs. apply runs_send_server; [done|]. intros b s1 (_ & _ & Hfd) Hs1.
  destruct b; cbn [negb].
  - destruct u; [|by apply ends_done]. apply ends_lock_host; [|done|].
    + rewrite Hfd. by apply Hu.
    + intros b s2 Hs2. destruct b; by apply ends_done.
  - apply ends_hear_server; [done|]. intros o s2 Hs2. apply ends_bind.
    + destruct o as [[]|]; by apply ends_done.
    + intros _ s3 Hs3. by apply ends_done.
Qed.

Lemma send_chunk_ends bs u s : is_Some (bd_server s) -> ends (send_chunk bs u) s.
Proof.
  intros Hs. unfold send_chunk. destruct u; [|by apply (transfer_ends (chunk bs) false s)].
  apply runs_unlock. intros s1 Hfd Es. apply (transfer_ends (chunk bs) true s1); [done|by rewrite Es].
Qed.

(** The fuel is enough: every round but the last takes something. *)
Lemma write_loop_ends fuel buffer reads u s :
  Z.of_nat (length buffer) < chunk_size -> (reads_size reads <= fuel)%nat ->
  is_Some (bd_server s) -> ends (write_loop fuel buffer reads u) s.
Proof.
  revert buffer reads s. induction fuel as [|fuel IH]; intros buffer reads s Hl Hf Hs;
    unfold ends, runs; rewrite write_loop_round; unfold write_round;
    destruct (read_some _ reads) as [[bs|] reads'] eqn:Er; try (by apply ends_done);
    apply read_some_data in Er as (Hle & _ & _ & Hsz); try lia; cbv zeta;
    (case_bool_decide as Hn; [case_bool_decide; [by apply ends_done|by apply send_chunk_ends]|]);
    specialize (Hsz Hn); [lia|].
  destruct (_ =? chunk_size) eqn:Ef; boolify.
  - apply ends_bind; [by apply send_chunk_ends|]. intros _ s1 Hs1. apply IH; [done|lia|done].
  - apply IH; [rewrite length_app in *; lia|lia|done].
Qed.
End returning.

(** ** Files *)

Definition others_same (file : string) (s s' : Build) : Prop :=
  forall f, f <> file -> bd_files s' !! f = bd_files s !! f.

Lemma others_same_beside file s s1 s2 : beside s s1 -> others_same file s1 s2 -> others_same file s s2.
Proof. intros (Ef & _) Ho f Hf. by rewrite Ho, Ef. Qed.
Lemma others_same_trans file s s1 s2 : others_same file s s1 -> others_same file s1 s2 -> others_same file s s2.
Proof. intros H1 H2 f Hf. by rewrite H2, H1. Qed.

Section files.
Context `{Host} {B : Type}.

Lemma yields_unlink file (k : bool -> build B) s Q :
  (forall b l s1, others_same file s s1 -> heard l = [] -> said l = [] ->
     yields (k b) s1 (fun r l' s' => Q r (l ++ l') s')) ->
  yields (ebind (unlink_file file) k) s Q.
Proof.
  intros Hk. apply yields_assoc, yields_ask. intros t. apply yields_assoc.
  destruct (h_unlink t file).
  - apply yields_assoc, yields_change; [done|]. apply yields_emit, (Hk true [_]); [|done..].
    intros f Hf. cbn. by rewrite lookup_delete_ne.
  - by apply (Hk false []).
Qed.

Lemma yields_rename file new (k : bool -> build B) s Q :
  file <> new ->
  (forall b l s1, heard l = [] -> said l = [] ->
     (forall f, f <> file -> f <> new -> bd_files s1 !! f = bd_files s !! f) ->
     bd_files s1 !! new = bd_files s !! (if b : bool then file else new) ->
     yields (k b) s1 (fun r l' s' => Q r (l ++ l') s')) ->
  yields (ebind (rename_file file new) k) s Q.
Proof.
  intros Hne Hk. apply yields_assoc, yields_ask. intros t. apply yields_assoc.
  destruct (h_rename t file new); [|by apply (Hk false [])].
  apply yields_assoc, yields_change; [by case_goal|].
  apply yields_emit, (Hk true [_]); cbn; [done..| |].
  - intros f Hf Hn. case_goal; cbn.
    + by rewrite lookup_insert_ne, lookup_delete_ne.
    + by rewrite lookup_delete_ne.
  - case_goal; cbn; [by rewrite lookup_insert_eq|by rewrite lookup_delete_eq].
Qed.
End files.

(** ** Receiving a file *)

Section receive.
Context `{Channels} `{Host}.
Context (explicit_color explicit_no_caret : bool).

(** What the end of a failed attempt leaves. *)
Lemma yields_fail file s code (Q : client_exn + unit -> list client_effect -> Build -> Prop) :
  (forall l s1, others_same file s s1 -> Q (inl (client_error code)) l s1) ->
  yields (_ ⇐ unlink_file file; raise (client_error code)) s Q.
Proof. intros HQ. apply yields_unlink. intros b l s1 Ho _ _. by apply yields_raise, HQ. Qed.

Lemma yields_write_all file data (k : bool -> build unit) s Q :
  (forall s1 b, others_same file s s1 ->
     (b = true -> exists bs, data = Some bs /\
        bd_files s1 !! file = Some (default [] (bd_files s !! file) ++ bs)) ->
     yields (k b) s1 Q) ->
  yields (ebind (write_all file data) k) s Q.
Proof.
  intros Hk. destruct data as [bs|]; cbn; [|apply (Hk s false); [done|discriminate 1]].
  apply yields_assoc, yields_ask. intros t. apply yields_assoc, yields_change; [done|].
  apply Hk; cbn.
  - intros f Hf. cbn. by rewrite lookup_insert_ne.
  - intros E. boolify. eexists. split; [done|]. by rewrite lookup_insert_eq, E, Nat2Z.id, firstn_all.
Qed.
(** The chunks that have arrived are in the temporary file. *)
Lemma receive_loop_spec tmp n s bs :
  bd_files s !! tmp = Some bs ->
  yields (receive_loop n tmp) s (fun r l s' =>
    others_same tmp s s' /\
    match r with
    | inr _ => said l = [] /\
                 exists chunks, heard l = map (fun c => Some (FileChunk c)) chunks ++ [Some EndMsg] /\
                 bd_files s' !! tmp = Some (bs ++ concat (map payload chunks))
    | inl _ => True
    end).
Proof.
  revert s bs. induction n as [|n IH]; intros s bs Hbs; cbn [receive_loop].
  { apply yields_fail. auto. }
  apply yields_hear_server. intros o s1 Hb.
  assert (bd_files s1 !! tmp = Some bs) as Hbs1 by (destruct Hb as (-> & _); done).
  assert (forall s', others_same tmp s1 s' -> others_same tmp s s') as Ho
    by eauto using others_same_beside.
  destruct o as [m|]; [|apply yields_fail; auto].
  destruct m; try (apply yields_fail; by auto).
  - (* EndMsg *) apply yields_ok. split; [by apply Ho|]. split; [done|].
    exists []. by rewrite app_nil_r.
  - (* FileChunk *) apply yields_from_res. intros data Ed. apply yields_write_all.
    intros s2 b Ho2 Hw. destruct b; cbn [negb]; cycle 1.
    { apply yields_fail. intros l s3 Ho3. split; [|done]. eauto using others_same_trans. }
    destruct (Hw eq_refl) as (d & -> & Ef). rewrite Hbs1 in Ef. cbn in Ef.
    eapply yields_weaken; [by apply IH|]. cbn. intros r l s' [Ho3 Hr].
    split; [eauto using others_same_trans|]. destruct r as [|u]; [done|].
    destruct Hr as (Hs & chunks & El & Es). split; [by rewrite said_from|]. exists (m :: chunks).
    cbn. autorewrite with icc. by rewrite El, Es, (chunk_data_payload _ _ Ed), <- app_assoc.
  - (* StatusText *) apply yields_raise. split; [by apply Ho|done].
Qed.

Lemma tmp_differs file : (file +:+ "_icetmp")%string <> file.
Proof.
  intros E. apply (f_equal String.length) in E. revert E. induction file; cbn; [done|].
  intros E. injection E. apply IHfile.
Qed.

(** The temporary file was empty before. *)
Lemma from_tmp tmp (s s0 s1 : Build) :
  others_same tmp s0 s1 -> bd_files s0 = <[tmp := []]> (bd_files s) -> others_same tmp s s1.
Proof. intros Ho E f Hf. by rewrite Ho, E, lookup_insert_ne. Qed.

Lemma receive_file_yields output s :
  yields (receive_file output) s (fun r l s' =>
    (forall f, f <> output -> f <> (output +:+ "_icetmp")%string -> bd_files s' !! f = bd_files s !! f) /\
    match r with
    | inr _ => said l = [] /\
        exists chunks, heard l = map (fun c => Some (FileChunk c)) chunks ++ [Some EndMsg] /\
          bd_files s' !! output = Some (concat (map payload chunks))
    | inl _ => bd_files s' !! output = bd_files s !! output
    end).
Proof.
  set (tmp := (output +:+ "_icetmp")%string). assert (tmp <> output) as Hne by apply tmp_differs.
  apply yields_ask. intros t. destruct (h_create _ _); cbn [negb]; [|by apply yields_raise].
  apply yields_change; [done|]. apply yields_ask. intros t'.
  eapply yields_bind; [apply (receive_loop_spec tmp _ _ []), lookup_insert_eq|..]; cbn; cycle 1.
  { intros e l s1 [Ho _]. apply (from_tmp tmp s) in Ho; [|done]. naive_solver. }
  intros _ l s1 [Ho (Hs & chunks & El & Es)]. apply (from_tmp tmp s) in Ho; [|done].
  apply yields_ask. intros t2. destruct (h_close t2); cbn [negb]; cycle 1.
  { apply yields_fail. intros l2 s2 Ho2. split; [intros f Hf Ht|]; rewrite Ho2 by done; by apply Ho. }
  apply yields_rename; [done|]. intros b l3 s3 Hl3 Hs3 Hf3 En3. destruct b; cbn [negb].
  - apply yields_ok. split; [intros f Hf Ht; rewrite Hf3 by done; by apply Ho|].
    autorewrite with icc. rewrite Hs, Hs3. split; [done|].
    exists chunks. rewrite El, Hl3, app_nil_r. split; [done|]. by rewrite En3.
  - apply yields_fail. intros l4 s4 Ho4.
    split; [intros f Hf Ht; rewrite Ho4, Hf3 by done; by apply Ho|].
    rewrite Ho4, En3 by done. by apply Ho.
Qed.

(** C16: a file is received as a whole or not at all. When [receive_file]
    returns, the server has sent chunks and an end, and the output file holds
    what was in the chunks, in order. When it throws, the output file is what it
    was. Apart from the output and the temporary file beside it no file
    changes. *)
Theorem receive_file_atomic output s r s' :
  receive_file output s = Ok (r, s') ->
  (forall f, f <> output -> f <> (output +:+ "_icetmp")%string -> bd_files s' !! f = bd_files s !! f) /\
  match r with
  | inr _ => exists chunks news, bd_effects s' = bd_effects s ++ news /\
      heard news = map (fun c => Some (FileChunk c)) chunks ++ [Some EndMsg] /\
      bd_files s' !! output = Some (concat (map payload chunks))
  | inl _ => bd_files s' !! output = bd_files s !! output
  end.
Proof.
  intros E. destruct (receive_file_yields output s _ _ E) as (l & El & Hf & Hr). split; [done|].
  destruct r as [|u]; [done|]. destruct Hr as (_ & chunks & Hl & Ho). eauto.
Qed.
End receive.


(** ** Sending a file as a whole *)

Section whole.
Context `{ChannelsReturn} `{!ChannelsAnswer} `{Host}.

(** A file is sent as a whole. [write_fd_to_server] returns or throws: its
    rounds are bounded by what is read, where the connection answers. When it
    returns, it has sent the bytes of the file, up to its end and in order, in
    chunks of at most 100000 bytes that are not empty and full but for the last
    one; nothing else is sent, and no file or part of the job changes. *)
Theorem file_sent_whole reads unlock_sending s :
  h_ncpus <> 0 -> is_Some (bd_server s) ->
  exists r s' news, write_fd_to_server reads unlock_sending s = Ok (r, s') /\
    bd_effects s' = bd_effects s ++ news /\ aside s s' /\
    match r with
    | inr _ => exists chunks, said news = map (fun c => (chunk c, true)) chunks /\
                 concat chunks = file_data reads /\ cut chunks
    | inl _ => True
    end.
Proof.
  intros Hcpu Hs.
  destruct (write_loop_ends Hcpu (reads_size reads) [] reads unlock_sending s) as (r & s' & E & _); [done..|].
  destruct (write_loop_spec (reads_size reads) [] reads unlock_sending s eq_refl _ _ E) as (l & El & Ha & Hr).
  exists r, s', l. split_and!; [done..|]. destruct r; [done|]. by destruct Hr as [Hp _].
Qed.
End whole.

(** ** A sample *)

#[local] Existing Instance store_compressors.
#[local] Existing Instances client_channels client_returns client_answers.

(** A machine with gcc on which every call succeeds. *)
Definition sample_machine : machine :=
  mkMachine (fun v => if str_equal v "PATH" then Some "/usr/bin" else None)
    "/src" (fun _ => true) (fun _ => Some Regular) (fun _ => Some (Regular, 1000)) (fun _ => None)
    (fun _ _ _ => ""%string) false false false%string.
Definition host_with (reply : list Msg) (source : list (option (list byte))) : Host := {|
  h_machine := sample_machine; h_realpath := fun f => Some f; h_niceness := 0;
  h_user := "user"; h_ncpus := 4; h_pid := 7; h_mkdir := fun _ _ => true;
  h_lockfile := fun _ _ _ => Some 9;
  h_connect := fun _ _ _ _ => Some (sample_channel 3 "server" reply);
  h_connect_socket := fun _ _ => None; h_stat := fun _ _ => Some 1000;
  h_open := fun _ _ => Some [Some [x41]]; h_pipe := fun _ => true; h_pipe_reads := fun _ => source;
  h_create := fun _ _ => true; h_write := fun _ bs => Z.of_nat (length bs); h_close := fun _ => true;
  h_rename := fun _ _ _ => true; h_unlink := fun _ _ => true; h_fork := fun _ => true;
  h_wait := fun _ => 0; h_rusage := fun _ => ((0, 0), (0, 0), 0); h_time := fun _ => (1000, 0);
  h_rand := fun _ => 0; h_tmpnam := fun _ => "/tmp/icecc.ix"; h_wait_any := fun _ => Some (0%nat, 0);
  h_md5 := fun _ _ => "d41d8"; h_pending := fun _ => 10%nat
|}%string.

Definition sample_job : CompileJob :=
  mkCompileJob 0 Lang_CXX "/usr/bin/g++" "g++" "" [("-O2"%string, Arg_Remote); ("-c"%string, Arg_Remote)]
    "a.cpp" "a.o" "/src" "x86_64" false false.
Definition sample_build (server : option MsgChannel) : Build :=
  mkBuild sample_job None server ∅ "" (-1) 0 [].

Lemma file_sent_whole_witness :
  exists r s' news,
    @write_fd_to_server client_channels (host_with [] [])
      [Some (repeat x41 3); Some (repeat x42 2)] true (sample_build (Some (sample_channel 3 "server" [])))
      = Ok (r, s') /\
    bd_effects s' = [] ++ news /\ aside (sample_build (Some (sample_channel 3 "server" []))) s' /\
    match r with
    | inr _ => exists chunks, said news = map (fun c => (chunk c, true)) chunks /\
                 concat chunks = repeat x41 3 ++ repeat x42 2 /\ cut chunks
    | inl _ => True
    end.
Proof.
  apply (@file_sent_whole client_channels client_returns client_answers (host_with [] []) [Some (repeat x41 3); Some (repeat x42 2)] true
    (sample_build (Some (sample_channel 3 "server" [])))); [discriminate|by eexists].
Defined.

(** A server that sends an object file in two chunks. *)
Definition object_server : list Msg := [chunk [x41; x42]; chunk [x43]; EndMsg].
Definition receiver : Build := sample_build (Some (sample_channel 3 "server" object_server)).
Abbreviation receiving := (@receive_file client_channels (host_with object_server []) "a.o" receiver).

Definition received (f : string) : option (option (list byte)) :=
  match receiving with Ok (inr _, s') => Some (bd_files s' !! f) | _ => None end.

Lemma receiving_returns : exists s', receiving = Ok (inr tt, s').
Proof.
  assert (match receiving with Ok (inr _, _) => true | _ => false end = true) as E by (vm_compute; reflexivity).
  revert E. generalize receiving as r. intros [[[e|[]] s']|f] E; try discriminate E. by exists s'.
Qed.

Lemma receive_file_atomic_witness :
  received "a.o" = Some (Some [x41; x42; x43]) /\ received "a.o_icetmp" = Some None /\
  exists s' chunks news, receiving = Ok (inr tt, s') /\ bd_effects s' = bd_effects receiver ++ news /\
      heard news = map (fun c => Some (FileChunk c)) chunks ++ [Some EndMsg] /\
      bd_files s' !! "a.o"%string = Some (concat (map payload chunks)).
Proof.
  split; [vm_compute; reflexivity|]. split; [vm_compute; reflexivity|].
  destruct receiving_returns as [s' Er]. exists s'.
  destruct (proj2 (@receive_file_atomic client_channels (host_with object_server []) "a.o"
    receiver (inr tt) s' Er)) as (chunks & news & Hx).
  exists chunks, news. split; [exact Er|exact Hx].
Defined.
