(* ===== verification/RemoteFacts.v ===== *)
(** * Remote builds: what is sent, received and written

    The conversation with a server, the environments that are offered, the
    comparison of repeated builds. *)

From Stdlib Require Import ZArith Lia.
From Stdlib Require Import Strings.Byte Strings.String.
From stdpp Require Import base tactics option list gmap strings.
From S2P Require Import Prelude ExitCode Effects Paths StdString MsgChannel CompileJob Msg Interface Transport ChannelImpl Compilers Client RemoteBuild ClientFacts FileTransfer Files.

#[local] Open Scope Z_scope.
#[local] Open Scope icecc_scope.

(** ** The conversation with a server *)

Section conversation.
Context `{Channels} `{Host}.
Context (explicit_color explicit_no_caret : bool).

(** What holds where a part of the conversation returns. *)
Definition says {A} (m : build A) (s : Build) (P : A -> list client_effect -> Build -> Prop) : Prop :=
  yields m s (fun r l s' => match r with inr a => P a l s' | inl _ => True end).

Lemma says_bind {A B} (m : build A) (k : A -> build B) s P
    (Q : client_exn + B -> list client_effect -> Build -> Prop) :
  says m s P -> (forall e l s', Q (inl e) l s') ->
  (forall a l s1, P a l s1 -> yields (k a) s1 (fun r l' s' => Q r (l ++ l') s')) ->
  yields (ebind m k) s Q.
Proof. intros Hm He Hk. eapply yields_bind; [exact Hm| |]; cbn; eauto. Qed.

Lemma says_sends (m : build unit) s P :
  sends m s P -> says m s (fun _ l s' => aside s s' /\ P (said l) /\ heard l = []).
Proof. intros Hm. eapply yields_weaken; [apply Hm|]. cbn. intros [e|a] l s' [? ?]; tauto. Qed.

(** A yes or no of the connection itself. *)
Lemma verify_says usecs s :
  says (verify_environment usecs) s (fun _ l s' => aside s s' /\
    said l = [(VerifyEnv (mkVerifyEnvMsg (j_environment_version (bd_job s)) (j_target_platform (bd_job s))), true)] /\
    heard l = [Some (VerifyEnvResult true)]).
Proof.
  apply yields_look, yields_send_server. intros b s1 Hb1.
  destruct b; cbn [negb]; [|by apply yields_raise].
  apply yields_hear_server. intros m s2 Hb2.
  destruct m as [[]|]; try by apply yields_raise. destruct ok; cbn [negb]; cycle 1.
  { apply yields_send_daemon. intros b s3 Hb3. by apply yields_raise. }
  apply yields_ok. autorewrite with icc. split; [|done].
  eapply aside_trans; by apply aside_beside.
Qed.

(** The environment: announced, its file, the end, and the verification by a
    server that knows how. *)
Definition environment_sent (job : CompileJob) (data : list byte) (l : list (Msg * bool))
    (h : list (option Msg)) : Prop :=
  exists chunks, pieces_of data chunks /\
    ((l = (EnvTransfer (mkEnvTransferMsg (j_environment_version job) (j_target_platform job)), true)
          :: chunks ++ [(EndMsg, true)] /\ h = []) \/
     (l = (EnvTransfer (mkEnvTransferMsg (j_environment_version job) (j_target_platform job)), true)
          :: chunks ++ [(EndMsg, true);
               (VerifyEnv (mkVerifyEnvMsg (j_environment_version job) (j_target_platform job)), true)] /\
      h = [Some (VerifyEnvResult true)])).

Lemma transfer_says usecs file s :
  says (transfer_environment usecs file) s (fun _ l s' => aside s s' /\
    exists t reads, h_open t file = Some reads /\
      environment_sent (bd_job s) (file_data reads) (said l) (heard l)).
Proof.
  apply yields_look, yields_ask. intros t0. destruct (h_stat t0 file); [|by apply yields_raise].
  apply yields_send_server. intros b s1 Hb1. destruct b; cbn [negb]; [|by apply yields_raise].
  apply yields_ask. intros t. destruct (h_open t file) as [reads|] eqn:Eo; [|by apply yields_raise].
  eapply says_bind; [by apply says_sends, write_loop_spec|done|].
  intros _ l s2 (Ha2 & Hp & Hh). apply yields_send_server. intros b s3 Hb3.
  destruct b; cbn [negb]; [|by apply yields_raise].
  apply yields_on_server. intros verifies s4 _ Hb4.
  assert (aside s s4) as Ha4.
  { eapply aside_trans, aside_beside, Hb4. eapply aside_trans, aside_beside, Hb3.
    eapply aside_trans, Ha2. by apply aside_beside in Hb1. }
  destruct verifies.
  - eapply yields_weaken; [apply verify_says|]. cbn. intros [e|a] l' s5 Hv; [done|].
    destruct Hv as (Ha5 & Hs5 & Hh5). split; [by eapply aside_trans|]. exists t, reads. split; [done|].
    exists (said l). split; [done|]. right. autorewrite with icc. rewrite Hs5, Hh5, Hh.
    destruct Ha4 as [_ ->]. done.
  - apply yields_ok. split; [done|]. exists t, reads. split; [done|].
    exists (said l). split; [done|]. left. autorewrite with icc. by rewrite Hh.
Qed.
(** The job as it is sent. *)
Definition sent_job (job job' : CompileJob) : Prop :=
  job' = updateFlags rebase_flag job \/ job' = updateFlags rebase_flag (add_language job).

Lemma send_job_says s :
  says send_job s (fun _ l s' => bd_files s' = bd_files s /\
    j_output_file (bd_job s') = j_output_file (bd_job s) /\
    exists job', sent_job (bd_job s) job' /\ said l = [(CompileFile job', true)] /\ heard l = []).
Proof.
  apply yields_on_server. intros verifies s1 _ (Ef1 & Ej1 & _).
  apply yields_if; intros _; [by apply yields_raised|].
  apply yields_passed, yields_on_server. intros sets s2 _ (Ef2 & Ej2 & _).
  rewrite <- Ej1, <- Ej2, <- Ef1, <- Ef2. apply yields_look, yields_if; intros _.
  - apply yields_change; [done|]. apply yields_look, yields_send_server. intros b s3 (Ef3 & Ej3 & _).
    destruct b; cbn [negb]; [|by apply yields_raise]. apply yields_ok.
    rewrite Ef3, Ej3. split_and!; [done..|]. eexists. split; [by right|done].
  - apply yields_passed, yields_look, yields_send_server. intros b s3 (Ef3 & Ej3 & _).
    destruct b; cbn [negb]; [|by apply yields_raise]. apply yields_ok.
    rewrite Ef3, Ej3. split_and!; [done..|]. eexists. split; [by left|done].
Qed.

(** The source that is sent: what the preprocessor wrote and ended well, or a
    file. *)
Definition source_of (preproc_file : option string) (data : list byte) : Prop :=
  match preproc_file with
  | None => exists t t', data = file_data (h_pipe_reads t) /\ shell_exit_status (h_wait t') = 0
  | Some file => exists t reads, h_open t file = Some reads /\ data = file_data reads
  end.

Lemma cpp_failed_says code s :
  says (cpp_failed code) s (fun r l _ => r = Some code /\ said l = [] /\ heard l = []).
Proof.
  apply yields_change; [done|]. apply yields_look, yields_from_res. intros clang _.
  apply yields_quiet; [destruct clang; auto with icc| |done].
  intros [|] l s1 Hl Hh _; [by apply yields_raise|]. apply yields_ok. autorewrite with icc. done.
Qed.

Lemma yields_with_unlock {A} (m : build A) s P :
  says m s P ->
  says (with_unlock m) s (fun a l s' => exists l1 l2 s1, l = l1 ++ l2 /\ P a l1 s1 /\
    said l2 = [] /\ heard l2 = [] /\ apart s1 s').
Proof.
  intros Hm r s' E. apply bind_inv in E as (r1 & s1 & E1 & E2).
  destruct (Hm _ _ E1) as (l1 & El1 & HP). apply bind_inv in E2 as (r2 & s2 & E2 & E3).
  destruct (quiet_unlock s1 _ _ E2) as (l2 & El2 & Hs2 & Hh2 & Ha2).
  exists (l1 ++ l2). split; [destruct r2; injection E3 as <- <-; by rewrite El2, El1, app_assoc|].
  destruct r2 as [e|u]; injection E3 as <- <-; [done|]. destruct r1; [done|]. by eauto 10.
Qed.

Definition source_sent (preproc_file : option string) (s : Build) (early : option Z)
    (l : list client_effect) (s' : Build) : Prop :=
  heard l = [] /\
  match early with
  | Some code => code <> 0
  | None => aside s s' /\ exists data, source_of preproc_file data /\ pieces_of data (said l)
  end.

(** The preprocessor runs and what it writes is sent. *)
Lemma cpp_says (s : Build) :
  says (job ⇐ look bd_job;
        running ⇐ call_cpp job;
        if negb running then raise (client_error 18)
        else
          reads ⇐ ask h_pipe_reads;
          _ ⇐ on_exception (write_fd_to_server reads true) (emit Killed_cpp);
          status ⇐ ask h_wait;
          if negb (shell_exit_status status =? 0) then cpp_failed (shell_exit_status status)
          else ok None) s (source_sent None s).
Proof.
  apply yields_look, yields_quiet; [auto with icc| |done]. intros running l2 s2 Hl2 Hh2 Ha2.
  destruct running; cbn [negb]; [|by apply yields_raise].
  apply yields_ask. intros t1. eapply says_bind; [|done|].
  { eapply (yields_on_exception _ _ _ _ (fun r l s' => match r with
      | inr _ => aside s2 s' /\ pieces_of (file_data (h_pipe_reads t1)) (said l) /\ heard l = []
      | inl _ => True end)); [by apply says_sends, write_loop_spec|done|].
    intros e l s3 _. by apply yields_emitted. }
  intros [] l s3 (Ha3 & Hp & Hh). apply yields_ask. intros t2.
  destruct (shell_exit_status _ =? 0) eqn:Es; cbn [negb]; boolify.
  - apply yields_ok. split; autorewrite with icc; [by rewrite Hh2, Hh|]. rewrite Hl2. split.
    + eapply aside_trans; [by apply aside_apart|done].
    + exists (file_data (h_pipe_reads t1)). split; [by exists t1, t2|done].
  - eapply yields_weaken; [apply cpp_failed_says|]. intros [e|r] l' s4 Hc; [done|].
    destruct Hc as (-> & Hs' & Hh'). split; [|done]. autorewrite with icc. by rewrite Hh2, Hh, Hh'.
Qed.

Lemma send_source_says preproc_file s : says (send_source preproc_file) s (source_sent preproc_file s).
Proof.
  destruct preproc_file as [file|]; cbn [send_source].
  - apply yields_ask. intros t. destruct (h_open t file) as [reads|] eqn:Eo; [|by apply yields_raise].
    eapply says_bind; [by apply says_sends, write_loop_spec|done|].
    intros _ l s1 (Ha & Hp & Hh). apply yields_ok. split; autorewrite with icc; [done|].
    split; [done|]. exists (file_data reads). cbn. eauto.
  - apply yields_ask. intros t. destruct (h_pipe t); cbn [negb]; [|by apply yields_raise].
    apply yields_quiet; [auto with icc| |done]. intros locked l1 s1 Hl1 Hh1 Ha1.
    destruct locked; cbn [negb].
    + eapply yields_weaken; [apply yields_with_unlock, cpp_says|]. cbn.
      intros [e|early] l s' Hr; [done|].
      destruct Hr as (l2 & l3 & s2 & -> & (Hh2 & HP) & Hl3 & Hh3 & Ha3).
      split; autorewrite with icc; [by rewrite Hh1, Hh2, Hh3|]. destruct early; [done|].
      destruct HP as (Ha2 & data & Hd & Hp). rewrite Hl1, Hl3, app_nil_r. split; [|by exists data].
      eapply aside_trans; [by apply aside_apart|]. eapply aside_trans; [done|]. by apply aside_apart.
    + apply yields_ok. split; autorewrite with icc; [done|discriminate].
Qed.

(** Whether the output file is the one the server has sent. *)
Definition output_received (status : Z) (output : string) (h : list (option Msg)) (s s' : Build) : Prop :=
  if status =? 0 then exists chunks rest,
    h = map (fun c => Some (FileChunk c)) chunks ++ Some EndMsg :: rest /\
    bd_files s' !! output = Some (concat (map payload chunks))
  else h = [] /\ bd_files s' = bd_files s.

Lemma show_output_says crmsg s :
  says (show_output explicit_color explicit_no_caret crmsg) s (fun _ l s' =>
    aside s s' /\ said l = [] /\ heard l = []).
Proof.
  assert (quiet (show_output explicit_color explicit_no_caret crmsg)) as Hq
    by (unfold show_output; hush).
  eapply yields_weaken; [apply Hq|]. cbn. intros [e|a] l s' (? & ? & ?); [done|].
  split; [by apply aside_apart|done].
Qed.

(** The debug information goes to files of its own. *)
Definition own_dwo (output : string) : Prop :=
  dwo_name output <> output /\ (dwo_name output +:+ "_icetmp")%string <> output.

Lemma receive_result_says out s :
  own_dwo (j_output_file (bd_job s)) ->
  says (receive_result explicit_color explicit_no_caret out) s (fun status l s' =>
    said l = [] /\ exists m h, heard l = Some (CompileResult m) :: h /\ cr_status m = status /\
    output_received status (j_output_file (bd_job s)) h s s').
Proof.
  intros [Hd Hdt]. apply yields_hear_server. intros o s1 (Ef1 & Ej1 & _).
  destruct o as [m|]; [|by apply yields_raise].
  destruct m; try (by apply yields_raise). apply yields_passed.
  cbv zeta. destruct (negb (cr_status m =? 0) && cr_was_out_of_memory m); [by apply yields_raise|].
  eapply (says_bind _ _ _ (fun _ l s' => aside s1 s' /\ said l = [] /\ heard l = [])); [|done|].
  { destruct out; [apply show_output_says|by apply yields_ok]. }
  intros _ l2 s2 ([Ef2 Ej2] & Hs2 & Hh2). apply yields_look, yields_require. intros _.
  rewrite Ej2, Ej1. unfold output_received. destruct (cr_status m =? 0) eqn:Es; cycle 1.
  { apply yields_passed, yields_ok. autorewrite with icc. rewrite Hs2, Hh2. split; [done|].
    exists m, []. rewrite Es, Ef2, Ef1. done. }
  apply yields_assoc. eapply yields_bind; [apply receive_file_yields|..]; cbn; [|done].
  intros _ l3 s3 (_ & Hs3 & chunks & Hh3 & Ho3). apply yields_if; intros _; cycle 1.
  { apply yields_passed, yields_ok. autorewrite with icc. rewrite Hs2, Hs3, Hh2, Hh3. split; [done|].
    eexists m, _. split; [done|]. split; [done|]. rewrite Es. eexists chunks, []. done. }
  eapply yields_bind; [apply receive_file_yields|..]; cbn; [|done].
  intros _ l4 s4 (Hf4 & Hs4 & chunks4 & Hh4 & _). apply yields_ok. autorewrite with icc.
  rewrite Hs2, Hs3, Hs4, Hh2, Hh3, Hh4. split; [done|]. eexists m, _. split; [done|]. split; [done|].
  rewrite Es. eexists chunks, _. rewrite Hf4 by done. split; [|done]. by rewrite <- app_assoc.
Qed.

(** The job as a server gets it before its flags are looked at. *)
Definition numbered (usecs : UseCSMsg) (environment : string) (job : CompileJob) : CompileJob :=
  setEnvironmentVersion environment (setJobID (ucs_job_id usecs) job).

(** What is said of the environment. *)
Definition environment_said (usecs : UseCSMsg) (version_file : string) (job : CompileJob)
    (l : list (Msg * bool)) (h : list (option Msg)) : Prop :=
  if ucs_got_env usecs =? 0
  then exists t reads, h_open t version_file = Some reads /\ environment_sent job (file_data reads) l h
  else l = [] /\ h = [].

(** The environment, unless the server has it; the job; the source; the end. Then
    the result. *)
Definition conversation (usecs : UseCSMsg) (version_file : string) (preproc_file : option string)
    (job : CompileJob) (status : Z) (s : Build) (news : list client_effect) (s' : Build) : Prop :=
  exists job' env_said env_heard data src m h,
    environment_said usecs version_file job env_said env_heard /\
    sent_job job job' /\ source_of preproc_file data /\ pieces_of data src /\
    said news = env_said ++ (CompileFile job', true) :: src ++ [(EndMsg, true)] /\
    heard news = env_heard ++ Some (CompileResult m) :: h /\ cr_status m = status /\
    output_received status (j_output_file job) h s s'.

(** The server has not answered. *)
Definition unanswered (l : list client_effect) : Prop := forall m, Some (CompileResult m) ∉ heard l.

Lemma environment_unanswered usecs file job l h :
  environment_said usecs file job l h -> forall m, Some (CompileResult m) ∉ h.
Proof.
  unfold environment_said. intros He m Hin. case_hyp He.
  - destruct He as (t & reads & _ & chunks & _ & [[_ ->]|[_ ->]]);
      [by apply not_elem_of_nil in Hin|by apply list_elem_of_singleton in Hin].
  - destruct He as [_ ->]. by apply not_elem_of_nil in Hin.
Qed.

Lemma output_received_from status output h s1 s2 s' :
  bd_files s1 = bd_files s2 -> output_received status output h s1 s' -> output_received status output h s2 s'.
Proof. unfold output_received. intros ->. done. Qed.

(** The try block. *)
Definition try_block (usecs : UseCSMsg) (version_file : string) (preproc_file : option string)
    (output : bool) : build (Z + Z) :=
  cserver ⇐ ask (fun t => h_connect t (ucs_hostname usecs) (ucs_port usecs mod 2 ^ 16) 10);
  _ ⇐ change (set_bd_server cserver);
  match cserver with
  | None => raise (client_error 2)
  | Some _ =>
      _ ⇐ (if ucs_got_env usecs =? 0 then transfer_environment usecs version_file else ok tt);
      _ ⇐ send_job;
      early ⇐ send_source preproc_file;
      match early with
      | Some code => ok (inl code)
      | None =>
          sent ⇐ send_server EndMsg;
          if negb sent then raise (client_error 12)
          else status ⇐ receive_result explicit_color explicit_no_caret output; ok (inr status)
      end
  end.

Lemma try_block_says usecs version_file preproc_file output s :
  own_dwo (j_output_file (bd_job s)) ->
  says (try_block usecs version_file preproc_file output) s (fun r l s' =>
    match r with
    | inl code => code <> 0 /\ unanswered l
    | inr status => conversation usecs version_file preproc_file (bd_job s) status s l s'
    end).
Proof.
  intros Hown. apply yields_ask. intros t. apply yields_change; [done|].
  destruct (h_connect _ _ _ _) as [c|]; [|by apply yields_raise].
  eapply (says_bind _ _ _ (fun _ l s' => aside s s' /\
    environment_said usecs version_file (bd_job s) (said l) (heard l))); [|done|].
  { unfold environment_said. destruct (_ =? 0); [eapply yields_weaken; [apply transfer_says|done]|by apply yields_ok]. }
  intros _ l1 s1 ([Ef1 Ej1] & He). eapply says_bind; [apply send_job_says|done|].
  intros _ l2 s2 (Ef2 & Ej2 & job' & Hj & Hs2 & Hh2). rewrite Ej1 in Hj, Ej2.
  eapply says_bind; [apply send_source_says|done|].
  intros [code|] l3 s3 [Hh3 Hr].
  - apply yields_ok. split; [done|]. intros m. autorewrite with icc. rewrite Hh2, Hh3, !app_nil_r.
    by eapply environment_unanswered.
  - destruct Hr as ([Ef3 Ej3] & data & Hd & Hp). apply yields_send_server. intros b s4 (Ef4 & Ej4 & _).
    destruct b; cbn [negb]; [|by apply yields_raise].
    eapply says_bind; [apply receive_result_says|done|].
    { by rewrite Ej4, Ej3, Ej2. }
    intros status l5 s5 (Hs5 & m & h & Hh5 & Hm & Ho). apply yields_ok.
    exists job', (said l1), (heard l1), data, (said l3), m, h. autorewrite with icc.
    rewrite Hs2, Hh2, Hh3, Hs5, Hh5. split_and!; try done.
    rewrite Ej4, Ej3, Ej2 in Ho. eapply output_received_from; [|done]. congruence.
Qed.

Lemma drain_yields n s : yields (drain_server n) s (fun _ _ _ => True).
Proof.
  revert s. induction n as [|n IH]; intros s; cbn [drain_server]; [by apply yields_ok|].
  apply yields_hear_server. intros m s1 _. destruct m; [|by apply yields_ok].
  eapply yields_weaken; [apply IH|done].
Qed.
Lemma drop_server_yields s : yields drop_server s (fun _ _ _ => True).
Proof.
  apply yields_look. destruct (bd_server s); [|by apply yields_ok].
  apply yields_ask. intros t. eapply yields_bind; [apply drain_yields| |done].
  intros _ l s1 _ r s2 E. injection E as <- <-. exists []. by rewrite app_nil_r.
Qed.

Lemma remote_conversation_says usecs environment version_file preproc_file output s status s' :
  own_dwo (j_output_file (bd_job s)) ->
  build_remote_int explicit_color explicit_no_caret usecs environment version_file preproc_file output s
    = Ok (inr status, s') ->
  exists news, bd_effects s' = bd_effects s ++ news /\
    (conversation usecs version_file preproc_file (numbered usecs environment (bd_job s)) status s news s' \/
     (status <> 0 /\ unanswered news)).
Proof.
  intros Hown E.
  set (s0 := set_bd_job (numbered usecs environment (bd_job s)) s).
  enough (says (build_remote_int explicit_color explicit_no_caret usecs environment version_file
                  preproc_file output) s (fun status news s' =>
    conversation usecs version_file preproc_file (bd_job s0) status s news s' \/
    (status <> 0 /\ unanswered news))) as Hsays by by apply Hsays in E.
  apply yields_change; [done|]. eapply (says_bind _ _ _ (fun r l s' =>
    match r with
    | inl code => code <> 0 /\ unanswered l
    | inr status => conversation usecs version_file preproc_file (bd_job s0) status s l s'
    end)); [|done|].
  - eapply yields_on_exception; [by apply (try_block_says _ _ _ _ s0)|cbn|].
    + intros [code|status'] l s1 Hq; exact Hq.
    + intros e l s1 _. eapply yields_weaken; [apply drop_server_yields|]. by intros [].
  - intros [code|status'] l s1 Hq.
    + apply yields_ok. right. by rewrite app_nil_r.
    + apply yields_change; [done|]. apply yields_ok. left. by rewrite app_nil_r.
Qed.

(** C15: a compilation on a server. When [build_remote_int] returns, the server
    was sent, in this order and with success: unless it has it, the whole
    environment, which it verified if it can; the job under its number; the whole
    preprocessed source, in chunks; the end. It has answered with the exit code,
    and where that is 0 the output file holds what it has sent. Or the code is
    not 0, for want of the lock or because the preprocessor failed, and the
    server has answered nothing. *)
Theorem remote_conversation usecs environment version_file preproc_file output s status s' :
  own_dwo (j_output_file (bd_job s)) ->
  build_remote_int explicit_color explicit_no_caret usecs environment version_file preproc_file output s
    = Ok (inr status, s') ->
  exists news, bd_effects s' = bd_effects s ++ news /\
    (conversation usecs version_file preproc_file (numbered usecs environment (bd_job s)) status s news s' \/
     (status <> 0 /\ unanswered news)).
Proof. apply remote_conversation_says. Qed.
End conversation.

(** ** The environments that are offered *)

(** What a list offers for a prefix: platforms and files, in order. *)
Definition offer (target_platform prefix : string) (def_targets : bool) (couple : string)
  : option (string * string) :=
  let e := split_couple target_platform couple in
  (fun version => (e.1, version)) <$> for_prefix def_targets prefix e.2.
Definition offered (target_platform prefix icecc_version : string) : list (string * string) :=
  omap (offer target_platform prefix (negb (find "=" icecc_version =? npos))) (couples icecc_version).

(** The first file for a platform that can be installed. *)
Definition usable (m : machine) (platform : string) (e : string * string) : Prop :=
  e.1 = platform /\ is_tarball m e.2 = true.
#[export] Instance usable_dec m platform e : Decision (usable m platform e).
Proof. apply _. Defined.
Definition first_usable (m : machine) (platform : string) (l : list (string * string)) : option string :=
  snd <$> head (filter (usable m platform) l).

Lemma first_usable_cons m platform p v l :
  first_usable m platform ((p, v) :: l) =
  if bool_decide (p = platform) && is_tarball m v then Some v else first_usable m platform l.
Proof.
  unfold first_usable. rewrite filter_cons. case_decide as Hu; unfold usable in Hu; cbn in Hu.
  - destruct Hu as [-> ->]. by rewrite bool_decide_eq_true_2.
  - case_bool_decide; [|done]. destruct (is_tarball m v); [|done]. by destruct Hu.
Qed.

Lemma parse_couples_spec m target prefix def l envs :
  NoDup (map fst envs) ->
  let res := parse_couples m target prefix def l envs (map fst envs) in
  NoDup (map fst res) /\
  forall p v, (p, v) ∈ res <->
    (p, v) ∈ envs \/
    ((p ∉ map fst envs) /\ first_usable m p (omap (offer target prefix def) l) = Some v).
Proof.
  revert envs. induction l as [|couple l IH]; intros envs Hnd; cbn.
  { split; [done|]. intros p v. split; [auto|]. by intros [|[_ ?]]. }
  unfold offer at 1. destruct (split_couple target couple) as [platform version]. cbn.
  destruct (for_prefix def prefix version) as [file|]; cbn; [|by apply IH].
  case_bool_decide as Hin; cbn.
  - destruct (IH envs Hnd) as [Hnd' Hres]. split; [done|]. intros p v. rewrite Hres, first_usable_cons.
    case_bool_decide as Hp; [subst|done]. tauto.
  - destruct (is_tarball m file) eqn:Et; cycle 1.
    { destruct (IH envs Hnd) as [Hnd' Hres]. split; [done|]. intros p v.
      by rewrite Hres, first_usable_cons, Et, andb_false_r. }
    destruct (IH (envs ++ [(platform, file)])) as [Hnd' Hres].
    { rewrite map_app. apply NoDup_app. split_and!; [done| |apply NoDup_singleton].
      intros x Hx Hx'. apply list_elem_of_singleton in Hx'. by subst. }
    rewrite map_app in Hnd', Hres. split; [done|]. intros p v.
    rewrite Hres, first_usable_cons, Et, andb_true_r, !elem_of_app. cbn.
    rewrite !list_elem_of_singleton. clear - Hin.
    case_bool_decide as Hp; [subst|]; split; intuition congruence.
Qed.

(** What [ICECC_VERSION] offers. [parse_icecc_version] ends for every value
    that is not empty, with one environment per platform: the first one of the
    list, for the prefix of the compiler, that is a readable regular file of
    500 bytes at least. *)
Theorem parse_icecc_version_spec m target_platform prefix icecc_version :
  m_getenv m "ICECC_VERSION" = Some icecc_version -> icecc_version <> ""%string ->
  exists envs, parse_icecc_version m target_platform prefix = Ok envs /\
    NoDup (map fst envs) /\
    forall platform version, (platform, version) ∈ envs <->
      first_usable m platform (offered target_platform prefix icecc_version) = Some version.
Proof.
  intros Ee Hne. unfold parse_icecc_version. rewrite Ee, bool_decide_eq_false_2 by done.
  eexists. split; [done|].
  destruct (parse_couples_spec m target_platform prefix (negb (find "=" icecc_version =? npos))
    (couples icecc_version) []) as [Hnd Hres]; [constructor|]. split; [exact Hnd|].
  intros p v. rewrite Hres. unfold offered. split; [by intros [?%not_elem_of_nil|[_ ?]]|].
  intros Hf. right. split; [apply not_elem_of_nil|done].
Qed.

(** ** Repeated builds *)

Section repeats.
Context `{Channels} `{Host}.

(** The result and not what happens meanwhile. *)
Definition gives {A} (m : build A) (s : Build) (P : client_exn + A -> Prop) : Prop :=
  yields m s (fun r _ _ => P r).

Lemma gives_unlink {B} file (k : bool -> build B) s P :
  (forall b s1, gives (k b) s1 P) -> gives (ebind (unlink_file file) k) s P.
Proof. intros Hk. apply yields_unlink. intros b l s1 _ _ _. apply Hk. Qed.
Lemma gives_discard {B} dwarf file (k : unit -> build B) s P :
  (forall s1, gives (k tt) s1 P) -> gives (ebind (discard dwarf file) k) s P.
Proof.
  intros Hk. apply yields_assoc, gives_unlink. intros _ s1.
  apply yields_assoc. destruct dwarf; [apply gives_unlink; intros _ s2|]; apply Hk.
Qed.
Lemma gives_discard_all {B} dwarf files (k : unit -> build B) s P :
  (forall s1, gives (k tt) s1 P) -> gives (ebind (discard_all dwarf files) k) s P.
Proof.
  intros Hk. revert s. induction files as [|f files IH]; intros s; [apply Hk|].
  apply yields_assoc, gives_discard, IH.
Qed.
Lemma gives_rename {B} file new (k : bool -> build B) s P :
  file <> new -> (forall b s1, gives (k b) s1 P) -> gives (ebind (rename_file file new) k) s P.
Proof. intros Hne Hk. apply yields_rename; [done|]. intros b l s1 _ _ _ _. apply Hk. Qed.

Lemma caught_differs file : file <> caught file.
Proof.
  intros E. apply (f_equal String.length) in E. revert E. unfold caught. induction file; cbn; [done|].
  intros E. injection E. apply IHfile.
Qed.
#[local] Hint Resolve caught_differs : core.

(** A job agrees with the first one, or its exit code is the one that counts for
    a failure of the machinery. *)
Definition agrees (first_md5 : string) (o : string * Z) : Prop :=
  o.2 = 42 \/ (o.2 = 0 /\ exists t, h_md5 t o.1 = first_md5).

Lemma compare_jobs_zero dwarf first_md5 preproc output code others s :
  gives (compare_jobs dwarf first_md5 preproc output code others) s (fun r =>
    r = inr 0 -> code = 0 /\ Forall (agrees first_md5) others).
Proof.
  revert s. induction others as [|[o c] others IH]; intros s; cbn [compare_jobs].
  { apply yields_ok. intros E. injection E as ->. auto. }
  destruct (code =? 0) eqn:Ec; boolify; cycle 1.
  { apply gives_discard. intros s1. eapply yields_weaken; [apply IH|].
    intros r l s' Hr E. by destruct (Hr E). }
  destruct (c =? 42) eqn:E42; boolify.
  { eapply yields_weaken; [apply IH|]. cbn. intros r _ _ Hr E. destruct (Hr E). split; [done|].
    constructor; [by left|done]. }
  destruct (c =? 0) eqn:E0; cbn [negb]; boolify; cycle 1.
  { apply gives_discard. intros s1. by apply yields_ok. }
  apply yields_ask. intros t. unfold str_equal. case_bool_decide as Hm; cbn [negb].
  - apply gives_discard. intros s1. eapply yields_weaken; [apply IH|]. cbn.
    intros r _ _ Hr E. destruct (Hr E). split; [done|]. constructor; [|done]. right. eauto.
  - apply gives_rename; [done|]. intros _ s1. apply gives_rename; [done|]. intros _ s2.
    destruct dwarf; [apply gives_rename; [done|]; intros _ s3|]; by apply yields_ok.
Qed.

(** Repeated builds. When the comparison of several builds of a job ends
    with 0, no child was killed, the first job ended with 0, and every other one
    did so with an output of the same checksum, or ended with the code 42. *)
Theorem repeats_agree dwarf preproc output others misc_error code codes s s' :
  settle dwarf preproc (output :: others) misc_error (code :: codes) s = Ok (inr 0, s') ->
  misc_error = false /\ code = 0 /\
  exists t, Forall (agrees (h_md5 t output)) (zip others codes).
Proof.
  intros E. assert (gives (settle dwarf preproc (output :: others) misc_error (code :: codes)) s
    (fun r => r = inr 0 -> misc_error = false /\ code = 0 /\
       exists t, Forall (agrees (h_md5 t output)) (zip others codes))) as Hg.
  { cbn [settle]. destruct misc_error.
    - apply yields_assoc, gives_discard_all. intros s1. apply yields_passed, gives_unlink.
      intros _ s2. by apply yields_raise.
    - apply yields_assoc, yields_ask. intros t. eapply yields_bind; [apply compare_jobs_zero| |done].
      cbn. intros ret l s1 Hr. apply gives_unlink. intros _ s2. apply yields_ok. intros [= ->].
      destruct Hr; [done|]. eauto. }
  destruct (Hg _ _ E) as (_ & _ & Hr). by apply Hr.
Qed.
End repeats.

(** ** The lock of the machine *)

Section lock.
Context `{Host}.

(** A slot was locked, and its descriptor kept. *)
Definition holds_lock (s : Build) : Prop :=
  exists t fname block, h_lockfile t fname block = Some (bd_lock_fd s).

(** The answer of an attempt, which does not throw. *)
Definition attempt (r : client_exn + bool) (_ : list client_effect) (s' : Build) : Prop :=
  exists b, r = inr b /\ (b = true -> holds_lock s').

Lemma slot_locks fname lock block s : yields (dcc_lock_host_slot fname lock block) s attempt.
Proof.
  apply yields_ask. intros t. destruct (h_lockfile t _ block) as [fd|] eqn:E.
  - apply yields_change; [done|]. apply yields_ok. exists true. split; [done|]. by eexists t, _, block.
  - apply yields_ok. by exists false.
Qed.
Lemma try_slots_locks fname lock n s : yields (try_slots fname lock n) s attempt.
Proof.
  revert lock s. induction n as [|n IH]; intros lock s; cbn [try_slots].
  { apply yields_ok. by exists false. }
  eapply yields_bind; [apply slot_locks|..]; cbn.
  - intros b l s1 (b' & E & Hb). injection E as <-. destruct b.
    + apply yields_ok. exists true. auto.
    + eapply yields_weaken; [apply IH|done].
  - by intros e l s1 (b & E & _).
Qed.
Lemma lock_host_locks s : yields dcc_lock_host s attempt.
Proof.
  apply yields_look, yields_require. intros _. apply yields_ask. intros t.
  destruct (h_mkdir t _); cbn [negb]; [|apply yields_ok; by exists false].
  apply yields_change; [done|]. eapply yields_bind; [apply try_slots_locks|..]; cbn.
  - intros b l s1 (b' & E & Hb). injection E as <-. destruct b.
    + apply yields_ok. exists true. auto.
    + destruct (_ =? 0); [apply yields_throw|]. eapply yields_weaken; [apply slot_locks|done].
  - by intros e l s1 (b & E & _).
Qed.

(** The end of a process that becomes the compiler. *)
Lemma exec_yields {A} argv s :
  yields (exec (A := A) argv) s (fun r l s' => bd_lock_fd s' = -1 /\
    (bd_lock_fd s <> -1 -> l = [Closed (bd_lock_fd s)])).
Proof.
  apply yields_assoc, yields_look, yields_assoc, yields_if; intros Ef; boolify.
  - apply yields_emit, yields_change; [done|]. by apply yields_raise.
  - apply yields_passed, yields_change; [done|]. by apply yields_raise.
Qed.

(** With a child the client goes on. *)
Definition in_child (argv : list string) (color : bool) : build Z :=
  forked ⇐ ask h_fork;
  _ ⇐ (if forked : bool then emit (Ran argv) else ok tt);
  _ ⇐ (if color then
         reads ⇐ ask h_pipe_reads; emit (Wrote 2 (colorify_output (all_read reads)))
       else ok tt);
  status ⇐ (if forked : bool then ask h_wait else ok 1);
  _ ⇐ dcc_unlock;
  ok (shell_exit_status status).
Lemma child_yields argv color s : gives (in_child argv color) s (fun r => exists code, r = inr code).
Proof.
  assert (forall st s1, gives (_ ⇐ dcc_unlock; ok (shell_exit_status st)) s1 (fun r => exists code, r = inr code)) as Hend.
  { intros st s1. apply yields_assoc, yields_look, yields_assoc, yields_if; intros _;
      [apply yields_emit|apply yields_passed]; (apply yields_change; [done|]); apply yields_ok; eauto. }
  apply yields_ask. intros t. apply yields_if; intros E; [apply yields_emit|apply yields_passed];
    (apply yields_if; intros _; [apply yields_assoc, yields_ask; intros t2; apply yields_emit|apply yields_passed]);
    rewrite E; first [apply yields_ask; intros t3|apply yields_passed]; apply Hend.
Qed.

(** Where the lock is held, it is not once the process has become another. *)
Lemma exec_or_child argv argv' (color : bool) s :
  holds_lock s ->
  yields (if negb color then exec argv else in_child argv color) s (fun r l s' =>
    r = inl (became argv') -> bd_lock_fd s' = -1 /\
    exists fd, (exists t fname block, h_lockfile t fname block = Some fd) /\ (fd <> -1 -> l = [Closed fd])).
Proof.
  intros Hl. destruct color; cbn [negb].
  - eapply yields_weaken; [apply child_yields|]. by intros r l s' [code ->].
  - eapply yields_weaken; [apply exec_yields|]. cbn. intros r l s' [Hfd Hc] _. split; [done|].
    exists (bd_lock_fd s). auto.
Qed.

(** Without the daemon the lock of the machine is lost before the compiler
    runs. A client that compiles by itself takes a slot of the lock and then, with
    nobody to wait for the compiler, becomes the compiler; the lock, whose file is
    closed then, does not limit the number of compilers. *)
Theorem exec_drops_lock explicit_color job s argv s' :
  build_local explicit_color job false false s = Ok (inl (became argv), s') ->
  bd_lock_fd s' = -1 /\
  exists fd before, (exists t fname block, h_lockfile t fname block = Some fd) /\
    (fd <> -1 -> bd_effects s' = before ++ [Closed fd]).
Proof.
  intros E. enough (yields (build_local explicit_color job false false) s (fun r l s' =>
    r = inl (became argv) -> bd_lock_fd s' = -1 /\
    exists fd before, (exists t fname block, h_lockfile t fname block = Some fd) /\
      (fd <> -1 -> l = before ++ [Closed fd]))) as Hy.
  { destruct (Hy _ _ E) as (l & El & Hl). destruct (Hl eq_refl) as (Hfd & fd & before & Hlock & Hc).
    split; [done|]. exists fd, (bd_effects s ++ before). split; [done|]. intros Hne.
    by rewrite El, (Hc Hne), app_assoc. }
  apply yields_from_res. intros name _. destruct (str_equal name ""); [by apply yields_ok|].
  eapply yields_bind; [apply lock_host_locks|..]; cbn; [|by intros e l s1 (b & Eb & _)].
  intros b l s1 (b' & Eb & Hb). injection Eb as <-. destruct b; cbn [negb]; [|by apply yields_ok].
  specialize (Hb eq_refl). clear E.
  assert (forall color s2, holds_lock s2 ->
    yields (if negb color then exec (local_argv name job) else in_child (local_argv name job) color) s2
      (fun r l' s' => r = inl (became argv) -> bd_lock_fd s' = -1 /\
         exists fd before, (exists t fname block, h_lockfile t fname block = Some fd) /\
           (fd <> -1 -> l ++ l' = before ++ [Closed fd]))) as Hrest.
  { intros color s2 Hl. eapply yields_weaken; [by apply exec_or_child|]. cbn.
    intros r l' s3 Hr Er. destruct (Hr Er) as (? & fd & ? & Hc). split; [done|]. exists fd, l.
    split; [done|]. intros Hne. by rewrite (Hc Hne). }
  assert (forall (wanted : bool) s2, holds_lock s2 ->
    yields (color ⇐ (if wanted then ask h_pipe else ok false);
            if negb color then exec (local_argv name job) else in_child (local_argv name job) color) s2
      (fun r l' s' => r = inl (became argv) -> bd_lock_fd s' = -1 /\
         exists fd before, (exists t fname block, h_lockfile t fname block = Some fd) /\
           (fd <> -1 -> l ++ l' = before ++ [Closed fd]))) as Hwanted.
  { intros wanted s2 Hl. apply yields_if; intros _; [apply yields_ask; intros t|apply yields_passed];
      by apply Hrest. }
  apply yields_if; intros _; [by apply yields_passed, (Hwanted false)|].
  apply yields_from_res. intros wanted _. by apply (Hwanted wanted).
Qed.
End lock.

(** ** Samples *)

Definition sample_usecs : UseCSMsg := mkUseCSMsg 7 "server" 10245 "x86_64" 1 0 0.
Definition compiling_server : list Msg :=
  [CompileResult (mkCompileResultMsg 0 "" "" false false); chunk [x41; x42]; EndMsg].
Definition compiling_host : Host := host_with compiling_server [Some [x69; x6e; x74]].
Definition client_at_start : Build := sample_build None.
Abbreviation compiling := (@build_remote_int client_channels compiling_host false false sample_usecs
  "gcc" "/envs/gcc.tar.gz" None true client_at_start).

Lemma compiling_returns : exists s', compiling = Ok (inr 0, s').
Proof.
  assert (match compiling with Ok (inr c, _) => c =? 0 | _ => false end = true) as E by (vm_compute; reflexivity).
  revert E. generalize compiling as r. intros [[[e|c] s']|f] E; try discriminate E.
  apply Z.eqb_eq in E as ->. by exists s'.
Qed.

Lemma remote_conversation_witness :
  exists s' news, compiling = Ok (inr 0, s') /\ bd_effects s' = bd_effects client_at_start ++ news /\
    (@conversation compiling_host sample_usecs "/envs/gcc.tar.gz" None
       (numbered sample_usecs "gcc" (bd_job client_at_start)) 0 client_at_start news s' \/
     (0 <> 0 /\ unanswered news)).
Proof.
  destruct compiling_returns as [s' E]. exists s'.
  destruct (@remote_conversation client_channels compiling_host false false sample_usecs "gcc"
    "/envs/gcc.tar.gz" None true client_at_start 0 s') as (news & El & Hc).
  - split; vm_compute; discriminate.
  - exact E.
  - exists news. split; [exact E|]. split; [exact El|exact Hc].
Defined.

(** A list with two files for a platform, one of another prefix, and one that is
    too small. *)
Definition listed_machine : machine :=
  mkMachine (fun v => if str_equal v "ICECC_VERSION" then Some "a.tgz,i386:b.tgz,c.tgz,arm:small.tgz" else None)
    "/" (fun _ => true) (fun _ => Some Regular)
    (fun f => Some (Regular, if str_equal f "small.tgz" then 499 else 500)) (fun _ => None)
    (fun _ _ _ => ""%string) false false false%string.

Lemma parse_icecc_version_spec_witness :
  parse_icecc_version listed_machine "x86_64" "" = Ok [("x86_64", "a.tgz"); ("i386", "b.tgz")]%string /\
  exists envs, parse_icecc_version listed_machine "x86_64" "" = Ok envs /\ NoDup (map fst envs) /\
    forall platform version, (platform, version) ∈ envs <->
      first_usable listed_machine platform (offered "x86_64" "" "a.tgz,i386:b.tgz,c.tgz,arm:small.tgz")
      = Some version.
Proof.
  split; [vm_compute; reflexivity|].
  apply (parse_icecc_version_spec listed_machine "x86_64" "" "a.tgz,i386:b.tgz,c.tgz,arm:small.tgz");
    [reflexivity|discriminate].
Defined.

Abbreviation settling := (@settle compiling_host false "/tmp/a.ix" ["a.o"; "b.o"; "c.o"]%string false [0; 0; 42]
  client_at_start).
Lemma settling_returns : exists s', settling = Ok (inr 0, s').
Proof.
  assert (match settling with Ok (inr c, _) => c =? 0 | _ => false end = true) as E by (vm_compute; reflexivity).
  revert E. generalize settling as r. intros [[[e|c] s']|f] E; try discriminate E.
  apply Z.eqb_eq in E as ->. by exists s'.
Qed.
Lemma repeats_agree_witness :
  exists s', settling = Ok (inr 0, s') /\ false = false /\ 0 = 0 /\
    exists t, Forall (@agrees compiling_host (@h_md5 compiling_host t "a.o")) [("b.o", 0); ("c.o", 42)]%string.
Proof.
  destruct settling_returns as [s' E]. exists s'. split; [exact E|].
  exact (@repeats_agree compiling_host false "/tmp/a.ix" "a.o" ["b.o"; "c.o"]%string false 0 [0; 42]
    client_at_start s' E).
Defined.

Definition alone_argv : list string := ["/usr/bin/g++"; "-O2"; "-c"; "a.cpp"; "-o"; "a.o"]%string.
Abbreviation alone := (@build_local compiling_host false sample_job false false client_at_start).
Lemma alone_becomes : exists s', alone = Ok (inl (became alone_argv), s').
Proof.
  assert (match alone with Ok (inl (became a), _) => bool_decide (a = alone_argv) | _ => false end = true) as E
    by (vm_compute; reflexivity).
  revert E. generalize alone as r. intros [[[[]|c] s']|f] E; try discriminate E.
  apply bool_decide_eq_true in E as ->. by exists s'.
Qed.
Lemma exec_drops_lock_witness :
  exists s', alone = Ok (inl (became alone_argv), s') /\ bd_lock_fd s' = -1 /\
    exists fd before, (exists t fname block, @h_lockfile compiling_host t fname block = Some fd) /\
      (fd <> -1 -> bd_effects s' = before ++ [Closed fd]).
Proof.
  destruct alone_becomes as [s' E]. exists s'. split; [exact E|].
  exact (@exec_drops_lock compiling_host false sample_job client_at_start alone_argv s' E).
Defined.
