(* ===== verification/Worker.v ===== *)
(** * The child that compiles and its system (daemon/workit.h, file_util.cpp,
    environment.cpp, services/tempfile.c)

    The daemon forks a child for every job it compiles for others. Here are the
    state of that child, the questions it puts to the system, and what it does
    with temporary files, directories and the environment. WorkIt.v and Serve.v
    are written with them. *)

From Stdlib Require Import ZArith Lia.
From Stdlib Require Import Strings.Byte Strings.String.
From stdpp Require Import base tactics option list gmap strings pretty.
From S2P Require Import Prelude Effects ExitCode StdString MsgChannel CompileJob Msg Interface Transport.

#[local] Open Scope Z_scope.
#[local] Open Scope icecc_scope.

(** ** The state *)

(** What can be observed from outside, in order. The channel of the client is
    shared with the compiler's process until that is replaced by the compiler. *)
Inductive work_effect : Type :=
| Told (m : Msg) (sent : bool)                        (* the client *)
| Heard (m : option Msg)
| Reported (job_stat : list Z)                        (* the pipe to the daemon *)
| Entered (directory : string)                        (* chroot *)
| Started (directory : string) (argv : list string)   (* the compiler *)
| Terminated                                          (* SIGTERM for the compiler *)
| Fed (bs : list byte)                                (* the compiler's input *)
| Input_closed
| Made_directory (path : string)
| Removed (path : string).

Record Work : Type := mkWork {
  wk_client : MsgChannel;
  wk_rmsg : CompileResultMsg;
  wk_stat : list Z;     (* job_stat *)
  wk_out_fd : bool;     (* open *)
  wk_asked : nat;
  wk_effects : list work_effect
}.

Definition set_wk_client (v : MsgChannel) (r : Work) : Work :=
  mkWork v (r.(wk_rmsg)) (r.(wk_stat)) (r.(wk_out_fd)) (r.(wk_asked))
    (r.(wk_effects)).
Definition set_wk_rmsg (v : CompileResultMsg) (r : Work) : Work :=
  mkWork (r.(wk_client)) v (r.(wk_stat)) (r.(wk_out_fd)) (r.(wk_asked))
    (r.(wk_effects)).
Definition set_wk_stat (v : list Z) (r : Work) : Work :=
  mkWork (r.(wk_client)) (r.(wk_rmsg)) v (r.(wk_out_fd)) (r.(wk_asked))
    (r.(wk_effects)).
Definition set_wk_out_fd (v : bool) (r : Work) : Work :=
  mkWork (r.(wk_client)) (r.(wk_rmsg)) (r.(wk_stat)) v (r.(wk_asked))
    (r.(wk_effects)).
Definition set_wk_asked (v : nat) (r : Work) : Work :=
  mkWork (r.(wk_client)) (r.(wk_rmsg)) (r.(wk_stat)) (r.(wk_out_fd)) v
    (r.(wk_effects)).
Definition set_wk_effects (v : list work_effect) (r : Work) : Work :=
  mkWork (r.(wk_client)) (r.(wk_rmsg)) (r.(wk_stat)) (r.(wk_out_fd))
    (r.(wk_asked)) v.

(** The fields of [job_stat] *)
Definition in_compressed : nat := 0.
Definition in_uncompressed : nat := 1.
Definition out_uncompressed : nat := 2.
Definition exit_code : nat := 3.
Definition real_msec : nat := 4.
Definition user_msec : nat := 5.
Definition sys_msec : nat := 6.
Definition sys_pfaults : nat := 7.

(** ** The system

    Its answers, each to a question put at some time. *)

(** The ends of pipes and connections that are polled. *)
Inductive pipe_end : Type := Sock_out | Sock_err | Client_fd | Death_pipe | Sock_in.
#[export] Instance pipe_end_eq_dec : EqDecision pipe_end.
Proof. solve_decision. Defined.

Inductive poll_answer : Type :=
| Timed_out
| Interrupted                            (* EINTR *)
| Poll_failed
| Ready (revents : pipe_end -> Z).
Inductive write_answer : Type := Written (n : Z) | Write_again (* EINTR *) | Write_failed.
(** Making a file or a directory: made; there is none above it; there is one of
    that name; refused for a reason that another name would change; otherwise. *)
Inductive creation : Type := Created | No_parent | Exists | Other_name | Refused.

Record rusage : Type := mkRusage {
  ru_utime : Z * Z;
  ru_stime : Z * Z;
  ru_minflt : Z;
  ru_majflt : Z;
  ru_nswap : Z
}.

(** A directory as [opendir], [readdir] and [stat] show it. *)
Inductive node : Type :=
| File_node
| Dangling_node                                       (* [stat] fails *)
| Directory_node (opened : bool) (entries : entries)
with entries : Type :=
| No_entries
| Entry (name : string) (n : node) (rest : entries).

Class Workplace : Type := {
  w_pid : Z;
  w_pagesize : Z;
  w_uid : nat -> Z;
  w_gid : nat -> Z;
  w_time : nat -> Z * Z;                              (* gettimeofday *)
  w_executable : nat -> string -> bool;               (* access X_OK *)
  w_writable : nat -> string -> bool;
  w_chdir : nat -> string -> bool;
  w_chroot : nat -> string -> bool;
  w_setgroups : nat -> bool;
  w_setgid : nat -> Z -> bool;
  w_setuid : nat -> Z -> bool;
  w_setrlimit : nat -> Z -> bool;
  w_mkdir : nat -> string -> creation;
  w_open_new : nat -> string -> creation;             (* O_CREAT | O_EXCL *)
  w_close : nat -> bool;
  w_mkdtemp : nat -> string + creation;               (* the name *)
  w_unlink : nat -> string -> bool;
  w_rmdir : nat -> string -> bool;
  w_tree : nat -> string -> node;
  w_stat : nat -> string -> option Z;                 (* the size *)
  w_open : nat -> string -> option (list (option (list byte)));
  w_pipe : nat -> bool;
  w_fork : nat -> bool;
  w_exec : nat -> list string -> bool;                (* the program runs *)
  w_poll : nat -> list (pipe_end * Z) -> Z -> poll_answer;
  w_write : nat -> list byte -> write_answer;         (* to the compiler *)
  w_read : nat -> pipe_end -> option (list byte);     (* from it; empty: the end *)
  w_wait : nat -> option (Z * rusage);                (* wait4: status of the compiler *)
  w_statfs : nat -> option (Z * Z)                    (* f_bavail, f_bsize *)
}.

(** ** Computations

    They return, throw, or the process ends, by itself or by a signal, or becomes
    the compiler. *)

Inductive work_exn : Type :=
| myexception (code : Z)
| process_exit (code : Z)
| died (signal : Z)
| executes (argv : list string).

Abbreviation work A := (M Work (sum work_exn A)) (only parsing).

Definition inquire {A} (q : nat -> A) : work A :=
  n ⇐ look wk_asked; _ ⇐ change (set_wk_asked (S n)); ok (q n).
Definition note (e : work_effect) : work unit :=
  change (fun s => set_wk_effects (wk_effects s ++ [e]) s).

Definition on_channel {A} (r : reader A) : work A :=
  c ⇐ look wk_client;
  match r c with
  | Ok (a, c') => _ ⇐ change (set_wk_client c'); ok a
  | Fault f => throw f
  end.

Section talk.
Context `{Channels}.
Definition tell (m : Msg) : work bool :=
  b ⇐ on_channel (ch_send m SendBlocking); _ ⇐ note (Told m b); ok b.
Definition hear (timeout : Z) (eof_allowed : bool) : work (option Msg) :=
  m ⇐ on_channel (ch_get timeout eof_allowed); _ ⇐ note (Heard m); ok m.

(** [error_client]: of serve.cpp for protocol 22, of workit.cpp and environment.cpp
    for 23. *)
Definition error_client (version : Z) (error : string) : work unit :=
  speaks ⇐ look (fun s => is_protocol_version version (wk_client s));
  if speaks : bool then _ ⇐ tell (StatusText error); ok tt else ok tt.
End talk.

Definition set_stat (i : nat) (v : Z) : work unit :=
  change (fun s => set_wk_stat (<[i := u32 v]> (wk_stat s)) s).
Definition add_stat (i : nat) (v : Z) : work unit :=
  change (fun s => set_wk_stat (<[i := u32 (nth i (wk_stat s) 0 + v)]> (wk_stat s)) s).

(** ** Temporary files (services/tempfile.c) *)

Section files.
Context `{Workplace}.

(** [%08lx] of 32 bits *)
Fixpoint hex (n : nat) (z : Z) : list byte :=
  match n with
  | O => []
  | S n => let d := z mod 16 in
           hex n (z / 16) ++ [byte_of_Z (if d <? 10 then 48 + d else 87 + d)]
  end.

(** How often another name is tried. *)
Definition max_tries : Z := 1000000.

Definition tmpname (prefix suffix : string) (relative : bool) (random_bits : Z) : string :=
  ((if relative then "tmp" else "/tmp") +:+ "/" +:+ prefix +:+ "_" +:+
   str_of (hex 8 (Z.land random_bits (2 ^ 32 - 1))) +:+ suffix)%string.

Fixpoint try_names (fuel : nat) (prefix suffix : string) (relative : bool) (tries random_bits : Z)
  : work (Z + string) :=
  let name := tmpname prefix suffix relative random_bits in
  made ⇐ inquire (fun t => w_open_new t name);
  match made with
  | Created =>
      closed ⇐ inquire w_close;
      ok (if closed : bool then inr name else inl EXIT_IO_ERROR)
  | answer =>
      let tries := tries + 1 in
      if max_tries <? tries then ok (inl EXIT_IO_ERROR)
      else
        match answer with
        | Exists | Other_name =>
            match fuel with
            | O => throw Aborted
            | S fuel => try_names fuel prefix suffix relative tries (u64 (random_bits + 7777))
            end
        | _ => ok (inl EXIT_IO_ERROR)
        end
  end.

Definition dcc_make_tmpnam (prefix suffix : string) (relative : bool) : work (Z + string) :=
  tv ⇐ inquire w_time;
  let random_bits := u64 (Z.shiftl w_pid 16) in
  let random_bits := Z.lxor random_bits (u64 (Z.shiftl tv.2 16)) in
  let random_bits := Z.lxor random_bits (u64 tv.1) in
  try_names (Z.to_nat max_tries) prefix suffix relative 0 random_bits.

Fixpoint try_directories (fuel : nat) (tries : Z) : work (Z + string) :=
  made ⇐ inquire w_mkdtemp;
  match made with
  | inl name => ok (inr name)
  | inr answer =>
      let tries := tries + 1 in
      if max_tries <? tries then ok (inl EXIT_IO_ERROR)
      else
        match answer with
        | Exists | Other_name =>
            match fuel with O => throw Aborted | S fuel => try_directories fuel tries end
        | _ => ok (inl EXIT_IO_ERROR)
        end
  end.
Definition dcc_make_tmpdir : work (Z + string) := try_directories (Z.to_nat max_tries) 0.

(** ** Directories (daemon/file_util.cpp) *)

Definition make_directory (path : string) : work creation :=
  made ⇐ inquire (fun t => w_mkdir t path);
  match made with
  | Created => _ ⇐ note (Made_directory path); ok Created
  | answer => ok answer
  end.

(** A name without a slash is its own parent: then there is no end. *)
Fixpoint mkpath_in (fuel : nat) (path : string) : work bool :=
  made ⇐ make_directory path;
  match made with
  | Created | Exists => ok true
  | No_parent =>
      match fuel with
      | O => throw Aborted
      | S fuel =>
          parent ⇐ mkpath_in fuel (substr path 0 (rfind "/" path));
          if parent : bool then
            made ⇐ make_directory path;
            ok match made with Created => true | _ => false end
          else ok false
      end
  | _ => ok false
  end.
Definition mkpath (path : string) : work bool := mkpath_in (length (bytes_of path)) path.

Definition remove_file (path : string) : work bool :=
  gone ⇐ inquire (fun t => w_unlink t path);
  _ ⇐ (if gone : bool then note (Removed path) else ok tt);
  ok gone.
Definition remove_directory (path : string) : work bool :=
  gone ⇐ inquire (fun t => w_rmdir t path);
  _ ⇐ (if gone : bool then note (Removed path) else ok tt);
  ok gone.

(** The result is an [int] that is returned as a [bool]: false when everything
    is removed. *)
Fixpoint rmpath_node (n : node) (path : string) : work bool :=
  match n with
  | Directory_node true entries =>
      r ⇐ rmpath_entries entries path;
      if r =? 0 then gone ⇐ remove_directory path; ok (negb gone) else ok true
  | _ => ok true
  end
with rmpath_entries (l : entries) (path : string) : work Z :=
  match l with
  | No_entries => ok 0
  | Entry name n rest =>
      let buf := (path +:+ "/" +:+ name)%string in
      r2 ⇐ match n with
           | Dangling_node => ok (-1)
           | Directory_node _ _ => r ⇐ rmpath_node n buf; ok (z_of_bool r)
           | File_node => gone ⇐ remove_file buf; ok (if gone : bool then 0 else -1)
           end;
      if r2 =? 0 then rmpath_entries rest path else ok r2
  end.
Definition rmpath (path : string) : work bool :=
  n ⇐ inquire (fun t => w_tree t path);
  rmpath_node n path.
End files.

(** ** The environment (daemon/environment.cpp)

    [libcap_ng] is whether the daemon was built with that library. *)

Section environment.
Context `{Channels} `{Workplace}.

Definition must (worked : bool) (error : string) (code : Z) : work unit :=
  if worked then ok tt
  else _ ⇐ error_client 23 error; raise (process_exit code).

Definition enter_root (dirname : string) : work unit :=
  moved ⇐ inquire (fun t => w_chdir t dirname);
  _ ⇐ must moved ("chdir to " +:+ dirname +:+ "failed") 145;
  caged ⇐ inquire (fun t => w_chroot t dirname);
  _ ⇐ must caged ("chroot " +:+ dirname +:+ "failed") 144;
  note (Entered dirname).

Definition chdir_to_environment (libcap_ng : bool) (dirname : string) (user_uid user_gid : Z) : work unit :=
  if libcap_ng then enter_root dirname
  else
    uid ⇐ inquire w_uid;
    if uid =? 0 then
      _ ⇐ enter_root dirname;
      worked ⇐ inquire w_setgroups;
      _ ⇐ must worked "setgroups failed" 143;
      worked ⇐ inquire (fun t => w_setgid t user_gid);
      _ ⇐ must worked "setgid failed" 143;
      worked ⇐ inquire (fun t => w_setuid t user_uid);
      must worked "setuid failed" 142
    else
      _ ⇐ error_client 23 "cannot chroot to environment";
      raise (process_exit 146).
End environment.
