(* ===== verification/WorkIt.v ===== *)
(** * One compilation on a server (daemon/workit.cpp, services/gcc.cpp)

    [work_it]: the compiler is started, the source of the client goes to its
    input, its output into the result, until it ends. *)

From Stdlib Require Import ZArith Lia.
From Stdlib Require Import Strings.Byte Strings.String.
From stdpp Require Import base tactics option list gmap strings pretty.
From S2P Require Import Prelude Effects ExitCode StdString MsgChannel CompileJob Msg Interface Transport Float Worker.

#[local] Open Scope Z_scope.
#[local] Open Scope icecc_scope.

(** ** The limits of gcc's garbage collector (services/gcc.cpp) *)

Definition ggc_min_expand_heuristic (mem_limit : Z) : option Z :=
  let min_expand := fmul64 (fdiv64 (f64_of_Z mem_limit) (f64_of_Z 1024)) (f64_of_Z 70) in
  let min_expand := if flt (f64_of_Z 70) min_expand then f64_of_Z 70 else min_expand in
  f64_to_ulong (fadd64 min_expand (f64_of_Z 30)).

Definition ggc_min_heapsize_heuristic (mem_limit : Z) : Z :=
  Z.min (Z.max (mem_limit / 8) 4) 128 * 1024.

(** ** The result *)

Definition set_status (v : Z) (m : CompileResultMsg) : CompileResultMsg :=
  mkCompileResultMsg v (cr_out m) (cr_err m) (cr_was_out_of_memory m) (cr_have_dwo_file m).
Definition set_out (v : string) (m : CompileResultMsg) : CompileResultMsg :=
  mkCompileResultMsg (cr_status m) v (cr_err m) (cr_was_out_of_memory m) (cr_have_dwo_file m).
Definition set_err (v : string) (m : CompileResultMsg) : CompileResultMsg :=
  mkCompileResultMsg (cr_status m) (cr_out m) v (cr_was_out_of_memory m) (cr_have_dwo_file m).
Definition set_rmsg (f : CompileResultMsg -> CompileResultMsg) : work unit :=
  change (fun s => set_wk_rmsg (f (wk_rmsg s)) s).

(** ** The compiler's process *)

Definition language_name (l : Language) : option string :=
  match l with
  | Lang_C => Some "c"%string
  | Lang_CXX => Some "c++"%string
  | Lang_OBJC => Some "objective-c"%string
  | Lang_OBJCXX => Some "objective-c++"%string
  | _ => None
  end.

Definition remote_flags (proto41 : bool) (j : CompileJob) : list string :=
  nonLocalFlags j ++ (if negb proto41 && j_dwarf_fission j then ["-gsplit-dwarf"%string] else []).

(** The program, and whether it is clang; [None] where an assertion fails. *)
Definition compiler_program (proto30 : bool) (j : CompileJob) : option (string * bool) :=
  if proto30 then
    if bool_decide (j_compiler_name j = ""%string) then None
    else Some (("/usr/bin/" +:+ j_compiler_name j)%string, StdString.contains "clang" (j_compiler_name j))
  else
    match j_language j with
    | Lang_C => Some ("/usr/bin/gcc"%string, false)
    | Lang_CXX => Some ("/usr/bin/g++"%string, false)
    | _ => None
    end.

(** Room for so many arguments is made. *)
Definition argv_room (flags : list string) : Z := Z.of_nat (length flags) + 1 + 6 + 4 + 9.

Definition compiler_argv (program : string) (clang : bool) (j : CompileJob) (flags : list string)
    (tmp_root file_name : string) (mem_limit : Z) : list string :=
  let limit := u32 mem_limit in
  [program; "-x"%string]
  ++ option_list (language_name (j_language j))
  ++ (if clang then
        (if bool_decide (j_input_file j = ""%string) then []
         else ["-Xclang"; "-main-file-name"; "-Xclang"; j_input_file j]%string)
        ++ (if bool_decide (j_working_directory j = ""%string) then []
            else ["-Xclang"; "-fdebug-compilation-dir"; "-Xclang"; j_working_directory j]%string)
      else [])
  ++ flags
  ++ (if negb clang then ["-fpreprocessed"%string] else [])
  ++ ["-"; "-o"; file_name]%string
  ++ (if negb clang then
        ["--param"; "ggc-min-expand=" +:+ pretty (default 0 (ggc_min_expand_heuristic limit));
         "--param"; "ggc-min-heapsize=" +:+ pretty (ggc_min_heapsize_heuristic limit)]%string
      else ["-no-canonical-prefixes"%string])
  ++ (if negb clang && j_dwarf_fission j then
        [str_of (take 4095 (bytes_of ("-fdebug-prefix-map=" +:+ c_text tmp_root +:+ "/=/")))]%string
      else []).

Section work.
Context `{Channels} `{Workplace}.

(** An assertion that fails ends the child alone. *)
Definition SIGABRT : Z := 6.
Definition child_assert (b : bool) : work unit := if b then ok tt else raise (died SIGABRT).

Definition is_root : work bool :=
  uid ⇐ inquire w_uid;
  if uid =? 0 then ok true else gid ⇐ inquire w_gid; ok (gid =? 0).

(** It begins in the root of the environment. *)
Definition compiler_process (j : CompileJob) (flags : list string)
    (tmp_root build_path file_name : string) (mem_limit : Z) : work unit :=
  root ⇐ is_root;
  _ ⇐ (if root : bool then _ ⇐ error_client 23 "UID is 0 - aborting."; raise (process_exit 142) else ok tt);
  limited ⇐ inquire (fun t => w_setrlimit t (u64 (mem_limit * 1024 * 1024)));
  _ ⇐ (if limited : bool then ok tt else error_client 23 "setrlimit failed.");
  proto30 ⇐ look (fun s => is_protocol_version 30 (wk_client s));
  match compiler_program proto30 j with
  | None => raise (died SIGABRT)
  | Some (program, clang) =>
      _ ⇐ (match language_name (j_language j) with
           | Some _ => ok tt
           | None => error_client 23 "language not supported"
           end);
      let build_dir := (tmp_root +:+ build_path)%string in
      moved ⇐ inquire (fun t => w_chdir t build_dir);
      _ ⇐ (if moved : bool then ok tt else error_client 23 "/tmp dir missing?");
      let argv := compiler_argv program clang j flags tmp_root file_name mem_limit in
      _ ⇐ child_assert (Z.of_nat (length argv) <=? argv_room flags);
      runs ⇐ inquire (fun t => w_exec t argv);
      if runs : bool then
        _ ⇐ note (Started (if moved then build_dir else "/"%string) argv);
        raise (executes argv)
      else raise (process_exit 255)
  end.

(** What the parent sees of it: the compiler runs, it could not be started, or
    the process ended with a status. *)
Inductive child_end : Type :=
| Compiling
| Exec_failed
| Ended (status : Z).

(** [fork]: the memory of the child is its own; what it does is seen. *)
Definition in_child (m : work unit) : work child_end := fun s =>
  match m s with
  | Fault f => Fault f
  | Ok (r, s') =>
      Ok (inr match r with
              | inl (executes _) => Compiling
              | inl (process_exit 255) => Exec_failed
              | inl (process_exit code) => Ended (Z.shiftl code 8)
              | inl (died signal) => Ended signal
              | inl (myexception _) | inr _ => Ended 0
              end,
          set_wk_asked (wk_asked s') (set_wk_effects (wk_effects s') s))
  end.

(** ** The loop *)

(** Its variables; a descriptor is whether it is open. *)
Record Feed : Type := mkFeed {
  fd_return_value : Z;
  fd_input_complete : bool;
  fd_fcmsg : option FileChunkMsg;
  fd_off : Z;
  fd_client : bool;
  fd_in : bool;
  fd_out : bool;
  fd_err : bool
}.

Definition kill_compiler : work unit := note Terminated.
Definition close_input : work unit := note Input_closed.

(** The rest of the source is not wanted any more. *)
Definition abandon (return_value : Z) (l : Feed) : work Feed :=
  _ ⇐ kill_compiler;
  ok (mkFeed return_value true None (fd_off l) false (fd_in l) (fd_out l) (fd_err l)).

Definition is_none {A} (o : option A) : bool := match o with None => true | Some _ => false end.

(** A message of the client, where none waits to be written. *)
Definition take_message (l : Feed) : work Feed :=
  if fd_client l && is_none (fd_fcmsg l) then
    msg ⇐ hear 0 true;
    match msg with
    | Some msg =>
        if fd_input_complete l then
          _ ⇐ set_rmsg (fun r => set_err (cr_err r +:+ "client cancelled" +:+ str_of [x0a])%string r);
          abandon EXIT_CLIENT_KILLED l
        else
          match msg with
          | EndMsg =>
              _ ⇐ (if fd_in l then close_input else ok tt);
              ok (mkFeed (fd_return_value l) true None (fd_off l) (fd_client l) false (fd_out l) (fd_err l))
          | FileChunk m =>
              _ ⇐ add_stat in_uncompressed (fc_len m);
              _ ⇐ add_stat in_compressed (fc_compressed m);
              ok (mkFeed (fd_return_value l) false (Some m) 0 (fd_client l) (fd_in l) (fd_out l) (fd_err l))
          | _ => abandon EXIT_IO_ERROR l
          end
    | None =>
        eof ⇐ look (fun s => at_eof (wk_client s));
        if eof : bool then abandon EXIT_IO_ERROR l else ok l
    end
  else ok l.

(** A chunk for a compiler that reads no more is dropped. *)
Definition drop_chunk (l : Feed) : Feed :=
  if negb (fd_in l) then
    mkFeed (fd_return_value l) (fd_input_complete l) None (fd_off l) (fd_client l) (fd_in l) (fd_out l) (fd_err l)
  else l.

Definition pollfds (l : Feed) : list (pipe_end * Z) :=
  (if fd_out l then [(Sock_out, POLLIN)] else [])
  ++ (if fd_err l then [(Sock_err, POLLIN)] else [])
  ++ (if fd_client l && is_none (fd_fcmsg l) then [(Client_fd, POLLIN)] else [])
  ++ (if fd_input_complete l then [(Death_pipe, POLLIN)] else [])
  ++ (if negb (is_none (fd_fcmsg l)) && fd_in l then [(Sock_in, POLLOUT)] else []).

Inductive step : Type :=
| Continue (l : Feed)
| Return (return_value : Z).

(** Whether the rest of the round follows. *)
Definition write_input (m : FileChunkMsg) (l : Feed) : work (Feed + Feed) :=
  data ⇐ from_res (chunk_data m);
  answer ⇐ match data with
           | None => ok Write_failed
           | Some bs => inquire (fun t => w_write t (drop (Z.to_nat (fd_off l)) bs))
           end;
  match answer with
  | Write_again => ok (inl l)
  | Write_failed =>
      _ ⇐ kill_compiler;
      _ ⇐ close_input;
      ok (inl (mkFeed (if fd_input_complete l then EXIT_COMPILER_CRASHED else fd_return_value l)
                 (fd_input_complete l) None (fd_off l) (fd_client l) false (fd_out l) (fd_err l)))
  | Written bytes =>
      _ ⇐ note (Fed (take (Z.to_nat bytes) (drop (Z.to_nat (fd_off l)) (default [] data))));
      let off := fd_off l + bytes in
      if off =? fc_len m then
        _ ⇐ (if fd_input_complete l then close_input else ok tt);
        ok (inr (mkFeed (fd_return_value l) (fd_input_complete l) None off (fd_client l)
                   (if fd_input_complete l then false else fd_in l) (fd_out l) (fd_err l)))
      else
        ok (inr (mkFeed (fd_return_value l) (fd_input_complete l) (Some m) off (fd_client l)
                   (fd_in l) (fd_out l) (fd_err l)))
  end.

(** [append(buffer)]: up to the first zero. Whether the stream stays open. *)
Definition read_output (fd : pipe_end) (append : string -> CompileResultMsg -> CompileResultMsg)
  : work bool :=
  data ⇐ inquire (fun t => w_read t fd);
  match data with
  | Some [] => ok false
  | Some bs => _ ⇐ set_rmsg (append (c_text (str_of bs))); ok true
  | None => ok true
  end.
Definition append_out (text : string) (r : CompileResultMsg) : CompileResultMsg :=
  set_out (cr_out r +:+ text)%string r.
Definition append_err (text : string) (r : CompileResultMsg) : CompileResultMsg :=
  set_err (cr_err r +:+ text)%string r.

Definition read_outputs (set : pipe_end -> Z -> bool) (l : Feed) : work Feed :=
  out ⇐ (if fd_out l && set Sock_out POLLIN then read_output Sock_out append_out else ok (fd_out l));
  err ⇐ (if fd_err l && set Sock_err POLLIN then read_output Sock_err append_err else ok (fd_err l));
  ok (mkFeed (fd_return_value l) (fd_input_complete l) (fd_fcmsg l) (fd_off l) (fd_client l) (fd_in l) out err).

(** *** The end of the compiler *)

Definition memory_words : list string :=
  ["memory exhausted"; "out of memory"; "annot allocate memory";
   "failed to map segment from shared object";
   "Assertion `NewElts && " +:+ str_of [x22] +:+ "Out of memory" +:+ str_of [x22] +:+ "' failed";
   "terminate called after throwing an instance of 'std::bad_alloc'";
   "llvm::MallocSlabAllocator::Allocate"]%string.

Definition out_of_memory (ru : rusage) (mem_limit : Z) (err : string) : bool :=
  let mem_used := u64 (Z.quot ((ru_minflt ru + ru_majflt ru) * w_pagesize) 1024) in
  (u64 (85 * mem_limit * 1024) <? u64 (mem_used * 100))
  || existsb (fun word => StdString.contains word err) memory_words.

Definition disk_full (err : string) : work bool :=
  buf ⇐ inquire w_statfs;
  full ⇐ match buf with
         | Some (f_bavail, f_bsize) =>
             if f_bsize =? 0 then throw DivByZero
             else ok (i64 f_bavail <? Z.quot (10 * 1024 * 1024) f_bsize)
         | None => ok false
         end;
  ok (full || StdString.contains "o space left on device" err).

(** The exit code of [work_it] that a failed compilation leads to. *)
Definition failure (ru : rusage) (mem_limit : Z) : work (option Z) :=
  _ ⇐ set_rmsg (set_status EXIT_OUT_OF_MEMORY);
  err ⇐ look (fun s => cr_err (wk_rmsg s));
  if out_of_memory ru mem_limit err then ok (Some EXIT_OUT_OF_MEMORY)
  else
    full ⇐ disk_full err;
    ok (if full : bool then Some EXIT_IO_ERROR else None).

Definition msec_since (a b : Z) : Z := a * 1000 + Z.quot b 1000.

Definition compiler_ended (child : child_end) (starttv : Z * Z) (mem_limit return_value : Z) : work Z :=
  waited ⇐ inquire w_wait;
  match waited with
  | None => throw AssertFailed
  | Some (status, ru) =>
      let status := match child with Ended st => st | _ => status end in
      let code := shell_exit_status status in
      failed ⇐ (if code =? 0 then ok None else failure ru mem_limit);
      match failed with
      | Some ret => ok ret
      | None =>
          _ ⇐ (if WIFEXITED status then
                 endtv ⇐ inquire w_time;
                 _ ⇐ set_rmsg (set_status code);
                 _ ⇐ set_stat exit_code code;
                 _ ⇐ set_stat real_msec (msec_since (endtv.1 - starttv.1) (endtv.2 - starttv.2));
                 _ ⇐ set_stat user_msec (msec_since (ru_utime ru).1 (ru_utime ru).2);
                 _ ⇐ set_stat sys_msec (msec_since (ru_stime ru).1 (ru_stime ru).2);
                 set_stat sys_pfaults (ru_majflt ru + ru_nswap ru + ru_minflt ru)
               else ok tt);
          ok return_value
      end
  end.

(** *** A round *)

Definition after_poll (child : child_end) (starttv : Z * Z) (mem_limit : Z)
    (set : pipe_end -> Z -> bool) (l : Feed) : work step :=
  written ⇐ match fd_fcmsg l with
            | Some m => if set Sock_in POLLOUT then write_input m l else ok (inr l)
            | None => ok (inr l)
            end;
  match written with
  | inl l => ok (Continue l)
  | inr l =>
      l ⇐ read_outputs set l;
      if set Death_pipe POLLIN then
        ret ⇐ compiler_ended child starttv mem_limit (fd_return_value l); ok (Return ret)
      else ok (Continue l)
  end.

Definition poll_round (child : child_end) (starttv : Z * Z) (mem_limit : Z) (l : Feed) : work step :=
  l ⇐ take_message l;
  let l := drop_chunk l in
  answer ⇐ inquire (fun t => w_poll t (pollfds l) (if fd_input_complete l then -1 else 60 * 1000));
  match answer with
  | Timed_out =>
      if fd_input_complete l then throw AssertFailed
      else l ⇐ abandon EXIT_IO_ERROR l; ok (Continue l)
  | Interrupted => ok (Continue l)
  | Poll_failed => throw AssertFailed
  | Ready revents => after_poll child starttv mem_limit (pollfd_is_set (pollfds l) revents) l
  end.

Fixpoint poll_loop (fuel : nat) (child : child_end) (starttv : Z * Z) (mem_limit : Z) (l : Feed) : work Z :=
  r ⇐ poll_round child starttv mem_limit l;
  match r with
  | Return ret => ok ret
  | Continue l =>
      match fuel with
      | O => throw Aborted
      | S fuel => poll_loop fuel child starttv mem_limit l
      end
  end.

(** ** The whole *)

(** Whether all of [n] calls work. *)
Fixpoint pipes (n : nat) : work bool :=
  match n with
  | O => ok true
  | S n => made ⇐ inquire w_pipe; if made : bool then pipes n else ok false
  end.

(** [fuel]: the rounds of the loop. *)
Definition work_it (fuel : nat) (j : CompileJob) (tmp_root build_path file_name : string) (mem_limit : Z)
  : work Z :=
  _ ⇐ set_rmsg (set_out "");
  proto41 ⇐ look (fun s => is_protocol_version 41 (wk_client s));
  let flags := remote_flags proto41 j in
  made ⇐ pipes 6;
  if negb made then ok EXIT_DISTCC_FAILED
  else
    forked ⇐ inquire w_fork;
    if negb forked then ok EXIT_OUT_OF_MEMORY
    else
      child ⇐ in_child (compiler_process j flags tmp_root build_path file_name mem_limit);
      match child with
      | Exec_failed =>
          _ ⇐ set_rmsg (set_status 1);
          _ ⇐ error_client 23 "compiler did not start";
          ok EXIT_COMPILER_MISSING
      | _ =>
          starttv ⇐ inquire w_time;
          poll_loop fuel child starttv mem_limit (mkFeed 0 false None 0 true true true true)
      end.
End work.
