(* ===== verification/Serve.v ===== *)
(** * The child of the daemon (daemon/serve.cpp)

    [handle_connection]: the child enters the environment, compiles, and answers
    the client; at the end it removes its files. *)

From Stdlib Require Import ZArith Lia.
From Stdlib Require Import Strings.Byte Strings.String.
From stdpp Require Import base tactics option list gmap strings pretty.
From S2P Require Import Prelude Effects ExitCode StdString Paths FileUtil MsgChannel CompileJob Msg Interface Transport Worker WorkIt Files.

#[local] Open Scope Z_scope.
#[local] Open Scope icecc_scope.

Section serve.
Context `{Channels} `{Workplace}.

(** ** Sending a file *)

Fixpoint write_output_loop (fuel : nat) (reads : list (option (list byte))) : work unit :=
  match read_some chunk_size reads with
  | (None, _) => raise (myexception EXIT_DISTCC_FAILED)
  | (Some [], _) =>
      sent ⇐ tell EndMsg;
      if negb sent then raise (myexception EXIT_DISTCC_FAILED) else ok tt
  | (Some bytes, reads) =>
      sent ⇐ tell (chunk bytes);
      if negb sent then raise (myexception EXIT_DISTCC_FAILED)
      else match fuel with O => throw Aborted | S fuel => write_output_loop fuel reads end
  end.

Definition write_output_file (file : string) : work unit :=
  obj_fd ⇐ inquire (fun t => w_open t file);
  match obj_fd with
  | None =>
      _ ⇐ error_client 22 "open of object file failed";
      raise (myexception EXIT_DISTCC_FAILED)
  | Some reads => write_output_loop (reads_size reads) reads
  end.

(** ** Where the compiler writes

    The working directory of the client is made again below the temporary one, so
    that the name of the file with the debug information comes out right. *)

(** The part of a name before the last slash, and the one after it. *)
Definition dir_of (file : string) : string :=
  let slash_index := rfind "/" file in
  if slash_index =? npos then "" else substr file 0 slash_index.
Definition name_of (file : string) : string :=
  let slash_index := rfind "/" file in
  if slash_index =? npos then file else substr_from file (slash_index + 1).

(** The directory of the object file, and its name as the compiler gets it. *)
Definition output_place (tmp_path job_output_file job_working_dir : string) : string * string :=
  let canonical s := str_of (get_canonicalized_path (bytes_of s)) in
  let relative to from := str_of (get_relative_path (bytes_of to) (bytes_of from)) in
  let file_dir := dir_of job_output_file in
  if is_absolute (bytes_of file_dir) then
    ((tmp_path +:+ canonical file_dir)%string,
     relative (canonical job_output_file) (canonical job_working_dir))
  else
    let canonicalized_dir := canonical (job_working_dir +:+ "/" +:+ file_dir)%string in
    ((tmp_path +:+ canonicalized_dir)%string,
     relative (canonicalized_dir +:+ "/" +:+ name_of job_output_file)%string (canonical job_working_dir)).

Definition dwo_of (obj_file : string) : string := (substr obj_file 0 (rfind "." obj_file) +:+ ".dwo")%string.

(** ** The compilation *)

(** The files that are removed in the end *)
Record Places : Type := mkPlaces { tmp_path : string; obj_file : string; dwo_file : string }.
Definition no_places : Places := mkPlaces "" "" "".

(** A computation that learns of files to remove before it throws. *)
Abbreviation placed A := (work (Places * (work_exn + A))) (only parsing).
Definition at_places {A} (p : Places) (m : work A) : placed A := r ← m; mret (inr (p, r)).
Definition and_then {A B} (m : placed A) (k : Places -> A -> placed B) : placed B :=
  pr ⇐ m;
  match pr.2 with
  | inl e => ok (pr.1, inl e)
  | inr a => k pr.1 a
  end.

Definition mkdir_or (path error : string) : work unit :=
  made ⇐ mkpath path;
  if negb made then _ ⇐ error_client 22 error; raise (myexception EXIT_IO_ERROR) else ok tt.

Definition compile_fission (fuel : nat) (job : CompileJob) (mem_limit : Z) : placed Z :=
  made ⇐ dcc_make_tmpdir;
  match made with
  | inl ret => ok (no_places, inr ret)
  | inr tmp =>
      let output_file := j_output_file job in
      let working_dir := j_working_directory job in
      let (output_dir, relative_file_path) := output_place tmp output_file working_dir in
      and_then (at_places (mkPlaces tmp "" "")
                  (_ ⇐ mkdir_or output_dir "could not create object file location in tmp directory";
                   mkdir_or (tmp +:+ working_dir) "could not create compiler working directory in tmp directory"))
        (fun _ _ =>
           let obj := (output_dir +:+ "/" +:+ name_of output_file)%string in
           at_places (mkPlaces tmp obj (dwo_of obj))
             (work_it fuel job tmp working_dir relative_file_path mem_limit))
  end.

Definition compile_plain (fuel : nat) (job : CompileJob) (mem_limit : Z) : placed Z :=
  let prefix_output := ("icecc-" +:+ pretty (u32 (j_id job)))%string in
  made ⇐ dcc_make_tmpnam prefix_output ".o" false;
  match made with
  | inl ret => ok (no_places, inr ret)
  | inr tmp_output =>
      at_places (mkPlaces "" tmp_output "")
        (work_it fuel job (dir_of tmp_output) "" (name_of tmp_output) mem_limit)
  end.

Definition compile (fuel : nat) (job : CompileJob) (mem_limit : Z) : placed Z :=
  if j_dwarf_fission job then compile_fission fuel job mem_limit else compile_plain fuel job mem_limit.

(** ** The answer *)

Definition set_memory (v : bool) (m : CompileResultMsg) : CompileResultMsg :=
  mkCompileResultMsg (cr_status m) (cr_out m) (cr_err m) v (cr_have_dwo_file m).
Definition set_dwo (v : bool) (m : CompileResultMsg) : CompileResultMsg :=
  mkCompileResultMsg (cr_status m) (cr_out m) (cr_err m) (cr_was_out_of_memory m) v.

(** Too little memory or disk is told as such. *)
Definition judge (ret : Z) : work unit :=
  if ret =? 0 then ok tt
  else if (ret =? EXIT_OUT_OF_MEMORY) || (ret =? EXIT_IO_ERROR) then set_rmsg (set_memory true)
  else raise (myexception ret).

(** A write to a pipe that is closed is lost. *)
Definition report : work unit :=
  open ⇐ look wk_out_fd;
  stat ⇐ look wk_stat;
  _ ⇐ (if open : bool then note (Reported stat) else ok tt);
  change (set_wk_out_fd false).

Definition answer (p : Places) (ret : Z) : work Z :=
  _ ⇐ judge ret;
  st ⇐ inquire (fun t => w_stat t (obj_file p));
  _ ⇐ match st with Some st_size => add_stat out_uncompressed st_size | None => ok tt end;
  st ⇐ inquire (fun t => w_stat t (dwo_file p));
  _ ⇐ match st with Some st_size => add_stat out_uncompressed st_size | None => ok tt end;
  _ ⇐ set_rmsg (set_dwo (bool_decide (is_Some st)));
  rmsg ⇐ look wk_rmsg;
  sent ⇐ tell (CompileResult rmsg);
  if negb sent then raise (myexception EXIT_DISTCC_FAILED)
  else
    _ ⇐ report;
    _ ⇐ (if cr_status rmsg =? 0 then
           _ ⇐ write_output_file (obj_file p);
           if cr_have_dwo_file rmsg then write_output_file (dwo_file p) else ok tt
         else ok tt);
    ok (cr_status rmsg).

(** ** The child *)

Definition enter_environment (libcap_ng : bool) (basedir : string) (job : CompileJob)
    (user_uid user_gid : Z) : work unit :=
  _ ⇐ (if bool_decide (j_environment_version job = ""%string) then
         _ ⇐ error_client 22 "empty environment"; raise (myexception EXIT_DISTCC_FAILED)
       else
         let dirname := (basedir +:+ "/target=" +:+ j_target_platform job +:+ "/"
                         +:+ j_environment_version job)%string in
         found ⇐ inquire (fun t => w_executable t (dirname +:+ "/usr/bin/as")%string);
         if negb found then
           _ ⇐ error_client 22 (dirname +:+ "/usr/bin/as is not executable, installed environment removed?");
           raise (myexception EXIT_COMPILER_MISSING)
         else chdir_to_environment libcap_ng dirname user_uid user_gid);
  writable ⇐ inquire (fun t => w_writable t "tmp");
  if negb writable then _ ⇐ error_client 22 "can't write to /tmp"; raise (myexception (-1)) else ok tt.

Definition remove_if_named (file : string) : work unit :=
  if bool_decide (file = ""%string) then ok tt else _ ⇐ remove_file file; ok tt.

(** The files go, and the process with its exit code. *)
Definition clean_up (p : Places) (code : Z) : work unit :=
  _ ⇐ remove_if_named (obj_file p);
  _ ⇐ remove_if_named (dwo_file p);
  _ ⇐ (if bool_decide (tmp_path p = ""%string) then ok tt else _ ⇐ rmpath (tmp_path p); ok tt);
  raise (process_exit code).

(** The [try] block, and the exception that leaves it. *)
Definition serve_job (fuel : nat) (libcap_ng : bool) (basedir : string) (job : CompileJob)
    (mem_limit user_uid user_gid : Z) : placed Z :=
  and_then (at_places no_places (enter_environment libcap_ng basedir job user_uid user_gid)) (fun _ _ =>
  and_then (compile fuel job mem_limit) (fun p ret => at_places p (answer p ret))).

(** The child's part of [handle_connection]. *)
Definition handle_connection (fuel : nat) (libcap_ng : bool) (basedir : string) (job : CompileJob)
    (mem_limit user_uid user_gid : Z) : work unit :=
  pr ⇐ serve_job fuel libcap_ng basedir job mem_limit user_uid user_gid;
  match pr with
  | (p, inr code) => clean_up p code
  | (p, inl (myexception code)) =>
      _ ⇐ require (negb (code =? 0));
      _ ⇐ set_stat exit_code code;
      _ ⇐ report;
      clean_up p code
  | (p, inl e) => raise e
  end.
End serve.
