(* ===== verification/WorkerFacts.v ===== *)
(** * What the child of the daemon leaves behind

    Rules for its computations, as in Effects.v, and those of them that only
    matter for themselves: no message but texts, no report, no job. *)

From Stdlib Require Import ZArith Lia.
From Stdlib Require Import Strings.Byte Strings.String.
From stdpp Require Import base tactics option list gmap strings pretty.
From S2P Require Import Prelude Effects ExitCode StdString MsgChannel CompileJob Msg Interface Transport Worker Files.

#[local] Open Scope Z_scope.
#[local] Open Scope icecc_scope.

(** ** The record *)

Abbreviation works := (yields_in wk_effects).

(** The messages of the client, those sent to it, what the compiler read, what
    the daemon was told. *)
Definition got (l : list work_effect) : list Msg :=
  omap (fun e => match e with Heard m => m | _ => None end) l.
Definition told (l : list work_effect) : list (Msg * bool) :=
  omap (fun e => match e with Told m b => Some (m, b) | _ => None end) l.
Definition fed (l : list work_effect) : list byte :=
  concat (omap (fun e => match e with Fed bs => Some bs | _ => None end) l).
Definition reports (l : list work_effect) : list (list Z) :=
  omap (fun e => match e with Reported st => Some st | _ => None end) l.

Lemma got_app l l' : got (l ++ l') = got l ++ got l'.
Proof. apply omap_app. Qed.
Lemma told_app l l' : told (l ++ l') = told l ++ told l'.
Proof. apply omap_app. Qed.
Lemma fed_app l l' : fed (l ++ l') = fed l ++ fed l'.
Proof. unfold fed. by rewrite omap_app, concat_app. Qed.
Lemma reports_app l l' : reports (l ++ l') = reports l ++ reports l'.
Proof. apply omap_app. Qed.

(** The source in the messages that were heard. *)
Definition source_chunks (l : list work_effect) : list FileChunkMsg :=
  omap (fun m => match m with FileChunk c => Some c | _ => None end) (got l).
Definition source (l : list work_effect) : list byte := concat (map payload (source_chunks l)).

Lemma source_app l l' : source (l ++ l') = source l ++ source l'.
Proof. unfold source, source_chunks. by rewrite got_app, omap_app, map_app, concat_app. Qed.

#[export] Hint Rewrite got_app told_app fed_app reports_app source_app : icc.

(** ** Rules *)

Section rules.
Context {A B : Type}.
Implicit Types (s : Work).

Lemma works_inquire (q : nat -> A) (k : A -> work B) s Q :
  (forall t, works (k (q t)) (set_wk_asked (S (wk_asked s)) s) Q) -> works (ebind (inquire q) k) s Q.
Proof. intros Hk r s' E. by apply (Hk (wk_asked s)). Qed.

Lemma works_ask (q : nat -> A) (k : A -> work B) s Q :
  works (k (q (wk_asked s))) (set_wk_asked (S (wk_asked s)) s) Q -> works (ebind (inquire q) k) s Q.
Proof. intros Hk r s' E. by apply Hk. Qed.

Lemma works_note e (k : unit -> work B) s Q :
  works (k tt) (set_wk_effects (wk_effects s ++ [e]) s) (fun r l s' => Q r (e :: l) s') ->
  works (ebind (note e) k) s Q.
Proof. intros Hk. by apply (yields_record e (fun s => set_wk_effects (wk_effects s ++ [e]) s)). Qed.

Lemma works_noted e s (Q : work_exn + unit -> list work_effect -> Work -> Prop) :
  Q (inr tt) [e] (set_wk_effects (wk_effects s ++ [e]) s) -> works (note e) s Q.
Proof. intros HQ r s' E. injection E as <- <-. by exists [e]. Qed.

Lemma on_channel_eq (r : reader A) s :
  on_channel r s = match r (wk_client s) with
                   | Ok (a, c') => Ok (inr a, set_wk_client c' s)
                   | Fault f => Fault f
                   end.
Proof.
  unfold on_channel, ebind, look, run_io, mbind, M_bind, fmap, M_fmap. cbn.
  destruct (r (wk_client s)) as [[a c]|f]; done.
Qed.
End rules.

Lemma works_and {A} (m : work A) s P Q :
  works m s P -> works m s Q -> works m s (fun r l s' => P r l s' /\ Q r l s').
Proof.
  intros HP HQ r s' E. destruct (HP r s' E) as (l & El & HP'), (HQ r s' E) as (l' & El' & HQ').
  rewrite El in El'. apply app_inv_head in El' as <-. by exists l.
Qed.

(** What a message leaves alone. *)
Definition same_work (s s' : Work) : Prop :=
  wk_rmsg s' = wk_rmsg s /\ wk_stat s' = wk_stat s /\ wk_out_fd s' = wk_out_fd s.

#[export] Instance same_work_preorder : PreOrder same_work.
Proof.
  split; [by repeat split|]. intros s s1 s2 (? & ? & ?) (? & ? & ?). repeat split; congruence.
Qed.

Section talks.
Context `{Channels} {B : Type}.
Implicit Types (s : Work).

Lemma works_on_channel {A} (r : reader A) (e : A -> work_effect) (k : A -> work B) s Q :
  (forall a s1, same_work s s1 -> wk_asked s1 = wk_asked s ->
     works (k a) s1 (fun r l s' => Q r (e a :: l) s')) ->
  works (ebind (a ⇐ on_channel r; _ ⇐ note (e a); ok a) k) s Q.
Proof.
  intros Hk res s' E. apply bind_inv in E as (x & s2 & Ex & E).
  apply bind_inv in Ex as (y & s1 & E1 & Ex). rewrite on_channel_eq in E1.
  destruct (r (wk_client s)) as [[a c]|f]; [|discriminate E1]. injection E1 as <- <-.
  injection Ex as <- <-. destruct (Hk a (set_wk_effects (wk_effects s ++ [e a]) (set_wk_client c s))
    ltac:(by repeat split) eq_refl res s' E) as (l & El & HQ).
  exists (e a :: l). cbn in El. rewrite El, <- app_assoc. done.
Qed.

Lemma works_tell m (k : bool -> work B) s Q :
  (forall b s1, same_work s s1 -> works (k b) s1 (fun r l s' => Q r (Told m b :: l) s')) ->
  works (ebind (tell m) k) s Q.
Proof. intros Hk. apply (works_on_channel _ (Told m)). intros. by apply Hk. Qed.
Lemma works_tell_asked m (k : bool -> work B) s Q :
  (forall b s1, same_work s s1 -> wk_asked s1 = wk_asked s ->
     works (k b) s1 (fun r l s' => Q r (Told m b :: l) s')) ->
  works (ebind (tell m) k) s Q.
Proof. apply works_on_channel. Qed.
Lemma works_hear t e (k : option Msg -> work B) s Q :
  (forall m s1, same_work s s1 -> works (k m) s1 (fun r l s' => Q r (Heard m :: l) s')) ->
  works (ebind (hear t e) k) s Q.
Proof. intros Hk. apply (works_on_channel _ Heard). intros. by apply Hk. Qed.
End talks.

Section more_rules.
Context {B : Type}.
Implicit Types (s : Work).
Lemma works_set_rmsg f (k : unit -> work B) s Q :
  works (k tt) (set_wk_rmsg (f (wk_rmsg s)) s) Q ->
  works (ebind (change (fun s => set_wk_rmsg (f (wk_rmsg s)) s)) k) s Q.
Proof. intros Hk. by apply yields_change. Qed.
Lemma works_set_stat i v (k : unit -> work B) s Q :
  (forall st, works (k tt) (set_wk_stat st s) Q) -> works (ebind (set_stat i v) k) s Q.
Proof. intros Hk. by apply yields_change. Qed.
Lemma works_add_stat i v (k : unit -> work B) s Q :
  (forall st, works (k tt) (set_wk_stat st s) Q) -> works (ebind (add_stat i v) k) s Q.
Proof. intros Hk. by apply yields_change. Qed.
End more_rules.

Scheme node_tree := Induction for node Sort Prop with entries_tree := Induction for entries Sort Prop.
Combined Scheme tree_ind from node_tree, entries_tree.

(** ** Computations that stay within bounds

    They leave only effects of [P] behind and keep the part [f] of the state, which
    has nothing to do with the channel; they throw, if at all, what [R] allows. *)

Class Unseen {X} (f : Work -> X) : Prop := {
  unseen_client : forall c s, f (set_wk_client c s) = f s;
  unseen_asked : forall n s, f (set_wk_asked n s) = f s;
  unseen_effects : forall l s, f (set_wk_effects l s) = f s
}.

Definition within (P : work_effect -> Prop) {X} (f : Work -> X) (R : work_exn -> Prop)
    {A} (m : work A) : Prop :=
  forall s, works m s (fun r l s' => Forall P l /\ f s' = f s /\
    match r with inl e => R e | inr _ => True end).

Section within.
Context {A B X : Type} (P : work_effect -> Prop) (f : Work -> X) `{!Unseen f} (R : work_exn -> Prop).
Lemma within_ok (a : A) : within P f R (ok a : work A).
Proof. intros s. by apply yields_ok. Qed.
Lemma within_raise e : R e -> within P f R (raise e : work A).
Proof. intros HR s. by apply yields_raise. Qed.
Lemma within_throw x : within P f R (throw x : work A).
Proof. intros s. apply yields_throw. Qed.
Lemma within_bind (m : work A) (k : A -> work B) :
  within P f R m -> (forall a, within P f R (k a)) -> within P f R (ebind m k).
Proof.
  intros Hm Hk s. eapply yields_bind; [apply Hm|..]; cbn; [|tauto].
  intros a l s1 (Hl & Hs & _). eapply yields_weaken; [apply Hk|]. cbn.
  intros r l' s2 (Hl' & Hs' & Hr). split_and!; [by apply Forall_app|congruence|done].
Qed.
Lemma within_look (g : Work -> A) : within P f R (look g : work A).
Proof. intros s r s' E. injection E as <- <-. exists []. by rewrite app_nil_r. Qed.
Lemma within_change g : (forall s, wk_effects (g s) = wk_effects s /\ f (g s) = f s) -> within P f R (change g).
Proof. intros Hg s r s' E. injection E as <- <-. exists []. destruct (Hg s) as [-> ->]. by rewrite app_nil_r. Qed.
Lemma within_inquire (q : nat -> A) : within P f R (inquire q).
Proof.
  intros s r s' E. injection E as <- <-. exists []. rewrite app_nil_r.
  split; [done|]. split_and!; [done|apply unseen_asked|done].
Qed.
Lemma within_from_res (x : res A) : within P f R (from_res x : work A).
Proof. destruct x; [apply within_ok|apply within_throw]. Qed.
Lemma within_note e : P e -> within P f R (note e).
Proof.
  intros He s r s' E. injection E as <- <-. exists [e].
  split; [done|]. split_and!; [by constructor|apply unseen_effects|done].
Qed.
Lemma within_talk (r : reader A) (e : A -> work_effect) :
  (forall a, P (e a)) -> within P f R (a ⇐ on_channel r; _ ⇐ note (e a); ok a).
Proof.
  intros He s x s' E. apply bind_inv in E as (y & s1 & E1 & E). rewrite on_channel_eq in E1.
  destruct (r (wk_client s)) as [[a c]|]; [|discriminate E1]. injection E1 as <- <-.
  injection E as <- <-. exists [e a]. split; [done|].
  split_and!; [by repeat constructor|by rewrite unseen_effects, unseen_client|done].
Qed.
End within.

Lemma within_weaken {A X Y} (P P' : work_effect -> Prop) (f : Work -> X) (g : Work -> Y) (R R' : work_exn -> Prop)
    (m : work A) :
  within P f R m -> (forall e, P e -> P' e) -> (forall s s', f s' = f s -> g s' = g s) ->
  (forall e, R e -> R' e) -> within P' g R' m.
Proof.
  intros Hm HP Hf HR s. eapply yields_weaken; [apply Hm|]. cbn. intros r l s' (Hl & Hs & Hr).
  split_and!; [by eapply Forall_impl|auto|destruct r; auto].
Qed.

#[export] Hint Resolve within_ok within_throw within_look within_inquire within_from_res : icc.
#[export] Hint Extern 1 (within _ _ _ (note _)) => by apply within_note : icc.
#[export] Hint Extern 1 (within _ _ _ (change _)) => by apply within_change : icc.
#[export] Hint Extern 2 (within _ _ _ (raise _)) => by apply within_raise : icc.

(** Proves that a computation stays within its bounds. *)
Ltac stay :=
  repeat (intros; cbv zeta; match goal with
  | |- within _ _ _ (ebind _ _) => apply within_bind
  | |- within _ _ _ (match ?b with _ => _ end) => destruct b
  | |- within _ _ _ _ => solve [auto with icc typeclass_instances]
  end).

(** *** Incidental computations: texts and files *)

Definition incidental (e : work_effect) : Prop :=
  match e with
  | Told (StatusText _) _ | Entered _ | Started _ _ | Made_directory _ | Removed _ => True
  | _ => False
  end.
Definition job_part (s : Work) : CompileResultMsg * list Z * bool := (wk_rmsg s, wk_stat s, wk_out_fd s).
#[export] Instance unseen_job_part : Unseen job_part.
Proof. by split. Qed.
Abbreviation calm R := (within incidental job_part R).

(** *** Computations that decide nothing: no report, no message but texts *)

Definition undecided (e : work_effect) : Prop :=
  match e with Told (StatusText _) _ => True | Told _ _ | Reported _ => False | _ => True end.
Definition answer_part (s : Work) : bool * bool := (wk_out_fd s, cr_was_out_of_memory (wk_rmsg s)).
#[export] Instance unseen_answer_part : Unseen answer_part.
Proof. by split. Qed.
Abbreviation mute := (within undecided answer_part (fun _ => False)).

Lemma calm_mute {A} (m : work A) : calm (fun _ => False) m -> mute m.
Proof.
  intros Hm. eapply within_weaken; [exact Hm|..]; try done.
  - intros e. destruct e as [[] | | | | | | | | |]; done.
  - intros s s' E. injection E as E _ E'. unfold answer_part. by rewrite E, E'.
Qed.

Section calm_ops.
Context `{Channels} `{Workplace} (R : work_exn -> Prop).

Lemma within_error_client P {X} (f : Work -> X) `{!Unseen f} v e :
  (forall b, P (Told (StatusText e) b)) -> within P f R (error_client v e).
Proof.
  intros He. apply within_bind; [apply within_look|]. intros b. destruct b; [|apply within_ok].
  apply within_bind; [by apply within_talk|intros; apply within_ok].
Qed.
Lemma calm_error_client v e : calm R (error_client v e).
Proof. by apply within_error_client; [apply _|]. Qed.
#[local] Hint Resolve calm_error_client : icc.

Lemma calm_try_names fuel prefix suffix rel tries bits : calm R (try_names fuel prefix suffix rel tries bits).
Proof. revert tries bits. induction fuel; intros tries bits; cbn; stay. Qed.
Lemma calm_make_tmpnam prefix suffix rel : calm R (dcc_make_tmpnam prefix suffix rel).
Proof. unfold dcc_make_tmpnam. stay. intros a. apply calm_try_names. Qed.
Lemma calm_try_directories fuel tries : calm R (try_directories fuel tries).
Proof. revert tries. induction fuel; intros tries; cbn; stay. Qed.
Lemma calm_make_tmpdir : calm R dcc_make_tmpdir.
Proof. apply calm_try_directories. Qed.

(** A name that is not found is told by the exit code for errors of files. *)
Definition no_name_code (r : work_exn + (Z + string)) : Prop :=
  match r with inr (inl v) => v = EXIT_IO_ERROR | _ => True end.
Lemma try_names_code fuel prefix suffix rel tries bits s :
  works (try_names fuel prefix suffix rel tries bits) s (fun r _ _ => no_name_code r).
Proof.
  revert tries bits s. induction fuel as [|fuel IH]; intros tries bits s; cbn [try_names]; cbv zeta;
    apply works_inquire; intros t; destruct (w_open_new _ _); try destruct (max_tries <? tries + 1);
    try (by apply yields_ok); try (apply yields_throw); try (apply IH);
    apply works_inquire; intros t'; apply yields_ok; by destruct (w_close _).
Qed.
Lemma try_directories_code fuel tries s :
  works (try_directories fuel tries) s (fun r _ _ => no_name_code r).
Proof.
  revert tries s. induction fuel as [|fuel IH]; intros tries s; cbn [try_directories]; cbv zeta;
    apply works_inquire; intros t; destruct (w_mkdtemp _) as [|[]]; try destruct (max_tries <? tries + 1);
    try (by apply yields_ok); try (apply yields_throw); apply IH.
Qed.
Lemma make_tmpnam_spec prefix suffix rel s :
  works (dcc_make_tmpnam prefix suffix rel) s (fun r l s' =>
    (Forall incidental l /\ job_part s' = job_part s /\ match r with inl e => R e | inr _ => True end) /\ no_name_code r).
Proof.
  apply works_and; [apply calm_make_tmpnam|]. apply works_inquire. intros t. apply try_names_code.
Qed.
Lemma make_tmpdir_spec s :
  works dcc_make_tmpdir s (fun r l s' =>
    (Forall incidental l /\ job_part s' = job_part s /\ match r with inl e => R e | inr _ => True end) /\ no_name_code r).
Proof. apply works_and; [apply calm_make_tmpdir|apply try_directories_code]. Qed.

(** A name that is found is of a file or directory that was made. *)
Definition made_file (prefix suffix : string) (rel : bool) (name : string) : Prop :=
  exists bits t, name = tmpname prefix suffix rel bits /\ w_open_new t name = Created.
Lemma make_tmpnam_made prefix suffix rel s :
  works (dcc_make_tmpnam prefix suffix rel) s (fun r _ _ =>
    match r with inr (inr name) => made_file prefix suffix rel name | _ => True end).
Proof.
  apply works_inquire. intros t. cbv zeta. generalize (set_wk_asked (S (wk_asked s)) s) as s1.
  generalize 0 as tries. generalize (Z.lxor (Z.lxor (u64 (Z.shiftl w_pid 16)) (u64 (Z.shiftl (w_time t).2 16)))
    (u64 (w_time t).1)) as bits.
  generalize (Z.to_nat max_tries) as fuel. clear s t.
  induction fuel as [|fuel IH]; intros bits tries s; cbn [try_names]; cbv zeta;
    apply works_inquire; intros t; destruct (w_open_new _ _) eqn:Eo; try destruct (max_tries <? tries + 1);
    try (by apply yields_ok); try (apply yields_throw); try (apply IH);
    apply works_inquire; intros t'; apply yields_ok; destruct (w_close _); try done; by exists bits, t.
Qed.
Lemma make_tmpdir_made s :
  works dcc_make_tmpdir s (fun r _ _ =>
    match r with inr (inr name) => exists t, w_mkdtemp t = inl name | _ => True end).
Proof.
  unfold dcc_make_tmpdir. generalize (Z.to_nat max_tries) as fuel. generalize 0 as tries.
  intros tries fuel. revert tries s.
  induction fuel as [|fuel IH]; intros tries s; cbn [try_directories];
    apply works_inquire; intros t; destruct (w_mkdtemp _) as [|[]] eqn:Em; try destruct (max_tries <? tries + 1);
    try (by apply yields_ok); try (apply yields_throw); try (apply IH); apply yields_ok; by exists t.
Qed.

(** Time goes on. *)
Definition asks_on {A} (m : work A) : Prop := forall s r s', m s = Ok (r, s') -> (wk_asked s <= wk_asked s')%nat.
Lemma asks_on_bind {A B} (m : work A) (k : A -> work B) :
  asks_on m -> (forall a, asks_on (k a)) -> asks_on (ebind m k).
Proof.
  intros Hm Hk s r s' E. apply bind_inv in E as (x & s1 & E1 & E). apply Hm in E1.
  destruct x as [e|a]; [by injection E as _ <-|]. apply Hk in E. lia.
Qed.
Lemma asks_on_ok {A} (a : A) : asks_on (ok a).
Proof. by intros s r s' [= _ <-]. Qed.
Lemma asks_on_raise {A} e : asks_on (raise e : work A).
Proof. by intros s r s' [= _ <-]. Qed.
Lemma asks_on_inquire {A} (q : nat -> A) : asks_on (inquire q).
Proof. intros s r s' [= _ <-]. cbn. lia. Qed.
Lemma asks_on_tell m : asks_on (tell m).
Proof.
  intros s r s' E. unfold tell in E. apply bind_inv in E as (x & s1 & E1 & E). rewrite on_channel_eq in E1.
  destruct (ch_send _ _ _) as [[a c]|]; [|done]. injection E1 as <- <-. by injection E as _ <-.
Qed.
Lemma asks_on_error_client v e : asks_on (error_client v e).
Proof.
  apply asks_on_bind; [by intros s r s' [= _ <-]|]. intros []; [|apply asks_on_ok].
  apply asks_on_bind; [apply asks_on_tell|intros; apply asks_on_ok].
Qed.

Lemma calm_mkpath path : calm R (mkpath path).
Proof.
  unfold mkpath. generalize (length (bytes_of path)) as fuel. intros fuel. revert path.
  induction fuel; intros path; cbn; unfold make_directory; stay.
Qed.
Lemma calm_remove_file path : calm R (remove_file path).
Proof. unfold remove_file. stay. Qed.
Lemma calm_remove_directory path : calm R (remove_directory path).
Proof. unfold remove_directory. stay. Qed.

Lemma calm_rmpath_node :
  (forall n path, calm R (rmpath_node n path)) /\ (forall l path, calm R (rmpath_entries l path)).
Proof.
  apply tree_ind.
  - intros path. cbn. auto with icc.
  - intros path. cbn. auto with icc.
  - intros opened l IH path. cbn. destruct opened; [|auto with icc].
    apply within_bind; [apply IH|]. intros r. destruct (r =? 0); [|auto with icc].
    apply within_bind; [apply calm_remove_directory|auto with icc].
  - intros path. cbn. auto with icc.
  - intros name n IHn l IHl path. cbn. apply within_bind.
    + destruct n; [|auto with icc|].
      * apply within_bind; [apply calm_remove_file|auto with icc].
      * apply within_bind; [apply IHn|auto with icc].
    + intros r2. destruct (r2 =? 0); [apply IHl|auto with icc].
Qed.
Lemma calm_rmpath path : calm R (rmpath path).
Proof. unfold rmpath. stay. intros n. apply calm_rmpath_node. Qed.
End calm_ops.
#[export] Hint Resolve calm_error_client calm_make_tmpnam calm_make_tmpdir calm_mkpath
  calm_remove_file calm_remove_directory calm_rmpath : icc.

(** The codes a child leaves with that cannot enter its environment *)
Definition locked_out (e : work_exn) : Prop :=
  exists code, e = process_exit code /\ 142 <= code <= 146.

Section calm_environment.
Context `{Channels} `{Workplace}.
Lemma calm_must worked error code : 142 <= code <= 146 -> calm locked_out (must worked error code).
Proof.
  intros Hc. unfold must. destruct worked; [auto with icc|]. apply within_bind; [auto with icc|].
  intros _. apply within_raise. by exists code.
Qed.
Lemma calm_enter_root dirname : calm locked_out (enter_root dirname).
Proof. unfold enter_root. stay; intros; by apply calm_must. Qed.
Lemma calm_chdir_to_environment libcap_ng dirname uid gid :
  calm locked_out (chdir_to_environment libcap_ng dirname uid gid).
Proof.
  unfold chdir_to_environment. stay; intros;
    first [by apply calm_must|apply calm_enter_root|apply within_raise; by exists 146].
Qed.
End calm_environment.
