(* ===== verification/WorkItFacts.v ===== *)
(** * What a compilation on a server does

    The source that arrives goes to the compiler, in order and without a gap; the
    loop ends; the command of the compiler. *)

From Stdlib Require Import ZArith Lia Wf_nat.
From Stdlib Require Import Strings.Byte Strings.String.
From stdpp Require Import base tactics option list gmap strings pretty.
From S2P Require Import Prelude Effects ExitCode StdString MsgChannel CompileJob Msg MsgCodec Interface Transport ChannelImpl Worker WorkIt Files WorkerFacts.

#[local] Open Scope Z_scope.
#[local] Open Scope icecc_scope.

(** ** The source

    What is known of the loop, from the record since it began. *)

Definition pending (L : Feed) : list byte :=
  match fd_fcmsg L with Some m => drop (Z.to_nat (fd_off L)) (payload m) | None => [] end.

Record feeding (l : list work_effect) (L : Feed) : Prop := mkFeeding {
  f_off : 0 <= fd_off L;
  f_prefix : fed l `prefix_of` source l;
  f_open : fd_in L = true -> fd_client L = true -> fed l ++ pending L = source l;
  f_none : fd_client L = false \/ fd_input_complete L = true -> fd_fcmsg L = None;
  f_honest : fd_return_value L = 0 ->
    fd_client L = true /\
    exists cs, got l = map FileChunk cs ++ (if fd_input_complete L then [EndMsg] else []);
  f_whole : fd_return_value L = 0 -> Terminated ∉ l ->
    fd_in L = negb (fd_input_complete L) /\ (fd_in L = false -> fed l = source l)
}.

Lemma feeding_start : feeding [] (mkFeed 0 false None 0 true true true true).
Proof.
  split; cbn; try done.
  intros _. split; [done|]. by exists [].
Qed.

(** Observations that do not concern the source. *)
Definition plain_effect (e : work_effect) : Prop :=
  match e with Heard (Some _) | Fed _ | Terminated => False | _ => True end.

Lemma plain_got l : Forall plain_effect l -> got l = [] /\ fed l = [] /\ Terminated ∉ l.
Proof.
  induction 1 as [|e l He Hl (Hg & Hf & Ht)]; [split_and!; [done..|apply not_elem_of_nil]|].
  change (e :: l) with ([e] ++ l). rewrite got_app, fed_app, Hg, Hf.
  destruct e as [| [m|] | | | | | | | |]; try done; split_and!; try done;
    rewrite elem_of_app, list_elem_of_singleton; by intros [?|?].
Qed.

Lemma source_got l l' : got l' = [] -> source (l ++ l') = source l.
Proof. intros E. unfold source, source_chunks. by rewrite got_app, E, app_nil_r. Qed.

Lemma feeding_plain l l' L : Forall plain_effect l' -> feeding l L -> feeding (l ++ l') L.
Proof.
  intros Hp [Ho Hpr Hop Hn Hh Hw]. apply plain_got in Hp as (Hg & Hf & Ht).
  split; rewrite ?fed_app, ?(source_got l l' Hg), ?Hf, ?got_app, ?Hg, ?app_nil_r; try done.
  intros Hr Hn'. apply Hw; [done|]. rewrite elem_of_app in Hn'. tauto.
Qed.

(** The flags of the outputs do not matter. *)
Lemma feeding_outputs l L out err :
  feeding l L ->
  feeding l (mkFeed (fd_return_value L) (fd_input_complete L) (fd_fcmsg L) (fd_off L) (fd_client L) (fd_in L) out err).
Proof. by intros []. Qed.

(** The kinds of messages that arrive. *)
Lemma source_chunk m : source [Heard (Some (FileChunk m))] = payload m.
Proof. apply app_nil_r. Qed.

(** *** The messages *)

Section feeding.
Context `{Channels} `{Workplace}.
Context (w_write_counts : forall t bs n, w_write t bs = Written n -> 0 <= n).

Definition feeds (m : work Feed) (s : Work) (l : list work_effect) (P : Feed -> Prop) : Prop :=
  works m s (fun r l' s' => match r with inr L => feeding (l ++ l') L /\ P L | inl _ => True end).

(** What the client still says does not reach the compiler. *)
Lemma feeding_abandoned l l' L v :
  v <> 0 -> feeding l L -> fed l' = [] -> feeding (l ++ l') (mkFeed v true None (fd_off L) false (fd_in L) (fd_out L) (fd_err L)).
Proof.
  intros Hv HL Hf. split; cbn; try done.
  - apply HL.
  - rewrite fed_app, source_app, Hf, app_nil_r. etrans; [apply HL|]. by eexists.
Qed.

Lemma abandon_feeds v l l' L s :
  v <> 0 -> feeding l L -> fed l' = [] ->
  works (abandon v L) s (fun r l2 s' => match r with inr L => feeding (l ++ l' ++ l2) L | inl _ => True end).
Proof.
  intros Hv HL Hf. apply works_note, yields_ok. apply feeding_abandoned; [done..|]. by rewrite fed_app, Hf.
Qed.

Lemma take_message_feeds l L s :
  feeding l L ->
  works (take_message L) s (fun r l' s' => match r with inr L => feeding (l ++ l') L | inl _ => True end).
Proof.
  intros HL. unfold take_message.
  destruct (fd_client L && is_none (fd_fcmsg L)) eqn:Ec; [|apply yields_ok; by rewrite app_nil_r].
  boolify. destruct (fd_fcmsg L) as [|] eqn:Ef; [done|].
  apply works_hear. intros [m|] s1 _; cycle 1.
  { apply yields_look. destruct (at_eof _).
    - by apply (abandon_feeds _ l [Heard None]).
    - apply yields_ok. apply feeding_plain; [|done]. by repeat constructor. }
  destruct (fd_input_complete L) eqn:Ei.
  { apply works_set_rmsg. by apply (abandon_feeds _ l [Heard (Some m)]). }
  assert (fed l ++ pending L = fed l) as Hpend by (unfold pending; rewrite Ef; apply app_nil_r).
  destruct m; try by apply (abandon_feeds _ l [Heard (Some _)]).
  - (* EndMsg *)
    assert (forall l', Forall plain_effect l' -> feeding (l ++ Heard (Some EndMsg) :: l')
      (mkFeed (fd_return_value L) true None (fd_off L) (fd_client L) false (fd_out L) (fd_err L))) as HE.
    { intros l' Hl'. change (Heard (Some EndMsg) :: l') with ([Heard (Some EndMsg)] ++ l').
      rewrite app_assoc. apply feeding_plain; [done|]. destruct HL as [Ho Hp Hop Hn Hh Hw].
      split; cbn; rewrite ?fed_app, ?source_app, ?app_nil_r; try done.
      - intros Hr. destruct (Hh Hr) as (Hc & cs & Eg). split; [done|]. exists cs.
        rewrite got_app, Eg, Ei. cbn. by rewrite app_nil_r.
      - intros Hr Ht. split; [done|]. intros _. 
        destruct (Hw Hr) as [Hin Hw']; [rewrite elem_of_app in Ht; tauto|]. rewrite Ei in Hin.
        by rewrite <- Hop, Hpend. }
    apply yields_if; intros _; [apply works_note|apply yields_passed]; apply yields_ok, HE; by repeat constructor.
  - (* FileChunk *)
    apply works_add_stat. intros st1. apply works_add_stat. intros st2. apply yields_ok.
    destruct HL as [Ho Hp Hop Hn Hh Hw].
    split; cbn; rewrite ?fed_app, ?source_app, ?source_chunk, ?app_nil_r; try done.
    + etrans; [exact Hp|]. by eexists.
    + intros Hin Hc. unfold pending. cbn. by rewrite <- (Hop Hin Hc), Hpend.
    + intros [Hc|Hc]; congruence.
    + intros Hr. destruct (Hh Hr) as (Hc & cs & Eg). split; [done|]. exists (cs ++ [m]).
      rewrite got_app, Eg, Ei, map_app. cbn. by rewrite !app_nil_r.
    + intros Hr Ht. destruct (Hw Hr) as [Hin Hw']; [rewrite elem_of_app in Ht; tauto|].
      rewrite Ei in Hin. split; [done|]. intros E. by rewrite E in Hin.
Qed.

Lemma drop_chunk_feeds l L : feeding l L -> feeding l (drop_chunk L).
Proof.
  intros HL. unfold drop_chunk. destruct (fd_in L) eqn:Ei; [done|]. cbn.
  destruct HL as [Ho Hp Hop Hn Hh Hw]. split; cbn; rewrite ?Ei in *; try done.
Qed.

(** *** The compiler's input and output *)

Lemma failed_write_feeds l L :
  feeding l L -> is_none (fd_fcmsg L) = false ->
  feeding (l ++ [Terminated; Input_closed])
    (mkFeed (if fd_input_complete L then EXIT_COMPILER_CRASHED else fd_return_value L)
       (fd_input_complete L) None (fd_off L) (fd_client L) false (fd_out L) (fd_err L)).
Proof.
  intros [Ho Hp Hop Hn Hh Hw] Hm.
  assert (fd_input_complete L = false) as Ei.
  { destruct (fd_input_complete L); [|done]. rewrite Hn in Hm by tauto. discriminate Hm. }
  rewrite Ei. split; cbn; rewrite ?fed_app, ?source_app; try done.
  - rewrite app_nil_r. etrans; [exact Hp|]. by eexists.
  - intros Hr. destruct (Hh Hr) as (Hc & cs & Eg). split; [done|]. exists cs.
    rewrite got_app, Eg, Ei. by rewrite !app_nil_r.
  - intros _ Ht. destruct Ht. apply elem_of_app. right. by left.
Qed.

Lemma written_feeds l L m d n :
  feeding l L -> fd_fcmsg L = Some m -> fd_in L = true -> payload m = d -> 0 <= n ->
  feeding (l ++ [Fed (take (Z.to_nat n) (drop (Z.to_nat (fd_off L)) d))])
    (mkFeed (fd_return_value L) (fd_input_complete L) (Some m) (fd_off L + n) (fd_client L)
       (fd_in L) (fd_out L) (fd_err L)).
Proof.
  intros [Ho Hp Hop Hn Hh Hw] Em Hin Hd Hcount.
  assert (fd_client L = true) as Hc by (destruct (fd_client L); [done|]; rewrite Hn in Em by tauto; discriminate Em).
  assert (fd_input_complete L = false) as Ei
    by (destruct (fd_input_complete L); [rewrite Hn in Em by tauto; discriminate Em|done]).
  specialize (Hop Hin Hc). unfold pending in Hop. rewrite Em, Hd in Hop.
  set (x := drop (Z.to_nat (fd_off L)) d) in *.
  assert (fed [Fed (take (Z.to_nat n) x)] = take (Z.to_nat n) x) as Ef by apply app_nil_r.
  assert (drop (Z.to_nat (fd_off L + n)) d = drop (Z.to_nat n) x) as Ed
    by (unfold x; rewrite drop_drop; f_equal; lia).
  split; cbn; rewrite ?fed_app, ?source_app, ?Ef, ?app_nil_r; try done.
  - lia.
  - rewrite <- Hop. exists (drop (Z.to_nat n) x). by rewrite <- app_assoc, take_drop.
  - intros _ _. unfold pending. cbn. by rewrite Hd, Ed, <- app_assoc, take_drop.
  - rewrite Hc, Ei. intros [?|?]; done.
  - intros Hr. rewrite got_app, app_nil_r. by apply Hh.
  - intros Hr Ht. destruct (Hw Hr) as [Hin' _]; [rewrite elem_of_app in Ht; tauto|].
    split; [done|]. by rewrite Hin.
Qed.

(** A chunk of which everything is written is done with. *)
Lemma chunk_done_feeds l L m :
  feeding l L -> fd_fcmsg L = Some m -> fd_off L = fc_len m -> fd_in L = true ->
  feeding l (mkFeed (fd_return_value L) (fd_input_complete L) None (fd_off L) (fd_client L)
    (fd_in L) (fd_out L) (fd_err L)).
Proof.
  intros [Ho Hp Hop Hn Hh Hw] Em Hoff Hin.
  assert (pending L = []) as Epend.
  { unfold pending. rewrite Em, Hoff. apply drop_ge. unfold payload. rewrite length_take. lia. }
  split; cbn; try done. intros _ Hc. unfold pending. cbn. by rewrite <- (Hop Hin Hc), Epend.
Qed.

Lemma write_input_feeds m l L s :
  feeding l L -> fd_fcmsg L = Some m -> fd_in L = true ->
  works (write_input m L) s (fun r l' s' =>
    match r with
    | inr (inl L') | inr (inr L') => feeding (l ++ l') L' /\ fd_input_complete L' = fd_input_complete L
    | inl _ => True
    end).
Proof.
  intros HL Em Hin. apply yields_from_res. intros data Ed.
  assert (fd_input_complete L = false) as Ei
    by (destruct (fd_input_complete L) eqn:E; [rewrite (f_none _ _ HL) in Em by auto; discriminate Em|done]).
  assert (forall s1, works (_ ⇐ kill_compiler; _ ⇐ close_input;
    ok (inl (mkFeed (if fd_input_complete L then EXIT_COMPILER_CRASHED else fd_return_value L)
                 (fd_input_complete L) None (fd_off L) (fd_client L) false (fd_out L) (fd_err L))) : work (Feed + Feed)) s1
    (fun r l' s' => match r with
    | inr (inl L') | inr (inr L') => feeding (l ++ l') L' /\ fd_input_complete L' = fd_input_complete L
    | inl _ => True
    end)) as Hfail.
  { intros s1. apply works_note, works_note, yields_ok. split; [|done].
    apply failed_write_feeds; [done|by rewrite Em]. }
  destruct data as [bs|]; [|by apply yields_passed].
  apply works_inquire. intros t. destruct (w_write t _) as [n| |] eqn:Ew; [|by apply yields_ok; split; [rewrite app_nil_r|]|done].
  apply w_write_counts in Ew. apply works_note. cbn [default].
  pose proof (written_feeds l L m bs n HL Em Hin (chunk_data_payload _ _ Ed) Ew) as HF.
  destruct (fd_off L + n =? fc_len m) eqn:Eoff; boolify.
  - rewrite Ei. apply yields_passed, yields_ok. split; [|done].
    apply (chunk_done_feeds _ _ m) in HF; [|done..]. cbn in HF. by rewrite Ei in HF.
  - by apply yields_ok; split.
Qed.

Lemma read_output_plain fd append s :
  works (read_output fd append) s (fun r l' s' => Forall plain_effect l' /\ exists b, r = inr b).
Proof.
  apply works_inquire. intros t. destruct (w_read t fd) as [[|b bs]|].
  - apply yields_ok. eauto.
  - apply works_set_rmsg, yields_ok. eauto.
  - apply yields_ok. eauto.
Qed.

Lemma read_outputs_feeds set l L s :
  feeding l L ->
  works (read_outputs set L) s (fun r l' s' =>
    match r with inr L' => feeding (l ++ l') L' /\ fd_input_complete L' = fd_input_complete L | inl _ => True end).
Proof.
  intros HL. unfold read_outputs.
  assert (forall (c : bool) fd append old s1, works (if c then read_output fd append else ok old) s1
    (fun r l' s' => Forall plain_effect l' /\ exists b, r = inr b)) as Hone.
  { intros [] fd append old s1; [apply read_output_plain|]. apply yields_ok. eauto. }
  eapply yields_bind; [apply Hone| |done]. intros out l1 s1 [Hl1 _].
  eapply yields_bind; [apply Hone| |done]. intros err l2 s2 [Hl2 _].
  apply yields_ok. split; [|done]. rewrite app_nil_r. apply feeding_outputs. rewrite app_assoc. by do 2 (apply feeding_plain; [done|]).
Qed.

(** *** The round *)

Lemma polled L revents fd flags :
  pollfd_is_set (pollfds L) revents fd flags = true ->
  match fd with
  | Sock_in => fd_in L = true
  | Death_pipe => fd_input_complete L = true
  | Client_fd => fd_client L = true
  | Sock_out => fd_out L = true
  | Sock_err => fd_err L = true
  end.
Proof.
  unfold pollfd_is_set. intros E. apply andb_true_iff in E as [E _]. apply bool_decide_eq_true in E.
  revert E. unfold pollfds.
  destruct (fd_out L), (fd_err L), (fd_client L), (is_none (fd_fcmsg L)), (fd_input_complete L), (fd_in L), fd;
    cbn; rewrite ?elem_of_cons; intuition (try discriminate);
    match goal with H : _ ∈ [] |- _ => by apply not_elem_of_nil in H end.
Qed.

Lemma ended_silently {A} (m : work A) s (P : A -> Prop) :
  works m s (fun r l' _ => l' = [] /\ match r with inr a => P a | inl _ => True end) ->
  works m s (fun r l' _ => Forall plain_effect l' /\ match r with inr a => P a | inl _ => True end).
Proof. intros Hm. eapply yields_weaken; [exact Hm|]. by intros r l s' [-> ?]. Qed.

Lemma disk_full_yields err s : works (disk_full err) s (fun r l' _ => l' = []).
Proof.
  apply works_inquire. intros t. destruct (w_statfs t) as [[a b]|].
  - destruct (b =? 0); [intros r s' E; discriminate E|]. by apply yields_passed, yields_ok.
  - by apply yields_passed, yields_ok.
Qed.

Lemma failure_yields ru mem_limit s :
  works (failure ru mem_limit) s (fun r l' _ => l' = [] /\
    match r with inr (Some v) => v = EXIT_OUT_OF_MEMORY \/ v = EXIT_IO_ERROR | _ => True end).
Proof.
  apply works_set_rmsg, yields_look. destruct (out_of_memory _ _ _); [apply yields_ok; auto|].
  eapply yields_bind; [apply disk_full_yields|..].
  - intros full l s1 ->. apply yields_ok. destruct full; auto.
  - by intros e l s1 ->.
Qed.

(** The return value is that of the loop, or tells of a failed compiler. *)
Lemma compiler_ended_yields child tv mem_limit v s :
  works (compiler_ended child tv mem_limit v) s (fun r l' _ => l' = [] /\
    match r with inr ret => ret = v \/ ret = EXIT_OUT_OF_MEMORY \/ ret = EXIT_IO_ERROR | inl _ => True end).
Proof.
  apply works_inquire. intros t. destruct (w_wait t) as [[status ru]|]; [|intros r s' E; discriminate E].
  cbv zeta. set (st := match child with Ended st => st | _ => status end).
  eapply (yields_bind _ _ _ (fun r l' _ => l' = [] /\
    match r with inr (Some v) => v = EXIT_OUT_OF_MEMORY \/ v = EXIT_IO_ERROR | _ => True end)).
  - destruct (_ =? 0); [by apply yields_ok|apply failure_yields].
  - intros [ret|] l s1 [-> Hv]; [by apply yields_ok; auto|].
    apply yields_if; intros _; [|apply yields_passed, yields_ok; auto].
    apply yields_assoc, works_inquire. intros t'.
    apply yields_assoc, works_set_rmsg. do 4 (apply yields_assoc, works_set_stat; intros ?).
    apply works_set_stat. intros ?. apply yields_ok. auto.
  - intros e l s1 [-> _]. auto.
Qed.

(** What is known when the loop is left. *)
Definition delivered (l : list work_effect) (v : Z) : Prop :=
  fed l `prefix_of` source l /\
  (v = 0 -> exists cs, got l = map FileChunk cs ++ [EndMsg] /\ (Terminated ∉ l -> fed l = source l)).

Lemma feeding_delivered l L : feeding l L -> fd_input_complete L = true -> delivered l (fd_return_value L).
Proof.
  intros HL Ei. split; [apply HL|]. intros Hv. destruct (f_honest _ _ HL Hv) as (_ & cs & Eg).
  rewrite Ei in Eg. exists cs. split; [done|]. intros Ht. destruct (f_whole _ _ HL Hv Ht) as [Hin Hw].
  apply Hw. by rewrite Hin, Ei.
Qed.

Definition stepped (l : list work_effect) (r : step) : Prop :=
  match r with Continue L => feeding l L | Return v => delivered l v end.

Lemma after_poll_feeds child tv mem_limit revents l L s :
  feeding l L ->
  works (after_poll child tv mem_limit (pollfd_is_set (pollfds L) revents) L) s
    (fun r l' _ => match r with inr st => stepped (l ++ l') st | inl _ => True end).
Proof.
  intros HL. unfold after_poll. set (set := pollfd_is_set (pollfds L) revents).
  eapply (yields_bind _ _ _ (fun r l' _ => match r with
    | inr (inl L') | inr (inr L') => feeding (l ++ l') L' /\ fd_input_complete L' = fd_input_complete L
    | inl _ => True end)); [|intros written l1 s1 HP|done].
  - destruct (fd_fcmsg L) as [m|] eqn:Em; [|by apply yields_ok; rewrite app_nil_r].
    destruct (set Sock_in POLLOUT) eqn:Es; [|by apply yields_ok; rewrite app_nil_r].
    apply write_input_feeds; [done..|]. by apply polled in Es.
  - destruct written as [L1|L1]; [by apply yields_ok; rewrite app_nil_r; apply HP|].
    destruct HP as [H1 Hc1].
    eapply yields_bind; [by apply read_outputs_feeds| |done]. cbn. intros L2 l2 s2 [H2 Hc2].
    destruct (set Death_pipe POLLIN) eqn:Ed; [|apply yields_ok; by rewrite app_nil_r, app_assoc].
    apply polled in Ed.
    eapply yields_bind; [apply compiler_ended_yields|..].
    + cbn. intros ret l3 s3 [-> Hret]. apply yields_ok. cbn. rewrite app_nil_r, app_assoc.
      assert (delivered ((l ++ l1) ++ l2) (fd_return_value L2)) as HD
        by (apply feeding_delivered; [done|congruence]).
      destruct Hret as [->|Hret]; [done|]. split; [apply HD|]. intros ->. by destruct Hret.
    + done.
Qed.

Lemma poll_round_feeds child tv mem_limit l L s :
  feeding l L ->
  works (poll_round child tv mem_limit L) s
    (fun r l' _ => match r with inr st => stepped (l ++ l') st | inl _ => True end).
Proof.
  intros HL. eapply yields_bind; [by apply take_message_feeds| |done]. cbn.
  intros L1 l1 s1 H1. apply drop_chunk_feeds in H1. set (L2 := drop_chunk L1) in *.
  apply works_inquire. intros t. destruct (w_poll t _ _) as [| | |revents].
  - destruct (fd_input_complete L2); [intros r s' E; discriminate E|].
    eapply yields_bind; [by apply (abandon_feeds _ (l ++ l1) [])| |done]. cbn.
    intros L3 l3 s3 H3. apply yields_ok. cbn. by rewrite app_nil_r, app_assoc.
  - apply yields_ok. by rewrite app_nil_r.
  - intros r s' E. discriminate E.
  - eapply yields_weaken; [by apply after_poll_feeds|]. cbn. intros [e|st] l2 s2; [done|].
    by rewrite app_assoc.
Qed.

Lemma poll_loop_feeds fuel child tv mem_limit l L s :
  feeding l L ->
  works (poll_loop fuel child tv mem_limit L) s
    (fun r l' _ => match r with inr v => delivered (l ++ l') v | inl _ => True end).
Proof.
  revert l L s. induction fuel as [|fuel IH]; intros l L s HL;
    (eapply yields_bind; [by apply poll_round_feeds| |done]); cbn;
    (intros [L1|v] l1 s1 H1; [|apply yields_ok; by rewrite app_nil_r]).
  - apply yields_throw.
  - eapply yields_weaken; [by apply IH|]. cbn. intros [e|v] l2 s2; [done|]. by rewrite app_assoc.
Qed.
End feeding.

(** ** The compiler's process *)

Section process.
Context `{Channels} `{Workplace}.

(** How the compiler's process ends where it does not become the compiler. *)
Definition stillborn (e : work_exn) : Prop :=
  match e with
  | process_exit code => code = 142 \/ code = 255
  | died signal => signal = SIGABRT
  | _ => False
  end.

(** The compiler was started to write the file [file] of the directory [dir]; where
    that cannot be entered, it stays in the root. *)
Definition started_for (dir file : string) (l : list work_effect) : Prop :=
  exists d argv before after, Started d argv ∈ l /\ (d = dir \/ d = "/"%string) /\
    argv = before ++ ["-"; "-o"; file]%string ++ after.

Lemma started_for_between dir file l1 l l2 : started_for dir file l -> started_for dir file (l1 ++ l ++ l2).
Proof. intros (d & argv & x & y & Hin & Hx). exists d, argv, x, y. rewrite !elem_of_app. auto. Qed.

Lemma argv_names_output program clang j flags tmp_root file_name mem_limit :
  exists before after, compiler_argv program clang j flags tmp_root file_name mem_limit
    = before ++ ["-"; "-o"; file_name]%string ++ after.
Proof.
  unfold compiler_argv. cbv zeta. rewrite !(app_assoc _ _ (["-"; "-o"; file_name]%string ++ _)).
  by do 2 eexists.
Qed.

Lemma compiler_process_yields j flags tmp_root build_path file_name mem_limit s :
  works (compiler_process j flags tmp_root build_path file_name mem_limit) s (fun r l s' =>
    Forall incidental l /\ match r with
      | inl (executes argv) => started_for (tmp_root +:+ build_path) file_name l
      | inl e => stillborn e
      | inr _ => False
      end).
Proof.
  unfold compiler_process.
  assert (forall {A B} (m : work A) (k : A -> work B) s1 Q, calm stillborn m ->
    (forall a l s2, Forall incidental l -> works (k a) s2 (fun r l' s' => Q r (l ++ l') s')) ->
    (forall e l s2, Forall incidental l -> stillborn e -> Q (inl e) l s2) -> works (ebind m k) s1 Q) as Hcalm.
  { intros A B m k s1 Q Hm Hk He. eapply yields_bind; [apply Hm|..]; cbn; intros ? l s2 (Hl & _ & Hr); auto. }
  set (Q := fun (r : work_exn + unit) l (s' : Work) => _) at 1.
  assert (forall e l s2, Forall incidental l -> stillborn e -> Q (inl e) l s2) as HQ
    by (intros e l s2 Hl He; split; [done|]; destruct e; done).
  assert (calm stillborn is_root) as Hroot by (unfold is_root; stay).
  apply Hcalm; [done| |done]. intros root l0 s0 Hl0.
  apply Hcalm; [destruct root; stay; intros; apply within_raise; by left| |intros; apply HQ; [by apply Forall_app|done]].
  intros [] l1 s1 Hl1. apply works_inquire. intros t1.
  apply Hcalm; [stay| |intros; apply HQ; [by rewrite !Forall_app|done]].
  intros [] l2 s2 Hl2. apply yields_look.
  destruct (compiler_program _ j) as [[program clang]|];
    [|apply yields_raise, HQ; [by rewrite !Forall_app|done]].
  apply Hcalm; [stay| |intros; apply HQ; [by rewrite !Forall_app|done]].
  intros [] l3 s3 Hl3. apply works_inquire. intros t3.
  apply Hcalm; [stay| |intros; apply HQ; [by rewrite !Forall_app|done]].
  intros [] l4 s4 Hl4. unfold child_assert.
  destruct (_ <=? _); [apply yields_passed|apply yields_raised, HQ; [by rewrite !Forall_app|done]].
  apply works_inquire. intros t5. destruct (w_exec _ _); cycle 1.
  - apply yields_raise, HQ; [by rewrite !Forall_app|by right].
  - apply works_note, yields_raise. split; [by rewrite !Forall_app; repeat constructor|].
    destruct (argv_names_output program clang j flags tmp_root file_name mem_limit) as (x & y & E).
    do 2 eexists. exists x, y. split; [rewrite !elem_of_app; do 5 right; by left|].
    split; [|exact E]. destruct (w_chdir t3 _); [by left|by right].
Qed.

Lemma in_child_yields j flags tmp_root build_path file_name mem_limit s :
  works (in_child (compiler_process j flags tmp_root build_path file_name mem_limit)) s (fun r l s' =>
    Forall incidental l /\ job_part s' = job_part s /\ exists c, r = inr c /\
    match c with
    | Compiling => started_for (tmp_root +:+ build_path) file_name l
    | Exec_failed => True
    | Ended status => shell_exit_status status <> 0
    end).
Proof.
  intros r s' E. unfold in_child in E.
  destruct (compiler_process _ _ _ _ _ _ s) as [[x s1]|] eqn:Ep; [|discriminate E]. injection E as <- <-.
  destruct (compiler_process_yields _ _ _ _ _ _ _ _ _ Ep) as (l & El & Hl & Hx).
  exists l. split; [done|]. split_and!; [done..|]. eexists. split; [done|].
  destruct x as [e|]; [|done]. destruct e as [code|code|signal|argv]; try done.
  - cbn in Hx. destruct Hx as [->| ->]; [by vm_compute|done].
  - cbn in Hx. subst. by vm_compute.
Qed.

(** ** What is decided *)

Lemma mute_set_rmsg f :
  (forall r, cr_was_out_of_memory (f r) = cr_was_out_of_memory r) -> mute (set_rmsg f).
Proof. intros Hf. apply within_change. intros s. split; [done|]. unfold answer_part. cbn. by rewrite Hf. Qed.
Lemma mute_set_stat i v : mute (set_stat i v).
Proof. by apply within_change. Qed.
Lemma mute_add_stat i v : mute (add_stat i v).
Proof. by apply within_change. Qed.
Lemma mute_hear t e : mute (hear t e).
Proof. by apply within_talk; [apply _|]. Qed.
#[local] Hint Resolve mute_set_stat mute_add_stat mute_hear : icc.
#[local] Hint Extern 1 (mute (set_rmsg _)) => by apply mute_set_rmsg : icc.
#[local] Hint Extern 1 (mute kill_compiler) => by apply within_note; [apply _|] : icc.
#[local] Hint Extern 1 (mute close_input) => by apply within_note; [apply _|] : icc.

Lemma mute_pipes n : mute (pipes n).
Proof. induction n; cbn; stay. Qed.
Lemma mute_abandon v L : mute (abandon v L).
Proof. unfold abandon. stay. Qed.
#[local] Hint Resolve mute_pipes mute_abandon : icc.
Lemma mute_take_message L : mute (take_message L).
Proof. unfold take_message. stay. Qed.
Lemma mute_write_input m L : mute (write_input m L).
Proof. unfold write_input. stay. Qed.
Lemma mute_read_output fd append :
  (forall x r, cr_was_out_of_memory (append x r) = cr_was_out_of_memory r) -> mute (read_output fd append).
Proof. intros Ha. unfold read_output. stay. Qed.
Lemma mute_read_outputs set L : mute (read_outputs set L).
Proof. unfold read_outputs. stay; by apply mute_read_output. Qed.
Lemma mute_failure ru mem_limit : mute (failure ru mem_limit).
Proof. unfold failure, disk_full. stay. Qed.
#[local] Hint Resolve mute_take_message mute_write_input mute_read_outputs mute_failure : icc.

(** The compiler has ended, with the exit code 0. *)
Definition exited_well (child : child_end) : Prop :=
  exists t status ru, w_wait t = Some (status, ru) /\
    shell_exit_status (match child with Ended st => st | _ => status end) = 0.

(** That was known before the question [n] was asked. *)
Definition ended_well (child : child_end) (n : nat) : Prop :=
  exists t status ru, (t < n)%nat /\ w_wait t = Some (status, ru) /\
    shell_exit_status (match child with Ended st => st | _ => status end) = 0.

Definition ends_with (P : Z -> Work -> Prop) (r : work_exn + Z) (l : list work_effect) (s s' : Work) : Prop :=
  Forall undecided l /\ answer_part s' = answer_part s /\ exists v, r = inr v /\ P v s'.

(** A step within bounds, and what follows. *)
Lemma works_mute {A B} (m : work A) (k : A -> work B) s Q :
  mute m ->
  (forall a l s1, Forall undecided l -> answer_part s1 = answer_part s ->
     works (k a) s1 (fun r l' s' => Q r (l ++ l') s')) ->
  works (ebind m k) s Q.
Proof.
  intros Hm Hk. eapply yields_bind; [apply Hm|..]; cbn; [|by intros e l s1 (_ & _ & [])].
  intros a l s1 (Hl & Hs & _). by apply Hk.
Qed.

Lemma exited_code status : shell_exit_status status = 0 -> WIFEXITED status = true.
Proof.
  unfold shell_exit_status. destruct (WIFEXITED status); [done|].
  destruct (WIFSIGNALED status); [|done]. unfold WTERMSIG.
  pose proof (Z.land_nonneg status 127). lia.
Qed.

Lemma compiler_ended_status child tv mem_limit v s :
  works (compiler_ended child tv mem_limit v) s (fun r l s' =>
    ends_with (fun _ s' => cr_status (wk_rmsg s') = 0 -> ended_well child (wk_asked s')) r l s s').
Proof.
  apply works_ask. destruct (w_wait (wk_asked s)) as [[status ru]|] eqn:Ew; [|intros r s' E; discriminate E].
  cbv zeta. set (st := match child with Ended st => st | _ => status end).
  destruct (shell_exit_status st =? 0) eqn:E0; boolify.
  - apply yields_passed. rewrite exited_code by done.
    apply yields_assoc, works_ask. apply yields_assoc, works_set_rmsg.
    do 4 (apply yields_assoc, works_set_stat; intros ?). apply works_set_stat. intros ?.
    apply yields_ok. do 2 (split; [done|]). exists v. split; [done|]. intros _.
    exists (wk_asked s), status, ru. split; [|done]. cbn. lia.
  - eapply (yields_bind _ _ _ (fun r l s1 => Forall undecided l /\ answer_part s1 = answer_part s /\
      (exists o, r = inr o) /\ cr_status (wk_rmsg s1) <> 0)).
    + unfold failure. apply works_set_rmsg. apply yields_look.
      destruct (out_of_memory _ _ _); [apply yields_ok; by eauto|].
      assert (forall err, calm (fun _ => False) (disk_full err)) as Hd by (intros err; unfold disk_full; stay).
      eapply yields_bind; [apply Hd|..]; cbn.
      * intros full l s1 (Hl & Hs & _). apply yields_ok. injection Hs as Hm _ Ho. rewrite app_nil_r.
        split_and!; [|by unfold answer_part; rewrite Hm, Ho|by eauto|by rewrite Hm].
        eapply Forall_impl; [exact Hl|]. by intros [[] | | | | | | | | |].
      * by intros e l s1 (_ & _ & []).
    + intros [ret|] l s1 (Hl & Hs & _ & Hst).
      * apply yields_ok. rewrite app_nil_r. do 2 (split; [done|]). by exists ret.
      * apply yields_if; intros _; cycle 1.
        { apply yields_passed, yields_ok. rewrite app_nil_r. do 2 (split; [done|]). by exists v. }
        apply yields_assoc, works_inquire. intros t1. apply yields_assoc, works_set_rmsg.
        do 4 (apply yields_assoc, works_set_stat; intros ?). apply works_set_stat. intros ?.
        apply yields_ok. rewrite app_nil_r. do 2 (split; [done|]). by exists v.
    + by intros e l s1 (_ & _ & [? ?] & _).
Qed.

Definition step_status (child : child_end) (st : step) (s' : Work) : Prop :=
  match st with Return _ => cr_status (wk_rmsg s') = 0 -> ended_well child (wk_asked s') | Continue _ => True end.

Lemma poll_round_status child tv mem_limit L s :
  works (poll_round child tv mem_limit L) s (fun r l s' =>
    Forall undecided l /\ answer_part s' = answer_part s /\ exists st, r = inr st /\ step_status child st s').
Proof.
  apply works_mute; [auto with icc|]. intros L1 l1 s1 Hl1 Hs1. apply works_inquire. intros t.
  assert (forall L2 s2, answer_part s2 = answer_part s -> works (ok (Continue L2) : work step) s2 (fun r l' s' =>
    Forall undecided (l1 ++ l') /\ answer_part s' = answer_part s /\ exists st, r = inr st /\ step_status child st s'))
    as Hcont by (intros L2 s2 Hs2; apply yields_ok; rewrite app_nil_r; split_and!; [done|done|by eexists]).
  destruct (w_poll t _ _) as [| | |revents]; [|by apply Hcont|apply yields_throw|].
  - destruct (fd_input_complete _); [apply yields_throw|].
    apply works_mute; [auto with icc|]. intros L2 l2 s2 Hl2 Hs2. apply yields_ok. rewrite app_nil_r.
    split_and!; [by apply Forall_app|by rewrite Hs2|by eexists].
  - unfold after_poll. apply works_mute; [stay|]. intros written l2 s2 Hl2 Hs2.
    destruct written as [L2|L2].
    { apply yields_ok. rewrite app_nil_r. split_and!; [by apply Forall_app|by rewrite Hs2|by eexists]. }
    apply works_mute; [auto with icc|]. intros L3 l3 s3 Hl3 Hs3.
    destruct (pollfd_is_set _ _ _ _); cycle 1.
    { apply yields_ok. rewrite app_nil_r.
      split_and!; [by repeat (apply Forall_app; split)|by rewrite Hs3, Hs2|by eexists]. }
    eapply yields_bind; [apply compiler_ended_status|..].
    + intros ret l4 s4 (Hl4 & Hs4 & v & Ev & Hv). apply yields_ok. rewrite app_nil_r.
      split_and!; [by repeat (apply Forall_app; split)|by rewrite Hs4, Hs3, Hs2|by eexists].
    + by intros e l4 s4 (_ & _ & ? & [=] & _).
Qed.

Lemma poll_loop_status fuel child tv mem_limit L s :
  works (poll_loop fuel child tv mem_limit L) s (fun r l s' =>
    ends_with (fun _ s' => cr_status (wk_rmsg s') = 0 -> ended_well child (wk_asked s')) r l s s').
Proof.
  revert L s. induction fuel as [|fuel IH]; intros L s;
    (eapply yields_bind; [apply poll_round_status|..]; [|by intros e l4 s4 (_ & _ & ? & [=] & _)]);
    (intros st l1 s1 (Hl1 & Hs1 & st' & [= <-] & Hst); destruct st as [L1|v];
     [|apply yields_ok; rewrite app_nil_r; by do 2 (split; [done|]); exists v]).
  - apply yields_throw.
  - eapply yields_weaken; [apply IH|]. cbn. intros r l2 s2 (Hl2 & Hs2 & Hr).
    split_and!; [by apply Forall_app|by rewrite Hs2|done].
Qed.

(** The compiler was started, and it ended with the exit code 0. *)
Definition compiled (l : list work_effect) : Prop :=
  (exists dir argv, Started dir argv ∈ l) /\ exited_well Compiling.

(** It was started for this file, and had ended well before the question [n]. *)
Definition compiled_for (dir file : string) (n : nat) (l : list work_effect) : Prop :=
  started_for dir file l /\ ended_well Compiling n.
Lemma compiled_for_compiled dir file n l : compiled_for dir file n l -> compiled l.
Proof.
  intros [(d & argv & _ & _ & Hin & _) (t & st & ru & _ & Hw)]. split; [by exists d, argv|by exists t, st, ru].
Qed.

Lemma incidental_undecided l : Forall incidental l -> Forall undecided l.
Proof. intros Hl. eapply Forall_impl; [exact Hl|]. by intros [[] | | | | | | | | |]. Qed.

(** [work_it] returns. Where it returns 0 the status is 0 only if the source was
    compiled into the file it was to go to. *)
Lemma work_it_status fuel j tmp_root build_path file_name mem_limit s :
  works (work_it fuel j tmp_root build_path file_name mem_limit) s (fun r l s' =>
    ends_with (fun v s' => v = 0 -> cr_status (wk_rmsg s') = 0 ->
      compiled_for (tmp_root +:+ build_path) file_name (wk_asked s') l) r l s s').
Proof.
  unfold work_it. apply works_mute; [auto with icc|]. intros [] l0 s0 Hl0 Hs0. apply yields_look. cbv zeta.
  apply works_mute; [auto with icc|]. intros made l1 s1 Hl1 Hs1.
  assert (forall v s2 l, v <> 0 -> Forall undecided l -> answer_part s2 = answer_part s ->
    works (ok v : work Z) s2 (fun r l' s' =>
      ends_with (fun v s' => v = 0 -> cr_status (wk_rmsg s') = 0 ->
        compiled_for (tmp_root +:+ build_path) file_name (wk_asked s') (l ++ l')) r (l ++ l') s s')) as Hret.
  { intros v s2 l Hv Hl Hs2. apply yields_ok. rewrite app_nil_r. do 2 (split; [done|]). by exists v. }
  assert (answer_part s1 = answer_part s) as Hs1' by congruence.
  destruct made; cbn [negb]; cycle 1.
  { eapply yields_weaken; [apply (Hret _ _ (l0 ++ l1)); [done|by apply Forall_app|done]|].
    intros r l s'. cbv beta. by rewrite <- app_assoc. }
  apply works_inquire. intros t. destruct (w_fork t); cbn [negb]; cycle 1.
  { eapply yields_weaken; [apply (Hret _ _ (l0 ++ l1)); [done|by apply Forall_app|done]|].
    intros r l s'. cbv beta. by rewrite <- app_assoc. }
  eapply yields_bind; [apply in_child_yields|..]; [|by intros e l s2 (_ & _ & ? & [=] & _)].
  intros child l2 s2 (Hl2 & Hs2 & c & [= <-] & Hc). apply incidental_undecided in Hl2.
  assert (answer_part s2 = answer_part s) as Hs2'.
  { injection Hs2 as Hm _ Ho. unfold answer_part in *. cbn in *. congruence. }
  assert (forall s3, answer_part s3 = answer_part s2 -> (child = Compiling -> started_for (tmp_root +:+ build_path) file_name l2) ->
    (forall st, child = Ended st -> shell_exit_status st <> 0) -> child <> Exec_failed ->
    works (starttv ⇐ inquire w_time;
           poll_loop fuel child starttv mem_limit (mkFeed 0 false None 0 true true true true)) s3
      (fun r l' s' => ends_with (fun v s' => v = 0 -> cr_status (wk_rmsg s') = 0 ->
         compiled_for (tmp_root +:+ build_path) file_name (wk_asked s') (l0 ++ l1 ++ l2 ++ l'))
         r (l0 ++ l1 ++ l2 ++ l') s s')) as Hloop.
  { intros s3 Hs3 Hst Hend Hne. apply works_inquire. intros t3. eapply yields_weaken; [apply poll_loop_status|].
    intros r l3 s4 (Hl3 & Hs4 & v & -> & Hv). split; [by repeat (apply Forall_app; split)|].
    split; [unfold answer_part in *; cbn in *; congruence|]. exists v. split; [done|]. intros _ H0'.
    specialize (Hv H0'). destruct child as [| |st]; [|done|].
    - split; [|done]. rewrite app_assoc. by apply started_for_between, Hst.
    - destruct Hv as (tw & status & ru & _ & _ & Ex). by destruct (Hend st). }
  destruct child as [| |st];
    [apply Hloop; [done|done|discriminate|discriminate]| |
     apply Hloop; [done|discriminate|by intros st' [= <-]|discriminate]].
  apply works_mute; [auto with icc|]. intros [] l3 s3 Hl3 Hs3.
  apply works_mute; [by apply calm_mute, calm_error_client|]. intros [] l4 s4 Hl4 Hs4.
  eapply yields_weaken; [apply (Hret _ _ (l0 ++ l1 ++ l2 ++ l3 ++ l4)); [done|by repeat (apply Forall_app; split)|congruence]|].
  intros r l s'. cbv beta. by rewrite <- !app_assoc.
Qed.

Lemma calm_pipes n : calm (fun _ => False) (pipes n).
Proof. induction n; cbn; stay. Qed.

Lemma incidental_plain l : Forall incidental l -> Forall plain_effect l.
Proof. intros Hl. eapply Forall_impl; [exact Hl|]. by intros [[] | | | | | | | | |]. Qed.

Context (w_write_counts : forall t bs n, w_write t bs = Written n -> 0 <= n).

Lemma work_it_delivers fuel j tmp_root build_path file_name mem_limit s :
  works (work_it fuel j tmp_root build_path file_name mem_limit) s (fun r l _ =>
    match r with inr v => delivered l v | inl _ => True end).
Proof.
  apply works_set_rmsg, yields_look. cbv zeta.
  assert (forall v s2 l, v <> 0 -> Forall incidental l ->
    works (ok v : work Z) s2 (fun r l' _ => match r with inr v => delivered (l ++ l') v | inl _ => True end)) as Hret.
  { intros v s2 l Hv Hl. apply yields_ok. rewrite app_nil_r.
    apply incidental_plain, plain_got in Hl as (Hg & Hf & _). split; [|done].
    rewrite Hf. apply prefix_nil. }
  eapply yields_bind; [apply calm_pipes|..]; [|done]. intros made l1 s1 (Hl1 & _ & _).
  destruct made; cbn [negb]; [|by apply Hret].
  apply works_inquire. intros t. destruct (w_fork t); cbn [negb]; [|by apply Hret].
  eapply yields_bind; [apply in_child_yields|..]; [|done].
  intros child l2 s2 (Hl2 & _ & c & [= <-] & _).
  assert (Forall incidental (l1 ++ l2)) as Hl by by apply Forall_app.
  assert (works (starttv ⇐ inquire w_time;
           poll_loop fuel child starttv mem_limit (mkFeed 0 false None 0 true true true true)) s2
      (fun r l' s' => match r with inr v => delivered (l1 ++ l2 ++ l') v | inl _ => True end)) as Hloop.
  { apply works_inquire. intros t3. eapply yields_weaken.
    - apply (poll_loop_feeds w_write_counts _ _ _ _ (l1 ++ l2)).
      apply (feeding_plain []), feeding_start. by apply incidental_plain.
    - intros r l s'. cbv beta. by rewrite <- app_assoc. }
  destruct child as [| |st]; [apply Hloop| |apply Hloop].
  apply works_set_rmsg. eapply yields_bind; [by apply (calm_error_client (fun _ => False))|..]; [|done].
  intros [] l3 s3 (Hl3 & _ & _). eapply yields_weaken.
  - apply (Hret EXIT_COMPILER_MISSING s3 (l1 ++ l2 ++ l3)); [done|]. by repeat (apply Forall_app; split).
  - intros r l s'. cbv beta. by rewrite <- !app_assoc.
Qed.

(** C17: the source reaches the compiler. Whatever happens during a compilation,
    the compiler reads a beginning of what was in the chunks the client has sent,
    in order and without a gap. When [work_it] returns 0 the client has sent
    chunks and then the end, and nothing else; and if the compiler was not sent
    a signal it got all of them. *)
Theorem source_reaches_compiler fuel j tmp_root build_path file_name mem_limit s v s' :
  work_it fuel j tmp_root build_path file_name mem_limit s = Ok (inr v, s') ->
  exists news, wk_effects s' = wk_effects s ++ news /\
    fed news `prefix_of` source news /\
    (v = 0 -> exists chunks, got news = map FileChunk chunks ++ [EndMsg] /\
       (Terminated ∉ news -> fed news = concat (map payload chunks))).
Proof.
  intros E. destruct (work_it_delivers _ _ _ _ _ _ _ _ _ E) as (l & El & Hp & Hz).
  exists l. split_and!; [done..|]. intros Hv. destruct (Hz Hv) as (cs & Eg & Hf).
  exists cs. split; [done|]. intros Ht. rewrite Hf by done. unfold source, source_chunks.
  rewrite Eg, omap_app, app_nil_r. f_equal. clear. induction cs as [|c cs IH]; [done|]. cbn. by rewrite <- IH.
Qed.
End process.

(** ** A sample *)

(** A machine on which every call succeeds; the compiler is silent and ends with
    a status. [forks] is whether [fork] works. *)
Definition workplace_with (forks : bool) (status : Z) : Workplace := {|
  w_pid := 7; w_pagesize := 4096; w_uid := fun t => if (t <? 3)%nat then 0 else 65534;
  w_gid := fun _ => 65534; w_time := fun _ => (1000, 0);
  w_executable := fun _ _ => true; w_writable := fun _ _ => true; w_chdir := fun _ _ => true;
  w_chroot := fun _ _ => true; w_setgroups := fun _ => true; w_setgid := fun _ _ => true;
  w_setuid := fun _ _ => true; w_setrlimit := fun _ _ => true; w_mkdir := fun _ _ => Created;
  w_open_new := fun _ _ => Created; w_close := fun _ => true; w_mkdtemp := fun _ => inl "/tmp/icecc-x"%string;
  w_unlink := fun _ _ => true; w_rmdir := fun _ _ => true; w_tree := fun _ _ => Directory_node true No_entries;
  w_stat := fun _ f => if StdString.contains ".o" f then Some 3 else None;
  w_open := fun _ _ => Some [Some [x41; x42; x43]];
  w_pipe := fun _ => true; w_fork := fun _ => forks; w_exec := fun _ _ => true;
  w_poll := fun _ _ _ => Ready (fun fd => if decide (fd = Sock_in) then POLLOUT else POLLIN);
  w_write := fun _ bs => Written (Z.of_nat (length bs)); w_read := fun _ _ => Some [];
  w_wait := fun _ => Some (status, mkRusage (0, 0) (0, 0) 0 0 0);
  w_statfs := fun _ => Some (100000, 4096)
|}.

Lemma workplace_counts forks status t bs n :
  @w_write (workplace_with forks status) t bs = Written n -> 0 <= n.
Proof. intros [= <-]. lia. Qed.

Section sample.
#[local] Existing Instances store_compressors client_channels.

Definition remote_job : CompileJob :=
  mkCompileJob 7 Lang_CXX "" "g++" "gcc-env" [("-O2"%string, Arg_Remote); ("-Wall"%string, Arg_Rest)]
    "a.cpp" "a.o" "/src" "x86_64" false false.
(** The client has sent a source in two chunks. *)
Definition source_client : list Msg := [chunk [x69; x6e]; chunk [x74]; EndMsg].
Definition work_with (msgs : list Msg) : Work :=
  mkWork (sample_channel 3 "client" msgs) (mkCompileResultMsg 0 "" "" false false) (repeat 0 8) true 5 [].

Abbreviation working := (@work_it client_channels (workplace_with true 0) 10 remote_job
  "/tmp" "" "icecc-7.o" 1000 (work_with source_client)).

Lemma working_returns : exists s', working = Ok (inr 0, s').
Proof.
  assert (match working with Ok (inr v, _) => v =? 0 | _ => false end = true) as E by (vm_compute; reflexivity).
  revert E. generalize working as r. intros [[[e|v] s']|f] E; try discriminate E.
  apply Z.eqb_eq in E as ->. by exists s'.
Qed.

Definition compiler_input : option (list byte) :=
  match working with Ok (inr _, s') => Some (fed (wk_effects s')) | _ => None end.

Lemma source_reaches_compiler_witness :
  compiler_input = Some (bytes_of "int") /\
  exists s' news, working = Ok (inr 0, s') /\ wk_effects s' = wk_effects (work_with source_client) ++ news /\
    fed news `prefix_of` source news /\
    (0 = 0 -> exists chunks, got news = map FileChunk chunks ++ [EndMsg] /\
       (Terminated ∉ news -> fed news = concat (map payload chunks))).
Proof.
  split; [vm_compute; reflexivity|]. destruct working_returns as [s' Er].
  destruct (@source_reaches_compiler client_channels (workplace_with true 0) (workplace_counts true 0)
    10 remote_job "/tmp" "" "icecc-7.o" 1000 (work_with source_client) 0 s' Er) as (news & Hx).
  exists s', news. split; [exact Er|exact Hx].
Defined.
End sample.
