(* ===== verification/WorkItEnds.v ===== *)
(** * A compilation on a server ends

    [work_it] returns, on a system that settles: from some time on no call is
    interrupted, the compiler has written all it will write, and the client
    sends nothing more. *)

From Stdlib Require Import ZArith Lia Wf_nat.
From Stdlib Require Import Strings.Byte Strings.String.
From stdpp Require Import base tactics option list gmap strings pretty.
From S2P Require Import Prelude Effects ExitCode StdString MsgChannel CompileJob Msg MsgCodec Interface Transport ChannelImpl Worker WorkIt Files WorkerFacts WorkItFacts.

#[local] Open Scope Z_scope.
#[local] Open Scope icecc_scope.

(** A chunk as it comes off the wire: the buffer holds what the length says. *)
Definition sound (m : Msg) : Prop :=
  match m with
  | FileChunk c => exists d, fc_buffer c = Some d /\ fc_len c = Z.of_nat (length d)
  | _ => True
  end.

(** What the loop relies on. [left] is the messages a connection still brings.
    From [T] on: calls are not interrupted; where [poll] says that something is
    ready, something other than the connection to the silent client is; the
    compiler's output is at its end; its input takes a byte at least. *)
Class Settling `{Channels} `{Workplace} (T : nat) (left : MsgChannel -> nat) : Prop := {
  st_get : forall c, exists m c', ch_get 0 true c = Ok (m, c') /\
    match m with Some m => sound m /\ (left c' < left c)%nat | None => (left c' <= left c)%nat end;
  st_write : forall t bs n, w_write t bs = Written n -> 0 <= n <= Z.of_nat (length bs);
  st_wait : forall t, is_Some (w_wait t);
  st_statfs : forall t a b, w_statfs t = Some (a, b) -> b <> 0;
  st_poll : forall t fds timeout, w_poll t fds timeout <> Poll_failed;
  st_patient : forall t fds, (Death_pipe, POLLIN) ∈ fds -> w_poll t fds (-1) <> Timed_out;
  st_late_poll : forall t fds timeout, (T <= t)%nat -> w_poll t fds timeout <> Interrupted;
  st_late_ready : forall t fds timeout revents, (T <= t)%nat -> w_poll t fds timeout = Ready revents ->
    exists fd flags, (fd, flags) ∈ fds /\ fd <> Client_fd /\ pollfd_is_set fds revents fd flags = true;
  st_late_read : forall t fd, (T <= t)%nat -> w_read t fd = Some [];
  st_late_write : forall t bs, (T <= t)%nat ->
    match w_write t bs with Written n => bs <> [] -> 0 < n | Write_again => False | Write_failed => True end
}.

Section ends.
Context `{ChannelsReturn} `{Workplace} (T : nat) (left : MsgChannel -> nat) `{!Settling T left}.

Lemma runs_inquire {A B} (q : nat -> A) (k : A -> work B) s Q :
  runs (k (q (wk_asked s))) (set_wk_asked (S (wk_asked s)) s) Q -> runs (ebind (inquire q) k) s Q.
Proof. done. Qed.
Lemma runs_note {B} e (k : unit -> work B) s Q :
  runs (k tt) (set_wk_effects (wk_effects s ++ [e]) s) Q -> runs (ebind (note e) k) s Q.
Proof. done. Qed.
Lemma runs_told {B} m (k : bool -> work B) s Q :
  (forall b c l, runs (k b) (set_wk_effects l (set_wk_client c s)) Q) -> runs (ebind (tell m) k) s Q.
Proof.
  intros Hk. destruct (ch_send_returns m SendBlocking (wk_client s)) as (b & c' & E).
  apply runs_ebind, runs_ebind. unfold runs at 1. rewrite on_channel_eq, E.
  do 2 eexists. split; [done|]. eapply runs_ok; [done|]. apply Hk.
Qed.

(** ** What a round is measured by *)

Definition size (L : Feed) : nat :=
  match fd_fcmsg L with Some _ => S (length (pending L)) | None => O end.
Definition open_ends (L : Feed) : nat :=
  (Nat.b2n (fd_client L) + Nat.b2n (fd_out L) + Nat.b2n (fd_err L))%nat.

(** The loop's variables fit together. *)
Definition fitting (L : Feed) : Prop :=
  (fd_client L = true \/ fd_input_complete L = true) /\
  forall m, fd_fcmsg L = Some m ->
    (exists d, fc_buffer m = Some d /\ fc_len m = Z.of_nat (length d)) /\
    (0 <= fd_off L < fc_len m \/ fd_off L = 0 /\ fc_len m = 0).

(** Not more than before, and less. *)
Definition down (L' : Feed) (s' : Work) (L : Feed) (s : Work) : Prop :=
  (left (wk_client s') < left (wk_client s) \/
   left (wk_client s') <= left (wk_client s) /\
   (size L' < size L \/ size L' <= size L /\ open_ends L' <= open_ends L))%nat.
Definition less (L' : Feed) (s' : Work) (L : Feed) (s : Work) : Prop :=
  (left (wk_client s') < left (wk_client s) \/
   left (wk_client s') <= left (wk_client s) /\
   (size L' < size L \/ size L' <= size L /\ open_ends L' < open_ends L))%nat.

Lemma down_refl L s s' : wk_client s' = wk_client s -> down L s' L s.
Proof. unfold down. intros ->. lia. Qed.
Lemma down_trans L2 s2 L1 s1 L s : down L2 s2 L1 s1 -> down L1 s1 L s -> down L2 s2 L s.
Proof. unfold down. lia. Qed.
Lemma less_down L2 s2 L1 s1 L s : less L2 s2 L1 s1 -> down L1 s1 L s -> less L2 s2 L s.
Proof. unfold down, less. lia. Qed.
Lemma down_less L2 s2 L1 s1 L s : down L2 s2 L1 s1 -> less L1 s1 L s -> less L2 s2 L s.
Proof. unfold down, less. lia. Qed.

(** [m] leads to variables that fit, later and not with more to do. *)
Definition moves (m : work Feed) (L : Feed) (s : Work) : Prop :=
  runs m s (fun r s' => exists L', r = inr L' /\ fitting L' /\ (wk_asked s <= wk_asked s')%nat /\ down L' s' L s).

Lemma abandon_moves v L s s0 :
  wk_asked s0 = wk_asked s -> (left (wk_client s) <= left (wk_client s0))%nat ->
  runs (abandon v L) s (fun r s' => exists L', r = inr L' /\ fitting L' /\ wk_asked s' = wk_asked s0 /\
    (fd_client L = true -> less L' s' L s0)).
Proof.
  intros Ha Hl. apply runs_note, runs_done. eexists. split; [done|]. split_and!; [|done|].
  - split; [by right|done].
  - intros Hc. unfold less, size, open_ends. cbn. rewrite Hc. cbn. lia.
Qed.

Lemma take_message_moves L s : fitting L -> moves (take_message L) L s.
Proof.
  intros [Hc Hm]. unfold take_message, moves. destruct (fd_client L && is_none (fd_fcmsg L)) eqn:Ec; cycle 1.
  { apply runs_done. exists L. split_and!; [done|by split|done|by apply down_refl]. }
  boolify. destruct (st_get (wk_client s)) as (m & c' & Eg & Hleft).
  apply runs_ebind, runs_ebind. unfold runs at 1. rewrite on_channel_eq, Eg.
  do 2 eexists. split; [done|]. eapply runs_ok; [done|]. set (s1 := set_wk_effects _ _).
  assert (forall v s2, wk_asked s2 = wk_asked s -> wk_client s2 = c' -> (left c' <= left (wk_client s))%nat ->
    runs (abandon v L) s2 (fun r s' => exists L', r = inr L' /\ fitting L' /\ (wk_asked s <= wk_asked s')%nat /\ down L' s' L s))
    as Hgive.
  { intros v s2 Ha Hs2 Hl. eapply runs_weaken; [|apply (abandon_moves v L s2 s); [done|by rewrite Hs2]].
    intros r s' (L' & -> & HL' & Ea & Hless). exists L'. split_and!; [done..|lia|].
    specialize (Hless ltac:(done)). revert Hless. unfold less, down. lia. }
  destruct m as [m|]; cycle 1.
  { apply runs_look. destruct (at_eof _); [by apply Hgive|]. apply runs_done. exists L.
    split_and!; [done|by split|done|]. unfold down. cbn. lia. }
  destruct Hleft as [Hsound Hleft].
  destruct (fd_input_complete L) eqn:Ei; [by apply runs_change, Hgive; [done..|lia]|].
  assert (forall L' s2, fitting L' -> (wk_asked s <= wk_asked s2)%nat -> wk_client s2 = c' ->
    runs (ok L' : work Feed) s2 (fun r s' => exists L', r = inr L' /\ fitting L' /\ (wk_asked s <= wk_asked s')%nat /\ down L' s' L s))
    as Hok.
  { intros L' s2 HL' Ha Hs2. apply runs_done. exists L'. split_and!; [done..|]. unfold down. rewrite Hs2. lia. }
  destruct m as [| | | | | | | |chk| | | | | | | | | | | | | | | | | | | | |]; try (by apply Hgive; [done..|lia]).
  - destruct (fd_in L); [apply runs_note|]; (apply Hok; [|done..]); (split; [by left|]); cbn; intros m E;
      destruct (fd_fcmsg L); done.
  - apply runs_change, runs_change, Hok; [|done..]. split; [by left|]. cbn. intros m [= <-].
    destruct Hsound as (d & Hb & Hl). split; [by exists d|]. lia.
Qed.

Lemma drop_chunk_moves L s s' : fitting L -> wk_client s' = wk_client s -> fitting (drop_chunk L) /\ down (drop_chunk L) s' L s.
Proof.
  intros HL Hs. unfold drop_chunk. destruct (fd_in L); cbn [negb]; [split; [done|by apply down_refl]|].
  split; [split; [apply HL|done]|]. unfold down, size, open_ends. rewrite Hs. cbn. lia.
Qed.

(** A write makes the chunk shorter, from [T] on. *)
Lemma write_input_moves m L s :
  fitting L -> fd_fcmsg L = Some m ->
  runs (write_input m L) s (fun r s' => exists w, r = inr w /\
    let L' := match w with inl L' | inr L' => L' end in
    fitting L' /\ (wk_asked s <= wk_asked s')%nat /\ wk_client s' = wk_client s /\ open_ends L' = open_ends L /\
    fd_out L' = fd_out L /\ fd_err L' = fd_err L /\ ((T <= wk_asked s)%nat -> (size L' < size L)%nat)).
Proof.
  intros [Hc Hm] Em. destruct (Hm _ Em) as [(d & Hb & Hl) Hoff].
  assert (chunk_data m = Ok (Some d)) as Ed.
  { unfold chunk_data. rewrite Hb, Hl, (proj2 (Z.ltb_ge _ _)), Nat2Z.id, firstn_all by lia. done. }
  assert (payload m = d) as Hp by by apply chunk_data_payload.
  unfold write_input. rewrite Ed. apply runs_inquire.
  set (x := drop (Z.to_nat (fd_off L)) d).
  assert (size L = S (length x)) as Esize by (unfold size, pending; by rewrite Em, Hp).
  assert (length x = (length d - Z.to_nat (fd_off L))%nat) as Elx by apply length_drop.
  destruct (w_write (wk_asked s) x) as [n| |] eqn:Ew.
  - destruct (st_write _ _ _ Ew) as [Hn0 Hn]. apply runs_note. cbn [default].
    assert ((T <= wk_asked s)%nat -> (0 < length x)%nat -> 0 < n) as Hpos.
    { intros Ht Hx. pose proof (st_late_write (wk_asked s) x Ht) as Hw. rewrite Ew in Hw.
      apply Hw. intros E. rewrite E in Hx. cbn in Hx. lia. }
    destruct (fd_off L + n =? fc_len m) eqn:Eo; boolify.
    + destruct (fd_input_complete L) eqn:Ei; [apply runs_note|]; apply runs_done; eexists; (split; [done|]); cbn;
        (split_and!; [split; [cbn; tauto|done]|lia|done..|]); intros _; rewrite Esize; cbn; lia.
    + apply runs_done. eexists. split; [done|]. cbn. split_and!; [|lia|done..|].
      * split; [done|]. cbn. intros m' [= <-]. split; [by exists d|]. left. lia.
      * intros Ht. rewrite Esize. unfold size, pending. cbn. rewrite Hp, length_drop.
        destruct (decide (length x = 0%nat)); [lia|]. specialize (Hpos Ht). lia.
  - apply runs_done. eexists. split; [done|]. cbn. split_and!; [done|lia|done..|]. intros Ht.
    pose proof (st_late_write (wk_asked s) x Ht) as Hw. by rewrite Ew in Hw.
  - apply runs_note, runs_note, runs_done. eexists. split; [done|]. cbn.
    split_and!; [split; [cbn; tauto|done]|lia|done..|]. intros _. rewrite Esize. cbn. lia.
Qed.

(** Output is read to its end, from [T] on. *)
Lemma read_output_runs {B} fd append (k : bool -> work B) s Q :
  (forall b s1, wk_client s1 = wk_client s -> (wk_asked s <= wk_asked s1)%nat ->
     ((T <= wk_asked s)%nat -> b = false) -> runs (k b) s1 Q) ->
  runs (ebind (read_output fd append) k) s Q.
Proof.
  intros Hk. apply runs_ebind, runs_inquire.
  assert (forall b s1, wk_client s1 = wk_client s -> (wk_asked s <= wk_asked s1)%nat ->
     ((T <= wk_asked s)%nat -> b = false) ->
     runs (ok b : work bool) s1 (fun r s1 => match r with inl e => Q (inl e) s1 | inr a => runs (k a) s1 Q end)) as Hok
    by (intros; by apply runs_done, Hk).
  pose proof (st_late_read (wk_asked s) fd) as Hr.
  destruct (w_read (wk_asked s) fd) as [[|b bs]|]; [| |];
    [|apply runs_change|]; apply Hok; try done; cbn; try lia; intros Ht; by specialize (Hr Ht).
Qed.

Lemma read_outputs_moves set L s :
  fitting L ->
  runs (read_outputs set L) s (fun r s' => exists L', r = inr L' /\ fitting L' /\ (wk_asked s <= wk_asked s')%nat /\
    wk_client s' = wk_client s /\ fd_return_value L' = fd_return_value L /\ size L' = size L /\
    ((T <= wk_asked s)%nat -> (open_ends L' <= open_ends L)%nat /\
      (fd_out L && set Sock_out POLLIN || fd_err L && set Sock_err POLLIN = true -> (open_ends L' < open_ends L)%nat))).
Proof.
  intros [Hc Hm]. unfold read_outputs.
  assert (forall (c : bool) fd append old (k : bool -> work Feed) s Q,
    (forall b s1, wk_client s1 = wk_client s -> (wk_asked s <= wk_asked s1)%nat ->
       (c = false -> b = old) -> ((T <= wk_asked s)%nat -> c = true -> b = false) -> runs (k b) s1 Q) ->
    runs (ebind (if c then read_output fd append else ok old) k) s Q) as Hone.
  { intros [] fd append old k s0 Q Hk; [apply read_output_runs; intros; apply Hk; auto; done|].
    apply runs_ebind, runs_done. by apply Hk. }
  apply Hone. intros out s1 Hs1 Ha1 Ho Ho'. apply Hone. intros err s2 Hs2 Ha2 He He'.
  apply runs_done. eexists. split; [done|]. split_and!; [by split|lia|congruence|done|done|].
  intros Ht. specialize (Ho' Ht). specialize (He' ltac:(lia)). unfold open_ends. cbn.
  destruct (fd_out L), (set Sock_out POLLIN), (fd_err L), (set Sock_err POLLIN); cbn in *;
    repeat match goal with H : ?x = ?x -> _ |- _ => specialize (H eq_refl) end; subst; cbn; lia.
Qed.

(** The system is asked about the compiler that has ended. *)
Lemma runs_disk_full {B} err (k : bool -> work B) s Q :
  (forall b, runs (k b) (set_wk_asked (S (wk_asked s)) s) Q) -> runs (ebind (disk_full err) k) s Q.
Proof.
  intros Hk. apply runs_ebind, runs_inquire. destruct (w_statfs _) as [[a b]|] eqn:E.
  - apply st_statfs in E. rewrite (proj2 (Z.eqb_neq _ _)) by done. apply runs_done, Hk.
  - apply runs_done, Hk.
Qed.
Lemma compiler_ended_runs child tv mem_limit v s :
  runs (compiler_ended child tv mem_limit v) s (fun r s' => exists ret, r = inr ret).
Proof.
  apply runs_inquire. destruct (st_wait (wk_asked s)) as [[status ru] ->]. cbv zeta.
  set (st := match child with Ended st => st | _ => status end).
  assert (forall s1, runs (_ ⇐ (if WIFEXITED st then
                 endtv ⇐ inquire w_time;
                 _ ⇐ set_rmsg (set_status (shell_exit_status st));
                 _ ⇐ set_stat exit_code (shell_exit_status st);
                 _ ⇐ set_stat real_msec (msec_since (endtv.1 - tv.1) (endtv.2 - tv.2));
                 _ ⇐ set_stat user_msec (msec_since (ru_utime ru).1 (ru_utime ru).2);
                 _ ⇐ set_stat sys_msec (msec_since (ru_stime ru).1 (ru_stime ru).2);
                 set_stat sys_pfaults (ru_majflt ru + ru_nswap ru + ru_minflt ru)
               else ok tt);
          ok v) s1 (fun r s' => exists ret, r = inr ret)) as Hrest
    by (intros s1; destruct (WIFEXITED st); eapply runs_ok; try done; by eexists).
  destruct (_ =? 0); [apply Hrest|]. apply runs_ebind. unfold failure.
  apply runs_change, runs_look. destruct (out_of_memory _ _ _).
  - apply runs_done. eapply runs_ok; [done|]. by eexists.
  - apply runs_disk_full. intros full. apply runs_done. destruct full; [|apply Hrest].
    eapply runs_ok; [done|]. by eexists.
Qed.

(** ** The round *)

Definition progress (L : Feed) (s : Work) (r : work_exn + step) (s' : Work) : Prop :=
  exists st, r = inr st /\
    match st with
    | Return _ => True
    | Continue L' => fitting L' /\ (wk_asked s < wk_asked s')%nat /\ ((T <= wk_asked s)%nat -> less L' s' L s)
    end.

Lemma set_fd L revents fd flags flags' :
  (fd, flags) ∈ pollfds L -> pollfd_is_set (pollfds L) revents fd flags' = true ->
  match fd with
  | Sock_out => fd_out L = true /\ flags = POLLIN
  | Sock_err => fd_err L = true /\ flags = POLLIN
  | Client_fd => True
  | Death_pipe => flags = POLLIN
  | Sock_in => is_none (fd_fcmsg L) = false /\ flags = POLLOUT
  end.
Proof.
  intros Hin _. revert Hin. unfold pollfds.
  destruct (fd_out L), (fd_err L), (fd_client L), (is_none (fd_fcmsg L)), (fd_input_complete L), (fd_in L);
    cbn; rewrite ?elem_of_cons; destruct fd; intuition (try discriminate); try congruence;
    match goal with H : _ ∈ [] |- _ => by apply not_elem_of_nil in H end.
Qed.

Lemma after_poll_progress child tv mem_limit revents L s s0 :
  fitting L -> (wk_asked s0 < wk_asked s)%nat -> wk_client s = wk_client s0 ->
  ((T <= wk_asked s0)%nat -> exists fd flags, (fd, flags) ∈ pollfds L /\ fd <> Client_fd /\
     pollfd_is_set (pollfds L) revents fd flags = true) ->
  runs (after_poll child tv mem_limit (pollfd_is_set (pollfds L) revents) L) s (progress L s0).
Proof.
  intros HL Ha Hcl Hready. unfold after_poll. set (set := pollfd_is_set (pollfds L) revents) in *.
  assert (forall L1 s1 (k : work step), fitting L1 -> wk_client s1 = wk_client s -> (wk_asked s <= wk_asked s1)%nat ->
    runs (l ⇐ read_outputs set L1;
          if set Death_pipe POLLIN then
            ret ⇐ compiler_ended child tv mem_limit (fd_return_value l); ok (Return ret)
          else ok (Continue l)) s1 (fun r s' => exists st, r = inr st /\ match st with
            | Return _ => True
            | Continue L' => fitting L' /\ (wk_asked s0 < wk_asked s')%nat /\ wk_client s' = wk_client s0 /\
                set Death_pipe POLLIN = false /\ size L' = size L1 /\
                ((T <= wk_asked s0)%nat -> (open_ends L' <= open_ends L1)%nat /\
                  (fd_out L1 && set Sock_out POLLIN || fd_err L1 && set Sock_err POLLIN = true ->
                    (open_ends L' < open_ends L1)%nat))
            end)) as Hrest.
  { intros L1 s1 _ HL1 Hs1 Ha1. apply runs_ebind. eapply runs_weaken; [|by apply read_outputs_moves].
    intros r s2 (L2 & -> & HL2 & Ha2 & Hs2 & _ & Hsize & Hopen).
    destruct (set Death_pipe POLLIN) eqn:Ed.
    - apply runs_ebind. eapply runs_weaken; [|apply compiler_ended_runs].
      intros r s3 [ret ->]. apply runs_done. by eexists.
    - apply runs_done. eexists. split; [done|]. split_and!; [done|lia|congruence|done|done|].
      intros Ht. apply Hopen. lia. }
  assert (forall L1 s1, open_ends L1 = open_ends L -> fd_out L1 = fd_out L -> fd_err L1 = fd_err L ->
    fitting L1 -> wk_client s1 = wk_client s -> (wk_asked s <= wk_asked s1)%nat ->
    ((T <= wk_asked s0)%nat -> (size L1 < size L)%nat \/ size L1 = size L /\
       (set Sock_in POLLOUT = true -> is_none (fd_fcmsg L) = true)) ->
    runs (l ⇐ read_outputs set L1;
          if set Death_pipe POLLIN then
            ret ⇐ compiler_ended child tv mem_limit (fd_return_value l); ok (Return ret)
          else ok (Continue l)) s1 (progress L s0)) as Hgo.
  { intros L1 s1 Ho1 Hout Herr HL1 Hs1 Ha1 Hsize. eapply runs_weaken; [|by apply (Hrest L1 s1 (throw Aborted))].
    intros r s' (st & -> & Hst). exists st. split; [done|]. destruct st as [L'|v]; [|done].
    destruct Hst as (HL' & Ha' & Hs' & Hd & Hsz & Hop). split_and!; [done..|]. intros Ht.
    destruct (Hop Ht) as [Hle Hlt]. unfold less. rewrite Hs', Hsz.
    destruct (Hsize Ht) as [Hs|[Hs Hin]]; [lia|].
    destruct (Hready Ht) as (fd & flags & Hfd & Hne & Hset). pose proof (set_fd _ _ _ _ _ Hfd Hset) as Hk.
    fold set in Hset. rewrite Hout, Herr in Hlt. destruct fd; try done.
    - destruct Hk as [Hk ->]. rewrite Hk, Hset in Hlt. cbn in Hlt. specialize (Hlt eq_refl). lia.
    - destruct Hk as [Hk ->]. rewrite Hk, Hset, orb_true_r in Hlt. specialize (Hlt eq_refl). lia.
    - subst flags. congruence.
    - destruct Hk as [Hk ->]. rewrite Hin in Hk by done. discriminate Hk. }
  destruct (fd_fcmsg L) as [m|] eqn:Em.
  - destruct (set Sock_in POLLOUT) eqn:Es.
    + apply runs_ebind. eapply runs_weaken; [|by apply write_input_moves].
      intros r s1 (w & -> & HL1 & Ha1 & Hs1 & Ho1 & Hout & Herr & Hsz). cbn zeta in *.
      destruct w as [L1|L1].
      * apply runs_done. eexists. split; [done|]. split_and!; [done|lia|]. intros Ht. unfold less.
        rewrite Hs1, Hcl. specialize (Hsz ltac:(lia)). lia.
      * apply Hgo; try done. intros Ht. left. apply Hsz. lia.
    + apply (Hgo L); try done. intros _. by right.
  - apply (Hgo L); try done. intros _. right. split; [done|]. intros _. reflexivity.
Qed.

Lemma death_polled L : fd_input_complete L = true -> (Death_pipe, POLLIN) ∈ pollfds L.
Proof. intros E. unfold pollfds. rewrite E, !elem_of_app, list_elem_of_singleton. tauto. Qed.

Lemma poll_round_progress child tv mem_limit L s :
  fitting L -> runs (poll_round child tv mem_limit L) s (progress L s).
Proof.
  intros HL. apply runs_ebind. eapply runs_weaken; [|by apply take_message_moves].
  intros r s1 (L1 & -> & HL1 & Ha1 & Hd1). cbv zeta.
  destruct (drop_chunk_moves L1 s1 s1 HL1 eq_refl) as [HL2 Hd2]. set (L2 := drop_chunk L1) in *.
  assert (down L2 s1 L s) as Hd by (by eapply down_trans).
  apply runs_inquire. set (s2 := set_wk_asked _ s1).
  assert (wk_asked s < wk_asked s2)%nat as Ha2 by (cbn; lia).
  destruct (w_poll (wk_asked s1) (pollfds L2) _) as [| | |revents] eqn:Ep.
  - destruct (fd_input_complete L2) eqn:Ei; [apply st_patient in Ep; [done|by apply death_polled]|].
    apply runs_ebind. eapply runs_weaken; [|by apply (abandon_moves _ L2 s2 s2)].
    intros r s3 (L3 & -> & HL3 & Ha3 & Hless). apply runs_done. eexists. split; [done|].
    split_and!; [done|lia|]. intros _. destruct HL2 as [[Hc|Hc] _]; [|congruence].
    specialize (Hless Hc). by eapply less_down.
  - apply runs_done. eexists. split; [done|]. split_and!; [done|done|]. intros Ht.
    apply st_late_poll in Ep; [done|lia].
  - by apply st_poll in Ep.
  - eapply runs_weaken; [|apply (after_poll_progress _ _ _ _ _ _ s1); [done|cbn; lia|done|]].
    + intros r s' (st & -> & Hst). exists st. split; [done|]. destruct st as [L'|v]; [|done].
      destruct Hst as (HL' & Ha' & Hless). split_and!; [done|lia|]. intros Ht.
      eapply less_down; [apply Hless; lia|done].
    + intros Ht. by eapply st_late_ready.
Qed.

(** ** The loop *)

(** Enough fuel gives a result, and more fuel the same one. *)
Definition settles_at {A} (m : nat -> work A) (s : Work) : Prop :=
  exists fuel r s', forall fuel', (fuel <= fuel')%nat -> m fuel' s = Ok (r, s').
Definition settles {A} (m : nat -> work A) : Prop := forall s, settles_at m s.

Lemma poll_loop_eq fuel child tv mem_limit L s st s1 :
  poll_round child tv mem_limit L s = Ok (inr st, s1) ->
  poll_loop fuel child tv mem_limit L s =
  match st with
  | Return ret => Ok (inr ret, s1)
  | Continue L1 => match fuel with
                   | O => Fault Aborted
                   | S fuel => poll_loop fuel child tv mem_limit L1 s1
                   end
  end.
Proof.
  intros E. destruct fuel; cbn [poll_loop]; unfold ebind at 1; rewrite (bind_ok _ _ _ _ _ E);
    destruct st; reflexivity.
Qed.

Lemma poll_loop_next child tv mem_limit L s L1 s1 :
  poll_round child tv mem_limit L s = Ok (inr (Continue L1), s1) ->
  settles_at (fun fuel => poll_loop fuel child tv mem_limit L1) s1 ->
  settles_at (fun fuel => poll_loop fuel child tv mem_limit L) s.
Proof.
  intros E (fuel & r & s' & Hf). exists (S fuel), r, s'. intros fuel' Hle.
  rewrite (poll_loop_eq _ _ _ _ _ _ _ _ E). destruct fuel' as [|fuel']; [lia|]. apply Hf. lia.
Qed.

Lemma poll_loop_settles child tv mem_limit L s :
  fitting L -> settles_at (fun fuel => poll_loop fuel child tv mem_limit L) s.
Proof.
  assert (forall early messages bytes ends L s, fitting L ->
    (T - wk_asked s)%nat = early -> left (wk_client s) = messages -> size L = bytes -> open_ends L = ends ->
    settles_at (fun fuel => poll_loop fuel child tv mem_limit L) s) as Hall; [|intros; by eapply Hall].
  clear L s. intros early. induction early as [early IHe] using lt_wf_ind.
  intros messages. induction messages as [messages IHm] using lt_wf_ind.
  intros bytes. induction bytes as [bytes IHb] using lt_wf_ind.
  intros ends. induction ends as [ends IHo] using lt_wf_ind.
  intros L s HL Ee Em Eb Eo.
  destruct (poll_round_progress child tv mem_limit L s HL) as (r & s1 & E & st & -> & Hst).
  destruct st as [L1|ret]; cycle 1.
  { exists O, (inr ret), s1. intros fuel' _. by rewrite (poll_loop_eq _ _ _ _ _ _ _ _ E). }
  destruct Hst as (HL1 & Ha & Hless). apply (poll_loop_next _ _ _ _ _ _ _ E).
  destruct (decide (T <= wk_asked s)%nat) as [Ht|Ht]; [|eapply IHe; [|done..]; lia].
  assert ((T - wk_asked s1)%nat = early) as Ee1 by lia.
  destruct (Hless Ht) as [Hm|[Hm Hrest]]; [eapply IHm; [|done..]; lia|].
  destruct (decide (left (wk_client s1) = messages)) as [Em1|]; [|eapply IHm; [|done..]; lia].
  destruct Hrest as [Hb|[Hb Ho]]; [eapply IHb; [|done..]; lia|].
  destruct (decide (size L1 = bytes)) as [Eb1|]; [|eapply IHb; [|done..]; lia].
  eapply IHo; [|done..]. lia.
Qed.

(** ** The rest *)

Definition returns {A} (m : work A) : Prop := forall s, exists r s', m s = Ok (r, s').

Lemma returns_ok {A} (a : A) : returns (ok a).
Proof. intros s. by do 2 eexists. Qed.
Lemma returns_raise {A} e : returns (raise e : work A).
Proof. intros s. by do 2 eexists. Qed.
Lemma returns_look {A} (f : Work -> A) : returns (look f).
Proof. intros s. by do 2 eexists. Qed.
Lemma returns_change f : returns (change f).
Proof. intros s. by do 2 eexists. Qed.
Lemma returns_inquire {A} (q : nat -> A) : returns (inquire q).
Proof. intros s. by do 2 eexists. Qed.
Lemma returns_note e : returns (note e).
Proof. intros s. by do 2 eexists. Qed.
Lemma returns_bind {A B} (m : work A) (k : A -> work B) :
  returns m -> (forall a, returns (k a)) -> returns (ebind m k).
Proof.
  intros Hm Hk s. destruct (Hm s) as (r & s1 & E). unfold ebind. rewrite (bind_ok _ _ _ _ _ E).
  destruct r as [e|a]; [by do 2 eexists|apply Hk].
Qed.
Lemma returns_tell m : returns (tell m).
Proof.
  intros s. destruct (ch_send_returns m SendBlocking (wk_client s)) as (b & c & E).
  unfold tell, ebind, mbind, M_bind. rewrite on_channel_eq, E. by do 2 eexists.
Qed.
End ends.

#[export] Hint Resolve returns_ok returns_raise returns_look returns_change returns_inquire returns_note
  returns_tell : icc.

(** Proves that a computation returns. *)
Ltac come_back :=
  repeat (intros; cbv zeta; match goal with
  | |- returns (ebind _ _) => apply returns_bind
  | |- returns (match ?b with _ => _ end) => destruct b
  | |- returns _ => solve [auto with icc]
  end).

Section whole.
Context `{ChannelsReturn} `{Workplace}.

Lemma settles_returns {A} (m : work A) : returns m -> settles (fun _ => m).
Proof. intros Hm s. destruct (Hm s) as (r & s' & E). exists O, r, s'. by intros. Qed.
Lemma settles_bind {A B} (m : nat -> work A) (k : nat -> A -> work B) :
  settles m -> (forall a, settles (fun fuel => k fuel a)) -> settles (fun fuel => ebind (m fuel) (k fuel)).
Proof.
  intros Hm Hk s. destruct (Hm s) as (f1 & r & s1 & E1). destruct r as [e|a].
  - exists f1, (inl e), s1. intros f Hf. unfold ebind. by rewrite (bind_ok _ _ _ _ _ (E1 f Hf)).
  - destruct (Hk a s1) as (f2 & r & s2 & E2). exists (f1 + f2)%nat, r, s2. intros f Hf.
    unfold ebind. rewrite (bind_ok _ _ _ _ _ (E1 f ltac:(lia))). apply E2. lia.
Qed.

Lemma returns_error_client v e : returns (error_client v e).
Proof. unfold error_client. come_back. Qed.
Lemma returns_pipes n : returns (pipes n).
Proof. induction n; cbn; come_back. Qed.
#[local] Hint Resolve returns_error_client returns_pipes : icc.

Lemma returns_in_child m : returns m -> returns (in_child m).
Proof. intros Hm s. destruct (Hm s) as (r & s' & E). unfold in_child. rewrite E. by do 2 eexists. Qed.
Lemma returns_compiler_process j flags tmp_root build_path file_name mem_limit :
  returns (compiler_process j flags tmp_root build_path file_name mem_limit).
Proof. unfold compiler_process, is_root, child_assert. come_back. Qed.

Lemma work_it_settles T left `{!Settling T left} j tmp_root build_path file_name mem_limit :
  settles (fun fuel => work_it fuel j tmp_root build_path file_name mem_limit).
Proof.
  unfold work_it, set_rmsg. apply settles_bind; [apply settles_returns; come_back|intros _].
  apply settles_bind; [apply settles_returns; come_back|intros proto41]. cbv zeta.
  apply settles_bind; [apply settles_returns; come_back|intros made].
  destruct made; cbn [negb]; [|apply (settles_returns (ok EXIT_DISTCC_FAILED)); come_back].
  apply settles_bind; [apply settles_returns; come_back|intros forked].
  destruct forked; cbn [negb]; [|apply (settles_returns (ok EXIT_OUT_OF_MEMORY)); come_back].
  apply settles_bind; [apply settles_returns, returns_in_child, returns_compiler_process|intros child].
  assert (settles (fun fuel => starttv ⇐ inquire w_time;
    poll_loop fuel child starttv mem_limit (mkFeed 0 false None 0 true true true true))) as Hloop.
  { apply settles_bind; [apply settles_returns; come_back|]. intros tv s.
    apply (poll_loop_settles T left). split; [by left|done]. }
  destruct child; [exact Hloop| |exact Hloop].
  apply (settles_returns (_ ⇐ set_rmsg (set_status 1); _ ⇐ error_client 23 "compiler did not start"; ok EXIT_COMPILER_MISSING)).
  unfold set_rmsg. come_back.
Qed.
End whole.
#[export] Hint Resolve returns_error_client : icc.
