(* ===== verification/ServeFacts.v ===== *)
(** * The child answers its client

    What [handle_connection] leaves behind: the client gets a result, and the
    files with it, or the daemon is told of the failure; a result with the status
    0 means that the compiler has ended well, or that memory was short. *)

From Stdlib Require Import ZArith Lia.
From Stdlib Require Import Strings.Byte Strings.String.
From stdpp Require Import base tactics option list gmap strings pretty.
From S2P Require Import Prelude Effects ExitCode StdString Paths FileUtil MsgChannel CompileJob Msg MsgCodec Interface Transport ChannelImpl Worker WorkIt Serve WorkerFacts WorkItFacts Files.

#[local] Open Scope Z_scope.
#[local] Open Scope icecc_scope.

(** ** What is decided *)

(** The messages that are no texts, and the reports, in order. *)
Definition decisive (e : work_effect) : bool :=
  match e with
  | Told (StatusText _) _ => false
  | Told _ _ | Reported _ => true
  | _ => false
  end.
Definition decisions (l : list work_effect) : list work_effect := filter (fun e => decisive e = true) l.

Lemma decisions_app l l' : decisions (l ++ l') = decisions l ++ decisions l'.
Proof. apply filter_app. Qed.
Lemma decisions_none l : Forall undecided l -> decisions l = [].
Proof.
  induction 1 as [|e l He Hl IH]; [done|]. unfold decisions. rewrite filter_cons_False; [done|].
  destruct e as [[] | | | | | | | | |]; done.
Qed.
Lemma decisions_all l : Forall (fun e => decisive e = true) l -> decisions l = l.
Proof. intros Hl. induction Hl as [|e l He Hl IH]; [done|]. unfold decisions in *. by rewrite filter_cons_True, IH. Qed.

(** The messages of a file that was sent. *)
Definition sent_chunks (cs : list (list byte)) : list work_effect := map (fun c => Told (chunk c) true) cs.
Definition whole_file (reads : list (option (list byte))) (l : list work_effect) : Prop :=
  exists cs, l = sent_chunks cs ++ [Told EndMsg true] /\ concat cs = file_data reads /\
    Forall (fun c => 0 < Z.of_nat (length c) <= chunk_size) cs.
Definition file_message (e : work_effect) : Prop :=
  match e with Told (FileChunk _) _ | Told EndMsg _ => True | _ => False end.

(** Sending it broke off. *)
Definition broken_file (l : list work_effect) : Prop := Forall file_message l /\ Told EndMsg true ∉ l.

Lemma sent_chunks_messages cs : Forall file_message (sent_chunks cs).
Proof. induction cs; by constructor. Qed.
Lemma whole_file_messages reads l : whole_file reads l -> Forall file_message l.
Proof.
  intros (cs & -> & _). apply Forall_app. split; [apply sent_chunks_messages|by repeat constructor].
Qed.
Lemma file_messages_decide l : Forall file_message l -> decisions l = l.
Proof.
  intros Hl. apply decisions_all. eapply Forall_impl; [exact Hl|]. by intros [[] | | | | | | | | |].
Qed.

Section answers.
Context `{Channels} `{Workplace}.

(** The files that go with a result, as they are from the question [n] on. *)
Definition file_of (n : nat) (file : string) (l : list work_effect) : Prop :=
  exists t reads, (n <= t)%nat /\ w_open t file = Some reads /\ whole_file reads l.
Definition files_of (p : Places) (n : nat) (dwo : bool) (l : list work_effect) : Prop :=
  exists l1 l2, l = l1 ++ l2 /\ file_of n (obj_file p) l1 /\
    (if dwo then file_of n (dwo_file p) l2 else l2 = []).

Definition files_broken (p : Places) (n : nat) (dwo : bool) (l : list work_effect) : Prop :=
  broken_file l \/
  dwo = true /\ exists l1 l2, l = l1 ++ l2 /\ file_of n (obj_file p) l1 /\ broken_file l2.

(** The places of a job. Where debug information is split off, the object file
    has its name in the directory of [output_place], below the temporary directory
    that was made, and the other file the same name with [.dwo]; otherwise there
    is only the object file, a temporary file that was made. Where such a name
    could not be had, there are no files. *)
Definition destined (job : CompileJob) (p : Places) : Prop :=
  if j_dwarf_fission job then
    (exists t, w_mkdtemp t = inl (tmp_path p)) /\
    obj_file p = ((output_place (tmp_path p) (j_output_file job) (j_working_directory job)).1
                  +:+ "/" +:+ name_of (j_output_file job))%string /\
    dwo_file p = dwo_of (obj_file p)
  else made_file ("icecc-" +:+ pretty (u32 (j_id job))) ".o" false (obj_file p) /\ dwo_file p = ""%string.
Definition places_of (job : CompileJob) (p : Places) : Prop :=
  obj_file p = ""%string /\ dwo_file p = ""%string \/ destined job p.

(** The directory and the file which the compiler is given for the object file. *)
Definition compiler_dir (job : CompileJob) (p : Places) : string :=
  if j_dwarf_fission job then (tmp_path p +:+ j_working_directory job)%string else dir_of (obj_file p).
Definition compiler_file (job : CompileJob) (p : Places) : string :=
  if j_dwarf_fission job
  then (output_place (tmp_path p) (j_output_file job) (j_working_directory job)).2
  else name_of (obj_file p).
(** The object file was compiled: before the question [n]. *)
Definition object_compiled (job : CompileJob) (p : Places) (n : nat) (l : list work_effect) : Prop :=
  destined job p /\ compiled_for (compiler_dir job p) (compiler_file job p) n l.

(** What the client and the daemon are told, by a child that leaves with [code]:
    nothing, where it cannot enter the environment; a failure, by the report;
    a result that could not be sent; a result, then the report, and then the
    files of a compilation that went well: those at [p], from the question [n] on. *)
Inductive outcome (p : Places) (n : nat) (code : Z) : list work_effect -> Prop :=
| Locked_out : 142 <= code <= 146 -> outcome p n code []
| Failed stat : code <> 0 -> outcome p n code [Reported (<[exit_code := u32 code]> stat)]
| Not_sent res stat :
    code = EXIT_DISTCC_FAILED ->
    outcome p n code [Told (CompileResult res) false; Reported (<[exit_code := u32 code]> stat)]
| Failure_sent res stat :
    cr_status res = code -> code <> 0 ->
    outcome p n code [Told (CompileResult res) true; Reported stat]
| Files_sent res stat files :
    cr_status res = 0 -> code = 0 -> files_of p n (cr_have_dwo_file res) files ->
    outcome p n code (Told (CompileResult res) true :: Reported stat :: files)
| Files_broken res stat files :
    cr_status res = 0 -> code = EXIT_DISTCC_FAILED -> files_broken p n (cr_have_dwo_file res) files ->
    outcome p n code (Told (CompileResult res) true :: Reported stat :: files).

(** A result that says that all went well, and not that memory was short. *)
Definition success_told (l : list work_effect) : Prop :=
  exists res b, Told (CompileResult res) b ∈ l /\ cr_status res = 0 /\ cr_was_out_of_memory res = false.

(** ** Sending a file *)

Lemma broken_nothing : broken_file [].
Proof. split; [done|apply not_elem_of_nil]. Qed.
Lemma broken_unsent m : file_message (Told m false) -> broken_file [Told m false].
Proof. intros Hm. split; [by repeat constructor|]. rewrite list_elem_of_singleton. by intros [=]. Qed.

Lemma write_output_loop_sends fuel reads s :
  works (write_output_loop fuel reads) s (fun r l s' => wk_out_fd s' = wk_out_fd s /\
    match r with
    | inr _ => whole_file reads l
    | inl e => e = myexception EXIT_DISTCC_FAILED /\ broken_file l
    end).
Proof.
  revert reads s. induction fuel as [|fuel IH]; intros reads s; cbn [write_output_loop];
    (destruct (read_some chunk_size reads) as [[bs|] reads'] eqn:Er; [|by apply yields_raise; auto using broken_nothing]);
    (apply read_some_data in Er as (Hle & Hnil & Hcons & _); [|done]); destruct bs as [|b bs].
  1, 3: apply works_tell; intros [] s1 (_ & _ & Hs1);
    [apply yields_ok; split; [done|]; exists []; by rewrite Hnil
    |apply yields_raise; split; [done|]; split; [done|by apply broken_unsent]].
  - apply works_tell; intros [] s1 (_ & _ & Hs1); cbn [negb];
      [apply yields_throw|apply yields_raise; split; [done|]; split; [done|by apply broken_unsent]].
  - apply works_tell; intros [] s1 (_ & _ & Hs1); cbn [negb];
      [|apply yields_raise; split; [done|]; split; [done|by apply broken_unsent]].
    eapply yields_weaken; [apply IH|]. cbn beta. intros r l s' [Hs' Hr]. split; [congruence|].
    destruct r as [e|u]; [destruct Hr as [-> [Hf Hn]]; split; [done|]; split; [by constructor|]; rewrite elem_of_cons; by intros [[=]|?]|].
    destruct Hr as (cs & -> & Hcs & Hall). exists ((b :: bs) :: cs). split_and!; [done| |].
    + cbn [concat]. by rewrite Hcs, Hcons.
    + constructor; [|done]. cbn [length] in *. lia.
Qed.

Lemma write_output_file_sends file s :
  works (write_output_file file) s (fun r l s' => wk_out_fd s' = wk_out_fd s /\
    match r with
    | inr _ => file_of (wk_asked s) file l
    | inl e => e = myexception EXIT_DISTCC_FAILED /\ broken_file (decisions l)
    end).
Proof.
  apply works_ask. set (t := wk_asked s). destruct (w_open t file) as [reads|] eqn:Eo.
  - eapply yields_weaken; [apply write_output_loop_sends|]. cbn. intros r l s' [Hs Hr].
    split; [done|]. destruct r as [e|u]; [|by exists t, reads].
    destruct Hr as [-> Hl]. split; [done|]. by rewrite file_messages_decide by apply Hl.
  - eapply yields_bind; [by apply (calm_error_client (fun _ => False))|..]; cbn; [|tauto].
    intros _ l s1 (Hl & Hs & _). apply yields_raise. injection Hs as _ _ Hs. split; [done|]. split; [done|].
    rewrite app_nil_r, decisions_none by by apply incidental_undecided. apply broken_nothing.
Qed.

Lemma whole_decides n file l : file_of n file l -> decisions l = l.
Proof. intros (t & reads & _ & _ & Hl). by eapply file_messages_decide, whole_file_messages. Qed.

Lemma asks_on_write_output_file file : asks_on (write_output_file file).
Proof.
  assert (forall fuel reads, asks_on (write_output_loop fuel reads)) as Hl.
  { induction fuel as [|fuel IH]; intros reads; cbn [write_output_loop];
      destruct (read_some _ _) as [[[|b bs]|] reads']; try apply asks_on_raise;
      (apply asks_on_bind; [apply asks_on_tell|]; intros []; cbn [negb];
       [first [apply asks_on_ok|apply IH|by intros ? ? ? ?]|apply asks_on_raise]). }
  apply asks_on_bind; [apply asks_on_inquire|]. intros [reads|]; [apply Hl|].
  apply asks_on_bind; [apply asks_on_error_client|]. intros. apply asks_on_raise.
Qed.
Lemma works_asks {A} (m : work A) s Q :
  asks_on m -> works m s Q -> works m s (fun r l s' => (wk_asked s <= wk_asked s')%nat /\ Q r l s').
Proof. intros Hm HQ r s' E. destruct (HQ r s' E) as (l & El & Hl). exists l. eauto. Qed.
Lemma file_of_later n n' file l : (n <= n')%nat -> file_of n' file l -> file_of n file l.
Proof. intros Hn (t & reads & Ht & H'). exists t, reads. split; [lia|done]. Qed.

Lemma write_outputs_send p n (dwo : bool) s :
  (n <= wk_asked s)%nat ->
  works (_ ⇐ write_output_file (obj_file p); if dwo then write_output_file (dwo_file p) else ok tt) s
    (fun r l s' => wk_out_fd s' = wk_out_fd s /\
    match r with
    | inr _ => files_of p n dwo (decisions l)
    | inl e => e = myexception EXIT_DISTCC_FAILED /\ files_broken p n dwo (decisions l)
    end).
Proof.
  intros Hn.
  eapply yields_bind; [apply works_asks; [apply asks_on_write_output_file|apply write_output_file_sends]|..];
    cbn; cycle 1.
  { intros e l s1 (_ & ? & ? & ?). split; [done|]. split; [done|]. by left. }
  intros _ l s1 (Ht & Hs1 & Hl). apply (file_of_later _ _ _ _ Hn) in Hl. pose proof (whole_decides _ _ _ Hl) as Hd. destruct dwo.
  - eapply yields_weaken; [apply write_output_file_sends|]. cbn. intros r l2 s2 [Hs2 Hr].
    split; [congruence|]. rewrite decisions_app, Hd. destruct r as [e|u].
    + destruct Hr as [-> Hr]. split; [done|]. right. split; [done|]. by exists l, (decisions l2).
    + rewrite (whole_decides _ _ _ Hr). exists l, l2. split; [done|]. split; [done|].
      eapply file_of_later; [|exact Hr]. lia.
  - apply yields_ok. split; [done|]. rewrite app_nil_r, Hd. exists l, []. by rewrite app_nil_r.
Qed.

Lemma file_of_messages n file l : file_of n file l -> Forall file_message l.
Proof. intros (t & reads & _ & _ & Hw). by eapply whole_file_messages. Qed.
Lemma files_of_messages p n dwo l : files_of p n dwo l -> Forall file_message l.
Proof.
  intros (l1 & l2 & -> & H1 & H2). apply Forall_app. split; [by eapply file_of_messages|].
  destruct dwo; [by eapply file_of_messages|by rewrite H2].
Qed.
Lemma files_broken_messages p n dwo l : files_broken p n dwo l -> Forall file_message l.
Proof.
  intros [[Hl _]|(_ & l1 & l2 & -> & H1 & [H2 _])]; [done|]. apply Forall_app. eauto using file_of_messages.
Qed.

(** ** Before the result *)

(** How the child fails before there is a result. *)
Definition fails (e : work_exn) : Prop := locked_out e \/ exists code, e = myexception code /\ code <> 0.

Lemma calm_enter_environment libcap_ng basedir job uid gid :
  calm fails (enter_environment libcap_ng basedir job uid gid).
Proof.
  assert (forall code, code <> 0 -> calm fails (raise (myexception code) : work unit)) as Hraise
    by (intros code Hc; apply within_raise; right; eauto).
  unfold enter_environment. stay; intros; try by apply Hraise.
  eapply within_weaken; [apply calm_chdir_to_environment|done..|by left].
Qed.

Lemma calm_mkdir_or path error : calm fails (mkdir_or path error).
Proof. unfold mkdir_or. stay. intros. apply within_raise. right. by eexists. Qed.

(** What a success stands for: the compiler has ended well, and has written the
    object file; and all that the client sent was the source, up to its end; it
    went to the compiler. *)
Definition good (job : CompileJob) (p : Places) (n : nat) (l : list work_effect) : Prop :=
  object_compiled job p n l /\ ((forall t bs n, w_write t bs = Written n -> 0 <= n) -> delivered l 0).

Lemma delivered_between l1 l l2 v :
  Forall plain_effect l1 -> Forall plain_effect l2 -> delivered l v -> delivered (l1 ++ l ++ l2) v.
Proof.
  intros H1 H2 [Hp Hv]. apply plain_got in H1 as (G1 & F1 & T1), H2 as (G2 & F2 & T2).
  unfold delivered. rewrite !got_app, !fed_app, G1, G2, F1, F2, !app_nil_r. cbn [app].
  assert (source (l1 ++ l ++ l2) = source l) as ->.
  { assert (forall l, got l = [] -> source l = []) as Hs by (intros l0 E; by apply (source_got [])).
    by rewrite !source_app, (Hs l1 G1), (Hs l2 G2), app_nil_r. }
  split; [done|]. intros Hz. destruct (Hv Hz) as (cs & Eg & Ht). exists cs. split; [done|].
  intros Hn. apply Ht. intros Hin. apply Hn. rewrite !elem_of_app. auto.
Qed.
Lemma good_between job p n l1 l l2 :
  Forall plain_effect l1 -> Forall plain_effect l2 -> good job p n l -> good job p n (l1 ++ l ++ l2).
Proof.
  intros H1 H2 [[Hj [Hs Hx]] Hd]. split; [|intros Hc; by apply delivered_between, Hd].
  split; [done|]. split; [|done]. by apply started_for_between.
Qed.

(** What [compile] gives. *)
Definition compiles (job : CompileJob) (r : work_exn + (Places * (work_exn + Z))) (l : list work_effect) (s s' : Work) : Prop :=
  Forall undecided l /\ answer_part s' = answer_part s /\
  exists p x, r = inr (p, x) /\
    places_of job p /\
    match x with
    | inl e => fails e
    | inr v => v = 0 -> cr_status (wk_rmsg s') = 0 -> good job p (wk_asked s') l
    end.

Lemma compiles_quickly job v s l :
  v <> 0 -> Forall undecided l ->
  forall s0, answer_part s = answer_part s0 ->
  works (ok (no_places, inr v) : work (Places * (work_exn + Z))) s (fun r l' s' => compiles job r (l ++ l') s0 s').
Proof.
  intros Hv Hl s0 Hs. apply yields_ok. rewrite app_nil_r. split; [done|]. split; [done|].
  exists no_places, (inr v). split; [done|]. split; [by left|]. intros E. done.
Qed.

Lemma at_places_work_it fuel p job tmp_root build_path file_name mem_limit s l s0 :
  destined job p -> (tmp_root +:+ build_path)%string = compiler_dir job p -> file_name = compiler_file job p ->
  Forall incidental l -> answer_part s = answer_part s0 ->
  works (at_places p (work_it fuel job tmp_root build_path file_name mem_limit)) s
    (fun r l' s' => compiles job r (l ++ l') s0 s').
Proof.
  intros Hp Edir Efile Hl Hs r s' E. apply bind_inv in E as (x & s1 & E1 & E). injection E as <- <-.
  destruct (work_it_status _ _ _ _ _ _ _ _ _ E1) as (l' & El & Hl' & Hs' & v & -> & Hv).
  exists l'. split; [done|]. split; [apply Forall_app; split; [by apply incidental_undecided|done]|].
  split; [congruence|]. exists p, (inr v). split; [done|]. split; [by right|]. intros -> H1'.
  rewrite <- (app_nil_r l'). apply good_between; [by apply incidental_plain|done|].
  split; [split; [done|]; rewrite <- Edir, <- Efile; by apply Hv|]. intros Hc.
  destruct (work_it_delivers Hc _ _ _ _ _ _ _ _ _ E1) as (l2 & El2 & Hd).
  rewrite El in El2. by apply app_inv_head in El2 as ->.
Qed.

Lemma job_answer s s' : job_part s' = job_part s -> answer_part s' = answer_part s.
Proof. intros E. injection E as E _ E'. unfold answer_part. by rewrite E, E'. Qed.

Lemma compile_fission_compiles fuel job mem_limit s :
  j_dwarf_fission job = true ->
  works (compile_fission fuel job mem_limit) s (fun r l s' => compiles job r l s s').
Proof.
  intros Hj. unfold compile_fission.
  eapply yields_bind; [apply (works_and _ _ _ _ (make_tmpdir_spec (fun _ => False) s) (make_tmpdir_made s))|..];
    [|by intros e l s1 [[(_ & _ & []) _] _]].
  intros [ret|tmp] l1 s1 [[(Hi1 & Hs1 & _) Hn] Hmade]; pose proof (incidental_undecided _ Hi1) as Hl1;
    apply job_answer in Hs1.
  { apply compiles_quickly; [|done..]. rewrite Hn. discriminate. }
  destruct (output_place _ _ _) as [output_dir relative_file_path] eqn:Ep.
  unfold and_then. eapply yields_bind; [intros r s' E|..].
  - apply bind_inv in E as (x & s2 & E & E'). injection E' as <- <-.
    assert (calm fails (_ ⇐ mkdir_or output_dir "could not create object file location in tmp directory";
       mkdir_or (tmp +:+ j_working_directory job) "could not create compiler working directory in tmp directory")) as Hm
      by (apply within_bind; [|intros _]; apply calm_mkdir_or).
    destruct (Hm _ _ _ E) as (l & El & Hl). exists l. split; [done|].
    instantiate (1 := fun r l s' => Forall incidental l /\ job_part s' = job_part s1 /\
      exists x, r = inr (mkPlaces tmp "" "", x) /\ match x with inl e => fails e | inr _ => True end).
    destruct Hl as (Hl & Hs2 & Hx). split_and!; [done..|]. by exists x.
  - cbn. intros [p x] l2 s2 (Hi2 & Hs2 & x' & [= -> <-] & Hx). pose proof (incidental_undecided _ Hi2) as Hl2.
    apply job_answer in Hs2. destruct x as [e|u]; cbn [snd fst].
    + apply yields_ok. rewrite app_nil_r. split; [by apply Forall_app|]. split; [congruence|].
      do 2 eexists. split; [done|]. split; [by left|done].
    + eapply yields_weaken; [apply (at_places_work_it _ _ _ _ _ _ _ _ (l1 ++ l2))|].
      * unfold destined. rewrite Hj. cbn [tmp_path obj_file dwo_file]. by rewrite Ep.
      * unfold compiler_dir. by rewrite Hj.
      * unfold compiler_file. rewrite Hj. cbn [tmp_path]. by rewrite Ep.
      * by apply Forall_app.
      * instantiate (1 := s). congruence.
      * cbn beta. intros r l s'. by rewrite <- app_assoc.
  - by intros e l s2 (_ & _ & x & [=] & _).
Qed.

Lemma string_app_nil_r (x : string) : (x +:+ "" = x)%string.
Proof. induction x as [|a x IH]; [done|]. exact (f_equal (String a) IH). Qed.

Lemma compile_plain_compiles fuel job mem_limit s :
  j_dwarf_fission job = false ->
  works (compile_plain fuel job mem_limit) s (fun r l s' => compiles job r l s s').
Proof.
  intros Hj. unfold compile_plain. cbv zeta.
  eapply yields_bind; [apply (works_and _ _ _ _ (make_tmpnam_spec (fun _ => False) _ _ _ s) (make_tmpnam_made _ _ _ s))|..];
    [|by intros e l s1 [[(_ & _ & []) _] _]].
  intros [ret|tmp] l1 s1 [[(Hl1 & Hs1 & _) Hn] Hmade]; apply job_answer in Hs1.
  { apply compiles_quickly; [|by apply incidental_undecided|done]. rewrite Hn. discriminate. }
  apply at_places_work_it; [..|done|done].
  - unfold destined. by rewrite Hj.
  - unfold compiler_dir. rewrite Hj. apply string_app_nil_r.
  - unfold compiler_file. by rewrite Hj.
Qed.

Lemma compile_compiles fuel job mem_limit s :
  works (compile fuel job mem_limit) s (fun r l s' => compiles job r l s s').
Proof.
  unfold compile. destruct (j_dwarf_fission job) eqn:Hj;
    [by apply compile_fission_compiles|by apply compile_plain_compiles].
Qed.

(** ** The result *)

(** What [answer] comes to, whether the pipe to the daemon stays open, and what
    is decided. [K] is what a success stands for. *)
Inductive answered (K : Prop) (p : Places) (n : nat) : work_exn + Z -> bool -> list work_effect -> Prop :=
| No_answer code : code <> 0 -> answered K p n (inl (myexception code)) true []
| Lost_answer res :
    (cr_status res = 0 -> cr_was_out_of_memory res = false -> K) ->
    answered K p n (inl (myexception EXIT_DISTCC_FAILED)) true [Told (CompileResult res) false]
| Bad_answer res stat :
    cr_status res <> 0 ->
    answered K p n (inr (cr_status res)) false [Told (CompileResult res) true; Reported stat]
| Good_answer res stat files :
    cr_status res = 0 -> (cr_was_out_of_memory res = false -> K) ->
    files_of p n (cr_have_dwo_file res) files ->
    answered K p n (inr 0) false (Told (CompileResult res) true :: Reported stat :: files)
| Broken_answer res stat files :
    cr_status res = 0 -> (cr_was_out_of_memory res = false -> K) ->
    files_broken p n (cr_have_dwo_file res) files ->
    answered K p n (inl (myexception EXIT_DISTCC_FAILED)) false
      (Told (CompileResult res) true :: Reported stat :: files).

Definition rmsg_part (s : Work) : bool * CompileResultMsg := (wk_out_fd s, wk_rmsg s).

Lemma rest_answered K p n s :
  (n <= wk_asked s)%nat ->
  wk_out_fd s = true ->
  (cr_status (wk_rmsg s) = 0 -> cr_was_out_of_memory (wk_rmsg s) = false -> K) ->
  works (rmsg ⇐ look wk_rmsg;
         sent ⇐ tell (CompileResult rmsg);
         if negb sent then raise (myexception EXIT_DISTCC_FAILED)
         else
           _ ⇐ report;
           _ ⇐ (if cr_status rmsg =? 0 then
                  _ ⇐ write_output_file (obj_file p);
                  if cr_have_dwo_file rmsg then write_output_file (dwo_file p) else ok tt
                else ok tt);
           ok (cr_status rmsg)) s
    (fun r l s' => answered K p n r (wk_out_fd s') (decisions l)).
Proof.
  intros Hn Ho HK. apply yields_look. apply works_tell_asked. intros [] s1 (_ & _ & Ho1) Hn1; cbn [negb]; cycle 1.
  { apply yields_raise. rewrite Ho1, Ho. by constructor. }
  unfold report. apply yields_assoc, yields_look. apply yields_assoc, yields_look. rewrite Ho1, Ho.
  apply yields_assoc, works_note, yields_change; [done|].
  set (res := wk_rmsg s) in *. set (s2 := set_wk_out_fd false _).
  destruct (cr_status res =? 0) eqn:Es; boolify.
  - eapply yields_bind; [apply (write_outputs_send p n (cr_have_dwo_file res)); cbn; lia|..]; cbn.
    + intros _ l s3 [Hs3 Hl]. apply yields_ok. rewrite app_nil_r, Hs3, Es.
      apply (Good_answer K p n res (wk_stat s1)); [done|by intros; apply HK|done].
    + intros e l s3 (Hs3 & -> & Hl). rewrite Hs3.
      apply (Broken_answer K p n res (wk_stat s1)); [done|by intros; apply HK|done].
  - apply yields_passed, yields_ok. by apply Bad_answer.
Qed.

Lemma answer_answers K p ret s :
  answer_part s = (true, false) -> (ret = 0 -> cr_status (wk_rmsg s) = 0 -> K) ->
  works (answer p ret) s (fun r l s' => answered K p (wk_asked s) r (wk_out_fd s') (decisions l)).
Proof.
  intros Ha HK. injection Ha as Ho Hm. unfold answer.
  eapply (yields_bind _ _ _ (fun r l s1 => l = [] /\ wk_asked s1 = wk_asked s /\ wk_out_fd s1 = true /\
    match r with
    | inl e => exists code, e = myexception code /\ code <> 0
    | inr _ => cr_status (wk_rmsg s1) = 0 -> cr_was_out_of_memory (wk_rmsg s1) = false -> K
    end)).
  - unfold judge. destruct (ret =? 0) eqn:Er; boolify; [by apply yields_ok; auto|].
    destruct (_ || _).
    + intros r s' E. injection E as <- <-. exists []. by rewrite app_nil_r.
    + apply yields_raise. do 3 (split; [done|]). by exists ret.
  - intros _ l s1 (-> & Hn1 & Ho1 & HK1). cbn [app].
    assert (forall size (k : unit -> work Z) s0 Q, (forall s2, rmsg_part s2 = rmsg_part s0 -> wk_asked s2 = wk_asked s0 -> works (k tt) s2 Q) ->
      works (ebind (match size with Some st_size => add_stat out_uncompressed st_size | None => ok tt end) k) s0 Q) as Hadd.
    { intros [size|] k s0 Q Hk; [apply works_add_stat; intros st; by apply Hk|by apply yields_passed, Hk]. }
    apply works_inquire. intros t1. apply Hadd. intros s2 Hs2 Hn2.
    apply works_inquire. intros t2. apply Hadd. intros s3 Hs3 Hn3.
    apply works_set_rmsg. injection Hs2 as Ho2 Hm2. injection Hs3 as Ho3 Hm3. cbn in Ho2, Ho3, Hm2, Hm3.
    apply rest_answered; cbn in *; [lia|congruence|]. by rewrite Hm3, Hm2.
  - intros e l s1 (-> & _ & Ho1 & code & -> & Hc). rewrite Ho1. by constructor.
Qed.

(** The rest says nothing about the source. *)
Abbreviation aloof := (within plain_effect (fun _ => tt) (fun _ => True)).
#[local] Instance unseen_nothing : Unseen (fun _ : Work => tt).
Proof. by split. Qed.
Lemma aloof_tell m : aloof (tell m).
Proof. by apply within_talk; [split|]. Qed.
Lemma aloof_error_client v e : aloof (error_client v e).
Proof. by apply within_error_client; [split|]. Qed.
Lemma aloof_write_output_loop fuel reads : aloof (write_output_loop fuel reads).
Proof.
  pose proof aloof_tell. revert reads. induction fuel as [|fuel IH]; intros reads; cbn [write_output_loop]; stay.
Qed.
#[local] Hint Resolve aloof_tell aloof_error_client aloof_write_output_loop : icc.
Lemma aloof_answer p ret : aloof (answer p ret).
Proof. unfold answer, judge, report, write_output_file, add_stat, set_rmsg. stay. Qed.

(** ** The whole *)

Lemma works_clean_up p code s :
  works (clean_up p code) s (fun r l s' => r = inl (process_exit code) /\ Forall incidental l).
Proof.
  assert (forall file, calm (fun _ => False) (remove_if_named file)) as Hr by (intros file; unfold remove_if_named; stay).
  unfold clean_up.
  assert (calm (fun _ => False) (_ ⇐ remove_if_named (obj_file p); _ ⇐ remove_if_named (dwo_file p);
    if bool_decide (tmp_path p = ""%string) then ok tt else _ ⇐ rmpath (tmp_path p); ok tt)) as Hc by stay.
  intros r s' E. assert (E' : ebind (_ ⇐ remove_if_named (obj_file p); _ ⇐ remove_if_named (dwo_file p);
    if bool_decide (tmp_path p = ""%string) then ok tt else _ ⇐ rmpath (tmp_path p); ok tt)
    (fun _ => raise (process_exit code) : work unit) s = Ok (r, s')).
  { rewrite <- E. unfold ebind, mbind, M_bind. destruct (remove_if_named (obj_file p) s) as [[[?|?] s1]|]; [done| |done].
    by destruct (remove_if_named (dwo_file p) s1) as [[[?|?] s2]|]. }
  clear E. revert r s' E'. eapply yields_bind; [apply Hc|..]; cbn; [|tauto].
  intros _ l s1 (Hl & _ & _). apply yields_raise. by rewrite app_nil_r.
Qed.

Lemma serve_job_answers fuel libcap_ng basedir job mem_limit uid gid s :
  answer_part s = (true, false) ->
  works (serve_job fuel libcap_ng basedir job mem_limit uid gid) s (fun r l s' =>
    exists p n x, r = inr (p, x) /\ places_of job p /\
      ((exists e, x = inl e /\ locked_out e /\ decisions l = []) \/
       answered (good job p n l) p n x (wk_out_fd s') (decisions l))).
Proof.
  intros Ha. unfold serve_job, and_then at 1. eapply yields_bind; [intros r s' E|..].
  { apply bind_inv in E as (x & s2 & E & E'). injection E' as <- <-.
    destruct (calm_enter_environment _ _ _ _ _ _ _ _ E) as (l & El & Hl & Hs & Hx). exists l. split; [done|].
    instantiate (1 := fun r l s' => Forall incidental l /\ answer_part s' = answer_part s /\
      exists x, r = inr (no_places, x) /\ match x with inl e => fails e | inr _ => True end).
    split; [done|]. split; [by apply job_answer|]. by exists x. }
  - cbn. intros [p x] l1 s1 (Hi1 & Hs1 & x' & [= -> <-] & Hx).
    pose proof (decisions_none _ (incidental_undecided _ Hi1)) as Hd1. rewrite Ha in Hs1.
    destruct x as [e|u]; cbn [fst snd].
    { apply yields_ok. rewrite app_nil_r, Hd1. exists no_places, 0%nat. eexists. split; [done|]. split; [by left|].
      destruct Hx as [Hx|(code & -> & Hc)]; [left; by exists e|right].
      injection Hs1 as Ho _. rewrite Ho. by constructor. }
    unfold and_then. eapply yields_bind; [apply compile_compiles|..]; cbn; cycle 1.
    { by intros e l2 s2 (_ & _ & p & x & [=] & _). }
    intros [p x] l2 s2 (Hl2 & Hs2 & p' & x' & [= <- <-] & Hp & Hx'). cbn [fst snd].
    pose proof (decisions_none _ Hl2) as Hd2. rewrite Hs1 in Hs2. destruct x as [e|v].
    { apply yields_ok. rewrite app_nil_r, decisions_app, Hd1, Hd2. exists p, 0%nat. eexists. split; [done|]. split; [done|].
      destruct Hx' as [Hx'|(code & -> & Hc)]; [left; by exists e|right].
      injection Hs2 as Ho _. rewrite Ho. by constructor. }
    intros r s' E. apply bind_inv in E as (x & s3 & E & E'). injection E' as <- <-.
    destruct (works_and _ _ _ _ (answer_answers (good job p (wk_asked s2) l2) p v s2 Hs2 Hx') (aloof_answer p v s2) _ _ E)
      as (l3 & El3 & Hl3 & Hp3 & _).
    exists l3. split; [done|]. exists p, (wk_asked s2), x. split; [done|]. split; [done|]. right.
    rewrite !decisions_app, Hd1, Hd2. cbn [app].
    assert (good job p (wk_asked s2) l2 -> good job p (wk_asked s2) (l1 ++ l2 ++ l3)) as Hk by (apply good_between; [by apply incidental_plain|done]).
    destruct Hl3; constructor; auto.
  - by intros e l s1 (_ & _ & x & [=] & _).
Qed.

(** The report of a failure, and the end. *)
Lemma failure_reported p code s :
  works (_ ⇐ set_stat exit_code code; _ ⇐ report; clean_up p code) s (fun r l s' =>
    r = inl (process_exit code) /\ Forall plain_effect l /\ exists stat, decisions l =
      if wk_out_fd s then [Reported (<[exit_code := u32 code]> stat)] else []).
Proof.
  apply yields_change; [done|]. unfold report. apply yields_assoc, yields_look. apply yields_assoc, yields_look.
  cbn [wk_out_fd set_wk_stat]. destruct (wk_out_fd s) eqn:Eo.
  - apply yields_assoc, works_note, yields_change; [done|].
    eapply yields_weaken; [apply works_clean_up|]. cbn beta. intros r l s' [-> Hl]. split; [done|].
    split; [constructor; [done|by apply incidental_plain]|].
    apply incidental_undecided, decisions_none in Hl.
    exists (wk_stat s). unfold decisions in *. rewrite filter_cons_True by done. by rewrite Hl.
  - apply yields_assoc, yields_passed, yields_change; [done|].
    eapply yields_weaken; [apply works_clean_up|]. cbn beta. intros r l s' [-> Hl]. split; [done|].
    split; [by apply incidental_plain|]. apply incidental_undecided, decisions_none in Hl. by exists [].
Qed.

Definition success (d : list work_effect) : Prop :=
  exists res b, Told (CompileResult res) b ∈ d /\ cr_status res = 0 /\ cr_was_out_of_memory res = false.

Lemma file_message_result res b d : Forall file_message d -> Told (CompileResult res) b ∉ d.
Proof. intros Hd Hin. rewrite Forall_forall in Hd. by apply Hd in Hin. Qed.

Lemma answered_success K p n x o d : answered K p n x o d -> success d -> K.
Proof.
  assert (forall res b res' st fs, Told (CompileResult res) b ∈ Told (CompileResult res') true :: Reported st :: fs ->
    Forall file_message fs -> res = res') as Hone.
  { intros res b res' st fs. rewrite !elem_of_cons. intros [[= -> ->]|[[=]|Hin]] Hfs; [done|].
    by apply (file_message_result res b) in Hfs. }
  intros Hx (res & b & Hin & H0' & Hm). destruct Hx as [code|res'|res' stat|res' stat files Hs HK Hf|res' stat files Hs HK Hf].
  - by apply not_elem_of_nil in Hin.
  - apply list_elem_of_singleton in Hin. injection Hin as -> ->. auto.
  - apply (Hone _ _ _ _ []) in Hin as ->; done.
  - apply Hone in Hin as ->; [auto|]. by eapply files_of_messages.
  - apply Hone in Hin as ->; [auto|]. by eapply files_broken_messages.
Qed.

Lemma success_decisions l : success_told l -> success (decisions l).
Proof.
  intros (res & b & Hin & Hrest). exists res, b. split; [|done]. by apply list_elem_of_filter.
Qed.

Lemma handle_connection_outcome fuel libcap_ng basedir job mem_limit uid gid s :
  answer_part s = (true, false) ->
  works (handle_connection fuel libcap_ng basedir job mem_limit uid gid) s (fun r l s' =>
    exists code p n, r = inl (process_exit code) /\ outcome p n code (decisions l) /\ places_of job p /\
      (success_told l -> good job p n l)).
Proof.
  intros Ha. unfold handle_connection. eapply yields_bind; [by apply serve_job_answers|..]; cycle 1.
  { by intros e l s1 (p & n & x & [=] & _). }
  intros [p x] l1 s1 (p' & n & x' & [= <- <-] & Hplaces & Hx).
  assert (forall l d code, Forall plain_effect l -> decisions l = [] \/ (exists st, decisions l = [Reported st]) ->
    answered (good job p n l1) p n x d (decisions l1) ->
    outcome p n code (decisions (l1 ++ l)) ->
    exists c p n, (inl (process_exit code) : work_exn + unit) = inl (process_exit c) /\
      outcome p n c (decisions (l1 ++ l)) /\ places_of job p /\
      (success_told (l1 ++ l) -> good job p n (l1 ++ l))) as Hsucc.
  { intros l d code Hp Hl Hd Hc. exists code, p, n. do 3 (split; [done|]).
    intros Hs. apply (good_between _ _ _ []); [done|done|]. apply (answered_success _ _ _ _ _ _ Hd).
    apply success_decisions in Hs as (res & b & Hin & Hr). exists res, b. split; [|done].
    rewrite decisions_app in Hin. apply elem_of_app in Hin as [Hin|Hin]; [done|].
    destruct Hl as [Hl|[st Hl]]; rewrite Hl in Hin; [by apply not_elem_of_nil in Hin|].
    apply list_elem_of_singleton in Hin. discriminate Hin. }
  destruct x as [e|code].
  - destruct Hx as [(e' & [= <-] & (code & -> & Hc) & Hd)|Hx].
    { apply yields_raise. exists code, p, n. rewrite app_nil_r, Hd. split; [done|]. split; [by constructor|].
      split; [done|].
      intros Hs. apply success_decisions in Hs as (res & b & Hin & _). rewrite Hd in Hin.
      by apply not_elem_of_nil in Hin. }
    assert (exists code, e = myexception code) as [code ->] by (inversion Hx; eauto).
    apply yields_require. intros Hc. boolify.
    eapply yields_weaken; [by apply (failure_reported p code)|]. cbn beta. intros r l s' (-> & Hp & stat & Hl).
    apply (Hsucc l (wk_out_fd s1)); [done| |done|].
    { destruct (wk_out_fd s1); eauto. }
    rewrite decisions_app, Hl.
    inversion Hx as [c Hc0 E1 E2 E3|res HK E1 E2 E3| | |res stat' files Hst HK Hf E1 E2 E3].
    + by apply Failed.
    + by apply Not_sent.
    + rewrite app_nil_r. by apply (Files_broken _ _ _ res stat').
  - destruct Hx as [(e' & [=] & _)|Hx].
    eapply yields_weaken; [by apply works_clean_up|]. cbn beta. intros r l s' [-> Hl].
    apply (Hsucc l (wk_out_fd s1)); [by apply incidental_plain|by left; apply decisions_none, incidental_undecided|done|].
    rewrite decisions_app, (decisions_none l), app_nil_r by by apply incidental_undecided.
    inversion Hx as [| |res stat Hst E1 E2 E3|res stat files Hst HK Hf E1 E2 E3|].
    + by apply Failure_sent.
    + by apply (Files_sent _ _ _ res stat).
Qed.

(** C4: the child answers. When it returns it leaves with an exit code, and then
    either it could not enter the environment and said nothing but texts; or the
    daemon got one report, of a failure with that code, and the client no result
    that arrived; or the client was sent a result and then the daemon the report,
    and the code is the status of the result, and after the status 0 the client
    was sent the whole object file, and the whole file of debug information
    where the result announces it, each closed by the end of file, and nothing
    else; or sending these broke off, which the report, sent before, does not tell.
    The files are those of the job, or have no name; and where the result says
    that all went well, and not that memory was short, they are as they were some
    time after the compiler, told to write this object file, had ended with 0. *)
Theorem connection_answered fuel libcap_ng basedir job mem_limit uid gid s r s' :
  answer_part s = (true, false) ->
  handle_connection fuel libcap_ng basedir job mem_limit uid gid s = Ok (r, s') ->
  exists code p n news, r = inl (process_exit code) /\ wk_effects s' = wk_effects s ++ news /\
    outcome p n code (decisions news) /\ places_of job p /\
    (success_told news -> object_compiled job p n news).
Proof.
  intros Ha E.
  destruct (handle_connection_outcome _ _ _ _ _ _ _ _ Ha _ _ E) as (l & El & code & p & n & -> & Ho & Hp & Hs).
  exists code, p, n, l. do 4 (split; [done|]). intros Ht. by apply Hs.
Qed.

(** C5: success is meant. Where the client is told the status 0, and not that
    memory was short, the compiler was started in this child and has ended with
    the exit code 0; the client had sent chunks of source and then their end, and
    nothing else; and unless the compiler was sent a signal it has read all the
    chunks, in order. *)
Theorem success_means_compiled fuel libcap_ng basedir job mem_limit uid gid s r s' :
  answer_part s = (true, false) ->
  (forall t bs n, w_write t bs = Written n -> 0 <= n) ->
  handle_connection fuel libcap_ng basedir job mem_limit uid gid s = Ok (r, s') ->
  exists news, wk_effects s' = wk_effects s ++ news /\
    (success_told news -> compiled news /\
       exists chunks, got news = map FileChunk chunks ++ [EndMsg] /\
         (Terminated ∉ news -> fed news = source news)).
Proof.
  intros Ha Hc E.
  destruct (handle_connection_outcome _ _ _ _ _ _ _ _ Ha _ _ E) as (l & El & code & p & n & _ & _ & _ & Hs).
  exists l. split; [done|]. intros Ht. destruct (Hs Ht) as [[_ Hcomp] Hd].
  split; [by eapply compiled_for_compiled|]. by apply (Hd Hc).
Qed.
End answers.

(** ** A sample *)

Section sample.
#[local] Existing Instances store_compressors client_channels.

Abbreviation serving := (@handle_connection client_channels (workplace_with true 0) 10 true "/base"
  remote_job 1000 65534 65534 (work_with source_client)).

Lemma serving_returns : exists r s', serving = Ok (r, s').
Proof.
  assert (match serving with Ok _ => true | _ => false end = true) as E by (vm_compute; reflexivity).
  revert E. generalize serving as x. intros [[r s']|f] E; [by exists r, s'|discriminate E].
Qed.

Definition served_code : option Z :=
  match serving with Ok (inl (process_exit code), _) => Some code | _ => None end.
Definition served_decisions : list work_effect :=
  match serving with Ok (_, s') => decisions (wk_effects s') | _ => [] end.
Definition object_result : CompileResultMsg := mkCompileResultMsg 0 "" "" false false.

Lemma connection_answered_witness :
  served_code = Some 0 /\
  served_decisions = [Told (CompileResult object_result) true; Reported [5; 3; 3; 0; 0; 0; 0; 0];
                      Told (chunk [x41; x42; x43]) true; Told EndMsg true] /\
  answer_part (work_with source_client) = (true, false) /\
  exists r s' code p n news, serving = Ok (r, s') /\ r = inl (process_exit code) /\
    wk_effects s' = wk_effects (work_with source_client) ++ news /\
    @outcome (workplace_with true 0) p n code (decisions news) /\ @places_of (workplace_with true 0) remote_job p /\
    (success_told news -> @object_compiled (workplace_with true 0) remote_job p n news).
Proof.
  split; [vm_compute; reflexivity|]. split; [vm_compute; reflexivity|]. split; [reflexivity|].
  destruct serving_returns as (r & s' & Er). exists r, s'.
  destruct (@connection_answered client_channels (workplace_with true 0) 10 true "/base"
    remote_job 1000 65534 65534 (work_with source_client) r s' eq_refl Er) as (code & p & n & news & Hx).
  exists code, p, n, news. split; [exact Er|exact Hx].
Defined.

Lemma success_means_compiled_witness :
  existsb (fun e => match e with Started _ _ => true | _ => false end)
    (match serving with Ok (_, s') => wk_effects s' | _ => [] end) = true /\
  exists r s' news, serving = Ok (r, s') /\ wk_effects s' = wk_effects (work_with source_client) ++ news /\
    (success_told news -> @compiled (workplace_with true 0) news /\
       exists chunks, got news = map FileChunk chunks ++ [EndMsg] /\
         (Terminated ∉ news -> fed news = source news)).
Proof.
  split; [vm_compute; reflexivity|]. destruct serving_returns as (r & s' & Er). exists r, s'.
  destruct (@success_means_compiled client_channels (workplace_with true 0) 10 true "/base"
    remote_job 1000 65534 65534 (work_with source_client) r s' eq_refl (workplace_counts true 0) Er) as (news & Hx).
  exists news. split; [exact Er|exact Hx].
Defined.
End sample.
