(* ===== verification/CommandFacts.v ===== *)
(** * The command of the compiler on a server

    Where the compiler writes, and the array its arguments are put into. *)

From Stdlib Require Import ZArith Lia.
From Stdlib Require Import Strings.Byte Strings.String.
From stdpp Require Import base tactics option list strings pretty.
From S2P Require Import Prelude Effects StdString Paths FileUtil CompileJob Msg Worker WorkIt Serve WorkItFacts.

#[local] Open Scope Z_scope.

(** ** The array of arguments *)

(** The arguments fit. The array [work_it] allocates for the command has room
    for all of it, whatever the job: the assertion behind it never fails. The
    flags of the job are in the command one after the other, in their order, and
    behind them stands the name of the output. *)
Theorem compiler_argv_fits program clang j flags tmp_root file_name mem_limit :
  let argv := compiler_argv program clang j flags tmp_root file_name mem_limit in
  Z.of_nat (length argv) <= argv_room flags /\
  exists before after, argv = (before ++ flags ++ after)%list /\
    exists x y, after = (x ++ ["-"; "-o"; file_name]%string ++ y)%list.
Proof.
  cbv zeta. split.
  - unfold compiler_argv, argv_room. rewrite !length_app.
    destruct (language_name (j_language j)), clang, (bool_decide (j_input_file j = "")),
      (bool_decide (j_working_directory j = "")), (j_dwarf_fission j); 
      unfold option_list; cbn; lia.
  - unfold compiler_argv. cbv zeta. rewrite (app_assoc [program; _]), (app_assoc (_ ++ option_list _)).
    do 2 eexists. split; [reflexivity|]. by do 2 eexists.
Qed.

(** ** Where it writes *)

Lemma split_cut a b : split (a ++ slash :: b) slash = split a slash ++ split b slash.
Proof. unfold split. by rewrite pieces_app, filter_app. Qed.
Lemma split_one c : ordinary c -> split c slash = [c].
Proof. intros Hc. apply (split_join [c]). by constructor. Qed.
Lemma relative_path_split a b from :
  split a slash = split b slash -> get_relative_path a from = get_relative_path b from.
Proof. unfold get_relative_path. by intros ->. Qed.

(** A name below an absolute one. *)
Lemma place_below top l name :
  is_absolute top = true -> Forall ordinary l -> ordinary name ->
  place [] (top ++ absolute l ++ slash :: name) = place [] top ++ l ++ [name].
Proof.
  intros Ht Hl Hn. unfold place. rewrite Ht.
  assert (is_absolute (top ++ absolute l ++ slash :: name) = true) as -> by by destruct top.
  unfold absolute. rewrite <- !walk_split. cbn [app]. rewrite split_cut.
  assert (split (join l ++ slash :: name) slash = l ++ [name]) as -> by by rewrite split_cut, split_join, split_one.
  rewrite walk_app, (walk_ordinary _ (l ++ [name])); [done|]. apply Forall_app. split; [done|by constructor].
Qed.
Lemma place_under top l :
  is_absolute top = true -> Forall ordinary l -> place [] (top ++ absolute l) = place [] top ++ l.
Proof.
  intros Ht Hl. unfold place. rewrite Ht. assert (is_absolute (top ++ absolute l) = true) as -> by by destruct top.
  unfold absolute. rewrite <- !walk_split. rewrite split_cut, walk_app, split_join by done. by rewrite walk_ordinary.
Qed.

(** The directory and the name of a file *)
Lemma dir_name_cut file :
  strlen file < npos ->
  (slash ∉ bytes_of file) /\ dir_of file = ""%string /\ name_of file = file \/
  bytes_of file = bytes_of (dir_of file) ++ slash :: bytes_of (name_of file).
Proof.
  unfold strlen, dir_of, name_of. intros Hl. destruct (decide (slash ∈ bytes_of file)) as [Hin|Hin].
  - right. apply list_elem_of_split_r in Hin as (d & n & E & Hn).
    rewrite <- (str_of_bytes_of file), E, bytes_of_str_of. rewrite E in Hl. clear E file.
    rewrite <- (bytes_of_str_of n) in *. unfold slash in *.
    rewrite StdString.rfind_slash by done. rewrite length_app in Hl.
    rewrite (proj2 (Z.eqb_neq _ _)) by (cbn [length] in Hl; lia).
    unfold substr, substr_from, strlen. rewrite !bytes_of_str_of.
    change (Z.to_nat 0) with O. rewrite skipn_O, length_app. cbn [length].
    rewrite Z.min_l, Nat2Z.id, take_app_length by lia. f_equal.
    replace (Z.to_nat (Z.of_nat (length d) + 1)) with (S (length d)) by lia.
    by rewrite (cons_middle _ d), app_assoc, drop_app_length' by (rewrite length_app; cbn; lia).
  - left. split; [done|]. assert (rfind "/" file = npos) as ->; [|done].
    apply rfind_at_absent. intros a b E. apply Hin. rewrite E. apply elem_of_app. right. by left.
Qed.

Lemma canonical_ordinary name : is_absolute name = true -> get_canonicalized_path name = name ->
  exists l, Forall ordinary l /\ name = absolute l /\ place [] name = l.
Proof.
  intros Ha Hc. rewrite canonical_absolute in Hc by done. exists (place [] name).
  split; [by apply place_ordinary|done].
Qed.

(** C18: the compiler writes where the file is looked for. For a job with separate
    debug information the compiler runs in the working directory of the client,
    made again below a temporary one, and gets a relative name for its output;
    who follows it from there gets to the very file that is sent to the client.
    That file has the place of the client's object file, below the temporary
    directory, unless the client's file is right in the root. *)
Theorem object_place tmp output_file working_dir :
  is_absolute (bytes_of tmp) = true ->
  is_absolute (bytes_of working_dir) = true ->
  get_canonicalized_path (bytes_of working_dir) = bytes_of working_dir ->
  ordinary (bytes_of (name_of output_file)) -> strlen output_file < npos ->
  let (output_dir, relative_file_path) := output_place tmp output_file working_dir in
  let obj_file := (output_dir +:+ "/" +:+ name_of output_file)%string in
  is_absolute (bytes_of relative_file_path) = false /\
  place (place [] (bytes_of (tmp +:+ working_dir))) (bytes_of relative_file_path) = place [] (bytes_of obj_file) /\
  ((is_absolute (bytes_of output_file) = true -> dir_of output_file <> ""%string) ->
   place [] (bytes_of obj_file)
     = place [] (bytes_of tmp) ++ place (place [] (bytes_of working_dir)) (bytes_of output_file)).
Proof.
  intros Ht Hw Hc Hn Hl. destruct (canonical_ordinary _ Hw Hc) as (W & HW & EW & PW).
  assert (forall D to, Forall ordinary D -> split to slash = D ++ [bytes_of (name_of output_file)] ->
    let name := get_relative_path to (bytes_of working_dir) in
    is_absolute name = false /\
    place (place [] (bytes_of (tmp +:+ working_dir))) name
      = place [] (bytes_of tmp) ++ D ++ [bytes_of (name_of output_file)]) as Hrel.
  { intros D to HD Hto. set (L := D ++ [bytes_of (name_of output_file)]) in *.
    assert (Forall ordinary L) as HL by (apply Forall_app; split; [done|by constructor]).
    cbv zeta. rewrite (relative_path_split to (absolute L)) by by rewrite Hto, split_absolute.
    assert (is_absolute (get_relative_path (absolute L) (bytes_of working_dir)) = false) as Ha
      by by apply relative_is_relative.
    split; [done|]. rewrite bytes_of_app, EW, place_under by done. unfold place at 1. rewrite <- EW, Ha, EW.
    by apply relative_walk. }
  assert (forall D, Forall ordinary D ->
    place [] (bytes_of ((tmp +:+ str_of (absolute D)) +:+ "/" +:+ name_of output_file)%string)
      = place [] (bytes_of tmp) ++ D ++ [bytes_of (name_of output_file)]) as Hobj.
  { intros D HD. rewrite !bytes_of_app, bytes_of_str_of, <- app_assoc. by apply place_below. }
  unfold output_place. destruct (is_absolute (bytes_of (dir_of output_file))) eqn:Ed.
  - rewrite (canonical_absolute (bytes_of (dir_of output_file))) by done.
    set (D := place [] (bytes_of (dir_of output_file))).
    assert (Forall ordinary D) as HD by by apply place_ordinary.
    assert (bytes_of output_file = bytes_of (dir_of output_file) ++ slash :: bytes_of (name_of output_file)) as Eo.
    { destruct (dir_name_cut _ Hl) as [(_ & E & _)|E]; [by rewrite E in Ed|done]. }
    assert (is_absolute (bytes_of output_file) = true) as Ha.
    { rewrite Eo. by destruct (bytes_of (dir_of output_file)). }
    assert (place [] (bytes_of output_file) = D ++ [bytes_of (name_of output_file)]) as Po.
    { unfold D, place. rewrite Ha, Ed, <- !walk_split, Eo, split_cut, (split_one (bytes_of (name_of _))) by done.
      rewrite walk_app. apply walk_ordinary. by constructor. }
    rewrite !bytes_of_str_of, Hc, (canonical_absolute (bytes_of output_file)), Po by done. cbv zeta.
    destruct (Hrel D (absolute (D ++ [bytes_of (name_of output_file)]))) as [H1 H2]; [done| |].
    { apply split_absolute, Forall_app. split; [done|by constructor]. }
    split; [done|]. rewrite H2, Hobj by done. split; [done|].
    intros _. rewrite <- Po. f_equal. unfold place. by rewrite Ha.
  - set (full := (working_dir +:+ "/" +:+ dir_of output_file)%string).
    assert (is_absolute (bytes_of full) = true) as Hf.
    { unfold full. rewrite bytes_of_app. by destruct (bytes_of working_dir). }
    rewrite (canonical_absolute (bytes_of full)) by done. set (D := place [] (bytes_of full)).
    assert (Forall ordinary D) as HD by by apply place_ordinary.
    assert (bytes_of (str_of (absolute D) +:+ "/" +:+ name_of output_file)%string
      = absolute D ++ slash :: bytes_of (name_of output_file)) as -> by by rewrite !bytes_of_app, bytes_of_str_of.
    rewrite !bytes_of_str_of, Hc. cbv zeta.
    destruct (Hrel D (absolute D ++ slash :: bytes_of (name_of output_file))) as [H1 H2]; [done| |].
    { by rewrite split_cut, split_absolute, split_one. }
    split; [exact H1|]. rewrite H2, Hobj by done. split; [done|]. intros Hroot. f_equal.
    assert (D = walk W (split (bytes_of (dir_of output_file)) slash)) as ->.
    { unfold D, place. rewrite Hf. unfold full. rewrite !bytes_of_app. cbn [app bytes_of].
      change (bytes_of "/" ++ bytes_of (dir_of output_file)) with (slash :: bytes_of (dir_of output_file)).
      rewrite <- walk_split, split_cut, walk_app. f_equal. rewrite EW, split_absolute by done. by apply walk_ordinary. }
    rewrite PW. destruct (dir_name_cut _ Hl) as [(Hs & Ed' & En)|E].
    + rewrite Ed'. rewrite En in Hn |- *. unfold place.
      assert (is_absolute (bytes_of output_file) = false) as -> by (destruct Hn as (_ & Hn & _);
        destruct (bytes_of output_file) as [|b l]; [done|]; apply bool_decide_eq_false; intros ->; apply Hs; by left).
      rewrite <- walk_split, (split_one (bytes_of output_file)) by done. symmetry. apply walk_ordinary. by constructor.
    + assert (is_absolute (bytes_of output_file) = false) as Ha.
      { destruct (is_absolute (bytes_of output_file)) eqn:Ha; [|done]. specialize (Hroot eq_refl).
        destruct Hroot. rewrite <- (str_of_bytes_of (dir_of output_file)). rewrite E in Ha.
        destruct (bytes_of (dir_of output_file)); [done|]. cbn in Ha, Ed. congruence. }
      unfold place. rewrite Ha, <- walk_split, E, split_cut, (split_one (bytes_of (name_of _))), walk_app by done.
      symmetry. apply walk_ordinary. by constructor.
Qed.

Lemma object_place_witness :
  output_place "/tmp/icecc" "../obj/a.o" "/home/me/src" = ("/tmp/icecc/home/me/obj"%string, "../obj/a.o"%string) /\
  output_place "/tmp/icecc" "/a.o" "/home/me/src" = ("/tmp/icecc/home/me/src"%string, "a.o"%string) /\
  place [] (bytes_of "/tmp/icecc/home/me/obj/a.o")
    = place [] (bytes_of "/tmp/icecc") ++ place (place [] (bytes_of "/home/me/src")) (bytes_of "../obj/a.o").
Proof.
  split; [vm_compute; reflexivity|]. split; [vm_compute; reflexivity|].
  apply (object_place "/tmp/icecc" "../obj/a.o" "/home/me/src");
    [reflexivity|reflexivity|vm_compute; reflexivity|apply (bool_decide_unpack _); vm_compute; exact I
    |vm_compute; reflexivity|vm_compute; discriminate].
Defined.
