(* ===== verification/ServeErrors.v ===== *)
(** * A child without a compiler

    What a client is told where the compiler's process could not be made. *)

From Stdlib Require Import ZArith Lia.
From Stdlib Require Import Strings.Byte Strings.String.
From stdpp Require Import base tactics option list gmap strings pretty.
From S2P Require Import Prelude Effects ExitCode StdString MsgChannel CompileJob Msg MsgCodec Interface Transport ChannelImpl Worker WorkIt Serve WorkerFacts WorkItFacts WorkItEnds ServeFacts Files.

#[local] Open Scope Z_scope.
#[local] Open Scope icecc_scope.

Section errors.
Context `{Channels} `{Workplace}.

Lemma runs_pipes {B} n (k : bool -> work B) s Q :
  (forall t, w_pipe t = true) ->
  (forall s1, wk_effects s1 = wk_effects s -> job_part s1 = job_part s -> runs (k true) s1 Q) ->
  runs (ebind (pipes n) k) s Q.
Proof.
  intros Hp Hk. apply runs_ebind. revert s Hk. induction n as [|n IH]; intros s Hk; cbn [pipes].
  - by apply runs_done, Hk.
  - apply runs_inquire. rewrite Hp. apply IH. intros s1 He Hj. by apply Hk.
Qed.

(** The result that is sent after [EXIT_OUT_OF_MEMORY] *)
Lemma memory_answer p s :
  wk_out_fd s = true -> cr_status (wk_rmsg s) = 0 ->
  works (answer p EXIT_OUT_OF_MEMORY) s (fun r l _ =>
    exists res sent rest, l = Told (CompileResult res) sent :: rest /\
      cr_status res = 0 /\ cr_was_out_of_memory res = true /\
      (r = inr 0 -> sent = true /\ exists stat files, decisions rest = Reported stat :: files /\
         files_of p (wk_asked s) (cr_have_dwo_file res) files)).
Proof.
  intros Ho Hs. unfold answer, judge.
  change (EXIT_OUT_OF_MEMORY =? 0) with false. change ((EXIT_OUT_OF_MEMORY =? EXIT_OUT_OF_MEMORY) || _) with true.
  cbv iota. apply works_set_rmsg.
  assert (forall size (k : unit -> work Z) s0 Q, (forall s2, rmsg_part s2 = rmsg_part s0 -> wk_asked s2 = wk_asked s0 -> works (k tt) s2 Q) ->
    works (ebind (match size with Some st_size => add_stat out_uncompressed st_size | None => ok tt end) k) s0 Q) as Hadd.
  { intros [size|] k s0 Q Hk; [apply works_add_stat; intros st; by apply Hk|by apply yields_passed, Hk]. }
  apply works_inquire. intros t1. apply Hadd. intros s2 [= Ho2 Hm2] Hn2.
  apply works_inquire. intros t2. apply Hadd. intros s3 [= Ho3 Hm3] Hn3.
  apply works_set_rmsg, yields_look. cbn in Ho2, Ho3, Hm2, Hm3, Hn2, Hn3.
  set (res := wk_rmsg _).
  assert (cr_status res = 0) as Hr by (unfold res; cbn; by rewrite Hm3, Hm2).
  assert (cr_was_out_of_memory res = true) as Hm by (unfold res; cbn; by rewrite Hm3, Hm2).
  apply works_tell_asked. intros [] s4 (_ & _ & Ho4) Hn4; cbn [negb]; cycle 1.
  { apply yields_raise. exists res, false, []. split_and!; [done..|]. intros [=]. }
  unfold report. apply yields_assoc, yields_look. apply yields_assoc, yields_look.
  cbn in Ho4. rewrite Ho4, Ho3, Ho2, Ho. apply yields_assoc, works_note, yields_change; [done|].
  rewrite Hr, Z.eqb_refl. eapply yields_bind; [apply (write_outputs_send _ (wk_asked s)); cbn in *; lia|..]; cbn.
  - intros _ l s5 [_ Hl]. apply yields_ok. exists res, true, (Reported (wk_stat s4) :: l).
    rewrite app_nil_r. split_and!; [done..|]. intros _. split; [done|].
    exists (wk_stat s4), (decisions l). split; [|done]. unfold decisions. by rewrite filter_cons_True.
  - intros e l s5 (_ & -> & _). exists res, true, (Reported (wk_stat s4) :: l). split_and!; [done..|]. intros [=].
Qed.

(** C28: a compiler that could not be forked is a success. When [fork] fails
    [work_it] does nothing and returns the code for too little memory, and the
    status of the result remains 0. The client is then told that status, and gets
    the object file that no compiler has written; it looks at the note on the
    memory only where the status is not 0. *)
Theorem fork_failure_succeeds fuel j tmp_root build_path file_name mem_limit s :
  (forall t, w_pipe t = true) -> (forall t, w_fork t = false) ->
  wk_out_fd s = true -> cr_status (wk_rmsg s) = 0 ->
  exists s1, work_it fuel j tmp_root build_path file_name mem_limit s = Ok (inr EXIT_OUT_OF_MEMORY, s1) /\
    wk_effects s1 = wk_effects s /\
    forall p r s', answer p EXIT_OUT_OF_MEMORY s1 = Ok (r, s') ->
      exists res sent rest, wk_effects s' = wk_effects s ++ Told (CompileResult res) sent :: rest /\
        cr_status res = 0 /\ cr_was_out_of_memory res = true /\
        (r = inr 0 -> sent = true /\ exists stat files, decisions rest = Reported stat :: files /\
           files_of p (wk_asked s1) (cr_have_dwo_file res) files).
Proof.
  intros Hp Hf Ho Hs.
  assert (runs (work_it fuel j tmp_root build_path file_name mem_limit) s (fun r s1 =>
    r = inr EXIT_OUT_OF_MEMORY /\ wk_effects s1 = wk_effects s /\ wk_out_fd s1 = true /\
    cr_status (wk_rmsg s1) = 0)) as (r1 & s1 & E & -> & He & Ho1 & Hs1).
  { apply runs_change, runs_look. cbv zeta. apply runs_pipes; [done|]. intros s1 He1 [= Hm1 _ Ho1].
    cbn in He1, Hm1, Ho1. cbn [negb].
    apply runs_inquire. rewrite Hf. apply runs_done. cbn. split_and!; [done|done|congruence|by rewrite Hm1]. }
  exists s1. split; [done|]. split; [done|]. intros p r s' Ea.
  destruct (memory_answer p s1 Ho1 Hs1 _ _ Ea) as (l & El & res & sent & rest & -> & Hx).
  exists res, sent, rest. by rewrite <- He.
Qed.
End errors.

Section sample.
#[local] Existing Instances store_compressors client_channels.

Abbreviation forkless := (@handle_connection client_channels (workplace_with false 0) 10 true "/base"
  remote_job 1000 65534 65534 (work_with source_client)).
Definition forkless_decisions : list work_effect :=
  match forkless with Ok (_, s') => decisions (wk_effects s') | _ => [] end.

(** The whole child: the client gets a file. *)
Lemma fork_failure_succeeds_witness :
  forkless_decisions = [Told (CompileResult (mkCompileResultMsg 0 "" "" true false)) true;
    Reported [0; 0; 3; 0; 0; 0; 0; 0]; Told (chunk [x41; x42; x43]) true; Told EndMsg true] /\
  exists s1, @work_it client_channels (workplace_with false 0) 10 remote_job "/tmp" "" "icecc-7.o" 1000
    (work_with source_client) = Ok (inr EXIT_OUT_OF_MEMORY, s1) /\ wk_effects s1 = wk_effects (work_with source_client).
Proof.
  split; [vm_compute; reflexivity|].
  destruct (@fork_failure_succeeds client_channels (workplace_with false 0) 10 remote_job "/tmp" "" "icecc-7.o" 1000
    (work_with source_client) (fun _ => eq_refl) (fun _ => eq_refl) eq_refl eq_refl) as (s1 & E & He & _).
  exists s1. split; [exact E|exact He].
Defined.
End sample.
