(* ===== verification/ServeEnds.v ===== *)
(** * The child ends

    [handle_connection] comes to an exit code, on a system that settles as in
    WorkItEnds.v. *)

From Stdlib Require Import ZArith Lia.
From Stdlib Require Import Strings.Byte Strings.String.
From stdpp Require Import base tactics option list gmap strings pretty.
From S2P Require Import Prelude Effects ExitCode StdString Paths FileUtil MsgChannel CompileJob Msg MsgCodec Interface Transport ChannelImpl Worker WorkIt Serve WorkerFacts WorkItFacts WorkItEnds ServeFacts Files.

#[local] Open Scope Z_scope.
#[local] Open Scope icecc_scope.

(** What the child relies on when it makes directories: [mkdir] misses the one
    above only for a name that has one, and not for the names below the root or
    the working directory; the temporary directory has a name. *)
Class Rooted `{Workplace} : Prop := {
  st_parent : forall t path, path <> ""%string -> w_mkdir t path = No_parent ->
    exists d l, path = str_of (d ++ slash :: bytes_of l) /\ d <> [] /\ (slash ∉ bytes_of l) /\
      Z.of_nat (length (d ++ slash :: bytes_of l)) < npos;
  st_named : forall t name, w_mkdtemp t = inl name -> name <> ""%string
}.

Section files.
Context `{ChannelsReturn} `{Workplace} `{!Rooted}.

(** ** Names *)

Lemma returns_try_names fuel prefix suffix rel tries bits :
  tries + Z.of_nat fuel = max_tries -> returns (try_names fuel prefix suffix rel tries bits).
Proof.
  revert tries bits. induction fuel as [|fuel IH]; intros tries bits Ht; cbn [try_names]; cbv zeta;
    apply returns_bind; try apply returns_inquire; intros made.
  - destruct made; try (rewrite (proj2 (Z.ltb_lt max_tries (tries + 1))) by lia; apply returns_ok).
    come_back.
  - destruct made; [come_back|..]; destruct (max_tries <? tries + 1); try apply returns_ok; apply IH; lia.
Qed.
Lemma returns_make_tmpnam prefix suffix rel : returns (dcc_make_tmpnam prefix suffix rel).
Proof. apply returns_bind; [apply returns_inquire|intros tv]. apply returns_try_names. by rewrite Z2Nat.id. Qed.

Lemma returns_try_directories fuel tries :
  tries + Z.of_nat fuel = max_tries -> returns (try_directories fuel tries).
Proof.
  revert tries. induction fuel as [|fuel IH]; intros tries Ht; cbn [try_directories]; cbv zeta;
    apply returns_bind; try apply returns_inquire; intros [name|made]; try apply returns_ok.
  - rewrite (proj2 (Z.ltb_lt max_tries (tries + 1))) by lia. apply returns_ok.
  - destruct (max_tries <? tries + 1); [apply returns_ok|]. destruct made; try apply returns_ok; apply IH; lia.
Qed.
Lemma returns_make_tmpdir : returns dcc_make_tmpdir.
Proof. apply returns_try_directories. by rewrite Z2Nat.id. Qed.

(** ** Directories *)

Lemma returns_make_directory path : returns (make_directory path).
Proof. unfold make_directory. come_back. Qed.

Lemma parent_of d l :
  slash ∉ bytes_of l -> Z.of_nat (length (d ++ slash :: bytes_of l)) < npos ->
  substr (str_of (d ++ slash :: bytes_of l)) 0 (rfind "/" (str_of (d ++ slash :: bytes_of l))) = str_of d.
Proof.
  intros Hl Hlen. rewrite (StdString.rfind_slash d l Hl Hlen : rfind "/" (str_of (d ++ slash :: bytes_of l)) = _). unfold substr, strlen.
  rewrite bytes_of_str_of, length_app. change (Z.to_nat 0) with O. rewrite skipn_O, Z.min_l by lia.
  rewrite Nat2Z.id. by rewrite take_app_length.
Qed.

Lemma make_directory_inv path s :
  exists made s', make_directory path s = Ok (inr made, s') /\ exists t, made = w_mkdir t path.
Proof.
  unfold make_directory, inquire, ebind, look, change, run_io, mbind, M_bind, fmap, M_fmap. cbn.
  destruct (w_mkdir (wk_asked s) path) eqn:E; do 2 eexists; (split; [done|]); by exists (wk_asked s).
Qed.

Lemma returns_mkpath_in fuel path :
  (length (bytes_of path) <= fuel)%nat -> path <> ""%string -> returns (mkpath_in fuel path).
Proof.
  revert path. induction fuel as [|fuel IH]; intros path Hlen Hne s.
  { destruct Hne. rewrite <- (str_of_bytes_of path). destruct (bytes_of path); [done|cbn in Hlen; lia]. }
  cbn [mkpath_in]. destruct (make_directory_inv path s) as (made & s1 & E & t & Em).
  unfold ebind at 1. rewrite (bind_ok _ _ _ _ _ E). destruct made; try apply returns_ok.
  symmetry in Em. apply st_parent in Em as (d & l & -> & Hd & Hl & Hn); [|done].
  rewrite parent_of by done. apply returns_bind.
  - apply IH; [|by destruct d]. rewrite bytes_of_str_of in *. rewrite length_app in Hlen. cbn in Hlen. lia.
  - intros made. destruct made; [|apply returns_ok]. apply returns_bind; [apply returns_make_directory|].
    intros a. apply returns_ok.
Qed.
Lemma returns_mkpath path : path <> ""%string -> returns (mkpath path).
Proof. intros Hp. by apply returns_mkpath_in. Qed.

Lemma returns_remove_file path : returns (remove_file path).
Proof. unfold remove_file. come_back. Qed.
Lemma returns_remove_directory path : returns (remove_directory path).
Proof. unfold remove_directory. come_back. Qed.
Lemma returns_rmpath_node :
  (forall n path, returns (rmpath_node n path)) /\ (forall l path, returns (rmpath_entries l path)).
Proof.
  apply tree_ind.
  - intros path. apply returns_ok.
  - intros path. apply returns_ok.
  - intros opened l IH path. cbn. destruct opened; [|apply returns_ok]. apply returns_bind; [apply IH|].
    intros r. destruct (r =? 0); [|apply returns_ok].
    apply returns_bind; [apply returns_remove_directory|intros; apply returns_ok].
  - intros path. apply returns_ok.
  - intros name n IHn l IHl path. cbn. apply returns_bind.
    + destruct n; [|apply returns_ok|].
      * apply returns_bind; [apply returns_remove_file|intros; apply returns_ok].
      * apply returns_bind; [apply IHn|intros; apply returns_ok].
    + intros r2. destruct (r2 =? 0); [apply IHl|apply returns_ok].
Qed.
Lemma returns_rmpath path : returns (rmpath path).
Proof. apply returns_bind; [apply returns_inquire|]. intros n. apply returns_rmpath_node. Qed.

(** ** Sending a file *)

Lemma returns_write_output_loop fuel reads :
  (reads_size reads <= fuel)%nat -> returns (write_output_loop fuel reads).
Proof.
  revert reads. induction fuel as [|fuel IH]; intros reads Hf; cbn [write_output_loop];
    (destruct (read_some chunk_size reads) as [[bs|] reads'] eqn:Er; [|apply returns_raise]);
    (apply read_some_data in Er as (_ & _ & _ & Hlt); [|done]); destruct bs as [|b bs]; try by come_back.
  - specialize (Hlt ltac:(done)). lia.
  - apply returns_bind; [apply returns_tell|]. intros sent. destruct (negb sent); [apply returns_raise|].
    apply IH. specialize (Hlt ltac:(done)). lia.
Qed.
Lemma returns_write_output_file file : returns (write_output_file file).
Proof.
  apply returns_bind; [apply returns_inquire|]. intros [reads|].
  - by apply returns_write_output_loop.
  - apply returns_bind; [apply returns_error_client|]. intros _. apply returns_raise.
Qed.
End files.
#[export] Hint Resolve returns_make_tmpnam returns_make_tmpdir returns_remove_file returns_rmpath
  returns_write_output_file : icc.

(** ** The whole *)

Section whole.
Context `{ChannelsReturn} `{Workplace} `{!Rooted} (T : nat) (left : MsgChannel -> nat) `{!Settling T left}.

Lemma returns_at_places {A} p (m : work A) : returns m -> returns (at_places p m).
Proof.
  intros Hm s. destruct (Hm s) as (r & s' & E). unfold at_places, mbind, M_bind. rewrite E. by do 2 eexists.
Qed.
Lemma settles_at_places {A} p (m : nat -> work A) : settles m -> settles (fun fuel => at_places p (m fuel)).
Proof.
  intros Hm s. destruct (Hm s) as (f & r & s' & E). exists f, (inr (p, r)), s'. intros f' Hf.
  unfold at_places, mbind, M_bind. by rewrite E.
Qed.
Lemma settles_and_then {A B} (m : nat -> work (Places * (work_exn + A)))
    (k : nat -> Places -> A -> work (Places * (work_exn + B))) :
  settles m -> (forall p a, settles (fun fuel => k fuel p a)) ->
  settles (fun fuel => and_then (m fuel) (k fuel)).
Proof.
  intros Hm Hk. unfold and_then. apply settles_bind; [done|]. intros [p [e|a]]; [|apply Hk].
  exact (settles_returns (ok (p, inl e)) (returns_ok _)).
Qed.

Lemma returns_must worked error code : returns (must worked error code).
Proof. unfold must. come_back. Qed.
#[local] Hint Resolve returns_must : icc.
Lemma returns_enter_root dirname : returns (enter_root dirname).
Proof. unfold enter_root. come_back. Qed.
#[local] Hint Resolve returns_enter_root : icc.
Lemma returns_enter_environment libcap_ng basedir job uid gid :
  returns (enter_environment libcap_ng basedir job uid gid).
Proof. unfold enter_environment, chdir_to_environment. come_back. Qed.

Lemma returns_mkdir_or path error : path <> ""%string -> returns (mkdir_or path error).
Proof.
  intros Hp. apply returns_bind; [by apply returns_mkpath|]. intros made. destruct (negb made); come_back.
Qed.

Lemma app_nonempty a b : a <> ""%string -> (a +:+ b)%string <> ""%string.
Proof. by destruct a. Qed.
Lemma output_place_named tmp file dir : tmp <> ""%string -> (output_place tmp file dir).1 <> ""%string.
Proof. intros Ht. unfold output_place. destruct (is_absolute _); by apply app_nonempty. Qed.

(** The name of the temporary directory is not empty. *)
Lemma make_tmpdir_named s r s' : dcc_make_tmpdir s = Ok (r, s') ->
  match r with inr (inr tmp) => tmp <> ""%string | _ => True end.
Proof.
  unfold dcc_make_tmpdir. generalize 0 as tries, (Z.to_nat max_tries) as fuel. intros tries fuel E.
  assert (works (try_directories fuel tries) s (fun r _ _ =>
    match r with inr (inr tmp) => tmp <> ""%string | _ => True end)) as Hw.
  { clear E. revert tries s. induction fuel as [|fuel IH]; intros tries s; cbn [try_directories]; cbv zeta;
      apply works_inquire; intros t; destruct (w_mkdtemp t) as [name|[]] eqn:En;
      try (apply yields_ok; by apply st_named in En);
      destruct (max_tries <? tries + 1); try (by apply yields_ok); try apply yields_throw; apply IH. }
  by destruct (Hw _ _ E) as (l & _ & Hr).
Qed.

Lemma settles_work_it job tmp_root build_path file_name mem_limit :
  settles (fun fuel => work_it fuel job tmp_root build_path file_name mem_limit).
Proof. exact (work_it_settles T left job tmp_root build_path file_name mem_limit). Qed.

Lemma compile_settles job mem_limit : settles (fun fuel => compile fuel job mem_limit).
Proof.
  unfold compile. destruct (j_dwarf_fission job).
  - unfold compile_fission. intros s. destruct (returns_make_tmpdir s) as (r & s1 & E).
    pose proof (make_tmpdir_named _ _ _ E) as Hn. destruct r as [e|[ret|tmp]].
    1, 2: exists O; do 2 eexists; intros f _; unfold ebind at 1; rewrite (bind_ok _ _ _ _ _ E); reflexivity.
    set (k := fun fuel => let (output_dir, relative_file_path) := output_place tmp (j_output_file job) (j_working_directory job) in
      and_then (at_places (mkPlaces tmp "" "")
                  (_ ⇐ mkdir_or output_dir "could not create object file location in tmp directory";
                   mkdir_or (tmp +:+ j_working_directory job) "could not create compiler working directory in tmp directory"))
        (fun _ _ => at_places (mkPlaces tmp (output_dir +:+ "/" +:+ name_of (j_output_file job))%string
                                 (dwo_of (output_dir +:+ "/" +:+ name_of (j_output_file job))%string))
             (work_it fuel job tmp (j_working_directory job) relative_file_path mem_limit))).
    assert (settles k) as Hk.
    { pose proof (output_place_named tmp (j_output_file job) (j_working_directory job) Hn) as Ho. unfold k.
      destruct (output_place _ _ _) as [output_dir relative_file_path]. cbn in Ho.
      apply settles_and_then; [|intros p a; apply settles_at_places, settles_work_it].
      apply settles_returns, returns_at_places. apply returns_bind; [by apply returns_mkdir_or|].
      intros _. by apply returns_mkdir_or, app_nonempty. }
    destruct (Hk s1) as (f & r & s2 & Ek). exists f, r, s2. intros f' Hf. specialize (Ek f' Hf).
    unfold ebind at 1. rewrite (bind_ok _ _ _ _ _ E). exact Ek.
  - unfold compile_plain. apply settles_bind; [apply settles_returns, returns_make_tmpnam|].
    intros [ret|tmp]; [|apply settles_at_places, settles_work_it].
    apply (settles_returns (ok (no_places, inr ret))), returns_ok.
Qed.

Lemma returns_answer p ret : returns (answer p ret).
Proof. unfold answer, judge, report, add_stat, set_rmsg. come_back. Qed.

Lemma serve_job_settles libcap_ng basedir job mem_limit uid gid :
  settles (fun fuel => serve_job fuel libcap_ng basedir job mem_limit uid gid).
Proof.
  unfold serve_job. apply settles_and_then.
  { apply settles_returns, returns_at_places, returns_enter_environment. }
  intros _ _. apply settles_and_then; [apply compile_settles|].
  intros p a. apply settles_returns, returns_at_places, returns_answer.
Qed.

Lemma returns_clean_up p code : returns (clean_up p code).
Proof. unfold clean_up, remove_if_named. come_back. Qed.

Lemma handle_connection_eq fuel libcap_ng basedir job mem_limit uid gid s pr s1 :
  serve_job fuel libcap_ng basedir job mem_limit uid gid s = Ok (inr pr, s1) ->
  handle_connection fuel libcap_ng basedir job mem_limit uid gid s =
  (match pr with
   | (p, inr code) => clean_up p code
   | (p, inl (myexception code)) =>
       _ ⇐ require (negb (code =? 0)); _ ⇐ set_stat exit_code code; _ ⇐ report; clean_up p code
   | (p, inl e) => raise e
   end) s1.
Proof. intros E. unfold handle_connection, ebind at 1. by rewrite (bind_ok _ _ _ _ _ E). Qed.

(** C6: the child ends. From any state in which it has a job, and whatever the
    client sends, it leaves with an exit code after a bounded number of rounds,
    and no assertion of its own fails: provided that the system settles. That is,
    after some time the compiler has closed its outputs, system calls are no
    longer interrupted, and the client, which brings finitely many messages, is
    not reported as ready when it is not. *)
Theorem connection_ends libcap_ng basedir job mem_limit uid gid s :
  answer_part s = (true, false) ->
  exists fuel code s', forall fuel', (fuel <= fuel')%nat ->
    handle_connection fuel' libcap_ng basedir job mem_limit uid gid s = Ok (inl (process_exit code), s').
Proof.
  intros Ha. destruct (serve_job_settles libcap_ng basedir job mem_limit uid gid s) as (f & r & s1 & E).
  pose proof (serve_job_answers _ _ _ _ _ _ _ _ Ha _ _ (E f (le_n f))) as (l & El & p & n & x & -> & _ & Hx).
  assert (forall f', (f <= f')%nat -> handle_connection f' libcap_ng basedir job mem_limit uid gid s =
      handle_connection f libcap_ng basedir job mem_limit uid gid s) as Hf.
  { intros f' Hle. by rewrite (handle_connection_eq _ _ _ _ _ _ _ _ _ _ (E f' Hle)),
      (handle_connection_eq _ _ _ _ _ _ _ _ _ _ (E f (le_n f))). }
  assert (exists r s', handle_connection f libcap_ng basedir job mem_limit uid gid s = Ok (r, s')) as (r & s' & Er).
  { rewrite (handle_connection_eq _ _ _ _ _ _ _ _ _ _ (E f (le_n f))).
    destruct x as [e|code]; [|apply returns_clean_up].
    destruct Hx as [(e' & [= <-] & (code & -> & _) & _)|Hx]; [apply returns_raise|].
    assert (exists code, e = myexception code /\ code <> 0) as (code & -> & Hc)
      by (inversion Hx; eexists; (split; [reflexivity|done])).
    rewrite (proj2 (Z.eqb_neq code 0)) by done. unfold require, set_stat, report. cbn [negb].
    assert (returns (_ ⇐ ok tt; _ ⇐ change (fun s => set_wk_stat (<[exit_code := u32 code]> (wk_stat s)) s);
      _ ⇐ (open ⇐ look wk_out_fd; stat ⇐ look wk_stat;
           _ ⇐ (if open : bool then note (Reported stat) else ok tt); change (set_wk_out_fd false));
      clean_up p code)) as Hr; [|apply Hr].
    pose proof (returns_clean_up p code). come_back. }
  destruct (handle_connection_outcome _ _ _ _ _ _ _ _ Ha _ _ Er) as (l' & _ & code & ? & ? & -> & _).
  exists f, code, s'. intros f' Hle. by rewrite Hf.
Qed.
End whole.

(** ** A sample *)

(** The client of a sample sends a chunk and the end; its connection counts the
    messages that are left. *)
Definition counted (n : nat) : MsgChannel :=
  mkMsgChannel (Z.of_nat n) 45 45 "client" 0 [] 128 0 0 [] 128 0 NEED_LEN 0 false false [] false
    (mkIo [] [] [] EAGAIN [] false).
Definition counting_channels : Channels := {|
  ch_send := fun _ _ c => Ok (true, c);
  ch_get := fun _ _ c => match Z.to_nat (c_fd c) with
                         | 2%nat => Ok (Some (chunk [x69; x6e; x74]), counted 1)
                         | 1%nat => Ok (Some EndMsg, counted 0)
                         | _ => Ok (None, c)
                         end;
  ch_read := fun c => Ok (true, c)
|}.

(** A machine on which the compiler is silent, and as ready as may be. *)
Definition ready_workplace : Workplace := {|
  w_pid := 7; w_pagesize := 4096; w_uid := fun _ => 65534;
  w_gid := fun _ => 65534; w_time := fun _ => (1000, 0);
  w_executable := fun _ _ => true; w_writable := fun _ _ => true; w_chdir := fun _ _ => true;
  w_chroot := fun _ _ => true; w_setgroups := fun _ => true; w_setgid := fun _ _ => true;
  w_setuid := fun _ _ => true; w_setrlimit := fun _ _ => true; w_mkdir := fun _ _ => Created;
  w_open_new := fun _ _ => Created; w_close := fun _ => true; w_mkdtemp := fun _ => inl "/tmp/icecc-x"%string;
  w_unlink := fun _ _ => true; w_rmdir := fun _ _ => true; w_tree := fun _ _ => Directory_node true No_entries;
  w_stat := fun _ _ => Some 3; w_open := fun _ _ => Some [Some [x41; x42; x43]];
  w_pipe := fun _ => true; w_fork := fun _ => true; w_exec := fun _ _ => true;
  w_poll := fun _ fds _ => if existsb (fun p => negb (bool_decide (p.1 = Client_fd))) fds
                           then Ready (fun _ => Z.lor POLLIN (Z.lor POLLOUT POLLHUP)) else Timed_out;
  w_write := fun _ bs => Written (Z.of_nat (length bs)); w_read := fun _ _ => Some [];
  w_wait := fun _ => Some (0, mkRusage (0, 0) (0, 0) 0 0 0);
  w_statfs := fun _ => Some (100000, 4096)
|}.

Lemma ready_settles : @Settling counting_channels ready_workplace 0 (fun c => Z.to_nat (c_fd c)).
Proof.
  split; cbn; try done.
  - intros c. destruct (Z.to_nat (c_fd c)) as [|[|[|n]]] eqn:E.
    + exists None, c. split; [done|]. lia.
    + exists (Some EndMsg), (counted 0). split; [done|]. cbn. split; [done|lia].
    + exists (Some (chunk [x69; x6e; x74])), (counted 1). split; [done|]. split; [by eexists|]. cbn. lia.
    + exists None, c. split; [done|]. lia.
  - intros t bs n [= <-]. lia.
  - intros t a b [= <- <-]. done.
  - intros t fds timeout. by destruct (existsb _ fds).
  - intros t fds Hin. assert (existsb (fun p : pipe_end * Z => negb (bool_decide (p.1 = Client_fd))) fds = true) as ->; [|done].
    apply existsb_exists. exists (Death_pipe, POLLIN). split; [by apply list_elem_of_In|done].
  - intros t fds timeout _. by destruct (existsb _ fds).
  - intros t fds timeout revents _. destruct (existsb _ fds) eqn:E; [|done]. intros [= <-].
    apply existsb_exists in E as ([e flags] & Hin & Hne). exists e, flags. apply list_elem_of_In in Hin.
    split; [done|]. split; [by destruct e|]. unfold pollfd_is_set. apply andb_true_iff. split.
    + apply bool_decide_eq_true, list_elem_of_In, in_map_iff. exists (e, flags). split; [done|]. by apply list_elem_of_In.
    + rewrite orb_true_r. done.
  - intros t bs _ Hbs. destruct bs; [done|]. cbn. lia.
Qed.

Lemma ready_rooted : @Rooted ready_workplace.
Proof. split; [done|]. by intros t name [= <-]. Qed.
Lemma counting_returns : @ChannelsReturn counting_channels.
Proof. intros m flags c. by do 2 eexists. Qed.

Definition counted_work : Work :=
  mkWork (counted 2) (mkCompileResultMsg 0 "" "" false false) (repeat 0 8) true 0 [].

Lemma connection_ends_witness :
  answer_part counted_work = (true, false) /\
  exists fuel code s', forall fuel', (fuel <= fuel')%nat ->
    @handle_connection counting_channels ready_workplace fuel' true "/base" remote_job 1000 65534 65534
      counted_work = Ok (inl (process_exit code), s').
Proof.
  split; [reflexivity|].
  exact (@connection_ends counting_channels counting_returns ready_workplace ready_rooted 0 _ ready_settles
    true "/base" remote_job 1000 65534 65534 counted_work eq_refl).
Defined.
