(* ===== verification/Exchange.v ===== *)
(** * A remote compilation, seen from both ends

    The client of RemoteBuild.v and the child of the daemon of Serve.v, with
    a connection between them: what the one is told is what the other one says,
    in order. *)

From Stdlib Require Import ZArith Lia.
From Stdlib Require Import Strings.Byte Strings.String.
From stdpp Require Import base tactics option list gmap strings pretty.
From S2P Require Import Prelude Effects ExitCode StdString MsgChannel CompileJob Msg MsgCodec Interface Transport ChannelImpl Client RemoteBuild ClientFacts FileTransfer RemoteFacts Worker WorkIt Serve WorkerFacts WorkItFacts ServeFacts Files.

#[local] Open Scope Z_scope.

(** ** The connection *)

(** The messages that could be sent. *)
Definition transmitted (l : list (Msg * bool)) : list Msg :=
  omap (fun mb => if mb.2 : bool then Some mb.1 else None) l.

(** The client's messages behind the job are those the child gets; those of the
    child are heard behind the ones of the daemon, which holds no result. Either
    side may leave some of them unread. [p] is the protocol. *)
Definition linked `{Compressors} (p : Z) (lb : list client_effect) (ls : list work_effect) : Prop :=
  (exists before job after,
     transmitted (said lb) = before ++ CompileFile job :: after /\ (forall j, CompileFile j ∉ before) /\
     got ls `prefix_of` map (wire_view p) after) /\
  (exists before messages,
     heard lb = map Some messages /\ (forall m, CompileResult m ∉ before) /\
     messages `prefix_of` before ++ map (wire_view p) (transmitted (told ls))).

(** ** Lists of messages *)

Lemma transmitted_app l l' : transmitted (l ++ l') = transmitted l ++ transmitted l'.
Proof. apply omap_app. Qed.

(** Chunks up to an end. *)
Lemma chunks_agree as_ bs x y :
  map FileChunk as_ ++ EndMsg :: x `prefix_of` map FileChunk bs ++ EndMsg :: y -> as_ = bs /\ x `prefix_of` y.
Proof.
  revert bs. induction as_ as [|a as_ IH]; intros [|b bs] Hp; cbn in Hp.
  - by apply prefix_cons_inv_2 in Hp.
  - by apply prefix_cons_inv_1 in Hp.
  - by apply prefix_cons_inv_1 in Hp.
  - pose proof (prefix_cons_inv_1 _ _ _ _ Hp) as [= ->]. apply prefix_cons_inv_2, IH in Hp as [-> ?]. done.
Qed.

(** The first message of a kind is in the same place in both lists. *)
Lemma first_agrees {A} (P : A -> Prop) (a : list A) x b c y d :
  P x -> P y -> (forall z, P z -> z ∉ a) -> (forall z, P z -> z ∉ c) -> a ++ x :: b = c ++ y :: d ->
  a = c /\ x = y /\ b = d.
Proof.
  intros Hx Hy. revert c. induction a as [|u a IH]; intros [|v c] Ha Hc E; injection E as E1 E2.
  - done.
  - subst v. destruct (Hc x Hx). by left.
  - subst u. destruct (Ha y Hy). by left.
  - subst v. destruct (IH c) as (-> & ? & ?); [| |done|done].
    + intros z Hz Hin. apply (Ha z Hz). by right.
    + intros z Hz Hin. apply (Hc z Hz). by right.
Qed.
Lemma behind {A} (P : A -> Prop) (a : list A) x b c d :
  P x -> (forall z, P z -> z ∉ c) -> a ++ x :: b `prefix_of` c ++ d ->
  exists a', a = c ++ a' /\ a' ++ x :: b `prefix_of` d.
Proof.
  intros Hx. revert c. induction a as [|u a IH]; intros [|v c] Hc [k E].
  - exists []. split; [done|]. by exists k.
  - injection E as -> _. destruct (Hc x Hx). by left.
  - exists (u :: a). split; [done|]. by exists k.
  - injection E as -> E. destruct (IH c) as (a' & -> & Hp).
    + intros z Hz Hin. apply (Hc z Hz). by right.
    + by exists k.
    + by exists a'.
Qed.

(** *** Messages that are no texts *)

Definition spoken (m : Msg) : bool := match m with StatusText _ => false | _ => true end.
Abbreviation messages_in l := (filter (fun m => spoken m = true) l).

Lemma prefix_filter (P : Msg -> Prop) `{!forall m, Decision (P m)} l l' : l `prefix_of` l' -> filter P l `prefix_of` filter P l'.
Proof. intros [k ->]. rewrite filter_app. by eexists. Qed.
Lemma spoken_view `{Compressors} p m : spoken (wire_view p m) = spoken m.
Proof. by destruct m. Qed.
Lemma messages_view `{Compressors} p l : messages_in (map (wire_view p) l) = map (wire_view p) (messages_in l).
Proof.
  induction l as [|m l IH]; [done|]. cbn [map]. rewrite !filter_cons, spoken_view.
  destruct (decide (spoken m = true)); cbn [map]; by rewrite IH.
Qed.
Lemma messages_all l : Forall (fun m => spoken m = true) l -> messages_in l = l.
Proof. induction 1 as [|m l Hm Hl IH]; [done|]. rewrite filter_cons_True by done. by rewrite IH. Qed.

Lemma told_decisions l : transmitted (told (decisions l)) = messages_in (transmitted (told l)).
Proof.
  induction l as [|e l IH]; [done|]. unfold decisions in *. rewrite filter_cons.
  destruct e as [m sent| | | | | | | | |]; try exact IH.
  change (told (Told m sent :: l)) with ((m, sent) :: told l). 
  destruct (decide (decisive (Told m sent) = true)) as [Hd|Hd].
  - change (told (Told m sent :: ?x)) with ((m, sent) :: told x). destruct sent; [|exact IH].
    change (transmitted ((m, true) :: ?x)) with (m :: transmitted x).
    rewrite filter_cons_True by by destruct m. by rewrite IH.
  - destruct sent; [|exact IH]. change (transmitted ((m, true) :: ?x)) with (m :: transmitted x).
    rewrite filter_cons_False; [exact IH|]. by destruct m.
Qed.

(** ** What was sent of a file *)

Definition chunk_of (bs : list byte) : FileChunkMsg := mkFileChunkMsg (Some bs) (Z.of_nat (length bs)) 0.

Lemma transmitted_pieces cs : transmitted (map (fun c => (chunk c, true)) cs) = map FileChunk (map chunk_of cs).
Proof. induction cs as [|c cs IH]; [done|]. cbn. f_equal. exact IH. Qed.
Lemma transmitted_chunks cs : transmitted (told (sent_chunks cs)) = map FileChunk (map chunk_of cs).
Proof. induction cs as [|c cs IH]; [done|]. cbn. f_equal. exact IH. Qed.

Section views.
Context `{Compressors} (p : Z).
Lemma views_of_chunks cs : map (wire_view p) (map FileChunk (map chunk_of cs))
  = map FileChunk (map (FileChunkMsg_view p) (map chunk_of cs)).
Proof. by rewrite !map_map. Qed.
Lemma payload_views cs : concat (map payload (map (FileChunkMsg_view p) (map chunk_of cs))) = concat cs.
Proof.
  rewrite !map_map. f_equal. rewrite <- (map_id cs) at 2. apply map_ext. intros c.
  unfold payload. cbn. by rewrite Nat2Z.id, firstn_all.
Qed.
End views.

(** ** The server *)

Section exchange.
Context `{Compressors} `{Channels} `{Workplace}.

Lemma whole_file_transmitted reads l : whole_file reads l ->
  exists cs, transmitted (told l) = map FileChunk (map chunk_of cs) ++ [EndMsg] /\ concat cs = file_data reads.
Proof.
  intros (cs & -> & Hcs & _). exists cs. split; [|done].
  by rewrite told_app, transmitted_app, transmitted_chunks.
Qed.
Lemma broken_file_transmitted l : broken_file l -> exists ms, transmitted (told l) = map FileChunk ms.
Proof.
  intros [Hl Hn]. induction Hl as [|e l He Hl IH]; [by exists []|].
  rewrite not_elem_of_cons in Hn. destruct Hn as [Hne Hn]. destruct (IH Hn) as [ms E].
  destruct e as [m sent| | | | | | | | |]; try done.
  change (told (Told m sent :: l)) with ((m, sent) :: told l). destruct sent; [|by exists ms].
  change (transmitted ((m, true) :: ?x)) with (m :: transmitted x). rewrite E.
  destruct m; try done. by exists (m :: ms).
Qed.

Lemma object_transmitted pl n l1 l2 : file_of n (obj_file pl) l1 ->
  exists t reads cs rest, (n <= t)%nat /\ w_open t (obj_file pl) = Some reads /\ concat cs = file_data reads /\
    transmitted (told (l1 ++ l2)) = map FileChunk (map chunk_of cs) ++ EndMsg :: rest.
Proof.
  intros (t & reads & Hn & Eo & Hw). apply whole_file_transmitted in Hw as (cs & E & Hcs).
  exists t, reads, cs, (transmitted (told l2)). split_and!; [done..|].
  by rewrite told_app, transmitted_app, E, <- app_assoc.
Qed.

(** What of the decisions gets to the client. *)
Lemma outcome_transmitted pl n code d : outcome pl n code d ->
  transmitted (told d) = [] \/
  exists res stat files, d = Told (CompileResult res) true :: Reported stat :: files /\
    transmitted (told d) = CompileResult res :: transmitted (told files) /\
    (cr_status res = 0 ->
     (exists t reads cs rest, (n <= t)%nat /\ w_open t (obj_file pl) = Some reads /\ concat cs = file_data reads /\
        transmitted (told files) = map FileChunk (map chunk_of cs) ++ EndMsg :: rest) \/
     exists ms, transmitted (told files) = map FileChunk ms).
Proof.
  intros [Hc|stat Hc|res stat Hc|res stat Hc Hne|res stat files Hs Hc Hf|res stat files Hs Hc Hf];
    try (by left); right; exists res, stat; eexists; (split; [done|]); (split; [done|]).
  - intros E. congruence.
  - intros _. left. destruct Hf as (l1 & l2 & -> & Hf & _). by apply object_transmitted.
  - intros _. destruct Hf as [Hb|(_ & l1 & l2 & -> & Hf & _)].
    + right. by apply broken_file_transmitted.
    + left. by apply object_transmitted.
Qed.

Lemma no_end ms ms' x : ~ map FileChunk ms ++ EndMsg :: x `prefix_of` map FileChunk ms'.
Proof.
  revert ms'. induction ms as [|m ms IH]; intros [|m' ms'] Hp; cbn in Hp.
  - by apply prefix_nil_not in Hp.
  - by apply prefix_cons_inv_1 in Hp.
  - by apply prefix_nil_not in Hp.
  - apply prefix_cons_inv_2 in Hp. by apply IH in Hp.
Qed.
Lemma spoken_chunks ms x : messages_in (map FileChunk ms ++ EndMsg :: x) = map FileChunk ms ++ EndMsg :: messages_in x.
Proof.
  rewrite filter_app, filter_cons_True, messages_all by done || (induction ms; by constructor). done.
Qed.

(** A client that has heard of a success, and then chunks up to an end, has got
    the object file. *)
Lemma reply_means_object p pl n code ls early m ms rest before :
  outcome pl n code (decisions ls) -> cr_status m = 0 ->
  (forall r, CompileResult r ∉ early) -> Forall (fun m => spoken m = true) early ->
  (forall r, CompileResult r ∉ before) ->
  early ++ CompileResult m :: map FileChunk ms ++ EndMsg :: rest `prefix_of`
    before ++ map (wire_view p) (transmitted (told ls)) ->
  exists res t reads, Told (CompileResult res) true ∈ ls /\ cr_status res = 0 /\
    (n <= t)%nat /\ w_open t (obj_file pl) = Some reads /\ concat (map payload ms) = file_data reads.
Proof.
  intros Ho Hm Hearly Hsp Hbefore Hp.
  apply (behind (fun m => exists r, m = CompileResult r)) in Hp as (a' & -> & Hp); [|by exists m|by intros z [r ->]].
  apply Forall_app in Hsp as [_ Hsp]. 
  apply (prefix_filter (fun m => spoken m = true)) in Hp.
  rewrite messages_view, <- told_decisions, filter_app, filter_cons_True, spoken_chunks in Hp by done.
  rewrite (messages_all a') in Hp by done.
  apply outcome_transmitted in Ho as [E|(res & stat & files & Ed & E & Hf)]; rewrite E in Hp.
  { cbn in Hp. apply prefix_nil_inv in Hp. by destruct a'. }
  destruct a' as [|x a']; cbn in Hp; cycle 1.
  { apply prefix_cons_inv_1 in Hp as ->. destruct (Hearly (CompileResultMsg_view p res)).
    apply elem_of_app. right. by left. }
  pose proof (prefix_cons_inv_1 _ _ _ _ Hp) as [= ->]. apply prefix_cons_inv_2 in Hp.
  cbn in Hm. assert (Told (CompileResult res) true ∈ ls) as Hin.
  { assert (Told (CompileResult res) true ∈ decisions ls) as Hd by (rewrite Ed; by left).
    by apply list_elem_of_filter in Hd as [_ Hd]. }
  destruct (Hf Hm) as [(t & reads & cs & rest' & Hn & Eo & Hcs & Et)|[ms' Et]]; rewrite Et in Hp.
  - rewrite map_app in Hp. cbn [map] in Hp. rewrite views_of_chunks in Hp.
    apply chunks_agree in Hp as [-> _]. exists res, t, reads. by rewrite payload_views.
  - assert (map (wire_view p) (map FileChunk ms') = map FileChunk (map (FileChunkMsg_view p) ms')) as Ev
      by by rewrite !map_map.
    rewrite Ev in Hp. by apply no_end in Hp.
Qed.

(** ** The client *)

Section client.
Context `{Host}.

Lemma environment_silent usecs file job l h : environment_said usecs file job l h ->
  (forall j, CompileFile j ∉ transmitted l) /\
  exists early, h = map Some early /\ (forall r, CompileResult r ∉ early) /\ Forall (fun m => spoken m = true) early.
Proof.
  unfold environment_said. intros He. case_hyp He; cycle 1.
  { destruct He as [-> ->]. split; [intros j; apply not_elem_of_nil|]. exists []. by split; [|split; [intros r; apply not_elem_of_nil|]]. }
  destruct He as (t & reads & _ & chunks & (cs & -> & _ & _) & Hl).
  assert (forall rest, (forall j, CompileFile j ∉ transmitted rest) -> forall j, CompileFile j ∉ transmitted
    ((EnvTransfer (mkEnvTransferMsg (j_environment_version job) (j_target_platform job)), true)
      :: map (fun c => (chunk c, true)) cs ++ rest)) as Hr.
  { intros rest Hrest j Hin. change (transmitted ((?m, true) :: ?x)) with (m :: transmitted x) in Hin.
    rewrite elem_of_cons, transmitted_app, elem_of_app, transmitted_pieces in Hin.
    destruct Hin as [[=]|[Hin|Hin]]; [|by apply Hrest in Hin].
    rewrite map_map in Hin. apply list_elem_of_fmap in Hin as (c & [=] & _). }
  destruct Hl as [[-> ->]|[-> ->]]; (split; [apply Hr|]).
  - intros j Hin. apply list_elem_of_singleton in Hin. discriminate Hin.
  - exists []. by split; [|split; [intros r; apply not_elem_of_nil|]].
  - intros j. cbn. rewrite !elem_of_cons. intros [[=]|[[=]|Hin]]. by apply not_elem_of_nil in Hin.
  - exists [VerifyEnvResult true]. split; [done|]. split; [|by repeat constructor].
    intros r Hin. apply list_elem_of_singleton in Hin. discriminate Hin.
Qed.
End client.

(** ** Both *)

Section both.
Context `{Host}.
Context (explicit_color explicit_no_caret : bool).

(** The source that was sent, and the source the compiler got. *)
Lemma request_agrees p usecs version_file job env_said env_heard job' src data lb ls before j after chunks :
  environment_said usecs version_file job env_said env_heard -> pieces_of data src ->
  said lb = env_said ++ (CompileFile job', true) :: src ++ [(EndMsg, true)] ->
  transmitted (said lb) = before ++ CompileFile j :: after -> (forall j, CompileFile j ∉ before) ->
  got ls `prefix_of` map (wire_view p) after -> got ls = map FileChunk chunks ++ [EndMsg] ->
  source ls = data.
Proof.
  intros He (cs & -> & <- & _) Es Eb Hb Hg Eg. apply environment_silent in He as [He _].
  rewrite Es, transmitted_app in Eb.
  change (transmitted ((?m, true) :: ?x)) with (m :: transmitted x) in Eb.
  rewrite transmitted_app, transmitted_pieces in Eb.
  apply (first_agrees (fun m => exists j, m = CompileFile j)) in Eb as (_ & _ & <-);
    [|by eexists|by eexists|by intros z [j' ->]|by intros z [j' ->]].
  rewrite Eg in Hg. rewrite map_app, views_of_chunks in Hg. apply chunks_agree in Hg as [-> _].
  unfold source, source_chunks. rewrite Eg, omap_app, app_nil_r.
  rewrite <- (payload_views p cs). f_equal. f_equal.
  clear Eg. induction (map _ (map chunk_of cs)) as [|c l IH]; [done|]. cbn. f_equal. exact IH.
Qed.

(** C3: a remote compilation. Where a client ends with the status 0 after talking
    to the child of a daemon, over a connection that keeps the messages and
    their order, its output file is, byte for byte, the object file of the job on
    the server (or the file without a name, where none could be made there); and
    unless the result notes that memory was short, the compiler was started on the
    server, to write just this object file, it had ended with the exit code 0
    before the file was opened, and, if it was not sent a signal, it has read the
    source the client has preprocessed, byte for byte. *)
Theorem remote_compilation p usecs environment version_file preproc_file output b b' lb
    fuel libcap_ng basedir job mem_limit uid gid s r s' ls :
  own_dwo (j_output_file (bd_job b)) ->
  build_remote_int explicit_color explicit_no_caret usecs environment version_file preproc_file output b
    = Ok (inr 0, b') -> bd_effects b' = bd_effects b ++ lb ->
  answer_part s = (true, false) -> (forall t bs n, w_write t bs = Written n -> 0 <= n) ->
  handle_connection fuel libcap_ng basedir job mem_limit uid gid s = Ok (r, s') ->
  wk_effects s' = wk_effects s ++ ls ->
  linked p lb ls ->
  exists res places n t reads,
    Told (CompileResult res) true ∈ ls /\ places_of job places /\
    (n <= t)%nat /\ w_open t (obj_file places) = Some reads /\
    bd_files b' !! j_output_file (bd_job b) = Some (file_data reads) /\
    (cr_was_out_of_memory res = false -> object_compiled job places n ls /\
       exists data, source_of preproc_file data /\ (Terminated ∉ ls -> fed ls = data)).
Proof.
  intros Hown Eb Elb Ha Hcount Es Els [(before & j & after & Er & Hb & Hg) (before' & messages & Eh & Hb' & Hm)].
  destruct (remote_conversation_says explicit_color explicit_no_caret usecs environment version_file preproc_file output b 0 b' Hown Eb)
    as (lb' & Elb' & [Hconv|[Hne _]]); [|done]. rewrite Elb in Elb'. apply app_inv_head in Elb' as <-.
  destruct (handle_connection_outcome _ _ _ _ _ _ _ _ Ha _ _ Es) as (ls' & Els' & code & pl & n & _ & Ho & Hpl & Hgood).
  rewrite Els in Els'. apply app_inv_head in Els' as <-.
  destruct Hconv as (job' & env_said & env_heard & data & src & m & h & He & _ & Hsrc & Hp & Esaid & Eheard & Hst & Hout).
  unfold output_received in Hout. cbn [Z.eqb] in Hout. destruct Hout as (chunks & rest & -> & Ef).
  destruct (environment_silent _ _ _ _ _ He) as [_ (early & -> & Hearly & Hsp)].
  rewrite Eheard in Eh. assert (messages = early ++ CompileResult m :: map FileChunk chunks ++ EndMsg :: omap id rest) as ->.
  { apply (f_equal (omap id)) in Eh. rewrite !omap_app in Eh. cbn in Eh. rewrite omap_app in Eh. cbn in Eh.
    assert (forall l : list Msg, omap id (map Some l) = l) as Hid by (intros l; induction l as [|x l IH]; [done|]; cbn; by rewrite IH).
    rewrite !Hid in Eh. rewrite <- Eh. do 3 f_equal. rewrite <- (Hid (map FileChunk chunks)). by rewrite map_map. }
  destruct (reply_means_object _ _ _ _ _ _ _ _ _ _ Ho Hst Hearly Hsp Hb' Hm) as (res & t & reads & Hin & Hres & Hn & Eo & Hd).
  exists res, pl, n, t, reads. do 4 (split; [done|]). split; [by rewrite <- Hd|].
  intros Hmem. destruct (Hgood ltac:(by exists res, true)) as [Hc Hdel]. split; [done|].
  exists data. split; [done|]. intros Ht. destruct (Hdel Hcount) as [_ Hz].
  destruct (Hz eq_refl) as (cs & Eg & Hfed). rewrite (Hfed Ht).
  by eapply request_agrees.
Qed.
End both.
End exchange.

(** ** A sample *)

#[local] Existing Instances store_compressors client_channels.

(** The client's server answers what the child in the sample does. *)
Definition answering_host : Host :=
  host_with [CompileResult object_result; chunk [x41; x42; x43]; EndMsg] [Some [x69; x6e; x74]].
Definition asking_client : list Msg := [chunk [x69; x6e; x74]; EndMsg].
Abbreviation building := (@build_remote_int client_channels answering_host false false sample_usecs
  "gcc" "/envs/gcc.tar.gz" None true client_at_start).
Abbreviation answering := (@handle_connection client_channels (workplace_with true 0) 10 true "/base"
  remote_job 1000 65534 65534 (work_with asking_client)).

Definition client_news : list client_effect :=
  match building with Ok (inr 0, s') => bd_effects s' | _ => [] end.
Definition server_news : list work_effect := match answering with Ok (_, s') => wk_effects s' | _ => [] end.

Lemma building_returns : exists s', building = Ok (inr 0, s') /\ bd_effects s' = client_news.
Proof.
  unfold client_news.
  assert (match building with Ok (inr c, _) => c =? 0 | _ => false end = true) as E by (vm_compute; reflexivity).
  revert E. generalize building as r. intros [[[e|c] s']|f] E; try discriminate E.
  apply Z.eqb_eq in E as ->. by exists s'.
Qed.
Lemma answering_returns : exists r s', answering = Ok (r, s') /\ wk_effects s' = server_news.
Proof.
  unfold server_news.
  assert (match answering with Ok _ => true | _ => false end = true) as E by (vm_compute; reflexivity).
  revert E. generalize answering as x. intros [[r s']|f] E; [by exists r, s'|discriminate E].
Qed.

(** The job as the client sends it *)
Definition asked_job : CompileJob :=
  match transmitted (said client_news) with CompileFile j :: _ => j | _ => remote_job end.
Definition answers : list Msg := omap id (heard client_news).

Lemma news_linked : linked 45 client_news server_news.
Proof.
  split.
  - exists [], asked_job, asking_client. split; [vm_compute; reflexivity|]. split; [intros j; apply not_elem_of_nil|].
    exists []. vm_compute. reflexivity.
  - exists [], answers. split; [vm_compute; reflexivity|]. split; [intros m; apply not_elem_of_nil|].
    exists []. vm_compute. reflexivity.
Qed.

Definition client_output : option (list byte) :=
  match building with Ok (inr 0, s') => bd_files s' !! "a.o"%string | _ => None end.

Lemma remote_compilation_witness :
  client_output = Some [x41; x42; x43] /\ fed server_news = [x69; x6e; x74] /\
  linked 45 client_news server_news /\
  exists b' res places n t reads, building = Ok (inr 0, b') /\ Told (CompileResult res) true ∈ server_news /\
    @places_of (workplace_with true 0) remote_job places /\ (n <= t)%nat /\
    @w_open (workplace_with true 0) t (obj_file places) = Some reads /\
    bd_files b' !! "a.o"%string = Some (file_data reads) /\
    (cr_was_out_of_memory res = false -> @object_compiled (workplace_with true 0) remote_job places n server_news /\
       exists data, @source_of answering_host None data /\ (Terminated ∉ server_news -> fed server_news = data)).
Proof.
  split; [vm_compute; reflexivity|]. split; [vm_compute; reflexivity|]. split; [exact news_linked|].
  destruct building_returns as (b' & Eb & Elb), answering_returns as (r & s' & Es & Els). exists b'.
  destruct (@remote_compilation store_compressors client_channels (workplace_with true 0) answering_host false false 45
    sample_usecs "gcc" "/envs/gcc.tar.gz" None true client_at_start b' client_news 10 true "/base" remote_job 1000
    65534 65534 (work_with asking_client) r s' server_news) as (res & pl & n & t & reads & Hx).
  - split; vm_compute; discriminate.
  - exact Eb.
  - exact Elb.
  - reflexivity.
  - exact (workplace_counts true 0).
  - exact Es.
  - exact Els.
  - exact news_linked.
  - exists res, pl, n, t, reads. split; [exact Eb|exact Hx].
Defined.
