(* ===== verification/Load.v ===== *)
(** * The load of a machine (daemon/load.cpp)

    What the daemon reads in /proc/stat and /proc/meminfo, on Linux, and the
    numbers it makes of them. The contents of the files are arguments, [None]
    when they cannot be opened or read. [getloadavg] and [exp] are arguments,
    too. *)

From Stdlib Require Import ZArith Lia.
From Stdlib Require Import Strings.Byte Strings.String.
From stdpp Require Import base tactics option list strings.
From S2P Require Import Prelude StdString Float Msg.

#[local] Open Scope Z_scope.

(** ** [sscanf] *)

Fixpoint skip_word (l : list byte) : list byte :=
  match l with
  | b :: l' => if is_space b then l else skip_word l'
  | [] => []
  end.
Fixpoint skip_digits (l : list byte) : list byte :=
  match l with
  | b :: l' => match digit b with Some _ => skip_digits l' | None => l end
  | [] => []
  end.

(** A sign, if there is one: whether it is a minus. *)
Definition scan_sign (l : list byte) : bool * list byte :=
  match l with
  | b :: l' => if decide (b = x2d) then (true, l') else if decide (b = x2b) then (false, l') else (false, l)
  | [] => (false, [])
  end.
(** [%llu]: the number, and what follows. *)
Definition scan_ull (l : list byte) : option (Z * list byte) :=
  let '(minus, l) := scan_sign (skip_spaces l) in
  match l with
  | b :: _ =>
      match digit b with
      | Some _ =>
          let v := Z.min (digits_value 0 l) (2 ^ 64 - 1) in
          Some (if minus : bool then u64 (- v) else v, skip_digits l)
      | None => None
      end
  | [] => None
  end.
(** The first [n] of them, up to one that fails. *)
Fixpoint scan_ulls (n : nat) (l : list byte) : list Z :=
  match n with
  | O => []
  | S n => match scan_ull l with Some (v, l) => v :: scan_ulls n l | None => [] end
  end.

(** What [read] of 255 bytes leaves in the buffer, as a C string. *)
Definition in_buffer (l : list byte) : list byte := default [] (c_string (take 255 l ++ [x00])).
Definition too_short (l : list byte) : bool := (length (take 255 l) <? 20)%nat.

(** ** The processor *)

(** The tick counters of the kernel. *)
Record Ticks : Type := mkTicks {
  userTicks : Z;
  niceTicks : Z;
  sysTicks : Z;
  idleTicks : Z;
  waitTicks : Z
}.
(** Loads are in thousandths. *)
Record CPULoadInfo : Type := mkCPULoadInfo {
  userLoad : Z;
  niceLoad : Z;
  sysLoad : Z;
  idleLoad : Z;
  ticks : Ticks
}.
Definition new_CPULoadInfo : CPULoadInfo := mkCPULoadInfo 0 0 0 0 (mkTicks 0 0 0 0 0).

(** [sscanf(buf, "%*s %llu %llu %llu %llu %llu", ...)]; the fifth counter is 0
    where it is missing, the others are not initialised. *)
Definition scan_ticks (buf : list byte) : option Ticks :=
  match scan_ulls 5 (skip_word (skip_spaces buf)) with
  | [user; nice; sys; idle] => Some (mkTicks user nice sys idle 0)
  | [user; nice; sys; idle; wait] => Some (mkTicks user nice sys idle wait)
  | _ => None
  end.

Definition totalTicks (curr prev : Ticks) : Z :=
  u64 (u64 (userTicks curr - userTicks prev) + u64 (sysTicks curr - sysTicks prev)
       + u64 (niceTicks curr - niceTicks prev) + u64 (idleTicks curr - idleTicks prev)
       + u64 (waitTicks curr - waitTicks prev)).
Definition load_of (curr prev total : Z) : Z := i32 (u64 (1000 * u64 (curr - prev)) / total).

Definition account (curr : Ticks) (load : CPULoadInfo) : CPULoadInfo :=
  let prev := ticks load in
  let total := totalTicks curr prev in
  if 10 <? total then
    mkCPULoadInfo (load_of (userTicks curr) (userTicks prev) total)
      (load_of (niceTicks curr) (niceTicks prev) total)
      (load_of (sysTicks curr) (sysTicks prev) total)
      (load_of (idleTicks curr) (idleTicks prev) total) curr
  else mkCPULoadInfo 0 0 0 1000 curr.

Definition updateCPULoad (stat : option (list byte)) (load : CPULoadInfo) : res CPULoadInfo :=
  match stat with
  | None => Ok load
  | Some l =>
      if too_short l then Ok load
      else match scan_ticks (in_buffer l) with
           | Some curr => Ok (account curr load)
           | None => Fault UninitRead
           end
  end.

(** ** Memory *)

(** [sscanf(b + strlen(key), ": %lu", &val)] at the first occurrence. *)
Definition scan_one (buff key : list byte) : Z :=
  let b := bfind key buff in
  if b =? npos then 0
  else match drop (Z.to_nat b + length key) buff with
       | x3a :: l => match scan_ull l with Some (val, _) => val | None => 0 end
       | _ => 0
       end.

(** A hundredth of the memory is kept for buffers, and for the cache. *)
Definition spare (total v : Z) : Z := if total / 100 <? v then v - total / 100 else v / 2.

(** The load and [NetMemFree], which is 0 before. *)
Definition calculateMemLoad (meminfo : option (list byte)) : Z * Z :=
  match meminfo with
  | None => (0, 0)
  | Some l =>
      if too_short l then (0, 0)
      else
        let buf := in_buffer l in
        let MemTotal := scan_one buf (bytes_of "MemTotal") in
        let MemFree := scan_one buf (bytes_of "MemFree") in
        let Buffers := scan_one buf (bytes_of "Buffers") in
        let Cached := scan_one buf (bytes_of "Cached") in
        if MemTotal =? 0 then (0, 0)
        else
          let NetMemFree := u64 (MemFree + spare MemTotal Cached + spare MemTotal Buffers) in
          (u32 (1000 - u64 (NetMemFree * 1000) / MemTotal), NetMemFree)
  end.

(** ** Load averages *)

Section fake.
Context (exp : float -> float).

Definition compute_load (oldVal : float) (currentJobs rate : Z) (delta_t : float) : float :=
  let weight := fdiv64 (f64_of_Z 1) (exp (fdiv64 delta_t (f64_of_Z rate))) in
  fadd64 (fmul64 oldVal weight) (fmul64 (f64_of_Z currentJobs) (fsub64 (f64_of_Z 1) weight)).

Record fake_load : Type := mkFakeLoad { loads : list float; lastUpdate : float }.
Definition rates : list Z := [60; 300; 900].

(** [loads[l] = compute_load(loads[0], ...)], in turn. *)
Fixpoint update_loads (i : nat) (rs : list Z) (currentJobs : Z) (delta_t : float) (l : list float)
  : list float :=
  match rs with
  | [] => l
  | rate :: rs =>
      update_loads (S i) rs currentJobs delta_t
        (<[i := compute_load (default (f64_of_Z 0) (l !! 0%nat)) currentJobs rate delta_t]> l)
  end.

(** [now] is the time of the system clock. *)
Definition fakeloadavg (now : float) (resultEntries currentJobs : Z) (s : fake_load)
  : list float * fake_load :=
  let d := fsub64 now (lastUpdate s) in
  let delta_t := if flt d (f64_of_Z 0) then f64_of_Z 0 else d in
  let l := update_loads 0 rates currentJobs delta_t (loads s) in
  (take (Z.to_nat (Z.min (Z.max resultEntries 0) 3)) l, mkFakeLoad l now).
End fake.

(** ** [fill_stats] *)

(** [(load_t) (avg * 1000)] as a 32-bit field of the message. *)
Definition load_average (avg : float) : option Z := u32 <$> f64_to_ulong (fmul64 avg (f64_of_Z 1000)).
(** [(load_t) (MemFree / 1024.0 + 0.5)] *)
Definition free_mebibytes (MemFree : Z) : option Z :=
  u32 <$> f64_to_ulong (fadd64 (fdiv64 (f64_of_Z MemFree) (f64_of_Z 1024)) (f64_lit 5 10)).

(** With a message to fill: the idle and the nice load, the load of the memory,
    the message, and the new state. [avg] is what [getloadavg] stores, [None]
    when it fails. *)
Definition fill_stats (stat meminfo : option (list byte)) (avg : option (float * float * float))
    (load : CPULoadInfo) : res (Z * Z * Z * StatsMsg * CPULoadInfo) :=
  match updateCPULoad stat load with
  | Fault f => Fault f
  | Ok load =>
      let '(memory_fillgrade, MemFree) := calculateMemLoad meminfo in
      match avg with
      | None => Fault UninitRead
      | Some (a1, a5, a10) =>
          match load_average a1, load_average a5, load_average a10, free_mebibytes MemFree with
          | Some l1, Some l5, Some l10, Some free =>
              Ok (u64 (idleLoad load), u64 (niceLoad load), memory_fillgrade,
                  mkStatsMsg 0 l1 l5 l10 free 0, load)
          | _, _, _, _ => Fault BadCast
          end
      end
  end.
