(* ===== verification/DaemonState.v ===== *)
(** * The daemon's state (daemon/main.cpp)

    The clients of a daemon, its environments, its counters, and what it asks
    the system for. A client lives on a heap; a pointer to one that was deleted
    is the fault [UseAfterFree]. *)

From Stdlib Require Import ZArith Lia.
From Stdlib Require Import Strings.Byte Strings.String.
From stdpp Require Import base tactics option list gmap strings.
From S2P Require Import Prelude MsgChannel CompileJob Msg Interface.

#[local] Open Scope Z_scope.

(** ** Clients *)

Inductive Status : Type :=
| UNKNOWN | GOTNATIVE | PENDING_USE_CS | JOBDONE | LINKJOB | TOINSTALL | WAITINSTALL | TOCOMPILE
| WAITFORCS | WAITCOMPILE | CLIENTWORK | WAITFORCHILD | WAITCREATEENV.
#[export] Instance Status_eq_dec : EqDecision Status.
Proof. solve_decision. Defined.

(** [cl_chan] is the address of the channel, the key of the client in
    [Clients]; [cl_channel] is the channel itself, which the client owns. *)
Record Client : Type := mkClient {
  cl_status : Status;
  cl_job_id : Z;
  cl_outfile : string;
  cl_chan : Z;
  cl_channel : MsgChannel;
  cl_usecsmsg : option UseCSMsg;
  cl_job : option CompileJob;
  cl_client_id : Z;
  cl_niceness : Z;
  cl_pipe_from_child : Z;
  cl_pipe_to_child : Z;
  cl_child_pid : Z;
  cl_fulljob : bool;
  cl_pending_create_env : string
}.

Definition set_cl_status (v : Status) (r : Client) : Client :=
  mkClient v (r.(cl_job_id)) (r.(cl_outfile)) (r.(cl_chan)) (r.(cl_channel))
    (r.(cl_usecsmsg)) (r.(cl_job)) (r.(cl_client_id)) (r.(cl_niceness))
    (r.(cl_pipe_from_child)) (r.(cl_pipe_to_child)) (r.(cl_child_pid))
    (r.(cl_fulljob)) (r.(cl_pending_create_env)).
Definition set_cl_job_id (v : Z) (r : Client) : Client :=
  mkClient (r.(cl_status)) v (r.(cl_outfile)) (r.(cl_chan)) (r.(cl_channel))
    (r.(cl_usecsmsg)) (r.(cl_job)) (r.(cl_client_id)) (r.(cl_niceness))
    (r.(cl_pipe_from_child)) (r.(cl_pipe_to_child)) (r.(cl_child_pid))
    (r.(cl_fulljob)) (r.(cl_pending_create_env)).
Definition set_cl_outfile (v : string) (r : Client) : Client :=
  mkClient (r.(cl_status)) (r.(cl_job_id)) v (r.(cl_chan)) (r.(cl_channel))
    (r.(cl_usecsmsg)) (r.(cl_job)) (r.(cl_client_id)) (r.(cl_niceness))
    (r.(cl_pipe_from_child)) (r.(cl_pipe_to_child)) (r.(cl_child_pid))
    (r.(cl_fulljob)) (r.(cl_pending_create_env)).
Definition set_cl_chan (v : Z) (r : Client) : Client :=
  mkClient (r.(cl_status)) (r.(cl_job_id)) (r.(cl_outfile)) v
    (r.(cl_channel)) (r.(cl_usecsmsg)) (r.(cl_job)) (r.(cl_client_id))
    (r.(cl_niceness)) (r.(cl_pipe_from_child)) (r.(cl_pipe_to_child))
    (r.(cl_child_pid)) (r.(cl_fulljob)) (r.(cl_pending_create_env)).
Definition set_cl_channel (v : MsgChannel) (r : Client) : Client :=
  mkClient (r.(cl_status)) (r.(cl_job_id)) (r.(cl_outfile)) (r.(cl_chan)) v
    (r.(cl_usecsmsg)) (r.(cl_job)) (r.(cl_client_id)) (r.(cl_niceness))
    (r.(cl_pipe_from_child)) (r.(cl_pipe_to_child)) (r.(cl_child_pid))
    (r.(cl_fulljob)) (r.(cl_pending_create_env)).
Definition set_cl_usecsmsg (v : option UseCSMsg) (r : Client) : Client :=
  mkClient (r.(cl_status)) (r.(cl_job_id)) (r.(cl_outfile)) (r.(cl_chan))
    (r.(cl_channel)) v (r.(cl_job)) (r.(cl_client_id)) (r.(cl_niceness))
    (r.(cl_pipe_from_child)) (r.(cl_pipe_to_child)) (r.(cl_child_pid))
    (r.(cl_fulljob)) (r.(cl_pending_create_env)).
Definition set_cl_job (v : option CompileJob) (r : Client) : Client :=
  mkClient (r.(cl_status)) (r.(cl_job_id)) (r.(cl_outfile)) (r.(cl_chan))
    (r.(cl_channel)) (r.(cl_usecsmsg)) v (r.(cl_client_id)) (r.(cl_niceness))
    (r.(cl_pipe_from_child)) (r.(cl_pipe_to_child)) (r.(cl_child_pid))
    (r.(cl_fulljob)) (r.(cl_pending_create_env)).
Definition set_cl_client_id (v : Z) (r : Client) : Client :=
  mkClient (r.(cl_status)) (r.(cl_job_id)) (r.(cl_outfile)) (r.(cl_chan))
    (r.(cl_channel)) (r.(cl_usecsmsg)) (r.(cl_job)) v (r.(cl_niceness))
    (r.(cl_pipe_from_child)) (r.(cl_pipe_to_child)) (r.(cl_child_pid))
    (r.(cl_fulljob)) (r.(cl_pending_create_env)).
Definition set_cl_niceness (v : Z) (r : Client) : Client :=
  mkClient (r.(cl_status)) (r.(cl_job_id)) (r.(cl_outfile)) (r.(cl_chan))
    (r.(cl_channel)) (r.(cl_usecsmsg)) (r.(cl_job)) (r.(cl_client_id)) v
    (r.(cl_pipe_from_child)) (r.(cl_pipe_to_child)) (r.(cl_child_pid))
    (r.(cl_fulljob)) (r.(cl_pending_create_env)).
Definition set_cl_pipe_from_child (v : Z) (r : Client) : Client :=
  mkClient (r.(cl_status)) (r.(cl_job_id)) (r.(cl_outfile)) (r.(cl_chan))
    (r.(cl_channel)) (r.(cl_usecsmsg)) (r.(cl_job)) (r.(cl_client_id))
    (r.(cl_niceness)) v (r.(cl_pipe_to_child)) (r.(cl_child_pid))
    (r.(cl_fulljob)) (r.(cl_pending_create_env)).
Definition set_cl_pipe_to_child (v : Z) (r : Client) : Client :=
  mkClient (r.(cl_status)) (r.(cl_job_id)) (r.(cl_outfile)) (r.(cl_chan))
    (r.(cl_channel)) (r.(cl_usecsmsg)) (r.(cl_job)) (r.(cl_client_id))
    (r.(cl_niceness)) (r.(cl_pipe_from_child)) v (r.(cl_child_pid))
    (r.(cl_fulljob)) (r.(cl_pending_create_env)).
Definition set_cl_child_pid (v : Z) (r : Client) : Client :=
  mkClient (r.(cl_status)) (r.(cl_job_id)) (r.(cl_outfile)) (r.(cl_chan))
    (r.(cl_channel)) (r.(cl_usecsmsg)) (r.(cl_job)) (r.(cl_client_id))
    (r.(cl_niceness)) (r.(cl_pipe_from_child)) (r.(cl_pipe_to_child)) v
    (r.(cl_fulljob)) (r.(cl_pending_create_env)).
Definition set_cl_fulljob (v : bool) (r : Client) : Client :=
  mkClient (r.(cl_status)) (r.(cl_job_id)) (r.(cl_outfile)) (r.(cl_chan))
    (r.(cl_channel)) (r.(cl_usecsmsg)) (r.(cl_job)) (r.(cl_client_id))
    (r.(cl_niceness)) (r.(cl_pipe_from_child)) (r.(cl_pipe_to_child))
    (r.(cl_child_pid)) v (r.(cl_pending_create_env)).
Definition set_cl_pending_create_env (v : string) (r : Client) : Client :=
  mkClient (r.(cl_status)) (r.(cl_job_id)) (r.(cl_outfile)) (r.(cl_chan))
    (r.(cl_channel)) (r.(cl_usecsmsg)) (r.(cl_job)) (r.(cl_client_id))
    (r.(cl_niceness)) (r.(cl_pipe_from_child)) (r.(cl_pipe_to_child))
    (r.(cl_child_pid)) (r.(cl_fulljob)) v.

(** [new Client], once it has its id and its channel. *)
Definition new_Client (id chan : Z) (c : MsgChannel) : Client :=
  mkClient UNKNOWN 0 "" chan c None None id 0 (-1) (-1) (-1) false "".

(** ** Environments *)

Record NativeEnvironment : Type := mkNativeEnvironment {
  ne_name : string;
  ne_filetimes : gmap string Z;
  ne_last_use : Z;
  ne_size : Z;
  ne_create_env_pipe : Z
}.

Definition set_ne_name (v : string) (r : NativeEnvironment) : NativeEnvironment :=
  mkNativeEnvironment v (r.(ne_filetimes)) (r.(ne_last_use)) (r.(ne_size))
    (r.(ne_create_env_pipe)).
Definition set_ne_filetimes (v : gmap string Z) (r : NativeEnvironment) : NativeEnvironment :=
  mkNativeEnvironment (r.(ne_name)) v (r.(ne_last_use)) (r.(ne_size))
    (r.(ne_create_env_pipe)).
Definition set_ne_last_use (v : Z) (r : NativeEnvironment) : NativeEnvironment :=
  mkNativeEnvironment (r.(ne_name)) (r.(ne_filetimes)) v (r.(ne_size))
    (r.(ne_create_env_pipe)).
Definition set_ne_size (v : Z) (r : NativeEnvironment) : NativeEnvironment :=
  mkNativeEnvironment (r.(ne_name)) (r.(ne_filetimes)) (r.(ne_last_use)) v
    (r.(ne_create_env_pipe)).
Definition set_ne_create_env_pipe (v : Z) (r : NativeEnvironment) : NativeEnvironment :=
  mkNativeEnvironment (r.(ne_name)) (r.(ne_filetimes)) (r.(ne_last_use))
    (r.(ne_size)) v.

Record ReceivedEnvironment : Type := mkReceivedEnvironment {
  re_last_use : Z;
  re_size : Z
}.

Definition set_re_last_use (v : Z) (r : ReceivedEnvironment) : ReceivedEnvironment :=
  mkReceivedEnvironment v (r.(re_size)).
Definition set_re_size (v : Z) (r : ReceivedEnvironment) : ReceivedEnvironment :=
  mkReceivedEnvironment (r.(re_last_use)) v.

Definition new_NativeEnvironment : NativeEnvironment := mkNativeEnvironment "" ∅ 0 0 0.
Definition new_ReceivedEnvironment : ReceivedEnvironment := mkReceivedEnvironment 0 0.

(** ** The state

    The members of [Daemon] that change, the global variables [last_stat] and
    [mem_limit], a counter of the questions put to the system, and the list of
    what was done to it. [d_discover] tells whether [discover] is not null. *)

(** What the daemon does to the system. *)
Inductive effect : Type :=
| Closed (fd : Z)
| Killed (pid : Z)
| Reaped (pid : Z)
| RemovedTree (path : string)
| RemovedDir (path : string)
| Unlinked (path : string).

Record Daemon : Type := mkDaemon {
  d_heap : gmap positive Client;
  d_clients : gmap Z positive;
  d_active_processes : Z;
  d_received : gmap string ReceivedEnvironment;
  d_native : gmap string NativeEnvironment;
  d_cache_size : Z;
  d_fd2client : gmap Z positive;
  d_new_client_id : Z;
  d_nodename : string;
  d_remote_name : string;
  d_next_scheduler_connect : Z;
  d_icecream_load : Z;
  d_icecream_usage : Z * Z;
  d_current_load : Z;
  d_scheduler : option MsgChannel;
  d_discover : bool;
  d_max_scheduler_pong : Z;
  d_max_scheduler_ping : Z;
  d_current_kids : Z;
  d_last_stat : Z * Z;
  d_mem_limit : Z;
  d_asked : nat;
  d_effects : list effect
}.

(** [Daemon()], with the initial values of the global variables. *)
Definition new_Daemon (slow_network : bool) : Daemon :=
  mkDaemon ∅ ∅ 0 ∅ ∅ 0 ∅ 0 "" "" 0 0 (0, 0) (-1000) None false
    (MAX_SCHEDULER_PONG slow_network) (MAX_SCHEDULER_PING slow_network) 0 (0, 0) 100 0 [].

Definition set_d_heap (v : gmap positive Client) (r : Daemon) : Daemon :=
  mkDaemon v (r.(d_clients)) (r.(d_active_processes)) (r.(d_received))
    (r.(d_native)) (r.(d_cache_size)) (r.(d_fd2client)) (r.(d_new_client_id))
    (r.(d_nodename)) (r.(d_remote_name)) (r.(d_next_scheduler_connect))
    (r.(d_icecream_load)) (r.(d_icecream_usage)) (r.(d_current_load))
    (r.(d_scheduler)) (r.(d_discover)) (r.(d_max_scheduler_pong))
    (r.(d_max_scheduler_ping)) (r.(d_current_kids)) (r.(d_last_stat))
    (r.(d_mem_limit)) (r.(d_asked)) (r.(d_effects)).
Definition set_d_clients (v : gmap Z positive) (r : Daemon) : Daemon :=
  mkDaemon (r.(d_heap)) v (r.(d_active_processes)) (r.(d_received))
    (r.(d_native)) (r.(d_cache_size)) (r.(d_fd2client)) (r.(d_new_client_id))
    (r.(d_nodename)) (r.(d_remote_name)) (r.(d_next_scheduler_connect))
    (r.(d_icecream_load)) (r.(d_icecream_usage)) (r.(d_current_load))
    (r.(d_scheduler)) (r.(d_discover)) (r.(d_max_scheduler_pong))
    (r.(d_max_scheduler_ping)) (r.(d_current_kids)) (r.(d_last_stat))
    (r.(d_mem_limit)) (r.(d_asked)) (r.(d_effects)).
Definition set_d_active_processes (v : Z) (r : Daemon) : Daemon :=
  mkDaemon (r.(d_heap)) (r.(d_clients)) v (r.(d_received)) (r.(d_native))
    (r.(d_cache_size)) (r.(d_fd2client)) (r.(d_new_client_id))
    (r.(d_nodename)) (r.(d_remote_name)) (r.(d_next_scheduler_connect))
    (r.(d_icecream_load)) (r.(d_icecream_usage)) (r.(d_current_load))
    (r.(d_scheduler)) (r.(d_discover)) (r.(d_max_scheduler_pong))
    (r.(d_max_scheduler_ping)) (r.(d_current_kids)) (r.(d_last_stat))
    (r.(d_mem_limit)) (r.(d_asked)) (r.(d_effects)).
Definition set_d_received (v : gmap string ReceivedEnvironment) (r : Daemon) : Daemon :=
  mkDaemon (r.(d_heap)) (r.(d_clients)) (r.(d_active_processes)) v
    (r.(d_native)) (r.(d_cache_size)) (r.(d_fd2client)) (r.(d_new_client_id))
    (r.(d_nodename)) (r.(d_remote_name)) (r.(d_next_scheduler_connect))
    (r.(d_icecream_load)) (r.(d_icecream_usage)) (r.(d_current_load))
    (r.(d_scheduler)) (r.(d_discover)) (r.(d_max_scheduler_pong))
    (r.(d_max_scheduler_ping)) (r.(d_current_kids)) (r.(d_last_stat))
    (r.(d_mem_limit)) (r.(d_asked)) (r.(d_effects)).
Definition set_d_native (v : gmap string NativeEnvironment) (r : Daemon) : Daemon :=
  mkDaemon (r.(d_heap)) (r.(d_clients)) (r.(d_active_processes))
    (r.(d_received)) v (r.(d_cache_size)) (r.(d_fd2client))
    (r.(d_new_client_id)) (r.(d_nodename)) (r.(d_remote_name))
    (r.(d_next_scheduler_connect)) (r.(d_icecream_load))
    (r.(d_icecream_usage)) (r.(d_current_load)) (r.(d_scheduler))
    (r.(d_discover)) (r.(d_max_scheduler_pong)) (r.(d_max_scheduler_ping))
    (r.(d_current_kids)) (r.(d_last_stat)) (r.(d_mem_limit)) (r.(d_asked))
    (r.(d_effects)).
Definition set_d_cache_size (v : Z) (r : Daemon) : Daemon :=
  mkDaemon (r.(d_heap)) (r.(d_clients)) (r.(d_active_processes))
    (r.(d_received)) (r.(d_native)) v (r.(d_fd2client)) (r.(d_new_client_id))
    (r.(d_nodename)) (r.(d_remote_name)) (r.(d_next_scheduler_connect))
    (r.(d_icecream_load)) (r.(d_icecream_usage)) (r.(d_current_load))
    (r.(d_scheduler)) (r.(d_discover)) (r.(d_max_scheduler_pong))
    (r.(d_max_scheduler_ping)) (r.(d_current_kids)) (r.(d_last_stat))
    (r.(d_mem_limit)) (r.(d_asked)) (r.(d_effects)).
Definition set_d_fd2client (v : gmap Z positive) (r : Daemon) : Daemon :=
  mkDaemon (r.(d_heap)) (r.(d_clients)) (r.(d_active_processes))
    (r.(d_received)) (r.(d_native)) (r.(d_cache_size)) v
    (r.(d_new_client_id)) (r.(d_nodename)) (r.(d_remote_name))
    (r.(d_next_scheduler_connect)) (r.(d_icecream_load))
    (r.(d_icecream_usage)) (r.(d_current_load)) (r.(d_scheduler))
    (r.(d_discover)) (r.(d_max_scheduler_pong)) (r.(d_max_scheduler_ping))
    (r.(d_current_kids)) (r.(d_last_stat)) (r.(d_mem_limit)) (r.(d_asked))
    (r.(d_effects)).
Definition set_d_new_client_id (v : Z) (r : Daemon) : Daemon :=
  mkDaemon (r.(d_heap)) (r.(d_clients)) (r.(d_active_processes))
    (r.(d_received)) (r.(d_native)) (r.(d_cache_size)) (r.(d_fd2client)) v
    (r.(d_nodename)) (r.(d_remote_name)) (r.(d_next_scheduler_connect))
    (r.(d_icecream_load)) (r.(d_icecream_usage)) (r.(d_current_load))
    (r.(d_scheduler)) (r.(d_discover)) (r.(d_max_scheduler_pong))
    (r.(d_max_scheduler_ping)) (r.(d_current_kids)) (r.(d_last_stat))
    (r.(d_mem_limit)) (r.(d_asked)) (r.(d_effects)).
Definition set_d_nodename (v : string) (r : Daemon) : Daemon :=
  mkDaemon (r.(d_heap)) (r.(d_clients)) (r.(d_active_processes))
    (r.(d_received)) (r.(d_native)) (r.(d_cache_size)) (r.(d_fd2client))
    (r.(d_new_client_id)) v (r.(d_remote_name))
    (r.(d_next_scheduler_connect)) (r.(d_icecream_load))
    (r.(d_icecream_usage)) (r.(d_current_load)) (r.(d_scheduler))
    (r.(d_discover)) (r.(d_max_scheduler_pong)) (r.(d_max_scheduler_ping))
    (r.(d_current_kids)) (r.(d_last_stat)) (r.(d_mem_limit)) (r.(d_asked))
    (r.(d_effects)).
Definition set_d_remote_name (v : string) (r : Daemon) : Daemon :=
  mkDaemon (r.(d_heap)) (r.(d_clients)) (r.(d_active_processes))
    (r.(d_received)) (r.(d_native)) (r.(d_cache_size)) (r.(d_fd2client))
    (r.(d_new_client_id)) (r.(d_nodename)) v (r.(d_next_scheduler_connect))
    (r.(d_icecream_load)) (r.(d_icecream_usage)) (r.(d_current_load))
    (r.(d_scheduler)) (r.(d_discover)) (r.(d_max_scheduler_pong))
    (r.(d_max_scheduler_ping)) (r.(d_current_kids)) (r.(d_last_stat))
    (r.(d_mem_limit)) (r.(d_asked)) (r.(d_effects)).
Definition set_d_next_scheduler_connect (v : Z) (r : Daemon) : Daemon :=
  mkDaemon (r.(d_heap)) (r.(d_clients)) (r.(d_active_processes))
    (r.(d_received)) (r.(d_native)) (r.(d_cache_size)) (r.(d_fd2client))
    (r.(d_new_client_id)) (r.(d_nodename)) (r.(d_remote_name)) v
    (r.(d_icecream_load)) (r.(d_icecream_usage)) (r.(d_current_load))
    (r.(d_scheduler)) (r.(d_discover)) (r.(d_max_scheduler_pong))
    (r.(d_max_scheduler_ping)) (r.(d_current_kids)) (r.(d_last_stat))
    (r.(d_mem_limit)) (r.(d_asked)) (r.(d_effects)).
Definition set_d_icecream_load (v : Z) (r : Daemon) : Daemon :=
  mkDaemon (r.(d_heap)) (r.(d_clients)) (r.(d_active_processes))
    (r.(d_received)) (r.(d_native)) (r.(d_cache_size)) (r.(d_fd2client))
    (r.(d_new_client_id)) (r.(d_nodename)) (r.(d_remote_name))
    (r.(d_next_scheduler_connect)) v (r.(d_icecream_usage))
    (r.(d_current_load)) (r.(d_scheduler)) (r.(d_discover))
    (r.(d_max_scheduler_pong)) (r.(d_max_scheduler_ping))
    (r.(d_current_kids)) (r.(d_last_stat)) (r.(d_mem_limit)) (r.(d_asked))
    (r.(d_effects)).
Definition set_d_icecream_usage (v : Z * Z) (r : Daemon) : Daemon :=
  mkDaemon (r.(d_heap)) (r.(d_clients)) (r.(d_active_processes))
    (r.(d_received)) (r.(d_native)) (r.(d_cache_size)) (r.(d_fd2client))
    (r.(d_new_client_id)) (r.(d_nodename)) (r.(d_remote_name))
    (r.(d_next_scheduler_connect)) (r.(d_icecream_load)) v
    (r.(d_current_load)) (r.(d_scheduler)) (r.(d_discover))
    (r.(d_max_scheduler_pong)) (r.(d_max_scheduler_ping))
    (r.(d_current_kids)) (r.(d_last_stat)) (r.(d_mem_limit)) (r.(d_asked))
    (r.(d_effects)).
Definition set_d_current_load (v : Z) (r : Daemon) : Daemon :=
  mkDaemon (r.(d_heap)) (r.(d_clients)) (r.(d_active_processes))
    (r.(d_received)) (r.(d_native)) (r.(d_cache_size)) (r.(d_fd2client))
    (r.(d_new_client_id)) (r.(d_nodename)) (r.(d_remote_name))
    (r.(d_next_scheduler_connect)) (r.(d_icecream_load))
    (r.(d_icecream_usage)) v (r.(d_scheduler)) (r.(d_discover))
    (r.(d_max_scheduler_pong)) (r.(d_max_scheduler_ping))
    (r.(d_current_kids)) (r.(d_last_stat)) (r.(d_mem_limit)) (r.(d_asked))
    (r.(d_effects)).
Definition set_d_scheduler (v : option MsgChannel) (r : Daemon) : Daemon :=
  mkDaemon (r.(d_heap)) (r.(d_clients)) (r.(d_active_processes))
    (r.(d_received)) (r.(d_native)) (r.(d_cache_size)) (r.(d_fd2client))
    (r.(d_new_client_id)) (r.(d_nodename)) (r.(d_remote_name))
    (r.(d_next_scheduler_connect)) (r.(d_icecream_load))
    (r.(d_icecream_usage)) (r.(d_current_load)) v (r.(d_discover))
    (r.(d_max_scheduler_pong)) (r.(d_max_scheduler_ping))
    (r.(d_current_kids)) (r.(d_last_stat)) (r.(d_mem_limit)) (r.(d_asked))
    (r.(d_effects)).
Definition set_d_discover (v : bool) (r : Daemon) : Daemon :=
  mkDaemon (r.(d_heap)) (r.(d_clients)) (r.(d_active_processes))
    (r.(d_received)) (r.(d_native)) (r.(d_cache_size)) (r.(d_fd2client))
    (r.(d_new_client_id)) (r.(d_nodename)) (r.(d_remote_name))
    (r.(d_next_scheduler_connect)) (r.(d_icecream_load))
    (r.(d_icecream_usage)) (r.(d_current_load)) (r.(d_scheduler)) v
    (r.(d_max_scheduler_pong)) (r.(d_max_scheduler_ping))
    (r.(d_current_kids)) (r.(d_last_stat)) (r.(d_mem_limit)) (r.(d_asked))
    (r.(d_effects)).
Definition set_d_max_scheduler_pong (v : Z) (r : Daemon) : Daemon :=
  mkDaemon (r.(d_heap)) (r.(d_clients)) (r.(d_active_processes))
    (r.(d_received)) (r.(d_native)) (r.(d_cache_size)) (r.(d_fd2client))
    (r.(d_new_client_id)) (r.(d_nodename)) (r.(d_remote_name))
    (r.(d_next_scheduler_connect)) (r.(d_icecream_load))
    (r.(d_icecream_usage)) (r.(d_current_load)) (r.(d_scheduler))
    (r.(d_discover)) v (r.(d_max_scheduler_ping)) (r.(d_current_kids))
    (r.(d_last_stat)) (r.(d_mem_limit)) (r.(d_asked)) (r.(d_effects)).
Definition set_d_max_scheduler_ping (v : Z) (r : Daemon) : Daemon :=
  mkDaemon (r.(d_heap)) (r.(d_clients)) (r.(d_active_processes))
    (r.(d_received)) (r.(d_native)) (r.(d_cache_size)) (r.(d_fd2client))
    (r.(d_new_client_id)) (r.(d_nodename)) (r.(d_remote_name))
    (r.(d_next_scheduler_connect)) (r.(d_icecream_load))
    (r.(d_icecream_usage)) (r.(d_current_load)) (r.(d_scheduler))
    (r.(d_discover)) (r.(d_max_scheduler_pong)) v (r.(d_current_kids))
    (r.(d_last_stat)) (r.(d_mem_limit)) (r.(d_asked)) (r.(d_effects)).
Definition set_d_current_kids (v : Z) (r : Daemon) : Daemon :=
  mkDaemon (r.(d_heap)) (r.(d_clients)) (r.(d_active_processes))
    (r.(d_received)) (r.(d_native)) (r.(d_cache_size)) (r.(d_fd2client))
    (r.(d_new_client_id)) (r.(d_nodename)) (r.(d_remote_name))
    (r.(d_next_scheduler_connect)) (r.(d_icecream_load))
    (r.(d_icecream_usage)) (r.(d_current_load)) (r.(d_scheduler))
    (r.(d_discover)) (r.(d_max_scheduler_pong)) (r.(d_max_scheduler_ping)) v
    (r.(d_last_stat)) (r.(d_mem_limit)) (r.(d_asked)) (r.(d_effects)).
Definition set_d_last_stat (v : Z * Z) (r : Daemon) : Daemon :=
  mkDaemon (r.(d_heap)) (r.(d_clients)) (r.(d_active_processes))
    (r.(d_received)) (r.(d_native)) (r.(d_cache_size)) (r.(d_fd2client))
    (r.(d_new_client_id)) (r.(d_nodename)) (r.(d_remote_name))
    (r.(d_next_scheduler_connect)) (r.(d_icecream_load))
    (r.(d_icecream_usage)) (r.(d_current_load)) (r.(d_scheduler))
    (r.(d_discover)) (r.(d_max_scheduler_pong)) (r.(d_max_scheduler_ping))
    (r.(d_current_kids)) v (r.(d_mem_limit)) (r.(d_asked)) (r.(d_effects)).
Definition set_d_mem_limit (v : Z) (r : Daemon) : Daemon :=
  mkDaemon (r.(d_heap)) (r.(d_clients)) (r.(d_active_processes))
    (r.(d_received)) (r.(d_native)) (r.(d_cache_size)) (r.(d_fd2client))
    (r.(d_new_client_id)) (r.(d_nodename)) (r.(d_remote_name))
    (r.(d_next_scheduler_connect)) (r.(d_icecream_load))
    (r.(d_icecream_usage)) (r.(d_current_load)) (r.(d_scheduler))
    (r.(d_discover)) (r.(d_max_scheduler_pong)) (r.(d_max_scheduler_ping))
    (r.(d_current_kids)) (r.(d_last_stat)) v (r.(d_asked)) (r.(d_effects)).
Definition set_d_asked (v : nat) (r : Daemon) : Daemon :=
  mkDaemon (r.(d_heap)) (r.(d_clients)) (r.(d_active_processes))
    (r.(d_received)) (r.(d_native)) (r.(d_cache_size)) (r.(d_fd2client))
    (r.(d_new_client_id)) (r.(d_nodename)) (r.(d_remote_name))
    (r.(d_next_scheduler_connect)) (r.(d_icecream_load))
    (r.(d_icecream_usage)) (r.(d_current_load)) (r.(d_scheduler))
    (r.(d_discover)) (r.(d_max_scheduler_pong)) (r.(d_max_scheduler_ping))
    (r.(d_current_kids)) (r.(d_last_stat)) (r.(d_mem_limit)) v
    (r.(d_effects)).
Definition set_d_effects (v : list effect) (r : Daemon) : Daemon :=
  mkDaemon (r.(d_heap)) (r.(d_clients)) (r.(d_active_processes))
    (r.(d_received)) (r.(d_native)) (r.(d_cache_size)) (r.(d_fd2client))
    (r.(d_new_client_id)) (r.(d_nodename)) (r.(d_remote_name))
    (r.(d_next_scheduler_connect)) (r.(d_icecream_load))
    (r.(d_icecream_usage)) (r.(d_current_load)) (r.(d_scheduler))
    (r.(d_discover)) (r.(d_max_scheduler_pong)) (r.(d_max_scheduler_ping))
    (r.(d_current_kids)) (r.(d_last_stat)) (r.(d_mem_limit)) (r.(d_asked)) v.

(** What is fixed when the daemon runs: the global variables and members set
    from the command line, and the descriptors it listens on. *)
Record Config : Type := mkConfig {
  k_max_kids : Z;
  k_num_cpus : Z;
  k_cache_size_limit : Z;
  k_envbasedir : string;
  k_machine_name : string;
  k_daemon_port : Z;
  k_supported_features : Z;
  k_noremote : bool;
  k_custom_nodename : bool;
  k_chroot : bool;
  k_fast_reconnect : bool;
  k_tcp_listen_fd : Z;
  k_tcp_listen_local_fd : Z;
  k_unix_listen_fd : Z
}.

(** ** The system

    The answers of the system, each to a question put at some time (the first
    argument). A call that is interrupted is repeated by the code; the answer
    is the one of the last repetition. *)

Class System : Type := {
  sys_time : nat -> Z;
  sys_gettimeofday : nat -> Z * Z;
  sys_rand : nat -> Z;
  (** [access(path, ...) == 0] *)
  sys_access : nat -> string -> bool;
  (** [stat]: modification time and size *)
  sys_stat : nat -> string -> option (Z * Z);
  (** bytes written, or whether the error is [EPIPE] *)
  sys_write : nat -> Z -> list byte -> Z + bool;
  (** what [read] got, [None] on an error *)
  sys_read : nat -> Z -> nat -> option (list byte);
  (** [pipe] and [fork] for a compile job: pid and the descriptor to read from;
      a failing [fork] fails an assertion *)
  sys_fork_compile : nat -> option (Z * Z);
  (** the directories and pipes for an environment made and [fork] called:
      pid, descriptors to the child and from it *)
  sys_fork_install : nat -> string -> option (Z * Z * Z);
  (** the size of a directory *)
  sys_sumup_dir : nat -> string -> Z;
  (** the names in a directory *)
  sys_readdir : nat -> string -> option (list string);
  (** the descriptor to read the name of a new native environment from *)
  sys_create_env : nat -> string -> list string -> string -> Z;
  (** the exit status of [bin/true] in an environment *)
  sys_run_true : nat -> string -> Z;
  (** [fill_stats]: idle load, nice load, fill grade of the memory, message *)
  sys_fill_stats : nat -> Z -> Z * Z * Z * StatsMsg;
  (** [ru_utime] of [getrusage] *)
  sys_getrusage : nat -> option (Z * Z);
  (** [f_bavail] and [f_bsize] of [statfs] *)
  sys_statfs : nat -> option (Z * Z);
  (** [uname]: the name of the node *)
  sys_uname : nat -> option string;
  (** [discover->try_get_scheduler()], [discover->timed_out()] *)
  sys_try_scheduler : nat -> option MsgChannel;
  sys_timed_out : nat -> bool;
  (** the own address on the connection to the scheduler *)
  sys_getsockname : nat -> option string;
  (** the descriptors that are ready; [inl] is a failure other than [EINTR] *)
  sys_poll : nat -> list Z -> unit + list Z;
  (** [accept] and [Service::createChannel]: the channel, its address, and the
      address of the client that is made for it *)
  sys_accept : nat -> Z -> option (MsgChannel * Z * positive);
  (** whether the main loop was told to end *)
  sys_exit : nat -> bool
}.

Abbreviation daemon := (M Daemon).

(** ** Primitives *)

Section primitives.
Context `{System}.

(** Asks the system. *)
Definition ask {A} (q : nat -> A) : daemon A :=
  s ← get; _ ← put (set_d_asked (S (d_asked s)) s); mret (q (d_asked s)).
Definition effect_m (e : effect) : daemon unit :=
  modify (fun s => set_d_effects (d_effects s ++ [e]) s).

Definition deref_client (p : positive) : daemon Client :=
  s ← get; need UseAfterFree (d_heap s !! p).
Definition update_client (p : positive) (f : Client -> Client) : daemon unit :=
  cl ← deref_client p; modify (fun s => set_d_heap (<[p := f cl]> (d_heap s)) s).
Definition set_status (st : Status) : positive -> daemon unit :=
  fun p => update_client p (set_cl_status st).

(** [clients.size()] *)
Definition clients_size : daemon Z := gets (fun s => Z.of_nat (size (d_clients s))).

(** The clients in the order of the map, with their objects. *)
Fixpoint deref_clients (l : list (Z * positive)) : daemon (list (positive * Client)) :=
  match l with
  | [] => mret []
  | (_, p) :: l => cl ← deref_client p; r ← deref_clients l; mret ((p, cl) :: r)
  end.
Definition all_clients : daemon (list (positive * Client)) :=
  m ← gets d_clients; deref_clients (in_order m).
End primitives.

(** *** Looking for a client *)

Definition find_by_client_id (id : Z) (l : list (positive * Client)) : option (positive * Client) :=
  head (filter (fun e : positive * Client => cl_client_id e.2 = id) l).

(** The loop of [get_earliest_client] over the clients: the chosen one, the
    least id and the least niceness so far. *)
Fixpoint earliest_from (st : Status) (l : list (positive * Client))
    (acc : option (positive * Client) * Z * Z) : option (positive * Client) :=
  match l with
  | [] => acc.1.1
  | e :: l =>
      let '(_, min_client_id, min_niceness) := acc in
      if bool_decide (cl_status e.2 = st)
         && ((min_client_id =? 0) || (cl_client_id e.2 <? min_client_id))
         && (cl_niceness e.2 <? min_niceness)
      then earliest_from st l (Some e, cl_client_id e.2, cl_niceness e.2)
      else earliest_from st l acc
  end.
Definition get_earliest_client (st : Status) (l : list (positive * Client))
  : option (positive * Client) := earliest_from st l (None, 0, 2 ^ 32 - 1).
