(* ===== verification/ServerSetup.v ===== *)
(** * How the servers start (scheduler/scheduler.cpp, daemon/main.cpp)

    The command lines of the scheduler and the daemon, as the list of what
    [getopt_long] gives, and the sockets they listen to. A wrong command line ends
    in [usage], which is [None].

    Not modelled: the directories for log files, [daemon], process groups, signals,
    the file with the pid. *)

From Stdlib Require Import ZArith Lia.
From Stdlib Require Import Strings.Byte Strings.String.
From stdpp Require Import base tactics option list gmap sets strings.
From S2P Require Import Prelude StdString MsgChannel Msg Transport Discovery Sockets Searching SchedulingAlgo Dispatch DaemonState.

#[local] Open Scope Z_scope.

(** ** The surroundings *)

(** An option by its letter, or one that only has a long name. *)
Inductive opt : Type :=
| Opt (c : string) (arg : option string)
| Long (name : string) (arg : option string).

Class Setting : Type := {
  g_uid : Z;
  g_gid : Z;
  g_passwd : string -> option (Z * Z);            (* getpwnam *)
  g_libcap_ng : bool;                             (* HAVE_LIBCAP_NG *)
  g_may_chroot : bool;                            (* capng_have_capability *)
  g_rights_dropped : bool;                        (* setgroups, setgid, setuid; capng *)
  g_test_socket : option string;                  (* ICECC_TEST_SOCKET *)
  g_home : option string;
  g_uname : option string;
  g_platform : string;                            (* determine_platform *)
  g_cpus : option Z;                              (* dcc_ncpus *)
  g_features : Z;                                 (* determine_supported_features *)
  g_fast_reconnect : bool;
  g_bind : nat -> Z -> endpoint -> bool;
  g_listen : nat -> Z -> bool
}.

(** [optarg && *optarg], or [usage]. *)
Definition with_arg {A} (arg : option string) (k : string -> option A) : option A :=
  match arg with
  | Some a => if decide (a = ""%string) then None else k a
  | None => None
  end.

Definition MaxVerboseLevel : Z := 3.

Section settings.
Context `{Setting}.

(** The user a server runs as: uid, gid, and whether there is no user icecc. *)
Definition initial_user : Z * Z * bool :=
  if g_uid =? 0 then
    match g_passwd "icecc" with
    | Some (uid, gid) => (uid, gid, false)
    | None => (65534, 65533, true)
    end
  else (g_uid, g_gid, false).

(** [-u] *)
Definition named_user (name : string) : option (Z * Z * bool) :=
  match g_passwd name with
  | None => None
  | Some (uid, gid) => if (gid =? 0) || (uid =? 0) then None else Some (uid, gid, false)
  end.

(** ** The command line of the scheduler *)

Record SchedulerOptions : Type := mkSchedulerOptions {
  sp_netname : string;
  sp_interface : string;
  sp_port : Z;                                    (* scheduler_port *)
  sp_detach : bool;
  sp_persistent : bool;
  sp_level : Z;
  sp_logfile : string;
  sp_user : Z * Z * bool;
  sp_algo : SchedulerAlgorithmName;
  sp_weight : Z                                   (* submission_weight *)
}.
Definition default_scheduler : SchedulerOptions :=
  mkSchedulerOptions "ICECREAM" "" 8765 false false 0 "" initial_user FASTEST 0.

Definition algorithm (name : string) : option SchedulerAlgorithmName :=
  let algorithm_name := tolower name in
  if decide (algorithm_name = "random"%string) then Some RANDOM
  else if decide (algorithm_name = "round_robin"%string) then Some ROUND_ROBIN
  else if decide (algorithm_name = "least_busy"%string) then Some LEAST_BUSY
  else if decide (algorithm_name = "fastest"%string) then Some FASTEST
  else None.

Definition scheduler_option (o : SchedulerOptions) (e : opt) : option SchedulerOptions :=
  let '(mkSchedulerOptions netname interface port detach persistent level logfile user algo weight) := o in
  match e with
  | Long _ _ => Some o
  | Opt c arg =>
      if decide (c = "d"%string) then
        Some (mkSchedulerOptions netname interface port true persistent level logfile user algo weight)
      else if decide (c = "r"%string) then
        Some (mkSchedulerOptions netname interface port detach true level logfile user algo weight)
      else if decide (c = "l"%string) then
        with_arg arg (fun a =>
          Some (mkSchedulerOptions netname interface port detach persistent level a user algo weight))
      else if decide (c = "v"%string) then
        Some (mkSchedulerOptions netname interface port detach persistent
                (if level <? MaxVerboseLevel then level + 1 else level) logfile user algo weight)
      else if decide (c = "n"%string) then
        with_arg arg (fun a =>
          Some (mkSchedulerOptions a interface port detach persistent level logfile user algo weight))
      else if decide (c = "i"%string) then
        with_arg arg (fun a =>
          Some (mkSchedulerOptions netname a port detach persistent level logfile user algo weight))
      else if decide (c = "p"%string) then
        with_arg arg (fun a =>
          let port := u32 (atoi (bytes_of a)) in
          if port =? 0 then None
          else Some (mkSchedulerOptions netname interface port detach persistent level logfile user algo weight))
      else if decide (c = "u"%string) then
        with_arg arg (fun a =>
          user ← named_user a;
          Some (mkSchedulerOptions netname interface port detach persistent level logfile user algo weight))
      else if decide (c = "a"%string) then
        with_arg arg (fun a =>
          algo ← algorithm a;
          Some (mkSchedulerOptions netname interface port detach persistent level logfile user algo weight))
      else if decide (c = "S"%string) then
        with_arg arg (fun a =>
          let val := atoi (bytes_of a) in
          if val <? 0 then None
          else Some (mkSchedulerOptions netname interface port detach persistent level logfile user algo val))
      else None
  end.

Fixpoint read_options {O} (step : O -> opt -> option O) (o : O) (l : list opt) : option O :=
  match l with
  | [] => Some o
  | e :: l => o ← step o e; read_options step o l
  end.
Definition scheduler_options : list opt -> option SchedulerOptions :=
  read_options scheduler_option default_scheduler.

(** ** The command line of the daemon *)

Record DaemonOptions : Type := mkDaemonOptions {
  do_netname : string;
  do_schedname : string;
  do_scheduler_port : Z;
  do_nodename : string;
  do_envbasedir : string;
  do_interface : string;
  do_port : Z;                                    (* daemon_port *)
  do_noremote : bool;
  do_user : Z * Z * bool;
  do_nice : Z;
  do_cache_limit : Z;
  do_max_processes : Z;
  do_detach : bool;
  do_level : Z;
  do_logfile : string
}.
Definition default_daemon : DaemonOptions :=
  mkDaemonOptions "" "" 8765 "" "/var/tmp/icecc-envs" "" 10245 false initial_user 5
    (256 * 1024 * 1024) (-1) false 0 "".

(** [-s], with or without a port. *)
Definition scheduler_name (a : string) (port : Z) : option (string * Z) :=
  match split_last_colon (bytes_of a) with
  | None => Some (a, port)
  | Some (h, p) => if atoi p =? 0 then None else Some (str_of h, atoi p)
  end.

Definition long_option (o : DaemonOptions) (name : string) (arg : option string)
  : option DaemonOptions :=
  let '(mkDaemonOptions netname schedname sport nodename envs interface port noremote user nice cache
          max detach level logfile) := o in
  if decide (name = "nice"%string) then
    with_arg arg (fun a =>
      Some (mkDaemonOptions netname schedname sport nodename envs interface port noremote user
              (atoi (bytes_of a)) cache max detach level logfile))
  else if decide (name = "name"%string) then
    with_arg arg (fun a =>
      Some (mkDaemonOptions netname schedname sport a envs interface port noremote user nice cache
              max detach level logfile))
  else if decide (name = "cache-limit"%string) then
    with_arg arg (fun a =>
      Some (mkDaemonOptions netname schedname sport nodename envs interface port noremote user nice
              (u64 (atoi (bytes_of a) * 1024 * 1024)) max detach level logfile))
  else if decide (name = "no-remote"%string) then
    Some (mkDaemonOptions netname schedname sport nodename envs interface port true user nice cache
            max detach level logfile)
  else Some o.

Definition daemon_option (o : DaemonOptions) (e : opt) : option DaemonOptions :=
  let '(mkDaemonOptions netname schedname sport nodename envs interface port noremote user nice cache
          max detach level logfile) := o in
  match e with
  | Long name arg => long_option o name arg
  | Opt c arg =>
      if decide (c = "d"%string) then
        Some (mkDaemonOptions netname schedname sport nodename envs interface port noremote user nice
                cache max true level logfile)
      else if decide (c = "N"%string) then
        with_arg arg (fun a =>
          Some (mkDaemonOptions netname schedname sport a envs interface port noremote user nice
                  cache max detach level logfile))
      else if decide (c = "l"%string) then
        with_arg arg (fun a =>
          Some (mkDaemonOptions netname schedname sport nodename envs interface port noremote user nice
                  cache max detach level a))
      else if decide (c = "v"%string) then
        Some (mkDaemonOptions netname schedname sport nodename envs interface port noremote user nice
                cache max detach (if level <? MaxVerboseLevel then level + 1 else level) logfile)
      else if decide (c = "n"%string) then
        with_arg arg (fun a =>
          Some (mkDaemonOptions a schedname sport nodename envs interface port noremote user nice
                  cache max detach level logfile))
      else if decide (c = "m"%string) then
        with_arg arg (fun a =>
          Some (mkDaemonOptions netname schedname sport nodename envs interface port noremote user nice
                  cache (atoi (bytes_of a)) detach level logfile))
      else if decide (c = "s"%string) then
        with_arg arg (fun a =>
          '(schedname, sport) ← scheduler_name a sport;
          Some (mkDaemonOptions netname schedname sport nodename envs interface port noremote user nice
                  cache max detach level logfile))
      else if decide (c = "b"%string) then
        match arg with
        | Some a =>
            if decide (a = ""%string) then Some o
            else Some (mkDaemonOptions netname schedname sport nodename a interface port noremote user
                         nice cache max detach level logfile)
        | None => Some o
        end
      else if decide (c = "u"%string) then
        with_arg arg (fun a =>
          user ← named_user a;
          Some (mkDaemonOptions netname schedname sport nodename envs interface port noremote user nice
                  cache max detach level logfile))
      else if decide (c = "i"%string) then
        with_arg arg (fun a =>
          Some (mkDaemonOptions netname schedname sport nodename envs a port noremote user nice
                  cache max detach level logfile))
      else if decide (c = "p"%string) then
        with_arg arg (fun a =>
          let port := atoi (bytes_of a) in
          if port =? 0 then None
          else Some (mkDaemonOptions netname schedname sport nodename envs interface port noremote user
                       nice cache max detach level logfile))
      else None
  end.
Definition daemon_options : list opt -> option DaemonOptions :=
  read_options daemon_option default_daemon.
End settings.

(** ** Listening *)

Section listening.
Context `{Compressors, Network, Setting}.

Definition bind_fd (fd : Z) (e : endpoint) : net bool :=
  bound ← ask_net (fun n => g_bind n fd e);
  _ ← when bound (note (Bound fd e));
  mret bound.
Definition listen_fd (fd : Z) : net bool :=
  worked ← ask_net (fun n => g_listen n fd);
  _ ← when worked (note (Listening fd));
  mret worked.

(** The address of the first entry of an interface that has an IPv4 address. *)
Fixpoint address_of (interface : string) (l : list ifaddr) : res (option (list byte)) :=
  match l with
  | [] => Ok None
  | i :: l =>
      match ifa_name i with
      | None => Fault NullDeref
      | Some name =>
          match ifa_addr i with
          | Some (family, address) =>
              if bool_decide (name = interface) && (family =? AF_INET) then Ok (Some address)
              else address_of interface l
          | None => address_of interface l
          end
      end
  end.

Definition build_address_for_interface (interface : string) (port : Z) : net (option endpoint) :=
  let at_ := fun address => Inet address (port mod 2 ^ 16) in
  if decide (interface = ""%string) then mret (Some (at_ [x00; x00; x00; x00]))
  else if decide (interface = "lo"%string) then mret (Some (at_ localhost))
  else
    addrs ← ask_net net_ifaddrs;
    match addrs with
    | None => mret None
    | Some l =>
        match address_of interface l with
        | Fault f => throw f
        | Ok a => mret (at_ <$> a)
        end
    end.

(** *** The scheduler *)

Definition open_broad_listener (port : Z) (interface : string) : net Z :=
  fd ← open_socket;
  if fd <? 0 then mret (-1)
  else
    worked ← ask_net net_setsockopt;
    if negb worked then mret (-1)
    else
      myaddr ← build_address_for_interface interface port;
      match myaddr with
      | None => mret (-1)
      | Some e => bound ← bind_fd fd e; mret (if bound : bool then fd else -1)
      end.

(** The port is a [short]. *)
Definition open_tcp_listener (port : Z) (interface : string) : net Z :=
  fd ← open_socket;
  if fd <? 0 then mret (-1)
  else
    worked ← ask_net net_setsockopt;
    if negb worked then mret (-1)
    else
      worked ← ask_net net_fcntl;
      if negb worked then mret (-1)
      else
        _ ← set_nonblocking fd;
        myaddr ← build_address_for_interface interface (port mod 2 ^ 16);
        match myaddr with
        | None => mret (-1)
        | Some e =>
            bound ← bind_fd fd e;
            if negb bound then mret (-1)
            else listening ← listen_fd fd; mret (if listening : bool then fd else -1)
        end.

(** The start of [main] of the scheduler: its options and its descriptors for
    connections, for controls and for broadcasts; [None] when it ends with 1. *)
Definition start_scheduler (l : list opt) : net (option (SchedulerOptions * Z * Z * Z)) :=
  match scheduler_options l with
  | None => mret None
  | Some o =>
      if (g_uid =? 0) && negb g_rights_dropped then mret None
      else
        listen ← open_tcp_listener (sp_port o) (sp_interface o);
        if listen <? 0 then mret None
        else
          text ← open_tcp_listener (sp_port o + 1) (sp_interface o);
          if text <? 0 then mret None
          else
            broad ← open_broad_listener (sp_port o) (sp_interface o);
            if broad <? 0 then mret None else mret (Some (o, listen, text, broad))
  end.

(** *** The daemon *)

(** The loop around [bind] of [setup_listen_tcp_fd]. *)
Fixpoint bind_tries (count : nat) (fd : Z) (e : endpoint) : net bool :=
  match count with
  | O => mret false
  | S count =>
      bound ← bind_fd fd e;
      if bound : bool then mret true else bind_tries count fd e
  end.

(** The descriptor, and whether it worked. *)
Definition setup_listen_tcp_fd (port : Z) (interface : string) : net (Z * bool) :=
  fd ← open_socket;
  if fd <? 0 then mret (fd, false)
  else
    worked ← ask_net net_setsockopt;
    if negb worked then mret (fd, false)
    else
      myaddr ← build_address_for_interface interface port;
      match myaddr with
      | None => mret (fd, false)
      | Some e =>
          bound ← bind_tries 5 fd e;
          if negb bound then mret (fd, false)
          else listening ← listen_fd fd; mret (fd, listening)
      end.

Definition unix_path : option (list byte) :=
  match g_test_socket with
  | Some test_socket => Some (take 107 (bytes_of test_socket))
  | None =>
      if (if g_libcap_ng then g_may_chroot else g_uid =? 0) then
        Some (bytes_of "/var/run/icecc/iceccd.socket")
      else (fun home => take 107 (bytes_of home ++ bytes_of "/.iceccd.socket")) <$> g_home
  end.

Definition setup_listen_unix_fd : net (Z * bool) :=
  fd ← open_socket;
  if fd <? 0 then mret (fd, false)
  else
    match unix_path with
    | None => mret (fd, false)
    | Some path =>
        _ ← note (Unlinked_socket path);
        bound ← bind_fd fd (Local path);
        if negb bound then mret (fd, false)
        else listening ← listen_fd fd; mret (fd, listening)
    end.

(** The descriptors: for all interfaces or one, for the loopback, for the socket
    in the file system. *)
Definition setup_listen_fds (noremote : bool) (port : Z) (interface : string)
  : net (option (Z * Z * Z)) :=
  tcp ← (if noremote then mret (-1, -1, true)
         else
           r ← setup_listen_tcp_fd port interface;
           if negb r.2 then mret (r.1, -1, false)
           else if decide (interface = ""%string) then mret (r.1, -1, true)
           else r2 ← setup_listen_tcp_fd port "lo"; mret (r.1, r2.1, r2.2));
  let '(tcp_listen_fd, tcp_listen_local_fd, worked) := tcp in
  if negb worked then mret None
  else
    r ← setup_listen_unix_fd;
    if r.2 : bool then mret (Some (tcp_listen_fd, tcp_listen_local_fd, r.1)) else mret None.

(** Whether jobs of others are accepted: only with the right to call [chroot]. *)
Definition noremote_of (o : DaemonOptions) : bool :=
  if g_uid =? 0 then do_noremote o
  else if g_libcap_ng && g_may_chroot then do_noremote o else true.

(** [determine_system]: the name, and whether it is not the one of the machine. *)
Definition determine_system (nodename : string) : string * bool * string :=
  match g_uname with
  | None => (nodename, false, ""%string)
  | Some n =>
      let custom := negb (bool_decide (nodename = ""%string)) && negb (bool_decide (nodename = n)) in
      (if custom then nodename else n, custom, g_platform)
  end.

(** [main] of the daemon up to [working_loop]; [cleaned] is the result of
    [cleanup_cache], and [rounds] bounds the search for network names, whose result
    is only logged. *)
Definition start_daemon (rounds : nat) (cleaned : bool) (l : list opt)
  : net (option (DaemonOptions * string * Config)) :=
  match daemon_options l with
  | None => mret None
  | Some o =>
      if (g_uid =? 0) && g_libcap_ng && negb g_rights_dropped then mret None
      else
        let noremote := noremote_of o in
        let port := if noremote then 0 else do_port o in
        let '(nodename, custom_nodename, machine_name) := determine_system (do_nodename o) in
        let num_cpus := default 0 g_cpus in
        let max_kids := u32 (if do_max_processes o <? 0 then num_cpus else do_max_processes o) in
        if negb cleaned then mret None
        else
          _ ← getNetnames rounds 200 (do_scheduler_port o);
          fds ← setup_listen_fds noremote port (do_interface o);
          match fds with
          | None => mret None
          | Some (tcp, local, unix) =>
              mret (Some (o, nodename,
                mkConfig max_kids num_cpus (do_cache_limit o) (do_envbasedir o) machine_name port
                  g_features noremote custom_nodename
                  (if g_libcap_ng then g_may_chroot else g_uid =? 0) g_fast_reconnect tcp local unix))
          end
  end.
End listening.
