(* ===== verification/SetupFacts.v ===== *)
(** * How the servers start: what holds

    The options a scheduler accepts, and where a daemon can be reached. *)

From Stdlib Require Import ZArith Lia.
From Stdlib Require Import Strings.Byte Strings.String.
From stdpp Require Import base tactics option list gmap sets strings.
From S2P Require Import Prelude StdString MsgChannel Msg MsgCodec Transport Discovery Sockets Searching SchedulingAlgo Dispatch DaemonState ServerSetup.

#[local] Open Scope Z_scope.

(** ** Options *)

Section options.
Context `{Setting}.

Lemma read_options_keeps {O} (step : O -> opt -> option O) (P : O -> Prop) o l o' :
  (forall o e o', P o -> step o e = Some o' -> P o') -> P o -> read_options step o l = Some o' -> P o'.
Proof.
  intros Hstep. revert o. induction l as [|e l IH]; intros o Ho; cbn [read_options]; [by intros [= <-]|].
  destruct (step o e) as [o1|] eqn:E; [|done]. apply IH. eauto.
Qed.

Lemma with_arg_some {A} arg (k : string -> option A) r :
  with_arg arg k = Some r -> exists a, a <> ""%string /\ k a = Some r.
Proof. destruct arg as [a|]; [|done]. cbn. destruct (decide _); [done|]. eauto. Qed.

Definition sane (o : SchedulerOptions) : Prop :=
  1 <= sp_port o < 2 ^ 32 /\ 0 <= sp_weight o /\ sp_netname o <> ""%string /\
  0 <= sp_level o <= MaxVerboseLevel /\
  (sp_user o = initial_user \/ (sp_user o).1.1 <> 0 /\ (sp_user o).1.2 <> 0) /\
  sp_algo o ∈ [RANDOM; ROUND_ROBIN; LEAST_BUSY; FASTEST].

Lemma algorithm_known name a : algorithm name = Some a -> a ∈ [RANDOM; ROUND_ROBIN; LEAST_BUSY; FASTEST].
Proof.
  unfold algorithm. cbv zeta. repeat (destruct (decide _); [intros [= <-]; set_solver|]). done.
Qed.

Lemma named_user_safe name u : named_user name = Some u -> u.1.1 <> 0 /\ u.1.2 <> 0.
Proof.
  unfold named_user. destruct (g_passwd name) as [[uid gid]|]; [|done].
  destruct (_ || _) eqn:E; [done|]. intros [= <-]. boolify. done.
Qed.

(** The options the scheduler accepts, whatever its command line is. *)
Theorem scheduler_options_sane l o : scheduler_options l = Some o -> sane o.
Proof.
  apply read_options_keeps.
  2:{ repeat split; cbn; try done; [by left|set_solver]. }
  clear. intros [netname interface port detach persistent level logfile user algo weight] [c arg|name arg] o'
    (Hp & Hw & Hn & Hl & Hu & Ha); cbn in Hp, Hw, Hn, Hl, Hu, Ha; cbn [scheduler_option];
    [|by intros [= <-]].
  repeat (destruct (decide _); [clear - Hp Hw Hn Hl Hu Ha|]); [..|done].
  all: try (intros E; apply with_arg_some in E as (a & Hne & E); revert E); cbv zeta.
  all: try (intros [= <-]; unfold sane; cbn; tauto).
  - intros [= <-]. unfold sane, MaxVerboseLevel in *. cbn. destruct (level <? 3) eqn:E; boolify;
      repeat (split; [done || lia|]); done.
  - destruct (_ =? 0) eqn:E; [done|]. intros [= <-]. boolify.
    pose proof (u32_range (atoi (bytes_of a))). split; [cbn; lia|]. cbn. tauto.
  - destruct (named_user a) as [u|] eqn:E; [|done]. intros [= <-]. apply named_user_safe in E.
    unfold sane. cbn. tauto.
  - destruct (algorithm a) as [al|] eqn:E; [|done]. intros [= <-]. apply algorithm_known in E.
    unfold sane. cbn. tauto.
  - destruct (_ <? 0) eqn:E; [done|]. intros [= <-]. boolify.
    unfold sane. cbn. tauto.
Qed.

End options.

(** A port of 17 bits passes the test and is cut off. *)
Example port_wraps :
  let g : Setting := {|
    g_uid := 1000; g_gid := 1000; g_passwd := fun _ => None; g_libcap_ng := false; g_may_chroot := false;
    g_rights_dropped := true; g_test_socket := None; g_home := Some "/home/u"%string;
    g_uname := Some "host"%string; g_platform := "x86_64"; g_cpus := Some 4; g_features := 3;
    g_fast_reconnect := false; g_bind := fun _ _ _ => true; g_listen := fun _ _ => true |} in
  exists o, scheduler_options (H := g) [Opt "p" (Some "65536"%string)] = Some o /\ sp_port o = 65536 /\
    sp_port o mod 2 ^ 16 = 0.
Proof. eexists. split; [vm_compute; reflexivity|]. by split. Qed.

(** ** Where a daemon can be reached *)

Section listening.
Context `{Compressors, Network, Setting}.

(** What sockets are bound to and which listen, in order. *)
Definition bindings (l : list net_effect) : list net_effect :=
  omap (fun e => match e with Bound _ _ | Listening _ => Some e | _ => None end) l.

(** Sockets that were each bound to an address and then listen. *)
Definition listening (l : list (Z * endpoint)) : list net_effect :=
  l ≫= (fun x => [Bound x.1 x.2; Listening x.1]).

Definition binds {A} (m : net A) (Q : A -> list net_effect -> Prop) : Prop :=
  forall s r s', m s = Ok (r, s') ->
    exists news, so_effects s' = so_effects s ++ news /\ Q r (bindings news).

Lemma binds_weaken {A} (m : net A) (P Q : A -> list net_effect -> Prop) :
  binds m P -> (forall r l, P r l -> Q r l) -> binds m Q.
Proof. intros Hm HPQ s r s' E. destruct (Hm _ _ _ E) as (news & En & HP). eauto. Qed.

Lemma binds_ret {A} (a : A) (Q : A -> list net_effect -> Prop) : Q a [] -> binds (mret a) Q.
Proof. intros HQ s r s' [= <- <-]. exists []. by rewrite app_nil_r. Qed.

Lemma binds_throw {A} f (Q : A -> list net_effect -> Prop) : binds (throw f) Q.
Proof. by intros s r s' E. Qed.

Lemma binds_bind {A B} (m : net A) (k : A -> net B) P Q :
  binds m P -> (forall a l, P a l -> binds (k a) (fun r l' => Q r (l ++ l'))) -> binds (m ≫= k) Q.
Proof.
  intros Hm Hk s r s' E. apply bind_inv in E as (a & s1 & E1 & E2).
  destruct (Hm _ _ _ E1) as (l1 & El1 & HP). destruct (Hk _ _ HP _ _ _ E2) as (l2 & El2 & HQ).
  exists (l1 ++ l2). rewrite El2, El1, app_assoc. split; [done|]. unfold bindings in *.
  by rewrite omap_app.
Qed.

(** Steps that bind nothing. *)
Definition binds_none {A} (m : net A) : Prop := binds m (fun _ l => l = []).

Lemma none_ret {A} (a : A) : binds_none (mret a).
Proof. by apply binds_ret. Qed.
Lemma none_same {A} (m : net A) :
  (forall s r s', m s = Ok (r, s') -> so_effects s' = so_effects s) -> binds_none m.
Proof. intros Hm s r s' E. exists []. rewrite app_nil_r. split; [eauto|done]. Qed.
Lemma none_ask {A} (q : nat -> A) : binds_none (ask_net q).
Proof. apply none_same. by intros s r s' [= _ <-]. Qed.
Lemma none_modify f : (forall s, so_effects (f s) = so_effects s) -> binds_none (modify f).
Proof. intros Hf. apply none_same. intros s r s' [= _ <-]. apply Hf. Qed.
Lemma none_gets {A} (f : Sockets -> A) : binds_none (gets f).
Proof. apply none_same. by intros s r s' [= _ <-]. Qed.
Lemma none_assert b : binds_none (assert b).
Proof. destruct b; [apply none_ret|apply binds_throw]. Qed.
Lemma none_note e : bindings [e] = [] -> binds_none (note e).
Proof. intros He s r s' [= _ <-]. by exists [e]. Qed.
Lemma none_when b m : binds_none m -> binds_none (when b m).
Proof. destruct b; [done|intros _; apply none_ret]. Qed.
Lemma binds_then {A B} (m : net A) (k : A -> net B) Q :
  binds_none m -> (forall a, binds (k a) Q) -> binds (m ≫= k) Q.
Proof. intros Hm Hk. eapply binds_bind; [exact Hm|]. intros a l ->. apply Hk. Qed.
Lemma none_fmap {A B} (f : A -> B) (m : net A) : binds_none m -> binds_none (f <$> m).
Proof.
  intros Hm s r s' E. unfold fmap, M_fmap in E. destruct (m s) as [[a s1]|] eqn:E1; [|done].
  injection E as <- <-. eauto.
Qed.


Lemma none_open_socket : binds_none open_socket.
Proof.
  apply binds_then; [apply none_ask|]. intros made. destruct (negb made); [apply none_ret|].
  apply binds_then; [apply none_gets|]. intros fd.
  apply binds_then; [by apply none_modify|]. intros _. apply none_ret.
Qed.
Lemma none_close_fd fd : binds_none (close_fd fd).
Proof. by apply none_modify. Qed.
Lemma none_give_up {A} fd (a : A) : binds_none (_ ← close_fd fd; mret a).
Proof. apply binds_then; [apply none_close_fd|]. intros _. apply none_ret. Qed.

Lemma none_broadcast port buf : binds_none (open_send_broadcast port buf).
Proof.
  apply binds_then; [apply none_open_socket|]. intros fd. destruct (fd <? 0); [apply none_ret|].
  apply binds_then; [apply none_ask|]. intros b. destruct (negb b); [apply none_give_up|].
  apply binds_then; [apply none_ask|]. intros b2. destruct (negb b2); [apply none_give_up|].
  apply binds_then; [apply none_ask|]. intros [addrs|]; [|apply none_ret].
  apply binds_then; [|intros _; apply none_ret].
  induction (omap broadcast_of addrs) as [|a l IH]; [apply none_ret|].
  apply binds_then; [by apply none_note|]. by intros _.
Qed.

Lemma none_read_names fd tt l acc : binds_none (read_names fd tt l acc).
Proof.
  revert acc. induction l as [|p l IH]; intros acc; cbn [read_names].
  - apply binds_then; [by apply none_modify|]. intros _. apply none_ret.
  - destruct (get_broad_answer [p]) as [[[buf q]|] rest].
    + apply binds_then; [apply none_ask|]. intros t. destruct (negb _).
      * apply binds_then; [by apply none_modify|]. intros _. apply none_ret.
      * destruct (get_broad_data buf) as [[[name v] t2]|]; [apply IH|apply binds_throw].
    + apply binds_then; [by apply none_modify|]. intros _. apply none_ret.
Qed.

Lemma none_getNetnames rounds timeout port : binds_none (getNetnames rounds timeout port).
Proof.
  apply binds_then; [apply none_ask|]. intros time0.
  apply binds_then; [apply none_broadcast|]. intros fd.
  apply binds_then; [|intros r; apply none_give_up].
  generalize (@nil string) as acc. induction rounds as [|rounds IH]; intros acc; [apply none_ret|].
  cbn [netname_rounds]. apply binds_then; [apply none_ask|]. intros t.
  apply binds_then; [apply none_assert|]. intros _.
  apply binds_then; [apply none_same; by intros s r s' [= _ <-]|]. intros l.
  apply binds_then; [apply none_read_names|]. intros acc'.
  apply binds_then; [apply none_ask|]. intros t2. destruct (_ <? _); [apply IH|apply none_ret].
Qed.

(** ** Binding *)

Lemma binds_when_note b e :
  bindings [e] = [e] -> binds (_ ← when b (note e); mret b) (fun r l => r = b /\ l = if b then [e] else []).
Proof.
  intros He s r s' E. destruct b; cbn [when] in E.
  - exists [e]. rewrite He. apply bind_inv in E as (u & s1 & [= _ <-] & [= <- <-]). done.
  - exists []. apply bind_inv in E as (u & s1 & [= _ <-] & [= <- <-]). by rewrite app_nil_r.
Qed.

Lemma binds_bind_fd fd e : binds (bind_fd fd e) (fun b l => l = if b then [Bound fd e] else []).
Proof.
  apply binds_then; [apply none_ask|]. intros b.
  eapply binds_weaken; [by apply binds_when_note|]. by intros r l [-> ->].
Qed.

Lemma binds_listen fd :
  binds (ServerSetup.listen_fd fd) (fun b l => l = if b then [Listening fd] else []).
Proof.
  apply binds_then; [apply none_ask|]. intros b.
  eapply binds_weaken; [by apply binds_when_note|]. by intros r l [-> ->].
Qed.

Lemma binds_bind_tries count fd e :
  binds (bind_tries count fd e) (fun b l => l = if b then [Bound fd e] else []).
Proof.
  induction count as [|count IH]; cbn [bind_tries]; [by apply binds_ret|].
  eapply binds_bind; [apply binds_bind_fd|]. intros [] l ->; [by apply binds_ret|exact IH].
Qed.

(** The addresses of an interface: all of them, the loopback, or one that the
    machine says the interface has. *)
Definition address_at (interface : string) (a : list byte) : Prop :=
  if decide (interface = ""%string) then a = [x00; x00; x00; x00]
  else if decide (interface = "lo"%string) then a = localhost
  else exists n addrs i, net_ifaddrs n = Some addrs /\ i ∈ addrs /\
         ifa_name i = Some interface /\ ifa_addr i = Some (AF_INET, a).
Definition listens_at (interface : string) (port : Z) (e : endpoint) : Prop :=
  exists a, e = Inet a (port mod 2 ^ 16) /\ address_at interface a.

Lemma address_of_spec interface l a :
  address_of interface l = Ok (Some a) ->
  exists i, i ∈ l /\ ifa_name i = Some interface /\ ifa_addr i = Some (AF_INET, a).
Proof.
  induction l as [|i l IH]; [done|]. cbn [address_of]. destruct (ifa_name i) as [name|] eqn:En; [|done].
  assert (address_of interface l = Ok (Some a) ->
    exists j, j ∈ i :: l /\ ifa_name j = Some interface /\ ifa_addr j = Some (AF_INET, a)) as Hl.
  { intros (j & Hj & ?)%IH. exists j. split; [by right|done]. }
  destruct (ifa_addr i) as [[family address]|] eqn:Ea; [|exact Hl].
  destruct (_ && _) eqn:E; [|exact Hl]. intros [= <-]. apply andb_true_iff in E as [E1 E2].
  apply bool_decide_eq_true in E1 as ->. apply Z.eqb_eq in E2 as ->.
  exists i. split; [left|done].
Qed.

Lemma binds_address interface port :
  binds (build_address_for_interface interface port)
    (fun r l => l = [] /\ forall e, r = Some e -> listens_at interface port e).
Proof.
  unfold build_address_for_interface, listens_at, address_at. cbv zeta. destruct (decide _) as [Hn|Hn].
  { apply binds_ret. split; [done|]. intros e [= <-]. by eexists. }
  destruct (decide _) as [Hl|Hl].
  { apply binds_ret. split; [done|]. intros e [= <-]. by eexists. }
  intros s r s' E. apply bind_inv in E as (o & s1 & E1 & E). injection E1 as <- <-.
  destruct (net_ifaddrs (so_asked s)) as [addrs|] eqn:Ei.
  2: { injection E as <- <-. exists []. by rewrite app_nil_r. }
  destruct (address_of interface addrs) as [oa|] eqn:Ea; [|discriminate E].
  injection E as <- <-. exists []. rewrite app_nil_r. split; [done|]. split; [done|].
  destruct oa as [a|]; [|done]. intros e [= <-]. exists a. split; [done|].
  apply address_of_spec in Ea as (i & ? & ? & ?). by exists (so_asked s), addrs, i.
Qed.

Lemma binds_tcp port interface :
  binds (setup_listen_tcp_fd port interface)
    (fun r l => r.2 = true -> exists e, l = listening [(r.1, e)] /\ listens_at interface port e).
Proof.
  apply binds_then; [apply none_open_socket|]. intros fd. destruct (fd <? 0); [by apply binds_ret|].
  apply binds_then; [apply none_ask|]. intros b. destruct (negb b); [by apply binds_ret|].
  eapply binds_bind; [apply binds_address|]. intros [e|] l [-> He]; [|by apply binds_ret].
  eapply binds_bind; [apply binds_bind_tries|]. intros [] l ->; [|by apply binds_ret].
  eapply binds_bind; [apply binds_listen|]. intros [] l ->; apply binds_ret; [|done].
  intros _. exists e. auto.
Qed.

Lemma binds_unix :
  binds setup_listen_unix_fd (fun r l => r.2 = true ->
    exists path, l = listening [(r.1, Local path)] /\ unix_path = Some path).
Proof.
  apply binds_then; [apply none_open_socket|]. intros fd. destruct (fd <? 0); [by apply binds_ret|].
  destruct unix_path as [path|]; [|by apply binds_ret].
  apply binds_then; [by apply none_note|]. intros _.
  eapply binds_bind; [apply binds_bind_fd|]. intros [] l ->; [|by apply binds_ret].
  eapply binds_bind; [apply binds_listen|]. intros [] l ->; apply binds_ret; [|done].
  intros _. by exists path.
Qed.

(** What a daemon listens to over TCP, with the two descriptors it keeps: one
    address, and the loopback where that is of an interface. *)
Inductive reached (noremote : bool) (interface : string) (port : Z)
  : Z -> Z -> list (Z * endpoint) -> Prop :=
| reached_not : noremote = true -> reached noremote interface port (-1) (-1) []
| reached_all fd e : noremote = false -> interface = ""%string -> listens_at interface port e ->
    reached noremote interface port fd (-1) [(fd, e)]
| reached_one fd e fd2 e2 : noremote = false -> interface <> ""%string -> listens_at interface port e ->
    listens_at "lo" port e2 -> reached noremote interface port fd fd2 [(fd, e); (fd2, e2)].

Lemma binds_setup noremote port interface :
  binds (setup_listen_fds noremote port interface)
    (fun r l => forall fd fd2 unix, r = Some (fd, fd2, unix) -> exists tcp path,
       l = listening (tcp ++ [(unix, Local path)]) /\ unix_path = Some path /\
       reached noremote interface port fd fd2 tcp).
Proof.
  eapply binds_bind with (P := fun r l => r.2 = true -> exists tcp,
    l = listening tcp /\ reached noremote interface port r.1.1 r.1.2 tcp).
  - destruct noremote; [apply binds_ret; intros _; exists []; by split; [|constructor]|].
    eapply binds_bind; [apply binds_tcp|]. intros [fd []] l Hl; cbn [fst snd negb];
      [|by apply binds_ret]. destruct (Hl eq_refl) as (e & -> & He).
    destruct (decide _) as [Ei|Ei].
    { apply binds_ret. intros _. exists [(fd, e)]. by split; [|constructor]. }
    eapply binds_bind; [apply binds_tcp|]. intros [fd2 []] l Hl2; cbn [fst snd];
      apply binds_ret; [|done].
    destruct (Hl2 eq_refl) as (e2 & -> & He2). intros _. exists [(fd, e); (fd2, e2)].
    by split; [|constructor].
  - intros [[tcp local] worked] l Hr. cbn [fst snd] in *.
    destruct worked; cbn [negb]; [|by apply binds_ret]. destruct (Hr eq_refl) as (t & -> & Ht).
    eapply binds_bind; [apply binds_unix|]. intros [fd []] l2 Hl2; cbn [fst snd]; [|by apply binds_ret].
    apply binds_ret. intros ? ? ? [= <- <- <-]. destruct (Hl2 eq_refl) as (path & -> & Hp).
    exists t, path. split; [|done]. unfold listening. by rewrite app_nil_r, bind_app.
Qed.

(** C35: a daemon that has started listens where it should and nowhere else:
    at its socket in the file system; and, unless it takes no remote jobs
    (asked for, or for lack of the right to call [chroot]), over TCP at its port, on
    all interfaces or on the address of its interface and on the loopback. Each
    socket was bound before it listens, and is one the daemon keeps. Without
    remote jobs it has no TCP socket, and port 0 in its configuration. *)
Theorem daemon_reached rounds cleaned l s o nodename cfg s' :
  start_daemon rounds cleaned l s = Ok (Some (o, nodename, cfg), s') ->
  exists news tcp path,
    so_effects s' = so_effects s ++ news /\
    bindings news = listening (tcp ++ [(k_unix_listen_fd cfg, Local path)]) /\
    unix_path = Some path /\
    reached (noremote_of o) (do_interface o) (do_port o) (k_tcp_listen_fd cfg)
      (k_tcp_listen_local_fd cfg) tcp /\
    k_noremote cfg = noremote_of o /\
    k_daemon_port cfg = if noremote_of o then 0 else do_port o.
Proof.
  intros E. assert (binds (start_daemon rounds cleaned l) (fun r l => forall o nodename cfg,
    r = Some (o, nodename, cfg) -> exists tcp path,
      l = listening (tcp ++ [(k_unix_listen_fd cfg, Local path)]) /\ unix_path = Some path /\
      reached (noremote_of o) (do_interface o) (do_port o) (k_tcp_listen_fd cfg)
        (k_tcp_listen_local_fd cfg) tcp /\ k_noremote cfg = noremote_of o /\
      k_daemon_port cfg = if noremote_of o then 0 else do_port o)) as Hb.
  2:{ destruct (Hb _ _ _ E) as (news & En & HQ).
      destruct (HQ _ _ _ eq_refl) as (tcp & path & Hl & Hrest). by exists news, tcp, path. }
  clear. unfold start_daemon. destruct (daemon_options l) as [o|]; [|by apply binds_ret].
  destruct (_ && negb g_rights_dropped); [by apply binds_ret|]. cbv zeta.
  destruct (determine_system _) as [[nodename custom] machine].
  destruct (negb cleaned); [by apply binds_ret|].
  apply binds_then; [apply none_getNetnames|]. intros _.
  eapply binds_bind; [apply binds_setup|]. intros [[[tcp local] unix]|] l1 Hl; [|by apply binds_ret].
  apply binds_ret. intros o' n' cfg [= <- <- <-]. rewrite app_nil_r.
  destruct (Hl _ _ _ eq_refl) as (t & path & -> & Hp & Hr). exists t, path.
  split; [done|]. split; [done|]. split; [|done]. cbn.
  destruct (noremote_of o) eqn:En; [|done]. inversion Hr; [by constructor|done|done].
Qed.
End listening.

(** ** Samples *)

Section samples.
#[local] Existing Instance store_compressors.

Definition quiet_net : Network := {|
  net_platform := "x86_64"; net_slow := false; net_in_tests := false; net_test_ports := None;
  net_scheduler := None; net_time := Z.of_nat; net_socket := fun _ => true;
  net_fcntl := fun _ => true; net_setsockopt := fun _ => true;
  net_ifaddrs := fun _ =>
    Some [mkIfaddr (Some "eth0"%string) (Some (AF_INET, [x0a; x00; x00; x02])) true IFF_BROADCAST None];
  net_resolve := fun _ _ => None; net_connect := fun _ _ _ => Not_connected;
  net_writable := fun _ _ _ => false; net_io := fun _ => mkIo [] [] [] EAGAIN [] false;
  net_arrived := fun _ _ => []
|}.
Definition machine (uid : Z) : Setting := {|
  g_uid := uid; g_gid := uid; g_passwd := fun _ => None; g_libcap_ng := false; g_may_chroot := false;
  g_rights_dropped := true; g_test_socket := None; g_home := Some "/home/u"%string;
  g_uname := Some "host"%string; g_platform := "x86_64"; g_cpus := Some 4; g_features := 3;
  g_fast_reconnect := false; g_bind := fun _ _ _ => true; g_listen := fun _ _ => true
|}.
#[local] Existing Instance quiet_net.
Definition before_start : Sockets := mkSockets {[0; 1; 2]} ∅ ∅ 0 [].
Definition on_eth0 : list opt := [Opt "i" (Some "eth0"%string); Opt "p" (Some "20000"%string)].

Lemma daemon_reached_witness :
  exists o nodename cfg s',
    start_daemon (H1 := machine 0) 3 true on_eth0 before_start = Ok (Some (o, nodename, cfg), s') /\
    exists news tcp path, so_effects s' = so_effects before_start ++ news /\
      bindings news = listening (tcp ++ [(k_unix_listen_fd cfg, Local path)]) /\
      reached (noremote_of (H1 := machine 0) o) "eth0" 20000 (k_tcp_listen_fd cfg)
        (k_tcp_listen_local_fd cfg) tcp.
Proof.
  destruct (start_daemon (H1 := machine 0) 3 true on_eth0 before_start)
    as [[[[[o nodename] cfg]|] s']|] eqn:E; [|vm_compute in E; discriminate E..].
  exists o, nodename, cfg, s'. split; [done|].
  destruct (daemon_reached 3 true on_eth0 before_start o nodename cfg s' E)
    as (news & tcp & path & En & Hb & _ & Hr & _).
  exists news, tcp, path. split; [done|]. split; [done|].
  assert (do_interface o = "eth0"%string /\ do_port o = 20000) as [<- <-]; [|exact Hr].
  clear - E. vm_compute in E. injection E as <- _ _ _. by split.
Defined.

(** As root it listens at its interface, at the loopback, and in the file system;
    started by a user only there. *)
Example sample_reached :
  match start_daemon (H1 := machine 0) 3 true on_eth0 before_start,
        start_daemon (H1 := machine 1000) 3 true on_eth0 before_start with
  | Ok (_, s), Ok (_, s2) =>
      bindings (so_effects s) =
        listening [(3, Inet [x0a; x00; x00; x02] 20000); (4, Inet localhost 20000);
                   (5, Local (bytes_of "/var/run/icecc/iceccd.socket"))] /\
      bindings (so_effects s2) = listening [(3, Local (bytes_of "/home/u/.iceccd.socket"))]
  | _, _ => False
  end.
Proof. vm_compute. by split. Qed.
End samples.
