(* ===== verification/Environments.v ===== *)
(** * Environments (daemon/environment.cpp)

    What the daemon does with the environments on the disk, over the answers
    of the system: unpacking one that a client sends, building one for the
    local compiler, checking one, removing one. The children that are forked
    for it are part of the system here; EnvInstall.v is about them. *)

From Stdlib Require Import ZArith Lia.
From Stdlib Require Import Strings.Byte Strings.String.
From stdpp Require Import base tactics option list gmap strings.
From S2P Require Import Prelude MsgChannel CompileJob Msg Interface StdString Transport DaemonState.

#[local] Open Scope Z_scope.

Section environments.
Context `{Channels} `{System} (cfg : Config).

(** A computation on the channel of a client. *)
Definition on_client {A} (p : positive) (r : reader A) : daemon A :=
  cl ← deref_client p;
  match r (cl_channel cl) with
  | Ok (a, c) => _ ← update_client p (set_cl_channel c); mret a
  | Fault f => throw f
  end.
Definition client_send (p : positive) (m : Msg) : daemon bool := on_client p (ch_send m SendBlocking).

(** [basedir + "/target=" + env] *)
Definition target_dir (env : string) : string :=
  (k_envbasedir cfg +:+ "/target=" +:+ env)%string.
Definition native_dir : string := (k_envbasedir cfg +:+ "/native/")%string.

(** ** An environment sent by a client *)

(** [isascii], [isprint], not [isspace], not a slash. *)
Definition legal_char (b : byte) : bool :=
  let z := Z_of_byte b in (33 <=? z) && (z <=? 126) && negb (z =? 47).
Definition legal_name (name : string) : bool :=
  negb (bool_decide (name = ""%string)) && forallb legal_char (bytes_of name).

(** The pid of the child and the descriptors to it and from it, with the first
    chunk of the file; [None] for pid 0. *)
Definition start_install_environment (target name : string) (p : positive)
  : daemon (option (Z * Z * Z * FileChunkMsg)) :=
  if negb (legal_name name) then mret None
  else
    msg ← on_client p (ch_get 30 false);
    match msg with
    | Some (FileChunk fmsg) =>
        child ← ask (fun t => sys_fork_install t (target_dir target +:+ "/" +:+ name)%string);
        mret ((fun c => (c, fmsg)) <$> child)
    | _ => mret None
    end.

Definition finalize_install_environment (target : string) : daemon Z :=
  ask (fun t => sys_sumup_dir t (target_dir target)).

Definition remove_environment_files (env : string) : daemon unit :=
  effect_m (RemovedTree (target_dir env)).

(** ** An environment for a compiler of this machine *)

Definition start_create_env (compiler : string) (extrafiles : list string) (compression : string)
  : daemon Z := ask (fun t => sys_create_env t compiler extrafiles compression).

(** [strchr(buf, '\n')] cuts the buffer, which holds what was read and
    otherwise nothing that was written. *)
Fixpoint first_line (buf : list byte) : option (list byte) :=
  match buf with
  | [] => None
  | b :: buf => if decide (b = x00 \/ b = x0a) then Some [] else (b ::.) <$> first_line buf
  end.

(** The size of the tarball, 0 when there is none, and its name, if the name
    was set. *)
Definition finish_create_env (pipe : Z) : daemon (Z * option string) :=
  data ← ask (fun t => sys_read t pipe 1023);
  line ← need UninitRead (first_line (match data with Some (b :: d) => b :: d | _ => [x00] end));
  match line with
  | [] => mret (0, None)
  | _ =>
      let native_environment := (native_dir +:+ str_of line)%string in
      _ ← effect_m (Closed pipe);
      st ← ask (fun t => sys_stat t native_environment);
      match st with
      | Some (_, st_size) => mret (st_size, Some native_environment)
      | None => _ ← effect_m (RemovedDir native_dir); mret (0, Some native_environment)
      end
  end.

Definition remove_native_environment_files (env : string) : daemon unit :=
  if decide (env = ""%string) then mret tt
  else
    st ← ask (fun t => sys_stat t env);
    when (bool_decide (st <> None)) (effect_m (Unlinked env)).

(** ** Checking an environment *)

Definition error_client (p : positive) (error : string) : daemon unit :=
  cl ← deref_client p;
  when (is_protocol_version 23 (cl_channel cl)) (_ ← client_send p (StatusText error); mret tt).

Definition verify_env (p : positive) (target env : string) : daemon bool :=
  if bool_decide (target = ""%string) || bool_decide (env = ""%string) then
    _ ← error_client p "verify_env: target or env empty"; mret false
  else
    let dirname := (target_dir target +:+ "/" +:+ env)%string in
    ok ← ask (fun t => sys_access t (dirname +:+ "/bin/true")%string);
    if negb ok then
      _ ← error_client p
            (dirname +:+ "/bin/true is not executable, installed environment removed?");
      mret false
    else
      status ← ask (fun t => sys_run_true t dirname);
      mret (status =? 0).

(** The environments of a target: those with an assembler. *)
Fixpoint with_assembler (target dir : string) (names : list string) : daemon Environments :=
  match names with
  | [] => mret []
  | name :: names =>
      ok ← ask (fun t => sys_access t (dir +:+ "/" +:+ name +:+ "/usr/bin/as")%string);
      envs ← with_assembler target dir names;
      mret (if ok : bool then (target, name) :: envs else envs)
  end.
Definition list_target_dirs (target dir : string) : daemon Environments :=
  names ← ask (fun t => sys_readdir t dir);
  with_assembler target dir (default [] names).

Fixpoint target_dirs (names : list string) : daemon Environments :=
  match names with
  | [] => mret []
  | dirname :: names =>
      envs ← (if str_equal (substr dirname 0 7) "target=" then
                list_target_dirs (substr dirname 7 (strlen dirname - 7))
                  (k_envbasedir cfg +:+ "/" +:+ dirname)%string
              else mret []);
      rest ← target_dirs names;
      mret (envs ++ rest)
  end.
Definition available_environments : daemon Environments :=
  names ← ask (fun t => sys_readdir t (k_envbasedir cfg));
  target_dirs (default [] names).
End environments.
