(* ===== verification/EnvInstall.v ===== *)
(** * Environments on the disk (daemon/environment.cpp)

    The directories of the environments: emptying them when the daemon starts, and
    making them for a new environment; the child that unpacks an environment a
    client sends; the child that builds one for a compiler of the machine. The
    parent's part of the latter is in Environments.v.

    The system and the archive (libarchive) answer questions ([Disk]). *)

From Stdlib Require Import ZArith Lia.
From Stdlib Require Import Strings.Byte Strings.String.
From stdpp Require Import base tactics option list strings.
From S2P Require Import Prelude Effects StdString.

#[local] Open Scope Z_scope.
#[local] Open Scope icecc_scope.

(** ** The disk and the archive *)

(** What [lstat], [opendir] and [readdir] show. *)
Inductive tree : Type :=
| Leaf                                                  (* anything but a directory *)
| Unknown                                               (* [lstat] fails *)
| Directory (opened : bool) (entries : list (string * tree)).

(** [mkdir] *)
Inductive made : Type := Made | Already (* EEXIST *) | Denied.

(** The codes of libarchive. *)
Definition ARCHIVE_EOF : Z := 1.
Definition ARCHIVE_OK : Z := 0.
Definition ARCHIVE_WARN : Z := -20.
Definition ARCHIVE_FATAL : Z := -30.

(** Each answer depends on how many questions were put before. *)
Class Disk : Type := {
  k_tree : nat -> string -> tree;
  k_readable : nat -> string -> bool;                   (* access R_OK *)
  k_mkdir : nat -> string -> made;
  k_chown : nat -> string -> bool;                      (* chown and chmod *)
  k_unlink : nat -> string -> bool;
  k_rmdir : nat -> string -> bool;
  k_pipe : nat -> bool;
  k_fork : nat -> option Z;
  k_ids : nat -> bool;                   (* the process has the ids of the user *)
  k_setgroups : nat -> bool;
  k_setgid : nat -> bool;
  k_setuid : nat -> bool;                               (* or not root *)
  k_chdir : nat -> string -> bool;
  k_runs : nat -> list string -> bool;                  (* exec_and_wait *)
  a_open : nat -> bool;                                 (* archive_read_open_fd *)
  a_next_header : nat -> Z * (string * Z);              (* code, path and size *)
  a_write_header : nat -> string -> Z;
  a_read_block : nat -> Z * (list byte * Z);            (* code, data and offset *)
  a_write_block : nat -> list byte -> Z -> Z;
  a_finish_entry : nat -> Z
}.

Inductive disk_effect : Type :=
| Made_dir (path : string)
| Owned (path : string)                                 (* by the user *)
| Unlinked (path : string)
| Removed_dir (path : string)
| Ran (argv : list string)
| Header_written (path : string) (code : Z)
| Block_written (data : list byte) (offset : Z)
| Entry_finished
| Told_parent.                                          (* the result byte *)

Record Disks : Type := mkDisks { dk_asked : nat; dk_effects : list disk_effect }.
Definition set_dk_asked (n : nat) (s : Disks) : Disks := mkDisks n (dk_effects s).
Definition set_dk_effects (l : list disk_effect) (s : Disks) : Disks := mkDisks (dk_asked s) l.

(** A child that ends leaves with an exit code. *)
Abbreviation disk A := (M Disks (sum Z A)) (only parsing).

Section disk.
Context `{Disk}.

Definition query {A} (q : nat -> A) : disk A :=
  n ⇐ look dk_asked; _ ⇐ change (set_dk_asked (S n)); ok (q n).
Definition record (e : disk_effect) : disk unit :=
  change (fun s => set_dk_effects (dk_effects s ++ [e]) s).
(** A call that succeeds is recorded. *)
Definition attempt (q : nat -> bool) (e : disk_effect) : disk bool :=
  worked ⇐ query q;
  if worked : bool then _ ⇐ record e; ok true else ok false.
(** [_exit] *)
Definition leave {A} (code : Z) : disk A := raise code.
Definition or_leave (q : nat -> bool) (code : Z) : disk unit :=
  worked ⇐ query q; if worked : bool then ok tt else leave code.

(** ** Removing *)

Definition is_dot (name : string) : bool :=
  bool_decide (name = "."%string) || bool_decide (name = ".."%string).
Definition below (directory name : string) : string := (directory +:+ "/" +:+ name)%string.

(** [cleanup_directory] of what is found at the name. *)
Fixpoint cleanup_tree (t : tree) (directory : string) : disk bool :=
  match t with
  | Directory true entries =>
      (fix each (l : list (string * tree)) : disk bool :=
         match l with
         | [] => ok true
         | (name, n) :: l =>
             if is_dot name then each l
             else
               let fullpath := below directory name in
               gone ⇐ (match n with
                       | Unknown => ok false
                       | Leaf => attempt (fun t => k_unlink t fullpath) (Unlinked fullpath)
                       | Directory _ _ =>
                           empty ⇐ cleanup_tree n fullpath;
                           if empty : bool then
                             attempt (fun t => k_rmdir t fullpath) (Removed_dir fullpath)
                           else ok false
                       end);
               if gone : bool then each l else ok false
         end) entries
  | _ => ok false
  end.
Definition cleanup_directory (directory : string) : disk bool :=
  t ⇐ query (fun n => k_tree n directory); cleanup_tree t directory.

Definition make_dir (path : string) : disk made :=
  answer ⇐ query (fun n => k_mkdir n path);
  match answer with
  | Made => _ ⇐ record (Made_dir path); ok Made
  | answer => ok answer
  end.
Definition give_to_user (path : string) : disk bool := attempt (fun n => k_chown n path) (Owned path).

Definition cleanup_cache (basedir : string) : disk bool :=
  readable ⇐ query (fun n => k_readable n basedir);
  clean ⇐ (if readable : bool then cleanup_directory basedir else ok true);
  if negb clean then ok false
  else
    answer ⇐ make_dir basedir;
    match answer with
    | Denied => ok false
    | _ => give_to_user basedir
    end.

(** ** An environment that a client sends *)

(** The part of [start_install_environment] after the first chunk up to the fork:
    the directories of the target and of the environment, the latter a new one. *)
Definition prepare_install (basename target name : string) : disk (option Z) :=
  let dirname := (basename +:+ "/target=" +:+ target)%string in
  answer ⇐ make_dir dirname;
  match answer with
  | Denied => ok None
  | _ =>
      mine ⇐ give_to_user dirname;
      if negb mine then ok None
      else
        let dirname := below dirname name in
        answer ⇐ make_dir dirname;
        match answer with
        | Made =>
            mine ⇐ give_to_user dirname;
            if negb mine then ok None
            else
              pipe_in ⇐ query k_pipe;
              pipe_out ⇐ (if pipe_in : bool then query k_pipe else ok false);
              if negb pipe_out then ok None else query k_fork
        | _ => ok None
        end
  end.

(** [copy_data]: the code of [archive_read_data_block] is only compared with the end. *)
Fixpoint copy_data (fuel : nat) : disk Z :=
  match fuel with
  | O => throw Aborted
  | S fuel =>
      b ⇐ query a_read_block;
      let '(r, (buff, offset)) := b in
      if r =? ARCHIVE_EOF then ok ARCHIVE_OK
      else
        r ⇐ query (fun n => a_write_block n buff offset);
        if negb (r =? ARCHIVE_OK) then ok r
        else _ ⇐ record (Block_written buff offset); copy_data fuel
  end.

(** One entry, after its header. *)
Definition unpack_entry (fuel : nat) (dirname currentFile : string) (size : Z) : disk unit :=
  let fullOutputPath := below dirname currentFile in
  r ⇐ query (fun n => a_write_header n fullOutputPath);
  _ ⇐ record (Header_written fullOutputPath r);
  _ ⇐ (if 0 <? size then
         r ⇐ copy_data fuel;
         if r <? ARCHIVE_WARN then leave 1 else ok tt
       else ok tt);
  r ⇐ query a_finish_entry;
  if r <? ARCHIVE_WARN then leave 1 else record Entry_finished.

Fixpoint unpack (fuel : nat) (dirname : string) : disk unit :=
  match fuel with
  | O => throw Aborted
  | S fuel =>
      h ⇐ query a_next_header;
      let '(r, (currentFile, size)) := h in
      if r =? ARCHIVE_EOF then ok tt
      else if r <? ARCHIVE_WARN then leave 1
      else _ ⇐ unpack_entry fuel dirname currentFile size; unpack fuel dirname
  end.

(** The user the child becomes, where libcap-ng is not used. *)
Definition drop_rights (libcap_ng : bool) : disk unit :=
  if libcap_ng then ok tt
  else
    _ ⇐ or_leave k_setgroups 143;
    _ ⇐ or_leave k_setgid 143;
    or_leave k_setuid 142.

(** The child of [start_install_environment]. *)
Definition install_child (fuel : nat) (libcap_ng : bool) (dirname : string) : disk unit :=
  _ ⇐ drop_rights libcap_ng;
  _ ⇐ or_leave a_open 1;
  _ ⇐ unpack fuel dirname;
  _ ⇐ record Told_parent;
  leave 0.

(** ** An environment for a compiler of the machine *)

(** [start_create_env] up to the fork; the pipe and the fork are answered together,
    a failure of either ends the daemon. *)
Definition prepare_create (basedir : string) : disk bool :=
  let nativedir := (basedir +:+ "/native/")%string in
  answer ⇐ make_dir nativedir;
  match answer with
  | Denied => ok false
  | _ =>
      mine ⇐ give_to_user nativedir;
      if negb mine then
        _ ⇐ attempt (fun n => k_rmdir n nativedir) (Removed_dir nativedir); ok false
      else
        piped ⇐ query k_pipe;
        if negb piped then leave 147
        else
          child ⇐ query k_fork;
          match child with None => leave 147 | Some _ => ok true end
  end.

Definition create_argv (bindir compiler : string) (extrafiles : list string) : list string :=
  [(bindir +:+ "/icecc")%string; "--build-native"%string; compiler] ++ extrafiles.

(** The child of [start_create_env]. *)
Definition create_child (libcap_ng : bool) (bindir basedir compiler : string)
    (extrafiles : list string) : disk unit :=
  same ⇐ (if libcap_ng then ok true else query k_ids);
  _ ⇐ (if same : bool then ok tt else drop_rights false);
  _ ⇐ or_leave (fun n => k_chdir n (basedir +:+ "/native/")%string) 1;
  let argv := create_argv bindir compiler extrafiles in
  built ⇐ query (fun n => k_runs n argv);
  _ ⇐ record (Ran argv);
  if negb built then leave 1 else leave 0.
End disk.
