(* ===== verification/EnvFacts.v ===== *)
(** * Environments on the disk: what holds

    What is removed when the cache is emptied; what the child that unpacks an
    environment tells its parent, that it ends on an archive that ends, and that it
    does not on one that cannot be read. *)

From Stdlib Require Import ZArith Lia.
From Stdlib Require Import Strings.Byte Strings.String.
From stdpp Require Import base tactics option list strings.
From S2P Require Import Prelude Effects StdString EnvInstall.

#[local] Open Scope Z_scope.
#[local] Open Scope icecc_scope.

Section facts.
Context `{Disk}.

(** ** What a computation does, and that it returns *)

Definition performs {A} (m : M Disks (Z + A)) (s : Disks)
    (Q : Z + A -> list disk_effect -> Disks -> Prop) : Prop :=
  runs m s (fun r s' => exists news, dk_effects s' = dk_effects s ++ news /\ Q r news s').

Lemma performs_ret {A} (r : Z + A) s (Q : Z + A -> list disk_effect -> Disks -> Prop) :
  Q r [] s -> performs (mret r) s Q.
Proof. intros HQ. apply runs_ret. exists []. by rewrite app_nil_r. Qed.

Lemma performs_bind {A B} (m : M Disks (Z + A)) (k : A -> M Disks (Z + B)) s P Q :
  performs m s P ->
  (forall e l s1, P (inl e) l s1 -> Q (inl e) l s1) ->
  (forall a l s1, P (inr a) l s1 -> performs (k a) s1 (fun r l' s' => Q r (l ++ l') s')) ->
  performs (ebind m k) s Q.
Proof.
  intros Hm He Hk. apply runs_ebind. eapply runs_weaken; [|exact Hm].
  intros [e|a] s1 (l & El & HP); [eauto|]. eapply runs_weaken; [|by eapply Hk].
  intros r s2 (l' & El' & HQ). exists (l ++ l'). by rewrite El', El, app_assoc.
Qed.

Lemma performs_query {A B} (q : nat -> A) (k : A -> M Disks (Z + B)) s Q :
  performs (k (q (dk_asked s))) (set_dk_asked (S (dk_asked s)) s) Q -> performs (ebind (query q) k) s Q.
Proof. done. Qed.

Lemma performs_record {B} e (k : unit -> M Disks (Z + B)) s Q :
  performs (k tt) (set_dk_effects (dk_effects s ++ [e]) s) (fun r l s' => Q r (e :: l) s') ->
  performs (ebind (record e) k) s Q.
Proof.
  intros Hk. eapply runs_weaken; [|exact Hk]. intros r s' (l & El & HQ).
  exists (e :: l). split; [|done]. rewrite El. cbn. by rewrite <- app_assoc.
Qed.

Lemma performs_weaken {A} (m : M Disks (Z + A)) s (P Q : Z + A -> list disk_effect -> Disks -> Prop) :
  performs m s P -> (forall r l s', P r l s' -> Q r l s') -> performs m s Q.
Proof. intros Hm HPQ. eapply runs_weaken; [|exact Hm]. intros r s' (l & El & HP). eauto. Qed.

Lemma performs_last e s :
  performs (record e) s (fun r l s' => r = inr tt /\ l = [e] /\ dk_asked s' = dk_asked s).
Proof. eapply runs_ok; [reflexivity|]. by exists [e]. Qed.

Lemma performs_attempt q e s :
  performs (attempt q e) s
    (fun r l _ => exists b : bool, r = inr b /\ l = if b then [e] else []).
Proof.
  apply performs_query. destruct (q _).
  - apply performs_record, performs_ret. by exists true.
  - apply performs_ret. by exists false.
Qed.

(** ** Emptying a directory *)

(** What is to be removed, a directory after its contents. *)
Fixpoint contents (t : tree) (directory : string) : list disk_effect :=
  match t with
  | Directory true entries =>
      (fix each (l : list (string * tree)) : list disk_effect :=
         match l with
         | [] => []
         | (name, n) :: l =>
             if is_dot name then each l
             else contents n (below directory name)
                  ++ (match n with Directory _ _ => Removed_dir | _ => Unlinked end
                        (below directory name)) :: each l
         end) entries
  | _ => []
  end.

(** Whether all of it can be looked at: a directory that was opened, with no
    name below it that [lstat] or [opendir] fails on. *)
Fixpoint readable (t : tree) : bool :=
  match t with
  | Directory true entries =>
      (fix each (l : list (string * tree)) : bool :=
         match l with
         | [] => true
         | (name, n) :: l =>
             if is_dot name then each l
             else match n with Leaf => true | Unknown => false | Directory _ _ => readable n end
                  && each l
         end) entries
  | _ => false
  end.

(** A call that the system refused, as an answer to some question. *)
Definition refused (e : disk_effect) : Prop :=
  exists n, match e with
            | Unlinked path => k_unlink n path = false
            | Removed_dir path => k_rmdir n path = false
            | _ => False
            end.

(** All of a list was done; or what comes before a call that was refused, or
    before something that cannot be looked at. *)
Definition done_of (todo : list disk_effect) (fine : bool) (r : Z + bool) (l : list disk_effect)
    (_ : Disks) : Prop :=
  (r = inr true /\ l = todo /\ fine = true) \/
  (r = inr false /\ l `prefix_of` todo /\
   (fine = false \/ exists e, l ++ [e] `prefix_of` todo /\ refused e)).

Lemma done_nothing todo s : performs (ok false) s (done_of todo false).
Proof. apply performs_ret. right. split; [done|]. split; [apply prefix_nil|by left]. Qed.

Lemma done_after {m : M Disks (Z + bool)} {s l1 l2 f1 f2 k} :
  performs m s (done_of l1 f1) -> (forall s', performs k s' (done_of l2 f2)) ->
  performs (ebind m (fun b => if b : bool then k else ok false)) s (done_of (l1 ++ l2) (f1 && f2)).
Proof.
  intros Hm Hk. eapply performs_bind; [exact Hm| |].
  - by intros e l s1 [([=] & _)|([=] & _)].
  - intros b l s1 [([= ->] & -> & ->)|([= ->] & Hp & Hf)]; cbn [andb].
    + eapply performs_weaken; [apply Hk|].
      intros r l' s' [(-> & -> & ->)|(-> & Hp & Hf)]; [by left|right].
      split; [done|]. split; [by apply prefix_app|].
      destruct Hf as [->|(e & He & Hr)]; [by left|right]. exists e. split; [|done].
      rewrite <- app_assoc. by apply prefix_app.
    + apply performs_ret. right. rewrite app_nil_r. split; [done|].
      split; [by apply prefix_app_r|].
      destruct Hf as [->|(e & He & Hr)]; [by left|right]. exists e. split; [|done].
      by apply prefix_app_r.
Qed.

Lemma done_attempt q e s :
  (forall n, q n = false -> refused e) -> performs (attempt q e) s (done_of [e] true).
Proof.
  intros Hq. apply performs_query. destruct (q _) eqn:E.
  - apply performs_record, performs_ret. by left.
  - apply performs_ret. right. split; [done|]. split; [apply prefix_nil|]. right. exists e.
    split; [done|]. by eapply Hq.
Qed.

Lemma cleanup_tree_done t directory s :
  performs (cleanup_tree t directory) s (done_of (contents t directory) (readable t)).
Proof.
  revert t directory s. fix IH 1. intros t directory s.
  destruct t as [| |[] entries]; try apply done_nothing. cbn [cleanup_tree contents readable].
  revert s. induction entries as [|[name n] l IHl]; intros s.
  - apply performs_ret. by left.
  - destruct (is_dot name); [apply IHl|].
    rewrite cons_middle, app_assoc. apply done_after; [|exact IHl].
    pose proof (IH n) as Hn. clear IH. destruct n as [| |opened entries].
    + apply done_attempt. intros i Hi. by exists i.
    + apply done_nothing.
    + rewrite <- (andb_true_r (readable _)).
      apply done_after; [apply Hn|intros s'; apply done_attempt]. intros i Hi. by exists i.
Qed.

(** Names that lead from a directory to something in it. *)
Inductive inside (directory : string) : string -> Prop :=
| inside_here name : is_dot name = false -> inside directory (below directory name)
| inside_deeper name path : is_dot name = false ->
    inside (below directory name) path -> inside directory path.

Definition removes (P : string -> Prop) (e : disk_effect) : Prop :=
  match e with Unlinked path | Removed_dir path => P path | _ => False end.

Lemma contents_inside t directory : Forall (removes (inside directory)) (contents t directory).
Proof.
  revert t directory. fix IH 1. intros t directory. destruct t as [| |[] entries]; try constructor.
  cbn [contents]. induction entries as [|[name n] l IHl]; [constructor|].
  destruct (is_dot name) eqn:En; [exact IHl|]. apply Forall_app. split.
  - eapply Forall_impl; [apply IH|]. intros [] He; try done; by eapply inside_deeper.
  - constructor; [|exact IHl]. destruct n; by apply inside_here.
Qed.

(** C26: emptying a directory returns. It returns true just when it has removed all
    that is in it and nothing else, each file and each directory, the latter after
    its contents, no symbolic link being followed. It returns false where
    something cannot be looked at, or where a call is refused; then only what
    comes before that call was removed. *)
Theorem cleanup_directory_empties directory s :
  let t := k_tree (dk_asked s) directory in
  let todo := contents t directory in
  Forall (removes (inside directory)) todo /\
  performs (cleanup_directory directory) s (fun r l _ =>
    (r = inr true /\ l = todo /\ readable t = true) \/
    (r = inr false /\ l `prefix_of` todo /\
     (readable t = false \/ exists e, l ++ [e] `prefix_of` todo /\ refused e))).
Proof.
  intros t todo. split; [apply contents_inside|]. apply performs_query, cleanup_tree_done.
Qed.

(** ** The child that unpacks *)

Definition quiet (e : disk_effect) : Prop := e <> Told_parent.

(** What is read of an archive, by the numbers of the questions. The data of one
    file, from question [n] on: the blocks up to the one that ends it, or up to
    one that is not written as it should; [w] is the code for it, and the next
    question is [n']. *)
Inductive copied : nat -> list disk_effect -> nat -> Z -> Prop :=
| copied_end n : (a_read_block n).1 = ARCHIVE_EOF -> copied n [] (S n) ARCHIVE_OK
| copied_block n r data offset blocks n' w :
    a_read_block n = (r, (data, offset)) -> r <> ARCHIVE_EOF ->
    a_write_block (S n) data offset = ARCHIVE_OK -> copied (S (S n)) blocks n' w ->
    copied n (Block_written data offset :: blocks) n' w
| copied_not n r data offset :
    a_read_block n = (r, (data, offset)) -> r <> ARCHIVE_EOF ->
    a_write_block (S n) data offset <> ARCHIVE_OK ->
    copied n [] (S (S n)) (a_write_block (S n) data offset).

(** One entry: its header, whatever the code for it; the data, where it has any;
    its end. *)
Inductive entry_unpacked (dirname name : string) (size : Z) : nat -> list disk_effect -> nat -> Prop :=
| entry_written n code blocks n' w :
    code = a_write_header n (below dirname name) ->
    (if 0 <? size then copied (S n) blocks n' w /\ ARCHIVE_WARN <= w else blocks = [] /\ n' = S n) ->
    ARCHIVE_WARN <= a_finish_entry n' ->
    entry_unpacked dirname name size n
      (Header_written (below dirname name) code :: blocks ++ [Entry_finished]) (S n').

(** All entries the archive gives from question [n] on, in its order, up to its end. *)
Inductive unpacked (dirname : string) : nat -> list disk_effect -> nat -> Prop :=
| unpacked_end n : (a_next_header n).1 = ARCHIVE_EOF -> unpacked dirname n [] (S n)
| unpacked_entry n r name size entry n1 rest n' :
    a_next_header n = (r, (name, size)) -> r <> ARCHIVE_EOF -> ARCHIVE_WARN <= r ->
    entry_unpacked dirname name size (S n) entry n1 -> unpacked dirname n1 rest n' ->
    unpacked dirname n (entry ++ rest) n'.

(** Something went wrong: an answer the child gives up for. *)
Definition refusal : Prop :=
  exists n, k_setgroups n = false \/ k_setgid n = false \/ k_setuid n = false \/ a_open n = false \/
    (a_next_header n).1 < ARCHIVE_WARN \/ a_finish_entry n < ARCHIVE_WARN \/
    exists data offset, a_write_block n data offset < ARCHIVE_WARN.

Lemma copied_refusal n l n' w : copied n l n' w -> w < ARCHIVE_WARN -> refusal.
Proof.
  induction 1 as [n E|n r data offset blocks n' w Er Hr Hw _ IH|n r data offset Er Hr Hw]; intros Hlt.
  - done.
  - by apply IH.
  - exists (S n). eauto 10.
Qed.

(** What a piece of the child comes to: it leaves, was refused something and has
    not told, or goes on. *)
Definition goes_on {A} (P : A -> list disk_effect -> nat -> Prop) (s : Disks) (r : Z + A)
    (l : list disk_effect) (s' : Disks) : Prop :=
  (dk_asked s <= dk_asked s')%nat /\
  match r with
  | inl code => code <> 0 /\ refusal /\ Forall quiet l
  | inr a => P a l (dk_asked s') /\ Forall quiet l
  end.

Lemma goes_weaken {A} (m : M Disks (Z + A)) s (P Q : A -> list disk_effect -> nat -> Prop) :
  performs m s (goes_on P s) -> (forall a l n, P a l n -> Q a l n) -> performs m s (goes_on Q s).
Proof.
  intros Hm HPQ. eapply performs_weaken; [exact Hm|]. intros [c|a] l s' [Ha Hl]; (split; [done|]); [done|].
  destruct Hl. auto.
Qed.

Lemma goes_ret {A} (a : A) s (P : A -> list disk_effect -> nat -> Prop) :
  P a [] (dk_asked s) -> performs (ok a) s (goes_on P s).
Proof. intros HP. apply performs_ret. by split. Qed.

Lemma goes_leave {A} code s (P : A -> list disk_effect -> nat -> Prop) :
  code <> 0 -> refusal -> performs (leave code) s (goes_on P s).
Proof. intros Hc Hr. apply performs_ret. by split. Qed.

Lemma goes_query {A B} (q : nat -> A) (k : A -> M Disks (Z + B)) s P :
  performs (k (q (dk_asked s))) (set_dk_asked (S (dk_asked s)) s)
    (goes_on P (set_dk_asked (S (dk_asked s)) s)) ->
  performs (ebind (query q) k) s (goes_on P s).
Proof.
  intros Hk. apply performs_query. eapply performs_weaken; [exact Hk|].
  intros r l s' [Ha Hl]. split; [cbn in Ha; lia|done].
Qed.

Lemma goes_record {B} e (k : unit -> M Disks (Z + B)) s P :
  quiet e ->
  performs (k tt) (set_dk_effects (dk_effects s ++ [e]) s)
    (goes_on (fun a l => P a (e :: l)) (set_dk_effects (dk_effects s ++ [e]) s)) ->
  performs (ebind (record e) k) s (goes_on P s).
Proof.
  intros He Hk. apply performs_record. eapply performs_weaken; [exact Hk|].
  intros [c|a] l s' [Ha Hl]; (split; [exact Ha|]); naive_solver.
Qed.

Lemma goes_bind {A B} (m : M Disks (Z + A)) (k : A -> M Disks (Z + B)) s P Q :
  performs m s (goes_on P s) ->
  (forall a l s1, P a l (dk_asked s1) -> (dk_asked s <= dk_asked s1)%nat ->
     performs (k a) s1 (goes_on (fun b l' => Q b (l ++ l')) s1)) ->
  performs (ebind m k) s (goes_on Q s).
Proof.
  intros Hm Hk. eapply performs_bind; [exact Hm|intros e l s1 [Ha Hl]; by split|].
  intros a l s1 [Ha [HP Hq]]. eapply performs_weaken; [by eapply Hk|].
  intros [code|b] l' s2 [Ha2 Hl2]; (split; [lia|]).
  - destruct Hl2 as (Hc & Hr & Hl2). split; [done|]. split; [done|]. by apply Forall_app.
  - destruct Hl2 as [HQ Hl2]. split; [done|]. by apply Forall_app.
Qed.

Lemma goes_or_leave q code s :
  code <> 0 -> (forall n, q n = false -> refusal) ->
  performs (or_leave q code) s (goes_on (fun _ l n => l = [] /\ n = S (dk_asked s)) s).
Proof.
  intros Hc Hq. apply goes_query. destruct (q _) eqn:E; [by apply goes_ret|].
  apply goes_leave; [done|by eapply Hq].
Qed.

(** The archive gives its end for an answer, or a failure for a header, from some
    question on. *)
Context (last : nat).
Context (headers_end : forall n, (last <= n)%nat ->
  (a_next_header n).1 = ARCHIVE_EOF \/ (a_next_header n).1 < ARCHIVE_WARN).
Context (blocks_end : forall n, (last <= n)%nat -> (a_read_block n).1 = ARCHIVE_EOF).

Lemma copy_data_goes fuel s :
  (last < fuel + dk_asked s)%nat -> (1 <= fuel)%nat ->
  performs (copy_data fuel) s (goes_on (fun w l n => copied (dk_asked s) l n w) s).
Proof.
  revert s. induction fuel as [|fuel IH]; intros s Hf Hp; [lia|]. cbn [copy_data].
  apply goes_query. pose proof (blocks_end (dk_asked s)) as Hend.
  destruct (a_read_block (dk_asked s)) as [r [buff offset]] eqn:Eb. cbn [fst] in Hend.
  destruct (r =? ARCHIVE_EOF) eqn:E.
  { apply goes_ret. apply copied_end. rewrite Eb. by apply Z.eqb_eq. }
  apply Z.eqb_neq in E.
  assert (dk_asked s < last)%nat by (destruct (decide (last <= dk_asked s)%nat); [tauto|lia]).
  apply goes_query. cbn [dk_asked set_dk_asked]. destruct (_ =? ARCHIVE_OK) eqn:Ew; cbn [negb].
  - apply Z.eqb_eq in Ew. apply goes_record; [done|]. eapply goes_weaken; [apply IH; cbn; lia|].
    intros w l n Hc. by eapply copied_block.
  - apply Z.eqb_neq in Ew. apply goes_ret. by eapply copied_not.
Qed.

Lemma unpack_entry_goes fuel dirname name size s :
  (last < fuel + dk_asked s)%nat -> (1 <= fuel)%nat ->
  performs (unpack_entry fuel dirname name size) s
    (goes_on (fun _ l n => entry_unpacked dirname name size (dk_asked s) l n) s).
Proof.
  intros Hf Hp. apply goes_query. set (code := a_write_header _ _). apply goes_record; [done|].
  set (s1 := set_dk_effects _ _).
  eapply goes_bind with (P := fun _ l n => if 0 <? size
    then exists w, copied (S (dk_asked s)) l n w /\ ARCHIVE_WARN <= w
    else l = [] /\ n = S (dk_asked s)).
  - destruct (0 <? size); [|by apply goes_ret].
    eapply goes_bind; [apply copy_data_goes; cbn; lia|].
    intros w l s2 Hl Ha2. destruct (w <? ARCHIVE_WARN) eqn:Ew.
    + apply Z.ltb_lt in Ew. apply goes_leave; [done|].
      exact (copied_refusal _ _ _ _ Hl Ew).
    + apply Z.ltb_ge in Ew. apply goes_ret. rewrite app_nil_r. by exists w.
  - intros [] l s2 Hl Ha2. apply goes_query. destruct (a_finish_entry _ <? _) eqn:Ef.
    + apply Z.ltb_lt in Ef. apply goes_leave; [done|]. exists (dk_asked s2). eauto 10.
    + apply Z.ltb_ge in Ef. eapply performs_weaken; [apply performs_last|].
      intros r l' s' (-> & -> & Ha3). split; [rewrite Ha3; cbn; lia|]. split; [|by constructor].
      rewrite Ha3. cbn [dk_asked set_dk_asked]. destruct (0 <? size) eqn:Es.
      * destruct Hl as (w & Hc & Hw). apply (entry_written _ _ _ _ _ _ _ w); [done|by rewrite Es|done].
      * apply (entry_written _ _ _ _ _ _ _ 0); [done|by rewrite Es|done].
Qed.

Lemma unpack_goes fuel dirname s :
  (last < fuel + dk_asked s)%nat -> (1 <= fuel)%nat ->
  performs (unpack fuel dirname) s (goes_on (fun _ l n => unpacked dirname (dk_asked s) l n) s).
Proof.
  revert s. induction fuel as [|fuel IH]; intros s Hf Hp; [lia|]. cbn [unpack].
  apply goes_query. pose proof (headers_end (dk_asked s)) as Hend.
  destruct (a_next_header (dk_asked s)) as [r [name size]] eqn:Eh. cbn [fst] in Hend.
  destruct (r =? ARCHIVE_EOF) eqn:E.
  { apply goes_ret. apply unpacked_end. rewrite Eh. by apply Z.eqb_eq. }
  destruct (r <? ARCHIVE_WARN) eqn:E2.
  { apply Z.ltb_lt in E2. apply goes_leave; [done|]. exists (dk_asked s). rewrite Eh. eauto 10. }
  boolify. assert (dk_asked s < last)%nat by (destruct (decide (last <= dk_asked s)%nat); [|lia];
    destruct Hend; [done|contradiction|lia]).
  eapply goes_bind; [apply unpack_entry_goes; cbn; lia|].
  intros [] l s2 Hl Ha2. cbn in Ha2. eapply goes_weaken; [apply IH; lia|].
  intros u l' n Hu. by eapply unpacked_entry.
Qed.

Lemma drop_rights_goes libcap_ng s :
  performs (drop_rights libcap_ng) s
    (goes_on (fun _ l n => l = [] /\ n = (dk_asked s + if libcap_ng then 0 else 3)%nat) s).
Proof.
  destruct libcap_ng; [apply goes_ret; by rewrite Nat.add_0_r|]. unfold drop_rights.
  eapply goes_bind; [apply goes_or_leave; [done|intros n Hn; exists n; auto]|]. intros u l s1 [-> E1] _.
  eapply goes_bind; [apply goes_or_leave; [done|intros n Hn; exists n; auto]|]. intros v l s2 [-> E2] _.
  eapply goes_weaken; [apply goes_or_leave; [done|intros n Hn; exists n; auto]|].
  intros _ l n [-> ->]. split; [done|]. rewrite E2, E1. lia.
Qed.

(** The ways in which the child can end: with all that the archive gave from its
    first header on, or for a refusal. *)
Definition truthful (dirname : string) (start : nat) (r : Z + unit) (l : list disk_effect) (_ : Disks)
  : Prop :=
  (r = inl 0 /\ exists entries n', unpacked dirname start entries n' /\ Forall quiet entries /\
     l = entries ++ [Told_parent])
  \/ (exists code, r = inl code /\ code <> 0 /\ refusal /\ Forall quiet l).

Lemma truthful_bind {A} dirname start (m : M Disks (Z + A)) (k : A -> M Disks (Z + unit)) s P :
  performs m s (goes_on P s) ->
  (forall a l s1, P a l (dk_asked s1) -> (dk_asked s <= dk_asked s1)%nat -> Forall quiet l ->
     performs (k a) s1 (fun r l' s' => truthful dirname start r (l ++ l') s')) ->
  performs (ebind m k) s (truthful dirname start).
Proof.
  intros Hm Hk. eapply performs_bind; [exact Hm| |].
  - intros code l s1 [_ (Hc & Hr & Hl)]. right. eauto.
  - intros a l s1 [Ha [HP Hq]]. by apply Hk.
Qed.

(** C25: the child that unpacks an environment ends, on an archive that ends or
    cannot be read on and whose files all end. It ends with 0 and the byte to its
    parent as the last thing when it has unpacked the archive: each entry that
    was read up to the end of the archive, in order, below the directory as the
    archive names it, with the blocks read for it, and finished. The code for
    writing a header is not looked at, and a block that is written with a warning
    ends its file. It ends with another code and tells nothing only when
    something is refused: rights to drop, the archive to open, a header to read, a
    block to write or an entry to finish. *)
Theorem install_child_ends fuel libcap_ng dirname s :
  (last < fuel)%nat ->
  performs (install_child fuel libcap_ng dirname) s
    (truthful dirname (S (dk_asked s + if libcap_ng then 0 else 3))%nat).
Proof.
  intros Hf. set (start := S _).
  eapply truthful_bind; [apply drop_rights_goes|]. intros u l s1 [-> E1] Ha1 _.
  eapply (truthful_bind _ _ (or_leave _ _)); [apply goes_or_leave; [done|intros n Hn; exists n; auto]|].
  intros v l s2 [-> E2] Ha2 _.
  eapply (truthful_bind _ _ (unpack _ _)); [apply unpack_goes; lia|]. intros w l s3 Hl Ha3 Hq.
  apply performs_record, performs_ret. left. split; [done|]. exists l, (dk_asked s3).
  split; [|done]. unfold start. by rewrite <- E1, <- E2.
Qed.
End facts.

(** ** An archive that cannot be read *)

Section unreadable.
Context `{Disk}.

Lemma query_step {A B} (q : nat -> A) (k : A -> M Disks (Z + B)) s :
  ebind (query q) k s = k (q (dk_asked s)) (set_dk_asked (S (dk_asked s)) s).
Proof. done. Qed.
Lemma record_step {B} e (k : unit -> M Disks (Z + B)) s :
  ebind (record e) k s = k tt (set_dk_effects (dk_effects s ++ [e]) s).
Proof. done. Qed.
Lemma go_step {A B} (m : M Disks (Z + A)) (k : A -> M Disks (Z + B)) s a s' :
  m s = Ok (inr a, s') -> ebind m k s = k a s'.
Proof. intros E. unfold ebind, mbind, M_bind. by rewrite E. Qed.
Lemma fault_step {A B} (m : M Disks (Z + A)) (k : A -> M Disks (Z + B)) s f :
  m s = Fault f -> ebind m k s = Fault f.
Proof. intros E. unfold ebind, mbind, M_bind. by rewrite E. Qed.

Lemma copy_data_hangs fuel s :
  (forall n, (a_read_block n).1 = ARCHIVE_FATAL) ->
  (forall n data offset, a_write_block n data offset = ARCHIVE_OK) ->
  copy_data fuel s = Fault Aborted.
Proof.
  intros Hr Hw. revert s. induction fuel as [|fuel IH]; intros s; [done|]. cbn [copy_data].
  rewrite query_step. specialize (Hr (dk_asked s)). destruct (a_read_block (dk_asked s)) as [r [buff offset]].
  cbn [fst] in Hr. subst r. change (ARCHIVE_FATAL =? ARCHIVE_EOF) with false. cbv iota.
  rewrite query_step, Hw. change (negb (ARCHIVE_OK =? ARCHIVE_OK)) with false. cbv iota.
  rewrite record_step. apply IH.
Qed.

End unreadable.

(** ** Samples *)

Section samples.
(** An archive of one file, in one block or without an end. *)
Definition sample_disk (whole : bool) : Disk := {|
  k_tree := fun _ _ => Leaf; k_readable := fun _ _ => true; k_mkdir := fun _ _ => Made;
  k_chown := fun _ _ => true; k_unlink := fun _ _ => true; k_rmdir := fun _ _ => true;
  k_pipe := fun _ => true; k_fork := fun _ => Some 7; k_ids := fun _ => true;
  k_setgroups := fun _ => true; k_setgid := fun _ => true; k_setuid := fun _ => true;
  k_chdir := fun _ _ => true; k_runs := fun _ _ => true; a_open := fun _ => true;
  a_next_header := fun n =>
    (if whole && (4 <=? n)%nat then ARCHIVE_EOF else ARCHIVE_OK, ("usr/bin/as"%string, 3));
  a_write_header := fun _ _ => ARCHIVE_OK;
  a_read_block := fun n =>
    (if whole then if (n <=? 4)%nat then ARCHIVE_OK else ARCHIVE_EOF else ARCHIVE_FATAL,
     ([x41; x42; x43], 0));
  a_write_block := fun _ _ _ => ARCHIVE_OK; a_finish_entry := fun _ => ARCHIVE_OK
|}.

Definition no_effects : Disks := mkDisks 0 [].

Lemma install_child_ends_witness :
  install_child (H := sample_disk true) 9 true "/e/target=x/n" no_effects
  = Ok (inl 0, mkDisks 8 [Header_written "/e/target=x/n/usr/bin/as" 0;
      Block_written [x41; x42; x43] 0; Entry_finished; Told_parent]) /\
  performs (install_child (H := sample_disk true) 9 true "/e/target=x/n") no_effects
    (truthful (H := sample_disk true) "/e/target=x/n" 1).
Proof.
  split; [vm_compute; reflexivity|].
  apply (install_child_ends (H := sample_disk true) 6); [| |lia].
  - intros n Hn. left. cbn. destruct n as [|[|[|[|n]]]]; (lia || reflexivity).
  - intros n Hn. cbn. destruct n as [|[|[|[|[|[|n]]]]]]; (lia || reflexivity).
Defined.


(** A name with dots leads out of the directory; it is used as it is. *)
Example unpack_outside :
  let d : Disk := {|
    k_tree := fun _ _ => Leaf; k_readable := fun _ _ => true; k_mkdir := fun _ _ => Made;
    k_chown := fun _ _ => true; k_unlink := fun _ _ => true; k_rmdir := fun _ _ => true;
    k_pipe := fun _ => true; k_fork := fun _ => Some 7; k_ids := fun _ => true;
    k_setgroups := fun _ => true; k_setgid := fun _ => true; k_setuid := fun _ => true;
    k_chdir := fun _ _ => true; k_runs := fun _ _ => true; a_open := fun _ => true;
    a_next_header := fun n => (if (n <=? 1)%nat then ARCHIVE_OK else ARCHIVE_EOF, ("../../../x"%string, 0));
    a_write_header := fun _ _ => ARCHIVE_OK; a_read_block := fun _ => (ARCHIVE_EOF, ([], 0));
    a_write_block := fun _ _ _ => ARCHIVE_OK; a_finish_entry := fun _ => ARCHIVE_OK
  |} in
  install_child (H := d) 3 true "/e/target=x/n" no_effects
  = Ok (inl 0, mkDisks 5 [Header_written "/e/target=x/n/../../../x" 0; Entry_finished; Told_parent]).
Proof. vm_compute. reflexivity. Qed.
End samples.
