(* ===== verification/Daemon.v ===== *)
(** * The daemon (daemon/main.cpp)

    The connection to the scheduler, the statistics, the cache of environments,
    the end of an installation and of a client. Logging is left out. *)

From Stdlib Require Import ZArith Lia.
From Stdlib Require Import Strings.Byte Strings.String.
From stdpp Require Import base tactics option list gmap strings pretty.
From S2P Require Import Prelude MsgChannel CompileJob Msg Interface StdString Transport Compilers DaemonState Environments.

#[local] Open Scope Z_scope.

(** A result without state. *)
Definition lift {S A} (r : res A) : M S A :=
  match r with Ok a => mret a | Fault f => throw f end.

(** [std::max((unsigned int) 1, max_kids)] *)
Definition all_slots (cfg : Config) : Z := Z.max 1 (k_max_kids cfg).
(** The slots a client reserves when it works. *)
Definition slots_of (cfg : Config) (fulljob : bool) : Z := if fulljob then all_slots cfg else 1.

Definition min_mem_limit : Z := 100.

Section daemon.
Context `{Channels} `{System} (cfg : Config).

(** ** The scheduler *)

Definition close_scheduler : daemon unit :=
  s ← get;
  match d_scheduler s with
  | None => mret tt
  | Some c =>
      _ ← effect_m (Closed (c_fd c));
      _ ← modify (fun s => set_d_discover false (set_d_scheduler None s));
      t ← ask sys_time;
      r ← ask sys_rand;
      _ ← modify (set_d_next_scheduler_connect (t + 20 + Z.land r 31));
      when (k_fast_reconnect cfg)
        (t ← ask sys_time; modify (set_d_next_scheduler_connect (t + 3)))
  end.

Definition send_scheduler (m : Msg) : daemon bool :=
  s ← get;
  match d_scheduler s with
  | None => mret false
  | Some c =>
      match ch_send m SendBlocking c with
      | Ok (ok, c) =>
          _ ← modify (set_d_scheduler (Some c));
          if ok : bool then mret true else _ ← close_scheduler; mret false
      | Fault f => throw f
      end
  end.

Definition reannounce_environments : daemon bool :=
  s ← get;
  envs ← available_environments cfg;
  let l := new_LoginMsg (k_chroot cfg) 0 (d_nodename s) "" (k_supported_features cfg) in
  send_scheduler (Login (mkLoginMsg (lg_port l) envs (lg_max_kids l) (lg_noremote l)
    (lg_chroot_possible l) (lg_nodename l) (lg_host_platform l) (lg_supported_features l))).

(** ** Statistics *)

(** Milliseconds between two times. *)
Definition msec_between (a b : Z * Z) : Z := (b.1 - a.1) * 1000 + Z.quot (b.2 - a.2) 1000.

(** The load that is sent: what is not idle, or the memory in use. *)
Definition node_load (icecream_load diff_sent memory_fillgrade : Z) : Z :=
  let idle := if diff_sent =? 0 then u32 icecream_load
              else u32 (u64 (icecream_load * 1000) / u64 diff_sent) in
  Z.max (1000 - Z.min idle 1000) memory_fillgrade.

(** Less than 25 MiB of disk for each build that may still start. *)
Definition disk_full (current_kids : Z) (fs : option (Z * Z)) : option bool :=
  match fs with
  | None => Some false
  | Some (f_bavail, f_bsize) =>
      if f_bsize =? 0 then None
      else Some (f_bavail <? Z.quot (u32 (k_max_kids cfg + 1 - current_kids) * 25 * 1024 * 1024) f_bsize)
  end.

(** A change of the load that the scheduler has to know. *)
Definition load_changed (load current_load : Z) : bool :=
  (100 <=? Z.abs (load - current_load))
  || ((load =? 1000) && negb (current_load =? 1000))
  || (negb (load =? 1000) && (current_load =? 1000)).

Definition maybe_stats (force_check : bool) : daemon bool :=
  now ← ask sys_gettimeofday;
  s ← get;
  let diff_sent := msec_between (d_last_stat s) now in
  if negb ((d_max_scheduler_pong s * 1000 <=? diff_sent) || force_check) then mret true
  else
    st ← ask (fun t => sys_fill_stats t (d_active_processes s));
    let '(idleLoad, niceLoad, memory_fillgrade, msg) := st in
    let diff_stat := msec_between (d_last_stat s) now in
    _ ← modify (set_d_last_stat now);
    _ ← modify (fun s => set_d_icecream_load
          (u64 (d_icecream_load s + u64 (idleLoad * diff_stat) / 1000)) s);
    ru ← ask sys_getrusage;
    _ ← match ru with
        | None => mret tt
        | Some u =>
            _ ← (if k_num_cpus cfg =? 0 then throw DivByZero else mret tt);
            s ← get;
            let ice_msec := u32 (Z.quot (msec_between (d_icecream_usage s) u) (k_num_cpus cfg)) in
            let ice_msec := if (ice_msec =? 0) && negb (d_current_kids s =? 0)
                            then u32 (u64 (niceLoad * diff_stat) / 4000) else ice_msec in
            modify (fun s => set_d_icecream_usage u (set_d_icecream_load
              (u64 (d_icecream_load s + Z.quot (ice_msec * diff_stat) 1000)) s))
        end;
    s ← get;
    let load := node_load (d_icecream_load s) diff_sent memory_fillgrade in
    fs ← ask sys_statfs;
    full ← need DivByZero (disk_full (d_current_kids s) fs);
    let load := if full : bool then 1000 else load in
    _ ← modify (set_d_mem_limit
          (Z.max (i32 (u32 (st_freeMem msg) / all_slots cfg)) min_mem_limit));
    sent ← (if load_changed (i32 load) (d_current_load s)
            then send_scheduler (Stats (mkStatsMsg load (st_loadAvg1 msg) (st_loadAvg5 msg)
                   (st_loadAvg10 msg) (st_freeMem msg) (st_client_count msg)))
            else mret true);
    if negb sent then mret false
    else
      _ ← modify (fun s => set_d_current_load (i32 load) (set_d_icecream_load 0 s));
      mret true.

(** ** The cache of environments *)

Definition cache_shrink (size : Z) : daemon unit :=
  s ← get;
  _ ← assert (size <=? d_cache_size s);
  modify (set_d_cache_size (d_cache_size s - size)).

Definition remove_native_environment (env_key : string) : daemon unit :=
  _ ← assert (negb (bool_decide (env_key = ""%string)));
  _ ← remove_native_environment_files env_key;
  s ← get;
  let env := default new_NativeEnvironment (d_native s !! env_key) in
  _ ← when (negb (ne_create_env_pipe env =? 0)) (effect_m (Closed (ne_create_env_pipe env)));
  _ ← cache_shrink (ne_size env);
  modify (fun s => set_d_native (delete env_key (d_native s)) s).

Definition remove_environment (env_key : string) : daemon unit :=
  _ ← assert (negb (bool_decide (env_key = ""%string)));
  _ ← remove_environment_files cfg env_key;
  s ← get;
  let env := default new_ReceivedEnvironment (d_received s !! env_key) in
  _ ← cache_shrink (re_size env);
  modify (fun s => set_d_received (delete env_key (d_received s)) s).

(** [job->targetPlatform() + "/" + job->environmentVersion()] *)
Definition env_for_job (job : CompileJob) : string :=
  (j_target_platform job +:+ "/" +:+ j_environment_version job)%string.

(** Whether a client needs the environment: the scan of the clients in
    [check_cache_size]. *)
Fixpoint env_in_use (env : string) (l : list (positive * Client)) : daemon bool :=
  match l with
  | [] => mret false
  | (_, cl) :: l =>
      match cl_status cl with
      | TOCOMPILE | TOINSTALL | WAITINSTALL | WAITFORCHILD =>
          job ← need AssertFailed (cl_job cl);
          rest ← env_in_use env l;
          mret (bool_decide (env_for_job job = env) || rest)
      | _ => env_in_use env l
      end
  end.

(** The loops for the candidates: the time and the name of the oldest. *)
Fixpoint oldest_received (now : Z) (l : list (string * ReceivedEnvironment)) (acc : Z * string)
  : daemon (Z * string) :=
  match l with
  | [] => mret acc
  | (name, env) :: l =>
      ok ← ask (fun t => sys_access t (target_dir cfg name +:+ "/usr/bin/as")%string);
      if negb ok then mret (0, name)
      else if (re_last_use env <? acc.1) && (200 <? now - re_last_use env) then
        clients ← all_clients;
        used ← env_in_use name clients;
        oldest_received now l (if used : bool then acc else (re_last_use env, name))
      else oldest_received now l acc
  end.

Definition keep_native (n : nat) (env : NativeEnvironment) : Z :=
  if negb (ne_create_env_pipe env =? 0) then 365 * 24 * 60 * 60
  else if (n <? 5)%nat then 24 * 60 * 60 else 200.

Fixpoint oldest_native (now : Z) (n : nat) (l : list (string * NativeEnvironment)) (acc : Z * string)
  : daemon (Z * string) :=
  match l with
  | [] => mret acc
  | (key, env) :: l =>
      missing ← (if decide (ne_name env = ""%string) then mret false
                 else ok ← ask (fun t => sys_access t (ne_name env)); mret (negb ok));
      if missing : bool then mret (0, key)
      else
        oldest_native now n l
          (if (ne_last_use env <? acc.1) && (keep_native n env <? now - ne_last_use env)
           then (ne_last_use env, key) else acc)
  end.

(** The [while] loop: every round removes an environment. *)
Fixpoint check_cache_loop (fuel : nat) (now : Z) (new_env : string) : daemon unit :=
  s ← get;
  if negb (k_cache_size_limit cfg <? d_cache_size s) then mret tt
  else
    t ← ask sys_time;
    received ← oldest_received now (in_name_order (d_received s)) (t + 90000, ""%string);
    native ← oldest_native now (size (d_native s)) (in_name_order (d_native s)) (received.1, ""%string);
    if bool_decide (received.2 = ""%string \/ received.2 = new_env)
       && bool_decide (native.2 = ""%string \/ native.2 = new_env) then mret tt
    else
      match fuel with
      | O => throw Aborted
      | S fuel =>
          _ ← (if decide (native.2 <> ""%string) then remove_native_environment native.2
               else remove_environment received.2);
          check_cache_loop fuel now new_env
      end.
Definition check_cache_size (new_env : string) : daemon unit :=
  now ← ask sys_time;
  s ← get;
  check_cache_loop (size (d_received s) + size (d_native s)) now new_env.

(** ** Environments sent by clients *)

Definition reserve (n : Z) : daemon unit :=
  modify (fun s => set_d_active_processes (u32 (d_active_processes s + n)) s).
(** [assert(current_kids > 0); current_kids--;] *)
Definition kid_done : daemon unit :=
  s ← get;
  _ ← assert (0 <? d_current_kids s);
  modify (set_d_current_kids (d_current_kids s - 1)).
Definition kid_started : daemon unit :=
  modify (fun s => set_d_current_kids (u32 (d_current_kids s + 1)) s).

(** Closes a pipe that a client may have. *)
Definition close_from (p : positive) : daemon unit :=
  cl ← deref_client p;
  _ ← effect_m (Closed (cl_pipe_from_child cl));
  update_client p (set_cl_pipe_from_child (-1)).
Definition close_to (p : positive) : daemon unit :=
  cl ← deref_client p;
  _ ← effect_m (Closed (cl_pipe_to_child cl));
  update_client p (set_cl_pipe_to_child (-1)).

Definition installing (st : Status) : bool :=
  match st with TOINSTALL | WAITINSTALL => true | _ => false end.

(** The child of a client is gone. *)
Definition child_gone (p : positive) : daemon unit :=
  _ ← update_client p (set_cl_child_pid (-1)); kid_done.

(** The child that unpacks the environment is killed and waited for. *)
Definition kill_child (p : positive) : daemon unit :=
  cl ← deref_client p;
  _ ← effect_m (Killed (cl_child_pid cl));
  _ ← effect_m (Reaped (cl_child_pid cl));
  child_gone p.

Definition finish_transfer_env (p : positive) (cancel : bool) : daemon bool :=
  cl ← deref_client p;
  _ ← assert (negb (bool_decide (cl_outfile cl = ""%string)));
  _ ← assert (installing (cl_status cl));
  _ ← when (0 <=? cl_pipe_from_child cl) (_ ← assert cancel; close_from p);
  _ ← when (0 <=? cl_pipe_to_child cl) (_ ← assert cancel; close_to p);
  _ ← when (0 <=? cl_child_pid cl) (_ ← assert cancel; kill_child p);
  installed_size ← (if cancel then mret 0 else finalize_install_environment cfg (cl_outfile cl));
  _ ← when (installed_size =? 0) (remove_environment_files cfg (cl_outfile cl));
  _ ← update_client p (fun cl => set_cl_outfile "" (set_cl_status UNKNOWN cl));
  _ ← when (negb (installed_size =? 0))
        (t ← ask sys_time;
         modify (fun s => set_d_received
           (<[cl_outfile cl := mkReceivedEnvironment t installed_size]> (d_received s))
           (set_d_cache_size (u64 (d_cache_size s + installed_size)) s)));
  _ ← check_cache_size (cl_outfile cl);
  r ← reannounce_environments;
  ok ← maybe_stats true;
  mret (r && ok).

(** ** The end of a client *)

(** [delete client] closes its connection and its pipes. *)
Definition delete_client (p : positive) : daemon unit :=
  cl ← deref_client p;
  _ ← effect_m (Closed (c_fd (cl_channel cl)));
  _ ← when (0 <=? cl_pipe_from_child cl) (effect_m (Closed (cl_pipe_from_child cl)));
  _ ← when (0 <=? cl_pipe_to_child cl) (effect_m (Closed (cl_pipe_to_child cl)));
  modify (fun s => set_d_heap (delete p (d_heap s)) s).

(** The job the scheduler is told about: its id, [None] when it goes by the
    id of the client. *)
Definition job_to_report (cl : Client) : option (option Z) :=
  match cl_status cl with
  | TOCOMPILE => (fun job => Some (i32 (j_id job))) <$> cl_job cl
  | WAITFORCS => Some None
  | _ => Some (Some (i32 (cl_job_id cl)))
  end.

(** Who tells, [None] for a client that should have no job. *)
Definition report_flag (st : Status) : option Z :=
  match st with
  | TOCOMPILE => Some FROM_SERVER
  | WAITCOMPILE | PENDING_USE_CS | CLIENTWORK | WAITFORCS => Some FROM_SUBMITTER
  | _ => None
  end.

(** What the scheduler is told when a client goes. *)
Definition report_end (cl : Client) (exitcode : Z) : daemon unit :=
  s ← get;
  if bool_decide (d_scheduler s = None) || bool_decide (cl_status cl = WAITFORCHILD) then mret tt
  else
    id ← need NullDeref (job_to_report cl);
    _ ← assert (bool_decide (id <> None) || (0 <? cl_client_id cl));
    if match id with Some id => 0 <? id | None => true end then
      flag ← need AssertFailed (report_flag (cl_status cl));
      n ← clients_size;
      let msg := match id with
                 | Some id => new_JobDoneMsg id exitcode flag n
                 | None => set_unknown_job_client_id (u32 (cl_client_id cl))
                             (new_JobDoneMsg (i32 (cl_job_id cl)) exitcode flag n)
                 end in
      _ ← send_scheduler (JobDone msg); mret tt
    else when (bool_decide (cl_status cl = CLIENTWORK))
      (_ ← send_scheduler (JobLocalDone (u32 (cl_client_id cl))); mret tt).

Definition handle_end (p : positive) (exitcode : Z) : daemon unit :=
  cl ← deref_client p;
  _ ← modify (fun s => set_d_fd2client (delete (c_fd (cl_channel cl)) (d_fd2client s)) s);
  _ ← when (installing (cl_status cl)) (_ ← finish_transfer_env p true; mret tt);
  cl ← deref_client p;
  _ ← when (bool_decide (cl_status cl = CLIENTWORK)) (reserve (- slots_of cfg (cl_fulljob cl)));
  _ ← update_client p (set_cl_fulljob false);
  _ ← when (bool_decide (cl_status cl = WAITCOMPILE) && (exitcode =? 119))
        (update_client p (set_cl_job_id 0));
  m ← gets d_clients;
  _ ← assert (bool_decide (m !! cl_chan cl <> None));
  _ ← modify (fun s => set_d_clients (delete (cl_chan cl) (d_clients s)) s);
  cl ← deref_client p;
  _ ← report_end cl exitcode;
  delete_client p.

(** The loop over the clients: the first one is ended. *)
Fixpoint end_clients (fuel : nat) : daemon unit :=
  m ← gets d_clients;
  match in_order m, fuel with
  | [], _ => mret tt
  | (_, p) :: _, S fuel => _ ← handle_end p 116; end_clients fuel
  | _ :: _, O => throw Aborted
  end.

(** The kids that are left are waited for. *)
Definition clear_children : daemon unit :=
  m ← gets d_clients;
  _ ← end_clients (size m);
  _ ← modify (set_d_current_kids 0);
  s ← get;
  _ ← assert (bool_decide (d_fd2client s = ∅));
  modify (set_d_new_client_id 0).
End daemon.
