(* ===== verification/LoadFacts.v ===== *)
(** * Facts about the load

    The counters of the kernel are read as they were printed, and the numbers
    the daemon makes of them are thousandths. Where they are not. *)

From Stdlib Require Import ZArith Lia.
From Stdlib Require Import Strings.Ascii Strings.Byte Strings.String.
From stdpp Require Import base tactics option list strings pretty.
From S2P Require Import Prelude StdString Float Msg MsgChannel DaemonState Daemon Load.

#[local] Open Scope Z_scope.

(** ** Numbers in decimal *)

Definition is_digit (b : byte) : Prop := exists d, digit b = Some d.

Lemma pretty_char_digit n :
  (n < 10)%N -> digit (byte_of_ascii (pretty_N_char n)) = Some (Z.of_N n).
Proof.
  destruct n as [|p]; [done|]. do 4 (destruct p as [p|p|]; [| |done]); intros Hn; exfalso; lia.
Qed.

(** The digits of a number, in front of whatever follows. *)
Lemma pretty_N_go_digits k x s :
  (x < 10 ^ N.of_nat k)%N -> exists ds,
    bytes_of (pretty_N_go x s) = ds ++ bytes_of s /\ Forall is_digit ds /\ (length ds <= k)%nat /\
    ((0 < x)%N -> ds <> []) /\
    forall r, digits_value 0 (ds ++ r) = digits_value (Z.of_N x) r.
Proof.
  revert x s. induction k as [|k IH]; intros x s Hx.
  { change (10 ^ N.of_nat 0)%N with 1%N in Hx. assert (x = 0%N) as -> by lia. exists []. by repeat split. }
  destruct (decide (0 < x)%N) as [Hp|Hp].
  2: { assert (x = 0%N) as -> by lia. exists []. repeat split; try done; cbn; lia. }
  rewrite pretty_N_go_step by done.
  assert (x / 10 < 10 ^ N.of_nat k)%N as Hd.
  { apply N.Div0.div_lt_upper_bound. rewrite Nat2N.inj_succ, N.pow_succ_r' in Hx. lia. }
  destruct (IH (x / 10)%N (String (pretty_N_char (x mod 10)) s) Hd) as (ds & E & Hds & Hl & _ & Hv).
  pose proof (pretty_char_digit (x mod 10) ltac:(apply N.mod_lt; lia)) as Hc.
  set (b := byte_of_ascii (pretty_N_char (x mod 10))) in *.
  exists (ds ++ [b]). rewrite E. split; [by rewrite <- app_assoc|].
  split; [apply Forall_app; split; [done|constructor; [by eexists|constructor]]|].
  split; [rewrite length_app; cbn; lia|]. split; [by destruct ds|].
  intros r. rewrite <- app_assoc, Hv. cbn [app digits_value]. rewrite Hc. f_equal.
  rewrite N2Z.inj_div, N2Z.inj_mod. pose proof (Z.div_mod (Z.of_N x) 10 ltac:(lia)). lia.
Qed.

(** What follows a number does not begin with a digit. *)
Definition number_ends (r : list byte) : Prop := match r with b :: _ => digit b = None | [] => True end.

Lemma digits_value_end acc r : number_ends r -> digits_value acc r = acc.
Proof. destruct r as [|b r]; [done|]. cbn. by intros ->. Qed.
Lemma skip_digits_app ds r : Forall is_digit ds -> number_ends r -> skip_digits (ds ++ r) = r.
Proof.
  intros H Hr. induction H as [|b ds [d Hd] _ IH]; cbn; [|by rewrite Hd].
  destruct r as [|b r]; [done|]. cbn in *. by rewrite Hr.
Qed.

Definition decimal (n : Z) : list byte := bytes_of (pretty (Z.to_N n)).

Lemma decimal_digits n :
  0 <= n < 2 ^ 64 -> exists ds, decimal n = ds /\ Forall is_digit ds /\
    (1 <= length ds <= 20)%nat /\ forall r, number_ends r -> digits_value 0 (ds ++ r) = n.
Proof.
  intros Hn. unfold decimal, pretty, pretty_N. destruct (decide (Z.to_N n = 0%N)) as [E|E].
  - exists [x30]. assert (n = 0) as -> by lia. split; [done|].
    split; [constructor; [by eexists|constructor]|]. split; [cbn; lia|].
    intros r Hr. cbn. by apply digits_value_end.
  - destruct (pretty_N_go_digits 20 (Z.to_N n) "") as (ds & Eds & Hds & Hl & Hne & Hv).
    { change (10 ^ N.of_nat 20)%N with (100000000000000000000)%N. lia. }
    exists ds. split; [rewrite Eds; apply app_nil_r|]. split; [done|].
    split; [specialize (Hne ltac:(lia)); destruct ds; [done|cbn in *; lia]|].
    intros r Hr. rewrite Hv, digits_value_end by done. lia.
Qed.

Lemma scan_ull_decimal n r :
  0 <= n < 2 ^ 64 -> number_ends r -> scan_ull (x20 :: decimal n ++ r) = Some (n, r).
Proof.
  intros Hn Hr. destruct (decimal_digits n Hn) as (ds & -> & Hds & Hl & Hv).
  destruct Hds as [|b ds [d Hd] Hds]; [cbn in Hl; lia|].
  assert (skip_spaces (x20 :: (b :: ds) ++ r) = (b :: ds) ++ r) as Es.
  { cbn. destruct (is_space b) eqn:E; [|done]. exfalso. revert Hd E. clear. by destruct b. }
  assert (skip_digits ((b :: ds) ++ r) = r) as Ek.
  { apply skip_digits_app; [|done]. constructor; [by exists d|done]. }
  assert (scan_sign ((b :: ds) ++ r) = (false, (b :: ds) ++ r)) as Em.
  { cbn. rewrite !decide_False; [done|..]; intros ->; discriminate Hd. }
  specialize (Hv r Hr). unfold scan_ull. rewrite Es, Em. cbn [app] in *. rewrite Hd, Hv, Ek.
  do 2 f_equal. lia.
Qed.

(** ** The line of the counters *)

(** The first line of /proc/stat: the kernel prints more counters than the
    five that are read, and more lines. *)
Definition proc_stat (t : Ticks) (rest : list byte) : list byte :=
  bytes_of "cpu" ++ [x20] ++ (x20 :: decimal (userTicks t)) ++ (x20 :: decimal (niceTicks t))
  ++ (x20 :: decimal (sysTicks t)) ++ (x20 :: decimal (idleTicks t))
  ++ (x20 :: decimal (waitTicks t)) ++ rest.

Definition is_counter (n : Z) : Prop := 0 <= n < 2 ^ 64.
Record counters (t : Ticks) : Prop := {
  ct_user : is_counter (userTicks t);
  ct_nice : is_counter (niceTicks t);
  ct_sys : is_counter (sysTicks t);
  ct_idle : is_counter (idleTicks t);
  ct_wait : is_counter (waitTicks t)
}.

Definition printed (l : list byte) : Prop := forallb (fun b => bool_decide (b <> x00)) l = true.
Lemma printed_decimal n : is_counter n -> printed (x20 :: decimal n) /\ (length (x20 :: decimal n) <= 21)%nat.
Proof.
  intros Hn. destruct (decimal_digits n Hn) as (ds & -> & Hds & Hl & _). split; [|cbn; lia].
  unfold printed. cbn [forallb]. apply andb_true_iff. split; [done|]. apply forallb_forall.
  intros b Hb%list_elem_of_In. rewrite Forall_forall in Hds. destruct (Hds b Hb) as [d Hd].
  apply bool_decide_eq_true. by intros ->.
Qed.
Lemma printed_app a b : printed a -> printed b -> printed (a ++ b).
Proof. unfold printed. rewrite forallb_app. by intros -> ->. Qed.

Lemma c_string_printed a l s : printed a -> c_string l = Some s -> c_string (a ++ l) = Some (a ++ s).
Proof.
  intros Ha Es. induction a as [|b a IH]; [done|]. unfold printed in Ha. cbn in Ha.
  apply andb_true_iff in Ha as [Hb Ha]. apply bool_decide_eq_true in Hb.
  cbn. by rewrite decide_False, IH.
Qed.

(** What is printed first is in the buffer, in front of a part of the rest. *)
Lemma in_buffer_app a rest :
  printed a -> (length a <= 255)%nat -> number_ends rest ->
  exists r, in_buffer (a ++ rest) = a ++ r /\ number_ends r.
Proof.
  intros Ha Hl Hr. unfold in_buffer. rewrite take_app_ge by done. rewrite <- app_assoc.
  exists (default [] (c_string (take (255 - length a) rest ++ [x00]))). split.
  - assert (exists s, c_string (take (255 - length a) rest ++ [x00]) = Some s) as [s Es].
    { generalize (take (255 - length a) rest). intros l.
      induction l as [|b l [s IH]]; [by exists []|]. cbn. destruct (decide _); [by exists []|].
      rewrite IH. by eexists. }
    rewrite Es, (c_string_printed a _ s); done.
  - destruct rest as [|b rest]; [by rewrite take_nil|]. destruct (255 - length a)%nat; [exact I|].
    cbn. destruct (decide _); [exact I|]. by destruct (c_string _).
Qed.

Lemma scan_ulls_cons n m r :
  is_counter n -> number_ends r -> scan_ulls (S m) (x20 :: decimal n ++ r) = n :: scan_ulls m r.
Proof. intros Hn Hr. cbn [scan_ulls]. by rewrite scan_ull_decimal. Qed.

Lemma scan_proc_stat t r :
  counters t -> number_ends r ->
  scan_ticks (proc_stat t r) = Some t.
Proof.
  intros [H1 H2 H3 H4 H5] Hr. unfold scan_ticks, proc_stat.
  change (skip_word (skip_spaces (bytes_of "cpu" ++ [x20] ++ ?l))) with (x20 :: l).
  cbn [app]. change (scan_ulls 5 (x20 :: x20 :: ?l)) with (scan_ulls 5 (x20 :: l)).
  rewrite !scan_ulls_cons by first [done|exact eq_refl]. by destruct t.
Qed.

(** ** What is made of the counters *)

(** The counters of the kernel only grow, and not by more than [2^64 / 1000]. *)
Record grown (prev curr : Ticks) : Prop := {
  gr_user : userTicks prev <= userTicks curr;
  gr_nice : niceTicks prev <= niceTicks curr;
  gr_sys : sysTicks prev <= sysTicks curr;
  gr_idle : idleTicks prev <= idleTicks curr;
  gr_wait : waitTicks prev <= waitTicks curr
}.
Definition sum_ticks (t : Ticks) : Z :=
  userTicks t + niceTicks t + sysTicks t + idleTicks t + waitTicks t.

Lemma u64_id z : 0 <= z < 2 ^ 64 -> u64 z = z.
Proof. intros Hz. unfold u64. by apply Z.mod_small. Qed.

Lemma total_grown prev curr :
  grown prev curr -> sum_ticks curr - sum_ticks prev < 2 ^ 64 ->
  totalTicks curr prev = sum_ticks curr - sum_ticks prev.
Proof.
  intros [] Hs. unfold totalTicks, sum_ticks in *.
  rewrite (u64_id (userTicks curr - _)), (u64_id (sysTicks curr - _)), (u64_id (niceTicks curr - _)),
    (u64_id (idleTicks curr - _)), (u64_id (waitTicks curr - _)), u64_id by lia. lia.
Qed.

Lemma load_of_spec curr prev total :
  0 <= curr - prev <= total -> 0 < total -> 1000 * total < 2 ^ 64 ->
  load_of curr prev total = 1000 * (curr - prev) / total /\ 0 <= load_of curr prev total <= 1000.
Proof.
  intros Hd Ht H64. unfold load_of. rewrite (u64_id (curr - prev)), u64_id by lia.
  assert (0 <= 1000 * (curr - prev) / total <= 1000) as Hb.
  { split; [apply Z.div_pos; lia|]. apply Z.div_le_upper_bound; lia. }
  rewrite i32_small by (apply is_i32_iff; lia). done.
Qed.

(** The loads are thousandths of what was done meanwhile. *)
Lemma account_bounds curr load :
  grown (ticks load) curr -> 1000 * (sum_ticks curr - sum_ticks (ticks load)) < 2 ^ 64 ->
  let load' := account curr load in
  0 <= userLoad load' /\ 0 <= niceLoad load' /\ 0 <= sysLoad load' /\ 0 <= idleLoad load' /\
  userLoad load' + niceLoad load' + sysLoad load' + idleLoad load' <= 1000 /\ ticks load' = curr.
Proof.
  intros Hg H64.
  assert (0 <= sum_ticks curr - sum_ticks (ticks load)) as H0 by (destruct Hg; unfold sum_ticks; lia).
  unfold account. cbv zeta. rewrite total_grown; [|done|lia].
  destruct (10 <? _) eqn:Et; boolify; cbn; [|by repeat split].
  destruct Hg. set (S := sum_ticks curr - sum_ticks (ticks load)) in *.
  assert (S = (userTicks curr - userTicks (ticks load)) + (niceTicks curr - niceTicks (ticks load))
    + (sysTicks curr - sysTicks (ticks load)) + (idleTicks curr - idleTicks (ticks load))
    + (waitTicks curr - waitTicks (ticks load))) as ES by (unfold S, sum_ticks; lia).
  destruct (load_of_spec (userTicks curr) (userTicks (ticks load)) S) as [Eu Hu]; [lia..|].
  destruct (load_of_spec (niceTicks curr) (niceTicks (ticks load)) S) as [En Hn]; [lia..|].
  destruct (load_of_spec (sysTicks curr) (sysTicks (ticks load)) S) as [Es Hs]; [lia..|].
  destruct (load_of_spec (idleTicks curr) (idleTicks (ticks load)) S) as [Ei Hi]; [lia..|].
  repeat split; try lia. rewrite Eu, En, Es, Ei. clearbody S.
  apply (Zmult_le_reg_r _ _ S ltac:(lia)). rewrite !Z.mul_add_distr_r.
  pose proof (Z.mul_div_le (1000 * (userTicks curr - userTicks (ticks load))) S ltac:(lia)).
  pose proof (Z.mul_div_le (1000 * (niceTicks curr - niceTicks (ticks load))) S ltac:(lia)).
  pose proof (Z.mul_div_le (1000 * (sysTicks curr - sysTicks (ticks load))) S ltac:(lia)).
  pose proof (Z.mul_div_le (1000 * (idleTicks curr - idleTicks (ticks load))) S ltac:(lia)).
  lia.
Qed.

Lemma updateCPULoad_printed t rest load :
  counters t -> number_ends rest -> (6 <= length rest)%nat ->
  updateCPULoad (Some (proc_stat t rest)) load = Ok (account t load).
Proof.
  intros Hc Hr Hl. destruct Hc as [H1 H2 H3 H4 H5] eqn:Ec. clear Ec. unfold updateCPULoad.
  assert (forall n, is_counter n -> (1 <= length (decimal n))%nat) as Hd.
  { intros n Hn. destruct (decimal_digits n Hn) as (ds & -> & _ & Hds & _). lia. }
  assert (too_short (proc_stat t rest) = false) as ->.
  { unfold too_short. apply Nat.ltb_ge. rewrite length_take. apply Nat.min_glb; [lia|].
    unfold proc_stat. rewrite !length_app. cbn [length].
    pose proof (Hd _ H1). pose proof (Hd _ H2). pose proof (Hd _ H3). pose proof (Hd _ H4).
    pose proof (Hd _ H5). change (length (bytes_of "cpu")) with 3%nat. lia. }
  set (a := bytes_of "cpu" ++ [x20] ++ (x20 :: decimal (userTicks t)) ++ (x20 :: decimal (niceTicks t))
    ++ (x20 :: decimal (sysTicks t)) ++ (x20 :: decimal (idleTicks t)) ++ (x20 :: decimal (waitTicks t))).
  assert (forall r, proc_stat t r = a ++ r) as Ea by (intros r; unfold proc_stat, a; by rewrite <- !app_assoc).
  destruct (in_buffer_app a rest) as (r & Er & Hr').
  - unfold a. repeat (apply printed_app; [first [done|by apply printed_decimal]|]). by apply printed_decimal.
  - unfold a. rewrite !length_app. destruct (printed_decimal _ H1) as [_ L1], (printed_decimal _ H2) as [_ L2],
      (printed_decimal _ H3) as [_ L3], (printed_decimal _ H4) as [_ L4], (printed_decimal _ H5) as [_ L5].
    change (length (bytes_of "cpu")) with 3%nat. change (length [x20]) with 1%nat. lia.
  - done.
  - rewrite Ea, Er, <- Ea, scan_proc_stat by done. done.
Qed.

(** ** Memory *)

Lemma digits_value_nonneg acc l : 0 <= acc -> 0 <= digits_value acc l.
Proof.
  revert acc. induction l as [|b l IH]; intros acc H; cbn; [done|].
  destruct (digit b) as [d|] eqn:E; [|done]. apply IH. unfold digit in E.
  destruct (_ && _) eqn:Eb; [|done]. boolify. injection E as <-. lia.
Qed.
Lemma scan_one_counter buff key : is_counter (scan_one buff key).
Proof.
  unfold scan_one. destruct (_ =? npos); [done|]. destruct (drop _ _) as [|b l]; [done|].
  assert (is_counter match scan_ull l with Some (val, _) => val | None => 0 end) as H.
  { unfold scan_ull. destruct (scan_sign _) as [[] [|c r]]; try done; destruct (digit c); try done.
    - unfold is_counter, u64. apply Z.mod_pos_bound. lia.
    - pose proof (digits_value_nonneg 0 (c :: r) ltac:(lia)). unfold is_counter. lia. }
  by destruct b.
Qed.
Lemma spare_bounds total v : 0 <= total -> 0 <= v -> 0 <= spare total v <= v.
Proof.
  intros Ht Hv. unfold spare. pose proof (Z.div_pos total 100 Ht ltac:(lia)).
  destruct (_ <? v) eqn:E; boolify; [lia|]. split; [apply Z.div_pos; lia|apply Z.div_le_upper_bound; lia].
Qed.

(** What is free, in buffers or in the cache is part of the memory. *)
Definition consistent (l : list byte) : Prop :=
  let buf := in_buffer l in
  let total := scan_one buf (bytes_of "MemTotal") in
  scan_one buf (bytes_of "MemFree") + scan_one buf (bytes_of "Buffers")
    + scan_one buf (bytes_of "Cached") <= total /\ 1000 * total < 2 ^ 64.

Lemma calculateMemLoad_bounds l :
  consistent l -> 0 <= (calculateMemLoad (Some l)).1 <= 1000.
Proof.
  unfold consistent, calculateMemLoad. destruct (too_short l); [cbn; lia|]. cbv zeta.
  set (total := scan_one _ (bytes_of "MemTotal")).
  pose proof (scan_one_counter (in_buffer l) (bytes_of "MemTotal")) as [H1 _]. fold total in H1.
  pose proof (scan_one_counter (in_buffer l) (bytes_of "MemFree")) as [H2 _].
  pose proof (scan_one_counter (in_buffer l) (bytes_of "Buffers")) as [H3 _].
  pose proof (scan_one_counter (in_buffer l) (bytes_of "Cached")) as [H4 _].
  intros [Hs H64]. destruct (total =? 0) eqn:E; boolify; [cbn; lia|]. cbn [fst].
  pose proof (spare_bounds total _ H1 H3) as B3. pose proof (spare_bounds total _ H1 H4) as B4.
  set (net := _ + spare total _ + spare total _).
  assert (0 <= net <= total) as Hn by (unfold net; lia). clearbody net.
  rewrite (u64_id net), u64_id by lia.
  assert (0 <= net * 1000 / total <= 1000) as Hb.
  { split; [apply Z.div_pos; lia|apply Z.div_le_upper_bound; lia]. }
  rewrite u32_small; [lia|]. apply is_u32_iff. lia.
Qed.

Lemma node_load_bounds ice diff mem : 0 <= mem <= 1000 -> 0 <= node_load ice diff mem <= 1000.
Proof.
  intros Hm. unfold node_load. set (idle := if diff =? 0 then _ else _).
  assert (0 <= idle) by (unfold idle; destruct (_ =? 0); apply u32_range). lia.
Qed.

(** ** Theorems *)

(** C24: the load is measured in thousandths. When the kernel prints counters
    that have not decreased and a memory of which no more than all is free, the
    daemon reads the counters as they are, idle and nice load together make at
    most 1000, and so does the load of the memory; whatever else goes into it,
    the load the daemon reports is between 0 and 1000. The new counters are
    remembered, so that the same holds the next time. *)
Theorem load_in_thousandths t rest meminfo avg load idle nice mem msg load' :
  counters t -> number_ends rest -> (6 <= length rest)%nat ->
  grown (ticks load) t -> 1000 * (sum_ticks t - sum_ticks (ticks load)) < 2 ^ 64 ->
  (forall l, meminfo = Some l -> consistent l) ->
  fill_stats (Some (proc_stat t rest)) meminfo avg load = Ok (idle, nice, mem, msg, load') ->
  0 <= idle /\ 0 <= nice /\ idle + nice <= 1000 /\ 0 <= mem <= 1000 /\
  (forall ice diff, 0 <= node_load ice diff mem <= 1000) /\ ticks load' = t.
Proof.
  intros Hc Hr Hl Hg H64 Hm E. unfold fill_stats in E. rewrite updateCPULoad_printed in E by done.
  destruct (account_bounds t load Hg H64) as (Hu & Hn & Hs & Hi & Hsum & Ht).
  assert (0 <= (calculateMemLoad meminfo).1 <= 1000) as Hb.
  { destruct meminfo as [l|]; [by apply calculateMemLoad_bounds, Hm|cbn; lia]. }
  destruct (calculateMemLoad meminfo) as [m free]. cbn [fst] in Hb.
  destruct avg as [[[a1 a5] a10]|]; [|done].
  destruct (load_average a1), (load_average a5), (load_average a10), (free_mebibytes free); try done.
  injection E as <- <- <- _ <-. rewrite !u64_id by lia.
  split; [lia|]. split; [lia|]. split; [lia|]. split; [lia|]. split; [|done].
  intros ice diff. by apply node_load_bounds.
Qed.

(** The time the kernel accounts as waiting may decrease (proc(5)); then the
    idle load exceeds 1000. *)
Lemma idle_load_exceeds load a b :
  0 < b < a -> 10 < a - b <= 1000 * b ->
  1000 * a < 2 ^ 31 ->
  let t := ticks load in
  let curr := mkTicks (userTicks t) (niceTicks t) (sysTicks t) (idleTicks t + a) (waitTicks t - b) in
  idleLoad (account curr load) = 1000 * a / (a - b) /\ 1000 < 1000 * a / (a - b).
Proof.
  intros Hb Hab H31 t curr. split.
  - unfold account. fold t. assert (totalTicks curr t = a - b) as ->.
    { unfold totalTicks, curr. cbn.
      replace (userTicks t - userTicks t) with 0 by lia. replace (niceTicks t - niceTicks t) with 0 by lia.
      replace (sysTicks t - sysTicks t) with 0 by lia.
      replace (idleTicks t + a - idleTicks t) with a by lia.
      replace (waitTicks t - b - waitTicks t) with (- b) by lia.
      change (u64 0) with 0. unfold u64. rewrite Z.add_mod_idemp_r by lia. rewrite (Z.mod_small a) by lia.
      rewrite Z.mod_small; lia. }
    rewrite (proj2 (Z.ltb_lt _ _)) by lia. cbn. unfold load_of.
    replace (idleTicks t + a - idleTicks t) with a by lia. rewrite (u64_id a), u64_id by lia.
    apply i32_small, is_i32_iff. split; [pose proof (Z.div_pos (1000 * a) (a - b)); lia|].
    apply Z.div_lt_upper_bound; nia.
  - assert (1001 <= 1000 * a / (a - b)) by (apply Z.div_le_lower_bound; lia). lia.
Qed.

(** The simulated averages forget their past. Each of the three averages is
    computed from the first one, so what the second and the third were before
    makes no difference to anything that is ever returned. *)
Theorem fake_averages_forget exp now entries jobs s s' :
  lastUpdate s = lastUpdate s' -> loads s !! 0%nat = loads s' !! 0%nat ->
  length (loads s) = 3%nat -> length (loads s') = 3%nat ->
  fakeloadavg exp now entries jobs s = fakeloadavg exp now entries jobs s'.
Proof.
  destruct s as [[|a [|b [|c [|? ?]]]] t], s' as [[|a' [|b' [|c' [|? ?]]]] t']; try done.
  cbn. intros <- [= <-] _ _. reflexivity.
Qed.

(** ** Samples *)

Definition sample_rest : list byte := bytes_of " 0 0 0 0 0" ++ [x0a].
Definition sample_before : CPULoadInfo := mkCPULoadInfo 0 0 0 1000 (mkTicks 900 20 250 3500 0).
Definition sample_after : Ticks := mkTicks 1000 30 300 4000 5.
Definition meminfo_line (key value : string) : list byte := bytes_of key ++ bytes_of value ++ [x0a].
Definition sample_meminfo : list byte :=
  meminfo_line "MemTotal:" "       16000000 kB" ++ meminfo_line "MemFree:" "         1000000 kB"
  ++ meminfo_line "MemAvailable:" "    9000000 kB" ++ meminfo_line "Buffers:" "          500000 kB"
  ++ meminfo_line "Cached:" "          8000000 kB" ++ meminfo_line "SwapCached:" "            0 kB".
Definition sample_averages : float * float * float := (f64_lit 15 10, f64_lit 5 10, f64_lit 25 100).

Example sample_text :
  str_of (proc_stat sample_after sample_rest) = ("cpu  1000 30 300 4000 5 0 0 0 0 0" +:+ str_of [x0a])%string.
Proof. vm_compute. reflexivity. Qed.

Lemma sample_consistent : consistent sample_meminfo.
Proof. unfold consistent. vm_compute. split; [discriminate|reflexivity]. Qed.
Lemma sample_counters : counters sample_after.
Proof. split; (split; [discriminate|reflexivity]). Qed.

Lemma load_in_thousandths_witness :
  exists idle nice mem msg load',
    fill_stats (Some (proc_stat sample_after sample_rest)) (Some sample_meminfo) (Some sample_averages)
      sample_before = Ok (idle, nice, mem, msg, load') /\
    idle = 751 /\ nice = 15 /\ mem = 427 /\ st_loadAvg1 msg = 1500 /\ st_freeMem msg = 8965 /\
    idle + nice <= 1000 /\ ticks load' = sample_after.
Proof.
  destruct (fill_stats (Some (proc_stat sample_after sample_rest)) (Some sample_meminfo)
    (Some sample_averages) sample_before) as [[[[[idle nice] mem] msg] load']|f] eqn:E.
  2: { exfalso. revert E. vm_compute. discriminate. }
  exists idle, nice, mem, msg, load'. split; [done|].
  destruct (load_in_thousandths sample_after sample_rest (Some sample_meminfo) (Some sample_averages)
    sample_before idle nice mem msg load') as (_ & _ & H1 & _ & _ & H2); try exact E.
  - apply sample_counters.
  - exact eq_refl.
  - vm_compute. lia.
  - split; vm_compute; discriminate.
  - reflexivity.
  - intros l El. injection El as <-. apply sample_consistent.
  - assert (idle = 751 /\ nice = 15 /\ mem = 427 /\ st_loadAvg1 msg = 1500 /\ st_freeMem msg = 8965)
      as (E1 & E2 & E3 & E4 & E5) by (revert E; vm_compute; intros [= <- <- <- <- <-]; by repeat split).
    by repeat split.
Defined.

Lemma fake_averages_forget_witness :
  fakeloadavg (fun x => x) (f64_of_Z 60) 3 4 (mkFakeLoad [f64_of_Z 1; f64_of_Z 2; f64_of_Z 3] (f64_of_Z 0))
  = fakeloadavg (fun x => x) (f64_of_Z 60) 3 4 (mkFakeLoad [f64_of_Z 1; f64_of_Z 7; f64_of_Z 9] (f64_of_Z 0)).
Proof. apply fake_averages_forget; reflexivity. Defined.
