(* ===== verification/DaemonLoop.v ===== *)
(** * What the daemon answers (daemon/main.cpp)

    The handlers of the messages of clients and of the scheduler, the start of
    waiting jobs, the children that finish, and the main loop. *)

From Stdlib Require Import ZArith Lia.
From Stdlib Require Import Strings.Byte Strings.String.
From stdpp Require Import base tactics option list gmap strings pretty.
From S2P Require Import Prelude ExitCode MsgChannel CompileJob Msg Interface StdString Transport Compilers DaemonState Environments Daemon.

#[local] Open Scope Z_scope.

Section handlers.
Context `{Channels} `{System} (cfg : Config).

(** ** The scheduler's answers *)

(** A job for a client that is gone. *)
Definition refuse_job (job_id : Z) : daemon Z :=
  n ← clients_size;
  ok ← send_scheduler cfg (JobDone (new_JobDoneMsg (i32 job_id) 107 FROM_SUBMITTER n));
  mret (if ok : bool then 0 else 1).

(** The client is to compile on its own machine when there is a slot. *)
Definition set_pending (p : positive) (platform : string) (job_id matched : Z) : daemon unit :=
  update_client p (fun cl => set_cl_status PENDING_USE_CS (set_cl_usecsmsg
    (Some (new_UseCSMsg platform "127.0.0.1" (k_daemon_port cfg) job_id true 1 matched)) cl)).

(** The client compiles on this machine, or is sent to the other one. *)
Definition use_cs (p : positive) (msg : UseCSMsg) : daemon Z :=
  s ← get;
  if bool_decide (ucs_hostname msg = d_remote_name s) && (i32 (ucs_port msg) =? k_daemon_port cfg)
  then
    _ ← set_pending p (ucs_host_platform msg) (ucs_job_id msg) (ucs_matched_job_id msg);
    _ ← update_client p (set_cl_job_id (ucs_job_id msg));
    mret 0
  else
    _ ← update_client p (set_cl_usecsmsg (Some (new_UseCSMsg (ucs_host_platform msg)
          (ucs_hostname msg) (ucs_port msg) (ucs_job_id msg) true 1 (ucs_matched_job_id msg))));
    ok ← client_send p (UseCS msg);
    if negb ok then _ ← handle_end cfg p 143; mret 0
    else
      _ ← update_client p (set_cl_status WAITCOMPILE);
      _ ← update_client p (set_cl_job_id (ucs_job_id msg));
      mret 0.

Definition scheduler_use_cs (msg : UseCSMsg) : daemon Z :=
  l ← all_clients;
  match find_by_client_id (i32 (ucs_client_id msg)) l with
  | None => refuse_job (ucs_job_id msg)
  | Some (p, _) => use_cs p msg
  end.

Definition scheduler_no_cs (msg : NoCSMsg) : daemon Z :=
  l ← all_clients;
  match find_by_client_id (i32 (ncs_client_id msg)) l with
  | None => refuse_job (ncs_job_id msg)
  | Some (p, _) =>
      _ ← set_pending p "" (ncs_job_id msg) 0;
      _ ← update_client p (set_cl_job_id (ncs_job_id msg));
      mret 0
  end.

Definition handle_cs_conf (msg : ConfCSMsg) : daemon Z :=
  _ ← modify (fun s => set_d_max_scheduler_pong (i32 (cc_max_scheduler_pong msg))
        (set_d_max_scheduler_ping (i32 (cc_max_scheduler_ping msg)) s));
  mret 0.

(** ** Environments sent by clients *)

(** The [while (len)] loop: whether to go on. A child that is gone may have
    finished. *)
Fixpoint write_chunk (fuel : nat) (fd : Z) (buf : list byte) : daemon bool :=
  match buf with
  | [] => mret true
  | _ =>
      r ← ask (fun t => sys_write t fd buf);
      match r, fuel with
      | inl n, S fuel => write_chunk fuel fd (drop (Z.to_nat n) buf)
      | inl _, O => throw Aborted
      | inr broken_pipe, _ => mret broken_pipe
      end
  end.

Definition handle_file_chunk_env (p : positive) (msg : Msg) : daemon bool :=
  cl ← deref_client p;
  _ ← assert (installing (cl_status cl));
  _ ← assert (0 <=? cl_pipe_to_child cl);
  match msg with
  | FileChunk fcmsg =>
      let buf := take (Z.to_nat (fc_len fcmsg)) (default [] (fc_buffer fcmsg)) in
      ok ← write_chunk (length buf) (cl_pipe_to_child cl) buf;
      if ok : bool then mret true
      else _ ← handle_end cfg p 137; mret false
  | EndMsg =>
      _ ← close_to p;
      if 0 <=? cl_child_pid cl then _ ← set_status WAITINSTALL p; mret true
      else finish_transfer_env cfg p false
  | _ => _ ← handle_end cfg p 138; mret false
  end.

(** No child could be started. *)
Definition refuse_env (p : positive) (env : string) : daemon bool :=
  _ ← remove_environment_files cfg env;
  _ ← handle_end cfg p 144;
  mret false.

Definition handle_transfer_env (p : positive) (emsg : EnvTransferMsg) : daemon bool :=
  cl ← deref_client p;
  _ ← assert (match cl_status cl with
              | TOINSTALL | WAITINSTALL | TOCOMPILE | WAITCOMPILE => false | _ => true end);
  _ ← assert (cl_pipe_from_child cl <? 0);
  _ ← assert (cl_pipe_to_child cl <? 0);
  let target := if decide (et_target emsg = ""%string) then k_machine_name cfg
                else et_target emsg in
  let env := (target +:+ "/" +:+ et_name emsg)%string in
  child ← start_install_environment cfg target (et_name emsg) p;
  match child with
  | Some (pid, to, from, fmsg) =>
      if pid <=? 0 then refuse_env p env
      else
        _ ← update_client p (fun cl => set_cl_outfile env (set_cl_status TOINSTALL cl));
        _ ← (_ ← kid_started;
             update_client p (fun cl => set_cl_child_pid pid (set_cl_pipe_from_child from
               (set_cl_pipe_to_child to cl))));
        handle_file_chunk_env p (FileChunk fmsg)
  | None => refuse_env p env
  end.

Definition handle_env_install_child_done (p : positive) : daemon bool :=
  cl ← deref_client p;
  _ ← assert (installing (cl_status cl));
  _ ← assert (0 <=? cl_child_pid cl);
  _ ← assert (0 <=? cl_pipe_from_child cl);
  r ← ask (fun t => sys_read t (cl_pipe_from_child cl) 1);
  let success := bool_decide (r = Some [x00]) in
  _ ← child_gone p;
  _ ← close_from p;
  if negb success then finish_transfer_env cfg p true
  else if 0 <=? cl_pipe_to_child cl then
    _ ← assert (bool_decide (cl_status cl = TOINSTALL)); mret true
  else finish_transfer_env cfg p false.

(** ** Environments for the compilers of this machine *)

Definition native (env_key : string) : daemon NativeEnvironment :=
  s ← get;
  let env := default new_NativeEnvironment (d_native s !! env_key) in
  _ ← put (set_d_native (<[env_key := env]> (d_native s)) s);
  mret env.
Definition update_native (env_key : string) (f : NativeEnvironment -> NativeEnvironment)
  : daemon unit :=
  env ← native env_key;
  modify (fun s => set_d_native (<[env_key := f env]> (d_native s)) s).

Definition finish_get_native_env (p : positive) (env_key : string) : daemon bool :=
  cl ← deref_client p;
  _ ← assert (bool_decide (cl_status cl = WAITCREATEENV));
  _ ← assert (bool_decide (cl_pending_create_env cl = env_key));
  env ← native env_key;
  ok ← client_send p (UseNativeEnv (ne_name env));
  if negb ok then _ ← handle_end cfg p 138; mret false
  else
    t ← ask sys_time;
    _ ← update_native env_key (set_ne_last_use t);
    _ ← update_client p (fun cl => set_cl_pending_create_env "" (set_cl_status GOTNATIVE cl));
    mret true.

(** The extra files: their times, and the key of the environment. [None] when
    one is missing. *)
Fixpoint stat_extrafiles (l : list string) (key : string) (times : gmap string Z)
  : daemon (option (string * gmap string Z)) :=
  match l with
  | [] => mret (Some (key, times))
  | f :: l =>
      st ← ask (fun t => sys_stat t f);
      match st with
      | None => mret None
      | Some (mtime, _) => stat_extrafiles l (key +:+ ":" +:+ f)%string (<[f := mtime]> times)
      end
  end.

Definition no_compiler (p : positive) : daemon bool :=
  _ ← client_send p EndMsg; _ ← handle_end cfg p 122; mret false.

Definition handle_get_native_env (p : positive) (msg : GetNativeEnvMsg) : daemon bool :=
  cl ← deref_client p;
  let compiler :=
    if negb (is_protocol_version 41 (cl_channel cl))
       && bool_decide (x2f ∉ bytes_of (gn_compiler msg))
    then ("/usr/bin/" +:+ gn_compiler msg)%string else gn_compiler msg in
  ccompiler ← lift (get_c_compiler compiler);
  cppcompiler ← lift (get_cpp_compiler compiler);
  st ← ask (fun t => sys_stat t ccompiler);
  match st with
  | None => no_compiler p
  | Some (ctime, _) =>
      st ← ask (fun t => sys_stat t cppcompiler);
      let times := match st with
                   | Some (cpptime, _) => <[cppcompiler := cpptime]> {[ccompiler := ctime]}
                   | None => {[ccompiler := ctime]}
                   end in
      r ← stat_extrafiles (gn_extrafiles msg) (gn_compression msg +:+ ":" +:+ ccompiler)%string times;
      match r with
      | None => no_compiler p
      | Some (env_key, filetimes) =>
          env ← native env_key;
          _ ← (if decide (ne_name env = ""%string) then mret tt
               else
                 stale ← (if bool_decide (ne_filetimes env <> filetimes) then mret true
                          else ok ← ask (fun t => sys_access t (ne_name env)); mret (negb ok));
                 when stale (remove_native_environment (ne_name env)));
          _ ← update_client p (fun cl => set_cl_pending_create_env env_key
                (set_cl_status WAITCREATEENV cl));
          env ← native env_key;
          if decide (ne_name env <> ""%string) then finish_get_native_env p env_key
          else
            _ ← when (ne_create_env_pipe env =? 0)
                  (_ ← update_native env_key (set_ne_filetimes filetimes);
                   pipe ← start_create_env ccompiler (gn_extrafiles msg) (gn_compression msg);
                   update_native env_key (set_ne_create_env_pipe pipe));
            mret true
      end
  end.

(** The clients that wait for an environment that could not be made are ended;
    the scan starts again after each. *)
Fixpoint fail_waiting (fuel : nat) (env_key : string) : daemon unit :=
  l ← all_clients;
  match filter (fun e : positive * Client => cl_pending_create_env e.2 = env_key) l, fuel with
  | [], _ => mret tt
  | (p, _) :: _, S fuel =>
      _ ← client_send p EndMsg;
      _ ← handle_end cfg p 121;
      fail_waiting fuel env_key
  | _ :: _, O => throw Aborted
  end.

(** The loop that serves them. Its iterator is advanced after the body, which
    may have erased the entry it is at. *)
Fixpoint serve_waiting (fuel : nat) (env_key : string) (it : option (Z * positive)) : daemon unit :=
  match it, fuel with
  | Some (k, p), S fuel =>
      cl ← deref_client p;
      _ ← when (bool_decide (cl_pending_create_env cl = env_key))
            (_ ← finish_get_native_env p env_key; mret tt);
      m ← gets d_clients;
      _ ← need UseAfterFree (m !! k);
      serve_waiting fuel env_key (next_key (Some k) m)
  | _, _ => mret tt
  end.

Definition create_env_finished (env_key : string) : daemon bool :=
  s ← get;
  env ← need AssertFailed (d_native s !! env_key);
  _ ← assert (negb (ne_create_env_pipe env =? 0));
  r ← finish_create_env cfg (ne_create_env_pipe env);
  _ ← update_native env_key (fun env => set_ne_create_env_pipe 0
        (set_ne_name (default (ne_name env) r.2) env));
  _ ← modify (fun s => set_d_cache_size (u64 (d_cache_size s + r.1)) s);
  m ← gets d_clients;
  if r.1 =? 0 then _ ← fail_waiting (size m) env_key; mret false
  else
    t ← ask sys_time;
    _ ← update_native env_key (fun env => set_ne_size r.1 (set_ne_last_use t env));
    env ← native env_key;
    _ ← check_cache_size cfg (ne_name env);
    m ← gets d_clients;
    _ ← serve_waiting (size m) env_key (next_key None m);
    mret true.

(** ** Jobs *)

(** [(user_msec + sys_msec) / num_cpus] is taken for time spent on the job. *)
Definition account_job (m : JobDoneMsg) : daemon unit :=
  let used := u32 (jd_user_msec m + jd_sys_msec m) in
  when (negb (is_from_server m) && (used <=? jd_real_msec m))
    (if k_num_cpus cfg =? 0 then throw DivByZero
     else modify (fun s => set_d_icecream_load
            (u64 (d_icecream_load s + used / u32 (k_num_cpus cfg))) s)).

Definition with_client_count (n : Z) (m : JobDoneMsg) : JobDoneMsg :=
  mkJobDoneMsg (jd_real_msec m) (jd_user_msec m) (jd_sys_msec m) (jd_pfaults m) (jd_exitcode m)
    (jd_flags m) (jd_in_compressed m) (jd_in_uncompressed m) (jd_out_compressed m)
    (jd_out_uncompressed m) (jd_job_id m) n.

Definition handle_job_done (p : positive) (m : JobDoneMsg) : daemon bool :=
  cl ← deref_client p;
  _ ← when (bool_decide (cl_status cl = CLIENTWORK)) (reserve (- slots_of cfg (cl_fulljob cl)));
  _ ← update_client p (fun cl => set_cl_fulljob false (set_cl_status JOBDONE cl));
  _ ← account_job m;
  _ ← assert (jd_job_id m =? cl_job_id cl);
  _ ← update_client p (set_cl_job_id 0);
  n ← clients_size;
  send_scheduler cfg (JobDone (with_client_count n m)).

(** *** Starting a waiting job *)

(** Whether a slot is free. *)
Definition has_slot : daemon bool :=
  gets (fun s => u32 (d_current_kids s + d_active_processes s) <? all_slots cfg).

(** A client works, with slots reserved for it. *)
Definition start_work (p : positive) (slots : Z) : daemon unit :=
  _ ← set_status CLIENTWORK p; reserve slots.

(** A client that may do local work, such as linking; whether to go on. *)
Definition start_local (p : positive) : daemon bool :=
  t ← ask sys_time;
  ok ← client_send p (JobLocalBegin (mkJobLocalBeginMsg "" (u32 t) 0 false 0));
  if negb ok then _ ← handle_end cfg p 112; mret true
  else
    cl ← deref_client p;
    _ ← start_work p (slots_of cfg (cl_fulljob cl));
    t ← ask sys_time;
    send_scheduler cfg (JobLocalBegin (mkJobLocalBeginMsg (cl_outfile cl) (u32 t)
      (u32 (cl_client_id cl)) (cl_fulljob cl) 0)).

(** A client that compiles itself: it is told to. *)
Definition start_pending (p : positive) : daemon unit :=
  cl ← deref_client p;
  m ← need NullDeref (cl_usecsmsg cl);
  ok ← client_send p (UseCS m);
  if ok : bool then start_work p 1
  else handle_end cfg p 129.

(** A job that a child compiles here. *)
Definition start_compile (p : positive) : daemon unit :=
  cl ← deref_client p;
  job ← need AssertFailed (cl_job cl);
  t ← ask sys_time;
  _ ← modify (fun s => set_d_received
        (<[env_for_job job := set_re_last_use t
             (default new_ReceivedEnvironment (d_received s !! env_for_job job))]> (d_received s)) s);
  child ← ask sys_fork_compile;
  match child with
  | Some (pid, sock) =>
      _ ← assert (0 <=? pid);
      if 0 <? pid then
        _ ← (_ ← kid_started;
             update_client p (fun cl => set_cl_status WAITFORCHILD (set_cl_pipe_from_child sock
               (set_cl_child_pid pid cl))));
        n ← clients_size;
        t ← ask sys_time;
        _ ← send_scheduler cfg (JobBegin (mkJobBeginMsg (j_id job) (u32 t) n));
        mret tt
      else handle_end cfg p 117
  | None => handle_end cfg p 117
  end.

(** Every round serves a client that waits. *)
Fixpoint old_requests (fuel : nat) : daemon unit :=
  free ← has_slot;
  if negb free then mret tt
  else
    l ← all_clients;
    s ← get;
    match get_earliest_client LINKJOB l, get_earliest_client PENDING_USE_CS l,
          (if 1000 <=? d_current_load s then None else get_earliest_client TOCOMPILE l), fuel with
    | None, None, None, _ => mret tt
    | _, _, _, O => throw Aborted
    | Some (p, _), _, _, S fuel =>
        more ← start_local p; when more (old_requests fuel)
    | None, Some (p, _), _, S fuel => _ ← start_pending p; old_requests fuel
    | None, None, Some (p, _), S fuel => _ ← start_compile p; old_requests fuel
    end.
Definition handle_old_request : daemon unit :=
  m ← gets d_clients; old_requests (size m).

(** *** A job that is done *)

(** The statistics a child writes: eight words. *)
Definition job_stat (data : option (list byte)) : option (list Z) :=
  match data with
  | Some d =>
      if (length d =? 32)%nat
      then Some (map (fun i => le_value (take 4 (drop (4 * i) d))) (seq 0 8)) else None
  | None => None
  end.

(** The message for the scheduler and the exit code of the job. *)
Definition compile_stats (id n : Z) (stats : option (list Z)) : JobDoneMsg * Z :=
  let none := new_JobDoneMsg id (-1) FROM_SERVER n in
  match stats with
  | Some [in_compressed; in_uncompressed; out_uncompressed; exit_code; real_msec; user_msec;
          sys_msec; sys_pfaults] =>
      (mkJobDoneMsg real_msec user_msec sys_msec sys_pfaults (i32 exit_code) (jd_flags none)
         in_compressed in_uncompressed out_uncompressed out_uncompressed (jd_job_id none)
         (jd_client_count none), i32 exit_code)
  | _ => (none, 151)
  end.

Definition handle_compile_done (p : positive) : daemon bool :=
  cl ← deref_client p;
  _ ← assert (bool_decide (cl_status cl = WAITFORCHILD));
  _ ← assert (0 <? cl_child_pid cl);
  _ ← assert (0 <=? cl_pipe_from_child cl);
  job ← need NullDeref (cl_job cl);
  n ← clients_size;
  _ ← kid_done;
  data ← ask (fun t => sys_read t (cl_pipe_from_child cl) 32);
  let '(msg, end_status) := compile_stats (i32 (j_id job)) n (job_stat data) in
  _ ← close_from p;
  t ← ask sys_time;
  _ ← modify (fun s => set_d_received
        (<[env_for_job job := set_re_last_use t
             (default new_ReceivedEnvironment (d_received s !! env_for_job job))]> (d_received s)) s);
  _ ← when (end_status =? EXIT_COMPILER_MISSING)
        (_ ← remove_environment cfg (env_for_job job);
         _ ← reannounce_environments cfg; mret tt);
  _ ← send_scheduler cfg (JobDone msg);
  _ ← handle_end cfg p end_status;
  mret false.

Definition handle_compile_file (p : positive) (job : CompileJob) : daemon bool :=
  _ ← update_client p (set_cl_job (Some job));
  cl ← deref_client p;
  if decide (cl_status cl = CLIENTWORK) then
    _ ← assert (bool_decide (j_environment_version job = "__client"%string));
    n ← clients_size;
    t ← ask sys_time;
    send_scheduler cfg (JobBegin (mkJobBeginMsg (j_id job) (u32 t) n))
  else _ ← set_status TOCOMPILE p; mret true.

(** ** Other messages of clients *)

Definition handle_verify_env (p : positive) (msg : VerifyEnvMsg) : daemon bool :=
  ok ← verify_env cfg p (ve_target msg) (ve_environment msg);
  client_send p (VerifyEnvResult ok).

Definition handle_blacklist_host_env (msg : BlacklistHostEnvMsg) : daemon bool :=
  send_scheduler cfg (BlacklistHostEnv msg).

Definition with_client (id count : Z) (m : GetCSMsg) : GetCSMsg :=
  mkGetCSMsg (gcs_versions m) (gcs_filename m) (gcs_lang m) (gcs_count m) (gcs_target m)
    (gcs_arg_flags m) id (gcs_preferred_host m) (gcs_minimal_host_version m)
    (gcs_required_features m) count (gcs_niceness m).

Definition handle_get_cs (p : positive) (umsg : GetCSMsg) : daemon bool :=
  _ ← update_client p (fun cl => set_cl_niceness (gcs_niceness umsg) (set_cl_status WAITFORCS cl));
  cl ← deref_client p;
  s ← get;
  let id := u32 (cl_client_id cl) in
  if decide (d_scheduler s = None) then
    _ ← set_pending p (gcs_target umsg) id 0;
    _ ← update_client p (set_cl_job_id id);
    mret true
  else
    n ← clients_size;
    send_scheduler cfg (GetCS (with_client id n umsg)).

Definition handle_local_job (p : positive) (m : JobLocalBeginMsg) : daemon bool :=
  _ ← update_client p (fun cl => set_cl_fulljob (jl_fulljob m) (set_cl_outfile (jl_outfile m)
        (set_cl_niceness (jl_niceness m) (set_cl_status LINKJOB cl))));
  mret true.

Definition handle_msg (p : positive) (msg : Msg) : daemon bool :=
  match msg with
  | GetNativeEnv m => handle_get_native_env p m
  | CompileFile job => handle_compile_file p job
  | EnvTransfer m => handle_transfer_env p m
  | GetCS m => handle_get_cs p m
  | EndMsg => _ ← handle_end cfg p 119; mret false
  | JobLocalBegin m => handle_local_job p m
  | JobDone m => handle_job_done p m
  | VerifyEnv m => handle_verify_env p m
  | BlacklistHostEnv m => handle_blacklist_host_env m
  | _ => _ ← client_send p EndMsg; _ ← handle_end cfg p 120; mret false
  end.

Definition handle_activity (p : positive) : daemon bool :=
  cl ← deref_client p;
  _ ← assert (negb (bool_decide (cl_status cl = TOCOMPILE))
              && negb (bool_decide (cl_status cl = WAITINSTALL)));
  msg ← on_client p (ch_get 0 true);
  match msg with
  | None => _ ← handle_end cfg p 118; mret false
  | Some msg =>
      if decide (cl_status cl = TOINSTALL) then handle_file_chunk_env p msg
      else handle_msg p msg
  end.
End handlers.

(** ** The main loop

    [dump_internals] is the text of [Daemon::dump_internals], [version] the one
    [DiscoverSched] is made with. Messages are handled as long as there are any;
    the fuel [msgs] of the loops over messages is the number of them that a peer
    has sent. *)

Section loop.
Context `{Channels} `{System} (cfg : Config) (dump_internals : Daemon -> string).

Definition on_scheduler {A} (r : reader A) : daemon A :=
  s ← get;
  c ← need NullDeref (d_scheduler s);
  match r c with
  | Ok (a, c) => _ ← modify (set_d_scheduler (Some c)); mret a
  | Fault f => throw f
  end.

Definition scheduler_get_internals : daemon Z :=
  s ← get;
  ok ← send_scheduler cfg (StatusText (dump_internals s));
  mret (if ok : bool then 0 else 1).

(** A message of the scheduler; the result is not 0 when the connection is to
    be closed. *)
Definition scheduler_msg (msg : Msg) : daemon Z :=
  match msg with
  | PingMsg =>
      s ← get;
      c ← need NullDeref (d_scheduler s);
      if is_protocol_version 27 c then mret 0
      else ok ← send_scheduler cfg PingMsg; mret (if ok : bool then 0 else 1)
  | UseCS m => scheduler_use_cs cfg m
  | NoCS m => scheduler_no_cs cfg m
  | GetInternalStatus => scheduler_get_internals
  | ConfCS m => handle_cs_conf m
  | _ => mret 1
  end.

(** Whether to go on with the clients. *)
Fixpoint scheduler_input (msgs : nat) : daemon bool :=
  ok ← on_scheduler ch_read;
  has ← on_scheduler (gets has_msg);
  match negb ok || has, msgs with
  | false, _ => mret true
  | true, O => mret true
  | true, S msgs =>
      msg ← on_scheduler (ch_get 0 true);
      match msg with
      | None => _ ← close_scheduler cfg; _ ← clear_children cfg; mret false
      | Some msg =>
          ret ← scheduler_msg msg;
          if ret =? 0 then scheduler_input msgs
          else _ ← close_scheduler cfg; mret false
      end
  end.

(** A status in which the input of a client is left alone. *)
Definition left_alone (st : Status) : bool :=
  match st with TOCOMPILE | WAITFORCHILD | WAITINSTALL => true | _ => false end.

(** [while (!c->read_a_bit() || c->has_msg())] around [handle_activity]. *)
Fixpoint client_input (msgs : nat) (p : positive) : daemon unit :=
  ok ← on_client p ch_read;
  has ← on_client p (gets has_msg);
  match negb ok || has, msgs with
  | false, _ => mret tt
  | true, O => mret tt
  | true, S msgs =>
      more ← handle_activity cfg p;
      if negb more then mret tt
      else
        cl ← deref_client p;
        if left_alone (cl_status cl) then mret tt else client_input msgs p
  end.

(** The descriptors of the clients to poll: those with complete messages are
    served first. *)
Fixpoint client_fds (fuel : nat) (it : option (Z * positive)) (fds : list Z) : daemon (list Z) :=
  match it, fuel with
  | Some (i, _), S fuel =>
      m ← gets d_fd2client;
      p ← need UseAfterFree (m !! i);
      let next := next_key (Some i) m in
      cl ← deref_client p;
      let current_status := cl_status cl in
      watch ← (match current_status with
               | TOCOMPILE => mret true
               | WAITFORCHILD | WAITINSTALL => mret false
               | _ => if negb (has_msg (cl_channel cl)) then mret true else handle_activity cfg p
               end);
      child ← (match current_status with
               | WAITFORCHILD | TOINSTALL | WAITINSTALL =>
                   cl ← deref_client p;
                   mret (if cl_pipe_from_child cl =? -1 then [] else [cl_pipe_from_child cl])
               | _ => mret []
               end);
      client_fds fuel next (fds ++ (if watch : bool then [i] else []) ++ child)
  | _, _ => mret fds
  end.

Definition listen_fds : list Z :=
  (if k_tcp_listen_fd cfg =? -1 then [] else [k_tcp_listen_fd cfg])
  ++ (if k_tcp_listen_local_fd cfg =? -1 then [] else [k_tcp_listen_local_fd cfg])
  ++ [k_unix_listen_fd cfg].

(** [pollfd_is_set]: the descriptor was polled and is ready. *)
Definition is_set (fds ready : list Z) (fd : Z) : bool := bool_decide (fd ∈ fds /\ fd ∈ ready).

(** The last of the listening descriptors that is ready. *)
Definition listen_ready (set : Z -> bool) : option Z :=
  if set (k_unix_listen_fd cfg) then Some (k_unix_listen_fd cfg)
  else if negb (k_tcp_listen_local_fd cfg =? -1) && set (k_tcp_listen_local_fd cfg)
  then Some (k_tcp_listen_local_fd cfg)
  else if negb (k_tcp_listen_fd cfg =? -1) && set (k_tcp_listen_fd cfg)
  then Some (k_tcp_listen_fd cfg) else None.

Definition add_client (c : MsgChannel) (chan : Z) (p : positive) (s : Daemon) : Daemon :=
  let id := i32 (d_new_client_id s + 1) in
  set_d_heap (<[p := new_Client id chan c]> (d_heap s))
  (set_d_clients (<[chan := p]> (d_clients s))
  (set_d_fd2client (<[c_fd c := p]> (d_fd2client s)) (set_d_new_client_id id s))).
Definition accept_client (msgs : nat) (c : MsgChannel) (chan : Z) (p : positive) : daemon unit :=
  _ ← modify (add_client c chan p);
  client_input msgs p.

(** A client whose descriptor or whose child is ready; whether to go on. *)
Definition client_ready (msgs : nat) (set : Z -> bool) (i : Z) (p : positive) : daemon bool :=
  cl ← deref_client p;
  more ← (if bool_decide (cl_status cl = WAITFORCHILD) && (0 <=? cl_pipe_from_child cl)
             && set (cl_pipe_from_child cl)
          then handle_compile_done cfg p else mret true);
  if negb more then mret false
  else
    cl ← deref_client p;
    more ← (if installing (cl_status cl) && (0 <=? cl_pipe_from_child cl)
               && set (cl_pipe_from_child cl)
            then handle_env_install_child_done cfg p else mret true);
    if negb more then mret false
    else if negb (set i) then mret true
    else
      cl ← deref_client p;
      _ ← (if decide (cl_status cl = TOCOMPILE) then _ ← on_client p ch_read; mret tt
           else
             _ ← assert (negb (bool_decide (cl_status cl = WAITINSTALL)));
             client_input msgs p);
      mret true.

Fixpoint clients_ready (fuel msgs : nat) (set : Z -> bool) (it : option (Z * positive))
  : daemon bool :=
  match it, fuel with
  | Some (i, _), S fuel =>
      m ← gets d_fd2client;
      p ← need UseAfterFree (m !! i);
      let next := next_key (Some i) m in
      more ← client_ready msgs set i p;
      if more : bool then clients_ready fuel msgs set next else mret false
  | _, _ => mret true
  end.

(** The environments whose creation has an answer. *)
Fixpoint envs_ready (fuel : nat) (set : Z -> bool) (it : option (string * NativeEnvironment))
  : daemon unit :=
  match it, fuel with
  | Some (key, _), S fuel =>
      m ← gets d_native;
      env ← need UseAfterFree (m !! key);
      _ ← (if negb (ne_create_env_pipe env =? 0) && set (ne_create_env_pipe env) then
             ok ← create_env_finished cfg key;
             m ← gets d_native;
             _ ← need UseAfterFree (m !! key);
             when (negb ok) (modify (fun s => set_d_native (delete key (d_native s)) s))
           else mret tt);
      m ← gets d_native;
      envs_ready fuel set (next_name (Some key) m)
  | _, _ => mret tt
  end.

(** What was ready when [poll] returned. *)
Definition handle_ready (msgs : nat) (fds ready : list Z) : daemon unit :=
  s ← get;
  let set := is_set fds ready in
  let had_scheduler := bool_decide (d_scheduler s <> None) in
  more ← (match d_scheduler s with
          | Some c => if set (c_fd c) then scheduler_input msgs else mret true
          | None => mret true
          end);
  if negb more then mret tt
  else
    more ← (match listen_ready set with
            | Some listen_fd =>
                c ← ask (fun t => sys_accept t listen_fd);
                match c with
                | Some (c, chan, p) => _ ← accept_client msgs c chan p; mret true
                | None => mret false
                end
            | None =>
                m ← gets d_fd2client;
                more ← clients_ready (size m) msgs set (next_key None m);
                if negb more then mret false
                else
                  m ← gets d_native;
                  _ ← envs_ready (size m) set (next_name None m);
                  mret true
            end);
    s ← get;
    when (more && had_scheduler && bool_decide (d_scheduler s = None)) (clear_children cfg).

Definition answer_client_requests (msgs : nat) : daemon unit :=
  _ ← handle_old_request cfg;
  s ← get;
  _ ← (if decide (d_scheduler s = None) then mret true else maybe_stats cfg false);
  m ← gets d_fd2client;
  fds ← client_fds (size m) (next_key None m) listen_fds;
  s ← get;
  let fds := fds ++ (match d_scheduler s with Some c => [c_fd c] | None => [] end)
                 ++ filter (fun fd => fd <> 0)
                      (map (fun e => ne_create_env_pipe e.2) (in_name_order (d_native s))) in
  ready ← ask (fun t => sys_poll t fds);
  match ready with
  | inl _ => close_scheduler cfg
  | inr [] => mret tt
  | inr ready => handle_ready msgs fds ready
  end.

Definition determine_nodename : daemon string :=
  s ← get;
  if k_custom_nodename cfg && negb (bool_decide (d_nodename s = ""%string)) then mret (d_nodename s)
  else
    n ← ask sys_uname;
    _ ← (match n with Some n => modify (set_d_nodename n) | None => mret tt end);
    gets d_nodename.

(** [reconnect], once [discover] has found a scheduler. *)
Definition log_in : daemon bool :=
  name ← ask sys_getsockname;
  _ ← modify (fun s => set_d_discover false (set_d_remote_name (default ""%string name) s));
  t ← ask sys_gettimeofday;
  _ ← modify (fun s => set_d_current_load (-1000) (set_d_last_stat t (set_d_icecream_load 0 s)));
  node ← determine_nodename;
  envs ← available_environments cfg;
  let l := new_LoginMsg (k_chroot cfg) (k_daemon_port cfg) node (k_machine_name cfg)
             (k_supported_features cfg) in
  send_scheduler cfg (Login (mkLoginMsg (lg_port l) envs (k_max_kids cfg) (k_noremote cfg)
    (lg_chroot_possible l) (lg_nodename l) (lg_host_platform l) (lg_supported_features l))).

Definition reconnect : daemon bool :=
  s ← get;
  if negb (bool_decide (d_scheduler s = None)) then mret true
  else
    delayed ← (if d_discover s then mret false
               else t ← ask sys_time; mret (t <? d_next_scheduler_connect s));
    if delayed : bool then mret false
    else
      _ ← (if d_discover s then
             c ← ask sys_try_scheduler;
             _ ← modify (set_d_scheduler c);
             match c with
             | Some _ => mret tt
             | None => _ ← ask sys_timed_out; mret tt
             end
           else modify (set_d_discover true));
      s ← get;
      match d_scheduler s with
      | None => mret false
      | Some _ => log_in
      end.

(** [rounds] turns of the loop, or until a signal ends it. *)
Fixpoint working_loop (rounds msgs : nat) : daemon unit :=
  match rounds with
  | O => mret tt
  | S rounds =>
      _ ← reconnect;
      _ ← answer_client_requests msgs;
      exit ← ask sys_exit;
      if exit : bool then _ ← close_scheduler cfg; clear_children cfg
      else working_loop rounds msgs
  end.
End loop.
