(* ===== verification/DaemonFacts.v ===== *)
(** * Facts about the daemon

    What leaves the clients and the counters alone; the counters are the sums
    of what the clients hold; the clients are in the tables; and the rules by
    which a handler is shown to keep that. *)

From Stdlib Require Import ZArith Lia.
From Stdlib Require Import Strings.Byte Strings.String.
From stdpp Require Import base tactics option list gmap strings.
From S2P Require Import Prelude MsgChannel CompileJob Msg Interface StdString Transport Compilers DaemonState Environments Daemon DaemonLoop.

#[local] Open Scope Z_scope.

(** ** The books

    The clients, the tables that hold them and the counters. Much of the daemon
    does not touch them. *)

Record same_books (s s' : Daemon) : Prop := {
  sb_heap : d_heap s' = d_heap s;
  sb_clients : d_clients s' = d_clients s;
  sb_fd2client : d_fd2client s' = d_fd2client s;
  sb_active : d_active_processes s' = d_active_processes s;
  sb_kids : d_current_kids s' = d_current_kids s
}.

#[export] Instance same_books_preorder : PreOrder same_books.
Proof. split; [by split|]. intros s1 s2 s3 [] []. split; congruence. Qed.

Class BookInv (I : Daemon -> Prop) : Prop :=
  books_inv : forall s s', same_books s s' -> I s -> I s'.
#[export] Instance same_books_inv s0 : BookInv (same_books s0).
Proof. intros s s' H H0. by transitivity s. Qed.

(** A change of what is not in the books. *)
Ltac books :=
  lazymatch goal with
  | |- keeps _ (modify _) =>
      apply keeps_modify; intros ? HI0; eapply books_inv; [|exact HI0]; split; reflexivity
  | |- keeps _ (put _) => fail
  end.
Ltac bk := repeat first [progress ks_step | books].

Section books.
Context `{Channels} `{System} (cfg : Config) {I : Daemon -> Prop} `{!BookInv I}.

Lemma keeps_ask {A} (q : nat -> A) : keeps I (ask q).
Proof.
  intros s a s' HI [= <- <-]. eapply books_inv; [|exact HI]. by split.
Qed.
Lemma keeps_effect e : keeps I (effect_m e).
Proof. unfold effect_m. books. Qed.
Lemma keeps_deref_client p : keeps I (deref_client p).
Proof. unfold deref_client. ks. Qed.
#[local] Hint Resolve keeps_ask keeps_effect keeps_deref_client : icc.
Lemma keeps_deref_clients l : keeps I (deref_clients l).
Proof. induction l as [|[k p] l IH]; cbn; ks. Qed.
#[local] Hint Resolve keeps_deref_clients : icc.
Lemma keeps_all_clients : keeps I all_clients.
Proof. unfold all_clients. ks. Qed.
Lemma keeps_clients_size : keeps I clients_size.
Proof. unfold clients_size. ks. Qed.
#[local] Hint Resolve keeps_all_clients keeps_clients_size : icc.

Lemma keeps_close_scheduler : keeps I (close_scheduler cfg).
Proof. unfold close_scheduler. bk. Qed.
#[local] Hint Resolve keeps_close_scheduler : icc.
Lemma keeps_send_scheduler m : keeps I (send_scheduler cfg m).
Proof. unfold send_scheduler. bk. Qed.
#[local] Hint Resolve keeps_send_scheduler : icc.

Lemma keeps_with_assembler t d l : keeps I (with_assembler t d l).
Proof. induction l; cbn; bk. Qed.
#[local] Hint Resolve keeps_with_assembler : icc.
Lemma keeps_target_dirs l : keeps I (target_dirs cfg l).
Proof. induction l; cbn; unfold list_target_dirs; bk. Qed.
#[local] Hint Resolve keeps_target_dirs : icc.
Lemma keeps_reannounce : keeps I (reannounce_environments cfg).
Proof. unfold reannounce_environments, available_environments. bk. Qed.

Lemma keeps_maybe_stats b : keeps I (maybe_stats cfg b).
Proof. unfold maybe_stats. bk. Qed.

Lemma keeps_cache_shrink n : keeps I (cache_shrink n).
Proof. unfold cache_shrink. bk. Qed.
#[local] Hint Resolve keeps_cache_shrink : icc.
Lemma keeps_remove_native key : keeps I (remove_native_environment key).
Proof. unfold remove_native_environment, remove_native_environment_files. bk. Qed.
Lemma keeps_remove_environment key : keeps I (remove_environment cfg key).
Proof. unfold remove_environment, remove_environment_files. bk. Qed.
#[local] Hint Resolve keeps_remove_native keeps_remove_environment : icc.
Lemma keeps_env_in_use env l : keeps I (env_in_use env l).
Proof. induction l as [|[p cl] l IH]; cbn; bk. Qed.
#[local] Hint Resolve keeps_env_in_use : icc.
Lemma keeps_oldest_received now l acc : keeps I (oldest_received cfg now l acc).
Proof. revert acc. induction l as [|[n e] l IH]; intros acc; cbn; bk. Qed.
Lemma keeps_oldest_native now n l acc : keeps I (oldest_native now n l acc).
Proof. revert acc. induction l as [|[k e] l IH]; intros acc; cbn; bk. Qed.
#[local] Hint Resolve keeps_oldest_received keeps_oldest_native : icc.
Lemma keeps_check_cache_loop fuel now env : keeps I (check_cache_loop cfg fuel now env).
Proof. induction fuel; cbn; bk. Qed.
#[local] Hint Resolve keeps_check_cache_loop : icc.
Lemma keeps_check_cache_size env : keeps I (check_cache_size cfg env).
Proof. unfold check_cache_size. bk. Qed.

Lemma keeps_native key : keeps I (native key).
Proof.
  unfold native. apply keeps_get. intros s a s' HI E. cbn in E. injection E as _ <-.
  eapply books_inv; [|exact HI]. by split.
Qed.
#[local] Hint Resolve keeps_native : icc.
Lemma keeps_update_native key f : keeps I (update_native key f).
Proof. unfold update_native. bk. Qed.
Lemma keeps_stat_extrafiles l key times : keeps I (stat_extrafiles l key times).
Proof. revert key times. induction l; intros key times; cbn; bk. Qed.
Lemma keeps_account_job m : keeps I (account_job cfg m).
Proof. unfold account_job. bk. Qed.
Lemma keeps_lift {A} (r : res A) : keeps I (lift r).
Proof. unfold lift. bk. Qed.
Lemma keeps_write_chunk fuel fd buf : keeps I (write_chunk fuel fd buf).
Proof. revert buf. induction fuel; intros [|b buf]; cbn; bk. Qed.
Lemma keeps_finish_create_env pipe : keeps I (finish_create_env cfg pipe).
Proof. unfold finish_create_env. bk. Qed.
Lemma keeps_on_scheduler {A} (r : reader A) : keeps I (on_scheduler r).
Proof. unfold on_scheduler. bk. Qed.
End books.

#[export] Hint Extern 1 (BookInv _) => typeclasses eauto : icc.
#[export] Hint Resolve keeps_ask keeps_effect keeps_deref_client keeps_deref_clients
  keeps_all_clients keeps_clients_size keeps_close_scheduler keeps_send_scheduler
  keeps_target_dirs keeps_reannounce keeps_maybe_stats keeps_remove_native keeps_remove_environment
  keeps_check_cache_size keeps_native keeps_update_native keeps_stat_extrafiles
  keeps_account_job keeps_lift keeps_write_chunk keeps_finish_create_env keeps_on_scheduler : icc.

(** What leaves the books alone leaves them the same. *)
Lemma books_same {A} (m : daemon A) s a s' :
  (forall I, BookInv I -> keeps I m) -> m s = Ok (a, s') -> same_books s s'.
Proof. intros Hm E. by eapply (Hm (same_books s) _ s). Qed.

(** ** Sums over the clients *)

Definition total (f : Client -> Z) (m : gmap positive Client) : Z :=
  map_fold (fun _ cl acc => f cl + acc) 0 m.

Lemma total_empty f : total f ∅ = 0.
Proof. apply map_fold_empty. Qed.

Lemma total_insert f m p cl : m !! p = None -> total f (<[p := cl]> m) = f cl + total f m.
Proof. intros Hp. unfold total. rewrite map_fold_insert_L; [done|intros; lia|done]. Qed.

Lemma total_delete f m p cl : m !! p = Some cl -> total f (delete p m) = total f m - f cl.
Proof.
  intros Hp. rewrite <- (insert_delete_id m p cl Hp) at 2.
  rewrite total_insert by apply lookup_delete_eq. lia.
Qed.

Lemma total_update f m p cl cl' :
  m !! p = Some cl -> total f (<[p := cl']> m) = total f m - f cl + f cl'.
Proof.
  intros Hp. rewrite <- insert_delete_eq, total_insert by apply lookup_delete_eq.
  rewrite (total_delete f m p cl Hp). lia.
Qed.

Lemma total_bounds f m : (forall cl, 0 <= f cl <= 1) -> 0 <= total f m <= Z.of_nat (size m).
Proof.
  intros Hf. induction m as [|p cl m Hp IH] using map_ind; [rewrite total_empty; cbn; lia|].
  rewrite total_insert, map_size_insert_None by done. specialize (Hf cl). lia.
Qed.

Lemma total_zero f m p cl : (forall cl, 0 <= f cl) -> m !! p = Some cl -> total f m = 0 -> f cl = 0.
Proof.
  intros Hf Hp Ht.
  assert (forall m, 0 <= total f m) as Hnn.
  { intros m'. induction m' as [|q c m' Hq IH] using map_ind; [by rewrite total_empty|].
    rewrite total_insert by done. specialize (Hf c). lia. }
  pose proof (total_delete f m p cl Hp). specialize (Hnn (delete p m)). specialize (Hf cl). lia.
Qed.

(** ** What the counters count *)

(** The slots a client holds. *)
Definition slots_held (cfg : Config) (cl : Client) : Z :=
  if decide (cl_status cl = CLIENTWORK) then slots_of cfg (cl_fulljob cl) else 0.
(** The children that run for it. *)
Definition children (cl : Client) : Z :=
  match cl_status cl with
  | WAITFORCHILD => 1
  | TOINSTALL | WAITINSTALL => if 0 <=? cl_child_pid cl then 1 else 0
  | _ => 0
  end.

(** The counters are the sums over the clients, but for [a] slots and [k]
    children. *)
Record ledger (cfg : Config) (a k : Z) (s : Daemon) : Prop := {
  ld_active : d_active_processes s = u32 (total (slots_held cfg) (d_heap s) + a);
  ld_kids : d_current_kids s = u32 (total children (d_heap s) + k)
}.

#[export] Instance ledger_books cfg a k : BookInv (ledger cfg a k).
Proof. intros s s' [] []. split; congruence. Qed.

Lemma u32_add_l a b : u32 (u32 a + b) = u32 (a + b).
Proof. unfold u32. by rewrite Zplus_mod_idemp_l. Qed.

Lemma u32_pred z : 0 < u32 z -> u32 z - 1 = u32 (z - 1).
Proof. unfold u32. intros H. Z.div_mod_to_equations. lia. Qed.

(** A client that changes. *)
Lemma ledger_update cfg a k s p cl cl' :
  d_heap s !! p = Some cl -> ledger cfg a k s ->
  ledger cfg (a + slots_held cfg cl - slots_held cfg cl') (k + children cl - children cl')
    (set_d_heap (<[p := cl']> (d_heap s)) s).
Proof.
  intros Hp []. split; cbn; rewrite (total_update _ _ _ cl) by done.
  - rewrite ld_active0. f_equal. lia.
  - rewrite ld_kids0. f_equal. lia.
Qed.

Lemma ledger_delete cfg a k s p cl :
  d_heap s !! p = Some cl -> ledger cfg a k s ->
  ledger cfg (a + slots_held cfg cl) (k + children cl) (set_d_heap (delete p (d_heap s)) s).
Proof.
  intros Hp []. split; cbn; rewrite (total_delete _ _ _ cl) by done.
  - rewrite ld_active0. f_equal. lia.
  - rewrite ld_kids0. f_equal. lia.
Qed.

Lemma ledger_reserve cfg a k s n :
  ledger cfg a k s -> ledger cfg (a + n) k (set_d_active_processes (u32 (d_active_processes s + n)) s).
Proof. intros []. split; cbn; [|done]. rewrite ld_active0, u32_add_l. f_equal. lia. Qed.

Lemma ledger_kid_started cfg a k s :
  ledger cfg a k s -> ledger cfg a (k + 1) (set_d_current_kids (u32 (d_current_kids s + 1)) s).
Proof. intros []. split; cbn; [done|]. rewrite ld_kids0, u32_add_l. f_equal. lia. Qed.

Lemma ledger_kid_done cfg a k s :
  0 < d_current_kids s -> ledger cfg a k s ->
  ledger cfg a (k - 1) (set_d_current_kids (d_current_kids s - 1) s).
Proof.
  intros Hk []. split; cbn; [done|]. rewrite ld_kids0 in *. rewrite u32_pred by done. f_equal. lia.
Qed.

(** ** Running a handler on the books

    [same_books s0 s]: the state [s] of a run has the books of [s0], which
    the steps below change. *)

Section run.
Context `{Channels} `{System} (cfg : Config).

Lemma run_same {A} (m : daemon A) s0 s a s' :
  (forall I, BookInv I -> keeps I m) -> same_books s0 s -> m s = Ok (a, s') -> same_books s0 s'.
Proof. intros Hm Hs E. transitivity s; [done|]. by eapply books_same. Qed.

Lemma run_deref p s0 s cl s' :
  same_books s0 s -> deref_client p s = Ok (cl, s') -> same_books s0 s' /\ d_heap s0 !! p = Some cl.
Proof.
  intros Hs E. unfold deref_client in E. rewrite bind_get in E.
  destruct (d_heap s !! p) eqn:Ep; [|done]. injection E as -> <-.
  split; [done|]. by rewrite <- (sb_heap _ _ Hs).
Qed.

Lemma run_update p f s0 s u s' :
  same_books s0 s -> update_client p f s = Ok (u, s') ->
  exists cl, d_heap s0 !! p = Some cl /\
    same_books (set_d_heap (<[p := f cl]> (d_heap s0)) s0) s'.
Proof.
  intros Hs E. unfold update_client in E. apply bind_inv in E as (cl & s1 & E1 & E).
  destruct (run_deref _ _ _ _ _ Hs E1) as [Hs1 Hp]. exists cl. split; [done|].
  injection E as _ <-. destruct Hs1. by split; cbn; congruence.
Qed.

Lemma run_reserve n s0 s u s' :
  same_books s0 s -> reserve n s = Ok (u, s') ->
  same_books (set_d_active_processes (u32 (d_active_processes s0 + n)) s0) s'.
Proof. intros [] [= _ <-]. split; cbn; congruence. Qed.

Lemma run_kid_done s0 s u s' :
  same_books s0 s -> kid_done s = Ok (u, s') ->
  0 < d_current_kids s0 /\ same_books (set_d_current_kids (d_current_kids s0 - 1) s0) s'.
Proof.
  intros [] E. unfold kid_done in E. rewrite bind_get in E.
  apply bind_inv in E as ([] & s1 & E1 & E). unfold assert in E1.
  destruct (0 <? d_current_kids s) eqn:Ek; [|done]. injection E1 as <-. injection E as _ <-.
  boolify. split; [congruence|]. split; cbn; congruence.
Qed.

Lemma run_kid_started s0 s u s' :
  same_books s0 s -> kid_started s = Ok (u, s') ->
  same_books (set_d_current_kids (u32 (d_current_kids s0 + 1)) s0) s'.
Proof. intros [] [= _ <-]. split; cbn; congruence. Qed.

Lemma run_assert b s0 s u s' :
  same_books s0 s -> assert b s = Ok (u, s') -> same_books s0 s' /\ b = true.
Proof. intros Hs E. unfold assert in E. destruct b; [by injection E as _ <-|done]. Qed.

Lemma run_need {A} f (o : option A) s0 s a s' :
  same_books s0 s -> need f o s = Ok (a, s') -> same_books s0 s' /\ o = Some a.
Proof. intros Hs E. destruct o; [|done]. by injection E as -> <-. Qed.

Lemma run_gets {A} (f : Daemon -> A) s0 s a s' :
  same_books s0 s -> gets f s = Ok (a, s') -> same_books s0 s' /\ a = f s.
Proof. by intros Hs [= <- <-]. Qed.

(** A change that looks at the books only. *)
Lemma run_modify (f : Daemon -> Daemon) s0 s u s' :
  (forall a b, same_books a b -> same_books (f a) (f b)) ->
  same_books s0 s -> modify f s = Ok (u, s') -> same_books (f s0) s'.
Proof. intros Hf Hs [= _ <-]. by apply Hf. Qed.
End run.

(** *** The end of an installation and of a client *)

(** A client whose installation has ended: its pipes closed, its child gone. *)
Definition closed_from (cl : Client) : Client :=
  if 0 <=? cl_pipe_from_child cl then set_cl_pipe_from_child (-1) cl else cl.
Definition closed_to (cl : Client) : Client :=
  if 0 <=? cl_pipe_to_child cl then set_cl_pipe_to_child (-1) cl else cl.
Definition killed (cl : Client) : Client :=
  if 0 <=? cl_child_pid cl then set_cl_child_pid (-1) cl else cl.
Definition finished (cl : Client) : Client :=
  set_cl_outfile "" (set_cl_status UNKNOWN (killed (closed_to (closed_from cl)))).

(** The books without a client, whose slots are given back. *)
Definition without (cfg : Config) (p : positive) (cl : Client) (s : Daemon) : Daemon :=
  set_d_heap (delete p (d_heap s))
  (set_d_clients (delete (cl_chan cl) (d_clients s))
  (set_d_fd2client (delete (c_fd (cl_channel cl)) (d_fd2client s))
  (set_d_active_processes
     (if decide (cl_status cl = CLIENTWORK) then u32 (d_active_processes s - slots_of cfg (cl_fulljob cl))
      else d_active_processes s)
  (set_d_current_kids
     (if installing (cl_status cl) && (0 <=? cl_child_pid cl) then d_current_kids s - 1
      else d_current_kids s) s)))).

(** Splits a run [E] at its first step [E1]. *)
Ltac first_step E E1 := apply bind_inv in E as (? & ? & E1 & E).
(** The side condition of [run_modify]. *)
Ltac by_books := intros ? ? []; split; cbn; congruence.
(** Runs a step that leaves the books alone. *)
Ltac skip_step E HB :=
  let E1 := fresh "E" in
  first_step E E1; eapply run_same in E1; [|solve [intros; eauto with icc]|exact HB];
  clear HB; rename E1 into HB.

Section ends.
Context `{Channels} `{System} (cfg : Config).

Lemma run_close_from p s0 s u s' :
  same_books s0 s -> close_from p s = Ok (u, s') ->
  exists cl, d_heap s0 !! p = Some cl /\
    same_books (set_d_heap (<[p := set_cl_pipe_from_child (-1) cl]> (d_heap s0)) s0) s'.
Proof.
  intros Hs E. unfold close_from in E. skip_step E Hs. skip_step E Hs. by eapply run_update.
Qed.

Lemma run_close_to p s0 s u s' :
  same_books s0 s -> close_to p s = Ok (u, s') ->
  exists cl, d_heap s0 !! p = Some cl /\
    same_books (set_d_heap (<[p := set_cl_pipe_to_child (-1) cl]> (d_heap s0)) s0) s'.
Proof.
  intros Hs E. unfold close_to in E. skip_step E Hs. skip_step E Hs. by eapply run_update.
Qed.

Lemma run_kill_child p s0 s u s' :
  same_books s0 s -> kill_child p s = Ok (u, s') ->
  exists cl, d_heap s0 !! p = Some cl /\ 0 < d_current_kids s0 /\
    same_books (set_d_heap (<[p := set_cl_child_pid (-1) cl]> (d_heap s0))
                 (set_d_current_kids (d_current_kids s0 - 1) s0)) s'.
Proof.
  intros Hs E. unfold kill_child, child_gone in E. do 3 skip_step E Hs.
  first_step E E1. eapply run_update in E1 as (cl & Hp & Hs1); [|exact Hs].
  eapply run_kid_done in E as [Hk Hs2]; [|exact Hs1]. exists cl. by destruct Hs2.
Qed.
Lemma same_heap s p cl : d_heap s !! p = Some cl -> same_books (set_d_heap (<[p := cl]> (d_heap s)) s) s.
Proof. intros Hp. split; cbn; try done. by rewrite insert_id. Qed.

Lemma run_closed_from p cancel s0 s u s' cl :
  same_books s0 s -> d_heap s0 !! p = Some cl ->
  when (0 <=? cl_pipe_from_child cl) (_ ← assert cancel; close_from p) s = Ok (u, s') ->
  same_books (set_d_heap (<[p := closed_from cl]> (d_heap s0)) s0) s'.
Proof.
  intros Hs Hp E. unfold closed_from, when in *. case_match.
  - first_step E E1. eapply run_assert in E1 as [Hs1 _]; [|exact Hs].
    eapply run_close_from in E as (? & ? & E); [|exact Hs1]. by simplify_eq.
  - injection E as _ <-. transitivity s0; [by apply same_heap|done].
Qed.

Lemma run_closed_to p cancel s0 s u s' cl :
  same_books s0 s -> d_heap s0 !! p = Some cl ->
  when (0 <=? cl_pipe_to_child cl) (_ ← assert cancel; close_to p) s = Ok (u, s') ->
  same_books (set_d_heap (<[p := closed_to cl]> (d_heap s0)) s0) s'.
Proof.
  intros Hs Hp E. unfold closed_to, when in *. case_match.
  - first_step E E1. eapply run_assert in E1 as [Hs1 _]; [|exact Hs].
    eapply run_close_to in E as (? & ? & E); [|exact Hs1]. by simplify_eq.
  - injection E as _ <-. transitivity s0; [by apply same_heap|done].
Qed.

Lemma run_killed p cancel s0 s u s' cl :
  same_books s0 s -> d_heap s0 !! p = Some cl ->
  when (0 <=? cl_child_pid cl) (_ ← assert cancel; kill_child p) s = Ok (u, s') ->
  (0 <= cl_child_pid cl -> 0 < d_current_kids s0) /\
  same_books (set_d_heap (<[p := killed cl]> (d_heap s0))
    (set_d_current_kids (if 0 <=? cl_child_pid cl then d_current_kids s0 - 1
                         else d_current_kids s0) s0)) s'.
Proof.
  intros Hs Hp E. unfold killed, when in *. case_match; boolify.
  - first_step E E1. eapply run_assert in E1 as [Hs1 _]; [|exact Hs].
    eapply run_kill_child in E as (? & ? & ? & E); [|exact Hs1]. by simplify_eq.
  - injection E as _ <-. split; [lia|]. transitivity s0; [|done].
    split; cbn; try done. by rewrite insert_id.
Qed.

Lemma finish_transfer_books p cancel s r s' :
  finish_transfer_env cfg p cancel s = Ok (r, s') ->
  exists cl, d_heap s !! p = Some cl /\ installing (cl_status cl) = true /\
    (0 <= cl_child_pid cl -> 0 < d_current_kids s) /\
    same_books (set_d_heap (<[p := finished cl]> (d_heap s))
      (set_d_current_kids (if 0 <=? cl_child_pid cl then d_current_kids s - 1
                           else d_current_kids s) s)) s'.
Proof.
  intros E. unfold finish_transfer_env in E. assert (same_books s s) as HB by done.
  first_step E E1. eapply run_deref in E1 as [HB1 Hp]; [|exact HB]. clear HB.
  rename x into cl. exists cl. split; [done|].
  first_step E E1. eapply run_assert in E1 as [HB2 _]; [|exact HB1].
  first_step E E1. eapply run_assert in E1 as [HB3 Hst]; [|exact HB2]. split; [done|].
  first_step E E1. eapply run_closed_from in E1; [|exact HB3|done].
  first_step E E2. replace (cl_pipe_to_child cl) with (cl_pipe_to_child (closed_from cl)) in E2
    by (unfold closed_from; by case_goal).
  eapply run_closed_to in E2; [|exact E1|apply lookup_insert_eq].
  first_step E E3. replace (cl_child_pid cl) with (cl_child_pid (closed_to (closed_from cl))) in E3
    by (unfold closed_to, closed_from; by repeat case_goal).
  eapply run_killed in E3 as [Hk HB]; [|exact E2|apply lookup_insert_eq].
  replace (cl_child_pid (closed_to (closed_from cl))) with (cl_child_pid cl) in *
    by (unfold closed_to, closed_from; by repeat case_goal).
  split; [exact Hk|]. cbn in HB. rewrite !insert_insert_eq in HB.
  assert (forall I, BookInv I -> keeps I (if cancel then mret 0 else finalize_install_environment cfg (cl_outfile cl)))
    as Hf by (intros; unfold finalize_install_environment; bk).
  first_step E E4. eapply run_same in E4; [|exact Hf|exact HB].
  first_step E E5. eapply run_same in E5; [|intros; unfold remove_environment_files; bk|exact E4].
  first_step E E6. eapply run_update in E6 as (cl' & Hp' & E6); [|exact E5].
  cbn in Hp', E6. rewrite lookup_insert_eq in Hp'. injection Hp' as <-. rewrite insert_insert_eq in E6.
  first_step E E7. eapply run_same in E7; [|intros; bk|exact E6].
  first_step E E8. eapply run_same in E8; [|intros; eauto with icc|exact E7].
  first_step E E9. eapply run_same in E9; [|intros; eauto with icc|exact E8].
  first_step E E10. eapply run_same in E10; [|intros; eauto with icc|exact E9].
  by injection E as _ <-.
Qed.

Lemma keeps_report_end {I} `{!BookInv I} cl code : keeps I (report_end cfg cl code).
Proof. unfold report_end. bk. Qed.

Lemma run_delete_client p s0 s u s' :
  same_books s0 s -> delete_client p s = Ok (u, s') ->
  same_books (set_d_heap (delete p (d_heap s0)) s0) s'.
Proof.
  intros Hs E. unfold delete_client in E. skip_step E Hs. skip_step E Hs.
  first_step E E1. eapply run_same in E1; [|intros; bk|exact Hs].
  first_step E E2. eapply run_same in E2; [|intros; bk|exact E1].
  eapply run_modify in E; [exact E|by_books|exact E2].
Qed.

(** A client that stays in its status or is set back by [finish_transfer_env]. *)
Definition settled (cl : Client) : Client := if installing (cl_status cl) then finished cl else cl.

Lemma settled_same cl :
  cl_chan (settled cl) = cl_chan cl /\ cl_channel (settled cl) = cl_channel cl /\
  cl_fulljob (settled cl) = cl_fulljob cl /\ cl_client_id (settled cl) = cl_client_id cl /\
  (cl_status (settled cl) = CLIENTWORK <-> cl_status cl = CLIENTWORK).
Proof.
  unfold settled, finished, killed, closed_to, closed_from.
  destruct (cl_status cl) eqn:E; cbn; rewrite ?E; repeat split; try done; by repeat case_goal.
Qed.

(** The books after the installation of a client that goes is cancelled. *)
Definition settle (p : positive) (cl : Client) (s : Daemon) : Daemon :=
  set_d_heap (<[p := settled cl]> (d_heap s))
    (set_d_current_kids
       (if installing (cl_status cl) && (0 <=? cl_child_pid cl) then d_current_kids s - 1
        else d_current_kids s) s).

Lemma run_settle p s0 s u s' cl :
  same_books s0 s -> d_heap s0 !! p = Some cl ->
  when (installing (cl_status cl)) (_ ← finish_transfer_env cfg p true; mret tt) s = Ok (u, s') ->
  (installing (cl_status cl) = true -> 0 <= cl_child_pid cl -> 0 < d_current_kids s0) /\
  same_books (settle p cl s0) s'.
Proof.
  intros Hs Hp E. unfold settle, settled. destruct (installing (cl_status cl)) eqn:Ei; cbn [when andb] in *.
  - first_step E E1. injection E as _ <-.
    apply finish_transfer_books in E1 as (cl' & Hp' & _ & Hk & HB).
    rewrite (sb_heap _ _ Hs) in Hp'. simplify_eq. rewrite (sb_kids _ _ Hs) in Hk. split; [by auto|].
    destruct Hs as [Hh ? ? ? Hkids]. rewrite Hh, Hkids in HB. destruct HB. cbn in *.
    split; cbn; congruence.
  - injection E as _ <-. split; [done|]. destruct Hs. split; cbn; try done. by rewrite insert_id.
Qed.

Definition released (c : Client) (s : Daemon) : Daemon :=
  set_d_active_processes
    (if decide (cl_status c = CLIENTWORK) then u32 (d_active_processes s - slots_of cfg (cl_fulljob c))
     else d_active_processes s) s.

Lemma run_release c s0 s u s' :
  same_books s0 s ->
  when (bool_decide (cl_status c = CLIENTWORK)) (reserve (- slots_of cfg (cl_fulljob c))) s = Ok (u, s') ->
  same_books (released c s0) s'.
Proof.
  intros Hs E. unfold released, when in *. destruct (decide _) as [Hc|Hc].
  - rewrite bool_decide_true in E by done. eapply run_reserve in E; [|exact Hs]. exact E.
  - rewrite bool_decide_false in E by done. injection E as _ <-. destruct Hs. by split.
Qed.

(** Taken out of the list of clients, reported and deleted. *)
Lemma run_unlist p c code s0 s u s' :
  same_books s0 s -> d_heap s0 !! p = Some c ->
  (_ ← update_client p (set_cl_fulljob false);
   _ ← when (bool_decide (cl_status c = WAITCOMPILE) && (code =? 119)) (update_client p (set_cl_job_id 0));
   m ← gets d_clients;
   _ ← assert (bool_decide (m !! cl_chan c <> None));
   _ ← modify (fun s => set_d_clients (delete (cl_chan c) (d_clients s)) s);
   cl ← deref_client p;
   _ ← report_end cfg cl code;
   delete_client p) s = Ok (u, s') ->
  d_clients s0 !! cl_chan c <> None /\
  same_books (set_d_heap (delete p (d_heap s0)) (set_d_clients (delete (cl_chan c) (d_clients s0)) s0)) s'.
Proof.
  intros Hs Hp E.
  first_step E E1. eapply run_update in E1 as (c1 & _ & E1); [|exact Hs].
  first_step E E2.
  match type of E2 with _ ?t = Ok (_, ?t') =>
    assert (exists c2, same_books (set_d_heap (<[p := c2]> (d_heap s0)) s0) t') as (c2 & HB)
  end.
  { unfold when in E2. case_match.
    - eapply run_update in E2 as (c2 & _ & E2); [|exact E1]. cbn in E2. rewrite insert_insert_eq in E2. by eexists.
    - injection E2 as _ <-. by eexists. }
  first_step E E3. eapply run_gets in E3 as [HB3 ->]; [|exact HB].
  first_step E E4. eapply run_assert in E4 as [HB4 Hc]; [|exact HB3].
  apply bool_decide_eq_true in Hc. rewrite (sb_clients _ _ HB) in Hc. split; [exact Hc|].
  first_step E E5. eapply run_modify in E5; [|by_books|exact HB4].
  first_step E E6. eapply run_same in E6; [|intros; eauto with icc|exact E5].
  first_step E E7. eapply run_same in E7; [|intros; by apply keeps_report_end|exact E6].
  eapply run_delete_client in E; [|exact E7]. cbn in E. by rewrite delete_insert_eq in E.
Qed.

Lemma handle_end_books p code s u s' :
  handle_end cfg p code s = Ok (u, s') ->
  exists cl, d_heap s !! p = Some cl /\ d_clients s !! cl_chan cl <> None /\
    (installing (cl_status cl) = true -> 0 <= cl_child_pid cl -> 0 < d_current_kids s) /\
    same_books (without cfg p cl s) s'.
Proof.
  intros E. unfold handle_end in E. assert (same_books s s) as HB by done.
  first_step E E1. eapply run_deref in E1 as [HB1 Hp]; [|exact HB]. clear HB. rename x into cl.
  exists cl. split; [done|].
  first_step E E1. eapply run_modify in E1; [|by_books|exact HB1].
  first_step E E2. eapply run_settle in E2 as [Hk HB2]; [|exact E1|exact Hp].
  first_step E E3. eapply run_deref in E3 as [HB3 Hp3]; [|exact HB2].
  cbn in Hp3. rewrite lookup_insert_eq in Hp3. injection Hp3 as <-.
  destruct (settled_same cl) as (Hch & Hchan & Hfj & _ & Hst).
  first_step E E4. eapply run_release in E4; [|exact HB3].
  eapply run_unlist in E as [Hc HB]; [|exact E4|apply lookup_insert_eq].
  cbn in Hc, Hk. rewrite Hch in Hc, HB. split; [done|]. split; [done|].
  destruct HB. split; cbn in *; try done.
  - by rewrite delete_insert_eq in sb_heap0.
  - rewrite sb_active0, Hfj. by do 2 case_decide; try tauto.
Qed.
End ends.

(** ** Well-formed clients, and the tables that hold them *)

Definition may_have_job (st : Status) : bool :=
  match st with WAITFORCS | WAITCOMPILE | PENDING_USE_CS | CLIENTWORK => true | _ => false end.

Record client_wf (cl : Client) : Prop := {
  wf_fulljob : cl_fulljob cl = true -> cl_status cl = LINKJOB \/ cl_status cl = CLIENTWORK;
  wf_job : cl_status cl = TOCOMPILE \/ cl_status cl = WAITFORCHILD -> cl_job cl <> None;
  wf_usecs : cl_status cl = PENDING_USE_CS -> cl_usecsmsg cl <> None;
  wf_outfile : installing (cl_status cl) = true -> cl_outfile cl <> ""%string;
  wf_id : cl_job_id cl <> 0 -> may_have_job (cl_status cl) = true;
  wf_env : cl_pending_create_env cl <> ""%string -> cl_status cl = WAITCREATEENV;
  wf_child : 0 <= cl_child_pid cl -> installing (cl_status cl) = true \/ cl_status cl = WAITFORCHILD
}.

Record tables (s : Daemon) : Prop := {
  tb_clients : forall k p, d_clients s !! k = Some p <->
    exists cl, d_heap s !! p = Some cl /\ cl_chan cl = k;
  tb_fds : forall fd p, d_fd2client s !! fd = Some p <->
    exists cl, d_heap s !! p = Some cl /\ c_fd (cl_channel cl) = fd
}.

Record good (cfg : Config) (s : Daemon) : Prop := {
  gd_ledger : ledger cfg 0 0 s;
  gd_tables : tables s;
  gd_clients : map_Forall (fun _ cl => client_wf cl) (d_heap s)
}.

#[export] Instance tables_books : BookInv tables.
Proof. intros s s' [Hh Hc Hf _ _] []. split; intros; rewrite Hh, ?Hc, ?Hf; auto. Qed.
#[export] Instance good_books cfg : BookInv (good cfg).
Proof.
  intros s s' Hs []. split; [by eapply books_inv..|]. by rewrite (sb_heap _ _ Hs).
Qed.

(** The identity of a client. *)
Definition same_client (cl cl' : Client) : Prop :=
  cl_chan cl' = cl_chan cl /\ c_fd (cl_channel cl') = c_fd (cl_channel cl).

Lemma lookup_same_client {P : Client -> Prop} (m : gmap positive Client) p q cl cl' :
  m !! p = Some cl -> (P cl <-> P cl') ->
  (exists c, <[p := cl']> m !! q = Some c /\ P c) <-> (exists c, m !! q = Some c /\ P c).
Proof.
  intros Hp HP. destruct (decide (p = q)) as [<-|Hn].
  - rewrite lookup_insert_eq, Hp. split; intros (c & [= <-] & Hc); eexists; split; [done|tauto|done|tauto].
  - by rewrite lookup_insert_ne.
Qed.

Lemma tables_update s p cl cl' :
  d_heap s !! p = Some cl -> same_client cl cl' -> tables s ->
  tables (set_d_heap (<[p := cl']> (d_heap s)) s).
Proof.
  intros Hp [Hc Hf] []. split; cbn; intros k q.
  - rewrite tb_clients0. symmetry. apply (lookup_same_client _ _ _ cl); [done|]. by rewrite Hc.
  - rewrite tb_fds0. symmetry. apply (lookup_same_client _ _ _ cl); [done|]. by rewrite Hf.
Qed.

(** A client that changes, with the counters. *)
Lemma good_update cfg s p cl cl' a k :
  good cfg s -> d_heap s !! p = Some cl -> same_client cl cl' -> client_wf cl' ->
  a = u32 (d_active_processes s + slots_held cfg cl' - slots_held cfg cl) ->
  k = u32 (d_current_kids s + children cl' - children cl) ->
  good cfg (set_d_heap (<[p := cl']> (d_heap s)) (set_d_active_processes a (set_d_current_kids k s))).
Proof.
  intros [HL HT HW] Hp Hs Hw -> ->. destruct HL. split.
  - split; cbn; rewrite (total_update _ _ _ cl) by done.
    + rewrite ld_active0. replace (u32 (total (slots_held cfg) (d_heap s) + 0) + slots_held cfg cl' - slots_held cfg cl)
        with (u32 (total (slots_held cfg) (d_heap s) + 0) + (slots_held cfg cl' - slots_held cfg cl)) by lia.
      rewrite u32_add_l. f_equal. lia.
    + rewrite ld_kids0. replace (u32 (total children (d_heap s) + 0) + children cl' - children cl)
        with (u32 (total children (d_heap s) + 0) + (children cl' - children cl)) by lia.
      rewrite u32_add_l. f_equal. lia.
  - pose proof (tables_update s p cl cl' Hp Hs HT) as []. by split.
  - apply map_Forall_insert_2; done.
Qed.

Lemma good_counted cfg s p cl cl' s' :
  good cfg s -> d_heap s !! p = Some cl -> same_client cl cl' -> client_wf cl' ->
  d_heap s' = <[p := cl']> (d_heap s) -> d_clients s' = d_clients s -> d_fd2client s' = d_fd2client s ->
  d_active_processes s' = u32 (d_active_processes s + slots_held cfg cl' - slots_held cfg cl) ->
  d_current_kids s' = u32 (d_current_kids s + children cl' - children cl) ->
  good cfg s'.
Proof.
  intros HG Hp Hs Hw Eh Ec Ef Ea Ek.
  eapply books_inv; [|exact (good_update cfg s p cl cl' _ _ HG Hp Hs Hw eq_refl eq_refl)]. by split.
Qed.

(** Counters are [unsigned int]. *)
Lemma good_counters cfg s :
  good cfg s -> u32 (d_active_processes s) = d_active_processes s /\ u32 (d_current_kids s) = d_current_kids s.
Proof. intros [[-> ->] _ _]. by rewrite !u32_idem. Qed.

(** The same, with the counters as they are. *)
Lemma good_client cfg s p cl cl' s' :
  good cfg s -> d_heap s !! p = Some cl ->
  same_books (set_d_heap (<[p := cl']> (d_heap s)) s) s' ->
  same_client cl cl' -> client_wf cl' ->
  slots_held cfg cl' = slots_held cfg cl -> children cl' = children cl -> good cfg s'.
Proof.
  intros HG Hp HB Hs Hw Hsl Hch.
  destruct (good_counters _ _ HG) as [Ha Hk], HB. cbn in *. eapply good_counted; eauto.
  - by rewrite Hsl, Z.add_simpl_r, Ha.
  - by rewrite Hch, Z.add_simpl_r, Hk.
Qed.

Lemma good_lookup cfg s p cl : good cfg s -> d_heap s !! p = Some cl -> client_wf cl.
Proof. intros [_ _ HW] Hp. by apply (map_Forall_lookup_1 _ _ _ _ HW Hp). Qed.

Lemma tables_without cfg s p cl : d_heap s !! p = Some cl -> tables s -> tables (without cfg p cl s).
Proof.
  intros Hp [Hc Hf]. split; cbn; intros k q; rewrite lookup_delete_Some.
  - rewrite Hc. setoid_rewrite lookup_delete_Some. split.
    + intros (Hk & c & Hq & <-). exists c. split; [|done]. split; [|done]. intros <-. by simplify_eq.
    + intros (c & [Hn Hq] & <-). split; [|by exists c]. intros Hk. apply Hn.
      assert (d_clients s !! cl_chan cl = Some p) as H1 by (apply Hc; by exists cl).
      assert (d_clients s !! cl_chan cl = Some q) as H2 by (apply Hc; by exists c).
      congruence.
  - rewrite Hf. setoid_rewrite lookup_delete_Some. split.
    + intros (Hk & c & Hq & <-). exists c. split; [|done]. split; [|done]. intros <-. by simplify_eq.
    + intros (c & [Hn Hq] & <-). split; [|by exists c]. intros Hk. apply Hn.
      assert (d_fd2client s !! c_fd (cl_channel cl) = Some p) as H1 by (apply Hf; by exists cl).
      assert (d_fd2client s !! c_fd (cl_channel cl) = Some q) as H2 by (apply Hf; by exists c).
      congruence.
Qed.

(** Without a client the counters are the sums, but for a child that goes on. *)
Lemma ledger_without cfg a k s p cl :
  d_heap s !! p = Some cl ->
  (installing (cl_status cl) = true -> 0 <= cl_child_pid cl -> 0 < d_current_kids s) ->
  ledger cfg a k s ->
  ledger cfg a (if decide (cl_status cl = WAITFORCHILD) then k + 1 else k) (without cfg p cl s).
Proof.
  intros Hp Hk [Ha Hd]. split; cbn; rewrite (total_delete _ _ _ cl) by done.
  - unfold slots_held at 2. case_decide; rewrite Ha; [|f_equal; lia].
    unfold Z.sub at 1. rewrite u32_add_l. f_equal. lia.
  - unfold children at 2. destruct (cl_status cl) eqn:E; (case_decide; [try discriminate|try done]);
      cbn in *; rewrite Hd in *; try (f_equal; lia).
    all: case_goal; boolify; [rewrite u32_pred by auto|]; f_equal; lia.
Qed.

Lemma good_without cfg s p cl :
  good cfg s -> d_heap s !! p = Some cl -> cl_status cl <> WAITFORCHILD ->
  (installing (cl_status cl) = true -> 0 <= cl_child_pid cl -> 0 < d_current_kids s) ->
  good cfg (without cfg p cl s).
Proof.
  intros [HL HT HW] Hp Hst Hk. split.
  - apply (ledger_without _ _ _ _ p cl) in HL; [|done..]. by rewrite decide_False in HL.
  - by apply tables_without.
  - by apply map_Forall_delete.
Qed.

(** ** Handlers and good states

    [here cfg p P]: the state is good and the client at [p] has the property
    [P]. *)

Definition here (cfg : Config) (p : positive) (P : Client -> Prop) (s : Daemon) : Prop :=
  good cfg s /\ exists cl, d_heap s !! p = Some cl /\ P cl.

#[export] Instance here_books cfg p P : BookInv (here cfg p P).
Proof.
  intros s s' Hs [HG (cl & Hp & HP)]. split; [by eapply books_inv|].
  exists cl. by rewrite (sb_heap _ _ Hs).
Qed.

(** A change of a client that its bookkeeping allows. *)
Record fair (cfg : Config) (cl cl' : Client) : Prop := {
  fr_same : same_client cl cl';
  fr_wf : client_wf cl';
  fr_slots : slots_held cfg cl' = slots_held cfg cl;
  fr_children : children cl' = children cl
}.

Lemma leads_weaken {S A} (I I' Q Q' : S -> Prop) (m : M S A) :
  (forall s, I s -> I' s) -> (forall s, Q' s -> Q s) -> leads I' Q' m -> leads I Q m.
Proof. intros HI HQ Hm s a s' Hs E. eapply HQ, Hm; eauto. Qed.

Lemma leads_ret {S A} (I Q : S -> Prop) (a : A) : (forall s, I s -> Q s) -> leads I Q (mret a : M S A).
Proof. intros HI s b s' Hs [= _ <-]. auto. Qed.
Lemma leads_throw {S A} (I Q : S -> Prop) f : leads I Q (throw f : M S A).
Proof. by intros s a s' Hs E. Qed.
Lemma leads_assert {S A} (I Q : S -> Prop) b (k : unit -> M S A) :
  (b = true -> leads I Q (k tt)) -> leads I Q (assert b ≫= k).
Proof. intros Hk. destruct b; [intros s a s' Hs E; by eapply Hk|by intros s a s' Hs E]. Qed.
Lemma leads_need {S A B} (I Q : S -> Prop) f (o : option A) (k : A -> M S B) :
  (forall a, o = Some a -> leads I Q (k a)) -> leads I Q (need f o ≫= k).
Proof. intros Hk. destruct o; [intros s b s' Hs E; by eapply Hk|by intros s b s' Hs E]. Qed.
Lemma leads_keep {S A} (I Q : S -> Prop) (m : M S A) :
  keeps I m -> (forall s, I s -> Q s) -> leads I Q m.
Proof. intros Hm HI s a s' Hs E. eapply HI, Hm; eauto. Qed.
Lemma leads_get {S A} (I Q : S -> Prop) (k : S -> M S A) :
  (forall s, leads I Q (k s)) -> leads I Q (get ≫= k).
Proof. intros Hk s a s' Hs E. rewrite bind_get in E. by eapply Hk. Qed.
Lemma leads_if {S A} (I Q : S -> Prop) (b : bool) (m1 m2 : M S A) :
  (b = true -> leads I Q m1) -> (b = false -> leads I Q m2) -> leads I Q (if b then m1 else m2).
Proof. destruct b; auto. Qed.

Section good.
Context `{ChannelLaws} `{System} (cfg : Config).

Lemma here_good p P s : here cfg p P s -> good cfg s.
Proof. by intros []. Qed.

Lemma here_weaken p (P Q : Client -> Prop) s :
  (forall cl, client_wf cl -> P cl -> Q cl) -> here cfg p P s -> here cfg p Q s.
Proof.
  intros HPQ [HG (cl & Hp & HP)]. split; [done|]. exists cl. split; [done|].
  apply HPQ; [|done]. by eapply good_lookup.
Qed.

Lemma leads_deref {A} p (P : Client -> Prop) (Q : Daemon -> Prop) (k : Client -> daemon A) :
  (forall cl, client_wf cl -> P cl -> leads (here cfg p (eq cl)) Q (k cl)) ->
  leads (here cfg p P) Q (deref_client p ≫= k).
Proof.
  intros Hk s a s' [HG (cl & Hp & HP)] E. apply bind_inv in E as (cl' & s1 & E1 & E).
  assert (same_books s s) as HB by done.
  eapply run_deref in E1 as [HB1 Hp1]; [|exact HB]. simplify_eq.
  eapply (Hk cl); [by eapply good_lookup|done| |exact E].
  eapply books_inv; [exact HB1|]. split; [done|]. by exists cl.
Qed.

Lemma leads_update p (P Q : Client -> Prop) f :
  (forall cl, client_wf cl -> P cl -> fair cfg cl (f cl) /\ Q (f cl)) ->
  leads (here cfg p P) (here cfg p Q) (update_client p f).
Proof.
  intros Hf s u s' [HG (cl & Hp & HP)] E. assert (same_books s s) as HB by done.
  eapply run_update in E as (cl' & Hp' & E); [|exact HB]. simplify_eq.
  destruct (Hf cl) as [[] HQ]; [by eapply good_lookup|done|]. split.
  - by eapply good_client.
  - exists (f cl). rewrite (sb_heap _ _ E). cbn. by rewrite lookup_insert_eq.
Qed.

Lemma leads_on_client {A} p (P Q : Client -> Prop) (r : reader A) :
  (forall c a c', r c = Ok (a, c') -> same_peer c c') ->
  (forall cl c, P cl -> Q (set_cl_channel c cl)) ->
  leads (here cfg p P) (here cfg p Q) (on_client p r).
Proof.
  intros Hr HPQ. unfold on_client. apply leads_deref. intros cl Hw HP.
  destruct (r (cl_channel cl)) as [[a c]|] eqn:Er; [|apply leads_throw].
  apply Hr in Er as [Hfd _].
  eapply leads_then; [apply (leads_update _ _ Q)|intros _; apply leads_ret; done].
  intros ? _ <-. split; [|by apply HPQ]. destruct Hw. by repeat split.
Qed.

Lemma leads_send p (P : Client -> Prop) m :
  (forall cl c, P cl -> P (set_cl_channel c cl)) ->
  leads (here cfg p P) (here cfg p P) (client_send p m).
Proof. intros HP. apply leads_on_client; [apply ch_send_peer|done]. Qed.

Lemma leads_end p code (P : Client -> Prop) :
  (forall cl, P cl -> cl_status cl <> WAITFORCHILD) ->
  leads (here cfg p P) (good cfg) (handle_end cfg p code).
Proof.
  intros HP s u s' [HG (cl & Hp & HPcl)] E.
  apply handle_end_books in E as (cl' & Hp' & _ & Hk & HB). simplify_eq.
  eapply books_inv; [exact HB|]. apply good_without; auto.
Qed.

Lemma leads_deref_good {A} p (Q : Daemon -> Prop) (k : Client -> daemon A) :
  (forall cl, client_wf cl -> leads (here cfg p (eq cl)) Q (k cl)) ->
  leads (good cfg) Q (deref_client p ≫= k).
Proof.
  intros Hk s a s' HG E. assert (same_books s s) as HB by done.
  pose proof E as E2. apply bind_inv in E2 as (cl & s1 & E1 & _).
  eapply run_deref in E1 as [_ Hp]; [|exact HB].
  eapply (leads_deref p (eq cl) Q k); [|split; [exact HG|by exists cl]|exact E].
  intros ? Hw <-. by apply Hk.
Qed.

(** A client that neither waits nor works. *)
Lemma wf_idle cl :
  client_wf cl -> may_have_job (cl_status cl) = false -> cl_status cl <> LINKJOB ->
  cl_status cl <> WAITCREATEENV ->
  cl_job_id cl = 0 /\ cl_fulljob cl = false /\ cl_pending_create_env cl = ""%string.
Proof.
  intros [Hf _ _ _ Hi He _] Hm Hl Hc. split; [|split].
  - destruct (decide (cl_job_id cl = 0)) as [|Hn]; [done|]. apply Hi in Hn. congruence.
  - destruct (cl_fulljob cl); [|done]. destruct (Hf eq_refl) as [E|E]; rewrite E in *; [tauto|done].
  - destruct (decide (cl_pending_create_env cl = ""%string)) as [|Hn]; [done|]. by apply He in Hn.
Qed.

Lemma installing_idle st : installing st = true ->
  may_have_job st = false /\ st <> LINKJOB /\ st <> WAITCREATEENV /\ st <> CLIENTWORK /\ st <> WAITFORCHILD.
Proof. by destruct st. Qed.

Lemma finished_fields cl :
  cl_status (finished cl) = UNKNOWN /\ cl_job_id (finished cl) = cl_job_id cl /\
  cl_fulljob (finished cl) = cl_fulljob cl /\
  cl_pending_create_env (finished cl) = cl_pending_create_env cl /\ same_client cl (finished cl).
Proof.
  unfold same_client, finished, killed, closed_to, closed_from; cbn. by repeat case_goal.
Qed.

Lemma finished_wf cl : client_wf cl -> installing (cl_status cl) = true -> client_wf (finished cl).
Proof.
  intros Hw Hi. apply installing_idle in Hi as (Hm & Hl & Hc & _).
  destruct (wf_idle cl Hw Hm Hl Hc) as (Hj & Hf & He).
  destruct (finished_fields cl) as (Es & Ej & Ef & Ee & _).
  split; rewrite ?Es, ?Ej, ?Ef, ?Ee, ?Hj, ?Hf, ?He; try done; [by intros [|]|].
  unfold finished, killed, closed_to, closed_from; cbn. repeat case_goal; cbn in *; boolify; lia.
Qed.

Lemma leads_finish_transfer p cancel :
  leads (here cfg p (fun cl => installing (cl_status cl) = true))
        (here cfg p (fun cl => cl_status cl = UNKNOWN)) (finish_transfer_env cfg p cancel).
Proof.
  intros s r s' [HG (cl & Hp & Hi)] E.
  apply finish_transfer_books in E as (cl' & Hp' & _ & Hk & HB). simplify_eq.
  pose proof (good_lookup _ _ _ _ HG Hp) as Hw. destruct (finished_fields cl) as (Es & _ & _ & _ & Hs).
  split; [|exists (finished cl); rewrite (sb_heap _ _ HB); cbn; by rewrite lookup_insert_eq].
  destruct (good_counters _ _ HG) as [Ha Hc], HB. cbn in *.
  pose proof (installing_idle _ Hi) as (_ & _ & _ & Hcw & _).
  eapply (good_counted _ _ _ _ (finished cl)); eauto using finished_wf.
  - rewrite sb_active0. unfold slots_held; cbn. rewrite !decide_False by done. by rewrite Z.add_simpl_r.
  - rewrite sb_kids0. unfold children; cbn. destruct (cl_status cl); try done; (case_goal; boolify;
      [rewrite Z.add_0_r, <- u32_pred by (rewrite Hc; auto); by rewrite Hc
      |by rewrite Z.add_simpl_r]).
Qed.
End good.
