(* ===== verification/DaemonInvariant.v ===== *)
(** * The daemon's bookkeeping

    Whatever clients that ask for one thing at a time and a scheduler that
    answers what it was asked make the daemon do, its counters are the sums of
    what the clients hold and its tables hold the clients that exist. *)

From Stdlib Require Import ZArith Lia.
From Stdlib Require Import Strings.Byte Strings.String.
From stdpp Require Import base tactics option list gmap strings.
From S2P Require Import Prelude MsgChannel CompileJob Msg Interface StdString Transport Compilers DaemonState Environments Daemon DaemonLoop DaemonFacts.

#[local] Open Scope Z_scope.

(** Walks through a handler; [here] says what is known of its client. *)
Ltac lead :=
  cbv beta; lazymatch goal with
  | |- leads _ _ (mret _) => apply leads_ret; eauto using here_good
  | |- leads _ _ (throw _) => apply leads_throw
  | |- leads _ _ (assert _ ≫= _) => apply leads_assert; intros ?
  | |- leads _ _ (need _ _ ≫= _) => apply leads_need; intros ? ?
  | |- leads _ _ (get ≫= _) => apply leads_get; intros ?
  | |- leads (here _ _ _) _ (deref_client _ ≫= _) => apply leads_deref; intros ? ? ?
  | |- leads (good _) _ (deref_client _ ≫= _) => apply leads_deref_good; intros ? ?
  | |- leads _ _ (if _ then _ else _) => apply leads_if; intros ?
  end.
(** A step that leaves the books alone. *)
Ltac lead_books :=
  apply leads_bind; [solve [eauto with icc|bk]|intros ?].
(** Some tactic for the end of a client. *)
Ltac lead_end := eapply leads_then; [eapply leads_end; cbv beta; intros; congruence|intros ?].

Section handlers.
Context `{ChannelLaws} `{System} (cfg : Config).

Lemma children_wf cl : client_wf cl -> children cl = if 0 <=? cl_child_pid cl then 1 else
  (if decide (cl_status cl = WAITFORCHILD) then 1 else 0).
Proof.
  intros [_ _ _ _ _ _ Hc]. unfold children.
  destruct (0 <=? cl_child_pid cl) eqn:E; boolify.
  - destruct (Hc E) as [Hi|Hi]; [|by rewrite Hi]. by destruct (cl_status cl).
  - case_decide as Hs; [by rewrite Hs|]. by destruct (cl_status cl).
Qed.

(** *** Environments sent by clients *)

Abbreviation is_installing := (fun cl => installing (cl_status cl) = true).

Lemma leads_end_installing p code : leads (here cfg p is_installing) (good cfg) (handle_end cfg p code).
Proof. apply leads_end. intros cl Hi E. by rewrite E in Hi. Qed.

Lemma leads_finish p c : leads (here cfg p is_installing) (good cfg) (finish_transfer_env cfg p c).
Proof.
  eapply leads_weaken; [done| |apply leads_finish_transfer]. apply here_good.
Qed.

Lemma fair_installing cl cl' :
  client_wf cl -> installing (cl_status cl) = true ->
  same_client cl cl' -> installing (cl_status cl') = true -> cl_fulljob cl' = cl_fulljob cl ->
  cl_outfile cl' = cl_outfile cl -> cl_job_id cl' = cl_job_id cl ->
  cl_pending_create_env cl' = cl_pending_create_env cl -> cl_child_pid cl' = cl_child_pid cl ->
  fair cfg cl cl'.
Proof.
  intros Hw Hi Hs Hi' Hf Ho Hj He Hc.
  pose proof (installing_idle _ Hi) as (Hm & Hl & Hcr & Hcw & Hwf).
  pose proof (installing_idle _ Hi') as (Hm' & Hl' & Hcr' & Hcw' & Hwf').
  destruct (wf_idle cl Hw Hm Hl Hcr) as (Ej & Ef & Ee).
  split; [done| | |].
  - split; rewrite ?Hf, ?Ho, ?Hj, ?He, ?Ej, ?Ef, ?Ee; try done.
    + intros [E|E]; by rewrite E in Hi'.
    + intros E. by rewrite E in Hi'.
    + intros _. by apply (wf_outfile _ Hw).
    + by left.
  - unfold slots_held. by rewrite !decide_False.
  - unfold children. rewrite Hc. destruct (cl_status cl), (cl_status cl'); done.
Qed.

(** What is known of the client, weakened. *)
Lemma leads_eq {A} p (P : Client -> Prop) cl Q (m : daemon A) :
  P cl -> leads (here cfg p P) Q m -> leads (here cfg p (eq cl)) Q m.
Proof.
  intros HP. apply leads_weaken; [|done]. intros s. apply here_weaken. by intros ? _ <-.
Qed.

Lemma leads_close_from p : leads (here cfg p is_installing) (here cfg p is_installing) (close_from p).
Proof.
  unfold close_from. lead. lead_books. apply (leads_eq p is_installing); [assumption|]. apply leads_update.
  intros c Hw Hi. split; [by apply fair_installing|exact Hi].
Qed.
Lemma leads_close_to p : leads (here cfg p is_installing) (here cfg p is_installing) (close_to p).
Proof.
  unfold close_to. lead. lead_books. apply (leads_eq p is_installing); [assumption|]. apply leads_update.
  intros c Hw Hi. split; [by apply fair_installing|exact Hi].
Qed.

Lemma leads_file_chunk p msg :
  leads (here cfg p is_installing) (good cfg) (handle_file_chunk_env cfg p msg).
Proof.
  unfold handle_file_chunk_env. lead. lead. lead. apply (leads_eq p is_installing); [assumption|].
  assert (forall n, leads (here cfg p is_installing) (good cfg) (_ ← handle_end cfg p n; mret false)) as Hend.
  { intros n. eapply leads_then; [apply leads_end_installing|intros _; lead]. }
  destruct msg; try apply Hend.
  - eapply leads_then; [apply leads_close_to|intros _]. lead; [|apply leads_finish].
    eapply leads_then; [apply (leads_update cfg p _ is_installing)|intros _; lead].
    intros c Hw Hi. split; [by apply fair_installing|exact eq_refl].
  - lead_books. lead; [lead|apply Hend].
Qed.

Lemma handle_new_child p to from pid :
  0 <= pid ->
  leads (here cfg p (fun cl => installing (cl_status cl) = true /\ cl_child_pid cl < 0)) (here cfg p is_installing)
    (_ ← kid_started; update_client p (fun cl => set_cl_child_pid pid (set_cl_pipe_from_child from
        (set_cl_pipe_to_child to cl)))).
Proof.
  intros Hpid s u s' [HG (cl & Hp & Hi & Hc)] E. assert (same_books s s) as HB by done.
  first_step E E1. eapply run_kid_started in E1; [|exact HB].
  eapply run_update in E as (cl' & Hp' & E); [|exact E1]. cbn in Hp'. simplify_eq.
  pose proof (good_lookup _ _ _ _ HG Hp) as Hw.
  pose proof (installing_idle _ Hi) as (Hm & Hl & Hcr & Hcw & Hwf).
  destruct (wf_idle cl Hw Hm Hl Hcr) as (Ej & Ef & Ee).
  set (cl' := set_cl_child_pid _ _) in E.
  assert (client_wf cl') as Hw'.
  { split; cbn; rewrite ?Ej, ?Ef, ?Ee; try done.
    - intros [E'|E']; by rewrite E' in Hi.
    - intros E'. by rewrite E' in Hi.
    - intros _. by apply (wf_outfile _ Hw).
    - by left. }
  split; [|exists cl'; rewrite (sb_heap _ _ E); cbn; by rewrite lookup_insert_eq].
  destruct (good_counters _ _ HG) as [Ha Hk], E. cbn in *.
  eapply (good_counted _ _ _ _ cl'); eauto; [by split|..].
  - rewrite sb_active. unfold slots_held; cbn. rewrite !decide_False by done. by rewrite Z.add_simpl_r.
  - rewrite sb_kids. f_equal. rewrite !children_wf by done. cbn.
    rewrite (proj2 (Z.leb_le 0 pid)), (proj2 (Z.leb_gt 0 (cl_child_pid cl))) by lia.
    rewrite !decide_False by done. lia.
Qed.

(** A client for which nothing is going on. *)
Definition idle (st : Status) : bool :=
  match st with UNKNOWN | GOTNATIVE | JOBDONE => true | _ => false end.
Abbreviation is_idle := (fun cl => idle (cl_status cl) = true).

Lemma idle_facts cl :
  client_wf cl -> idle (cl_status cl) = true ->
  cl_job_id cl = 0 /\ cl_fulljob cl = false /\ cl_pending_create_env cl = ""%string /\
  cl_child_pid cl < 0 /\ slots_held cfg cl = 0 /\ children cl = 0.
Proof.
  intros Hw Hi. destruct (wf_idle cl Hw) as (Hj & Hf & He); try (by destruct (cl_status cl)).
  split_and!; try done.
  - destruct (decide (0 <= cl_child_pid cl)) as [Hc|]; [|lia].
    destruct (wf_child _ Hw Hc) as [E|E]; [by destruct (cl_status cl)|by rewrite E in Hi].
  - unfold slots_held. rewrite decide_False; [done|]. intros E. by rewrite E in Hi.
  - unfold children. by destruct (cl_status cl).
Qed.

Lemma leads_end_idle p code : leads (here cfg p is_idle) (good cfg) (handle_end cfg p code).
Proof. apply leads_end. intros cl Hi E. by rewrite E in Hi. Qed.

Lemma keeps_start_install target name p :
  keeps (here cfg p is_idle) (start_install_environment cfg target name p).
Proof.
  unfold start_install_environment. apply keeps_if; [ks|].
  apply keeps_bind; [intros s a s'; apply leads_on_client; [apply ch_get_peer|done]|].
  intros msg. bk.
Qed.

Lemma leads_refuse_env p env : leads (here cfg p is_idle) (good cfg) (refuse_env cfg p env).
Proof.
  unfold refuse_env. apply leads_bind; [unfold remove_environment_files; bk|intros _].
  eapply leads_then; [apply leads_end_idle|intros _; lead].
Qed.

Lemma leads_transfer_env p m : leads (here cfg p is_idle) (good cfg) (handle_transfer_env cfg p m).
Proof.
  unfold handle_transfer_env. lead. do 3 lead. apply (leads_eq p is_idle); [assumption|].
  cbv zeta. apply leads_bind; [apply keeps_start_install|].
  intros [[[[pid to] from] fmsg]|]; [|apply leads_refuse_env].
  lead; [apply leads_refuse_env|]. boolify.
  eapply leads_then; [apply (leads_update cfg p _ (fun cl => installing (cl_status cl) = true /\ cl_child_pid cl < 0))|].
  { intros c Hw Hi. destruct (idle_facts c Hw Hi) as (Hj & Hf & He & Hc & Hs & Hch).
    split; [|split; [done|exact Hc]]. split; [by split| | |].
    - split; cbn; rewrite ?Hj, ?Hf, ?He; try done; [by intros [|]| |lia].
      intros _. by destruct (if decide _ then _ else _).
    - rewrite Hs. unfold slots_held; cbn. by rewrite decide_False.
    - rewrite Hch. unfold children; cbn. by rewrite (proj2 (Z.leb_gt _ _)). }
  intros _. eapply leads_then; [apply handle_new_child; lia|intros _; apply leads_file_chunk].
Qed.

Lemma installing_slots cl : installing (cl_status cl) = true -> slots_held cfg cl = 0.
Proof. intros Hi. unfold slots_held. rewrite decide_False; [done|]. intros E. by rewrite E in Hi. Qed.

Lemma leads_child_gone p :
  leads (here cfg p (fun cl => installing (cl_status cl) = true /\ 0 <= cl_child_pid cl))
    (here cfg p is_installing) (child_gone p).
Proof.
  intros s u s' [HG (cl & Hp & Hi & Hc)] E. assert (same_books s s) as HB by done.
  unfold child_gone in E. first_step E E1. eapply run_update in E1 as (cl' & Hp' & E1); [|exact HB].
  simplify_eq. eapply run_kid_done in E as [Hk E]; [|exact E1]. cbn in Hk.
  pose proof (good_lookup _ _ _ _ HG Hp) as Hw. set (cl' := set_cl_child_pid (-1) cl) in E.
  destruct (wf_idle cl Hw) as (Ej & Ef & Ee); try (by destruct (cl_status cl)).
  assert (client_wf cl') as Hw'.
  { split; cbn; rewrite ?Ej, ?Ef, ?Ee; try done.
    - intros [E'|E']; by rewrite E' in Hi.
    - intros E'. by rewrite E' in Hi.
    - intros _. by apply (wf_outfile _ Hw). }
  split; [|exists cl'; rewrite (sb_heap _ _ E); cbn; by rewrite lookup_insert_eq].
  destruct (good_counters _ _ HG) as [Ha Hks], E. cbn in *.
  eapply (good_counted _ _ _ _ cl'); eauto; [by split|..].
  - by rewrite sb_active, !installing_slots, Z.add_simpl_r.
  - rewrite sb_kids, !children_wf by done. cbn. rewrite (proj2 (Z.leb_le 0 _)) by done.
    rewrite decide_False by (intros E; by rewrite E in Hi).
    by rewrite Z.add_0_r, <- u32_pred by (by rewrite Hks); rewrite Hks.
Qed.

Lemma leads_install_done p :
  leads (here cfg p is_installing) (good cfg) (handle_env_install_child_done cfg p).
Proof.
  unfold handle_env_install_child_done. lead. do 3 lead. lead_books. boolify.
  eapply leads_then; [apply (leads_eq p (fun cl => installing (cl_status cl) = true /\ 0 <= cl_child_pid cl));
                      [done|apply leads_child_gone]|intros _].
  eapply leads_then; [apply leads_close_from|intros _].
  lead; [apply leads_finish|]. lead; [lead; lead|apply leads_finish].
Qed.

(** *** Environments for the compilers of this machine *)

Abbreviation is_waiting := (fun cl => cl_status cl = WAITCREATEENV).

Lemma leads_end_waiting p code : leads (here cfg p is_waiting) (good cfg) (handle_end cfg p code).
Proof. apply leads_end. intros cl Hi E. congruence. Qed.

Lemma waiting_facts cl :
  client_wf cl -> cl_status cl = WAITCREATEENV ->
  cl_job_id cl = 0 /\ cl_fulljob cl = false /\ cl_child_pid cl < 0.
Proof.
  intros [Hf _ _ _ Hi _ Hc] Hs. rewrite Hs in *. split_and!.
  - destruct (decide (cl_job_id cl = 0)) as [|Hn]; [done|]. by apply Hi in Hn.
  - destruct (cl_fulljob cl); [|done]. by destruct (Hf eq_refl).
  - destruct (decide (0 <= cl_child_pid cl)) as [Hp|]; [|lia]. by destruct (Hc Hp).
Qed.

Lemma leads_finish_get_native p key : leads (good cfg) (good cfg) (finish_get_native_env cfg p key).
Proof.
  unfold finish_get_native_env. lead. lead. lead. apply bool_decide_eq_true in H3.
  apply (leads_eq p is_waiting); [done|]. lead_books.
  eapply leads_then; [by apply (leads_send cfg p is_waiting)|intros ok].
  lead; [eapply leads_then; [apply leads_end_waiting|intros _; lead]|].
  lead_books. lead_books.
  eapply leads_then; [apply (leads_update cfg p _ (fun _ => True))|intros _; lead].
  intros c Hw Hs. destruct (waiting_facts c Hw Hs) as (Hj & Hf & Hc). split; [|done]. split; [by split| | |].
  - split; cbn; rewrite ?Hj, ?Hf; try done; [by intros [|]|lia].
  - unfold slots_held; cbn. by rewrite Hs, !decide_False.
  - unfold children; cbn. by rewrite Hs.
Qed.

Abbreviation may_ask_env := (fun cl => idle (cl_status cl) = true \/ cl_status cl = WAITCREATEENV).

Lemma may_ask_facts cl :
  client_wf cl -> idle (cl_status cl) = true \/ cl_status cl = WAITCREATEENV ->
  cl_job_id cl = 0 /\ cl_fulljob cl = false /\ cl_child_pid cl < 0 /\
  slots_held cfg cl = 0 /\ children cl = 0.
Proof.
  intros Hw [Hi|Hs].
  - destruct (idle_facts cl Hw Hi) as (? & ? & ? & ? & ? & ?). tauto.
  - destruct (waiting_facts cl Hw Hs) as (? & ? & ?). split_and!; try done.
    + unfold slots_held. by rewrite Hs, decide_False.
    + unfold children. by rewrite Hs.
Qed.

Lemma leads_no_compiler p : leads (here cfg p may_ask_env) (good cfg) (no_compiler cfg p).
Proof.
  unfold no_compiler. eapply leads_then; [by apply (leads_send cfg p may_ask_env)|intros _].
  eapply leads_then; [apply leads_end|intros _; lead].
  intros cl [Hi|Hs] E; [by rewrite E in Hi|congruence].
Qed.

Lemma leads_get_native_env p m : leads (here cfg p may_ask_env) (good cfg) (handle_get_native_env cfg p m).
Proof.
  unfold handle_get_native_env. lead. cbv zeta. apply (leads_eq p may_ask_env); [done|].
  do 3 lead_books. case_match; [|apply leads_no_compiler]. case_match. lead_books. lead_books.
  case_match; [|apply leads_no_compiler]. case_match. lead_books.
  apply leads_bind; [bk|intros _].
  eapply leads_then; [apply (leads_update cfg p _ (fun _ => True))|intros _].
  { intros c Hw Hs. destruct (may_ask_facts c Hw Hs) as (Hj & Hf & Hc & Hsl & Hch).
    split; [|done]. split; [by split| | |].
    - split; cbn; rewrite ?Hj, ?Hf; try done; [by intros [|]|lia].
    - rewrite Hsl. unfold slots_held; cbn. by rewrite decide_False.
    - by rewrite Hch. }
  apply (leads_weaken _ (good cfg) _ (good cfg)); [apply here_good|done|].
  lead_books. case_decide; [apply leads_finish_get_native|].
  apply leads_keep; [bk|done].
Qed.

(** The clients as [all_clients] gives them. *)
Lemma deref_clients_spec l s r s' :
  deref_clients l s = Ok (r, s') -> s' = s /\ forall p cl, (p, cl) ∈ r -> d_heap s !! p = Some cl.
Proof.
  revert r s'. induction l as [|[k p] l IH]; intros r s' E; cbn in E.
  - injection E as <- <-. split; [done|]. intros p cl Hin. by apply not_elem_of_nil in Hin.
  - apply bind_inv in E as (cl & s1 & E1 & E). unfold deref_client in E1. rewrite bind_get in E1.
    destruct (d_heap s !! p) as [c|] eqn:Hp; [|done]. injection E1 as <- <-.
    apply bind_inv in E as (r' & s1 & E1 & E). apply IH in E1 as [-> Hr]. injection E as <- <-.
    split; [done|]. intros q c' [[= -> ->]|Hin]%elem_of_cons; auto.
Qed.

Lemma all_clients_spec s r s' :
  all_clients s = Ok (r, s') -> s' = s /\ forall p cl, (p, cl) ∈ r -> d_heap s !! p = Some cl.
Proof. unfold all_clients. rewrite bind_gets. apply deref_clients_spec. Qed.

(** A client of the list is there. *)
Lemma leads_clients {A} (Q : Daemon -> Prop) (k : list (positive * Client) -> daemon A) :
  (forall l, leads (fun s => good cfg s /\ forall p cl, (p, cl) ∈ l -> d_heap s !! p = Some cl) Q (k l)) ->
  leads (good cfg) Q (all_clients ≫= k).
Proof.
  intros Hk s a s' HG E. apply bind_inv in E as (l & s1 & E1 & E).
  apply all_clients_spec in E1 as [-> Hl]. by eapply Hk.
Qed.

Lemma leads_listed {A} (l : list (positive * Client)) p cl (P : Client -> Prop) Q (m : daemon A) :
  (p, cl) ∈ l -> (client_wf cl -> P cl) -> leads (here cfg p P) Q m ->
  leads (fun s => good cfg s /\ forall p cl, (p, cl) ∈ l -> d_heap s !! p = Some cl) Q m.
Proof.
  intros Hin HP. apply leads_weaken; [|done]. intros s [HG Hl]. split; [done|].
  exists cl. split; [auto|]. apply HP. eapply good_lookup; eauto.
Qed.

Lemma leads_fail_waiting fuel key :
  key <> ""%string -> leads (good cfg) (good cfg) (fail_waiting cfg fuel key).
Proof.
  intros Hkey. induction fuel as [|fuel IH]; cbn; apply leads_clients; intros l.
  - case_match; [apply leads_ret; tauto|]. case_match. apply leads_throw.
  - case_match eqn:El; [apply leads_ret; tauto|]. destruct p as [p cl].
    assert ((p, cl) ∈ filter (fun e : positive * Client => cl_pending_create_env e.2 = key) l) as Hin
      by (rewrite El; left).
    apply list_elem_of_filter in Hin as [He Hin]. cbn in He.
    apply (leads_listed l p cl is_waiting); [done| |].
    { intros Hw. apply (wf_env _ Hw). by rewrite He. }
    eapply leads_then; [by apply (leads_send cfg p is_waiting)|intros _].
    eapply leads_then; [apply leads_end_waiting|intros _; apply IH].
Qed.

Lemma leads_serve_waiting fuel key it : leads (good cfg) (good cfg) (serve_waiting cfg fuel key it).
Proof.
  revert it. induction fuel as [|fuel IH]; intros [[k p]|]; cbn; try (apply leads_ret; done).
  lead. apply (leads_weaken _ (good cfg) _ (good cfg)); [apply here_good|done|].
  eapply leads_then; [|intros _].
  - unfold when. lead; [|lead]. eapply leads_then; [apply leads_finish_get_native|intros _; lead].
  - lead_books. lead_books. apply IH.
Qed.

Lemma leads_create_env_finished key :
  key <> ""%string -> leads (good cfg) (good cfg) (create_env_finished cfg key).
Proof.
  intros Hkey. unfold create_env_finished. lead. lead. lead. do 4 lead_books. lead.
  - eapply leads_then; [by apply leads_fail_waiting|intros _; lead].
  - do 5 lead_books. eapply leads_then; [apply leads_serve_waiting|intros _; lead].
Qed.

(** *** Jobs *)

Definition may_finish (st : Status) : bool :=
  match st with WAITCREATEENV | TOINSTALL | WAITINSTALL | WAITFORCHILD => false | _ => true end.

Lemma may_finish_facts cl :
  client_wf cl -> may_finish (cl_status cl) = true ->
  children cl = 0 /\ cl_child_pid cl < 0 /\ cl_pending_create_env cl = ""%string.
Proof.
  intros Hw Hm. split_and!.
  - unfold children. by destruct (cl_status cl).
  - destruct (decide (0 <= cl_child_pid cl)) as [Hc|]; [|lia].
    destruct (wf_child _ Hw Hc) as [E|E]; [by destruct (cl_status cl)|by rewrite E in Hm].
  - destruct (decide (cl_pending_create_env cl = ""%string)) as [|Hn]; [done|].
    by rewrite (wf_env _ Hw Hn) in Hm.
Qed.

Lemma leads_job_done p m :
  leads (here cfg p (fun cl => may_finish (cl_status cl) = true)) (good cfg) (handle_job_done cfg p m).
Proof.
  intros s b s' [HG (cl & Hp & Hm)] E. pose proof (good_lookup _ _ _ _ HG Hp) as Hw.
  destruct (may_finish_facts cl Hw Hm) as (Hch & Hcp & He). assert (same_books s s) as HB by done.
  unfold handle_job_done in E. first_step E E1. eapply run_deref in E1 as [HB1 Hp1]; [|exact HB].
  simplify_eq. first_step E E1. eapply run_release in E1; [|exact HB1].
  first_step E E2. eapply run_update in E2 as (c2 & Hp2 & E2); [|exact E1]. cbn in Hp2. simplify_eq.
  first_step E E3. eapply run_same in E3; [|intros; eauto with icc|exact E2].
  first_step E E4. eapply run_assert in E4 as [HB4 _]; [|exact E3].
  first_step E E5. eapply run_update in E5 as (c5 & Hp5 & E5); [|exact HB4].
  cbn in Hp5. rewrite lookup_insert_eq in Hp5. injection Hp5 as <-.
  first_step E E6. eapply run_same in E6; [|intros; eauto with icc|exact E5].
  eapply run_same in E; [|intros; eauto with icc|exact E6].
  cbn in E. rewrite insert_insert_eq in E. set (cl' := set_cl_job_id 0 _) in E.
  assert (client_wf cl') as Hw' by (split; cbn; rewrite ?He; try done; [by intros [|]|lia]).
  destruct (good_counters _ _ HG) as [Ha Hk], E. cbn in *.
  eapply (good_counted _ _ _ _ cl'); eauto; [by split|..].
  - rewrite sb_active. unfold slots_held; cbn. rewrite (decide_False (P := JOBDONE = _)) by done.
    rewrite Z.add_0_r. case_decide; [done|]. by rewrite Z.sub_0_r.
  - by rewrite sb_kids, Hch, Z.add_0_r, Z.sub_0_r.
Qed.

(** *** Starting a waiting job *)

(** A client that gets slots to work. *)
Lemma leads_start_work p st fulljob :
  st = LINKJOB \/ st = PENDING_USE_CS ->
  leads (here cfg p (fun cl => cl_status cl = st /\ cl_fulljob cl = fulljob)) (good cfg)
    (start_work p (slots_of cfg fulljob)).
Proof.
  intros Hst s u s' [HG (cl & Hp & Hs & Hf)] E. pose proof (good_lookup _ _ _ _ HG Hp) as Hw.
  destruct (may_finish_facts cl Hw) as (Hch & Hcp & He); [rewrite Hs; by destruct Hst; subst|].
  assert (same_books s s) as HB by done. unfold start_work in E.
  first_step E E1. eapply run_update in E1 as (c & Hp1 & E1); [|exact HB]. simplify_eq.
  eapply run_reserve in E; [|exact E1]. set (cl' := set_cl_status CLIENTWORK cl) in E.
  assert (client_wf cl') as Hw'.
  { split; cbn; rewrite ?He; try done; [by right|by intros [|]|lia]. }
  destruct (good_counters _ _ HG) as [Ha Hk], E. cbn in *.
  eapply (good_counted _ _ _ _ cl'); eauto; [by split|..].
  - rewrite sb_active. unfold slots_held; cbn. rewrite decide_True by done.
    rewrite decide_False by (by destruct Hst; subst; congruence). f_equal. lia.
  - rewrite sb_kids, Hch. cbn. by rewrite Z.add_0_r, Z.sub_0_r.
Qed.

Abbreviation has_status st := (fun cl => cl_status cl = st).

Lemma leads_end_status p st code :
  st <> WAITFORCHILD -> leads (here cfg p (has_status st)) (good cfg) (handle_end cfg p code).
Proof. intros Hst. apply leads_end. by intros cl ->. Qed.

Lemma leads_start_local p : leads (here cfg p (has_status LINKJOB)) (good cfg) (start_local cfg p).
Proof.
  unfold start_local. lead_books.
  eapply leads_then; [by apply (leads_send cfg p (has_status LINKJOB))|intros ok]. lead.
  - eapply leads_then; [by apply leads_end_status|intros _; lead].
  - lead. eapply leads_then; [|intros _].
    + apply (leads_eq p (fun c => cl_status c = LINKJOB /\ cl_fulljob c = cl_fulljob cl)); [done|].
      apply leads_start_work. by left.
    + lead_books. apply leads_keep; [eauto with icc|done].
Qed.

Lemma leads_start_pending p :
  leads (here cfg p (has_status PENDING_USE_CS)) (good cfg) (start_pending cfg p).
Proof.
  unfold start_pending. lead. lead.
  set (P := fun c : Client => cl_status c = PENDING_USE_CS /\ cl_fulljob c = false).
  apply (leads_eq p P).
  { split; [done|]. destruct (cl_fulljob cl) eqn:E; [|done]. destruct (wf_fulljob cl); congruence. }
  eapply leads_then; [by apply (leads_send cfg p P)|intros ok]. lead.
  - apply (leads_start_work p PENDING_USE_CS false). by right.
  - apply leads_end. unfold P. intros c [Hs _] E. congruence.
Qed.

Abbreviation has_job := (fun c => cl_status c = TOCOMPILE /\ cl_job c <> None).

Lemma leads_start_child p sock pid :
  leads (here cfg p has_job) (good cfg)
    (_ ← kid_started; update_client p (fun cl => set_cl_status WAITFORCHILD
        (set_cl_pipe_from_child sock (set_cl_child_pid pid cl)))).
Proof.
  intros s u s' [HG (cl & Hp & Hs & Hj)] E. assert (same_books s s) as HB by done.
  first_step E E1. eapply run_kid_started in E1; [|exact HB].
  eapply run_update in E as (cl' & Hp' & E); [|exact E1]. cbn in Hp'. simplify_eq.
  pose proof (good_lookup _ _ _ _ HG Hp) as Hw.
  destruct (may_finish_facts cl Hw) as (Hch & Hcp & He); [by rewrite Hs|].
  destruct (wf_idle cl Hw) as (Ej & Ef & _); try (by rewrite Hs).
  set (cl' := set_cl_status _ _) in E.
  assert (client_wf cl') as Hw' by (split; cbn; rewrite ?Ef, ?He, ?Ej; try done; by right).
  destruct (good_counters _ _ HG) as [Ha Hk], E. cbn in *.
  eapply (good_counted _ _ _ _ cl'); eauto; [by split|..].
  - rewrite sb_active. unfold slots_held; cbn. rewrite Hs, !decide_False by done.
    by rewrite Z.add_0_r, Z.sub_0_r.
  - rewrite sb_kids, Hch. cbn. f_equal. lia.
Qed.

Lemma leads_start_compile p :
  leads (here cfg p (has_status TOCOMPILE)) (good cfg) (start_compile cfg p).
Proof.
  unfold start_compile. lead. lead. do 3 lead_books.
  apply (leads_eq p has_job); [split; congruence|].
  assert (leads (here cfg p has_job) (good cfg) (handle_end cfg p 117)) as Hend.
  { apply leads_end. intros c [Hs _] E. congruence. }
  case_match; [|done]. case_match. lead. lead; [|done].
  eapply leads_then; [apply leads_start_child|intros _]. do 3 lead_books. by lead.
Qed.

Lemma earliest_from_spec st l acc :
  forall e, earliest_from st l acc = Some e -> (cl_status e.2 = st /\ e ∈ l) \/ acc.1.1 = Some e.
Proof.
  revert acc. induction l as [|x l IH]; intros [[o i] n] e E; cbn in *; [by right|].
  case_match eqn:Ec.
  - apply IH in E as [[Hs Hin]|E]; [left; split; [done|by right]|]. cbn in E. injection E as <-.
    boolify. left. split; [by apply bool_decide_eq_true in H2|left].
  - apply IH in E as [[Hs Hin]|E]; [left; split; [done|by right]|by right].
Qed.

Lemma get_earliest_spec st l e : get_earliest_client st l = Some e -> cl_status e.2 = st /\ e ∈ l.
Proof. intros E. by apply earliest_from_spec in E as [E|E]. Qed.

Lemma leads_old_requests fuel : leads (good cfg) (good cfg) (old_requests cfg fuel).
Proof.
  induction fuel as [|fuel IH]; cbn; (apply leads_bind; [unfold has_slot; bk|intros free]);
    (lead; [by lead|]); apply leads_clients; intros l; lead.
  - repeat case_match; try apply leads_throw; apply leads_ret; tauto.
  - destruct (get_earliest_client LINKJOB l) as [[p c]|] eqn:E1.
    { apply get_earliest_spec in E1 as [Hs Hin]. cbn in Hs.
      apply (leads_listed l p c (has_status LINKJOB)); [done..|].
      eapply leads_then; [apply leads_start_local|intros more]. unfold when. lead; [apply IH|by lead]. }
    destruct (get_earliest_client PENDING_USE_CS l) as [[p c]|] eqn:E2.
    { apply get_earliest_spec in E2 as [Hs Hin]. cbn in Hs.
      apply (leads_listed l p c (has_status PENDING_USE_CS)); [done..|].
      eapply leads_then; [apply leads_start_pending|intros more]. apply IH. }
    destruct (if 1000 <=? d_current_load s then None else get_earliest_client TOCOMPILE l)
      as [[p c]|] eqn:E3; [|apply leads_ret; tauto].
    case_match; [done|]. apply get_earliest_spec in E3 as [Hs Hin]. cbn in Hs.
    apply (leads_listed l p c (has_status TOCOMPILE)); [done..|].
    eapply leads_then; [apply leads_start_compile|intros more]. apply IH.
Qed.

Lemma leads_old_request : leads (good cfg) (good cfg) (handle_old_request cfg).
Proof. unfold handle_old_request. lead_books. apply leads_old_requests. Qed.

(** *** A job that is done *)

(** The child of a client is counted off before the client goes. *)
Record owing (p : positive) (s : Daemon) : Prop := {
  ow_ledger : ledger cfg 0 (-1) s;
  ow_tables : tables s;
  ow_clients : map_Forall (fun _ cl => client_wf cl) (d_heap s);
  ow_here : exists cl, d_heap s !! p = Some cl /\ cl_status cl = WAITFORCHILD
}.

#[local] Instance owing_books p : BookInv (owing p).
Proof.
  intros s s' Hs []. split; [by eapply books_inv..| |]; by rewrite (sb_heap _ _ Hs).
Qed.

Lemma leads_count_off p : leads (here cfg p (has_status WAITFORCHILD)) (owing p) kid_done.
Proof.
  intros s u s' [[HL HT HW] He] E. assert (same_books s s) as HB by done.
  eapply run_kid_done in E as [Hk E]; [|exact HB]. eapply books_inv; [exact E|]. split; try done.
  - by apply (ledger_kid_done cfg 0 0).
  - by destruct HT.
Qed.

Lemma keeps_owing_close_from p : keeps (owing p) (close_from p).
Proof.
  intros s u s' [HL HT HW (cl & Hp & Hs)] E. assert (same_books s s) as HB by done.
  eapply run_close_from in E as (c & Hp' & E); [|exact HB]. simplify_eq.
  eapply books_inv; [exact E|]. split; cbn.
  - pose proof (ledger_update cfg 0 (-1) s p cl (set_cl_pipe_from_child (-1) cl) Hp HL) as HL'.
    unfold slots_held, children in HL'. cbn in HL'. by rewrite Hs in HL'.
  - by apply (tables_update _ _ cl).
  - apply map_Forall_insert_2; [|done]. pose proof (map_Forall_lookup_1 _ _ _ _ HW Hp) as []. by split.
  - eexists. by rewrite lookup_insert_eq.
Qed.

Lemma leads_owing_end p code : leads (owing p) (good cfg) (handle_end cfg p code).
Proof.
  intros s u s' [HL HT HW (cl & Hp & Hs)] E.
  apply handle_end_books in E as (cl' & Hp' & _ & Hk & HB). simplify_eq.
  eapply books_inv; [exact HB|]. split.
  - apply (ledger_without _ _ _ _ p cl) in HL; [|done..]. by rewrite decide_True in HL.
  - by apply tables_without.
  - by apply map_Forall_delete.
Qed.

Lemma leads_compile_done p :
  leads (here cfg p (has_status WAITFORCHILD)) (good cfg) (handle_compile_done cfg p).
Proof.
  unfold handle_compile_done. lead. do 4 lead. apply (leads_eq p (has_status WAITFORCHILD)); [done|].
  lead_books. eapply leads_then; [apply leads_count_off|intros _]. lead_books. case_match.
  apply leads_bind; [apply keeps_owing_close_from|intros _]. do 2 lead_books.
  apply leads_bind; [bk|intros _]. lead_books.
  eapply leads_then; [apply leads_owing_end|intros _; by lead].
Qed.

Lemma leads_compile_file p job :
  leads (here cfg p (fun cl => cl_status cl = CLIENTWORK \/ idle (cl_status cl) = true)) (good cfg)
    (handle_compile_file cfg p job).
Proof.
  unfold handle_compile_file. eapply leads_then.
  { apply (leads_update cfg p _ (fun cl => (cl_status cl = CLIENTWORK \/ idle (cl_status cl) = true)
                                           /\ cl_job cl <> None)).
    intros c Hw Hs. split; [|by split]. split; [by split| |done|done]. destruct Hw. by split. }
  intros _. lead. case_decide as Hc.
  - lead. lead_books. lead_books. apply leads_keep; [eauto with icc|apply here_good].
  - destruct H3 as [[Hs|Hi] Hj]; [done|].
    apply (leads_eq p (fun c => idle (cl_status c) = true /\ cl_job c <> None)); [by split|].
    eapply leads_then; [apply (leads_update cfg p _ (fun _ => True))|intros _; by lead].
    intros c Hw [Hi' Hj']. destruct (idle_facts c Hw Hi') as (Ej & Ef & Ee & Ec & Es & Ech).
    split; [|done]. split; [by split| | |].
    + split; cbn; rewrite ?Ej, ?Ef, ?Ee; try done. lia.
    + rewrite Es. unfold slots_held; cbn. by rewrite decide_False.
    + by rewrite Ech.
Qed.

(** *** Other messages *)

Lemma leads_verify_env p m (P : Client -> Prop) :
  (forall cl c, P cl -> P (set_cl_channel c cl)) ->
  leads (here cfg p P) (good cfg) (handle_verify_env cfg p m).
Proof.
  intros HP. unfold handle_verify_env. eapply leads_then.
  - assert (forall e, keeps (here cfg p P) (error_client p e)) as He.
    { intros e. unfold error_client. apply keeps_bind; [eauto with icc|intros cl]. apply keeps_when.
      apply keeps_bind; [|intros _; ks]. by apply leads_send. }
    assert (keeps (here cfg p P) (verify_env cfg p (ve_target m) (ve_environment m))) as Hk.
    { unfold verify_env. apply keeps_if; [apply keeps_bind; [apply He|intros _; ks]|].
      apply keeps_bind; [eauto with icc|intros ok]. apply keeps_if; [|bk].
      apply keeps_bind; [apply He|intros _; ks]. }
    exact Hk.
  - intros ok. eapply leads_weaken; [done|apply here_good|by apply leads_send].
Qed.

Lemma leads_blacklist p m (P : Client -> Prop) :
  leads (here cfg p P) (good cfg) (handle_blacklist_host_env cfg m).
Proof. apply leads_keep; [unfold handle_blacklist_host_env; eauto with icc|apply here_good]. Qed.

(** A client that waits for the scheduler is given something. *)
Lemma fair_answered cl cl' :
  client_wf cl -> cl_status cl = WAITFORCS -> same_client cl cl' ->
  cl_status cl' = WAITCOMPILE \/ cl_status cl' = PENDING_USE_CS /\ cl_usecsmsg cl' <> None ->
  cl_fulljob cl' = cl_fulljob cl -> cl_pending_create_env cl' = cl_pending_create_env cl ->
  cl_child_pid cl' = cl_child_pid cl -> fair cfg cl cl'.
Proof.
  intros Hw Hs Hsame Hst Hf He Hc.
  destruct (may_finish_facts cl Hw) as (Hch & Hcp & Hpe); [by rewrite Hs|].
  assert (cl_fulljob cl = false) as Hff.
  { destruct (cl_fulljob cl) eqn:E; [|done]. destruct (wf_fulljob _ Hw E); congruence. }
  split; [done| | |].
  - split; rewrite ?Hf, ?He, ?Hc, ?Hff, ?Hpe; try done.
    + intros [E|E]; destruct Hst as [E'|[E' _]]; congruence.
    + intros E. destruct Hst as [E'|[E' Hu]]; congruence.
    + intros E. destruct Hst as [E'|[E' _]]; by rewrite E' in E.
    + intros _. by destruct Hst as [->|[-> _]].
    + lia.
  - unfold slots_held. rewrite Hs, !decide_False; [done..|]. destruct Hst as [->|[-> _]]; done.
  - rewrite Hch. unfold children. by destruct Hst as [->|[-> _]].
Qed.

Lemma leads_set_pending p platform id matched :
  leads (here cfg p (has_status WAITFORCS)) (here cfg p (has_status PENDING_USE_CS))
    (set_pending cfg p platform id matched).
Proof.
  unfold set_pending. apply leads_update. intros c Hw Hs. split; [|done].
  apply fair_answered; try done. by right.
Qed.

Lemma leads_set_job_id p st id :
  may_have_job st = true ->
  leads (here cfg p (has_status st)) (good cfg) (update_client p (set_cl_job_id id)).
Proof.
  intros Hst. eapply leads_weaken; [done|apply here_good|]. apply leads_update with (Q := has_status st).
  intros c Hw Hs. split; [|done]. split; [by split| |done|done]. destruct Hw. split; cbn; try done.
  by rewrite Hs.
Qed.

Lemma leads_get_cs p m : leads (here cfg p is_idle) (good cfg) (handle_get_cs cfg p m).
Proof.
  unfold handle_get_cs. eapply leads_then.
  { apply (leads_update cfg p _ (has_status WAITFORCS)). intros c Hw Hi.
    destruct (idle_facts c Hw Hi) as (Ej & Ef & Ee & Ec & Es & Ech). split; [|done]. split; [by split| | |].
    - split; cbn; rewrite ?Ej, ?Ef, ?Ee; try done; [by intros [|]|lia].
    - rewrite Es. unfold slots_held; cbn. by rewrite decide_False.
    - by rewrite Ech. }
  intros _. lead. lead. apply (leads_eq p (has_status WAITFORCS)); [done|]. cbv zeta. case_decide.
  - eapply leads_then; [apply leads_set_pending|intros _].
    eapply leads_then; [by apply leads_set_job_id|intros _; by lead].
  - lead_books. apply leads_keep; [eauto with icc|apply here_good].
Qed.

Lemma leads_local_job p m : leads (here cfg p is_idle) (good cfg) (handle_local_job p m).
Proof.
  unfold handle_local_job. eapply leads_then; [|intros _; by lead].
  eapply leads_weaken; [done|apply here_good|]. apply leads_update with (Q := fun _ => True).
  intros c Hw Hi. destruct (idle_facts c Hw Hi) as (Ej & Ef & Ee & Ec & Es & Ech). split; [|done].
  split; [by split| | |].
  - split; cbn; rewrite ?Ej, ?Ef, ?Ee; try done; [by left|by intros [|]|lia].
  - rewrite Es. unfold slots_held; cbn. by rewrite decide_False.
  - by rewrite Ech.
Qed.

(** *** The scheduler's answers *)

Lemma find_by_client_id_spec id l e :
  find_by_client_id id l = Some e -> e ∈ l /\ cl_client_id e.2 = id.
Proof.
  unfold find_by_client_id. intros Hh.
  assert (e ∈ filter (fun e : positive * Client => cl_client_id e.2 = id) l) as Hin
    by (destruct (filter _ _); inversion Hh; left).
  apply list_elem_of_filter in Hin as [? ?]. done.
Qed.

(** The answer is for a client that waits for it, or for none. *)
Definition answers (id : Z) (s : Daemon) : Prop :=
  forall p cl, d_heap s !! p = Some cl -> cl_client_id cl = i32 id -> cl_status cl = WAITFORCS.

Lemma leads_refuse_job id : leads (good cfg) (good cfg) (refuse_job cfg id).
Proof. unfold refuse_job. lead_books. lead_books. by lead. Qed.

Lemma run_all_clients {A} s (k : list (positive * Client) -> daemon A) a s' :
  (all_clients ≫= k) s = Ok (a, s') ->
  exists l, (forall p cl, (p, cl) ∈ l -> d_heap s !! p = Some cl) /\ k l s = Ok (a, s').
Proof.
  intros E. apply bind_inv in E as (l & s1 & E1 & E). apply all_clients_spec in E1 as [-> Hl]. eauto.
Qed.

Lemma leads_use_cs p msg : leads (here cfg p (has_status WAITFORCS)) (good cfg) (use_cs cfg p msg).
Proof.
  unfold use_cs. lead. lead.
  - eapply leads_then; [apply leads_set_pending|intros _].
    eapply leads_then; [by apply leads_set_job_id|intros _; by lead].
  - eapply leads_then.
    { apply (leads_update cfg p _ (has_status WAITFORCS)). intros c Hw Hs. split; [|done].
      split; [by split| |done|done]. by destruct Hw. }
    intros _. eapply leads_then; [by apply (leads_send cfg p (has_status WAITFORCS))|intros ok].
    lead; [eapply leads_then; [by apply leads_end_status|intros _; by lead]|].
    eapply leads_then.
    { apply (leads_update cfg p _ (has_status WAITCOMPILE)). intros c Hw Hs. split; [|done].
      apply fair_answered; try done. by left. }
    intros _. eapply leads_then; [by apply leads_set_job_id|intros _; by lead].
Qed.

Lemma use_cs_good msg s r s' :
  good cfg s -> answers (ucs_client_id msg) s -> scheduler_use_cs cfg msg s = Ok (r, s') -> good cfg s'.
Proof.
  intros HG Hans E. unfold scheduler_use_cs in E. apply run_all_clients in E as (l & Hl & E).
  destruct (find_by_client_id _ l) as [[p cl]|] eqn:Ef; [|by eapply leads_refuse_job].
  apply find_by_client_id_spec in Ef as [Hin Hid]. apply Hl in Hin.
  eapply leads_use_cs; [|exact E]. split; [done|exists cl; eauto].
Qed.

Lemma no_cs_good msg s r s' :
  good cfg s -> answers (ncs_client_id msg) s -> scheduler_no_cs cfg msg s = Ok (r, s') -> good cfg s'.
Proof.
  intros HG Hans E. unfold scheduler_no_cs in E. apply run_all_clients in E as (l & Hl & E).
  destruct (find_by_client_id _ l) as [[p cl]|] eqn:Ef; [|by eapply leads_refuse_job].
  apply find_by_client_id_spec in Ef as [Hin Hid]. apply Hl in Hin.
  assert (here cfg p (has_status WAITFORCS) s) as Hh by (split; [done|exists cl; eauto]).
  eapply (leads_then _ (here cfg p (has_status PENDING_USE_CS)) (good cfg)); [..|exact Hh|exact E].
  - apply leads_set_pending.
  - intros ?. eapply leads_then; [by apply leads_set_job_id|intros ?; by lead].
Qed.

(** *** The end of all clients *)

(** Good, but for children whose clients are gone. *)
Record loose (s : Daemon) : Prop := {
  ls_ledger : exists k, ledger cfg 0 k s;
  ls_tables : tables s;
  ls_clients : map_Forall (fun _ cl => client_wf cl) (d_heap s)
}.
#[local] Instance loose_books : BookInv loose.
Proof.
  intros s s' Hs [[k HL] HT HW]. split; [exists k; by eapply books_inv|by eapply books_inv|].
  by rewrite (sb_heap _ _ Hs).
Qed.

Lemma keeps_loose_end p code : keeps loose (handle_end cfg p code).
Proof.
  intros s u s' [[k HL] HT HW] E. apply handle_end_books in E as (cl & Hp & _ & Hk & HB).
  eapply books_inv; [exact HB|]. split.
  - eexists. by apply ledger_without.
  - by apply tables_without.
  - by apply map_Forall_delete.
Qed.

Lemma leads_end_clients fuel : leads loose (fun s => loose s /\ d_clients s = ∅) (end_clients cfg fuel).
Proof.
  induction fuel as [|fuel IH]; cbn; intros s u s' HG E; rewrite bind_gets in E;
    destruct (in_order (d_clients s)) as [|[k p] l] eqn:El; try done.
  1, 2: injection E as _ <-; split; [done|]; apply map_empty; intros k;
    destruct (d_clients s !! k) as [p|] eqn:Ep; [|done];
    apply in_order_spec in Ep; rewrite El in Ep; by apply not_elem_of_nil in Ep.
  apply bind_inv in E as ([] & s1 & E1 & E). eapply IH; [|exact E]. by eapply keeps_loose_end.
Qed.

Lemma good_loose s : good cfg s -> loose s.
Proof. intros []. split; eauto. Qed.

Lemma empty_good s : loose s -> d_clients s = ∅ -> d_heap s = ∅ /\ good cfg (set_d_current_kids 0 s).
Proof.
  intros [[k [Ha Hk]] HT HW] He.
  assert (d_heap s = ∅) as Hh.
  { apply map_empty. intros p. destruct (d_heap s !! p) as [cl|] eqn:Hp; [|done].
    assert (d_clients s !! cl_chan cl = Some p) as Hc by (apply HT; eauto). by rewrite He in Hc. }
  split; [done|]. split.
  - split; cbn; rewrite Hh, total_empty; [|done]. by rewrite Ha, Hh, total_empty.
  - by destruct HT.
  - by cbn; rewrite Hh.
Qed.

Lemma leads_clear_children : leads loose (good cfg) (clear_children cfg).
Proof.
  unfold clear_children. apply leads_bind; [ks|intros m].
  eapply leads_then; [apply leads_end_clients|intros _].
  intros s u s' [HG He] E. rewrite bind_modify, bind_get in E.
  destruct (empty_good s HG He) as [_ HG']. first_step E E1.
  assert (same_books (set_d_current_kids 0 s) (set_d_current_kids 0 s)) as HB by done.
  eapply run_assert in E1 as [HB1 _]; [|exact HB].
  eapply books_inv; [|exact HG']. injection E as _ <-. by destruct HB1.
Qed.

(** *** Any message of a client *)

(** A client asks for something when nothing is going on; it sends the job it
    was told to compile, and says that a job is done that may be. *)
Definition polite (st : Status) (msg : Msg) : bool :=
  match msg with
  | GetNativeEnv _ => idle st || bool_decide (st = WAITCREATEENV)
  | CompileFile _ => idle st || bool_decide (st = CLIENTWORK)
  | EnvTransfer _ | GetCS _ | JobLocalBegin _ => idle st
  | JobDone _ => may_finish st
  | _ => true
  end.

Lemma leads_from p st (Q : Client -> Prop) (m : daemon bool) :
  (forall cl, cl_status cl = st -> Q cl) ->
  leads (here cfg p Q) (good cfg) m -> leads (here cfg p (has_status st)) (good cfg) m.
Proof. intros HQ. apply leads_weaken; [|done]. intros s. apply here_weaken. auto. Qed.

Lemma leads_handle_msg p st msg :
  st <> WAITFORCHILD -> polite st msg = true ->
  leads (here cfg p (has_status st)) (good cfg) (handle_msg cfg p msg).
Proof.
  intros Hst Hpol.
  assert (forall code, leads (here cfg p (has_status st)) (good cfg)
    (_ ← handle_end cfg p code; mret false)) as Hend.
  { intros code. eapply leads_then; [by apply leads_end_status|intros _; by lead]. }
  destruct msg; cbn [handle_msg polite] in *; try apply Hend;
    try (eapply leads_then; [by apply (leads_send cfg p (has_status st))|intros _; apply Hend]).
  - eapply leads_from; [|apply leads_get_cs]. by intros cl Hcl; cbv beta; rewrite ?Hcl.
  - eapply leads_from; [|apply leads_get_native_env]. intros cl Hcl; cbv beta; rewrite Hcl.
    apply orb_true_iff in Hpol as [Hi|Hi%bool_decide_eq_true]; [by left|by right].
  - eapply leads_from; [|apply leads_compile_file]. intros cl Hcl; cbv beta; rewrite Hcl.
    apply orb_true_iff in Hpol as [Hi|Hi%bool_decide_eq_true]; [by right|by left].
  - eapply leads_from; [|apply leads_job_done]. by intros cl Hcl; cbv beta; rewrite ?Hcl.
  - eapply leads_from; [|apply leads_local_job]. by intros cl Hcl; cbv beta; rewrite ?Hcl.
  - eapply leads_from; [|apply leads_transfer_env]. by intros cl Hcl; cbv beta; rewrite ?Hcl.
  - by apply leads_verify_env.
  - apply leads_blacklist.
Qed.

(** The message that is read from a client is a polite one. *)
Definition polite_input (p : positive) (s : Daemon) : Prop :=
  forall cl m c, d_heap s !! p = Some cl -> ch_get 0 true (cl_channel cl) = Ok (Some m, c) ->
    cl_status cl <> TOINSTALL -> polite (cl_status cl) m = true.

Lemma deref_eq p s cl : d_heap s !! p = Some cl -> deref_client p s = Ok (cl, s).
Proof. intros Hp. unfold deref_client. by rewrite bind_get, Hp. Qed.

Lemma activity_good p s cl b s' :
  good cfg s -> d_heap s !! p = Some cl -> cl_status cl <> WAITFORCHILD -> polite_input p s ->
  handle_activity cfg p s = Ok (b, s') -> good cfg s'.
Proof.
  intros HG Hp Hst Hpol E. unfold handle_activity in E. pose proof (deref_eq _ _ _ Hp) as Hd.
  apply bind_inv in E as (c0 & s0 & E1 & E). rewrite Hd in E1. injection E1 as <- <-.
  apply bind_inv in E as (u & s0 & E1 & E). unfold assert in E1.
  destruct (_ && _); [injection E1 as _ <-|done].
  apply bind_inv in E as (o & s1 & E1 & E).
  assert (here cfg p (has_status (cl_status cl)) s) as Hh by (split; [done|by exists cl]).
  assert (here cfg p (has_status (cl_status cl)) s1) as H2.
  { eapply leads_on_client; [apply ch_get_peer| |exact Hh|exact E1]. done. }
  unfold on_client in E1. apply bind_inv in E1 as (c0 & s0 & E2 & E1). rewrite Hd in E2.
  injection E2 as <- <-.
  destruct (ch_get 0 true (cl_channel cl)) as [[o' c]|] eqn:Eg; [|done].
  apply bind_inv in E1 as (u' & s2 & _ & E1). injection E1 as -> _. destruct o as [m|].
  - case_decide as Hi.
    + eapply leads_file_chunk; [|exact E]. revert H2. apply here_weaken. intros c' _ Hc'. cbv beta. by rewrite Hc', Hi.
    + eapply (leads_handle_msg p (cl_status cl)); [done|by eapply Hpol|exact H2|exact E].
  - apply bind_inv in E as (u'' & s3 & E2 & E). injection E as _ <-.
    eapply leads_end_status; [exact Hst|exact H2|exact E2].
Qed.
End handlers.
