(* ===== verification/DaemonRequests.v ===== *)
(** * Waiting jobs and clients that leave

    What [handle_end] does to the daemon and what it tells the scheduler; the
    waiting job that is chosen; [handle_old_request] ends, starts every job it
    has a slot for, and how many slots it can take. *)

From Stdlib Require Import ZArith Lia.
From Stdlib Require Import Strings.Byte Strings.String.
From stdpp Require Import base tactics option list gmap strings.
From S2P Require Import Prelude MsgChannel CompileJob Msg MsgCodec Interface StdString Transport Compilers DaemonState Environments Daemon DaemonLoop DaemonFacts DaemonInvariant.

#[local] Open Scope Z_scope.

(** ** Steps that return

    The channels return from a send ([ChannelsReturn]); then so does what only
    sends. *)

(** What is told to the scheduler, if there is one; a connection that fails is
    closed. *)
Definition told `{Channels} (o : option Msg) (s s' : Daemon) : Prop :=
  match o, d_scheduler s with
  | Some m, Some c => exists b c', ch_send m SendBlocking c = Ok (b, c') /\
      d_scheduler s' = if b : bool then Some c' else None
  | _, _ => d_scheduler s' = d_scheduler s
  end.

Section returns.
Context `{ChannelsReturn} `{System} (cfg : Config).

Lemma runs_ask {A B} (q : nat -> A) (k : A -> daemon B) s Q :
  (forall a, runs (k a) (set_d_asked (S (d_asked s)) s) Q) -> runs (ask q ≫= k) s Q.
Proof. intros Hk. exact (Hk (q (d_asked s))). Qed.

Lemma runs_asked {A B} (q : nat -> A) (k : A -> daemon B) s Q :
  (forall t, runs (k (q t)) (set_d_asked (S (d_asked s)) s) Q) -> runs (ask q ≫= k) s Q.
Proof. intros Hk. exact (Hk (d_asked s)). Qed.

Lemma runs_deref {B} p cl (k : Client -> daemon B) s Q :
  d_heap s !! p = Some cl -> runs (k cl) s Q -> runs (deref_client p ≫= k) s Q.
Proof. intros Hp Hk. apply runs_bind. eapply runs_ok; [by apply deref_eq|done]. Qed.

Lemma update_eq p f s cl :
  d_heap s !! p = Some cl -> update_client p f s = Ok (tt, set_d_heap (<[p := f cl]> (d_heap s)) s).
Proof. intros Hp. unfold update_client. by rewrite (bind_ok _ _ _ _ _ (deref_eq _ _ _ Hp)). Qed.

Lemma runs_update {B} p f cl (k : unit -> daemon B) s Q :
  d_heap s !! p = Some cl -> runs (k tt) (set_d_heap (<[p := f cl]> (d_heap s)) s) Q ->
  runs (update_client p f ≫= k) s Q.
Proof. intros Hp Hk. apply runs_bind. eapply runs_ok; [by apply update_eq|done]. Qed.

(** The books and the scheduler before and after. *)
Definition same_desk (s s' : Daemon) : Prop := same_books s s' /\ d_scheduler s' = d_scheduler s.

Lemma close_scheduler_runs s :
  runs (close_scheduler cfg) s (fun _ s' => same_books s s' /\ d_scheduler s' = None).
Proof.
  unfold close_scheduler. apply runs_get. destruct (d_scheduler s) eqn:Es.
  - unfold when. destruct (k_fast_reconnect cfg); eapply runs_ok; by try (split; [split|]).
  - apply runs_ret. split; [done|by rewrite Es].
Qed.

Lemma send_scheduler_runs m s :
  runs (send_scheduler cfg m) s (fun b s' => same_books s s' /\ told (Some m) s s' /\
    (b = false -> d_scheduler s' = None)).
Proof.
  unfold send_scheduler, told. apply runs_get. destruct (d_scheduler s) as [c|] eqn:Es.
  2: { apply runs_ret. by rewrite Es. }
  destruct (ch_send_returns m SendBlocking c) as (b & c' & E). rewrite E. apply runs_modify.
  destruct b.
  - apply runs_ret. repeat split; try done. eauto.
  - apply runs_bind. eapply runs_weaken; [|apply close_scheduler_runs].
    intros [] s' [HB Hn]. apply runs_ret. destruct HB. split; [by split|]. split; [eauto|done].
Qed.

Lemma runs_tell {B} m (k : unit -> daemon B) s Q :
  (forall s', same_books s s' -> told (Some m) s s' -> runs (k tt) s' Q) ->
  runs ((_ ← send_scheduler cfg m; mret tt) ≫= k) s Q.
Proof.
  intros Hk. apply runs_bind, runs_bind. eapply runs_weaken; [|apply send_scheduler_runs].
  intros b s' (HB & Ht & _). apply runs_ret. auto.
Qed.

Lemma delete_client_runs p cl s :
  d_heap s !! p = Some cl ->
  runs (delete_client p) s (fun _ s' =>
    same_books (set_d_heap (delete p (d_heap s)) s) s' /\ d_scheduler s' = d_scheduler s).
Proof.
  intros Hp. unfold delete_client. apply (runs_deref p cl); [done|].
  unfold effect_m, when. do 2 case_goal; by eapply runs_ok.
Qed.

(** ** The end of a client *)

(** The last words about a client: by its state, what the scheduler is told
    when it goes with an exit code while [n] clients remain. A client that asked
    for a server has no job id yet, and its own id is given; a client that ended
    by itself after it was sent to a server leaves the job to that server. *)
Definition farewell (cl : Client) (code n : Z) : option Msg :=
  let by_id id flag := if 0 <? id then Some (JobDone (new_JobDoneMsg id code flag n)) else None in
  match cl_status cl with
  | WAITFORCS => Some (JobDone (set_unknown_job_client_id (u32 (cl_client_id cl))
                   (new_JobDoneMsg (i32 (cl_job_id cl)) code FROM_SUBMITTER n)))
  | WAITCOMPILE => if code =? 119 then None else by_id (i32 (cl_job_id cl)) FROM_SUBMITTER
  | PENDING_USE_CS => by_id (i32 (cl_job_id cl)) FROM_SUBMITTER
  | CLIENTWORK =>
      if 0 <? i32 (cl_job_id cl)
      then Some (JobDone (new_JobDoneMsg (i32 (cl_job_id cl)) code FROM_SUBMITTER n))
      else Some (JobLocalDone (u32 (cl_client_id cl)))
  | TOCOMPILE => default None ((fun job => by_id (i32 (j_id job)) FROM_SERVER) <$> cl_job cl)
  | _ => None
  end.

(** A client as it is reported, and the daemon then. *)
Definition leaving (code : Z) (cl : Client) : Client :=
  (if bool_decide (cl_status cl = WAITCOMPILE) && (code =? 119) then set_cl_job_id 0 else id)
    (set_cl_fulljob false cl).
Definition parting (p : positive) (code : Z) (cl : Client) (s : Daemon) : Daemon :=
  set_d_heap (<[p := leaving code cl]> (d_heap s))
  (set_d_clients (delete (cl_chan cl) (d_clients s))
  (set_d_fd2client (delete (c_fd (cl_channel cl)) (d_fd2client s)) (released cfg cl s))).

Lemma runs_release {B} cl (k : unit -> daemon B) s Q :
  runs (k tt) (released cfg cl s) Q ->
  runs (when (bool_decide (cl_status cl = CLIENTWORK)) (reserve (- slots_of cfg (cl_fulljob cl))) ≫= k) s Q.
Proof.
  intros Hk. unfold released in Hk. apply runs_when; intros Hb.
  - apply bool_decide_eq_true in Hb. rewrite decide_True in Hk by done. exact Hk.
  - apply bool_decide_eq_false in Hb. rewrite decide_False in Hk by done. by destruct s.
Qed.

Lemma released_fields cl s :
  d_heap (released cfg cl s) = d_heap s /\ d_clients (released cfg cl s) = d_clients s /\
  d_fd2client (released cfg cl s) = d_fd2client s /\ d_scheduler (released cfg cl s) = d_scheduler s.
Proof. done. Qed.

Lemma leaving_fields code cl :
  cl_status (leaving code cl) = cl_status cl /\ cl_client_id (leaving code cl) = cl_client_id cl /\
  cl_job (leaving code cl) = cl_job cl /\ cl_channel (leaving code cl) = cl_channel cl /\
  cl_job_id (leaving code cl) =
    if bool_decide (cl_status cl = WAITCOMPILE) && (code =? 119) then 0 else cl_job_id cl.
Proof. unfold leaving. by case_goal. Qed.

Lemma told_nobody o s : d_scheduler s = None -> told o s s.
Proof. unfold told. intros ->. by destruct o. Qed.

Lemma send_runs m s :
  runs (_ ← send_scheduler cfg m; mret tt) s (fun _ s' => same_books s s' /\ told (Some m) s s').
Proof.
  apply runs_bind. eapply runs_weaken; [|apply send_scheduler_runs].
  intros b s' (HB & Ht & _). by apply runs_ret.
Qed.

(** A job that is reported with its id, or a local one. *)
Lemma by_id_runs id code flag b m s :
  runs (if 0 <? id then
          flag ← need AssertFailed (Some flag);
          n ← clients_size;
          _ ← send_scheduler cfg (JobDone (new_JobDoneMsg id code flag n)); mret tt
        else when b (_ ← send_scheduler cfg m; mret tt)) s
    (fun _ s' => same_books s s' /\
       told (if 0 <? id then Some (JobDone (new_JobDoneMsg id code flag (Z.of_nat (size (d_clients s)))))
             else if b then Some m else None) s s').
Proof.
  case_goal; [apply send_runs|]. destruct b; [apply send_runs|by apply runs_ret].
Qed.

Lemma report_end_runs code cl s :
  client_wf cl -> (cl_status cl = WAITFORCS -> 0 < cl_client_id cl) ->
  runs (report_end cfg (leaving code cl) code) s (fun _ s' =>
    same_books s s' /\ told (farewell cl code (Z.of_nat (size (d_clients s)))) s s').
Proof.
  intros Hw Hid. unfold report_end. apply runs_get.
  destruct (leaving_fields code cl) as (Es & Ei & Ej & Ec & En).
  destruct (d_scheduler s) as [c|] eqn:Esch.
  2: { rewrite bool_decide_true by done. apply runs_ret. split; [done|]. by apply told_nobody. }
  rewrite bool_decide_false by done. cbn [orb].
  assert (may_have_job (cl_status cl) = false -> cl_job_id cl = 0) as Hno.
  { intros Hm. destruct (Z.eq_dec (cl_job_id cl) 0) as [|Hn]; [done|]. apply (wf_id cl Hw) in Hn. congruence. }
  unfold job_to_report, farewell. rewrite Es, Ei, Ej, En.
  destruct (cl_status cl) eqn:E; cbn [may_have_job] in *.
  all: rewrite ?(bool_decide_true (_ <> _)) by done; rewrite ?(bool_decide_true (_ = _)) by done.
  all: rewrite ?(bool_decide_false (_ = WAITCOMPILE)) by done.
  all: rewrite ?(bool_decide_false (_ = WAITFORCHILD)) by done.
  all: rewrite ?(bool_decide_false (_ = CLIENTWORK)) by done.
  all: cbn [andb orb]. all: rewrite ?Hno by done.
  all: try (by apply runs_ret).
  - eapply runs_need; [done|]. apply runs_assert; [done|].
    apply (by_id_runs (i32 (cl_job_id cl)) code FROM_SUBMITTER false EndMsg).
  - destruct (cl_job cl) as [job|] eqn:Ejob; [|exfalso; apply (wf_job cl Hw); [by left|done]].
    eapply runs_need; [done|]. apply runs_assert; [done|].
    apply (by_id_runs (i32 (j_id job)) code FROM_SERVER false EndMsg).
  - eapply runs_need; [done|]. apply runs_assert.
    { rewrite orb_true_iff. right. apply Z.ltb_lt. auto. }
    apply send_runs.
  - eapply runs_need; [done|]. apply runs_assert; [done|].
    destruct (code =? 119); [by apply runs_ret|].
    apply (by_id_runs (i32 (cl_job_id cl)) code FROM_SUBMITTER false EndMsg).
  - eapply runs_need; [done|]. apply runs_assert; [done|].
    apply (by_id_runs (i32 (cl_job_id cl)) code FROM_SUBMITTER true (JobLocalDone (u32 (cl_client_id cl)))).
Qed.

(** A client that does not install an environment. *)
Lemma handle_end_runs p code cl s :
  good cfg s -> d_heap s !! p = Some cl -> installing (cl_status cl) = false ->
  (cl_status cl = WAITFORCS -> 0 < cl_client_id cl) ->
  runs (handle_end cfg p code) s (fun _ s' =>
    same_books (without cfg p cl s) s' /\
    told (farewell cl code (Z.of_nat (size (d_clients s)) - 1)) s s').
Proof.
  intros HG Hp Hi Hid. pose proof (good_lookup _ _ _ _ HG Hp) as Hw.
  assert (d_clients s !! cl_chan cl = Some p) as Hc.
  { destruct HG as [_ [Hc _] _]. apply Hc. eauto. }
  unfold handle_end. apply (runs_deref p cl); [done|]. apply runs_modify. rewrite Hi. cbn [when].
  apply (runs_deref p cl); [done|]. apply runs_release.
  apply (runs_update p _ cl); [done|].
  assert (forall (k : daemon unit) s1 Q, d_heap s1 !! p = Some (set_cl_fulljob false cl) ->
    runs k (set_d_heap (<[p := leaving code cl]> (d_heap s1)) s1) Q ->
    runs (_ ← when (bool_decide (cl_status cl = WAITCOMPILE) && (code =? 119))
            (update_client p (set_cl_job_id 0)); k) s1 Q) as Hleave.
  { intros k s1 Q Hp1 Hk. unfold leaving in Hk. apply runs_when; intros Hb; rewrite Hb in Hk.
    - by eapply runs_update.
    - cbn [id] in Hk. rewrite insert_id in Hk by done. by destruct s1. }
  apply Hleave; [apply lookup_insert_eq|]. clear Hleave. cbn. rewrite insert_insert_eq.
  apply runs_gets. apply runs_assert; [apply bool_decide_eq_true; cbn; by rewrite Hc|].
  apply runs_modify. apply (runs_deref p (leaving code cl)); [apply lookup_insert_eq|].
  apply runs_bind. eapply runs_weaken; [|by apply report_end_runs].
  intros [] s1 [HB Ht].
  assert (d_heap s1 !! p = Some (leaving code cl)) as Hp1.
  { rewrite (sb_heap _ _ HB). apply lookup_insert_eq. }
  eapply runs_weaken; [|by eapply delete_client_runs].
  intros [] s2 [HB2 Hs2]. cbn in *. rewrite map_size_delete_Some in Ht by eauto.
  assert (size (d_clients s) <> 0%nat) as Hz.
  { intros Hz%map_size_empty_inv. by rewrite Hz, lookup_empty in Hc. }
  replace (Z.of_nat (size (d_clients s)) - 1) with (Z.of_nat (pred (size (d_clients s)))) by lia.
  split; [|unfold told in *; by rewrite Hs2].
  etransitivity; [|exact HB2]. destruct HB as [Hh Hcl Hf Ha Hk]. cbn in *. unfold without. rewrite Hi. cbn [andb].
  split; cbn; rewrite ?Hh, ?Hcl, ?Hf, ?Ha, ?Hk; try done.
  by rewrite delete_insert_eq.
Qed.

(** ** Waiting jobs *)

Definition waiting (st : Status) : bool :=
  match st with LINKJOB | PENDING_USE_CS | TOCOMPILE => true | _ => false end.
Definition waiters (s : Daemon) : Z := total (fun cl => if waiting (cl_status cl) then 1 else 0) (d_heap s).
(** What is compared with the number of slots. *)
Definition used (s : Daemon) : Z := u32 (d_current_kids s + d_active_processes s).

(** A turn: the client at [p] is gone, or it works and [n] more slots are used. *)
Definition turn (p : positive) (n : Z) (s s' : Daemon) : Prop :=
  (d_heap s' = delete p (d_heap s) /\ used s' = used s) \/
  (exists cl', waiting (cl_status cl') = false /\ d_heap s' = <[p := cl']> (d_heap s) /\
     used s' = u32 (used s + n)).

Lemma turn_books p n s s1 s2 : turn p n s s1 -> same_books s1 s2 -> turn p n s s2.
Proof.
  intros Ht []. assert (used s2 = used s1) as Hu by (unfold used; congruence).
  destruct Ht as [[Eh Eu]|(cl' & Hw & Eh & Eu)]; [left|right]; rewrite ?Hu; [split; congruence|].
  exists cl'. split_and!; congruence.
Qed.

Lemma turn_waiters p n s s' cl :
  turn p n s s' -> d_heap s !! p = Some cl -> waiting (cl_status cl) = true ->
  waiters s' = waiters s - 1.
Proof.
  unfold waiters. intros [[-> _]|(cl' & Hw & -> & _)] Hp Hs.
  - rewrite (total_delete _ _ _ cl) by done. by rewrite Hs.
  - rewrite (total_update _ _ _ cl) by done. rewrite Hs, Hw. lia.
Qed.

Lemma runs_client_send {B} `{!ChannelLaws} p m cl (k : bool -> daemon B) s Q :
  good cfg s -> d_heap s !! p = Some cl ->
  (forall b c' s', good cfg s' -> same_books (set_d_heap (<[p := set_cl_channel c' cl]> (d_heap s)) s) s' ->
     d_scheduler s' = d_scheduler s -> runs (k b) s' Q) ->
  runs (client_send p m ≫= k) s Q.
Proof.
  intros HG Hp Hk. destruct (ch_send_returns m SendBlocking (cl_channel cl)) as (b & c' & E).
  assert (client_send p m s = Ok (b, set_d_heap (<[p := set_cl_channel c' cl]> (d_heap s)) s)) as E1.
  { unfold client_send, on_client. rewrite (bind_ok _ _ _ _ _ (deref_eq _ _ _ Hp)), E.
    by rewrite (bind_ok _ _ _ _ _ (update_eq _ _ _ _ Hp)). }
  apply runs_bind. eapply runs_ok; [exact E1|]. apply (Hk b c'); [|done..].
  assert (here cfg p (fun _ => True) s) as Hh by (split; [done|by exists cl]).
  assert (here cfg p (fun _ => True) (set_d_heap (<[p := set_cl_channel c' cl]> (d_heap s)) s)) as [HG' _]; [|done].
  eapply leads_send; [|exact Hh|exact E1]. done.
Qed.

(** A client that could not be reached, or whose job did not start, is ended. *)
Lemma end_turn p n code cl cl' s s1 :
  good cfg s1 -> same_books (set_d_heap (<[p := cl']> (d_heap s)) s) s1 ->
  cl_status cl' = cl_status cl -> waiting (cl_status cl) = true ->
  runs (handle_end cfg p code) s1 (fun _ s' => turn p n s s').
Proof.
  intros HG HB Hs Hw. pose proof (sb_heap _ _ HB) as Hh. cbn in Hh.
  eapply runs_weaken; [|apply (handle_end_runs p code cl')].
  - intros [] s' [HB' _]. left. unfold used. destruct HB as [h1 _ _ a1 k1], HB' as [h2 _ _ a2 k2]. cbn in *.
    rewrite h2, a2, k2, h1, a1, k1, Hs, delete_insert_eq. split; [done|]. by destruct (cl_status cl).
  - done.
  - rewrite Hh. apply lookup_insert_eq.
  - rewrite Hs. by destruct (cl_status cl).
  - rewrite Hs. by destruct (cl_status cl).
Qed.
End returns.

Section serving.
Context `{ChannelLaws} `{!ChannelsReturn} `{System} (cfg : Config).
Context (forked : forall t pid sock, sys_fork_compile t = Some (pid, sock) -> 0 <= pid).

Lemma start_work_runs p n cl s :
  d_heap s !! p = Some cl ->
  runs (start_work p n) s (fun _ s' => turn p n s s' /\ d_scheduler s' = d_scheduler s).
Proof.
  intros Hp. unfold start_work, set_status. apply (runs_update p _ cl); [done|].
  eapply runs_ok; [done|]. split; [|done]. right. exists (set_cl_status CLIENTWORK cl). cbn.
  split_and!; [done..|]. unfold used. cbn.
  by rewrite u32_add_l, Z.add_comm, u32_add_l, <- Z.add_assoc, (Z.add_comm n), Z.add_assoc, (Z.add_comm (d_active_processes s)).
Qed.

(** A turn of a client whose channel was used before. *)
Lemma turn_after p n cl' s s1 s2 :
  same_books (set_d_heap (<[p := cl']> (d_heap s)) s) s1 -> turn p n s1 s2 -> turn p n s s2.
Proof.
  intros [Hh _ _ Ha Hk]. cbn in *. unfold turn, used. rewrite Hh, Ha, Hk, delete_insert_eq.
  by setoid_rewrite insert_insert_eq.
Qed.

Lemma start_local_runs p cl s :
  good cfg s -> d_heap s !! p = Some cl -> cl_status cl = LINKJOB ->
  runs (start_local cfg p) s (fun more s' =>
    turn p (slots_of cfg (cl_fulljob cl)) s s' /\ (more = false -> d_scheduler s' = None)).
Proof.
  intros HG Hp Hs. unfold start_local. apply runs_ask. intros t.
  set (s0 := set_d_asked _ s). assert (good cfg s0) as HG0 by (by eapply books_inv; [|exact HG]).
  apply (runs_client_send cfg p _ cl); [done|done|]. intros b c' s1 HG1 HB1 _.
  pose proof (sb_heap _ _ HB1) as Hh. destruct b; cbn [negb].
  - apply (runs_deref p (set_cl_channel c' cl)); [rewrite Hh; apply lookup_insert_eq|].
    apply runs_bind. eapply runs_weaken; [|eapply start_work_runs; rewrite Hh; apply lookup_insert_eq].
    intros [] s2 [Ht _]. apply runs_ask. intros t2.
    eapply runs_weaken; [|apply send_scheduler_runs]. intros more s3 (HB3 & _ & Hn). split; [|done].
    apply (turn_after p _ (set_cl_channel c' cl) s0 s1 s3); [exact HB1|].
    apply (turn_books _ _ _ (set_d_asked (S (d_asked s2)) s2)); [exact Ht|exact HB3].
  - apply runs_bind. eapply runs_weaken; [|eapply (end_turn cfg p _ _ cl); [exact HG1|exact HB1|done|by rewrite Hs]].
    intros [] s2 Ht. apply runs_ret. split; [exact Ht|done].
Qed.

Lemma start_pending_runs p cl s :
  good cfg s -> d_heap s !! p = Some cl -> cl_status cl = PENDING_USE_CS ->
  runs (start_pending cfg p) s (fun _ s' => turn p 1 s s').
Proof.
  intros HG Hp Hs. pose proof (good_lookup _ _ _ _ HG Hp) as Hw.
  unfold start_pending. apply (runs_deref p cl); [done|].
  destruct (cl_usecsmsg cl) as [m|] eqn:Em; [|by destruct (wf_usecs cl Hw)].
  eapply runs_need; [done|]. apply (runs_client_send cfg p _ cl); [done|done|]. intros b c' s1 HG1 HB1 _.
  pose proof (sb_heap _ _ HB1) as Hh. destruct b.
  - eapply runs_weaken; [|eapply start_work_runs; rewrite Hh; apply lookup_insert_eq].
    intros [] s2 [Ht _]. by eapply turn_after.
  - eapply (end_turn cfg p _ _ cl); [exact HG1|exact HB1|done|by rewrite Hs].
Qed.

Lemma start_child_turn p n sock pid cl s :
  d_heap s !! p = Some cl ->
  runs (_ ← kid_started; update_client p (fun cl => set_cl_status WAITFORCHILD
          (set_cl_pipe_from_child sock (set_cl_child_pid pid cl)))) s
    (fun _ s' => n = 1 -> turn p n s s').
Proof.
  intros Hp. unfold kid_started. apply runs_modify.
  eapply runs_ok; [by apply update_eq|]. intros ->. right. eexists. split; [|split; [done|]]; [done|].
  unfold used. cbn. by rewrite !u32_add_l, <- !Z.add_assoc, (Z.add_comm 1).
Qed.

Lemma start_compile_runs p cl s :
  good cfg s -> d_heap s !! p = Some cl -> cl_status cl = TOCOMPILE ->
  runs (start_compile cfg p) s (fun _ s' => turn p 1 s s').
Proof.
  intros HG Hp Hs. pose proof (good_lookup _ _ _ _ HG Hp) as Hw.
  unfold start_compile. apply (runs_deref p cl); [done|].
  destruct (cl_job cl) as [job|] eqn:Ej; [|by destruct (wf_job cl Hw); [left|]].
  eapply runs_need; [done|]. apply runs_ask. intros t. apply runs_modify.
  apply runs_asked. intros n. match goal with |- runs _ ?t _ => set (s1 := t) end.
  assert (same_books s s1) as HB by done. assert (good cfg s1) as HG1 by (by eapply books_inv; [|exact HG]).
  assert (runs (handle_end cfg p 117) s1 (fun _ s' => turn p 1 s s')) as Hend.
  { apply (end_turn cfg p 1 117 cl cl); [exact HG1| |done|by rewrite Hs]. split; cbn; try done. by rewrite insert_id. }
  destruct (sys_fork_compile n) as [[pid sock]|] eqn:Ef; [|done]. apply forked in Ef.
  apply runs_assert; [by apply Z.leb_le|]. case_goal; [|done].
  apply runs_bind. eapply runs_weaken; [|by apply (start_child_turn p 1 sock pid cl s1)].
  intros [] s2 Ht. specialize (Ht eq_refl). apply runs_gets, runs_ask. intros t3.
  eapply runs_weaken; [|apply send_runs]. intros [] s3 [HB3 _].
  apply (turn_books _ _ _ (set_d_asked (S (d_asked s2)) s2)); [exact Ht|exact HB3].
Qed.

(** *** The choice *)

Lemma earliest_some st l acc e : acc.1.1 = Some e -> earliest_from st l acc <> None.
Proof.
  revert acc e. induction l as [|x l IH]; intros [[o i] n] e Ho; cbn in *; [congruence|].
  case_match; by eapply IH.
Qed.

Lemma get_earliest_none st l :
  get_earliest_client st l = None ->
  forall e, e ∈ l -> cl_status e.2 = st -> 2 ^ 32 - 1 <= cl_niceness e.2.
Proof.
  unfold get_earliest_client. induction l as [|x l IH]; intros E e Hin Hs; [by apply not_elem_of_nil in Hin|].
  cbn in E. case_match eqn:Ec; [by eapply earliest_some in E|].
  apply elem_of_cons in Hin as [->|Hin]; [|by apply IH].
  rewrite bool_decide_true in Ec by done. cbn [andb orb Z.eqb] in Ec. boolify. lia.
Qed.

Lemma all_clients_complete s :
  good cfg s -> exists l, all_clients s = Ok (l, s) /\ forall p cl, (p, cl) ∈ l <-> d_heap s !! p = Some cl.
Proof.
  intros [_ [Hc _] _].
  assert (forall k : list (Z * positive), (forall c p, (c, p) ∈ k -> d_clients s !! c = Some p) ->
    exists l, deref_clients k s = Ok (l, s) /\ forall p cl, (p, cl) ∈ l <-> (exists c, (c, p) ∈ k) /\ d_heap s !! p = Some cl) as Hk.
  { induction k as [|[c p] k IH]; intros Hin; cbn.
    - exists []. split; [done|]. intros p cl. split; [by intros ?%not_elem_of_nil|].
      intros [[c Hf%not_elem_of_nil] _]. done.
    - assert (d_clients s !! c = Some p) as Hp by (apply Hin; left).
      apply Hc in Hp as (cl & Hp & _). destruct IH as (l & El & Hl); [intros; apply Hin; by right|].
      exists ((p, cl) :: l). rewrite (bind_ok _ _ _ _ _ (deref_eq _ _ _ Hp)), (bind_ok _ _ _ _ _ El).
      split; [done|]. intros q x. rewrite elem_of_cons, Hl. setoid_rewrite elem_of_cons. split.
      + intros [[= -> ->]|[[c' Hc'] Hq]]; eauto.
      + intros [[c' [[= -> ->]|Hc']] Hq]; [left; congruence|right; eauto]. }
  destruct (Hk (in_order (d_clients s))) as (l & El & Hl); [by intros c p ?%in_order_spec|].
  exists l. split; [exact El|]. intros p cl. rewrite Hl. split; [tauto|]. intros Hp. split; [|done].
  exists (cl_chan cl). apply in_order_spec, Hc. eauto.
Qed.

Lemma clients_size_heap s : good cfg s -> (size (d_heap s) <= size (d_clients s))%nat.
Proof.
  intros [_ [Hc _] _]. rewrite <- !length_map_to_list, <- (length_fmap fst), <- (length_fmap snd (map_to_list (d_clients s))).
  apply submseteq_length, NoDup_submseteq; [apply NoDup_fst_map_to_list|].
  intros p ((q & cl) & -> & Hin)%list_elem_of_fmap. apply elem_of_map_to_list in Hin.
  apply list_elem_of_fmap. exists (cl_chan cl, q). split; [done|]. apply elem_of_map_to_list, Hc. eauto.
Qed.
Lemma waiters_bounds s : 0 <= waiters s <= Z.of_nat (size (d_heap s)).
Proof. unfold waiters. apply total_bounds. intros cl. case_goal; lia. Qed.

(** *** All of them *)

(** No job waits, except for those as nice as can be and, under load, those
    that would be compiled for others. *)
Definition nobody_waits (s : Daemon) : Prop :=
  forall p cl, d_heap s !! p = Some cl -> cl_niceness cl < 2 ^ 32 - 1 ->
    cl_status cl <> LINKJOB /\ cl_status cl <> PENDING_USE_CS /\
    (cl_status cl = TOCOMPILE -> 1000 <= d_current_load s).

(** The state in which the starts stop. *)
Definition settled_down (s : Daemon) : Prop :=
  all_slots cfg <= used s \/ nobody_waits s \/ d_scheduler s = None.

(** [n] slots at most are taken by one turn. *)
Definition takes (n : Z) (s : Daemon) : Prop :=
  1 <= n /\ forall p cl, d_heap s !! p = Some cl -> waiting (cl_status cl) = true ->
    slots_of cfg (cl_fulljob cl) <= n.

Lemma u32_le z : 0 <= z -> 0 <= u32 z <= z.
Proof. intros Hz. unfold u32. split; [apply Z.mod_pos_bound; lia|apply Z.mod_le; lia]. Qed.

Lemma used_turn p n m s s' : 0 <= n <= m -> turn p n s s' -> used s' <= used s + m.
Proof.
  intros Hn [[_ ->]|(cl' & _ & _ & ->)]; [lia|].
  assert (0 <= used s) by (unfold used, u32; apply Z.mod_pos_bound; lia).
  pose proof (u32_le (used s + n)). lia.
Qed.

Lemma slots_of_nonneg b : 0 <= slots_of cfg b.
Proof. unfold slots_of, all_slots. case_goal; lia. Qed.

Lemma takes_turn n p m s s' : turn p m s s' -> takes n s -> takes n s'.
Proof.
  intros Ht [Hn Htk]. split; [done|]. intros q cl Hq Hw.
  destruct Ht as [[Eh _]|(cl' & Hw' & Eh & _)]; rewrite Eh in Hq.
  - apply lookup_delete_Some in Hq as [_ Hq]. by eapply Htk.
  - apply lookup_insert_Some in Hq as [[_ ->]|[_ Hq]]; [congruence|]. by eapply Htk.
Qed.

(** What a turn leaves to the rest of the loop. *)
Lemma next_turn {A} fuel n p m s (k : A -> daemon unit) (t : daemon A) cl (R : A -> Daemon -> Prop) :
  leads (here cfg p (fun c => cl_status c = cl_status cl)) (good cfg) t ->
  runs t s (fun a s' => turn p m s s' /\ R a s') ->
  (forall a s', R a s' -> good cfg s' -> waiters s' <= Z.of_nat fuel -> takes n s' ->
     runs (k a) s' (fun _ s2 => settled_down s2 /\ used s2 <= Z.max (used s') (all_slots cfg - 1 + n))) ->
  good cfg s -> waiters s <= Z.of_nat (S fuel) -> takes n s -> 0 <= m <= n -> used s < all_slots cfg ->
  d_heap s !! p = Some cl -> waiting (cl_status cl) = true ->
  runs (t ≫= k) s (fun _ s' => settled_down s' /\ used s' <= Z.max (used s) (all_slots cfg - 1 + n)).
Proof.
  intros Hlead (a & s1 & E & Ht & HR) Hk HG Hws Htk Hm Hu Hp Hw. apply runs_bind. eapply runs_ok; [exact E|].
  pose proof (turn_waiters _ _ _ _ _ Ht Hp Hw). pose proof (used_turn _ _ n _ _ Hm Ht).
  eapply runs_weaken; [|apply Hk; [done| |lia|by eapply takes_turn]].
  - intros [] s2 [Hs2 Hu2]. split; [done|]. lia.
  - eapply Hlead; [|exact E]. split; [done|]. by exists cl.
Qed.

Section choices.
Context (s : Daemon) (l : list (positive * Client)).
Context (Hl : forall p cl, (p, cl) ∈ l <-> d_heap s !! p = Some cl).

Lemma none_chosen :
  get_earliest_client LINKJOB l = None -> get_earliest_client PENDING_USE_CS l = None ->
  (if 1000 <=? d_current_load s then None else get_earliest_client TOCOMPILE l) = None ->
  settled_down s.
Proof.
  intros E1 E2 E3. right. left. intros p cl Hp%Hl Hn.
  assert (forall st, get_earliest_client st l = None -> cl_status cl <> st) as Hne.
  { intros st E Hs. pose proof (get_earliest_none st l E _ Hp Hs) as Hle. cbn in Hle. lia. }
  split; [auto|]. split; [auto|]. intros Hs. case_match eqn:Eld; boolify; [done|]. by apply Hne in E3.
Qed.

Lemma chosen st p cl :
  get_earliest_client st l = Some (p, cl) -> waiting st = true ->
  d_heap s !! p = Some cl /\ cl_status cl = st /\ waiting (cl_status cl) = true /\ 1 <= waiters s.
Proof.
  intros E Hw. apply get_earliest_spec in E as [Hs Hin]. cbn in Hs. apply Hl in Hin.
  split_and!; [done|done|by rewrite Hs|].
  pose proof (waiters_bounds s). destruct (Z.eq_dec (waiters s) 0) as [Hz|]; [|lia].
  unfold waiters in Hz. eapply (total_zero _ _ p cl) in Hz; [cbv beta in Hz; by rewrite Hs, Hw in Hz| |done].
  intros c. case_goal; lia.
Qed.
End choices.

Lemma old_requests_runs fuel n s :
  good cfg s -> waiters s <= Z.of_nat fuel -> takes n s ->
  runs (old_requests cfg fuel) s (fun _ s' =>
    settled_down s' /\ used s' <= Z.max (used s) (all_slots cfg - 1 + n)).
Proof.
  revert s. induction fuel as [|fuel IH]; intros s HG Hws Htk; cbn [old_requests];
    unfold has_slot; apply runs_gets; fold (used s);
    (destruct (used s <? all_slots cfg) eqn:Hu; boolify; cbn [negb];
      [|apply runs_ret; split; [by left|lia]]);
    destruct (all_clients_complete s HG) as (l & El & Hl);
    apply runs_bind; (eapply runs_ok; [exact El|]); apply runs_get.
  - destruct (get_earliest_client LINKJOB l) as [[p c]|] eqn:E1;
      [eapply (chosen s l) in E1 as (_ & _ & _ & ?); [lia|exact Hl|done]|].
    destruct (get_earliest_client PENDING_USE_CS l) as [[p c]|] eqn:E2;
      [eapply (chosen s l) in E2 as (_ & _ & _ & ?); [lia|exact Hl|done]|].
    destruct (if 1000 <=? d_current_load s then None else get_earliest_client TOCOMPILE l) as [[p c]|] eqn:E3.
    + case_match; [done|]. eapply (chosen s l) in E3 as (_ & _ & _ & ?); [lia|exact Hl|done].
    + apply runs_ret. split; [by eapply none_chosen|lia].
  - destruct (get_earliest_client LINKJOB l) as [[p c]|] eqn:E1.
    { eapply (chosen s l) in E1 as (Hp & Hs & Hw & _); [|exact Hl|done].
      eapply (next_turn fuel n p (slots_of cfg (cl_fulljob c))); [|by apply start_local_runs| |done|done|done| |done|done|done].
      - rewrite Hs. apply leads_start_local.
      - intros [] s1 Hn HG1 Hws1 Htk1; [by apply IH|]. apply runs_ret. split; [right; right; auto|lia].
      - split; [apply slots_of_nonneg|]. by eapply Htk. }
    destruct (get_earliest_client PENDING_USE_CS l) as [[p c]|] eqn:E2.
    { eapply (chosen s l) in E2 as (Hp & Hs & Hw & _); [|exact Hl|done].
      eapply (next_turn fuel n p 1 s _ _ c (fun _ _ => True)); [| | |done|done|done|destruct Htk; lia|done|done|done].
      - rewrite Hs. apply leads_start_pending.
      - eapply runs_weaken; [|by apply (start_pending_runs p c)]. done.
      - intros [] s1 _ HG1 Hws1 Htk1. by apply IH. }
    destruct (if 1000 <=? d_current_load s then None else get_earliest_client TOCOMPILE l) as [[p c]|] eqn:E3;
      [|apply runs_ret; split; [by eapply none_chosen|lia]].
    case_match; [done|]. eapply (chosen s l) in E3 as (Hp & Hs & Hw & _); [|exact Hl|done].
    eapply (next_turn fuel n p 1 s _ _ c (fun _ _ => True)); [| | |done|done|done|destruct Htk; lia|done|done|done].
    + rewrite Hs. apply leads_start_compile.
    + eapply runs_weaken; [|by apply (start_compile_runs p c)]. done.
    + intros [] s1 _ HG1 Hws1 Htk1. by apply IH.
Qed.

Lemma handle_old_request_runs n s :
  good cfg s -> takes n s ->
  runs (handle_old_request cfg) s (fun _ s' =>
    settled_down s' /\ used s' <= Z.max (used s) (all_slots cfg - 1 + n)).
Proof.
  intros HG Htk. unfold handle_old_request. apply runs_gets, old_requests_runs; [done| |done].
  pose proof (waiters_bounds s). pose proof (clients_size_heap s HG). lia.
Qed.
End serving.
