(* ===== verification/DaemonReachable.v ===== *)
(** * The daemon over time

    The steps of the main loop of DaemonLoop.v as a relation on states, what
    every reachable state satisfies, and a sample run. *)

From Stdlib Require Import ZArith Lia.
From Stdlib Require Import Strings.Byte Strings.String.
From stdpp Require Import base tactics option list gmap strings.
From S2P Require Import Prelude MsgChannel CompileJob Msg MsgCodec Interface StdString Transport TransportFacts Connection ChannelImpl Compilers DaemonState Environments Daemon DaemonLoop DaemonFacts DaemonInvariant DaemonRequests.

#[local] Open Scope Z_scope.

Section steps.
Context `{ChannelLaws} `{System} (cfg : Config) (dump_internals : Daemon -> string).

(** ** Steps

    The pieces [answer_client_requests], [reconnect] and [working_loop] are made
    of. A client follows the protocol of icecc ([polite_input]), the scheduler
    answers a client that waits for it ([answers]), and the system gives a
    connection a descriptor and a client an address that are not in use. *)

Inductive step : Daemon -> Daemon -> Prop :=
  | step_accept c chan p s :
      d_heap s !! p = None -> d_clients s !! chan = None -> d_fd2client s !! c_fd c = None ->
      step s (add_client c chan p s)
  | step_read p b s s' : on_client p ch_read s = Ok (b, s') -> step s s'
  | step_activity p cl b s s' :
      d_heap s !! p = Some cl -> cl_status cl <> WAITFORCHILD -> polite_input p s ->
      handle_activity cfg p s = Ok (b, s') -> step s s'
  | step_old_request u s s' : handle_old_request cfg s = Ok (u, s') -> step s s'
  | step_compile_done p cl b s s' :
      d_heap s !! p = Some cl -> cl_status cl = WAITFORCHILD ->
      handle_compile_done cfg p s = Ok (b, s') -> step s s'
  | step_install_done p cl b s s' :
      d_heap s !! p = Some cl -> installing (cl_status cl) = true ->
      handle_env_install_child_done cfg p s = Ok (b, s') -> step s s'
  | step_env_finished key b s s' :
      key <> ""%string -> create_env_finished cfg key s = Ok (b, s') -> step s s'
  | step_env_dropped key s : step s (set_d_native (delete key (d_native s)) s)
  | step_scheduler_read b s s' : on_scheduler ch_read s = Ok (b, s') -> step s s'
  | step_scheduler_get m s s' : on_scheduler (ch_get 0 true) s = Ok (m, s') -> step s s'
  | step_scheduler_msg msg r s s' :
      match msg with
      | UseCS m => answers (ucs_client_id m) s
      | NoCS m => answers (ncs_client_id m) s
      | _ => True
      end ->
      scheduler_msg cfg dump_internals msg s = Ok (r, s') -> step s s'
  | step_close_scheduler u s s' : close_scheduler cfg s = Ok (u, s') -> step s s'
  | step_clear u s s' : clear_children cfg s = Ok (u, s') -> step s s'
  | step_stats force b s s' : maybe_stats cfg force s = Ok (b, s') -> step s s'
  | step_reconnect b s s' : reconnect cfg s = Ok (b, s') -> step s s'.

Inductive reachable : Daemon -> Prop :=
  | reachable_initial slow : reachable (new_Daemon slow)
  | reachable_step s s' : reachable s -> step s s' -> reachable s'.

Lemma new_Daemon_good slow : good cfg (new_Daemon slow).
Proof.
  split.
  - by split; cbn; rewrite total_empty.
  - split; intros k p; cbn; rewrite lookup_empty; split; [done| |done|]; intros (cl & E & _);
      by rewrite lookup_empty in E.
  - apply map_Forall_empty.
Qed.

Lemma new_Client_wf id chan c : client_wf (new_Client id chan c).
Proof. split; cbn; try done; try lia; by intros [|]. Qed.

Lemma add_client_good c chan p s :
  d_heap s !! p = None -> d_clients s !! chan = None -> d_fd2client s !! c_fd c = None ->
  good cfg s -> good cfg (add_client c chan p s).
Proof.
  intros Hp Hc Hf [[Ha Hk] [Tc Tf] HW]. split.
  - by split; cbn; rewrite total_insert.
  - split; cbn; intros k q; rewrite lookup_insert_Some; [rewrite Tc|rewrite Tf].
    + split.
      * intros [[<- <-]|[Hn (cl & E & Ek)]]; [by rewrite lookup_insert_eq; eexists|].
        exists cl. by rewrite lookup_insert_ne by congruence.
      * intros (cl & E & Ek). apply lookup_insert_Some in E as [[<- <-]|[Hn E]]; [by left|].
        right. split; [|by eauto]. intros <-. assert (d_clients s !! chan = Some q) as E'; [|congruence].
        apply Tc. eauto.
    + split.
      * intros [[<- <-]|[Hn (cl & E & Ek)]]; [by rewrite lookup_insert_eq; eexists|].
        exists cl. by rewrite lookup_insert_ne by congruence.
      * intros (cl & E & Ek). apply lookup_insert_Some in E as [[<- <-]|[Hn E]]; [by left|].
        right. split; [|by eauto]. intros He. assert (d_fd2client s !! c_fd c = Some q) as E'; [|congruence].
        apply Tf. rewrite He. eauto.
  - cbn. apply map_Forall_insert_2; [apply new_Client_wf|done].
Qed.

Lemma keeps_log_in : keeps (good cfg) (log_in cfg).
Proof. unfold log_in, determine_nodename, available_environments. bk. Qed.

Lemma keeps_reconnect : keeps (good cfg) (reconnect cfg).
Proof. unfold reconnect. pose proof keeps_log_in. bk. Qed.

Lemma keeps_client_read p : keeps (good cfg) (on_client p ch_read).
Proof.
  intros s b s' HG E. assert (exists cl, d_heap s !! p = Some cl) as (cl & Hp).
  { unfold on_client in E. apply bind_inv in E as (cl & s1 & E1 & _).
    eapply run_deref in E1 as [_ Hp]; [by eexists|done]. }
  assert (here cfg p (fun _ => True) s) as Hh by (split; [done|by exists cl]).
  assert (here cfg p (fun _ => True) s') as [HG' _]; [|done].
  eapply leads_on_client; [apply ch_read_peer| |exact Hh|exact E]. done.
Qed.

Lemma keeps_scheduler_msg msg s r s' :
  match msg with
  | UseCS m => answers (ucs_client_id m) s
  | NoCS m => answers (ncs_client_id m) s
  | _ => True
  end ->
  good cfg s -> scheduler_msg cfg dump_internals msg s = Ok (r, s') -> good cfg s'.
Proof.
  intros Ha HG E. destruct msg; cbn [scheduler_msg] in E; try (by eapply use_cs_good);
    try (by eapply no_cs_good); revert HG E;
    lazymatch goal with
    | |- good _ _ -> ?m _ = _ -> _ => enough (keeps (good cfg) m) as Hk by (intros HG E; by eapply Hk)
    end; unfold scheduler_get_internals, handle_cs_conf; bk.
Qed.

Lemma step_good s s' : good cfg s -> step s s' -> good cfg s'.
Proof.
  intros HG Hstep. assert (forall p cl (P : Client -> Prop), d_heap s !! p = Some cl -> P cl -> here cfg p P s) as Hh
    by (intros; split; [done|by eexists]).
  destruct Hstep.
  - by apply add_client_good.
  - by eapply keeps_client_read.
  - eapply activity_good; eassumption.
  - eapply leads_old_request; eassumption.
  - eapply leads_compile_done; [|eassumption]. by eapply Hh.
  - eapply leads_install_done; [|eassumption]. by eapply Hh.
  - by eapply leads_create_env_finished.
  - eapply books_inv; [|exact HG]. done.
  - by eapply keeps_on_scheduler.
  - by eapply keeps_on_scheduler.
  - eapply keeps_scheduler_msg; eassumption.
  - eapply (keeps_close_scheduler cfg (I := good cfg)); eassumption.
  - eapply leads_clear_children; [eapply good_loose; eassumption|eassumption].
  - eapply (keeps_maybe_stats cfg (I := good cfg)); eassumption.
  - eapply keeps_reconnect; eassumption.
Qed.

Lemma reachable_good s : reachable s -> good cfg s.
Proof. induction 1; [apply new_Daemon_good|by eapply step_good]. Qed.

(** ** Theorems *)

(** C11: the daemon's counters are exact. In every reachable state
    [active_processes] is what the clients that work hold, all slots for a full
    job and one for another, and [current_kids] is the number of children that
    compile or unpack for a client, up to the wrap-around of the counters. *)
Theorem reachable_books s : reachable s ->
  d_active_processes s = u32 (total (slots_held cfg) (d_heap s)) /\
  d_current_kids s = u32 (total children (d_heap s)).
Proof.
  intros Hr. destruct (reachable_good s Hr) as [[Ha Hk] _ _]. split; [rewrite Ha|rewrite Hk]; f_equal; lia.
Qed.

(** C12: the states of the clients are consistent. In every reachable state
    the two tables hold exactly the live clients, under their channel and their
    descriptor, and every client is well-formed: only a local or a working client
    has a full job, one that is to be compiled has its job, one that is told to
    compile itself has the answer of the scheduler, an installation has a name,
    a job id or an awaited environment is only set in the states that have
    one, and a child only runs for a client that waits for it. *)
Theorem reachable_clients s : reachable s ->
  tables s /\ forall p cl, d_heap s !! p = Some cl -> client_wf cl.
Proof.
  intros Hr. pose proof (reachable_good s Hr) as HG. split; [apply HG|]. intros p cl Hp.
  by eapply good_lookup.
Qed.

(** C13: waiting jobs are started as long as there is room. In every reachable
    state [handle_old_request] returns when sends and forks do: as many rounds
    as there are clients are enough. It stops when the slots are used, when
    nobody waits, or when the scheduler is gone; and it never uses more than all
    slots, or one less than twice as many when a client has a full job, unless
    more were used before. *)
Theorem handle_old_request_serves `{!ChannelsReturn} s :
  (forall t pid sock, sys_fork_compile t = Some (pid, sock) -> 0 <= pid) -> reachable s ->
  exists s', handle_old_request cfg s = Ok (tt, s') /\ settled_down cfg s' /\
    used s' <= Z.max (used s) (2 * all_slots cfg - 1) /\
    ((forall p cl, d_heap s !! p = Some cl -> cl_fulljob cl = false) ->
     used s' <= Z.max (used s) (all_slots cfg)).
Proof.
  intros Hf Hr. pose proof (reachable_good s Hr) as HG. assert (1 <= all_slots cfg) as Ha by (unfold all_slots; lia).
  destruct (handle_old_request_runs cfg Hf (all_slots cfg) s HG) as ([] & s' & E & Hs & Hu).
  { split; [done|]. intros p cl _ _. unfold slots_of. case_goal; lia. }
  exists s'. split_and!; [done|done|lia|]. intros Hnf.
  destruct (handle_old_request_runs cfg Hf 1 s HG) as ([] & s2 & E2 & _ & Hu2).
  { split; [done|]. intros p cl Hp _. unfold slots_of. by rewrite (Hnf p cl Hp). }
  rewrite E2 in E. injection E as <-. lia.
Qed.

(** C14: the end of a client. In every reachable state [handle_end] of a client
    that does not install an environment returns, with all of its assertions
    holding: the client is forgotten, the slots of a working one are given back,
    and the scheduler is told what [farewell] says of the client's state. *)
Theorem handle_end_farewell `{!ChannelsReturn} p code cl s :
  reachable s -> d_heap s !! p = Some cl -> installing (cl_status cl) = false ->
  (cl_status cl = WAITFORCS -> 0 < cl_client_id cl) ->
  exists s', handle_end cfg p code s = Ok (tt, s') /\
    d_heap s' = delete p (d_heap s) /\
    d_clients s' = delete (cl_chan cl) (d_clients s) /\
    d_fd2client s' = delete (c_fd (cl_channel cl)) (d_fd2client s) /\
    d_active_processes s' = u32 (d_active_processes s - slots_held cfg cl) /\
    told (farewell cl code (Z.of_nat (size (d_clients s)) - 1)) s s'.
Proof.
  intros Hr Hp Hi Hid. pose proof (reachable_good s Hr) as HG.
  destruct (handle_end_runs cfg p code cl s HG Hp Hi Hid) as ([] & s' & E & [Hh Hc Hf Ha _] & Ht).
  exists s'. split_and!; try done. rewrite Ha. cbn. unfold slots_held. case_decide; [done|].
  rewrite Z.sub_0_r. by destruct (good_counters _ _ HG).
Qed.
End steps.

(** ** A sample run

    A machine with four slots. A client asks for a full job, which is started;
    a second one waits. *)

#[local] Existing Instance store_compressors.
(** What arrives is read as in Transport.v; a send succeeds. *)
#[local] Instance daemon_channels : Channels := {|
  ch_send := fun m _ c =>
    Ok (true, set_io (set_io_sent (io_sent (c_io c) ++ frame 45 m) (c_io c)) c);
  ch_get := channel_get_msg "x86_64";
  ch_read := read_a_bit (set_error "x86_64")
|}.
#[local] Instance daemon_laws : ChannelLaws.
Proof.
  split.
  - intros m flags c b c'. change (Ok (true, set_io (set_io_sent (io_sent (c_io c) ++ frame 45 m) (c_io c)) c)
      = Ok (b, c') -> same_peer c c'). by intros [= <- <-].
  - exact (get_same_peer "x86_64").
  - exact (read_same_peer "x86_64").
Qed.
#[local] Instance daemon_returns : ChannelsReturn.
Proof. intros m flags c. by do 2 eexists. Qed.

Definition sample_config : Config :=
  mkConfig 4 4 1000 "/envs" "x86_64" 10245 0 false false true false (-1) (-1) 3.

(** Every call succeeds; the children have pid 77. *)
Definition system_at (time : nat -> Z) : System := {|
  sys_time := time; sys_gettimeofday := fun _ => (1000, 0); sys_rand := fun _ => 0;
  sys_access := fun _ _ => true; sys_stat := fun _ _ => Some (500, 10);
  sys_write := fun _ _ b => inl (Z.of_nat (length b)); sys_read := fun _ _ n => Some (repeat x00 n);
  sys_fork_compile := fun _ => Some (77, 20); sys_fork_install := fun _ _ => Some (77, 21, 22);
  sys_sumup_dir := fun _ _ => 100; sys_readdir := fun _ _ => Some []; sys_create_env := fun _ _ _ _ => 23;
  sys_run_true := fun _ _ => 0;
  sys_fill_stats := fun _ _ => (0, 0, 0, mkStatsMsg 0 0 0 0 1000 0); sys_getrusage := fun _ => None;
  sys_statfs := fun _ => None; sys_uname := fun _ => Some "node"%string;
  sys_try_scheduler := fun _ => None; sys_timed_out := fun _ => false;
  sys_getsockname := fun _ => None; sys_poll := fun _ _ => inr []; sys_accept := fun _ _ => None;
  sys_exit := fun _ => false
|}.
#[local] Instance sample_system : System := system_at (fun _ => 1000).

(** The state after a computation; one that fails is not run. *)
Definition after {A} (m : daemon A) (s : Daemon) : Daemon :=
  match m s with Ok (_, s') => s' | Fault _ => s end.

(** Whether the next message of a client, in its status, is a polite one. *)
Definition polite_next (p : positive) (s : Daemon) : bool :=
  match d_heap s !! p with
  | Some cl =>
      negb (bool_decide (cl_status cl = WAITFORCHILD)) &&
      match ch_get 0 true (cl_channel cl) with
      | Ok (Some m, _) => bool_decide (cl_status cl = TOINSTALL) || polite (cl_status cl) m
      | _ => true
      end
  | None => false
  end.

Section sample_steps.
Context `{System} (cfg : Config) (dump_internals : Daemon -> string).

Lemma read_reachable p s : reachable cfg dump_internals s ->
  reachable cfg dump_internals (after (on_client p ch_read) s).
Proof.
  intros Hr. unfold after. destruct (on_client p ch_read s) as [[b s']|] eqn:E; [|exact Hr].
  eapply reachable_step; [exact Hr|]. by eapply step_read.
Qed.

Lemma activity_reachable p s : reachable cfg dump_internals s -> polite_next p s = true ->
  reachable cfg dump_internals (after (handle_activity cfg p) s).
Proof.
  intros Hr Hpol. unfold after. destruct (handle_activity cfg p s) as [[b s']|] eqn:E; [|exact Hr].
  unfold polite_next in Hpol. destruct (d_heap s !! p) as [cl|] eqn:Hp; [|done].
  apply andb_true_iff in Hpol as [Hst Hpol]. eapply reachable_step; [exact Hr|].
  eapply step_activity; [exact Hp| | |exact E].
  - apply negb_true_iff, bool_decide_eq_false in Hst. exact Hst.
  - intros cl' m c Hp' Hg Hn. simplify_eq. rewrite Hg in Hpol.
    apply orb_true_iff in Hpol as [Hi|Hi]; [|exact Hi]. by apply bool_decide_eq_true in Hi.
Qed.

Lemma after_reachable {A} (m : daemon A) s :
  (forall a s', m s = Ok (a, s') -> step cfg dump_internals s s') -> reachable cfg dump_internals s ->
  reachable cfg dump_internals (after m s).
Proof.
  intros Hm Hr. unfold after. destruct (m s) as [[a s']|] eqn:E; [|exact Hr].
  eapply reachable_step; [exact Hr|]. eauto.
Qed.
End sample_steps.

Definition sample_local (fulljob : bool) : Msg :=
  JobLocalBegin (mkJobLocalBeginMsg "a.out" 0 0 fulljob 0).
Definition linker : MsgChannel := sample_channel 5 "127.0.0.1" [sample_local true].
Definition accepted : Daemon := add_client linker 900 1 (new_Daemon false).
Definition asked : Daemon :=
  after (handle_activity sample_config 1) (after (on_client 1 ch_read) accepted).
Definition linking : Daemon := after (handle_old_request sample_config) asked.

Lemma asked_reachable : reachable sample_config (fun _ => ""%string) asked.
Proof.
  apply activity_reachable; [apply read_reachable|vm_compute; reflexivity].
  eapply reachable_step; [apply (reachable_initial _ _ false)|].
  apply (step_accept _ _ linker 900 1); vm_compute; reflexivity.
Qed.

Lemma linking_reachable : reachable sample_config (fun _ => ""%string) linking.
Proof. apply after_reachable; [|apply asked_reachable]. intros u s'. apply step_old_request. Qed.

Lemma reachable_books_witness :
  d_active_processes linking = 4 /\ u32 (total (slots_held sample_config) (d_heap linking)) = 4.
Proof.
  assert (d_active_processes linking = 4) as E by (vm_compute; reflexivity).
  split; [exact E|]. rewrite <- E. symmetry.
  apply (reachable_books sample_config (fun _ => ""%string) linking linking_reachable).
Defined.

Lemma reachable_clients_witness :
  exists cl, d_heap linking !! 1%positive = Some cl /\ cl_status cl = CLIENTWORK /\ client_wf cl.
Proof.
  destruct (reachable_clients sample_config (fun _ => ""%string) linking linking_reachable) as [_ Hw].
  assert (cl_status <$> (d_heap linking !! 1%positive) = Some CLIENTWORK) as E by (vm_compute; reflexivity).
  specialize (Hw 1%positive). destruct (d_heap linking !! 1%positive) as [cl|]; [|discriminate].
  exists cl. split; [reflexivity|]. split; [injection E as E; exact E|]. apply Hw. reflexivity.
Defined.

Lemma handle_old_request_serves_witness :
  exists s', handle_old_request sample_config asked = Ok (tt, s') /\ d_active_processes s' = 4 /\
    settled_down sample_config s'.
Proof.
  destruct (handle_old_request_serves sample_config (fun _ => ""%string) asked) as (s' & E & Hs & _).
  - intros t pid sock [= <- _]. lia.
  - exact asked_reachable.
  - exists s'. split; [exact E|]. split; [|exact Hs].
    assert (d_active_processes linking = 4) as Ha by (vm_compute; reflexivity).
    unfold linking, after in Ha. rewrite E in Ha. exact Ha.
Defined.

Lemma handle_end_farewell_witness :
  exists s', handle_end sample_config 1 119 linking = Ok (tt, s') /\ d_active_processes s' = 0.
Proof.
  assert ((fun cl => (cl_status cl, slots_held sample_config cl)) <$> d_heap linking !! 1%positive
            = Some (CLIENTWORK, 4)) as E0 by (vm_compute; reflexivity).
  assert (d_active_processes linking = 4) as E1 by (vm_compute; reflexivity).
  destruct (d_heap linking !! 1%positive) as [cl|] eqn:Hp; [|discriminate E0].
  injection E0 as Hs Hh.
  assert (u32 (d_active_processes linking - slots_held sample_config cl) = 0) as Ha
    by (rewrite Hh, E1; reflexivity).
  assert (installing (cl_status cl) = false) as Hi by (rewrite Hs; reflexivity).
  assert (cl_status cl = WAITFORCS -> 0 < cl_client_id cl) as Hid by (rewrite Hs; discriminate).
  destruct (handle_end_farewell sample_config (fun _ => ""%string) 1 119 cl linking linking_reachable Hp Hi Hid)
    as (s' & E & _ & _ & _ & Ea & _).
  exists s'. split; [exact E|]. rewrite Ea. exact Ha.
Defined.
