(* ===== verification/DaemonErrors.v ===== *)
(** * Where the daemon goes wrong

    An environment whose compiler has changed is deleted and then handed out;
    the cache cannot be cleaned while a client installs an environment; a second
    answer of the scheduler to a client that works loses its slot; a client that
    stops waiting for an environment makes an assertion fail. *)

From Stdlib Require Import ZArith Lia.
From Stdlib Require Import Strings.Byte Strings.String.
From stdpp Require Import base tactics option list gmap strings sorting.
From S2P Require Import Prelude MsgChannel CompileJob Msg MsgCodec Interface StdString Transport TransportFacts Connection ChannelImpl Compilers DaemonState Environments Daemon DaemonLoop DaemonFacts DaemonInvariant DaemonRequests DaemonReachable.

#[local] Open Scope Z_scope.

(** ** Stale environments *)

Section stale.
Context `{ChannelLaws} `{!ChannelsReturn} `{System} (cfg : Config).

(** A removal by the name of the tarball, which is no key. *)
Lemma remove_by_name_runs name s :
  name <> ""%string -> d_native s !! name = None -> 0 <= d_cache_size s ->
  (forall t path, sys_stat t path <> None) ->
  runs (remove_native_environment name) s (fun _ s' =>
    same_books s s' /\ d_native s' = d_native s /\ d_effects s' = d_effects s ++ [Unlinked name]).
Proof.
  intros Hn Hk Hc Hst. unfold remove_native_environment, remove_native_environment_files.
  apply runs_assert; [by rewrite bool_decide_false|]. rewrite decide_False by done.
  apply runs_bind, runs_asked. intros t. rewrite bool_decide_true by apply Hst. cbn [when].
  eapply runs_ok; [done|]. apply runs_get. cbn. rewrite Hk. cbn. apply runs_bind. apply runs_ret.
  unfold cache_shrink. apply runs_bind, runs_get, runs_assert; [by apply Z.leb_le|].
  eapply runs_ok; [done|]. eapply runs_ok; [done|]. split; [done|]. split; [|done].
  cbn. by rewrite delete_id.
Qed.

Lemma runs_native {B} key env (k : NativeEnvironment -> daemon B) s Q :
  d_native s !! key = Some env ->
  (forall s', same_books s s' -> d_native s' = d_native s -> d_effects s' = d_effects s ->
     d_cache_size s' = d_cache_size s -> runs (k env) s' Q) ->
  runs (native key ≫= k) s Q.
Proof.
  intros Hk HQ. apply runs_bind. eapply runs_ok; [unfold native; rewrite bind_get, Hk; done|].
  apply HQ; [done| |done..]. cbn. by apply insert_id.
Qed.

(** The environment is handed out. *)
Lemma finish_get_native_runs p cl key env s :
  d_heap s !! p = Some cl -> cl_status cl = WAITCREATEENV -> cl_pending_create_env cl = key ->
  d_native s !! key = Some env ->
  (exists c', ch_send (UseNativeEnv (ne_name env)) SendBlocking (cl_channel cl) = Ok (true, c')) ->
  runs (finish_get_native_env cfg p key) s (fun b s' => b = true /\ d_effects s' = d_effects s /\
    ne_name <$> d_native s' !! key = Some (ne_name env) /\ cl_status <$> d_heap s' !! p = Some GOTNATIVE).
Proof.
  intros Hp Hs Hpe Hk (c' & Es). unfold finish_get_native_env. apply (runs_deref p cl); [done|].
  apply runs_assert; [by rewrite bool_decide_true|]. apply runs_assert; [by rewrite bool_decide_true|].
  apply (runs_native _ env); [done|]. intros s1 HB Hn He _.
  assert (d_heap s1 !! p = Some cl) as Hp1 by (by rewrite (sb_heap _ _ HB)).
  assert (client_send p (UseNativeEnv (ne_name env)) s1 =
    Ok (true, set_d_heap (<[p := set_cl_channel c' cl]> (d_heap s1)) s1)) as E1.
  { unfold client_send, on_client. rewrite (bind_ok _ _ _ _ _ (deref_eq _ _ _ Hp1)), Es.
    by rewrite (bind_ok _ _ _ _ _ (update_eq _ _ _ _ Hp1)). }
  apply runs_bind. eapply runs_ok; [exact E1|]. cbn [negb]. apply runs_ask. intros t.
  unfold update_native. apply runs_bind. apply (runs_native _ env); [cbn; by rewrite Hn|].
  intros s2 HB2 Hn2 He2 _. eapply runs_ok; [done|].
  apply (runs_update p _ (set_cl_channel c' cl)).
  { cbn. rewrite (sb_heap _ _ HB2). apply lookup_insert_eq. }
  apply runs_ret. split; [done|]. cbn. rewrite !lookup_insert_eq, He2. cbn. rewrite He. by destruct env.
Qed.

(** An environment whose compiler has changed is deleted and then handed
    out. The daemon knows an environment for the compiler that a client asks for,
    but the times of the files are not those it was made with: the tarball is
    unlinked, the entry is kept, since it is looked for under the name of the
    tarball and not under its key, and the client is told to use the tarball. *)
Theorem stale_environment_served p msg cl s cc cxx env :
  let key := (gn_compression msg +:+ ":" +:+ cc)%string in
  d_heap s !! p = Some cl -> is_protocol_version 41 (cl_channel cl) = true -> gn_extrafiles msg = [] ->
  get_c_compiler (gn_compiler msg) = Ok cc -> get_cpp_compiler (gn_compiler msg) = Ok cxx ->
  (forall t path, sys_stat t path <> None) ->
  d_native s !! key = Some env -> ne_name env <> ""%string -> d_native s !! ne_name env = None ->
  (forall mtime mtime', ne_filetimes env <> <[cxx := mtime']> {[cc := mtime]}) -> 0 <= d_cache_size s ->
  (exists c', ch_send (UseNativeEnv (ne_name env)) SendBlocking (cl_channel cl) = Ok (true, c')) ->
  exists s', handle_get_native_env cfg p msg s = Ok (true, s') /\
    d_effects s' = d_effects s ++ [Unlinked (ne_name env)] /\
    ne_name <$> d_native s' !! key = Some (ne_name env) /\
    cl_status <$> d_heap s' !! p = Some GOTNATIVE.
Proof.
  intros key Hp Hv Hx Hcc Hcxx Hst Hk Hne Hno Ht Hc Hs.
  enough (runs (handle_get_native_env cfg p msg) s (fun b s' => b = true /\
    d_effects s' = d_effects s ++ [Unlinked (ne_name env)] /\
    ne_name <$> d_native s' !! key = Some (ne_name env) /\ cl_status <$> d_heap s' !! p = Some GOTNATIVE))
    as (b & s' & E & -> & HQ) by (exists s'; split; [exact E|done]).
  unfold handle_get_native_env. apply (runs_deref p cl); [done|]. rewrite Hv. cbn [negb andb]. cbv zeta.
  rewrite Hcc, Hcxx, Hx. cbn [lift]. apply runs_bind, runs_ret, runs_bind, runs_ret.
  apply runs_asked. intros t1. destruct (sys_stat t1 cc) as [[m1 z1]|] eqn:E1; [|by destruct (Hst t1 cc)].
  apply runs_asked. intros t2. destruct (sys_stat t2 cxx) as [[m2 z2]|] eqn:E2; [|by destruct (Hst t2 cxx)].
  cbn [stat_extrafiles]. apply runs_bind, runs_ret. fold key.
  apply (runs_native _ env); [exact Hk|]. intros s1 HB1 Hn1 He1 Hc1. rewrite decide_False by done.
  rewrite bool_decide_true by apply Ht. apply runs_bind, runs_bind, runs_ret. cbn [when].
  cbn in Hn1, He1, Hc1.
  eapply runs_weaken; [|apply remove_by_name_runs; [done|by rewrite Hn1|by rewrite Hc1|done]].
  intros [] s2 (HB2 & Hn2 & He2).
  assert (d_heap s2 !! p = Some cl) as Hp2 by (by rewrite (sb_heap _ _ HB2), (sb_heap _ _ HB1)).
  apply (runs_update p _ cl); [done|].
  apply (runs_native _ env); [cbn; by rewrite Hn2, Hn1|]. intros s3 HB3 Hn3 He3 _. cbn in Hn3, He3.
  rewrite decide_True by done.
  eapply runs_weaken; [|eapply (finish_get_native_runs p _ key env)].
  - intros b s4 (-> & He4 & HQ). split; [done|]. split; [|done]. by rewrite He4, He3, He2, He1.
  - rewrite (sb_heap _ _ HB3). apply lookup_insert_eq.
  - done.
  - done.
  - by rewrite Hn3, Hn2, Hn1.
  - done.
Qed.
End stale.

(** ** The cache *)

Section cache.
Context `{ChannelLaws} `{System} (cfg : Config) (dump_internals : Daemon -> string).

Lemma bind_ask {A B} (q : nat -> A) (k : A -> daemon B) s :
  (ask q ≫= k) s = k (q (d_asked s)) (set_d_asked (S (d_asked s)) s).
Proof. done. Qed.

Lemma env_in_use_aborts env p cl l s :
  (p, cl) ∈ l -> installing (cl_status cl) = true -> cl_job cl = None ->
  env_in_use env l s = Fault AssertFailed.
Proof.
  intros Hin Hi Hj. induction l as [|[q c] l IH]; [by apply not_elem_of_nil in Hin|].
  apply elem_of_cons in Hin as [[= <- <-]|Hin]; cbn.
  - rewrite Hj. by destruct (cl_status cl).
  - specialize (IH Hin). destruct (cl_status c); try done;
      (destruct (cl_job c) as [job|]; [|done]); cbn; unfold mbind, M_bind; cbn; by rewrite IH.
Qed.

(** While a client installs an environment the cache cannot be cleaned.
    When the cache is over its limit and an installed environment is old enough
    to go, [check_cache_size] asks each client that is installing for its job,
    which it does not have: the assertion fails, and the daemon aborts. *)
Theorem cache_check_aborts p cl name e new_env s now :
  reachable cfg dump_internals s -> d_heap s !! p = Some cl ->
  installing (cl_status cl) = true -> cl_job cl = None ->
  d_received s = {[name := e]} -> k_cache_size_limit cfg < d_cache_size s ->
  (forall t path, sys_access t path = true) ->
  sys_time (d_asked s) = now -> (forall t, (d_asked s <= t)%nat -> now <= sys_time t) ->
  200 < now - re_last_use e ->
  check_cache_size cfg new_env s = Fault AssertFailed.
Proof.
  intros Hr Hp Hi Hj Hrec Hlim Hacc Hnow Htime Hold. pose proof (reachable_good cfg _ s Hr) as HG.
  set (s1 := set_d_asked (S (d_asked s)) s). set (s2 := set_d_asked (S (d_asked s1)) s1).
  set (s3 := set_d_asked (S (d_asked s2)) s2).
  assert (good cfg s3) as HG3 by (by eapply books_inv; [|exact HG]).
  destruct (all_clients_complete cfg s3 HG3) as (l & El & Hl).
  assert (env_in_use name l s3 = Fault AssertFailed) as Euse by (eapply env_in_use_aborts; [by apply Hl|done..]).
  assert (now <= sys_time (d_asked s1)) as Ht by (apply Htime; cbn; lia).
  assert (oldest_received cfg now [(name, e)] (sys_time (d_asked s1) + 90000, ""%string) s2
            = Fault AssertFailed) as Eold.
  { cbn [oldest_received]. rewrite bind_ask, Hacc. cbn [negb fst].
    assert ((re_last_use e <? sys_time (d_asked s1) + 90000) = true) as -> by (apply Z.ltb_lt; lia).
    assert ((200 <? now - re_last_use e) = true) as -> by (apply Z.ltb_lt; lia). cbn [andb].
    fold s3. rewrite (bind_ok _ _ _ _ _ El). unfold mbind, M_bind. by rewrite Euse. }
  assert (forall fuel, check_cache_loop cfg fuel now new_env s1 = Fault AssertFailed) as Hloop.
  { intros fuel. assert ((k_cache_size_limit cfg <? d_cache_size s1) = true) as El1 by (by apply Z.ltb_lt).
    assert (in_name_order (d_received s1) = [(name, e)]) as Er.
    { unfold in_name_order. change (d_received s1) with (d_received s). by rewrite Hrec, map_to_list_singleton. }
    destruct fuel; cbn [check_cache_loop]; rewrite bind_get, El1, Er; cbn [negb];
      rewrite bind_ask; fold s2; unfold mbind at 1, M_bind; by rewrite Eold. }
  unfold check_cache_size. rewrite bind_ask, Hnow, bind_get. apply Hloop.
Qed.
End cache.

(** ** Slots *)

Section slots.
Context `{ChannelLaws} `{System} (cfg : Config) (dump_internals : Daemon -> string).

(** C29: an answer of the scheduler to a client that works loses its slots. A
    client may ask for several servers at once; when it was given slots on this
    machine after the first answer, a second answer for this machine sets it back
    to waiting, and [active_processes] keeps the slots although no client holds
    them any more. *)
Theorem use_cs_leaks_slot p cl msg s :
  reachable cfg dump_internals s -> d_heap s !! p = Some cl -> cl_status cl = CLIENTWORK ->
  cl_client_id cl = i32 (ucs_client_id msg) ->
  (forall q c, d_heap s !! q = Some c -> cl_client_id c = i32 (ucs_client_id msg) -> q = p) ->
  ucs_hostname msg = d_remote_name s -> i32 (ucs_port msg) = k_daemon_port cfg ->
  exists s', scheduler_use_cs cfg msg s = Ok (0, s') /\
    cl_status <$> d_heap s' !! p = Some PENDING_USE_CS /\
    d_active_processes s' =
      u32 (total (slots_held cfg) (d_heap s') + slots_of cfg (cl_fulljob cl)).
Proof.
  intros Hr Hp Hs Hid Huniq Hh Hport. pose proof (reachable_good cfg _ s Hr) as HG.
  destruct (all_clients_complete cfg s HG) as (l & El & Hl).
  assert (find_by_client_id (i32 (ucs_client_id msg)) l = Some (p, cl)) as Ef.
  { destruct (find_by_client_id (i32 (ucs_client_id msg)) l) as [[q c]|] eqn:Ef.
    - apply find_by_client_id_spec in Ef as [Hin Hc]. apply Hl in Hin. cbn in Hc.
      pose proof (Huniq q c Hin Hc) as ->. congruence.
    - unfold find_by_client_id in Ef. assert ((p, cl) ∈ ([] : list (positive * Client))) as Hin.
      { rewrite <- (proj1 (head_None _) Ef). apply list_elem_of_filter. split; [done|]. by apply Hl. }
      by apply not_elem_of_nil in Hin. }
  unfold scheduler_use_cs. rewrite (bind_ok _ _ _ _ _ El), Ef. unfold use_cs. rewrite bind_get, Hh, Hport.
  rewrite bool_decide_true, Z.eqb_refl by done. cbn [andb]. unfold set_pending.
  rewrite (bind_ok _ _ _ _ _ (update_eq _ _ _ _ Hp)).
  erewrite bind_ok; [|apply update_eq, lookup_insert_eq].
  eexists. split; [done|]. cbn. rewrite insert_insert_eq, lookup_insert_eq. split; [done|].
  destruct HG as [[Ha _] _ _]. rewrite Ha. rewrite (total_update _ _ _ cl) by done.
  unfold slots_held at 3 4. rewrite decide_True, decide_False by done. f_equal. lia.
Qed.
End slots.

(** ** Impatient clients *)

Section impatient.
Context `{Channels} `{System} (cfg : Config).

(** The loop that serves the clients of an environment, up to one of them that
    does not wait any longer. *)
Lemma serve_waiting_aborts key p cl s :
  tables s -> d_heap s !! p = Some cl -> cl_pending_create_env cl = key ->
  (forall q c, d_heap s !! q = Some c -> cl_pending_create_env c = key ->
     cl_status c <> WAITCREATEENV) ->
  forall fuel it,
    is_after it (cl_chan cl, p) = true ->
    (length (filter (fun e => is_after it e) (in_order (d_clients s))) <= fuel)%nat ->
    serve_waiting cfg fuel key (next_key it (d_clients s)) s = Fault AssertFailed.
Proof.
  intros [Tc _] Hp Hkey Hall. assert (d_clients s !! cl_chan cl = Some p) as Hk by (apply Tc; eauto).
  induction fuel as [|fuel IH]; intros it Ha Hf;
    destruct (next_key_ahead it _ _ _ Hk Ha) as ([k q] & En & Hq & Hor & Hlt); [lia|].
  rewrite En. cbn [serve_waiting]. cbn in Hq, Hor. apply Tc in Hq as Hq'. destruct Hq' as (c & Hc & Hck).
  rewrite (bind_ok _ _ _ _ _ (deref_eq _ _ _ Hc)).
  destruct (decide (cl_pending_create_env c = key)) as [Epk|Epk].
  - rewrite bool_decide_eq_true_2 by done. cbn [when]. unfold finish_get_native_env.
    rewrite !bind_assoc, (bind_ok _ _ _ _ _ (deref_eq _ _ _ Hc)), !bind_assoc.
    by rewrite (bool_decide_eq_false_2 _ (Hall _ _ Hc Epk)).
  - rewrite bool_decide_eq_false_2 by done. cbn [when]. rewrite bind_ret_l, bind_gets, (bind_need _ _ q) by done.
    apply IH; [|cbn in *; lia]. destruct Hor as [[= -> ->]|Hor]; [|done]. exfalso. congruence.
Qed.

Lemma native_eq {B} key (k : NativeEnvironment -> daemon B) s :
  let env := default new_NativeEnvironment (d_native s !! key) in
  (native key ≫= k) s = k env (set_d_native (<[key := env]> (d_native s)) s).
Proof. done. Qed.

Lemma update_native_eq {B} key f (k : unit -> daemon B) s :
  let m := <[key := default new_NativeEnvironment (d_native s !! key)]> (d_native s) in
  (update_native key f ≫= k) s
  = k tt (set_d_native (<[key := f (default new_NativeEnvironment (d_native s !! key))]> m) s).
Proof. done. Qed.

(** A cache within its limit is left alone. *)
Lemma check_cache_within {B} env (k : unit -> daemon B) s :
  d_cache_size s <= k_cache_size_limit cfg ->
  (check_cache_size cfg env ≫= k) s = k tt (set_d_asked (S (d_asked s)) s).
Proof.
  intros Hle. unfold check_cache_size. rewrite bind_assoc, bind_ask, bind_assoc, bind_get.
  set (fuel := (_ + _)%nat). clearbody fuel.
  assert (check_cache_loop cfg fuel (sys_time (d_asked s)) env (set_d_asked (S (d_asked s)) s)
    = Ok (tt, set_d_asked (S (d_asked s)) s)) as E.
  { destruct fuel; cbn [check_cache_loop]; rewrite bind_get; cbn;
      by rewrite (proj2 (Z.ltb_ge _ _)) by done. }
  by rewrite (bind_ok _ _ _ _ _ E).
Qed.

(** C30: a client that does not wait any longer for its environment makes the
    daemon abort. The client of icecc gives up after four minutes and asks, on the
    same connection, to compile by itself; the daemon goes on to remember that it
    waits for the environment. When the environment is finished then, with a
    tarball that leaves the cache within its limit, and those that are remembered
    to wait for it have all moved on, the assertion about the status of the
    client fails, whatever other clients the tables hold. *)
Theorem impatient_client_aborts key env d line mtime size p cl s :
  tables s -> d_native s !! key = Some env -> ne_create_env_pipe env <> 0 ->
  sys_read (d_asked s) (ne_create_env_pipe env) 1023 = Some d -> first_line d = Some line -> line <> [] ->
  sys_stat (S (d_asked s)) (native_dir cfg +:+ str_of line)%string = Some (mtime, size) -> size <> 0 ->
  u64 (d_cache_size s + size) <= k_cache_size_limit cfg ->
  d_heap s !! p = Some cl -> cl_pending_create_env cl = key ->
  (forall q c, d_heap s !! q = Some c -> cl_pending_create_env c = key ->
     cl_status c <> WAITCREATEENV) ->
  create_env_finished cfg key s = Fault AssertFailed.
Proof.
  intros Ht Henv Hpipe Hread Hline Hne Hstat Hsize Hlim Hp Hkey Hall.
  unfold create_env_finished. rewrite bind_get, (bind_need _ _ env) by done.
  rewrite bind_assert by (by apply negb_true_iff, Z.eqb_neq).
  set (s1 := set_d_asked (S (S (d_asked s))) (set_d_effects (d_effects s ++ [Closed (ne_create_env_pipe env)]) s)).
  assert (finish_create_env cfg (ne_create_env_pipe env) s
    = Ok ((size, Some (native_dir cfg +:+ str_of line)%string), s1)) as Ef.
  { unfold finish_create_env. rewrite bind_ask, Hread.
    destruct d as [|b d]; [discriminate Hline|]. rewrite (bind_need _ _ line) by exact Hline.
    destruct line as [|c line]; [done|]. unfold effect_m. rewrite bind_modify, bind_ask.
    cbn [d_asked set_d_asked set_d_effects]. by rewrite Hstat. }
  rewrite (bind_ok _ _ _ _ _ Ef), update_native_eq, bind_modify, bind_gets.
  cbn [fst snd]. rewrite (proj2 (Z.eqb_neq _ _) Hsize), bind_ask, update_native_eq, native_eq.
  rewrite check_cache_within by (cbn; lia). rewrite bind_gets.
  match goal with |- (serve_waiting _ _ _ _ ≫= _) ?s = _ => set (s2 := s) end.
  assert (same_books s s2) as HB by done.
  unfold mbind, M_bind. rewrite (sb_clients _ _ HB), <- (sb_clients _ _ HB).
  rewrite (serve_waiting_aborts key p cl); [done|exact (books_inv _ _ HB Ht)|exact Hp|done|exact Hall|done|].
  etrans; [apply length_filter|]. unfold in_order. rewrite merge_sort_Permutation.
  by rewrite length_map_to_list.
Qed.
End impatient.

(** ** Samples *)

#[local] Existing Instance store_compressors.
#[local] Existing Instance daemon_channels.
#[local] Existing Instance daemon_laws.
#[local] Existing Instance daemon_returns.

(** A hundred seconds pass between two questions. *)
Definition slow_system : System := system_at (fun t => 100 * Z.of_nat t).

(** A small cache; a client has installed an environment, and another one is
    sending one. *)
Definition small_config : Config :=
  mkConfig 4 4 50 "/envs" "x86_64" 10245 0 false false true false (-1) (-1) 3.
Definition sender (fd : Z) (env : string) : MsgChannel :=
  sample_channel fd "127.0.0.1"
    [EnvTransfer (mkEnvTransferMsg env "x86_64"); FileChunk (mkFileChunkMsg (Some [x61; x62]) 2 2); EndMsg].

Section cache_run.
#[local] Existing Instance slow_system.

Definition act (p : positive) : Daemon -> Daemon := after (handle_activity small_config p).
Definition installed : Daemon :=
  after (handle_env_install_child_done small_config 1)
    (act 1 (act 1 (after (on_client 1 ch_read) (add_client (sender 5 "one") 900 1 (new_Daemon false))))).
Definition sending : Daemon :=
  act 2 (after (on_client 2 ch_read) (add_client (sender 6 "two") 901 2 installed)).

Lemma sending_reachable : reachable small_config (fun _ => ""%string) sending.
Proof.
  assert (reachable small_config (fun _ => ""%string) installed) as Hi.
  { apply after_reachable.
    - intros b s' E. eapply (step_install_done _ _ 1); [| |exact E].
      + vm_compute. reflexivity.
      + vm_compute. reflexivity.
    - apply activity_reachable; [apply activity_reachable|vm_compute; reflexivity];
        [apply read_reachable|vm_compute; reflexivity].
      eapply reachable_step; [apply (reachable_initial _ _ false)|].
      apply (step_accept _ _ (sender 5 "one") 900 1); vm_compute; reflexivity. }
  apply activity_reachable; [apply read_reachable|vm_compute; reflexivity].
  eapply reachable_step; [exact Hi|].
  apply (step_accept _ _ (sender 6 "two") 901 2); vm_compute; reflexivity.
Qed.

Lemma cache_check_aborts_witness :
  check_cache_size small_config "x86_64/three" sending = Fault AssertFailed.
Proof.
  assert ((fun cl => (cl_status cl, cl_job cl)) <$> d_heap sending !! 2%positive = Some (TOINSTALL, None)) as E
    by (vm_compute; reflexivity).
  destruct (d_heap sending !! 2%positive) as [cl|] eqn:Hp; [|discriminate E]. injection E as Hs Hj.
  assert (installing (cl_status cl) = true) as Hi by (rewrite Hs; reflexivity).
  assert (d_asked sending = 15%nat) as Ha by (vm_compute; reflexivity).
  apply (cache_check_aborts small_config (fun _ => ""%string) 2 cl "x86_64/one"
           (mkReceivedEnvironment 400 100) _ sending 1500 sending_reachable Hp Hi Hj).
  - vm_compute. reflexivity.
  - vm_compute. reflexivity.
  - reflexivity.
  - rewrite Ha. reflexivity.
  - intros t Ht. rewrite Ha in Ht. change (1500 <= 100 * Z.of_nat t). lia.
  - reflexivity.
Defined.
End cache_run.

Section other_runs.
#[local] Existing Instance sample_system.

Lemma use_cs_leaks_slot_witness :
  exists s', scheduler_use_cs sample_config (mkUseCSMsg 7 "" 10245 "x86_64" 1 1 0) linking = Ok (0, s') /\
    d_active_processes s' = u32 (total (slots_held sample_config) (d_heap s') + 4).
Proof.
  assert ((fun cl => (cl_status cl, cl_client_id cl, cl_fulljob cl)) <$> d_heap linking !! 1%positive
            = Some (CLIENTWORK, 1, true)) as E by (vm_compute; reflexivity).
  assert (dom (d_heap linking) = {[1%positive]} :> gset positive) as Hd by (vm_compute; reflexivity).
  destruct (d_heap linking !! 1%positive) as [cl|] eqn:Hp; [|discriminate E]. injection E as Hs Hid Hf.
  destruct (use_cs_leaks_slot sample_config (fun _ => ""%string) 1 cl (mkUseCSMsg 7 "" 10245 "x86_64" 1 1 0)
              linking linking_reachable Hp Hs) as (s' & E & _ & Ha).
  - rewrite Hid. reflexivity.
  - intros q c Hq _. apply elem_of_dom_2 in Hq. rewrite Hd in Hq. apply elem_of_singleton in Hq. exact Hq.
  - vm_compute. reflexivity.
  - reflexivity.
  - exists s'. split; [exact E|]. rewrite Ha, Hf. reflexivity.
Defined.

(** A client of gcc, whose environment was made when its files were older. *)
Definition old_env : NativeEnvironment :=
  mkNativeEnvironment "/envs/native/abc.tar.gz" {["/usr/bin/gcc" := 400]} 900 10 0.
Definition changed : Daemon :=
  set_d_cache_size 10 (set_d_native {["gzip:/usr/bin/gcc" := old_env]}
    (add_client (sample_channel 5 "127.0.0.1" []) 900 1 (new_Daemon false))).

Lemma stale_environment_served_witness :
  exists s', handle_get_native_env sample_config 1 (mkGetNativeEnvMsg "/usr/bin/gcc" [] "gzip") changed = Ok (true, s') /\
    d_effects s' = [Unlinked "/envs/native/abc.tar.gz"] /\
    ne_name <$> d_native s' !! "gzip:/usr/bin/gcc"%string = Some "/envs/native/abc.tar.gz"%string.
Proof.
  destruct (stale_environment_served sample_config 1 (mkGetNativeEnvMsg "/usr/bin/gcc" [] "gzip")
    (new_Client 1 900 (sample_channel 5 "127.0.0.1" [])) changed "/usr/bin/gcc" "/usr/bin/g++" old_env)
    as (s' & E & He & Hn & _).
  - vm_compute. reflexivity.
  - reflexivity.
  - reflexivity.
  - vm_compute. reflexivity.
  - vm_compute. reflexivity.
  - discriminate.
  - vm_compute. reflexivity.
  - discriminate.
  - vm_compute. reflexivity.
  - intros m m' E. apply (f_equal (lookup "/usr/bin/g++"%string)) in E.
    rewrite lookup_insert_eq in E. vm_compute in E. discriminate E.
  - vm_compute. discriminate.
  - eexists. reflexivity.
  - exists s'. split; [exact E|]. split; [exact He|exact Hn].
Defined.
End other_runs.

Section impatient_run.
(** Environments can be made: the child writes the name of one. *)
Definition making_system : System := {|
  sys_time := fun _ => 1000; sys_gettimeofday := fun _ => (1000, 0); sys_rand := fun _ => 0;
  sys_access := fun _ _ => true; sys_stat := fun _ _ => Some (500, 10);
  sys_write := fun _ _ b => inl (Z.of_nat (length b)); sys_read := fun _ _ _ => Some [x61; x2e; x74; x67; x7a; x0a; x00];
  sys_fork_compile := fun _ => Some (77, 20); sys_fork_install := fun _ _ => Some (77, 21, 22);
  sys_sumup_dir := fun _ _ => 100; sys_readdir := fun _ _ => Some []; sys_create_env := fun _ _ _ _ => 23;
  sys_run_true := fun _ _ => 0;
  sys_fill_stats := fun _ _ => (0, 0, 0, mkStatsMsg 0 0 0 0 1000 0); sys_getrusage := fun _ => None;
  sys_statfs := fun _ => None; sys_uname := fun _ => Some "node"%string;
  sys_try_scheduler := fun _ => None; sys_timed_out := fun _ => false;
  sys_getsockname := fun _ => None; sys_poll := fun _ _ => inr []; sys_accept := fun _ _ => None;
  sys_exit := fun _ => false
|}.
#[local] Existing Instance making_system.

(** The client of gcc asks for its environment, then to compile by itself. *)
Definition impatient : Daemon :=
  after (handle_activity sample_config 1) (after (handle_activity sample_config 1)
    (after (on_client 1 ch_read) (add_client (sample_channel 5 "127.0.0.1"
      [GetNativeEnv (mkGetNativeEnvMsg "/usr/bin/gcc" [] "gzip");
       JobLocalBegin (mkJobLocalBeginMsg "a.o" 0 0 false 0)]) 900 1 (new_Daemon false)))).

Lemma impatient_client :
  exists cl, d_heap impatient !! 1%positive = Some cl /\ cl_status cl = LINKJOB /\
    cl_pending_create_env cl = "gzip:/usr/bin/gcc"%string /\ cl_chan cl = 900 /\
    c_fd (cl_channel cl) = 5 /\ forall q c, d_heap impatient !! q = Some c -> q = 1%positive.
Proof.
  assert ((fun cl => (cl_status cl, cl_pending_create_env cl, cl_chan cl, c_fd (cl_channel cl)))
            <$> d_heap impatient !! 1%positive = Some (LINKJOB, "gzip:/usr/bin/gcc"%string, 900, 5)) as E
    by (vm_compute; reflexivity).
  assert (dom (d_heap impatient) = {[1%positive]} :> gset positive) as Hd by (vm_compute; reflexivity).
  destruct (d_heap impatient !! 1%positive) as [cl|]; [|discriminate E].
  injection E as E1 E2 E3 E4. exists cl. do 5 (split; [done|]).
  intros q c Hq%elem_of_dom_2. rewrite Hd in Hq. by apply elem_of_singleton in Hq.
Qed.

Lemma single_tables s cl p :
  d_heap s !! p = Some cl -> (forall q c, d_heap s !! q = Some c -> q = p) ->
  d_clients s = {[cl_chan cl := p]} -> d_fd2client s = {[c_fd (cl_channel cl) := p]} -> tables s.
Proof.
  intros Hp Hall Ec Ef. split; intros k q; rewrite ?Ec, ?Ef, lookup_singleton_Some;
    (split; [intros [<- <-]; eauto|]);
    intros (cl' & Hq & Ek); pose proof (Hall _ _ Hq) as ->; rewrite Hp in Hq; by injection Hq as <-.
Qed.

Lemma impatient_tables : tables impatient.
Proof.
  destruct impatient_client as (cl & Hp & _ & _ & Hc & Hf & Hall).
  apply (single_tables _ cl 1 Hp Hall); rewrite ?Hc, ?Hf; vm_compute; reflexivity.
Qed.

Lemma impatient_client_aborts_witness :
  create_env_finished sample_config "gzip:/usr/bin/gcc" impatient = Fault AssertFailed.
Proof.
  destruct impatient_client as (cl & Hp & Hs & Hk & _ & _ & Hall).
  assert (ne_create_env_pipe <$> d_native impatient !! "gzip:/usr/bin/gcc"%string = Some 23) as En
    by (vm_compute; reflexivity).
  destruct (d_native impatient !! "gzip:/usr/bin/gcc"%string) as [env|] eqn:Hn; [|discriminate En].
  injection En as Hpipe.
  eapply (impatient_client_aborts sample_config "gzip:/usr/bin/gcc" env
    [x61; x2e; x74; x67; x7a; x0a; x00] [x61; x2e; x74; x67; x7a] 500 10 1 cl impatient impatient_tables Hn).
  - rewrite Hpipe. discriminate.
  - reflexivity.
  - reflexivity.
  - discriminate.
  - reflexivity.
  - discriminate.
  - vm_compute. discriminate.
  - exact Hp.
  - exact Hk.
  - intros q c Hq _. rewrite (Hall _ _ Hq) in Hq. rewrite Hp in Hq. injection Hq as <-.
    rewrite Hs. discriminate.
Defined.
End impatient_run.
